(* ===== verification/_CoqProject ===== *)
-Q . S2P
Prelude.v
CxxString.v
State.v
Errors.v
Path.v
VirtualPath.v
Acl.v
Numbers.v
Strings.v
Passwd.v
Transaction.v
UserData.v
User.v
Group.v
UserCache.v
Control.v
Counters.v
Client.v
Session.v
Strength.v
Mode.v
Kernel.v
Rights.v
Settings.v
Policies.v
Config.v
Crc32.v
AsyncCrc.v
NetFtp.v
Data.v
Credits.v
Transfer.v
Template.v
Messages.v
Arguments.v
Nuke.v
Files.v
Directories.v
Calendar.v
FileCommands.v
Connection.v
Accounts.v
Memory.v
Saves.v
SiteState.v
SiteUsers.v
SiteChange.v
SiteGroups.v
SiteSafety.v
SiteCredits.v
SiteLicence.v
Listing.v
ListingSafety.v
SiteFactory.v
SiteArguments.v
SiteDispatch.v
Replicator.v
XDupe.v
Mail.v
Defaults.v
Server.v
ServerLive.v
