(* ===== verification/Prelude.v ===== *)
(** * ebftpd: a verification development

    ebftpd is an FTP server: one thread per session reads command lines from a
    control connection, looks the command up in a table, checks that the
    session is in the state the command needs and that the user has the right
    to it, and runs it.  Transfers run in the thread of their session, over a
    data connection that the session sets up before.  The sessions share a few
    counters and allocators, the configuration (a snapshot per thread) and the
    caches of the users and groups, whose records are kept in a database.
    This library translates the decisions of the server, what it keeps in
    memory and the text it parses and prints, and leaves system calls,
    the database, OpenSSL and boost as parameters.

    ** The files, and what they model (paths are below src/src and
    src/util/util)

    Vocabulary
    - Prelude.v: strings as lists of bytes, the type [result] of code that may
      throw, hints and lemmas all files share.
    - CxxString.v: std::string and util/string.cpp; boost::split, the case
      conversions and fnmatch(3) are the classes [Split], [Trim], [CaseConv] and
      [Fnmatch], with laws ([SplitOk]) where something is assumed.
    - Numbers.v: decimal text and the wrappers of std::stoi.  Strings.v: the rest of
      util/string.cpp (white space, wrapping of lines, booleans, cases).
    - State.v: computations that change a state and may throw, with the rules for
      their postconditions.
    - Errors.v: the exceptions of the configuration parser (cfg/error.hpp).

    Names of files
    - Path.v: util/path/path.cpp.  The specification is a walk in a directory
      tree whose root is its own parent.
    - VirtualPath.v: fs/path.cpp, the sandbox every path argument goes through.

    The file system
    - Mode.v: fs/mode.cpp.  Kernel.v: the system calls, util/path/status.cpp and
      fs/owner.cpp.
    - Files.v: fs/file.cpp, fs/directory.cpp, fs/chmod.cpp and the iterators of
      directories; Directories.v: what holds of the operations on directories.
    - Listing.v: cmd/rfc/dirlist.cpp, fs/direnumerator.cpp; ListingSafety.v: what a
      listing shows.
    - Calendar.v: the parts of <time.h> that MDTM and MFMT use.  FileCommands.v:
      cmd/rfc/cwd.cpp, the commands of cmd/rfc/commands.cpp on files and
      directories, exec/check.cpp.

    Users and rights
    - Acl.v: acl/flags.cpp, permission.cpp, acl.cpp.  [Evaluate] stores its first
      answer in the object; the object is threaded through all users of it.
    - UserData.v, Transaction.v, User.v, Group.v: acl/userdata.hpp,
      util/scopeguard.hpp, acl/user.cpp, acl/group.cpp.  A mutator is a
      computation in a state and exception monad over the record in memory
      and the list of accepted saves.
    - Passwd.v: the hexadecimal encoding of util/passwd.cpp.
    - UserCache.v: db/user/usercache.cpp, db/group/groupcache.cpp.
    - Strength.v: acl/ipstrength.hpp, acl/passwdstrength.hpp.
    - Rights.v: acl/path.cpp.  Policies.v: acl/misc.cpp, stats/util.cpp.

    The database
    - Connection.v: db/connection.cpp, over a server of which only the documented
      effects of requests are assumed and which may fail at each ([CollectionOk],
      [Reliable] for one that does not).  Memory.v: such a server.
    - Accounts.v: db/user/user.cpp, db/group/group.cpp and what acl/user.cpp and
      acl/group.cpp forward to them.
    - Mail.v: db/mail/mail.cpp, SITE MSG, and the purge of the trash when a session
      ends.
    - Defaults.v: acl/util.cpp, what the server creates in an empty database and the
      lookups past the caches.
    - Replicator.v: db/replicator.cpp and the Replicate of both caches: how a server
      follows the log of changes that another one writes.

    Configuration
    - Settings.v: the constructors of cfg/setting.cpp, cfg/util.cpp.
    - Config.v: cfg/config.cpp, section.cpp, defaults.cpp, get.cpp.

    The session
    - Control.v: ftp/controlimpl.cpp, ftp/util.cpp.
    - Client.v and Session.v: ftp/clientimpl.cpp, the table of
      cmd/rfc/factory.cpp, cmd/rfc/pass.cpp and the commands of
      cmd/rfc/commands.cpp that act on the session; definitions in the first,
      theorems in the second.

    The server
    - Server.v: ftp/server.cpp, ftp/task/task.cpp, and of ftp/clientimpl.cpp what the
      threads see of each other; ServerLive.v: what comes if the thread of the server
      gets its turns.

    Shared state
    - Counters.v: ftp/transfercounter.cpp, logincounter.cpp, speedcounter.cpp,
      portallocator.hpp, addrallocator.hpp.

    Transfers
    - NetFtp.v: util/net/ipaddress.cpp, endpoint.cpp, ftp.cpp.
    - Data.v: ftp/data.cpp, data.hpp, transferstate.hpp, and the commands of
      cmd/rfc/commands.cpp that set a data connection up.
    - Crc32.v: util/sliceby8.cpp, crc32.hpp.  AsyncCrc.v: util/asynccrc32.hpp.
    - Credits.v: the credits of db/user/user.cpp.
    - Transfer.v: cmd/rfc/retr.cpp, cmd/rfc/stor.cpp.  XDupe.v: ftp/xdupe.cpp, SITE
      XDUPE.

    Site commands and their texts
    - Arguments.v: cmd/arguments.cpp and the cutting of command lines.
    - Template.v: text/parser.cpp, tag.cpp, templatesection.cpp.  Messages.v:
      text/factory.cpp, the values every message may name (text/util.cpp), and
      the tables of stats/.
    - Nuke.v: cmd/site/nuking.cpp, db/nuking/nuking.cpp and the updates of
      db/stats/stats.cpp.

    - SiteState.v: the state of a site command.  SiteUsers.v: the commands of
      cmd/site/commands.cpp that change users, adduser.cpp; SiteChange.v: change.cpp;
      SiteGroups.v: the commands on groups, grpchange.cpp.
    - Saves.v: which saves a setter makes.  SiteSafety.v: what all site commands
      keep, and runs of them.  SiteCredits.v: GIVE.  SiteLicence.v: who may CHANGE
      what.
    - SiteFactory.v: the table of cmd/site/factory.cpp, the check of the arguments of
      every command, and SITE itself (cmd/rfc/commands.cpp); SiteArguments.v: what the
      check promises the commands; SiteDispatch.v: the commands of the other files run
      by way of it.

    ** How the code is represented

    A std::string is a list of bytes, and indexing it at its length gives
    NUL.  Machine integers are [Z] (or [N] where unsigned arithmetic on bits is
    meant), with the bounds and the wrap-around written out where the code
    depends on them (sizes in Settings.v, [uint32_t] in Crc32.v, ports in
    NetFtp.v).  An exception is [Throw]; a [catch] is a match on it; a scope
    guard is a combinator ([transaction], [finally]) that runs on both ways out.
    An object that the code mutates while it seems to read it (the memoised
    answer of an ACL, the iterator of the port allocator) is returned by the
    function that mutates it.  Mutexes are held for the whole of the operations
    concerned, so an operation is one function; where two threads do
    interleave (AsyncCrc.v, Server.v) each critical section is one step of a
    relation.
    Answers of system calls are either an argument of the one operation that
    asks, or a function of the number of the call (Data.v) or of all the calls
    made before (Kernel.v, Nuke.v), so that nothing depends on two calls giving
    the same answer.  A variable that the code reads without having set it is a
    parameter.

    ** What the theorems show

    - Sessions: every reachable server state satisfies the invariant that ties
      the state of each session to its user and to the login counter
      ([session_invariant]); the session refines an abstract state machine
      ([Handle_round_refines]); nobody is logged in without the password of the user he
      named, from an address that this user may come from ([login_authenticated]);
      before that no command has an effect on anything outside the session, but for the
      login itself, which is recorded and may interrupt another session of the user
      ([not_logged_in_harmless]); every sequence of reply parts reaches the wire
      as one well-formed reply ([say_one_reply]).
    - Threads: the login counter, the clean-up of sessions and the futures stay right
      under every interleaving, but for three failures that are named ([server_safe]);
      who waits for an answer gets it ([answers_come]), and the server ends but for a
      session that asks too late ([server_stops]).
    - Paths and rights: the text of a path never leads out of the site
      ([PathFromUser_sandbox], [Resolve_spec]); the rights refine a
      first-match specification over all rules ([Allowed_refines]).
    - Configuration: a file that loads gives a configuration within its bounds,
      and no line, whatever its words, makes the parser read past them, but
      for two options that are named ([Load_ok], [Parse_defined]).
    - Users: each operation on groups refines one on an abstract list of groups
      ([gid_ops_refine]); a setter whose save throws an exception is undone in memory, up
      to the salt of a password, while a save that the database merely refuses goes
      unnoticed ([User_ops_atomic]; [SetPassword_VerifyPassword] is a lemma).
    - Accounts: the server creates the accounts it needs, and no sequence of the
      twenty-three site commands on accounts, whatever calls to the database fail, takes
      them away, if what else is written in between does not
      ([accounts_from_start]; the lemma [required_accounts_kept] is its second half); SITE
      CHANGE changes only what the rules grant ([CHANGE_licensed]); SITE runs a command
      only for who has the right to it, with arguments that are there
      ([SITE_licensed], [args_present]); credits that are given away are paid for
      ([GIVE_conserves]).
    - Mail: a mail changes only as its recipient asks, saved mail outlives the session,
      and what is sent arrives ([mail_kept]).
    - Servers: the caches of a server that follows the log end up with the records of
      the database, but for changes that are not in the log, or whose entries were not
      read: they had been dropped from it, or their ids were not greater than that of an
      entry seen before ([caches_catch_up]; the maps from names to ids are not covered).
    - Counters: each refines a bag of the active users ([LoginCounter_refines],
      [TransferCounter_refines], [SpeedCounter_refines]); the allocator hands
      out the ports in turn ([PortAllocator_round_robin], a lemma).
    - Files: no system call changes anything without the rights that justify it
      ([requests_licensed]); what goes with a directory that is removed, and
      the size of one ([RemoveDirectory_spec], [DirectorySize_spec]); what DELE
      takes from whom ([DELECommand_spec]), and, as a lemma, which directories CWD
      enters ([CWDCommand_spec]).
    - Listings: only entries that the user may view are listed, although the total line
      counts the others ([listing_admitted]), a
      directory is read completely and in the order asked for ([Readdir_spec]), and
      the recursion ends ([Execute_ends]).
    - Text: modes, ACLs, arguments, templates, and the addresses of PORT, LPRT and
      EPRT are read back as they are printed ([Compile_show], [Parse_print],
      [Create_print], [port_strings_roundtrip]); the parser of arguments never
      reads past the line ([Arguments_safe]); a template is filled with the
      values registered for it ([Compile_fills]), and the table of users adds them up
      ([CompileUserRanks_spec]).
    - Nukes: only who may nuke does, the uploaders are charged for what is
      there, and an unnuke gives back what the nuke took
      ([NUKECommand_guarded], [CalculateNukees_spec], [DoUnnuke_DoNuke]).
    - Data connection and transfers: no byte of a file is sent without the
      checks ([Open_safe], with the flags of the FXP rules the way round the code has
      them, and [RETR_guarded]); listening ends
      ([InitPassive_ends]); what a download costs, what an upload leaves, in every case
      ([RETR_price], [STOR_outcome]); the counters are always released
      ([transfers_release]).  The names of an extended dupe reply are packed in lines
      that fit (the lemmas [MessageOne_packs], [MessageFour_fits]).
    - Checksums: the table driven routine is the CRC ([CRC32_updates_ref]); the
      thread it runs in computes the checksum of what it was given, and none
      of its callers waits for ever ([Checksum_correct], [calls_return]).

    ** Bounds and fuel

    Recursion is structural wherever the code's is over data.  Otherwise:
    [NextPort] looks twice at the current range, of which the second look always
    succeeds when there is a port at all; the compiler of modes has the length
    of the text plus one, and consumes a byte in every round; the digits of a
    number have its binary logarithm plus one, hexadecimal output of 32 bits
    eight; passive mode tries twice the addresses and twice the ports and four
    more ([enough]), and [InitPassive_ends] shows that the result is then that
    of the unbounded loop.  The loops over the characters of a
    string and of [WordWrap] have its length (plus two for the searches, which look past
    the end once).  The includes of a template are nested as deep as an
    argument says; the parser of arguments has the length of the line plus one;
    [DirectorySize] has the depth the code is given; a listing nests no more calls
    than its path has words between slashes, and one, or than its limit, and one
    ([Execute_ends]; without a limit it ends only as the file system does); an insertion into the
    database goes round as often as an argument says, and [InsertAutoIncrement_loops]
    shows that no number is enough when the server goes on failing, while once is
    enough when it does not ([InsertAutoIncrement_reliable]).  The thread that follows
    the log needs one round more than the log has entries.  Client input, the blocks of a file and the moves of
    the threads are lists or step relations without a bound; the pipe of the server has
    the capacity an argument says, and what happens when it is full is named.

    ** What is not modelled

    What system calls do (files, sockets, processes, signals), TLS, opening the
    listeners, the table of who is online (ftp/online.cpp),
    the driver of the database, starting and stopping the thread that follows its
    log, logging, the bodies of the site commands that only show something (that
    they are found and admitted is in SiteFactory.v), and the stand-alone tools.  Some
    of what is left out does decide something: SITE WIPE, CHMOD and CHOWN with their
    globs (fs/globiterator.cpp), the control of speeds, the contexts of TLS, and the
    moment in ftp/clientimpl.cpp between a change of the state and the logout that goes
    with it, which Server.v takes for one step.  In the session, the commands outside the files
    above are one parameter whose effects on the session are listed in
    Client.v.  The clock enters as an argument.  A double is a binary64 number of
    SpecFloat; boost::format and util/titlecase.cpp (regular expressions) are
    parameters. *)

From stdpp Require Export base decidable option list numbers strings.
From Stdlib Require Export Ascii ZArith Lia.
From Stdlib Require Import String.

(** ** Strings

    A [std::string] is a finite sequence of bytes: a [list ascii].  Literals
    are written [lit "..."]. *)

Abbreviation str := (list ascii).

Definition lit (s : string) : str := list_ascii_of_string s.
Arguments lit !s%_string.

Declare Scope str_scope.
Delimit Scope str_scope with str.
Notation "'NUL'" := (Ascii.Ascii false false false false false false false false).
Notation "'CR'" := (Ascii.Ascii true false true true false false false false).
Notation "'LF'" := (Ascii.Ascii false true false true false false false false).

(** The code of a byte, as the [unsigned char] it is. *)
Definition code (c : ascii) : Z := Z.of_N (N_of_ascii c).

(** ** Results: code that may throw *)

Inductive result (E A : Type) : Type :=
  | Ok (a : A)
  | Throw (e : E).
Arguments Ok {E A} a.
Arguments Throw {E A} e.

Definition rbind {E A B} (r : result E A) (k : A → result E B) : result E B :=
  match r with Ok a => k a | Throw e => Throw e end.

Notation "'let!' x ':=' r 'in' k" := (rbind r (fun x => k))
  (at level 10, x name, r at level 100, k at level 200) : str_scope.

Lemma Ok_inj {E A} (a b : A) : Ok (E := E) a = Ok b → a = b.
Proof. congruence. Qed.

Definition is_Ok {E A} (r : result E A) : Prop := ∃ a, r = Ok a.

(** ** [util::Error] (util/util/error.hpp): success, an errno or a message. *)

Inductive error : Type :=
  | Success
  | FailureErrno (errno : Z)
  | FailureMsg (message : str).

#[global] Instance error_eq_dec : EqDecision error.
Proof. solve_decision. Defined.

(** [operator bool] *)
Definition err_ok (e : error) : bool :=
  match e with Success => true | _ => false end.

(** [Errno()]: 0 when no errno was recorded. *)
Definition err_errno (e : error) : Z :=
  match e with FailureErrno n => n | _ => 0%Z end.

(** [Message()] *)
Definition err_message (strerror : Z → str) (e : error) : str :=
  match e with Success => lit "Success" | FailureErrno n => strerror n | FailureMsg m => m end.

Lemma err_ok_true e : err_ok e = true ↔ e = Success.
Proof. destruct e; cbn; naive_solver. Qed.

(** The errno values of <errno.h> that the code tests or produces. *)
Definition ENOENT : Z := 2.
Definition EACCES : Z := 13.
Definition EEXIST : Z := 17.
Definition ENOTDIR : Z := 20.
Definition EINVAL : Z := 22.
Definition EPFNOSUPPORT : Z := 96.

(** ** Generic lemmas on lists *)

Section lists.
Context {A : Type}.
Implicit Types (l k : list A) (x : A).

Lemma filter_all (P : A → Prop) `{∀ x, Decision (P x)} l :
  Forall P l → filter P l = l.
Proof.
  induction 1 as [|x l Hx _ IH]; [done|]. by rewrite filter_cons_True, IH.
Qed.

Lemma Forall_removelast (P : A → Prop) l : Forall P l → Forall P (removelast l).
Proof.
  induction 1 as [|x l Hx Hl IH]; [done|]. destruct l; cbn in *; auto.
Qed.

Lemma removelast_snoc l x : removelast (l ++ [x]) = l.
Proof. apply removelast_last. Qed.
End lists.

(** ** Tables: the first row with the key *)

Fixpoint assoc {A} (k : str) (l : list (str * A)) : option A :=
  match l with
  | [] => None
  | (k', v) :: l' => if decide (k' = k) then Some v else assoc k l'
  end.

Lemma assoc_in {A} name (l : list (str * A)) v : assoc name l = Some v → (name, v) ∈ l.
Proof.
  induction l as [|[n v'] l IH]; [done|]. cbn [assoc]. case_decide as Hn.
  - intros [= ->]. subst. left.
  - intros Hv. right. by apply IH.
Qed.

(** ** Automation

    The hint database [ebftpd] holds the lemmas every component uses; the
    components add theirs to it. *)

Create HintDb ebftpd discriminated.
#[export] Hint Constants Opaque : ebftpd.
#[export] Hint Variables Opaque : ebftpd.
#[export] Hint Resolve Forall_removelast filter_all : ebftpd.
#[export] Hint Extern 4 (_ = _) => lia : ebftpd.
#[export] Hint Extern 4 (_ ≤ _) => lia : ebftpd.
#[export] Hint Extern 4 (_ ≤ _)%Z => lia : ebftpd.
#[export] Hint Extern 4 (_ < _)%Z => lia : ebftpd.

(** [inv_ok] turns an equation between results into an equation of their
    contents, and discards the impossible ones. *)
Ltac inv_ok :=
  repeat match goal with
    | H : Ok _ = Ok _ |- _ => injection H as H; subst
    | H : Throw _ = Throw _ |- _ => injection H as H; subst
    | H : Ok _ = Throw _ |- _ => discriminate H
    | H : Throw _ = Ok _ |- _ => discriminate H
    | H : is_Ok (Throw _) |- _ => destruct H as [? H]; discriminate H
    end.

(** [case_if] splits on the scrutinee of every [if] or [match] in the goal
    or in a hypothesis, keeping its equation. *)
Ltac case_scrutinee :=
  match goal with
  | |- context [match ?x with _ => _ end] => destruct x eqn:?
  | H : context [match ?x with _ => _ end] |- _ => destruct x eqn:?
  end.
Ltac crush := repeat (case_scrutinee; simplify_eq/=; inv_ok); try done.
