(* ===== verification/CxxString.v ===== *)
(** * std::string and the string functions of util/

    The operations of [std::string] the code uses, and the wrappers of
    util/util/string.cpp around third-party code: boost::split, fnmatch(3) and
    the case conversions, which are operational classes ([Split], [Fnmatch]);
    what the development assumes of the first is [SplitOk], and of the second
    nothing.  [ref_split], which satisfies the laws, and [ref_fnmatch] are
    concrete functions with which the witnesses are evaluated. *)

From stdpp Require Import prelude.
From S2P Require Import Prelude.
Local Open Scope list_scope.

(** ** Positions: [None] is [std::string::npos]. *)

Fixpoint find_from (c : ascii) (s : str) (pos : nat) : option nat :=
  match s with
  | [] => None
  | x :: s' => if decide (x = c) then Some pos else find_from c s' (S pos)
  end.

(** [s.find(c)] and [s.find(c, pos)] *)
Definition find (c : ascii) (s : str) : option nat := find_from c s 0.
Definition find_at (c : ascii) (s : str) (pos : nat) : option nat :=
  find_from c (drop pos s) pos.

(** [s.find_last_of(c)] *)
Fixpoint find_last_of (c : ascii) (s : str) : option nat :=
  match s with
  | [] => None
  | x :: s' =>
      match find_last_of c s' with
      | Some n => Some (S n)
      | None => if decide (x = c) then Some 0 else None
      end
  end.

(** [s.substr(pos, len)]; [s.substr(pos)] is [drop pos s]. *)
Definition substr (s : str) (pos len : nat) : str := take len (drop pos s).

(** [s[i]]: reading one past the end of a [std::string] yields [NUL]. *)
Definition char_at (s : str) (i : nat) : ascii := default NUL (s !! i).

Lemma char_at_0 c s : char_at (c :: s) 0 = c.
Proof. done. Qed.

Lemma char_at_S c s n : char_at (c :: s) (S n) = char_at s n.
Proof. done. Qed.

(** [boost::starts_with], [s.compare(0, n, t) == 0] with [n = |t|]. *)
Definition starts_with (s t : str) : bool := bool_decide (take (length t) s = t).

Lemma starts_with_spec s t : starts_with s t = true ↔ ∃ k, s = t ++ k.
Proof.
  unfold starts_with. rewrite bool_decide_eq_true. split.
  - intros H. exists (drop (length t) s). by rewrite <- H at 1; rewrite take_drop.
  - intros [k ->]. apply take_app_length.
Qed.

Lemma find_from_None c s n : find_from c s n = None ↔ c ∉ s.
Proof.
  revert n. induction s as [|x s IH]; intros n; cbn.
  - split; [intros _; apply not_elem_of_nil | done].
  - rewrite not_elem_of_cons. case_decide; [subst; split; [done | by intros [[] _]]|].
    rewrite IH. split; [done | by intros [_ ?]].
Qed.

Lemma find_None c s : find c s = None ↔ c ∉ s.
Proof. apply find_from_None. Qed.

(** [s.find(c) != npos] *)
Definition has_char (c : ascii) (s : str) : bool :=
  match find c s with Some _ => true | None => false end.

Lemma has_char_true c s : has_char c s = true ↔ c ∈ s.
Proof.
  unfold has_char. destruct (find c s) eqn:E.
  - split; [intros _ | done]. apply dec_stable. intros H. apply find_None in H. congruence.
  - apply find_None in E. by split.
Qed.

Lemma has_char_false c s : has_char c s = false ↔ c ∉ s.
Proof. rewrite <- not_true_iff_false. by rewrite has_char_true. Qed.

Lemma find_from_app c s t n :
  c ∉ s → find_from c (s ++ c :: t) n = Some (n + length s).
Proof.
  revert n. induction s as [|x s IH]; intros n; cbn.
  - intros _. rewrite decide_True by done. f_equal; lia.
  - rewrite not_elem_of_cons. intros [Hx Hs]. rewrite decide_False by congruence.
    rewrite IH by done. f_equal; lia.
Qed.

Lemma find_last_of_None c s : find_last_of c s = None ↔ c ∉ s.
Proof.
  induction s as [|x s IH]; cbn.
  - split; [intros _; apply not_elem_of_nil | done].
  - rewrite not_elem_of_cons. destruct (find_last_of c s) as [n|].
    + split; [done|]. intros [_ H]. by apply IH in H.
    + case_decide; [subst; split; [done | by intros [[] _]]|].
      split; [intros _; split; [congruence | by apply IH] | done].
Qed.

Lemma find_last_of_app c s t :
  c ∉ t → find_last_of c (s ++ c :: t) = Some (length s).
Proof.
  intros Ht. induction s as [|x s IH]; cbn.
  - rewrite (proj2 (find_last_of_None c t)) by done. by rewrite decide_True.
  - by rewrite IH.
Qed.

(** Every occurrence splits the string at the last one. *)
Lemma find_last_of_split c s n :
  find_last_of c s = Some n →
  s = (take n s ++ c :: drop (S n) s) ∧ (c ∉ drop (S n) s) ∧ n < length s.
Proof.
  revert n. induction s as [|x s IH]; intros n; cbn; [done|].
  destruct (find_last_of c s) as [m|] eqn:Hm.
  - intros [= <-]. destruct (IH m eq_refl) as (H1 & H2 & H3). cbn.
    rewrite <- H1. repeat split; auto with lia.
  - case_decide; [|done]. intros [= <-]. subst. cbn. rewrite drop_0.
    apply find_last_of_None in Hm. repeat split; auto with lia.
Qed.

(** ** Joining and splitting at one character *)

(** [util::Join(cont, std::string(1, d))] *)
Fixpoint join (d : ascii) (ts : list str) : str :=
  match ts with
  | [] => []
  | [t] => t
  | t :: ts => t ++ d :: join d ts
  end.

(** Splitting at every occurrence of [d]. *)
Fixpoint split_char (d : ascii) (s : str) : list str :=
  match s with
  | [] => [[]]
  | c :: s' =>
      if decide (c = d) then [] :: split_char d s'
      else match split_char d s' with
           | t :: ts => (c :: t) :: ts
           | [] => [[c]]
           end
  end.

Lemma join_cons d t ts : ts ≠ [] → join d (t :: ts) = t ++ d :: join d ts.
Proof. by destruct ts. Qed.

Lemma join_nil_cons d ts : ts ≠ [] → join d ([] :: ts) = d :: join d ts.
Proof. intros H. by rewrite join_cons. Qed.

Lemma join_cons_char d c t ts : join d ((c :: t) :: ts) = c :: join d (t :: ts).
Proof. by destruct ts. Qed.

Lemma join_snoc d ts t : ts ≠ [] → join d (ts ++ [t]) = join d ts ++ d :: t.
Proof.
  induction ts as [|u ts IH]; [done|]. intros _. destruct ts as [|v ts]; [done|].
  change ((u :: v :: ts) ++ [t]) with (u :: ((v :: ts) ++ [t])).
  rewrite !(join_cons d u) by done. rewrite IH by done. by rewrite <- app_assoc.
Qed.

Lemma split_char_not_nil d s : split_char d s ≠ [].
Proof.
  destruct s as [|c s]; [discriminate|]. cbn.
  case_decide; [discriminate|]. destruct (split_char d s); discriminate.
Qed.

Lemma join_split d s : join d (split_char d s) = s.
Proof.
  induction s as [|c s IH]; [done|]. cbn. case_decide.
  - subst. rewrite join_nil_cons by apply split_char_not_nil. by rewrite IH.
  - destruct (split_char d s) as [|t ts] eqn:E; [by apply split_char_not_nil in E|].
    by rewrite join_cons_char, IH.
Qed.

Lemma split_char_free d s : Forall (λ t, d ∉ t) (split_char d s).
Proof.
  induction s as [|c s IH]; cbn.
  - constructor; [apply not_elem_of_nil | done].
  - case_decide; [constructor; [apply not_elem_of_nil | done]|].
    destruct (split_char d s) as [|t ts]; inversion IH; subst; constructor; auto.
    all: apply not_elem_of_cons; auto using not_elem_of_nil.
Qed.

Lemma split_char_id d t : d ∉ t → split_char d t = [t].
Proof.
  induction t as [|c t IH]; [done|]. rewrite not_elem_of_cons. intros [H1 H2]. cbn.
  rewrite decide_False by congruence. by rewrite IH.
Qed.

Lemma split_char_app d t s : d ∉ t → split_char d (t ++ d :: s) = t :: split_char d s.
Proof.
  induction t as [|c t IH]; cbn.
  - intros _. by rewrite decide_True.
  - rewrite not_elem_of_cons. intros [H1 H2]. rewrite decide_False by congruence.
    by rewrite IH.
Qed.

(** [split_char] inverts [join] on pieces without the delimiter. *)
Lemma split_join d ts :
  ts ≠ [] → Forall (λ t, d ∉ t) ts → split_char d (join d ts) = ts.
Proof.
  intros Hne Hf. induction Hf as [|t ts Ht Hts IH]; [done|].
  destruct ts as [|u ts]; [by apply split_char_id|].
  rewrite join_cons, split_char_app by done. by rewrite IH.
Qed.

Lemma split_char_join_app d ts us :
  ts ≠ [] → us ≠ [] → join d (ts ++ us) = join d ts ++ d :: join d us.
Proof.
  intros Hts Hus. induction ts as [|t ts IH]; [done|].
  destruct ts as [|u ts]; [by apply join_cons|].
  change ((t :: u :: ts) ++ us) with (t :: ((u :: ts) ++ us)).
  rewrite !(join_cons d t) by done. rewrite IH by done.
  by rewrite <- app_assoc.
Qed.

#[export] Hint Resolve split_char_free split_char_not_nil : ebftpd.

(** Dropping the empty pieces that are neither first nor last. *)
Fixpoint squash (start : bool) (ts : list str) : list str :=
  match ts with
  | [] => []
  | [t] => [t]
  | t :: ts' => (if bool_decide (t ≠ []) || start then [t] else []) ++ squash false ts'
  end.

Lemma squash_cons b t ts :
  ts ≠ [] →
  squash b (t :: ts) = (if bool_decide (t ≠ []) || b then [t] else []) ++ squash false ts.
Proof. by destruct ts. Qed.

Lemma filter_squash b ts : filter (.≠ []) (squash b ts) = filter (.≠ []) ts.
Proof.
  revert b. induction ts as [|t ts IH]; intros b; [done|].
  destruct (decide (ts = [])) as [->|Hne]; [done|].
  rewrite squash_cons, filter_app, IH by done. rewrite filter_cons.
  case_decide as Ht.
  - rewrite bool_decide_eq_true_2 by done. cbn [orb]. by rewrite filter_cons_True.
  - rewrite bool_decide_eq_false_2 by auto. subst. by destruct b.
Qed.

Lemma squash_clean b ts : Forall (.≠ []) ts → squash b ts = ts.
Proof.
  intros H. revert b. induction H as [|t ts Ht _ IH]; intros b; [done|].
  destruct (decide (ts = [])) as [->|Hne]; [done|].
  rewrite squash_cons, IH by done. by rewrite bool_decide_eq_true_2.
Qed.

Lemma squash_not_nil b ts : ts ≠ [] → squash b ts ≠ [].
Proof.
  revert b. induction ts as [|t ts IH]; intros b Hts; [done|].
  destruct (decide (ts = [])) as [->|Hne]; [done|]. rewrite squash_cons by done.
  intros [_ E]%app_eq_nil. by apply (IH false).
Qed.

(** ** Third-party string functions

    boost::split(cont, s, is_any_of(delims), token_compress): *)
Class Split := split : str → str → bool → list str.

(** [util::Split(cont, s, delims, tokenCompress)] *)
Definition Split_ `{Split} (s delims : str) (tokenCompress : bool) : list str :=
  split s delims tokenCompress.

(** With one delimiter and no compression, boost::split cuts at each
    occurrence.  With compression, adjacent delimiters count as one, so that
    the non-empty tokens are the same and an empty one can only be the first
    or the last.  There is always a token. *)
Class SplitOk `{Split} : Prop := {
  split_off d s : split s [d] false = split_char d s;
  split_on d s :
    filter (.≠ []) (split s [d] true) = filter (.≠ []) (split_char d s);
  split_on_clean d s : Forall (.≠ []) (split_char d s) → split s [d] true = split_char d s;
  split_not_nil s ds b : split s ds b ≠ []
}.

(** boost::trim_right_if(s, is_any_of(chars)) and boost::trim *)
Class TrimRightIf := trim_right_if : str → str → str.
Class Trim := trim : str → str.

(** boost::to_upper and boost::to_lower *)
Class CaseConv := { to_upper : str → str; to_lower : str → str }.

(** In the "C" locale they change ASCII letters only. *)
Definition ascii_lower (c : ascii) : ascii :=
  if (65 <=? code c)%Z && (code c <=? 90)%Z
  then ascii_of_N (N_of_ascii c + 32) else c.

Definition ascii_upper (c : ascii) : ascii :=
  if (97 <=? code c)%Z && (code c <=? 122)%Z
  then ascii_of_N (N_of_ascii c - 32) else c.

Class CaseConvOk `{CaseConv} : Prop := {
  to_upper_map s : to_upper s = map ascii_upper s;
  to_lower_map s : to_lower s = map ascii_lower s
}.

(** boost::replace_all_copy(s, from, to), and
    boost::regex_match(s, boost::regex(re)) *)
Class ReplaceAll := replace_all : str → str → str → str.
Class RegexMatch := regex_match : str → str → bool.

(** fnmatch(pattern, str, iCase ? FNM_CASEFOLD : 0) == 0 *)
Class Fnmatch := fnmatch : str → str → bool → bool.

Definition WildcardMatch `{Fnmatch} (pattern s : str) (iCase : bool) : bool :=
  fnmatch pattern s iCase.


(** *** Reference instances, for evaluation *)

Fixpoint split_any (ds : str) (s : str) : list str :=
  match s with
  | [] => [[]]
  | c :: s' =>
      if bool_decide (c ∈ ds) then [] :: split_any ds s'
      else match split_any ds s' with
           | t :: ts => (c :: t) :: ts
           | [] => [[c]]
           end
  end.

Definition ref_split : Split := λ s ds compress,
  if compress then squash true (split_any ds s) else split_any ds s.

Lemma split_any_one d s : split_any [d] s = split_char d s.
Proof.
  induction s as [|c s IH]; [done|]. cbn [split_any split_char]. rewrite IH.
  case_bool_decide as H; rewrite list_elem_of_singleton in H; by case_decide.
Qed.

Lemma split_any_not_nil ds s : split_any ds s ≠ [].
Proof. destruct s; cbn [split_any]; [done|]. by repeat case_match. Qed.

Lemma ref_split_ok : @SplitOk ref_split.
Proof.
  split; unfold split, ref_split.
  - intros d s. by rewrite split_any_one.
  - intros d s. rewrite split_any_one. apply filter_squash.
  - intros d s. rewrite split_any_one. apply squash_clean.
  - intros s ds b. pose proof (split_any_not_nil ds s) as Hne.
    destruct b; [by apply squash_not_nil | done].
Qed.

(** Globbing with "*", "?" and, when asked, ASCII case folding. *)
Fixpoint glob (fold : bool) (p s : str) {struct p} : bool :=
  match p with
  | [] => bool_decide (s = [])
  | c :: p' =>
      if decide (c = "*"%char) then
        (fix star (s : str) : bool :=
           glob fold p' s || match s with [] => false | _ :: s' => star s' end) s
      else match s with
           | [] => false
           | x :: s' =>
               (bool_decide (c = "?"%char) || bool_decide (c = x) ||
                (fold && bool_decide (ascii_lower c = ascii_lower x))) && glob fold p' s'
           end
  end.

Definition ref_fnmatch : Fnmatch := λ p s fold, glob fold p s.

Example ref_fnmatch_1 : ref_fnmatch (lit "*@10.0.?.*") (lit "joe@10.0.3.77") true = true.
Proof. reflexivity. Qed.

Definition ref_case : CaseConv :=
  {| to_upper := map ascii_upper; to_lower := map ascii_lower |}.

Lemma ref_case_ok : @CaseConvOk ref_case.
Proof. by split. Qed.

Fixpoint trim_left (s : str) : str :=
  match s with
  | c :: s' => if decide (c = " "%char) then trim_left s' else s
  | [] => []
  end.

Definition ref_trim : Trim := λ s, rev (trim_left (rev (trim_left s))).

(** [skip] characters of an occurrence are still to be dropped. *)
Fixpoint replace_from (from to : str) (skip : nat) (s : str) : str :=
  match s, skip with
  | [], _ => []
  | _ :: s', S skip' => replace_from from to skip' s'
  | c :: s', O =>
      if bool_decide (from ≠ []) && starts_with s from
      then to ++ replace_from from to (length from - 1) s'
      else c :: replace_from from to 0 s'
  end.

Definition ref_replace_all : ReplaceAll := λ s from to, replace_from from to 0 s.

Example ref_replace_all_1 :
  ref_replace_all (lit "/home/[:username:]/*") (lit "[:username:]") (lit "joe") = lit "/home/joe/*".
Proof. reflexivity. Qed.
