(* ===== verification/State.v ===== *)
(** * State and exceptions

    A computation that changes a state and may throw; the state changes made
    before an exception stay. *)

From stdpp Require Import base list.
From S2P Require Import Prelude.

Definition ST (S E A : Type) : Type := S → result E A * S.

Section st.
Context {S E : Type}.

Definition st_ret {A} (a : A) : ST S E A := λ s, (Ok a, s).
Definition st_throw {A} (e : E) : ST S E A := λ s, (Throw e, s).
Definition st_bind {A B} (m : ST S E A) (k : A → ST S E B) : ST S E B := λ s,
  match m s with (Ok a, s) => k a s | (Throw e, s) => (Throw e, s) end.
Definition st_gets {A} (f : S → A) : ST S E A := λ s, (Ok (f s), s).
Definition st_modify (f : S → S) : ST S E unit := λ s, (Ok tt, f s).

(** A result that does not depend on the state *)
Definition st_lift {A} (r : result E A) : ST S E A := λ s, (r, s).

(** [try { m } catch (...) { h }]: [h] gives no handler for what it does not catch. *)
Definition st_catch {A} (m : ST S E A) (h : E → option (ST S E A)) : ST S E A := λ s,
  match m s with
  | (Ok a, s) => (Ok a, s)
  | (Throw e, s) => match h e with Some k => k s | None => (Throw e, s) end
  end.

(** [for (auto& x : l) f(x)], collecting the new values *)
Fixpoint st_map {A B} (f : A → ST S E B) (l : list A) : ST S E (list B) :=
  match l with
  | [] => st_ret []
  | a :: l => st_bind (f a) (λ b, st_bind (st_map f l) (λ bs, st_ret (b :: bs)))
  end.

(** [for (auto& x : l) f(x)], for the effects *)
Fixpoint st_iter {A} (f : A → ST S E unit) (l : list A) : ST S E unit :=
  match l with
  | [] => st_ret tt
  | a :: l => st_bind (f a) (λ _, st_iter f l)
  end.

Lemma st_bind_Ok {A B} (m : ST S E A) (k : A → ST S E B) s r s' :
  st_bind m k s = (Ok r, s') → ∃ a s1, m s = (Ok a, s1) ∧ k a s1 = (Ok r, s').
Proof. unfold st_bind. destruct (m s) as [[a|e] s1]; [by exists a, s1|done]. Qed.

Lemma st_bind_run {A B} (m : ST S E A) (k : A → ST S E B) s a s1 : m s = (Ok a, s1) → st_bind m k s = k a s1.
Proof. unfold st_bind. by intros ->. Qed.

Lemma st_bind_ext {A B} (m : ST S E A) (k1 k2 : A → ST S E B) s : (∀ a s, k1 a s = k2 a s) → st_bind m k1 s = st_bind m k2 s.
Proof. intros Hk. unfold st_bind. destruct (m s) as [[a|e] s1]; [apply Hk|done]. Qed.

Lemma st_iter_ext {A} (f g : A → ST S E unit) l s : (∀ a s, f a s = g a s) → st_iter f l s = st_iter g l s.
Proof.
  intros Hfg. revert s. induction l as [|a l IH]; intros s; [done|]. cbn [st_iter]. unfold st_bind. rewrite Hfg.
  destruct (g a s) as [[[]|e] s1]; [apply IH|done].
Qed.

(** A loop keeps what each of its rounds keeps. *)
Lemma st_iter_inv {A} (P : S → Prop) (f : A → ST S E unit) l s :
  (∀ a s, P s → P (snd (f a s))) → P s → P (snd (st_iter f l s)).
Proof.
  intros Hf. revert s. induction l as [|a l IH]; intros s Hs; [done|]. cbn [st_iter]. unfold st_bind.
  specialize (Hf a s Hs) as Hs'. destruct (f a s) as [[[]|e] s1]; [by apply IH|done].
Qed.

(** A loop of which no round throws *)
Lemma st_iter_ok {A} (f : A → ST S E unit) l s :
  (∀ a s, ∃ s', f a s = (Ok tt, s')) → ∃ s', st_iter f l s = (Ok tt, s').
Proof.
  intros Hf. revert s. induction l as [|a l IH]; intros s; [by exists s|]. cbn [st_iter]. unfold st_bind.
  destruct (Hf a s) as [s1 ->]. apply IH.
Qed.

Lemma st_iter_modify {A} (g : A → S → S) l s :
  st_iter (λ a, st_modify (g a)) l s = (Ok tt, foldl (λ s a, g a s) s l).
Proof. revert s. induction l as [|a l IH]; intros s; [done|]. apply IH. Qed.

(** [f] is not changed by [m]. *)
Definition st_keeps {A B} (f : S → B) (m : ST S E A) : Prop := ∀ s, f (snd (m s)) = f s.

Lemma st_keeps_bind {A B C} (f : S → C) (m : ST S E A) (k : A → ST S E B) :
  st_keeps f m → (∀ a, st_keeps f (k a)) → st_keeps f (st_bind m k).
Proof.
  intros Hm Hk s. unfold st_bind. specialize (Hm s). destruct (m s) as [[a|e] s1]; [|exact Hm].
  by rewrite Hk.
Qed.

Lemma st_keeps_iter {A B} (f : S → B) (g : A → ST S E unit) l :
  (∀ a, st_keeps f (g a)) → st_keeps f (st_iter g l).
Proof. intros Hg. induction l as [|a l IH]; [done|]. by apply st_keeps_bind. Qed.

Lemma st_keeps_ret {A B} (f : S → B) (a : A) : st_keeps f (st_ret a).
Proof. done. Qed.

Lemma st_keeps_throw {A B} (f : S → B) e : st_keeps f (st_throw (A := A) e).
Proof. done. Qed.

Lemma st_keeps_gets {A B} (f : S → B) (g : S → A) : st_keeps f (st_gets g).
Proof. done. Qed.

(** *** Postconditions

    [st_holds m s Q]: from [s], [m] ends with a result and a state that [Q]
    allows, whether it returns or throws. *)

Definition st_holds {A} (m : ST S E A) (s : S) (Q : result E A → S → Prop) : Prop := Q (fst (m s)) (snd (m s)).

Lemma st_holds_run {A} (m : ST S E A) s Q r s' : st_holds m s Q → m s = (r, s') → Q r s'.
Proof. unfold st_holds. intros H E'. by rewrite E' in H. Qed.

Lemma st_holds_conseq {A} (m : ST S E A) s (P Q : result E A → S → Prop) :
  st_holds m s P → (∀ r s', P r s' → Q r s') → st_holds m s Q.
Proof. unfold st_holds. auto. Qed.

Lemma st_holds_bind {A B} (m : ST S E A) (k : A → ST S E B) s Q :
  st_holds m s (λ r s1, match r with Ok a => st_holds (k a) s1 Q | Throw e => Q (Throw e) s1 end) →
  st_holds (st_bind m k) s Q.
Proof. unfold st_holds, st_bind. by destruct (m s) as [[a|e] s1]. Qed.

Lemma st_holds_catch {A} (m : ST S E A) h s Q :
  st_holds m s (λ r s1, match r with
                        | Ok a => Q (Ok a) s1
                        | Throw e => match h e with Some k => st_holds k s1 Q | None => Q (Throw e) s1 end
                        end) →
  st_holds (st_catch m h) s Q.
Proof. unfold st_holds, st_catch. destruct (m s) as [[a|e] s1]; [done|]. cbn. by destruct (h e). Qed.

Lemma st_holds_iter {A} (P : S → Prop) (Q : E → S → Prop) (f : A → ST S E unit) l s :
  (∀ a s, a ∈ l → P s → st_holds (f a) s (λ r s', match r with Ok _ => P s' | Throw e => Q e s' end)) → P s →
  st_holds (st_iter f l) s (λ r s', match r with Ok _ => P s' | Throw e => Q e s' end).
Proof.
  revert s. induction l as [|a l IH]; intros s Hf Hs; [done|]. cbn [st_iter]. apply st_holds_bind.
  eapply st_holds_conseq; [apply Hf; [left|done]|]. intros [[]|e] s1 H1; [|done]. apply IH; [|done].
  intros b s2 Hb. apply Hf. by right.
Qed.

(** *** Invariants

    [st_triple I m P]: [m] keeps [I], whether it returns or throws, and what it
    returns has [P]. *)

Definition st_triple (I : S → Prop) {A} (m : ST S E A) (P : A → Prop) : Prop := ∀ s, I s →
  I (snd (m s)) ∧ ∀ a, fst (m s) = Ok a → P a.

Lemma st_triple_ret (I : S → Prop) {A} (a : A) (P : A → Prop) : P a → st_triple I (st_ret a) P.
Proof. intros Ha s Hs. split; [done|]. by intros ? [= <-]. Qed.

Lemma st_triple_throw (I : S → Prop) {A} e (P : A → Prop) : st_triple I (st_throw e) P.
Proof. by intros s Hs. Qed.

Lemma st_triple_bind (I : S → Prop) {A B} (m : ST S E A) (k : A → ST S E B) (P : A → Prop) (Q : B → Prop) :
  st_triple I m P → (∀ a, P a → st_triple I (k a) Q) → st_triple I (st_bind m k) Q.
Proof.
  intros Hm Hk s Hs. destruct (Hm s Hs) as [Hs1 Ha]. unfold st_bind. destruct (m s) as [[a|e] s1]; [|done].
  by apply Hk; [apply Ha|].
Qed.

Lemma st_triple_catch (I : S → Prop) {A} (m : ST S E A) h (P : A → Prop) :
  st_triple I m P → (∀ e k, h e = Some k → st_triple I k P) → st_triple I (st_catch m h) P.
Proof.
  intros Hm Hh s Hs. destruct (Hm s Hs) as [Hs1 Ha]. unfold st_catch. destruct (m s) as [[a|e] s1]; [done|].
  destruct (h e) as [k|] eqn:Ek; [by apply (Hh e)|done].
Qed.

Lemma st_triple_then (I : S → Prop) {A B} (m : ST S E A) (k : A → ST S E B) (Q : B → Prop) :
  st_triple I m (λ _, True) → (∀ a, st_triple I (k a) Q) → st_triple I (st_bind m k) Q.
Proof. intros Hm Hk. by apply (st_triple_bind I m k (λ _, True)). Qed.

Lemma st_triple_weaken (I : S → Prop) {A} (m : ST S E A) (P Q : A → Prop) :
  (∀ a, P a → Q a) → st_triple I m P → st_triple I m Q.
Proof. intros HPQ Hm s Hs. destruct (Hm s Hs). split; [done|]. auto. Qed.

Lemma st_triple_if (I : S → Prop) {A} (b : bool) (m1 m2 : ST S E A) P :
  (b = true → st_triple I m1 P) → (b = false → st_triple I m2 P) → st_triple I (if b then m1 else m2) P.
Proof. destruct b; auto. Qed.

Lemma st_triple_iter (I : S → Prop) {A} (f : A → ST S E unit) l :
  (∀ a, a ∈ l → st_triple I (f a) (λ _, True)) → st_triple I (st_iter f l) (λ _, True).
Proof.
  induction l as [|a l IH]; intros Hf; [by apply st_triple_ret|]. apply st_triple_then; [apply Hf; by left|].
  intros _. apply IH. intros b Hb. apply Hf. by right.
Qed.

End st.

#[export] Hint Resolve st_keeps_bind st_keeps_iter st_keeps_ret st_keeps_throw st_keeps_gets : st.

Declare Scope st_scope.
Delimit Scope st_scope with st.
Notation "x '<-' m ';;' k" := (st_bind m (λ x, k)) (at level 100, m at next level, right associativity) : st_scope.
Notation "m ';;;' k" := (st_bind m (λ _, k)) (at level 100, right associativity) : st_scope.
