(* ===== verification/Errors.v ===== *)
(** * Errors of the configuration: cfg/error.hpp

    What the parser of the configuration can throw, and the small operations
    from which the constructors of the settings are built. *)

From stdpp Require Import prelude.
From S2P Require Import Prelude.
Local Open Scope str_scope.

(** [Undefined] stands for reading past the end of the words, which the code
    does when it does not check their number. *)
Inductive cfg_error : Type :=
  | ConfigError (message : str)
  | RequiredSettingError (setting : str)
  | BadCast
  | Undefined.

Abbreviation cfg := (result cfg_error).

(** [toks[i]] *)
Definition tok (toks : list str) (i : nat) : cfg str :=
  match toks !! i with Some t => Ok t | None => Throw Undefined end.

Definition cast {A} (o : option A) : cfg A :=
  match o with Some a => Ok a | None => Throw BadCast end.

(** [if (!b) throw std::bad_cast();] *)
Definition require (b : bool) : cfg unit := if b then Ok tt else Throw BadCast.

(** The first error of a list of computations, in order. *)
Fixpoint rmap {A B} (f : A → cfg B) (l : list A) : cfg (list B) :=
  match l with
  | [] => Ok []
  | x :: l' => let! y := f x in let! ys := rmap f l' in Ok (y :: ys)
  end.

(** [cfg_inv] unfolds a run of a constructor that succeeds. *)
Ltac cfg_inv :=
  repeat match goal with
  | H : rbind ?r _ = Ok _ |- _ => destruct r eqn:?; cbn [rbind] in H; [|discriminate H]
  | H : cast ?o = Ok _ |- _ => destruct o eqn:?; cbn [cast] in H; [|discriminate H]
  | H : require ?b = Ok _ |- _ => destruct b eqn:?; cbn [require] in H; [|discriminate H]
  | H : (if ?b then _ else _) = Ok _ |- _ => destruct b eqn:?; try discriminate H
  | H : Ok _ = Ok _ |- _ => injection H as H; subst
  end.

Lemma rmap_Forall {A B} (f : A → cfg B) (P : B → Prop) l ys :
  (∀ x y, f x = Ok y → P y) → rmap f l = Ok ys → Forall P ys.
Proof.
  intros Hf. revert ys. induction l as [|x l IH]; cbn [rmap]; intros ys E; cfg_inv; [done|].
  constructor; eauto.
Qed.

(** ** Computations that never read past the end of the words *)

Definition defined {A} (r : cfg A) : Prop := r ≠ Throw Undefined.

Lemma rbind_defined {A B} (r : cfg A) (k : A → cfg B) :
  defined r → (∀ a, r = Ok a → defined (k a)) → defined (rbind r k).
Proof. unfold defined. destruct r; cbn; [auto | congruence]. Qed.

Lemma tok_defined toks i : (i < length toks)%nat → defined (tok toks i).
Proof.
  intros Hi. unfold tok, defined. by destruct (lookup_lt_is_Some_2 toks i Hi) as [t ->].
Qed.

Lemma cast_defined {A} (o : option A) : defined (cast o).
Proof. by destruct o. Qed.

Lemma require_defined b : defined (require b).
Proof. by destruct b. Qed.

Lemma rmap_defined {A B} (f : A → cfg B) l : (∀ x, defined (f x)) → defined (rmap f l).
Proof.
  intros Hf. induction l as [|x l IH]; cbn [rmap]; [done|].
  apply rbind_defined; [done|]. intros y _. by apply rbind_defined.
Qed.

Create HintDb defined discriminated.
#[export] Hint Resolve cast_defined require_defined tok_defined rmap_defined : defined.

(** [solve_defined] follows the computation; the goals it leaves are the bounds
    of the words read. *)
Ltac solve_defined :=
  repeat first
    [ progress (auto with defined nocore)
    | apply rbind_defined; [|intros ? ?]
    | apply tok_defined
    | done
    | case_match ].
