(* ===== verification/Path.v ===== *)
(** * Path strings: util/util/path/path.cpp

    Splitting a path at its slashes, resolving "." and "..", joining,
    appending, relative paths, and the dirname/basename/extension accessors.
    The operations that ask the kernel (Glob, Readlink, Realpath) are not
    here; [realpath] is a parameter of VirtualPath.v.

    [walk] is the specification: the meaning of a path as a sequence of moves
    in a directory tree whose root has no parent.  The theorems relate the
    string manipulation of the code to it. *)

From stdpp Require Import prelude.
From S2P Require Import Prelude CxxString.

Local Abbreviation SLASH := "/"%char.
Definition DOT : str := lit ".".
Definition DOTDOT : str := lit "..".
Definition ROOT : str := lit "/".

(** ** The code *)

(** [path[pos]] with [pos = length - 1] is undefined on an empty string; no
    caller passes one, and the model leaves it alone. *)
Definition TrimTrailingSlash (keepRootSlash : bool) (path : str) : str :=
  match last path with
  | Some c =>
      if decide (c ≠ SLASH) then path
      else if keepRootSlash && (length path =? 1) then path
      else removelast path
  | None => path
  end.

(** The second loop of [SplitSegments]: [seg] is the text from [pos1] on, and
    [start] says that [pos1] is 0.  An empty segment is dropped unless it is
    the first; what follows the last slash is always kept. *)
Fixpoint SplitSegments_loop (start : bool) (seg s : str) : list str :=
  match s with
  | [] => [seg]
  | c :: s' =>
      if decide (c = SLASH) then
        (if bool_decide (seg ≠ []) || start then [seg] else [])
          ++ SplitSegments_loop false [] s'
      else SplitSegments_loop start (seg ++ [c]) s'
  end.

Definition SplitSegments (path : str) : list str :=
  match path with [] => [] | _ => SplitSegments_loop true [] path end.

Definition JoinSegments (segments : list str) : str := join SLASH segments.

(** The erasing loop of [Resolve]: [before] holds, innermost first, the
    segments the iterator has passed, [segments] those from the iterator on. *)
Fixpoint Resolve_loop (before segments : list str) : list str :=
  match segments with
  | [] => rev before
  | s :: segments' =>
      if decide (s = DOT) then Resolve_loop before segments'
      else if decide (s = DOTDOT) then
        match before with
        | [] => Resolve_loop [] segments'
        | _ :: before' => Resolve_loop before' segments'
        end
      else Resolve_loop (s :: before) segments'
  end.

(** What [Resolve] does with the joined segments. *)
Definition Resolve_result (absolute : bool) (result : str) : str :=
  match result with
  | [] => ROOT
  | r :: _ =>
      let result := if absolute && bool_decide (r ≠ SLASH) then SLASH :: result else result in
      TrimTrailingSlash true result
  end.

Definition Resolve (path : str) : str :=
  match path with
  | [] => []
  | c :: _ =>
      Resolve_result (bool_decide (c = SLASH))
        (JoinSegments (Resolve_loop [] (SplitSegments path)))
  end.

Definition Join (path1 path2 : str) : str :=
  match path1, path2 with
  | [], _ => path2
  | _, [] => path1
  | _, c :: _ =>
      if decide (c = SLASH) then path2
      else (if decide (last path1 = Some SLASH) then path1
            else path1 ++ [SLASH]) ++ path2
  end.

Definition Append (path1 path2 : str) : str :=
  match path1, path2 with
  | [], _ => path2
  | _, [] => path1
  | _, c :: _ =>
      let result := if decide (last path1 = Some SLASH) then removelast path1 else path1 in
      let result := if decide (c = SLASH) then result else result ++ [SLASH] in
      let result :=
        result ++ (if decide (last path2 = Some SLASH) then removelast path2 else path2) in
      match result with [] => ROOT | _ => result end
  end.

Definition Dirname (path : str) : str :=
  let path := TrimTrailingSlash true path in
  if decide (path = ROOT) then path
  else match find_last_of SLASH path with
       | Some 0 => ROOT
       | None => []
       | Some pos => take pos path
       end.

Definition Basename (path : str) : str :=
  let path := TrimTrailingSlash true path in
  if decide (path = ROOT) then path
  else match find_last_of SLASH path with
       | None => path
       | Some pos => drop (S pos) path
       end.

Definition Extension (path : str) : str :=
  match find_last_of "."%char path with
  | None => []
  | Some pos => drop (S pos) path
  end.

Definition NoExtension (path : str) : str :=
  let basename := Basename path in
  match find_last_of "."%char basename with
  | None => basename
  | Some pos => take pos basename
  end.

(** The first loop of [Relative]: [i] is the length of the common prefix, at
    most [maxLen]. *)
Fixpoint common_prefix (maxLen : nat) (l k : list str) : nat :=
  match maxLen, l, k with
  | S m, x :: l', y :: k' => if decide (x = y) then S (common_prefix m l' k') else 0
  | _, _, _ => 0
  end.

Inductive path_error := LogicError (what : str).

Definition Relative (workPath path : str) : result path_error str :=
  match path, workPath with
  | [], _ => Ok []
  | c :: path', _ =>
      if decide (c ≠ SLASH) then Ok path
      else if decide (head workPath ≠ Some SLASH) then
        Throw (LogicError (lit "workPath must be absolute work directory"))
      else if decide (workPath = ROOT) then Ok path'
      else
        let wp := SplitSegments workPath in
        let p := SplitSegments path in
        let maxLen := Nat.min (length wp) (length p - 1) in
        let i := common_prefix maxLen wp p in
        Ok (JoinSegments (replicate (length wp - i) DOTDOT ++ drop i p))
  end.

(** ** Specification *)

(** One move from the directory whose ancestors, innermost first, are [st]. *)
Definition move (st : list str) (seg : str) : list str :=
  if decide (seg = [] ∨ seg = DOT) then st
  else if decide (seg = DOTDOT) then tail st
  else seg :: st.

Definition walk (st : list str) (segs : list str) : list str := foldl move st segs.

(** The path string of a directory, given its names from the root down. *)
Definition render (names : list str) : str := SLASH :: join SLASH names.

(** A segment that names a directory entry. *)
Definition normal (seg : str) : Prop :=
  seg ≠ [] ∧ seg ≠ DOT ∧ seg ≠ DOTDOT ∧ SLASH ∉ seg.

#[export] Instance normal_dec seg : Decision (normal seg).
Proof. unfold normal. apply _. Defined.

(** Absolute, and free of ".", "..", doubled and trailing slashes. *)
Definition canonical (path : str) : Prop :=
  ∃ names, Forall normal names ∧ path = render names.

Lemma normal_no_slash seg : normal seg → SLASH ∉ seg.
Proof. by intros (_ & _ & _ & H). Qed.

Lemma normal_not_nil seg : normal seg → seg ≠ [].
Proof. by intros (H & _). Qed.

#[export] Hint Resolve normal_no_slash normal_not_nil : ebftpd.

Lemma Forall_normal_no_slash names : Forall normal names → Forall (λ t, SLASH ∉ t) names.
Proof. intros H. eapply Forall_impl; [exact H|]. auto using normal_no_slash. Qed.

Lemma move_normal st seg : normal seg → move st seg = seg :: st.
Proof.
  intros (H1 & H2 & H3 & _). unfold move.
  rewrite decide_False by tauto. by rewrite decide_False.
Qed.

Lemma move_nil st : move st [] = st.
Proof. done. Qed.

Lemma move_dotdot st : move st DOTDOT = tail st.
Proof. done. Qed.

(** A walk only ever stacks names. *)
Lemma walk_normal st segs :
  Forall normal st → Forall (λ t, SLASH ∉ t) segs → Forall normal (walk st segs).
Proof.
  intros Hst Hs. revert st Hst. induction Hs as [|s segs Hs _ IH]; intros st Hst; [done|].
  apply IH. unfold move. case_decide; [done|]. case_decide.
  - destruct Hst; cbn; auto.
  - constructor; [|done]. repeat split; tauto.
Qed.

Lemma walk_app st xs ys : walk st (xs ++ ys) = walk (walk st xs) ys.
Proof. apply foldl_app. Qed.

Lemma walk_names st names : Forall normal names → walk st names = rev names ++ st.
Proof.
  intros H. revert st. induction H as [|n names Hn _ IH]; intros st; [done|].
  cbn [walk foldl]. rewrite move_normal by done. change (foldl move) with walk.
  rewrite IH. cbn. by rewrite <- app_assoc.
Qed.

Lemma walk_dotdots st n : walk st (replicate n DOTDOT) = drop n st.
Proof.
  revert st. induction n as [|n IH]; intros st; [done|].
  cbn [replicate walk foldl]. change (foldl move) with walk.
  rewrite IH, move_dotdot. destruct st; cbn; by rewrite ?drop_nil.
Qed.

(** ** [SplitSegments] against [split_char] *)

Lemma SplitSegments_loop_squash b seg s :
  SplitSegments_loop b seg s =
  match split_char SLASH s with t :: ts => squash b ((seg ++ t) :: ts) | [] => [] end.
Proof.
  revert b seg. induction s as [|c s IH]; intros b seg; cbn [SplitSegments_loop split_char].
  - by rewrite app_nil_r.
  - pose proof (split_char_not_nil SLASH s) as Hne. case_decide as Hc.
    + rewrite squash_cons, app_nil_r by done. f_equal. rewrite IH.
      destruct (split_char SLASH s); [done|]. by rewrite app_nil_l.
    + rewrite IH. destruct (split_char SLASH s); [done|]. by rewrite <- app_assoc.
Qed.

Lemma SplitSegments_spec path :
  path ≠ [] → SplitSegments path = squash true (split_char SLASH path).
Proof.
  intros H. unfold SplitSegments. destruct path as [|c path]; [done|].
  rewrite SplitSegments_loop_squash.
  by destruct (split_char SLASH (c :: path)) eqn:E; [apply split_char_not_nil in E|].
Qed.

(** What squashing removes does not change where a path leads. *)
Lemma walk_squash b st ts : walk st (squash b ts) = walk st ts.
Proof.
  revert b st. induction ts as [|t ts IH]; intros b st; [done|].
  destruct (decide (ts = [])) as [->|Hne]; [done|].
  rewrite squash_cons, walk_app, IH by done. cbn [walk foldl].
  case_bool_decide as Ht; cbn [orb]; [done|].
  subst t. by destruct b.
Qed.

(** After the first piece, a squashed list is names, dots and one last piece. *)
Lemma squash_false_shape ts :
  ts ≠ [] → ∃ ss l, squash false ts = ss ++ [l] ∧ Forall (λ t, t ≠ []) ss.
Proof.
  induction ts as [|t ts IH]; [done|]. intros _.
  destruct (decide (ts = [])) as [->|Hne]; [by exists [], t|].
  destruct (IH Hne) as (ss & l & E & Hss). rewrite squash_cons, E by done.
  rewrite orb_false_r. case_bool_decide; [|by exists ss, l].
  exists (t :: ss), l. by split; [|constructor].
Qed.

Lemma squash_free b d ts : Forall (λ t, d ∉ t) ts → Forall (λ t, d ∉ t) (squash b ts).
Proof.
  intros H. revert b. induction H as [|t ts Ht Hts IH]; intros b; [constructor|].
  destruct (decide (ts = [])) as [->|Hne]; [by repeat constructor|].
  rewrite squash_cons by done. apply Forall_app. split; [|done].
  by destruct (bool_decide (t ≠ []) || b); repeat constructor.
Qed.

Lemma squash_names b names : Forall normal names → squash b names = names.
Proof.
  intros H. revert b. induction H as [|n names Hn _ IH]; intros b; [done|].
  destruct (decide (names = [])) as [->|Hne]; [done|].
  rewrite squash_cons, IH, bool_decide_eq_true_2 by auto using normal_not_nil. done.
Qed.

(** ** [Resolve] *)

(** The loop, on non-empty segments, follows [walk]; the empty segment that an
    absolute path starts with stays at the bottom until ".." erases it. *)
Lemma Resolve_loop_walk st root ss rest :
  (root = [] ∨ root = [[]]) → Forall (λ t, t ≠ []) ss →
  ∃ root', (root' = [] ∨ root' = root) ∧
    Resolve_loop (st ++ root) (ss ++ rest) = Resolve_loop (walk st ss ++ root') rest.
Proof.
  intros Hroot Hss. revert st root Hroot.
  induction Hss as [|s ss Hs _ IH]; intros st root Hroot; [by exists root; auto|].
  cbn [app Resolve_loop walk foldl]. change (foldl move) with walk.
  unfold move at 1. case_decide as Hdot.
  { rewrite (decide_True (P := s = [] ∨ _)) by auto. auto. }
  rewrite (decide_False (P := s = [] ∨ _)) by tauto. case_decide as Hdd.
  - destruct st as [|x st]; cbn [app tail]; [|by apply IH].
    destruct Hroot as [-> | ->].
    + destruct (IH [] [] (or_introl eq_refl)) as (r & Hr & E). exists r.
      split; [destruct Hr; auto | exact E].
    + destruct (IH [] [] (or_introl eq_refl)) as (r & Hr & E). exists r.
      split; [destruct Hr; auto | exact E].
  - exact (IH (s :: st) root Hroot).
Qed.

Lemma join_names_cons n ns :
  Forall normal (n :: ns) → ∃ c s, join SLASH (n :: ns) = c :: s ∧ c ≠ SLASH.
Proof.
  intros H. inversion H as [|?? (Hn & _ & _ & Hs) _]; subst.
  destruct n as [|c n]; [done|]. rewrite join_cons_char. exists c; eexists.
  split; [done|]. intros ->. apply Hs, elem_of_cons. by left.
Qed.

Lemma last_free (d : ascii) t : t ≠ [] → d ∉ t → last t ≠ Some d.
Proof.
  intros _ Hd Hl. apply Hd. apply last_Some in Hl as [k ->].
  apply elem_of_app. right. constructor.
Qed.

Lemma last_app_ne {A} (l k : list A) : k ≠ [] → last (l ++ k) = last k.
Proof. intros H. rewrite last_app. destruct k; [done|]. by destruct (last (a :: k)) eqn:E; [|apply last_None in E]. Qed.

Lemma last_join_names ns : Forall normal ns → last (join SLASH ns) ≠ Some SLASH.
Proof.
  induction 1 as [|n ns Hn Hns IH]; [done|].
  destruct (decide (ns = [])) as [->|Hne].
  - apply last_free; auto with ebftpd.
  - rewrite join_cons, last_app_ne by done. destruct ns as [|m ns]; [done|].
    destruct (join_names_cons m ns Hns) as (c & s & E & _). by rewrite E in *.
Qed.

Lemma TrimTrailingSlash_id b path : last path ≠ Some SLASH → TrimTrailingSlash b path = path.
Proof.
  unfold TrimTrailingSlash. destruct (last path) as [c|]; [|done].
  intros H. by rewrite decide_True by congruence.
Qed.

Lemma TrimTrailingSlash_snoc b path :
  path ≠ [] → TrimTrailingSlash b (path ++ [SLASH]) = path.
Proof.
  intros H. unfold TrimTrailingSlash. rewrite last_snoc, decide_False by auto.
  rewrite length_app, removelast_snoc. destruct path; [done|]. cbn.
  rewrite Nat.add_1_r. by rewrite andb_false_r.
Qed.

Lemma last_render names : Forall normal names → names ≠ [] → last (render names) ≠ Some SLASH.
Proof.
  intros Hn Hne. destruct names as [|n ns]; [done|]. unfold render.
  destruct (join_names_cons n ns Hn) as (c & s & E & _).
  pose proof (last_join_names _ Hn) as Hl. by rewrite E in *.
Qed.

(** The shapes [Resolve_loop] leaves behind all come out as the same string. *)
Lemma Resolve_result_names root names tl :
  (root = [] ∨ root = [[]]) → (tl = [] ∨ tl = [[]]) → Forall normal names →
  Resolve_result true (join SLASH (root ++ names ++ tl)) = render names.
Proof.
  intros Hroot Htl Hn. destruct names as [|n ns].
  { by destruct Hroot as [-> | ->], Htl as [-> | ->]. }
  destruct (join_names_cons n ns Hn) as (c & s & E & Hc).
  assert (Hj : Resolve_result true (join SLASH (root ++ (n :: ns) ++ tl)) =
               TrimTrailingSlash true (SLASH :: join SLASH ((n :: ns) ++ tl))).
  { destruct Hroot as [-> | ->].
    - cbn [app]. destruct Htl as [-> | ->]; rewrite ?app_nil_r.
      + rewrite E. cbn. by rewrite bool_decide_eq_true_2.
      + change (n :: ns ++ [[]]) with ((n :: ns) ++ [[]]). rewrite join_snoc, E by done.
        cbn. by rewrite bool_decide_eq_true_2.
    - change ([[]] ++ (n :: ns) ++ tl) with ([] :: (n :: ns) ++ tl). by rewrite join_nil_cons. }
  rewrite Hj. destruct Htl as [-> | ->].
  - rewrite app_nil_r. apply TrimTrailingSlash_id. by apply last_render.
  - rewrite join_snoc, app_comm_cons by done. by apply TrimTrailingSlash_snoc.
Qed.

Lemma split_char_slash_cons s : split_char SLASH (SLASH :: s) = [] :: split_char SLASH s.
Proof. cbn. by rewrite decide_True. Qed.

(** The segments of an absolute path, as [Resolve] leaves them. *)
Lemma Resolve_loop_absolute s :
  ∃ root tl names,
    (root = [] ∨ root = [[]]) ∧ (tl = [] ∨ tl = [[]]) ∧ Forall normal names ∧
    Resolve_loop [] (SplitSegments (SLASH :: s)) = root ++ names ++ tl ∧
    rev names = walk [] (split_char SLASH (SLASH :: s)).
Proof.
  pose proof (split_char_not_nil SLASH s) as Hne.
  assert (Hfree := squash_free false SLASH _ (split_char_free SLASH s)).
  destruct (squash_false_shape _ Hne) as (ss & l & E & Hss).
  rewrite SplitSegments_spec, split_char_slash_cons, squash_cons, E by done.
  rewrite E in Hfree. cbn [app orb bool_decide Resolve_loop].
  replace (walk [] ([] :: split_char SLASH s)) with (walk [] (ss ++ [l]))
    by (by rewrite <- E, walk_squash).
  change (if bool_decide ([] ≠ []) || true then [[]] else []) with [[] : str].
  cbn [app Resolve_loop]. rewrite !decide_False by done.
  assert (Hnorm : Forall normal (rev (walk [] (ss ++ [l])))).
  { apply Forall_rev. by apply walk_normal. }
  destruct (decide (l = [])) as [->|Hl].
  - destruct (Resolve_loop_walk [] [[]] ss [[]] (or_intror eq_refl) Hss) as (r & Hr & Er).
    cbn [app] in Er. rewrite Er, walk_app in *.
    exists r, [[]], (rev (walk [] ss)). cbn [Resolve_loop].
    rewrite !decide_False by done. cbn [rev]. rewrite rev_app_distr, rev_involutive.
    repeat split; auto.
    destruct Hr as [-> | ->]; by rewrite <- ?app_assoc.
  - destruct (Resolve_loop_walk [] [[]] (ss ++ [l]) [] (or_intror eq_refl)) as (r & Hr & Er).
    { apply Forall_app. by repeat constructor. }
    rewrite app_nil_r in Er. cbn [app] in Er. rewrite Er.
    exists r, [], (rev (walk [] (ss ++ [l]))). cbn [Resolve_loop].
    rewrite rev_app_distr, app_nil_r, rev_involutive. repeat split; auto.
    by destruct Hr as [-> | ->].
Qed.

(** The segments of a relative path. *)
Lemma Resolve_loop_relative c s :
  c ≠ SLASH →
  ∃ tl names,
    (tl = [] ∨ tl = [[]]) ∧ Forall normal names ∧
    Resolve_loop [] (SplitSegments (c :: s)) = names ++ tl ∧
    rev names = walk [] (split_char SLASH (c :: s)).
Proof.
  intros Hc.
  assert (Hsh : ∃ ss l, squash true (split_char SLASH (c :: s)) = ss ++ [l] ∧
                        Forall (λ t, t ≠ []) ss).
  { cbn [split_char]. rewrite decide_False by done.
    destruct (split_char SLASH s) as [|t ts]; [by exists [], [c]|].
    destruct (decide (ts = [])) as [->|Hne]; [by exists [], (c :: t)|].
    destruct (squash_false_shape ts Hne) as (ss & l & E & Hss).
    exists ((c :: t) :: ss), l. rewrite squash_cons, E by done. by split; [|constructor]. }
  destruct Hsh as (ss & l & E & Hss). rewrite SplitSegments_spec by done.
  assert (Hfree := squash_free true SLASH _ (split_char_free SLASH (c :: s))).
  rewrite E in *. rewrite <- (walk_squash true), E.
  assert (Hnorm : Forall normal (rev (walk [] (ss ++ [l])))).
  { apply Forall_rev. by apply walk_normal. }
  destruct (decide (l = [])) as [->|Hl].
  - destruct (Resolve_loop_walk [] [] ss [[]] (or_introl eq_refl) Hss) as (r & Hr & Er).
    cbn [app] in Er. rewrite Er, walk_app in *.
    exists [[]], (rev (walk [] ss)). cbn [Resolve_loop].
    rewrite !decide_False by done. cbn [rev]. rewrite rev_involutive.
    repeat split; auto. destruct Hr as [-> | ->]; by rewrite app_nil_r.
  - destruct (Resolve_loop_walk [] [] (ss ++ [l]) [] (or_introl eq_refl)) as (r & Hr & Er).
    { apply Forall_app. by repeat constructor. }
    rewrite (app_nil_r (ss ++ [l])) in Er. cbn [app] in Er. rewrite Er.
    exists [], (rev (walk [] (ss ++ [l]))). cbn [Resolve_loop].
    rewrite rev_involutive. repeat split; auto.
    destruct Hr as [-> | ->]; by rewrite !app_nil_r.
Qed.

Lemma Resolve_result_relative names tl :
  (tl = [] ∨ tl = [[]]) → Forall normal names →
  Resolve_result false (join SLASH (names ++ tl)) =
  match names with [] => ROOT | _ => join SLASH names end.
Proof.
  intros Htl Hn. destruct names as [|n ns]; [by destruct Htl as [-> | ->]|].
  destruct (join_names_cons n ns Hn) as (c & s & E & Hc).
  pose proof (last_join_names _ Hn) as Hl.
  destruct Htl as [-> | ->].
  - rewrite app_nil_r. rewrite E in *. cbn [Resolve_result andb]. by apply TrimTrailingSlash_id.
  - rewrite join_snoc, E by done. cbn [Resolve_result andb app].
    rewrite app_comm_cons. by apply TrimTrailingSlash_snoc.
Qed.

Lemma rev_flip {A} (l k : list A) : rev l = k → l = rev k.
Proof. intros <-. by rewrite rev_involutive. Qed.

(** ** What [Resolve] computes *)

(** C17: [Resolve] implements the directory walk: an absolute path becomes the
    slash-separated names of the directory its moves lead to from the root,
    ".." at the root staying there; a relative path becomes the names the walk
    stacks up, and "/" when it stacks none. *)
Theorem Resolve_spec path :
  path ≠ [] →
  Resolve path =
  let names := rev (walk [] (split_char SLASH path)) in
  if decide (head path = Some SLASH) then render names
  else match names with [] => ROOT | _ => join SLASH names end.
Proof.
  destruct path as [|c s]; [done|]. intros _. unfold Resolve, JoinSegments. cbn [head].
  destruct (decide (Some c = Some SLASH)) as [[= ->]|Hc].
  - destruct (Resolve_loop_absolute s) as (root & tl & names & Hr & Ht & Hn & E & Hw).
    rewrite bool_decide_eq_true_2, E by done. apply rev_flip in Hw. subst names.
    by apply Resolve_result_names.
  - destruct (Resolve_loop_relative c s) as (tl & names & Ht & Hn & E & Hw); [congruence|].
    rewrite bool_decide_eq_false_2, E by congruence. apply rev_flip in Hw. subst names.
    by apply Resolve_result_relative.
Qed.

Lemma Resolve_spec_witness :
  lit "/a/./b//../../../c/" ≠ [] ∧
  Resolve (lit "/a/./b//../../../c/") = lit "/c" ∧
  Resolve (lit "../x/y/..") = lit "x".
Proof.
  split; [done|]. split.
  - rewrite (Resolve_spec (lit "/a/./b//../../../c/")) by done. vm_compute. reflexivity.
  - rewrite (Resolve_spec (lit "../x/y/..")) by done. vm_compute. reflexivity.
Defined.

(** The lemma the other components use. *)
Lemma Resolve_absolute s :
  Resolve (SLASH :: s) = render (rev (walk [] (split_char SLASH s))).
Proof.
  destruct (Resolve_loop_absolute s) as (root & tl & names & Hr & Ht & Hn & E & Hw).
  unfold Resolve, JoinSegments. rewrite bool_decide_eq_true_2, E by done.
  rewrite split_char_slash_cons in Hw. apply rev_flip in Hw. subst names.
  by apply Resolve_result_names.
Qed.

Lemma walk_split_normal s : Forall normal (rev (walk [] (split_char SLASH s))).
Proof. apply Forall_rev, walk_normal; auto with ebftpd. Qed.

Lemma Resolve_absolute_is_canonical s : canonical (Resolve (SLASH :: s)).
Proof.
  exists (rev (walk [] (split_char SLASH s))).
  split; [apply walk_split_normal | apply Resolve_absolute].
Qed.

Lemma split_render names :
  Forall normal names →
  split_char SLASH (render names) = [] :: match names with [] => [[]] | _ => names end.
Proof.
  intros Hn. unfold render. rewrite split_char_slash_cons. f_equal.
  destruct names as [|n ns]; [done|].
  apply split_join; [done|]. by apply Forall_normal_no_slash.
Qed.

Lemma walk_names_or_nil names :
  Forall normal names → walk [] (match names with [] => [[]] | _ => names end) = rev names.
Proof.
  intros Hn. destruct names as [|n ns]; [done|]. by rewrite walk_names, app_nil_r.
Qed.

Lemma Resolve_render names : Forall normal names → Resolve (render names) = render names.
Proof.
  intros Hn. change (render names) with (SLASH :: join SLASH names) at 1.
  rewrite Resolve_absolute. f_equal.
  pose proof (split_render names Hn) as E. unfold render in E.
  rewrite split_char_slash_cons in E. injection E as E. rewrite E.
  by rewrite walk_names_or_nil, rev_involutive.
Qed.

(** Sandbox safety of path resolution: whatever the client sends after the
    leading slash, the resolved path is canonical: it is absolute and has no
    ".", "..", empty or slash-containing component left to climb with. *)
Lemma Resolve_canonical s :
  ∃ names, Resolve (SLASH :: s) = render names ∧
           ∀ n, n ∈ names → n ≠ [] ∧ n ≠ DOT ∧ n ≠ DOTDOT ∧ SLASH ∉ n.
Proof.
  destruct (Resolve_absolute_is_canonical s) as (names & Hn & E). exists names.
  split; [exact E|]. intros n Hin. rewrite Forall_forall in Hn. by apply Hn.
Qed.

(** [Resolve] is idempotent: resolving a resolved path changes nothing,
    for relative and empty paths as well. *)
Lemma Resolve_idempotent path : Resolve (Resolve path) = Resolve path.
Proof.
  destruct path as [|c s]; [done|].
  destruct (decide (c = SLASH)) as [->|Hc].
  { destruct (Resolve_absolute_is_canonical s) as (names & Hn & ->). by apply Resolve_render. }
  destruct (Resolve_loop_relative c s Hc) as (tl & names & Ht & Hn & E & _).
  assert (Hr : Resolve (c :: s) = match names with [] => ROOT | _ => join SLASH names end).
  { unfold Resolve, JoinSegments. rewrite bool_decide_eq_false_2, E by done.
    by apply Resolve_result_relative. }
  rewrite Hr. destruct names as [|n ns]; [done|].
  destruct (join_names_cons n ns Hn) as (c' & s' & E' & Hc'). rewrite E'.
  assert (Hs : SplitSegments (c' :: s') = n :: ns).
  { rewrite <- E', SplitSegments_spec by (by rewrite E').
    rewrite split_join by auto using Forall_normal_no_slash. by apply squash_names. }
  unfold Resolve, JoinSegments. rewrite bool_decide_eq_false_2, Hs by done.
  destruct (Resolve_loop_walk [] [] (n :: ns) [] (or_introl eq_refl)) as (r & Hr' & Er).
  { eapply Forall_impl; [exact Hn|]. auto using normal_not_nil. }
  rewrite (app_nil_r (n :: ns)) in Er. cbn [app] in Er. rewrite Er, walk_names by done.
  assert (r = []) as -> by (by destruct Hr'). cbn [Resolve_loop].
  rewrite !app_nil_r, rev_involutive, <- E'.
  pose proof (Resolve_result_relative (n :: ns) [] (or_introl eq_refl) Hn) as Hf.
  by rewrite app_nil_r in Hf.
Qed.

(** ** Joining, relative paths, dirname and basename *)

Lemma split_char_join_cons d ts s :
  ts ≠ [] → Forall (λ t, d ∉ t) ts → split_char d (join d ts ++ d :: s) = ts ++ split_char d s.
Proof.
  intros Hne Hts. induction Hts as [|t ts Ht Hts IH]; [done|].
  destruct (decide (ts = [])) as [->|Hne']; [by apply split_char_app|].
  rewrite join_cons, <- app_assoc by done. cbn [app].
  by rewrite split_char_app, IH.
Qed.

Lemma render_head names : head (render names) = Some SLASH.
Proof. done. Qed.

Lemma render_root names : Forall normal names → render names = ROOT ↔ names = [].
Proof.
  intros Hn. split; [|by intros ->]. destruct names as [|n ns]; [done|].
  destruct (join_names_cons n ns Hn) as (c & s & E & _). unfold render. by rewrite E.
Qed.

(** Resolving a client's relative path against a directory walks from there. *)
Lemma Resolve_Join ws r :
  Forall normal ws → head r ≠ Some SLASH →
  Resolve (Join (render ws) r) = render (rev (walk (rev ws) (split_char SLASH r))).
Proof.
  intros Hws Hr. destruct r as [|c r].
  { change (split_char SLASH []) with [[] : str]. cbn [walk foldl]. rewrite move_nil.
    rewrite rev_involutive. change (Join (render ws) []) with (render ws).
    by apply Resolve_render. }
  unfold Join, render at 1. cbn [head] in Hr. rewrite decide_False by congruence.
  change (SLASH :: join SLASH ws) with (render ws).
  destruct (decide (ws = [])) as [->|Hne].
  - cbn. rewrite decide_True by done. apply (Resolve_absolute (c :: r)).
  - rewrite decide_False by (by apply last_render). unfold render at 1.
    rewrite <- app_assoc. cbn [app]. rewrite Resolve_absolute.
    rewrite split_char_join_cons by auto using Forall_normal_no_slash.
    by rewrite walk_app, (walk_names [] ws), app_nil_r.
Qed.

Lemma common_prefix_spec m l k :
  let i := common_prefix m l k in
  i ≤ m ∧ i ≤ length l ∧ i ≤ length k ∧ take i l = take i k.
Proof.
  revert l k. induction m as [|m IH]; intros l k; cbn; [repeat split; lia|].
  destruct l as [|x l], k as [|y k]; try (cbn; repeat split; lia).
  case_decide as Hxy; [|cbn; repeat split; lia]. subst.
  destruct (IH l k) as (H1 & H2 & H3 & H4). cbn. rewrite H4. repeat split; lia.
Qed.

Lemma SplitSegments_render names :
  Forall normal names →
  SplitSegments (render names) = [] :: match names with [] => [[]] | _ => names end.
Proof.
  intros Hn. rewrite SplitSegments_spec, split_render by done.
  rewrite squash_cons by (by destruct names). destruct names as [|n ns]; [done|].
  by rewrite squash_names.
Qed.

Lemma DOTDOT_no_slash : SLASH ∉ DOTDOT.
Proof. by apply (bool_decide_unpack (SLASH ∉ DOTDOT)). Qed.

Lemma head_join t ts : t ≠ [] → SLASH ∉ t → head (join SLASH (t :: ts)) ≠ Some SLASH.
Proof.
  intros Ht Hs. destruct t as [|c t]; [done|]. rewrite join_cons_char. cbn.
  intros [= ->]. apply Hs. constructor.
Qed.

Lemma drop_rev {A} n (l : list A) : drop (length l - n) (rev l) = rev (take n l).
Proof.
  destruct (decide (n ≤ length l)) as [Hn|Hn].
  - rewrite <- (take_drop n l) at 2. rewrite rev_app_distr. rewrite drop_app_length'; [done|].
    by rewrite length_rev, length_drop.
  - replace (length l - n) with 0 by lia. by rewrite take_ge by lia.
Qed.

Lemma Relative_render ws ps :
  Relative (render ws) (render ps) =
  if decide (render ws = ROOT) then Ok (join SLASH ps)
  else
    let wp := SplitSegments (render ws) in
    let p := SplitSegments (render ps) in
    let i := common_prefix (Nat.min (length wp) (length p - 1)) wp p in
    Ok (JoinSegments (replicate (length wp - i) DOTDOT ++ drop i p)).
Proof. reflexivity. Qed.

(** The segments [SplitSegments] finds after the leading slash. *)
Definition tail_segments (names : list str) : list str :=
  match names with [] => [[]] | _ => names end.

Lemma tail_segments_free names :
  Forall normal names → Forall (λ t, SLASH ∉ t) (tail_segments names).
Proof.
  destruct names as [|n ns]; [repeat constructor; apply not_elem_of_nil|].
  apply Forall_normal_no_slash.
Qed.

(** Climbing from [ws] to the common prefix of length [k] and down to [ps]. *)
Definition detour (k : nat) (ws ps : list str) : list str :=
  replicate (length ws - k) DOTDOT ++ drop k (tail_segments ps).

(** [Relative] computes a detour, whatever the common prefix. *)
Lemma Relative_detour ws ps :
  Forall normal ws → Forall normal ps → ws ≠ [] →
  ∃ k, k ≤ length ws ∧ k < length (tail_segments ps) ∧
       take k ws = take k (tail_segments ps) ∧
       Relative (render ws) (render ps) = Ok (join SLASH (detour k ws ps)).
Proof.
  intros Hws Hps Hne. rewrite Relative_render, decide_False by (by rewrite render_root).
  rewrite !SplitSegments_render by done. change (match ps with [] => _ | _ => _ end)
    with (tail_segments ps).
  destruct ws as [|w0 ws0] eqn:Ews; [done|]. rewrite <- Ews in *.
  destruct (length (tail_segments ps)) as [|lp] eqn:Elp; [by destruct ps|].
  cbn [length]. rewrite Elp, Nat.sub_succ, Nat.sub_0_r, <- Nat.succ_min_distr.
  cbn [common_prefix]. rewrite decide_True, Nat.sub_succ by done. cbn [drop].
  destruct (common_prefix_spec (length ws `min` lp) ws (tail_segments ps)) as (H1 & H2 & H3 & H4).
  eexists. split; [exact H2|]. split; [lia|]. split; [exact H4 | done].
Qed.

(** A detour leads to its target. *)
Lemma walk_detour k ws ps :
  Forall normal ps → k ≤ length ws → k < length (tail_segments ps) →
  take k ws = take k (tail_segments ps) → walk (rev ws) (detour k ws ps) = rev ps.
Proof.
  intros Hps Hk Hk' E. unfold detour. rewrite walk_app, walk_dotdots, drop_rev, E.
  destruct ps as [|n ns].
  { cbn in Hk'. assert (k = 0) as -> by lia. done. }
  change (tail_segments (n :: ns)) with (n :: ns).
  rewrite walk_names by (by apply Forall_drop). by rewrite <- rev_app_distr, take_drop.
Qed.

(** A detour is a relative path: its first segment is a name or "..". *)
Lemma detour_relative k ws ps :
  Forall normal ps → k ≤ length ws → k < length (tail_segments ps) → ws ≠ [] →
  head (join SLASH (detour k ws ps)) ≠ Some SLASH.
Proof.
  intros Hps Hk Hk' Hne. unfold detour.
  destruct (length ws - k) as [|n] eqn:En.
  - cbn [replicate app]. destruct ps as [|p ps].
    { destruct ws; [done|]. cbn in *. lia. }
    change (tail_segments (p :: ps)) with (p :: ps) in *.
    assert (Hd : Forall normal (drop k (p :: ps))) by (by apply Forall_drop).
    destruct (drop k (p :: ps)) as [|t ts]; [done|]. inversion Hd; subst.
    apply head_join; auto with ebftpd.
  - cbn [replicate app]. apply head_join; [done | apply DOTDOT_no_slash].
Qed.

Lemma detour_free k ws ps :
  Forall normal ps → k < length (tail_segments ps) →
  detour k ws ps ≠ [] ∧ Forall (λ t, SLASH ∉ t) (detour k ws ps).
Proof.
  intros Hps Hk. split.
  - intros E. apply (f_equal length) in E. unfold detour in E.
    rewrite length_app, length_drop in E. cbn in E. lia.
  - apply Forall_app. split; [apply Forall_replicate, DOTDOT_no_slash|].
    by apply Forall_drop, tail_segments_free.
Qed.

(** Round trip of relative paths: for canonical absolute paths, joining
    the work directory with [Relative(workDirectory, path)] and resolving gives
    the path back, and [Relative] does not throw. *)
Lemma Relative_roundtrip w p :
  canonical w → canonical p → ∃ r, Relative w p = Ok r ∧ Resolve (Join w r) = p.
Proof.
  intros (ws & Hws & ->) (ps & Hps & ->). destruct (decide (ws = [])) as [->|Hne].
  - exists (join SLASH ps). rewrite Relative_render, decide_True by done. split; [done|].
    rewrite Resolve_Join; [|done|].
    + pose proof (split_render ps Hps) as E. unfold render in E.
      rewrite split_char_slash_cons in E. injection E as ->.
      cbn [rev]. by rewrite walk_names_or_nil, rev_involutive.
    + destruct ps as [|n ns]; [done|].
      destruct (join_names_cons n ns Hps) as (c & s & -> & Hc). cbn. congruence.
  - destruct (Relative_detour ws ps Hws Hps Hne) as (k & Hk & Hk' & E & ->).
    eexists. split; [done|]. destruct (detour_free k ws ps Hps Hk') as [Hd1 Hd2].
    rewrite Resolve_Join by auto using detour_relative.
    by rewrite split_join, walk_detour, rev_involutive by done.
Qed.

Lemma Relative_roundtrip_example :
  canonical (lit "/a/b/c") ∧ canonical (lit "/a/x") ∧
  ∃ r, Relative (lit "/a/b/c") (lit "/a/x") = Ok r ∧
       Resolve (Join (lit "/a/b/c") r) = lit "/a/x".
Proof.
  assert (H1 : canonical (lit "/a/b/c")).
  { exists [lit "a"; lit "b"; lit "c"]. split; [|done].
    by apply (bool_decide_unpack (Forall normal [lit "a"; lit "b"; lit "c"])). }
  assert (H2 : canonical (lit "/a/x")).
  { exists [lit "a"; lit "x"]. split; [|done].
    by apply (bool_decide_unpack (Forall normal [lit "a"; lit "x"])). }
  repeat split; [done..|]. by apply Relative_roundtrip.
Defined.

Lemma render_snoc front n :
  Forall normal front → render (front ++ [n]) = (if decide (front = []) then [] else render front) ++ SLASH :: n.
Proof.
  intros Hf. unfold render. case_decide as H; [by subst|]. by rewrite join_snoc.
Qed.

Lemma Append_render ws ps :
  Forall normal ws → Forall normal ps →
  Append (render ws) (render ps) = render (ws ++ ps).
Proof.
  intros Hws Hps. change (Append (render ws) (render ps)) with
    (let r := (if decide (last (render ws) = Some SLASH) then removelast (render ws)
               else render ws) ++
              (if decide (last (render ps) = Some SLASH) then removelast (render ps)
               else render ps) in match r with [] => ROOT | _ => r end).
  destruct (decide (ps = [])) as [->|Hp].
  - destruct (decide (ws = [])) as [->|Hw]; [done|].
    rewrite (decide_False (P := last (render ws) = _)) by (by apply last_render).
    cbn. by rewrite !app_nil_r.
  - rewrite (decide_False (P := last (render ps) = _)) by (by apply last_render).
    destruct (decide (ws = [])) as [->|Hw]; [done|].
    rewrite decide_False by (by apply last_render). unfold render. cbn [app].
    by rewrite split_char_join_app.
Qed.

Lemma Join_name ws n :
  Forall normal ws → normal n → Join (render ws) n = render (ws ++ [n]).
Proof.
  intros Hws Hn. rewrite render_snoc by done.
  pose proof (normal_not_nil _ Hn) as Hne. pose proof (normal_no_slash _ Hn) as Hs.
  destruct n as [|c n]; [done|]. apply not_elem_of_cons in Hs as [Hc _].
  change (Join (render ws) (c :: n)) with
    (if decide (c = SLASH) then c :: n
     else (if decide (last (render ws) = Some SLASH) then render ws
           else render ws ++ [SLASH]) ++ c :: n).
  rewrite decide_False by congruence. destruct (decide (ws = [])) as [->|Hw]; [done|].
  rewrite decide_False by (by apply last_render). by rewrite <- app_assoc.
Qed.

(** What the trailing slash test and the special case of "/" leave of a
    canonical path with a last name. *)
Lemma find_last_render front n :
  Forall normal front → normal n →
  TrimTrailingSlash true (render (front ++ [n])) = render (front ++ [n]) ∧
  render (front ++ [n]) ≠ ROOT ∧
  find_last_of SLASH (render (front ++ [n])) =
    Some (length (if decide (front = []) then [] else render front)).
Proof.
  intros Hf Hn. assert (H : Forall normal (front ++ [n])) by (by apply Forall_app; auto).
  assert (Hne : front ++ [n] ≠ []) by (by destruct front).
  split; [|split].
  - apply TrimTrailingSlash_id. by apply last_render.
  - by rewrite render_root.
  - rewrite render_snoc by done. apply find_last_of_app. auto with ebftpd.
Qed.

Lemma Dirname_snoc front n :
  Forall normal front → normal n → Dirname (render (front ++ [n])) = render front.
Proof.
  intros Hf Hn. destruct (find_last_render front n Hf Hn) as (E1 & E2 & E3).
  unfold Dirname. rewrite E1, decide_False, E3, render_snoc by done.
  destruct (decide (front = [])) as [->|Hfr]; [done|].
  change (length (render front)) with (S (length (join SLASH front))) at 1.
  cbn [length]. change (S (length (join SLASH front))) with (length (render front)).
  by rewrite take_app_length.
Qed.

Lemma Basename_snoc front n :
  Forall normal front → normal n → Basename (render (front ++ [n])) = n.
Proof.
  intros Hf Hn. destruct (find_last_render front n Hf Hn) as (E1 & E2 & E3).
  unfold Basename. rewrite E1, decide_False, E3, render_snoc by done.
  rewrite drop_app_ge by lia. rewrite Nat.sub_succ_l, Nat.sub_diag by lia. done.
Qed.

(** [Dirname] and [Basename] take a canonical path other than "/" apart:
    the dirname is the canonical path of the parent, the basename is the last
    name, and joining them gives the path back; "/" is its own dirname and
    basename. *)
Lemma Dirname_Basename front n :
  Forall normal (front ++ [n]) →
  Dirname (render (front ++ [n])) = render front ∧
  Basename (render (front ++ [n])) = n ∧
  Join (render front) n = render (front ++ [n]) ∧
  Dirname ROOT = ROOT ∧ Basename ROOT = ROOT.
Proof.
  intros [Hf [Hn _]%Forall_cons_1]%Forall_app.
  auto using Dirname_snoc, Basename_snoc, Join_name.
Qed.

