(* ===== verification/VirtualPath.v ===== *)
(** * Virtual and real paths: src/fs/path.cpp, src/fs/path.hpp

    A client names files by virtual paths, which are absolute paths below the
    configured site root; the kernel is asked for real paths.  [MakeReal] and
    [MakeVirtual] convert between the two, and [PathFromUser] is the entry
    point for every path argument of a command.

    The conversions cache their results in the path objects; the model gives
    the value of the first conversion of a fresh object.  realpath(3) is the
    parameter [realpath]; what the theorems assume of it is [realpath_ok]: an
    answer is a canonical absolute path. *)

From stdpp Require Import prelude.
From S2P Require Import Prelude CxxString Path.

Local Abbreviation SLASH := "/"%char.

(** ** The code *)

Section code.
Context (sitepath : str) (WorkDirectory : str) (realpath : str → option str).

(** [MakeReal(const VirtualPath&)]: no symbolic link is followed. *)
Definition MakeReal_virtual (path : str) : str := Append sitepath path.

(** [MakeReal(const Path&)]: resolve against the work directory, then follow
    symbolic links, those of the parent only if the path does not exist. *)
Definition MakeReal (path : str) : str :=
  let virt := Resolve (Join WorkDirectory path) in
  let p := Append sitepath virt in
  match realpath p with
  | Some noSymlinks => noSymlinks
  | None =>
      match realpath (Dirname p) with
      | Some noSymlinks => Join noSymlinks (Basename p)
      | None => p
      end
  end.

(** [MakeVirtual(const RealPath&)] *)
Definition MakeVirtual_real (path : str) : result path_error str :=
  if bool_decide (take (length sitepath) path = sitepath) &&
     (bool_decide (char_at path (length sitepath) = SLASH) ||
      (length path =? length sitepath))
  then
    let newpath := drop (length sitepath) path in
    Ok (match newpath with [] => ROOT | _ => newpath end)
  else Throw (LogicError (lit "Path resides outside the site root")).

(** [MakeVirtual(const Path&)] *)
Definition MakeVirtual (path : str) : result path_error str :=
  MakeVirtual_real (MakeReal path).

Definition PathFromUser (path : str) : result path_error str := MakeVirtual path.

Definition MakeRelative (path : str) : result path_error str :=
  Relative WorkDirectory path.

(** [MakePretty(const VirtualPath&)]; the condition of the code is that
    [compare] with "../" is not zero. *)
Definition MakePretty_virtual (path : str) : result path_error str :=
  match MakeRelative path with
  | Throw e => Throw e
  | Ok [] => Ok DOT
  | Ok pretty =>
      if bool_decide (take 3 pretty ≠ lit "../") then Ok pretty else Ok path
  end.

(** [MakePretty(const Path&)] *)
Definition MakePretty (path : str) : result path_error str :=
  match path with
  | c :: _ =>
      if decide (c = SLASH) then Ok path
      else match MakeVirtual path with Ok v => MakePretty_virtual v | Throw e => Throw e end
  | [] => match MakeVirtual path with Ok v => MakePretty_virtual v | Throw e => Throw e end
  end.

End code.

(** ** Lemmas *)

(** What the code relies on of realpath(3). *)
Definition realpath_ok (realpath : str → option str) : Prop :=
  ∀ p q, realpath p = Some q → canonical q.

Lemma Resolve_cwd cwd p : canonical cwd → canonical (Resolve (Join cwd p)).
Proof.
  intros (ws & Hws & ->). unfold Join. change (render ws) with (SLASH :: join SLASH ws).
  destruct p as [|c p]; [apply Resolve_absolute_is_canonical|].
  case_decide as Hc; [subst; apply Resolve_absolute_is_canonical|].
  case_decide; cbn [app]; apply Resolve_absolute_is_canonical.
Qed.

Lemma MakeReal_canonical site cwd realpath p :
  canonical site → canonical cwd → realpath_ok realpath →
  canonical (MakeReal site cwd realpath p).
Proof.
  intros (ss & Hss & ->) Hcwd Hrp. unfold MakeReal. cbv zeta.
  destruct (Resolve_cwd cwd p Hcwd) as (vs & Hvs & ->). rewrite Append_render by done.
  pose proof (Forall_app_2 _ _ _ Hss Hvs) as Hall.
  destruct (realpath (render (ss ++ vs))) as [q|] eqn:Eq; [by eapply Hrp|].
  destruct (decide (ss ++ vs = [])) as [->|Hne].
  { change (Dirname (render [])) with (render []).
    destruct (realpath (render [])) as [q|] eqn:E0; [|by exists []].
    destruct (Hrp _ _ E0) as (qs & Hqs & ->). change (Basename (render [])) with ROOT.
    by exists []. }
  destruct (exists_last Hne) as (front & n & E). rewrite E in *.
  apply Forall_app in Hall as [Hf Hn]. apply Forall_cons_1 in Hn as [Hn _].
  rewrite Dirname_snoc, Basename_snoc by done.
  destruct (realpath (render front)) as [q|] eqn:Eq'.
  - destruct (Hrp _ _ Eq') as (qs & Hqs & ->). exists (qs ++ [n]).
    split; [by apply Forall_app; auto | by apply Join_name].
  - exists (front ++ [n]). split; [by apply Forall_app; auto | done].
Qed.

(** A prefix of the path string that ends at a slash or at the end of the
    string is a prefix of the sequence of names. *)
Lemma render_app ss ns : ss ≠ [] → ns ≠ [] → render (ss ++ ns) = render ss ++ render ns.
Proof. intros Hs Hn. unfold render. rewrite split_char_join_app by done. done. Qed.

Lemma render_inj ns ms : Forall normal ns → Forall normal ms → render ns = render ms → ns = ms.
Proof.
  intros Hn Hm E. pose proof (split_render ns Hn) as E1. pose proof (split_render ms Hm) as E2.
  rewrite E, E2 in E1. apply (f_equal tail) in E1. cbn [tail] in E1.
  destruct ns as [|n ns], ms as [|m ms]; [done| | |done]; exfalso.
  - injection E1 as -> _. by inversion Hm as [|?? [Hx _]].
  - injection E1 as <- _. by inversion Hn as [|?? [Hx _]].
Qed.

Lemma render_extend ss ns u :
  Forall normal ss → Forall normal ns → ss ≠ [] →
  render ss ++ SLASH :: u = render ns → ns = ss ++ split_char SLASH u.
Proof.
  intros Hss Hns Hne E. pose proof (split_render ns Hns) as E1.
  rewrite <- E in E1. unfold render in E1. cbn [app] in E1.
  rewrite split_char_slash_cons, split_char_join_cons in E1
    by auto using Forall_normal_no_slash.
  injection E1 as E1. destruct ns as [|n ns]; [|by rewrite E1].
  apply (f_equal length) in E. unfold render in E. cbn in E.
  rewrite length_app in E. cbn in E. lia.
Qed.

(** The prefix test of [MakeVirtual] is exact. *)
Lemma MakeVirtual_real_spec ss ns :
  Forall normal ss → Forall normal ns → ss ≠ [] →
  (∀ vs, ns = ss ++ vs → MakeVirtual_real (render ss) (render ns) = Ok (render vs)) ∧
  (∀ v, MakeVirtual_real (render ss) (render ns) = Ok v → ∃ vs, ns = ss ++ vs ∧ v = render vs).
Proof.
  intros Hss Hns Hne. split.
  - intros vs ->. unfold MakeVirtual_real.
    destruct (decide (vs = [])) as [->|Hv].
    { rewrite app_nil_r, take_ge, drop_ge, Nat.eqb_refl, orb_true_r by lia.
      by rewrite bool_decide_eq_true_2. }
    rewrite render_app, take_app_length, drop_app_length by done.
    rewrite bool_decide_eq_true_2 by done. unfold char_at.
    rewrite lookup_app_r, Nat.sub_diag by lia. done.
  - intros v. unfold MakeVirtual_real. case_bool_decide as Hp; [|done].
    destruct (_ || _) eqn:Hc; [|done]. cbn [andb]. intros <-%Ok_inj.
    pose proof (take_drop (length (render ss)) (render ns)) as E. rewrite Hp in E.
    destruct (drop (length (render ss)) (render ns)) as [|c u] eqn:Ed.
    { rewrite app_nil_r in E. apply render_inj in E; [|done..]. subst.
      exists []. by rewrite app_nil_r. }
    assert (c = SLASH) as ->.
    { apply orb_true_iff in Hc as [Hc|Hc].
      - rewrite bool_decide_eq_true in Hc. unfold char_at in Hc.
        by rewrite <- E, lookup_app_r, Nat.sub_diag in Hc by lia.
      - apply Nat.eqb_eq in Hc. rewrite <- E, length_app in Hc. cbn in Hc. lia. }
    exists (split_char SLASH u). split.
    + by apply render_extend.
    + unfold render. by rewrite join_split.
Qed.

(** The configured root must not be "/" itself: the test of the character
    after the prefix then looks at the first character of the first name. *)
Lemma MakeVirtual_real_root n ns :
  normal n → MakeVirtual_real ROOT (render (n :: ns)) =
             Throw (LogicError (lit "Path resides outside the site root")).
Proof.
  intros Hn. unfold MakeVirtual_real.
  pose proof (normal_not_nil _ Hn) as Hne. pose proof (normal_no_slash _ Hn) as Hs.
  destruct n as [|c n]; [done|]. apply not_elem_of_cons in Hs as [Hc _].
  unfold render. rewrite join_cons_char. cbn.
  rewrite (bool_decide_eq_false_2 (c = SLASH)) by congruence. by rewrite andb_false_r.
Qed.

(** Nor may it end with a slash: no path at all is below it then. *)
Lemma MakeVirtual_real_trailing ss ns :
  Forall normal ss → ss ≠ [] → Forall normal ns →
  MakeVirtual_real (render ss ++ [SLASH]) (render ns) =
  Throw (LogicError (lit "Path resides outside the site root")).
Proof.
  intros Hss Hne Hns. unfold MakeVirtual_real. case_bool_decide as Hp; [|done]. cbn [andb].
  destruct (_ || _) eqn:Hc; [|done]. exfalso.
  pose proof (take_drop (length (render ss ++ [SLASH])) (render ns)) as E. rewrite Hp, <- app_assoc in E.
  set (u := drop _ _) in E. clearbody u. cbn [app] in E. pose proof (render_extend ss ns u Hss Hns Hne E) as En.
  rewrite En in Hns. apply Forall_app in Hns as [_ Hn].
  apply orb_true_iff in Hc as [Hc%bool_decide_eq_true|Hc%Nat.eqb_eq].
  - rewrite <- E in Hc. unfold char_at in Hc. rewrite length_app in Hc. cbn [length] in Hc.
    rewrite lookup_app_r in Hc by lia. replace (length (render ss) + 1 - length (render ss))%nat with 1%nat in Hc by lia.
    cbn in Hc. destruct u as [|c u]; [done|]. cbn in Hc. subst c. rewrite split_char_slash_cons in Hn.
    by apply Forall_cons_1 in Hn as [[H _] _].
  - rewrite <- E, !length_app in Hc. cbn [length] in Hc. destruct u as [|c u]; [|cbn in Hc; lia].
    cbn in Hn. by apply Forall_cons_1 in Hn as [[H _] _].
Qed.

(** ** Properties *)

(** C7: The sandbox of [PathFromUser].  Let the configured root be a canonical absolute
    path other than "/": the option sitepath is taken as it is written, and a root that
    ends with a slash admits no path at all.  For every canonical work directory, every
    path a client can send and every state of the symbolic links (of realpath only that
    its answers are canonical is assumed), [PathFromUser] yields a virtual path exactly
    when the real path lies at or below the root; the virtual path is then canonical
    and naming it below the root gives the real path back.  Otherwise it throws, and
    a sibling whose name merely begins with the root's name is outside. *)
Theorem PathFromUser_sandbox ss cwd realpath path :
  Forall normal ss → ss ≠ [] → canonical cwd → realpath_ok realpath →
  ∃ ns, MakeReal (render ss) cwd realpath path = render ns ∧ Forall normal ns ∧
    (∀ v, PathFromUser (render ss) cwd realpath path = Ok v ↔
          ∃ vs, ns = ss ++ vs ∧ v = render vs ∧ MakeReal_virtual (render ss) v = render ns) ∧
    ((¬ ∃ vs, ns = ss ++ vs) →
       PathFromUser (render ss) cwd realpath path =
       Throw (LogicError (lit "Path resides outside the site root"))).
Proof.
  intros Hss Hne Hcwd Hrp.
  destruct (MakeReal_canonical (render ss) cwd realpath path) as (ns & Hns & E);
    [by exists ss|done..|].
  exists ns. unfold PathFromUser, MakeVirtual. rewrite E.
  destruct (MakeVirtual_real_spec ss ns Hss Hns Hne) as [H1 H2].
  split; [done|]. split; [done|]. split; [intros v; split|].
  - intros Hv. destruct (H2 v Hv) as (vs & -> & ->). exists vs.
    apply Forall_app in Hns as [_ Hvs].
    by rewrite <- Append_render.
  - intros (vs & -> & -> & _). by apply H1.
  - intros Hno. destruct (MakeVirtual_real _ _) as [v|e] eqn:Ev.
    + destruct (H2 v eq_refl) as (vs & -> & _). exfalso. eauto.
    + unfold MakeVirtual_real in Ev. by destruct (_ && _); simplify_eq.
Qed.

Lemma PathFromUser_sandbox_witness :
  PathFromUser (lit "/srv/site") (lit "/pub") (λ _, None) (lit "../../etc/passwd") =
    Ok (lit "/etc/passwd").
Proof.
  assert (H1 : Forall normal [lit "srv"; lit "site"]).
  { by apply (bool_decide_unpack (Forall normal [lit "srv"; lit "site"])). }
  assert (H2 : canonical (lit "/pub")).
  { exists [lit "pub"]. split; [|done].
    by apply (bool_decide_unpack (Forall normal [lit "pub"])). }
  destruct (PathFromUser_sandbox [lit "srv"; lit "site"] (lit "/pub") (λ _, None)
              (lit "../../etc/passwd") H1 ltac:(done) H2 ltac:(done))
    as (ns & E & Hns & Hspec & _).
  apply Hspec. exists [lit "etc"; lit "passwd"].
  assert (ns = [lit "srv"; lit "site"; lit "etc"; lit "passwd"]) as ->; [|done].
  apply render_inj; [done| |by rewrite <- E].
  by apply (bool_decide_unpack (Forall normal [lit "srv"; lit "site"; lit "etc"; lit "passwd"])).
Defined.

(** Where no symbolic link is on the way, path resolution below the root
    is exactly the resolution of the client's path against the work directory;
    in particular it never throws.  With "/" as the root, by contrast, every
    path other than the root directory itself is refused. *)
Lemma PathFromUser_no_links site cwd path :
  canonical site → canonical cwd →
  PathFromUser site cwd Some path =
  let virt := Resolve (Join cwd path) in
  if decide (site = ROOT ∧ virt ≠ ROOT)
  then Throw (LogicError (lit "Path resides outside the site root")) else Ok virt.
Proof.
  intros (ss & Hss & ->) Hcwd. cbv zeta.
  destruct (Resolve_cwd cwd path Hcwd) as (vs & Hvs & E).
  unfold PathFromUser, MakeVirtual, MakeReal. rewrite E, Append_render by done.
  destruct (decide (ss = [])) as [->|Hne].
  - destruct vs as [|n vs]; [done|]. rewrite decide_True.
    + apply MakeVirtual_real_root. by inversion Hvs.
    + split; [done|]. by rewrite render_root by done.
  - rewrite decide_False by (rewrite !render_root by done; tauto).
    destruct (MakeVirtual_real_spec ss (ss ++ vs)) as [H _]; [done|by apply Forall_app|done|].
    by apply H.
Qed.

