(* ===== verification/Acl.v ===== *)
(** * Access control lists: acl/flags.cpp, acl/permission.cpp, acl/acl.cpp

    An ACL is a list of permissions, each of which says yes, says no or does
    not apply; the first that applies decides.  [Evaluate] also memoises its
    answer in the ACL object: the model threads the object through, so that a
    second evaluation of the same object is visible. *)

From stdpp Require Import prelude.
From S2P Require Import Prelude CxxString.
Local Open Scope list_scope.

(** ** Flags *)

Definition validFlags : str := lit "12345678ABCDEFGHIJKLMN".

Definition ValidFlags (flags : str) : bool :=
  forallb (λ flag, has_char flag validFlags) flags.

Inductive Flag : Type :=
  | Siteop | Gadmin | Template | Exempt | Color | Deleted | Useredit | Anonymous
  | Nuke | Unnuke | Undupe | Kick | Kill | Take | Give | Users | Idler
  | Custom1 | Custom2 | Custom3 | Custom4 | Custom5.

#[export] Instance Flag_eq_dec : EqDecision Flag.
Proof. solve_decision. Defined.

(** [static_cast<char>(flag)] *)
Definition flag_char (flag : Flag) : ascii :=
  match flag with
  | Siteop => "1" | Gadmin => "2" | Template => "3" | Exempt => "4"
  | Color => "5" | Deleted => "6" | Useredit => "7" | Anonymous => "8"
  | Nuke => "A" | Unnuke => "B" | Undupe => "C" | Kick => "D" | Kill => "E"
  | Take => "F" | Give => "G" | Users => "H" | Idler => "I"
  | Custom1 => "J" | Custom2 => "K" | Custom3 => "L" | Custom4 => "M" | Custom5 => "N"
  end%char.

Lemma flag_char_inj f g : flag_char f = flag_char g → f = g.
Proof. by destruct f, g. Qed.

Lemma ValidFlags_spec flags : ValidFlags flags = true ↔ ∀ c, c ∈ flags → ∃ f, c = flag_char f.
Proof.
  assert (Hv : ∀ c, c ∈ validFlags ↔ ∃ f, c = flag_char f).
  { intros c. split.
    - intros Hc. change validFlags with (map flag_char
        [Siteop; Gadmin; Template; Exempt; Color; Deleted; Useredit; Anonymous;
         Nuke; Unnuke; Undupe; Kick; Kill; Take; Give; Users; Idler;
         Custom1; Custom2; Custom3; Custom4; Custom5]) in Hc.
      apply list_elem_of_fmap in Hc as (f & -> & _). eauto.
    - intros [f ->].
      by destruct f; apply (bool_decide_unpack (_ ∈ validFlags)). }
  unfold ValidFlags. rewrite forallb_forall. split.
  - intros H c Hc. apply Hv. apply list_elem_of_In in Hc. specialize (H c Hc).
    by apply has_char_true.
  - intros H c Hc. apply list_elem_of_In in Hc. by apply has_char_true, Hv, H.
Qed.

(** ** Permissions *)

Record ACLInfo := { username : str; groupname : str; flags : str }.

Inductive Permission : Type :=
  | FlagPermission (flags : str) (negate : bool)
  | UserPermission (username : str) (negate : bool)
  | GroupPermission (groupname : str) (negate : bool).

#[export] Instance Permission_eq_dec : EqDecision Permission.
Proof. solve_decision. Defined.

(** boost::tribool: [None] is [indeterminate]. *)
Definition Permission_Evaluate (p : Permission) (info : ACLInfo) : option bool :=
  match p with
  | FlagPermission fl negate =>
      if has_char "*"%char fl then Some (negb negate)
      else if existsb (λ ch, has_char ch fl) (flags info)
      then Some (negb negate) else None
  | UserPermission name negate =>
      if decide (username info = name) then Some (negb negate) else None
  | GroupPermission name negate =>
      if decide (groupname info = name) then Some (negb negate) else None
  end.

(** ** ACLs *)

Record ACL := { perms : list Permission; finalResult : option bool }.

Fixpoint Evaluate_loop (ps : list Permission) (info : ACLInfo) : bool :=
  match ps with
  | [] => false
  | p :: ps' =>
      match Permission_Evaluate p info with
      | Some result => result
      | None => Evaluate_loop ps' info
      end
  end.

(** [ACL::Evaluate]: the answer and the object afterwards. *)
Definition Evaluate (acl : ACL) (info : ACLInfo) : bool * ACL :=
  match finalResult acl with
  | Some result => (result, acl)
  | None =>
      let result := Evaluate_loop (perms acl) info in
      (result, {| perms := perms acl; finalResult := Some result |})
  end.

(** Evaluating one object for one user after another. *)
Fixpoint Evaluate_all (acl : ACL) (infos : list ACLInfo) : list bool * ACL :=
  match infos with
  | [] => ([], acl)
  | info :: infos' =>
      let '(r, acl) := Evaluate acl info in
      let '(rs, acl) := Evaluate_all acl infos' in (r :: rs, acl)
  end.

(** [FromStringArg]: [arg[negate]] reads the terminating NUL of a short
    argument, and [substr] from there is empty. *)
Definition FromStringArg (arg : str) : Permission :=
  let negate := bool_decide (char_at arg 0 = "!"%char) in
  let n := if negate then 1 else 0 in
  if decide (char_at arg n = "-"%char) then UserPermission (drop (1 + n) arg) negate
  else if decide (char_at arg n = "="%char) then GroupPermission (drop (1 + n) arg) negate
  else FlagPermission (drop n arg) negate.

(** The constructor from a string: [FromString] *)
Definition FromString `{Split} (s : str) : ACL :=
  {| perms := map FromStringArg (Split_ s (lit " ") true); finalResult := None |}.

(** [ACL() = default] *)
Definition empty_ACL : ACL := {| perms := []; finalResult := None |}.

(** ** Specification *)

(** A permission applies to a user ... *)
Definition applies (p : Permission) (info : ACLInfo) : Prop :=
  match p with
  | FlagPermission fl _ => "*"%char ∈ fl ∨ ∃ c, c ∈ fl ∧ c ∈ flags info
  | UserPermission name _ => name = username info
  | GroupPermission name _ => name = groupname info
  end.

(** ... and grants or denies. *)
Definition grants (p : Permission) : bool :=
  match p with
  | FlagPermission _ n | UserPermission _ n | GroupPermission _ n => negb n
  end.

(** The user is allowed: the first permission that applies grants. *)
Definition allowed (ps : list Permission) (info : ACLInfo) : Prop :=
  ∃ before p after, ps = before ++ p :: after ∧ applies p info ∧ grants p = true ∧
    Forall (λ q, ¬ applies q info) before.

(** The text of a permission, as the configuration file has it. *)
Definition show_permission (p : Permission) : str :=
  (if grants p then [] else lit "!") ++
  match p with
  | FlagPermission fl _ => fl
  | UserPermission name _ => "-"%char :: name
  | GroupPermission name _ => "="%char :: name
  end.

(** Permissions that have a text: no spaces inside, and flags that cannot be
    taken for one of the prefixes. *)
Definition printable (p : Permission) : Prop :=
  match p with
  | FlagPermission fl _ =>
      fl ≠ [] ∧ (" "%char ∉ fl) ∧ head fl ≠ Some "!"%char ∧ head fl ≠ Some "-"%char ∧
      head fl ≠ Some "="%char
  | UserPermission name _ | GroupPermission name _ => " "%char ∉ name
  end.

#[export] Instance printable_dec p : Decision (printable p).
Proof. destruct p; unfold printable; apply _. Defined.

(** ** Lemmas *)

Lemma existsb_has_char fl cs : existsb (λ ch, has_char ch fl) cs = true ↔ ∃ c, c ∈ fl ∧ c ∈ cs.
Proof.
  rewrite existsb_exists. setoid_rewrite has_char_true. setoid_rewrite <- list_elem_of_In.
  split; intros (c & H1 & H2); eauto.
Qed.

#[export] Instance applies_dec p info : Decision (applies p info).
Proof.
  destruct p; cbn; try apply _.
  refine (cast_if (decide (has_char "*"%char flags0 = true ∨
                           existsb (λ ch, has_char ch flags0) (flags info) = true)));
    by rewrite <- has_char_true, <- existsb_has_char.
Defined.

Lemma Permission_Evaluate_spec p info :
  Permission_Evaluate p info = if decide (applies p info) then Some (grants p) else None.
Proof.
  destruct p as [fl n|name n|name n]; cbn [Permission_Evaluate grants].
  - case_decide as H; cbn [applies] in H; rewrite <- has_char_true, <- existsb_has_char in H.
    + destruct H as [-> | ->]; [done|]. by destruct (has_char _ _).
    + destruct (has_char _ _); [tauto|]. by destruct (existsb _ _); [tauto|].
  - by repeat case_decide; simplify_eq/=.
  - by repeat case_decide; simplify_eq/=.
Qed.

Lemma Evaluate_loop_spec ps info : Evaluate_loop ps info = true ↔ allowed ps info.
Proof.
  induction ps as [|p ps IH]; cbn.
  { split; [done|]. intros (b & p & a & E & _). by destruct b. }
  rewrite Permission_Evaluate_spec. case_decide as Hp.
  - split.
    + intros Hg. by exists [], p, ps.
    + intros (before & q & after & E & Hq & Hg & Hb). destruct before as [|r before].
      * by injection E as -> ->.
      * injection E as <- ->. by inversion Hb.
  - rewrite IH. split.
    + intros (before & q & after & -> & Hq & Hg & Hb). exists (p :: before), q, after. auto.
    + intros (before & q & after & E & Hq & Hg & Hb). destruct before as [|r before].
      * by injection E as -> ->.
      * injection E as <- ->. inversion Hb. by exists before, q, after.
Qed.

Lemma FromStringArg_show p : printable p → FromStringArg (show_permission p) = p.
Proof.
  unfold FromStringArg, show_permission. destruct p as [fl n|name n|name n]; cbn.
  - intros (Hne & _ & Hb & Hm & He). destruct fl as [|c fl]; [done|]. cbn in *.
    destruct n; cbn; rewrite ?char_at_0.
    + rewrite bool_decide_eq_true_2, char_at_S, char_at_0 by done.
      by rewrite !decide_False by (by intros ->).
    + rewrite bool_decide_eq_false_2, char_at_0 by (by intros ->).
      by rewrite !decide_False by (by intros ->).
  - by destruct n.
  - by destruct n.
Qed.

Lemma show_permission_clean p :
  printable p → show_permission p ≠ [] ∧ (" "%char ∉ show_permission p).
Proof.
  unfold show_permission. destruct p as [fl n|name n|name n]; cbn.
  - intros (Hne & Hs & _). destruct n; cbn; rewrite ?not_elem_of_cons; repeat split; try done.
  - destruct n; cbn; rewrite ?not_elem_of_cons; repeat split; try done.
  - destruct n; cbn; rewrite ?not_elem_of_cons; repeat split; try done.
Qed.

Lemma join_split_on `{SplitOk} d ts :
  ts ≠ [] → Forall (λ t, t ≠ [] ∧ d ∉ t) ts → split (join d ts) [d] true = ts.
Proof.
  intros Hne Hts. apply Forall_and in Hts as [H1 H2].
  rewrite split_on_clean; rewrite split_join; done.
Qed.

(** ** Properties *)

(** A freshly built ACL implements first-match semantics: it allows a user
    exactly when some permission applies to the user ("*", a shared flag, the
    user name or the primary group), is not negated, and none before it
    applies.  Evaluation leaves the permissions alone and stores its answer. *)
Lemma ACL_Evaluate_first_match ps info :
  let '(r, acl) := Evaluate {| perms := ps; finalResult := None |} info in
  (r = true ↔ allowed ps info) ∧ perms acl = ps ∧ finalResult acl = Some r.
Proof. cbn. by rewrite Evaluate_loop_spec. Qed.

(** The answer sticks to the object: when one ACL object is asked about a
    sequence of users, every user gets the answer computed for the first. *)
Lemma ACL_Evaluate_sticky ps info infos :
  (Evaluate_all {| perms := ps; finalResult := None |} (info :: infos)).1 =
  replicate (S (length infos)) (Evaluate_loop ps info).
Proof.
  cbn. set (r := Evaluate_loop ps info).
  assert (H : (Evaluate_all {| perms := ps; finalResult := Some r |} infos) =
              (replicate (length infos) r, {| perms := ps; finalResult := Some r |})).
  { induction infos as [|i infos IH]; [done|]. cbn. by rewrite IH. }
  by rewrite H.
Qed.

(** Parsing inverts printing: an ACL written as its permissions, separated
    by single spaces, is read back as those permissions in that order, with
    nothing memoised. *)
Lemma ACL_FromString_show `{SplitOk} ps :
  ps ≠ [] → Forall printable ps →
  FromString (join " "%char (map show_permission ps)) = {| perms := ps; finalResult := None |}.
Proof.
  intros Hne Hps. unfold FromString, Split_. f_equal. rewrite join_split_on.
  - rewrite map_map. rewrite <- (map_id ps) at 2. apply map_ext_in.
    intros p Hp. apply list_elem_of_In in Hp. rewrite Forall_forall in Hps.
    by apply FromStringArg_show, Hps.
  - by destruct ps.
  - apply Forall_map. eapply Forall_impl; [exact Hps|]. apply show_permission_clean.
Qed.

Lemma ACL_FromString_show_example :
  FromString (H := ref_split) (lit "!-joe =STAFF 13") =
    {| perms := [UserPermission (lit "joe") true; GroupPermission (lit "STAFF") false;
                 FlagPermission (lit "13") false];
       finalResult := None |}.
Proof.
  apply (@ACL_FromString_show ref_split ref_split_ok
    [UserPermission (lit "joe") true; GroupPermission (lit "STAFF") false;
     FlagPermission (lit "13") false]); [done|].
  by apply (bool_decide_unpack (Forall printable
    [UserPermission (lit "joe") true; GroupPermission (lit "STAFF") false;
     FlagPermission (lit "13") false])).
Defined.
