(* ===== verification/Numbers.v ===== *)
(** * Numbers and their text: std::stoi and friends, operator<<, isspace

    Decimal output as the streams and [std::to_string] give it, and the
    conversions [StrToInt], [StrToLLong], ... of util/util/string.cpp, which accept
    what std::stoi accepts provided nothing is left over.  [StrTo_to_string] is
    the round trip the protocol encodings rest on. *)

From stdpp Require Import prelude.
From S2P Require Import Prelude CxxString.
Local Open Scope Z_scope.

(** [std::isspace] in the "C" locale *)
Definition isspace (c : ascii) : bool :=
  bool_decide (code c = 32 ∨ (9 ≤ code c ∧ code c ≤ 13)).

Definition isdigit (c : ascii) : bool := (48 <=? code c) && (code c <=? 57).

(** ** Output *)

Definition digit (n : Z) : ascii := ascii_of_N (Z.to_N (48 + n)).

Fixpoint digits (fuel : nat) (n : Z) (acc : str) : str :=
  match fuel with
  | O => acc
  | S fuel' =>
      let acc := digit (n mod 10) :: acc in
      if n <? 10 then acc else digits fuel' (n / 10) acc
  end.

(** One step per binary digit is more than enough. *)
Definition to_string (n : Z) : str :=
  if n <? 0 then "-"%char :: digits (S (Z.to_nat (Z.log2 (- n)))) (- n) []
  else digits (S (Z.to_nat (Z.log2 n))) n [].

(** ** Input *)

Fixpoint drop_spaces (s : str) : str :=
  match s with
  | c :: s' => if isspace c then drop_spaces s' else s
  | [] => []
  end.

Definition digits_value (acc : Z) (s : str) : Z :=
  foldl (λ a c, 10 * a + (code c - 48)) acc s.

(** [StrToInt] and the like, for a type with the range [lo] to [hi]: [None] is
    [std::bad_cast]. *)
Definition StrTo (lo hi : Z) (s : str) : option Z :=
  let s := drop_spaces s in
  let '(neg, ds) :=
    match s with
    | c :: s' =>
        if decide (c = "-"%char) then (true, s')
        else if decide (c = "+"%char) then (false, s') else (false, s)
    | [] => (false, [])
    end in
  match ds with
  | [] => None
  | _ =>
      if forallb isdigit ds then
        let n := digits_value 0 ds in
        let n := if neg : bool then - n else n in
        if (lo <=? n) && (n <=? hi) then Some n else None
      else None
  end.

Definition INT_MIN : Z := - 2 ^ 31.
Definition INT_MAX : Z := 2 ^ 31 - 1.
Definition LLONG_MIN : Z := - 2 ^ 63.
Definition LLONG_MAX : Z := 2 ^ 63 - 1.

Definition StrToInt (s : str) : option Z := StrTo INT_MIN INT_MAX s.
Definition StrToLong (s : str) : option Z := StrTo LLONG_MIN LLONG_MAX s.
Definition StrToLLong (s : str) : option Z := StrTo LLONG_MIN LLONG_MAX s.

(** ** Round trip *)

Lemma code_digit n : 0 ≤ n < 10 → code (digit n) = 48 + n.
Proof.
  intros Hn. unfold code, digit. rewrite N_ascii_embedding by lia. lia.
Qed.

Lemma isdigit_digit n : 0 ≤ n < 10 → isdigit (digit n) = true.
Proof. intros Hn. unfold isdigit. rewrite code_digit by done. lia. Qed.

Lemma digits_spec fuel n acc :
  0 ≤ n < 2 ^ Z.of_nat fuel → fuel ≠ O →
  (∃ ds, digits fuel n acc = ds ++ acc ∧ ds ≠ [] ∧ forallb isdigit ds = true ∧
         ∀ a, digits_value a ds = a * 10 ^ Z.of_nat (length ds) + n).
Proof.
  revert n acc. induction fuel as [|fuel IH]; intros n acc Hn Hf; [done|].
  pose proof (Z.mod_pos_bound n 10 ltac:(lia)) as Hmod. cbn [digits].
  destruct (Z.ltb_spec n 10) as [Hlt|Hge].
  - exists [digit (n mod 10)]. split; [done|]. split; [done|].
    cbn [forallb length]. rewrite isdigit_digit, Z.mod_small by lia. split; [done|].
    intros a. unfold digits_value. cbn [foldl]. rewrite code_digit by lia. lia.
  - destruct (IH (n / 10) (digit (n mod 10) :: acc)) as (ds & E & Hne & Hd & Hv).
    + rewrite Nat2Z.inj_succ, Z.pow_succ_r in Hn by lia. split; [apply Z.div_pos; lia|].
      apply Z.div_lt_upper_bound; lia.
    + intros ->. cbn in Hn. lia.
    + exists (ds ++ [digit (n mod 10)]). rewrite E, <- app_assoc. split; [done|].
      split; [by destruct ds|]. split.
      * rewrite forallb_app, Hd. cbn. by rewrite isdigit_digit.
      * intros a. unfold digits_value in *. rewrite foldl_app, Hv. cbn [foldl].
        rewrite code_digit, length_app, Nat2Z.inj_add, Z.pow_add_r by lia. cbn [length].
        pose proof (Z.div_mod n 10 ltac:(lia)). change (10 ^ Z.of_nat 1) with 10. lia.
Qed.

Lemma to_string_digits n :
  0 ≤ n → ∃ ds, to_string n = ds ∧ ds ≠ [] ∧ forallb isdigit ds = true ∧ digits_value 0 ds = n.
Proof.
  intros Hn. unfold to_string. destruct (Z.ltb_spec n 0) as [?|_]; [lia|].
  destruct (digits_spec (S (Z.to_nat (Z.log2 n))) n []) as (ds & E & H1 & H2 & H3); [|done|].
  - split; [done|]. rewrite Nat2Z.inj_succ, Z2Nat.id by apply Z.log2_nonneg.
    destruct (Z.eq_dec n 0) as [->|?]; [done|]. apply Z.log2_spec. lia.
  - exists ds. rewrite E, app_nil_r. split; [done|]. split; [done|]. split; [done|].
    rewrite H3. lia.
Qed.

Lemma isdigit_code c : isdigit c = true → 48 ≤ code c ≤ 57.
Proof. unfold isdigit. lia. Qed.

Lemma digit_head c ds :
  forallb isdigit (c :: ds) = true → isspace c = false ∧ c ≠ "-"%char ∧ c ≠ "+"%char.
Proof.
  cbn. intros [Hc _]%andb_true_iff. apply isdigit_code in Hc.
  split; [apply bool_decide_eq_false_2; lia|].
  split; intros ->; [change (code "-"%char) with 45 in Hc | change (code "+"%char) with 43 in Hc]; lia.
Qed.

(** Reading a number back. *)
Lemma StrTo_to_string lo hi n : 0 ≤ n → lo ≤ n ≤ hi → StrTo lo hi (to_string n) = Some n.
Proof.
  intros Hn Hr. destruct (to_string_digits n Hn) as (ds & -> & Hne & Hd & Hv).
  destruct ds as [|c ds]; [done|]. destruct (digit_head c ds Hd) as (H1 & H2 & H3).
  unfold StrTo. cbn [drop_spaces]. rewrite H1, !decide_False by done. cbv zeta.
  rewrite Hd, Hv. rewrite (proj2 (andb_true_iff _ _)) by lia. done.
Qed.

(** A number that does not fit is no number. *)
Lemma StrTo_to_string_out lo hi n : 0 ≤ n → ¬ (lo ≤ n ≤ hi) → StrTo lo hi (to_string n) = None.
Proof.
  intros Hn Hr. destruct (to_string_digits n Hn) as (ds & -> & Hne & Hd & Hv).
  destruct ds as [|c ds]; [done|]. destruct (digit_head c ds Hd) as (H1 & H2 & H3).
  unfold StrTo. cbn [drop_spaces]. rewrite H1, !decide_False by done. cbv zeta.
  rewrite Hd, Hv. destruct (_ && _) eqn:E; [lia|done].
Qed.

(** What the conversion returns is in range. *)
Lemma StrTo_range lo hi s n : StrTo lo hi s = Some n → lo ≤ n ≤ hi.
Proof.
  unfold StrTo. case_match. destruct l; [done|]. destruct (forallb _ _); [|done].
  set (v := if b then _ else _). destruct (_ && _) eqn:E; [|done]. intros [= <-]. lia.
Qed.

(** A positive number does not begin with a zero, so that its length is bounded. *)
Lemma digits_lead fuel n acc :
  0 < n < 2 ^ Z.of_nat fuel → ∃ d ds, digits fuel n acc = digit d :: ds ∧ 0 < d < 10.
Proof.
  revert n acc. induction fuel as [|fuel IH]; intros n acc Hn; [cbn in Hn; lia|]. cbn [digits].
  destruct (Z.ltb_spec n 10) as [Hlt|Hge].
  - exists (n mod 10), acc. split; [done|]. rewrite Z.mod_small; lia.
  - apply IH. rewrite Nat2Z.inj_succ, Z.pow_succ_r in Hn by lia.
    split; [apply Z.div_str_pos; lia | apply Z.div_lt_upper_bound; lia].
Qed.

Lemma to_string_lead n : 0 < n → ∃ d ds, to_string n = digit d :: ds ∧ 0 < d < 10.
Proof.
  intros Hn. unfold to_string. destruct (Z.ltb_spec n 0) as [?|_]; [lia|]. apply digits_lead.
  split; [done|]. rewrite Nat2Z.inj_succ, Z2Nat.id by apply Z.log2_nonneg. by apply Z.log2_spec.
Qed.

Lemma digits_value_lower a ds :
  0 ≤ a → forallb isdigit ds = true → a * 10 ^ Z.of_nat (length ds) ≤ digits_value a ds.
Proof.
  revert a. induction ds as [|c ds IH]; intros a Ha Hd; [cbn; lia|].
  cbn in Hd. apply andb_true_iff in Hd as [Hc%isdigit_code Hd].
  specialize (IH (10 * a + (code c - 48)) ltac:(lia) Hd). cbn [length].
  rewrite Nat2Z.inj_succ, Z.pow_succ_r by lia.
  change (digits_value a (c :: ds)) with (digits_value (10 * a + (code c - 48)) ds). nia.
Qed.

Lemma to_string_length n k : 0 ≤ n < 10 ^ Z.of_nat k → k ≠ O → (length (to_string n) ≤ k)%nat.
Proof.
  intros Hn Hk. destruct (decide (n = 0)) as [->|Hn0]; [cbn; lia|].
  destruct (to_string_lead n ltac:(lia)) as (d & ds & E & Hd).
  destruct (to_string_digits n ltac:(lia)) as (ds' & E' & _ & Hf & Hv).
  rewrite E in *. subst ds'. cbn in Hf. rewrite isdigit_digit in Hf by lia. cbn in Hf.
  pose proof (digits_value_lower d ds ltac:(lia) Hf) as Hl.
  assert (Hv' : digits_value d ds = n).
  { rewrite <- Hv. unfold digits_value. cbn [foldl]. rewrite code_digit by lia. f_equal. lia. }
  rewrite Hv' in Hl. cbn [length].
  destruct (decide (k ≤ length ds)%nat) as [Hlen|]; [|lia].
  pose proof (Z.pow_le_mono_r 10 (Z.of_nat k) (Z.of_nat (length ds)) ltac:(lia) ltac:(lia)). nia.
Qed.

Lemma to_string_no_char n d :
  0 ≤ n → isdigit d = false → d ∉ to_string n.
Proof.
  intros Hn Hd. destruct (to_string_digits n Hn) as (ds & -> & _ & H & _).
  rewrite forallb_forall in H. intros Hin. apply list_elem_of_In, H in Hin. congruence.
Qed.
