(* ===== verification/Strings.v ===== *)
(** * Text: the functions of util/string.cpp that go over a text themselves

    Searching for the n-th blank of a line, compressing whitespace, wrapping a text
    into lines of a table, capitals.  What util/string.cpp only passes on to boost and
    fnmatch(3) is in CxxString.v, what it makes of numbers in Numbers.v. *)

From stdpp Require Import prelude.
From S2P Require Import Prelude CxxString Numbers.
Local Open Scope Z_scope.
Local Open Scope list_scope.

(** [None] is [std::bad_cast]. *)
Definition BoolLexicalCast `{CaseConv} (arg : str) : option bool :=
  let arg := to_lower arg in
  if decide (arg = lit "yes") then Some true else if decide (arg = lit "no") then Some false else None.

(** [WildcardMatch(container, str)] *)
Definition WildcardMatch_any `{Fnmatch} (patterns : list str) (s : str) (iCase : bool) : bool :=
  existsb (λ pattern, WildcardMatch pattern s iCase) patterns.

(** [Join(cont, delim)] *)
Fixpoint Join_loop (delim : str) (first : bool) (result : str) (ts : list str) : str :=
  match ts with
  | [] => result
  | t :: ts => Join_loop delim false ((if first then result else result ++ delim) ++ t) ts
  end.
Definition Join_ (ts : list str) (delim : str) : str := Join_loop delim true [] ts.

(** ** Positions

    [--n] of an unsigned; a round moves [pos] on, so that the length of the text
    and one more bounds them. *)
Definition UINT : Z := 2 ^ 32.

Fixpoint FindNth_loop (fuel : nat) (s : str) (ch : ascii) (n : Z) (pos : option nat) : option nat :=
  match fuel with
  | O => pos
  | S fuel =>
      let n := (n - 1) mod UINT in
      if n =? 0 then pos
      else match pos with
           | None => None
           | Some p => FindNth_loop fuel s ch n (find_at ch s (p + 1))
           end
  end.

Definition FindNthChar (s : str) (ch : ascii) (n : Z) : option nat :=
  FindNth_loop (S (S (length s))) s ch n (find ch s).

(** [while (str[pos] == ch && pos != npos) ++pos]: [str[size]] is NUL, which ends the
    loop for every other [ch]. *)
Fixpoint skip_run (ch : ascii) (rest : str) (pos : nat) : nat :=
  match rest with
  | c :: rest => if decide (c = ch) then skip_run ch rest (S pos) else pos
  | [] => pos
  end.

Fixpoint FindNthNonConsecutive_loop (fuel : nat) (s : str) (ch : ascii) (n : Z) (pos : option nat) : option nat :=
  match fuel with
  | O => pos
  | S fuel =>
      let n := (n - 1) mod UINT in
      if n =? 0 then pos
      else match pos with
           | None => None
           | Some p => FindNthNonConsecutive_loop fuel s ch n (find_at ch s (skip_run ch (drop p s) p + 1))
           end
  end.

Definition FindNthNonConsecutiveChar (s : str) (ch : ascii) (n : Z) : option nat :=
  FindNthNonConsecutive_loop (S (S (length s))) s ch n (find ch s).

(** ** Whitespace

    The two loops of [CompressWhitespace] as one: [after] when the inner one runs. *)
Fixpoint compress_runs (after : bool) (s : str) : str :=
  match s with
  | [] => []
  | c :: s => if after && isspace c then compress_runs true s else c :: compress_runs (isspace c) s
  end.

Definition CompressWhitespace (s : str) : str :=
  let s := compress_runs false s in
  match s with
  | [] => []
  | c :: s' =>
      let s := if isspace c then s' else s in
      match last s with
      | None => s
      | Some c => if isspace c then removelast s else s
      end
  end.

(** [WordWrap(source, length)]: the line, and what is left of the text *)
Fixpoint find_last_any (cs s : str) : option nat :=
  match s with
  | [] => None
  | x :: s =>
      match find_last_any cs s with
      | Some n => Some (S n)
      | None => if bool_decide (x ∈ cs) then Some 0%nat else None
      end
  end.

Definition WordWrap (source : str) (len : nat) : str * str :=
  if (length source <? len)%nat then (source, [])
  else
    let part := substr source 0 len in
    match find_last_any ("-"%char :: " "%char :: ["009"%char]) part with
    | None => (part, drop (length part) source)
    | Some pos => (substr part 0 pos, drop (pos + 1) source)
    end.

(** [while (!body.empty()) ... WordWrap(body, length)], which goes on for ever at
    length 0 *)
Fixpoint wrap_loop (fuel : nat) (body : str) (len : nat) : option (list str) :=
  match body with
  | [] => Some []
  | _ =>
      match fuel with
      | O => None
      | S fuel => let '(line, body) := WordWrap body len in (λ ls, line :: ls) <$> wrap_loop fuel body len
      end
  end.

(** ** Capitals *)

Fixpoint TitleSimple_loop (newWord : bool) (s : str) : str :=
  match s with
  | [] => []
  | ch :: s =>
      if negb (isspace ch) then (if newWord then ascii_upper ch else ch) :: TitleSimple_loop false s
      else ch :: TitleSimple_loop true s
  end.

Definition TitleSimple (s : str) : str := TitleSimple_loop true s.

(** ** Unsigned numbers

    std::stoull negates a number with a minus in the type, if it fits without. *)
Definition StrToU (max : Z) (s : str) : option Z :=
  match StrTo (- max) max s with
  | None => None
  | Some n => Some (n mod (max + 1))
  end.
Definition ULLONG_MAX : Z := 2 ^ 64 - 1.
Definition StrToULong (s : str) : option Z := StrToU ULLONG_MAX s.
Definition StrToULLong (s : str) : option Z := StrToU ULLONG_MAX s.

(** ** Joining *)

Lemma Join_loop_spec delim result ts : Join_loop delim false result ts = result ++ concat (map (λ t, delim ++ t) ts).
Proof.
  revert result. induction ts as [|t ts IH]; intros result; cbn [Join_loop]; [by rewrite app_nil_r|].
  rewrite IH. cbn. by rewrite <-!app_assoc.
Qed.

(** With one character between the texts it is the [join] of the other files. *)
Lemma Join_join ts d : Join_ ts [d] = join d ts.
Proof.
  destruct ts as [|t ts]; [done|]. unfold Join_. cbn [Join_loop]. rewrite Join_loop_spec. cbn [app].
  revert t. induction ts as [|u ts IH]; intros t; [apply app_nil_r|]. rewrite join_cons by done. rewrite <-IH. done.
Qed.

(** ** Positions *)

(** The positions of a character, and those where a run of it starts *)
Fixpoint occs (ch : ascii) (s : str) (pos : nat) : list nat :=
  match s with
  | [] => []
  | c :: s => (if decide (c = ch) then [pos] else []) ++ occs ch s (S pos)
  end.

Fixpoint run_starts (ch : ascii) (inside : bool) (s : str) (pos : nat) : list nat :=
  match s with
  | [] => []
  | c :: s => (if decide (c = ch) then if inside then [] else [pos] else []) ++ run_starts ch (bool_decide (c = ch)) s (S pos)
  end.

Lemma find_from_occs ch s k : find_from ch s k = head (occs ch s k).
Proof. revert k. induction s as [|c s IH]; intros k; [done|]. cbn. case_decide; [done|apply IH]. Qed.

Lemma occs_cons ch s k p l : occs ch s k = p :: l → (k ≤ p)%nat ∧ l = occs ch (drop (S p - k) s) (S p).
Proof.
  revert k. induction s as [|c s IH]; intros k; cbn [occs]; [done|]. case_decide.
  - cbn. intros [= -> <-]. replace (S p - p)%nat with 1%nat by lia. by split.
  - cbn. intros Hl. destruct (IH (S k) Hl) as [Hk ->]. split; [lia|]. by replace (S p - k)%nat with (S (S p - S k)) by lia.
Qed.

Lemma occs_length ch s k : (length (occs ch s k) ≤ length s)%nat.
Proof. revert k. induction s as [|c s IH]; intros k; [done|]. cbn. specialize (IH (S k)). case_decide; cbn; lia. Qed.

Lemma counted n : 1 ≤ n < UINT → (n - 1) mod UINT = n - 1.
Proof. intros Hn. apply Z.mod_small. lia. Qed.

Lemma FindNth_loop_spec fuel s ch n k : 1 ≤ n < UINT → (length (occs ch (drop k s) k) < fuel)%nat →
  FindNth_loop fuel s ch n (head (occs ch (drop k s) k)) = occs ch (drop k s) k !! Z.to_nat (n - 1).
Proof.
  revert n k. induction fuel as [|fuel IH]; intros n k Hn Hf; [lia|]. cbn [FindNth_loop]. rewrite counted by done.
  destruct (n - 1 =? 0) eqn:E; [apply Z.eqb_eq in E|apply Z.eqb_neq in E].
  { rewrite E. by destruct (occs _ _ _). }
  destruct (occs ch (drop k s) k) as [|p l] eqn:El; [done|]. cbn [head].
  apply occs_cons in El as [Hk ->]. rewrite drop_drop in *. replace (k + (S p - k))%nat with (p + 1)%nat in * by lia.
  replace (S p) with (p + 1)%nat in * by lia. unfold find_at. rewrite find_from_occs, IH; [|lia|cbn in Hf; lia].
  by replace (Z.to_nat (n - 1)) with (S (Z.to_nat (n - 1 - 1))) by lia.
Qed.

Theorem FindNthChar_spec s ch n : 1 ≤ n < UINT → FindNthChar s ch n = occs ch s 0 !! Z.to_nat (n - 1).
Proof.
  intros Hn. unfold FindNthChar, find. rewrite find_from_occs. pose proof (occs_length ch s 0) as Hl.
  apply (FindNth_loop_spec _ s ch n 0 Hn). rewrite drop_0. lia.
Qed.

Lemma find_from_runs ch s k : find_from ch s k = head (run_starts ch false s k).
Proof.
  revert k. induction s as [|c s IH]; intros k; [done|]. cbn. case_decide; [done|].
  rewrite bool_decide_eq_false_2 by done. apply IH.
Qed.

Lemma runs_cons ch s k p l : run_starts ch false s k = p :: l →
  (k ≤ p)%nat ∧ s !! (p - k)%nat = Some ch ∧ l = run_starts ch true (drop (S p - k) s) (S p).
Proof.
  revert k. induction s as [|c s IH]; intros k; cbn [run_starts]; [done|]. case_decide as Hc.
  - rewrite bool_decide_eq_true_2 by done. cbn. intros [= -> <-]. subst c. replace (S p - p)%nat with 1%nat by lia.
    by rewrite Nat.sub_diag.
  - rewrite bool_decide_eq_false_2 by done. cbn. intros Hl. destruct (IH (S k) Hl) as (Hk & Hs & ->). split_and!; [lia| |].
    + by replace (p - k)%nat with (S (p - S k)) by lia.
    + by replace (S p - k)%nat with (S (S p - S k)) by lia.
Qed.

Lemma runs_skip ch t k : run_starts ch true t k = run_starts ch false (drop (S (skip_run ch t k) - k) t) (S (skip_run ch t k)).
Proof.
  revert k. induction t as [|c t IH]; intros k; cbn [run_starts skip_run]; [by rewrite drop_nil|]. case_decide as Hc.
  - rewrite bool_decide_eq_true_2 by done. cbn [app]. rewrite IH.
    assert (∀ t q, (q ≤ skip_run ch t q)%nat) as Hq.
    { clear. induction t as [|c t IH]; intros q; cbn; [lia|]. case_decide; [specialize (IH (S q)); lia|lia]. }
    specialize (Hq t (S k)). by replace (S (skip_run ch t (S k)) - k)%nat with (S (S (skip_run ch t (S k)) - S k))%nat by lia.
  - rewrite bool_decide_eq_false_2 by done. by replace (S k - k)%nat with 1%nat by lia.
Qed.

Lemma skip_run_ge ch t q : (q ≤ skip_run ch t q)%nat.
Proof. revert q. induction t as [|c t IH]; intros q; cbn; [lia|]. case_decide; [specialize (IH (S q)); lia|lia]. Qed.

Lemma runs_length ch b s k : (length (run_starts ch b s k) ≤ length s)%nat.
Proof.
  revert b k. induction s as [|c s IH]; intros b k; [done|]. cbn. rewrite length_app.
  specialize (IH (bool_decide (c = ch)) (S k)). revert IH. generalize (length (run_starts ch (bool_decide (c = ch)) s (S k))).
  intros m Hm. case_decide; [destruct b|]; cbn; lia.
Qed.

Lemma FindNthNonConsecutive_loop_spec fuel s ch n k : 1 ≤ n < UINT → (length (run_starts ch false (drop k s) k) < fuel)%nat →
  FindNthNonConsecutive_loop fuel s ch n (head (run_starts ch false (drop k s) k)) = run_starts ch false (drop k s) k !! Z.to_nat (n - 1).
Proof.
  revert n k. induction fuel as [|fuel IH]; intros n k Hn Hf; [lia|]. cbn [FindNthNonConsecutive_loop]. rewrite counted by done.
  destruct (n - 1 =? 0) eqn:E; [apply Z.eqb_eq in E|apply Z.eqb_neq in E].
  { rewrite E. by destruct (run_starts _ _ _ _). }
  destruct (run_starts ch false (drop k s) k) as [|p l] eqn:El; [done|]. cbn [head].
  apply runs_cons in El as (Hk & Hp & ->). rewrite lookup_drop in Hp. replace (k + (p - k))%nat with p in Hp by lia.
  rewrite drop_drop in *. replace (k + (S p - k))%nat with (S p) in * by lia.
  assert (drop p s = ch :: drop (S p) s) as Ed by (by apply drop_S).
  assert (skip_run ch (drop p s) p = skip_run ch (drop (S p) s) (S p)) as Esk by (rewrite Ed; cbn; by rewrite decide_True).
  rewrite runs_skip, drop_drop in *. pose proof (skip_run_ge ch (drop (S p) s) (S p)) as Hge.
  rewrite Esk. set (q := skip_run ch (drop (S p) s) (S p)) in *. replace (S p + (S q - S p))%nat with (q + 1)%nat in * by lia.
  replace (S q) with (q + 1)%nat in * by lia. unfold find_at. rewrite find_from_runs, IH; [|lia|cbn in Hf; lia].
  by replace (Z.to_nat (n - 1)) with (S (Z.to_nat (n - 1 - 1))) by lia.
Qed.

Theorem FindNthNonConsecutiveChar_spec s ch n : 1 ≤ n < UINT →
  FindNthNonConsecutiveChar s ch n = run_starts ch false s 0 !! Z.to_nat (n - 1).
Proof.
  intros Hn. unfold FindNthNonConsecutiveChar, find. rewrite find_from_runs. pose proof (runs_length ch false s 0) as Hl.
  apply (FindNthNonConsecutive_loop_spec _ s ch n 0 Hn). rewrite drop_0. lia.
Qed.

(** ** Whitespace *)

Definition flush (cur : str) : list str := match cur with [] => [] | _ => [cur] end.

(** The words of a text; [cur] is the one that is open. *)
Fixpoint words_from (cur s : str) : list str :=
  match s with
  | [] => flush cur
  | c :: s => if isspace c then flush cur ++ words_from [] s else words_from (cur ++ [c]) s
  end.
Definition words_of (s : str) : list str := words_from [] s.

(** No whitespace at either end, and no two together *)
Fixpoint spaced (after : bool) (s : str) : Prop :=
  match s with
  | [] => after = false
  | c :: s => (after && isspace c = false) ∧ spaced (isspace c) s
  end.
Definition tight (s : str) : Prop := s = [] ∨ spaced true s.

Lemma words_compress_runs after cur s : (after = true → cur = []) → words_from cur (compress_runs after s) = words_from cur s.
Proof.
  revert after cur. induction s as [|c s IH]; intros after cur Hc; [done|]. cbn [compress_runs words_from].
  destruct (isspace c) eqn:Ec; [rewrite andb_true_r|rewrite andb_false_r].
  - destruct after; cbn [words_from]; rewrite ?Ec.
    + rewrite Hc by done. by rewrite IH.
    + by rewrite IH.
  - cbn [words_from]. rewrite Ec. by apply IH.
Qed.

Lemma words_snoc cur s c : isspace c = true → words_from cur (s ++ [c]) = words_from cur s.
Proof.
  intros Hc. revert cur. induction s as [|d s IH]; intros cur; cbn [words_from app].
  - rewrite Hc. apply app_nil_r.
  - destruct (isspace d); by rewrite IH.
Qed.

(** The same but for the last character *)
Fixpoint nearly (after : bool) (s : str) : Prop :=
  match s with [] => True | c :: s => (after && isspace c = false) ∧ nearly (isspace c) s end.

Lemma nearly_compress after s : nearly after (compress_runs after s).
Proof.
  revert after. induction s as [|c s IH]; intros after; [done|]. cbn [compress_runs].
  destruct (after && isspace c) eqn:E; [|by split].
  apply andb_true_iff in E as [-> Ec]. apply IH.
Qed.

Lemma nearly_weaken after s : nearly after s → nearly false s.
Proof. by destruct s as [|c s]; [|intros [_ ?]; split]. Qed.

Lemma spaced_last after s c : nearly after (s ++ [c]) → isspace c = false → spaced after (s ++ [c]).
Proof.
  intros Hn Hc. revert after Hn. induction s as [|d s IH]; intros after; cbn.
  - by intros [? _].
  - intros [Hd Hn]. split; [done|]. by apply IH.
Qed.

Lemma spaced_init after s c : nearly after (s ++ [c]) → isspace c = true → s ≠ [] → spaced after s.
Proof.
  intros Hn Hc Hs. revert after Hn. induction s as [|d s IH]; intros after; [done|]. cbn. intros [Hd Hn]. split; [done|].
  destruct s as [|e s]; [|by apply IH]. cbn in *. rewrite Hc in Hn. destruct Hn as [Hn _]. by rewrite andb_true_r in Hn.
Qed.

Theorem CompressWhitespace_spec s : words_of (CompressWhitespace s) = words_of s ∧ tight (CompressWhitespace s).
Proof.
  unfold words_of, CompressWhitespace. rewrite <-(words_compress_runs false [] s) by done.
  pose proof (nearly_compress false s) as Hn. destruct (compress_runs false s) as [|c t]; [by split; [|left]|].
  assert (∃ u, (if isspace c then t else c :: t) = u ∧ words_from [] (c :: t) = words_from [] u ∧ nearly true u) as (u & -> & -> & Hu).
  { destruct Hn as [_ Hn]. cbn [words_from]. destruct (isspace c) eqn:Ec; eexists; (split; [reflexivity|]).
    - by split.
    - cbn [words_from nearly]. rewrite Ec. cbn. auto. }
  destruct u as [|d u' _] using rev_ind; [by split; [|left]|]. rewrite last_snoc. destruct (isspace d) eqn:Ed.
  - rewrite removelast_last, words_snoc by done. split; [done|].
    destruct (decide (u' = [])) as [->|Hne]; [by left|right]. by apply (spaced_init _ _ d).
  - split; [done|]. right. by apply spaced_last.
Qed.

(** What is tight and has no whitespace but blanks is its words with a blank between. *)
Lemma spaced_join cur s : Forall (λ c, isspace c = true → c = " "%char) s → spaced (bool_decide (cur = [])) s → 
  (s = [] → cur ≠ []) → join " " (words_from cur s) = cur ++ s.
Proof.
  revert cur. induction s as [|c s IH]; intros cur Hb Hs Hne; cbn [words_from].
  { rewrite app_nil_r. destruct cur; [by destruct Hne|done]. }
  apply Forall_cons in Hb as [Hc Hb]. destruct Hs as [Ha Hs]. destruct (isspace c) eqn:Ec.
  - rewrite andb_true_r in Ha. apply bool_decide_eq_false in Ha. rewrite (Hc eq_refl) in *.
    destruct cur as [|x cur]; [done|]. assert (s ≠ []) as Hs0 by (by intros ->).
    cbn [flush app]. rewrite join_cons.
    + rewrite IH; [done|done|by rewrite bool_decide_eq_true_2|by intros ->].
    + assert (∀ cur s, (cur ≠ [] ∨ spaced true s) → words_from cur s ≠ []) as Hw.
      { clear. intros cur s. revert cur. induction s as [|c s IH]; intros cur; cbn [words_from].
        - intros [Hc|Hc]; [by destruct cur|done].
        - destruct (isspace c) eqn:Ec; cbn [spaced].
          + intros [Hc|[Hc _]]; [by destruct cur|by rewrite Ec in Hc].
          + intros _. apply IH. left. by destruct cur. }
      apply Hw. by right.
  - rewrite IH; [by rewrite <-app_assoc|done| |by destruct cur].
    rewrite bool_decide_eq_false_2 by (by destruct cur). done.
Qed.

Lemma tight_join s : Forall (λ c, isspace c = true → c = " "%char) s → tight s → s = join " " (words_of s).
Proof.
  intros Hb [->|Hs]; [done|]. unfold words_of. rewrite spaced_join; [done|done|by rewrite bool_decide_eq_true_2|]. by intros ->.
Qed.

Lemma compress_Forall (P : ascii → Prop) s : Forall P s → Forall P (CompressWhitespace s).
Proof.
  intros Hs. assert (∀ b, Forall P (compress_runs b s)) as Hr.
  { clear -Hs. induction Hs as [|c s Hc Hs IH]; intros b; [done|]. cbn. destruct (b && isspace c); auto. }
  unfold CompressWhitespace. specialize (Hr false). destruct (compress_runs false s) as [|c t]; [done|].
  assert (Forall P (if isspace c then t else c :: t)) as Hu by (destruct (isspace c); [by apply Forall_cons in Hr as [_ Hr]|done]).
  destruct (last _) as [d|]; [|done]. destruct (isspace d); [by apply Forall_removelast|done].
Qed.

Definition only_blanks (s : str) : Prop := Forall (λ c, isspace c = true → c = " "%char) s.

Corollary CompressWhitespace_words s : only_blanks s → CompressWhitespace s = join " " (words_of s).
Proof.
  intros Hs. rewrite <-(proj1 (CompressWhitespace_spec s)). apply tight_join; [by apply compress_Forall|apply CompressWhitespace_spec].
Qed.

(** Compressing again changes nothing. *)
Lemma tight_compress s : tight s → CompressWhitespace s = s.
Proof.
  assert (∀ b s, spaced b s → compress_runs b s = s) as Hr.
  { clear. intros b s. revert b. induction s as [|c s IH]; intros b; [done|]. cbn. intros [-> Hs]. by rewrite IH. }
  assert (∀ b s, spaced b s → s ≠ [] → ∃ t c, s = t ++ [c] ∧ isspace c = false) as Hl.
  { clear. intros b s. revert b. induction s as [|c s IH]; intros b Hs Hne; [done|]. destruct Hs as [_ Hs].
    destruct s as [|d s]; [by exists [], c|]. destruct (IH _ Hs) as (t & e & -> & He); [done|]. by exists (c :: t), e. }
  intros [->|Hs]; [done|]. unfold CompressWhitespace.
  assert (spaced false s) as Hs' by (destruct s as [|c s]; [done|]; destruct Hs as [_ Hs]; by split).
  rewrite (Hr _ _ Hs'). destruct s as [|c s]; [done|]. destruct Hs as [Hc Hs]. cbn in Hc. rewrite Hc.
  destruct (Hl _ _ Hs') as (t & d & -> & Hd); [done|]. by rewrite last_snoc, Hd.
Qed.

Corollary CompressWhitespace_idem s : CompressWhitespace (CompressWhitespace s) = CompressWhitespace s.
Proof. apply tight_compress, CompressWhitespace_spec. Qed.

(** ** Wrapping *)

Abbreviation breaks := ("-"%char :: " "%char :: ["009"%char]).

Lemma find_last_any_Some cs s pos : find_last_any cs s = Some pos → ∃ c, s !! pos = Some c ∧ c ∈ cs.
Proof.
  revert pos. induction s as [|x s IH]; intros pos; [done|]. cbn. destruct (find_last_any cs s) as [n|].
  - intros [= <-]. by apply IH.
  - case_bool_decide; [|done]. intros [= <-]. by exists x.
Qed.

(** A separator that is left out: nothing, or one of the characters lines end at *)
Definition left_out (sep : str) : Prop := sep = [] ∨ ∃ c, sep = [c] ∧ c ∈ breaks.

Lemma WordWrap_spec source len line rest : source ≠ [] → (0 < len)%nat → WordWrap source len = (line, rest) →
  (length line ≤ len)%nat ∧ (length rest < length source)%nat ∧ ∃ sep, left_out sep ∧ source = line ++ sep ++ rest.
Proof.
  intros Hs Hlen. unfold WordWrap, substr. rewrite drop_0.
  assert (0 < length source)%nat as H0 by (destruct source; [done|cbn; lia]).
  destruct (length source <? len)%nat eqn:E; [apply Nat.ltb_lt in E|apply Nat.ltb_ge in E].
  { intros [= <- <-]. split_and!; [lia|cbn; lia|]. exists []. split; [by left|]. by rewrite app_nil_r. }
  assert (length (take len source) = len) as Hp by (rewrite length_take; lia).
  destruct (find_last_any breaks (take len source)) as [pos|] eqn:Ef; intros [= <- <-].
  - apply find_last_any_Some in Ef as (c & Hc & Hin). pose proof (lookup_lt_Some _ _ _ Hc) as Hpos.
    rewrite length_drop, !length_take. split_and!; [lia|lia|]. exists [c]. split; [right; by exists c|].
    rewrite drop_0, take_take, Nat.min_l by lia. apply lookup_take_Some in Hc as [Hc _].
    rewrite <-(take_drop pos source) at 1. f_equal. rewrite (drop_S source c pos Hc). by rewrite Nat.add_1_r.
  - rewrite Hp, length_drop. split_and!; [lia|lia|]. exists []. split; [by left|]. symmetry. apply take_drop.
Qed.

(** A text of any length is wrapped into lines that fit, and they are the text but for
    the characters it was broken at. *)
Theorem wrap_loop_spec body len fuel : (0 < len)%nat → (length body ≤ fuel)%nat →
  ∃ lines seps, wrap_loop fuel body len = Some lines ∧ Forall (λ l, (length l ≤ len)%nat) lines ∧
    Forall left_out seps ∧ length seps = length lines ∧ body = concat (zip_with (++) lines seps).
Proof.
  intros Hlen. revert body. induction fuel as [|fuel IH]; intros body Hf.
  { destruct body; [|cbn in Hf; lia]. by exists [], []. }
  destruct body as [|b body]; [by exists [], []|]. cbn [wrap_loop].
  destruct (WordWrap (b :: body) len) as [line rest] eqn:E.
  destruct (WordWrap_spec (b :: body) len line rest) as (Hl & Hr & sep & Hsep & Eb); [done|done|done|].
  destruct (IH rest) as (lines & seps & Ew & Hls & Hseps & Hlen' & Er); [cbn in Hr, Hf; lia|].
  exists (line :: lines), (sep :: seps). rewrite Ew. split_and!; [done|by apply Forall_cons|by apply Forall_cons|cbn; lia|].
  rewrite Eb, Er. cbn. by rewrite <-app_assoc.
Qed.

(** A hyphen is lost where a line ends at it, and a text that fits exactly is broken. *)
Example wrap_loses_hyphen : wrap_loop 20 (lit "a well-known") 8 = Some [lit "a well"; lit "known"].
Proof. reflexivity. Qed.
Example wrap_breaks_what_fits : wrap_loop 20 (lit "ab cd") 5 = Some [lit "ab"; lit "cd"].
Proof. reflexivity. Qed.

(** ** Capitals change letters only, and only the first of a word. *)

Lemma TitleSimple_loop_spec b s i : TitleSimple_loop b s !! i =
  (λ c, if negb (isspace c) && match i with O => b | S j => bool_decide (isspace <$> s !! j = Some true) end then ascii_upper c else c) <$> s !! i.
Proof.
  revert b i. induction s as [|c s IH]; intros b i; [done|]. cbn [TitleSimple_loop].
  destruct (isspace c) eqn:Ec; cbn [negb]; destruct i as [|i]; cbn [lookup list_lookup]; rewrite ?Ec; try (by destruct b).
  - cbn. by rewrite Ec.
  - rewrite IH. destruct i as [|i]; [|done]. cbn. destruct (s !! 0%nat); [|done]. cbn. rewrite Ec. by destruct (isspace _).
  - cbn. rewrite Ec. by destruct b.
  - rewrite IH. destruct i as [|i]; [|done]. cbn. destruct (s !! 0%nat); [|done]. cbn. rewrite Ec. by destruct (isspace _).
Qed.
