(* ===== verification/Passwd.v ===== *)
(** * Password hashing helpers: util/util/passwd.cpp

    The hexadecimal encoding of salts and hashes.  [GenerateSalt] and
    [HashPassword] call OpenSSL and are parameters of User.v. *)

From stdpp Require Import prelude.
From S2P Require Import Prelude CxxString Numbers.
Local Open Scope Z_scope.

(** ** [HexEncode]: two upper case digits per byte *)

Definition hex_digit (n : Z) : ascii :=
  if n <? 10 then ascii_of_N (Z.to_N (48 + n)) else ascii_of_N (Z.to_N (55 + n)).

Definition HexEncode (s : str) : str :=
  concat (map (λ ch, [hex_digit (Z.shiftr (code ch) 4); hex_digit (Z.land (code ch) 15)]) s).

(** ** [HexDecode]: stream extraction of an unsigned from each pair *)

(** The value of a hexadecimal digit *)
Definition hex_value (c : ascii) : option Z :=
  let n := code c in
  if (48 <=? n) && (n <=? 57) then Some (n - 48)
  else if (65 <=? n) && (n <=? 70) then Some (n - 55)
  else if (97 <=? n) && (n <=? 102) then Some (n - 87)
  else None.

(** [is2 >> std::hex >> ch] on a stream of digits: the digits up to the first
    other character, 0 if there is none. *)
Fixpoint hex_digits (acc : Z) (s : str) : Z :=
  match s with
  | [] => acc
  | c :: s' => match hex_value c with Some d => hex_digits (16 * acc + d) s' | None => acc end
  end.

(** White space is skipped and a sign accepted; when the stream is all white
    space the extraction does not store to [ch], whose value is undefined. *)
Fixpoint hex_extract (s : str) : option Z :=
  match s with
  | [] => None
  | c :: s' =>
      if isspace c then hex_extract s'
      else if decide (c = "+"%char) then Some (hex_digits 0 s')
      else if decide (c = "-"%char) then Some (- hex_digits 0 s')
      else Some (hex_digits 0 s)
  end.

(** [char(ch)] keeps the low byte. *)
Definition char_of (n : Z) : ascii := ascii_of_N (Z.to_N (n mod 256)).

(** The reading loop takes two characters at a time and drops an odd last one. *)
Fixpoint HexDecode (s : str) : option str :=
  match s with
  | c :: d :: s' =>
      match hex_extract [c; d], HexDecode s' with
      | Some n, Some t => Some (char_of n :: t)
      | _, _ => None
      end
  | _ => Some []
  end.

(** ** Round trip *)

Lemma hex_pair (c : ascii) :
  hex_extract [hex_digit (Z.shiftr (code c) 4); hex_digit (Z.land (code c) 15)] = Some (code c) ∧
  char_of (code c) = c.
Proof. destruct c as [[] [] [] [] [] [] [] []]; split; reflexivity. Qed.

Lemma HexDecode_HexEncode s : HexDecode (HexEncode s) = Some s.
Proof.
  induction s as [|c s IH]; [done|]. unfold HexEncode. cbn [map concat app HexDecode].
  destruct (hex_pair c) as [-> E]. change (concat _) with (HexEncode s).
  by rewrite IH, E.
Qed.

Lemma HexEncode_inj s t : HexEncode s = HexEncode t → s = t.
Proof. intros E. apply (f_equal HexDecode) in E. rewrite !HexDecode_HexEncode in E. congruence. Qed.

