(* ===== verification/Transaction.v ===== *)
(** * Saving with rollback: util/util/scopeguard.hpp

    [acl::User] and [acl::Group] keep their data in a record and write it to
    the database field by field.  A mutator changes the record, saves, and
    relies on [util::Transaction] objects to put the old values back if the
    save throws.  This file has the state that involves, a small state and
    exception monad over it, and [util::Transaction]. *)

From stdpp Require Import prelude.
From S2P Require Import Prelude.

(** ** Fields of a record *)

Record field (D A : Type) := { get : D → A; set : A → D → D }.
Arguments get {D A} f d : rename.
Arguments set {D A} f v d : rename.

Class FieldOk {D A} (f : field D A) : Prop := {
  get_set v d : get f (set f v d) = v;
  set_get d : set f (get f d) d = d;
  set_set v w d : set f v (set f w d) = set f v d
}.

(** ** State *)

Inductive DBException : Type := DBError.

(** The record in memory, and the saves that returned, latest last: which save it
    was, and the record it was made from.  That a save returned does not mean that it
    was written: the connections of db/user/user.cpp keep the errors of the
    database to themselves (Connection.v), so that of [saved] some are in the
    database and others are not ([written] of Accounts.v). *)
Record store (S D : Type) := Store { data : D; saved : list (S * D) }.
Arguments Store {S D} data saved.
Arguments data {S D} s : rename.
Arguments saved {S D} s : rename.

Definition M (S D A : Type) : Type := store S D → result DBException A * store S D.

Section monad.
Context {S D : Type}.
Implicit Types st : store S D.

Definition ret {A} (a : A) : M S D A := λ st, (Ok a, st).

Definition bind {A B} (m : M S D A) (k : A → M S D B) : M S D B := λ st,
  match m st with
  | (Ok a, st') => k a st'
  | (Throw e, st') => (Throw e, st')
  end.

(** Reading and changing the record. *)
Definition gets {A} (f : D → A) : M S D A := λ st, (Ok (f (data st)), st).
Definition modify (f : D → D) : M S D unit := λ st, (Ok tt, Store (f (data st)) (saved st)).

(** A save returns or throws; which is the parameter [throws]. *)
Definition save (throws : S → D → bool) (s : S) : M S D unit := λ st,
  if throws s (data st) then (Throw DBError, st)
  else (Ok tt, Store (data st) (saved st ++ [(s, data st)])).

(** [Transaction(var)] over the rest of the block: the destructor swaps the
    old value back when an exception is in flight. *)
Definition transaction {A B} (f : field D A) (body : M S D B) : M S D B := λ st,
  let oldValue := get f (data st) in
  match body st with
  | (Ok b, st') => (Ok b, st')
  | (Throw e, st') => (Throw e, Store (set f oldValue (data st')) (saved st'))
  end.

(** [Transaction(var, newValue)] *)
Definition transaction_set {A B} (f : field D A) (newValue : A) (body : M S D B) : M S D B :=
  transaction f (bind (modify (set f newValue)) (λ _, body)).

End monad.

Declare Scope txn_scope.
Delimit Scope txn_scope with txn.
Notation "x '<-' m ';;' k" := (bind m (λ x, k)) (at level 100, m at next level, right associativity) : txn_scope.
Notation "m ';;;' k" := (bind m (λ _, k)) (at level 100, right associativity) : txn_scope.

(** ** Inverting successful and failing runs *)

Section runs.
Context {S D : Type}.
Implicit Types st : store S D.

Lemma bind_Ok {A B} (m : M S D A) (k : A → M S D B) st b st' :
  bind m k st = (Ok b, st') ↔ ∃ a st1, m st = (Ok a, st1) ∧ k a st1 = (Ok b, st').
Proof.
  unfold bind. destruct (m st) as [[a|e] st1].
  - split; [eauto|]. by intros (? & ? & [= <- <-] & ?).
  - split; [done|]. by intros (? & ? & [=] & ?).
Qed.

Lemma bind_Throw {A B} (m : M S D A) (k : A → M S D B) st e st' :
  bind m k st = (Throw e, st') ↔
  m st = (Throw e, st') ∨ ∃ a st1, m st = (Ok a, st1) ∧ k a st1 = (Throw e, st').
Proof.
  unfold bind. destruct (m st) as [[a|e'] st1].
  - split; [eauto|]. intros [[=]|(? & ? & [= <- <-] & ?)]; done.
  - split; [intros [= <- <-]; auto|]. intros [[= <- <-]|(? & ? & [=] & ?)]; done.
Qed.

Lemma transaction_Ok {A B} (f : field D A) (body : M S D B) st b st' :
  transaction f body st = (Ok b, st') ↔ body st = (Ok b, st').
Proof. unfold transaction. destruct (body st) as [[]]; split; congruence. Qed.

Lemma transaction_Throw {A B} (f : field D A) (body : M S D B) st e st' :
  transaction f body st = (Throw e, st') ↔
  ∃ st1, body st = (Throw e, st1) ∧
         st' = Store (set f (get f (data st)) (data st1)) (saved st1).
Proof.
  unfold transaction. destruct (body st) as [[b|e'] st1]; split.
  - done.
  - by intros (? & [=] & _).
  - intros [= <- <-]. eauto.
  - by intros (? & [= <- <-] & ->).
Qed.

Lemma save_Ok throws s st u st' :
  @save S D throws s st = (Ok u, st') →
  throws s (data st) = false ∧ st' = Store (data st) (saved st ++ [(s, data st)]).
Proof. unfold save. by destruct (throws s (data st)) eqn:E; intros [= <- <-]. Qed.

Lemma save_Throw throws s st e st' :
  @save S D throws s st = (Throw e, st') → throws s (data st) = true ∧ st' = st.
Proof. unfold save. by destruct (throws s (data st)) eqn:E; intros [= <- <-]. Qed.

Lemma modify_Ok (f : D → D) st u st' :
  modify f st = (Ok u, st') → st' = Store (f (data st)) (saved st).
Proof. by intros [= _ <-]. Qed.

Lemma gets_Ok {A} (f : D → A) st a st' : gets f st = (Ok a, st') → a = f (data st) ∧ st' = st.
Proof. by intros [= <- <-]. Qed.

Lemma modify_Throw (f : D → D) st e st' : modify f st ≠ (Throw e, st').
Proof. done. Qed.

Lemma gets_Throw {A} (f : D → A) st e st' : gets f st ≠ (Throw e, st').
Proof. done. Qed.

Lemma ret_Ok {A} (a b : A) st st' : ret a st = (Ok b, st') → b = a ∧ st' = st.
Proof. by intros [= <- <-]. Qed.

End runs.

(** [inv_run] takes a successful run apart, one primitive at a time. *)
Ltac inv_run :=
  repeat match goal with
  | H : transaction_set _ _ _ _ = (Ok _, _) |- _ => unfold transaction_set in H
  | H : transaction _ _ _ = (Ok _, _) |- _ => apply transaction_Ok in H
  | H : bind _ _ _ = (Ok _, _) |- _ =>
      let a := fresh "a" in let st := fresh "st" in let H' := fresh "Hrun" in
      apply bind_Ok in H as (a & st & H' & H)
  | H : gets _ _ = (Ok _, _) |- _ => apply gets_Ok in H as [-> ->]
  | H : modify _ _ = (Ok _, _) |- _ => apply modify_Ok in H as ->
  | H : ret _ _ = (Ok _, _) |- _ => apply ret_Ok in H as [? ->]
  | H : save _ _ _ = (Ok _, _) |- _ => apply save_Ok in H as [? ->]
  end.

(** [inv_throw] does the same for a run that throws, splitting on the place
    that does. *)
Ltac inv_throw :=
  repeat match goal with
  | H : transaction_set _ _ _ _ = (Throw _, _) |- _ => unfold transaction_set in H
  | H : transaction _ _ _ = (Throw _, _) |- _ =>
      let st := fresh "st" in apply transaction_Throw in H as (st & H & ->)
  | H : bind _ _ _ = (Throw _, _) |- _ =>
      let a := fresh "a" in let st := fresh "st" in let H' := fresh "Hrun" in
      apply bind_Throw in H as [H|(a & st & H' & H)]
  | H : modify _ _ = (Throw _, _) |- _ => by apply modify_Throw in H
  | H : gets _ _ = (Throw _, _) |- _ => by apply gets_Throw in H
  | H : ret _ _ = (Throw _, _) |- _ => discriminate H
  | H : save _ _ _ = (Throw _, _) |- _ => apply save_Throw in H as [? ->]
  end.
