(* ===== verification/UserData.v ===== *)
(** * The user record: acl/userdata.hpp

    [UserData] with its defaults, and one [field] per member for the
    transactions of Transaction.v.  An unordered map is a [gmap], the set of
    gadmin groups a [gset]; dates and times are day and microsecond counts. *)

From stdpp Require Import prelude gmap strings.
From S2P Require Import Prelude Transaction.

Record UserData := MkUserData {
  id : Z;
  name : str;
  ipMasks : list str;
  password : str;
  salt : str;
  flags : str;
  primaryGid : Z;
  secondaryGids : list Z;
  gadminGids : gset Z;
  creator : Z;
  created : Z;
  weeklyAllotment : gmap str Z;
  homeDir : str;
  startUpDir : str;
  idleTime : Z;
  expires : option Z;
  numLogins : Z;
  comment : str;
  tagline : str;
  maxDownSpeed : Z;
  maxUpSpeed : Z;
  maxSimDown : Z;
  maxSimUp : Z;
  loggedIn : Z;
  lastLogin : option Z;
  ratio : gmap str Z;
  credits : gmap str Z
}.

(** [UserData()]; [today] is the local date. *)
Definition default_UserData (today : Z) : UserData := {|
  id := -1;
  name := [];
  ipMasks := [];
  password := [];
  salt := [];
  flags := [];
  primaryGid := -1;
  secondaryGids := [];
  gadminGids := ∅;
  creator := -1;
  created := today;
  weeklyAllotment := ∅;
  homeDir := lit "/";
  startUpDir := lit "/";
  idleTime := -1;
  expires := None;
  numLogins := 1;
  comment := [];
  tagline := [];
  maxDownSpeed := 0;
  maxUpSpeed := 0;
  maxSimDown := -1;
  maxSimUp := -1;
  loggedIn := 0;
  lastLogin := None;
  ratio := {[ [] := 3 ]};
  credits := ∅
|}%Z.

Definition f_id : field UserData (Z) := {|
  get := id;
  set v u := let 'MkUserData _ a1 a2 a3 a4 a5 a6 a7 a8 a9 a10 a11 a12 a13 a14 a15 a16 a17 a18 a19 a20 a21 a22 a23 a24 a25 a26 := u in
    MkUserData v a1 a2 a3 a4 a5 a6 a7 a8 a9 a10 a11 a12 a13 a14 a15 a16 a17 a18 a19 a20 a21 a22 a23 a24 a25 a26 |}.
Definition f_name : field UserData (str) := {|
  get := name;
  set v u := let 'MkUserData a0 _ a2 a3 a4 a5 a6 a7 a8 a9 a10 a11 a12 a13 a14 a15 a16 a17 a18 a19 a20 a21 a22 a23 a24 a25 a26 := u in
    MkUserData a0 v a2 a3 a4 a5 a6 a7 a8 a9 a10 a11 a12 a13 a14 a15 a16 a17 a18 a19 a20 a21 a22 a23 a24 a25 a26 |}.
Definition f_ipMasks : field UserData (list str) := {|
  get := ipMasks;
  set v u := let 'MkUserData a0 a1 _ a3 a4 a5 a6 a7 a8 a9 a10 a11 a12 a13 a14 a15 a16 a17 a18 a19 a20 a21 a22 a23 a24 a25 a26 := u in
    MkUserData a0 a1 v a3 a4 a5 a6 a7 a8 a9 a10 a11 a12 a13 a14 a15 a16 a17 a18 a19 a20 a21 a22 a23 a24 a25 a26 |}.
Definition f_password : field UserData (str) := {|
  get := password;
  set v u := let 'MkUserData a0 a1 a2 _ a4 a5 a6 a7 a8 a9 a10 a11 a12 a13 a14 a15 a16 a17 a18 a19 a20 a21 a22 a23 a24 a25 a26 := u in
    MkUserData a0 a1 a2 v a4 a5 a6 a7 a8 a9 a10 a11 a12 a13 a14 a15 a16 a17 a18 a19 a20 a21 a22 a23 a24 a25 a26 |}.
Definition f_salt : field UserData (str) := {|
  get := salt;
  set v u := let 'MkUserData a0 a1 a2 a3 _ a5 a6 a7 a8 a9 a10 a11 a12 a13 a14 a15 a16 a17 a18 a19 a20 a21 a22 a23 a24 a25 a26 := u in
    MkUserData a0 a1 a2 a3 v a5 a6 a7 a8 a9 a10 a11 a12 a13 a14 a15 a16 a17 a18 a19 a20 a21 a22 a23 a24 a25 a26 |}.
Definition f_flags : field UserData (str) := {|
  get := flags;
  set v u := let 'MkUserData a0 a1 a2 a3 a4 _ a6 a7 a8 a9 a10 a11 a12 a13 a14 a15 a16 a17 a18 a19 a20 a21 a22 a23 a24 a25 a26 := u in
    MkUserData a0 a1 a2 a3 a4 v a6 a7 a8 a9 a10 a11 a12 a13 a14 a15 a16 a17 a18 a19 a20 a21 a22 a23 a24 a25 a26 |}.
Definition f_primaryGid : field UserData (Z) := {|
  get := primaryGid;
  set v u := let 'MkUserData a0 a1 a2 a3 a4 a5 _ a7 a8 a9 a10 a11 a12 a13 a14 a15 a16 a17 a18 a19 a20 a21 a22 a23 a24 a25 a26 := u in
    MkUserData a0 a1 a2 a3 a4 a5 v a7 a8 a9 a10 a11 a12 a13 a14 a15 a16 a17 a18 a19 a20 a21 a22 a23 a24 a25 a26 |}.
Definition f_secondaryGids : field UserData (list Z) := {|
  get := secondaryGids;
  set v u := let 'MkUserData a0 a1 a2 a3 a4 a5 a6 _ a8 a9 a10 a11 a12 a13 a14 a15 a16 a17 a18 a19 a20 a21 a22 a23 a24 a25 a26 := u in
    MkUserData a0 a1 a2 a3 a4 a5 a6 v a8 a9 a10 a11 a12 a13 a14 a15 a16 a17 a18 a19 a20 a21 a22 a23 a24 a25 a26 |}.
Definition f_gadminGids : field UserData (gset Z) := {|
  get := gadminGids;
  set v u := let 'MkUserData a0 a1 a2 a3 a4 a5 a6 a7 _ a9 a10 a11 a12 a13 a14 a15 a16 a17 a18 a19 a20 a21 a22 a23 a24 a25 a26 := u in
    MkUserData a0 a1 a2 a3 a4 a5 a6 a7 v a9 a10 a11 a12 a13 a14 a15 a16 a17 a18 a19 a20 a21 a22 a23 a24 a25 a26 |}.
Definition f_creator : field UserData (Z) := {|
  get := creator;
  set v u := let 'MkUserData a0 a1 a2 a3 a4 a5 a6 a7 a8 _ a10 a11 a12 a13 a14 a15 a16 a17 a18 a19 a20 a21 a22 a23 a24 a25 a26 := u in
    MkUserData a0 a1 a2 a3 a4 a5 a6 a7 a8 v a10 a11 a12 a13 a14 a15 a16 a17 a18 a19 a20 a21 a22 a23 a24 a25 a26 |}.
Definition f_weeklyAllotment : field UserData (gmap str Z) := {|
  get := weeklyAllotment;
  set v u := let 'MkUserData a0 a1 a2 a3 a4 a5 a6 a7 a8 a9 a10 _ a12 a13 a14 a15 a16 a17 a18 a19 a20 a21 a22 a23 a24 a25 a26 := u in
    MkUserData a0 a1 a2 a3 a4 a5 a6 a7 a8 a9 a10 v a12 a13 a14 a15 a16 a17 a18 a19 a20 a21 a22 a23 a24 a25 a26 |}.
Definition f_homeDir : field UserData (str) := {|
  get := homeDir;
  set v u := let 'MkUserData a0 a1 a2 a3 a4 a5 a6 a7 a8 a9 a10 a11 _ a13 a14 a15 a16 a17 a18 a19 a20 a21 a22 a23 a24 a25 a26 := u in
    MkUserData a0 a1 a2 a3 a4 a5 a6 a7 a8 a9 a10 a11 v a13 a14 a15 a16 a17 a18 a19 a20 a21 a22 a23 a24 a25 a26 |}.
Definition f_startUpDir : field UserData (str) := {|
  get := startUpDir;
  set v u := let 'MkUserData a0 a1 a2 a3 a4 a5 a6 a7 a8 a9 a10 a11 a12 _ a14 a15 a16 a17 a18 a19 a20 a21 a22 a23 a24 a25 a26 := u in
    MkUserData a0 a1 a2 a3 a4 a5 a6 a7 a8 a9 a10 a11 a12 v a14 a15 a16 a17 a18 a19 a20 a21 a22 a23 a24 a25 a26 |}.
Definition f_idleTime : field UserData (Z) := {|
  get := idleTime;
  set v u := let 'MkUserData a0 a1 a2 a3 a4 a5 a6 a7 a8 a9 a10 a11 a12 a13 _ a15 a16 a17 a18 a19 a20 a21 a22 a23 a24 a25 a26 := u in
    MkUserData a0 a1 a2 a3 a4 a5 a6 a7 a8 a9 a10 a11 a12 a13 v a15 a16 a17 a18 a19 a20 a21 a22 a23 a24 a25 a26 |}.
Definition f_expires : field UserData (option Z) := {|
  get := expires;
  set v u := let 'MkUserData a0 a1 a2 a3 a4 a5 a6 a7 a8 a9 a10 a11 a12 a13 a14 _ a16 a17 a18 a19 a20 a21 a22 a23 a24 a25 a26 := u in
    MkUserData a0 a1 a2 a3 a4 a5 a6 a7 a8 a9 a10 a11 a12 a13 a14 v a16 a17 a18 a19 a20 a21 a22 a23 a24 a25 a26 |}.
Definition f_numLogins : field UserData (Z) := {|
  get := numLogins;
  set v u := let 'MkUserData a0 a1 a2 a3 a4 a5 a6 a7 a8 a9 a10 a11 a12 a13 a14 a15 _ a17 a18 a19 a20 a21 a22 a23 a24 a25 a26 := u in
    MkUserData a0 a1 a2 a3 a4 a5 a6 a7 a8 a9 a10 a11 a12 a13 a14 a15 v a17 a18 a19 a20 a21 a22 a23 a24 a25 a26 |}.
Definition f_comment : field UserData (str) := {|
  get := comment;
  set v u := let 'MkUserData a0 a1 a2 a3 a4 a5 a6 a7 a8 a9 a10 a11 a12 a13 a14 a15 a16 _ a18 a19 a20 a21 a22 a23 a24 a25 a26 := u in
    MkUserData a0 a1 a2 a3 a4 a5 a6 a7 a8 a9 a10 a11 a12 a13 a14 a15 a16 v a18 a19 a20 a21 a22 a23 a24 a25 a26 |}.
Definition f_tagline : field UserData (str) := {|
  get := tagline;
  set v u := let 'MkUserData a0 a1 a2 a3 a4 a5 a6 a7 a8 a9 a10 a11 a12 a13 a14 a15 a16 a17 _ a19 a20 a21 a22 a23 a24 a25 a26 := u in
    MkUserData a0 a1 a2 a3 a4 a5 a6 a7 a8 a9 a10 a11 a12 a13 a14 a15 a16 a17 v a19 a20 a21 a22 a23 a24 a25 a26 |}.
Definition f_maxDownSpeed : field UserData (Z) := {|
  get := maxDownSpeed;
  set v u := let 'MkUserData a0 a1 a2 a3 a4 a5 a6 a7 a8 a9 a10 a11 a12 a13 a14 a15 a16 a17 a18 _ a20 a21 a22 a23 a24 a25 a26 := u in
    MkUserData a0 a1 a2 a3 a4 a5 a6 a7 a8 a9 a10 a11 a12 a13 a14 a15 a16 a17 a18 v a20 a21 a22 a23 a24 a25 a26 |}.
Definition f_maxUpSpeed : field UserData (Z) := {|
  get := maxUpSpeed;
  set v u := let 'MkUserData a0 a1 a2 a3 a4 a5 a6 a7 a8 a9 a10 a11 a12 a13 a14 a15 a16 a17 a18 a19 _ a21 a22 a23 a24 a25 a26 := u in
    MkUserData a0 a1 a2 a3 a4 a5 a6 a7 a8 a9 a10 a11 a12 a13 a14 a15 a16 a17 a18 a19 v a21 a22 a23 a24 a25 a26 |}.
Definition f_maxSimDown : field UserData (Z) := {|
  get := maxSimDown;
  set v u := let 'MkUserData a0 a1 a2 a3 a4 a5 a6 a7 a8 a9 a10 a11 a12 a13 a14 a15 a16 a17 a18 a19 a20 _ a22 a23 a24 a25 a26 := u in
    MkUserData a0 a1 a2 a3 a4 a5 a6 a7 a8 a9 a10 a11 a12 a13 a14 a15 a16 a17 a18 a19 a20 v a22 a23 a24 a25 a26 |}.
Definition f_maxSimUp : field UserData (Z) := {|
  get := maxSimUp;
  set v u := let 'MkUserData a0 a1 a2 a3 a4 a5 a6 a7 a8 a9 a10 a11 a12 a13 a14 a15 a16 a17 a18 a19 a20 a21 _ a23 a24 a25 a26 := u in
    MkUserData a0 a1 a2 a3 a4 a5 a6 a7 a8 a9 a10 a11 a12 a13 a14 a15 a16 a17 a18 a19 a20 a21 v a23 a24 a25 a26 |}.
Definition f_loggedIn : field UserData (Z) := {|
  get := loggedIn;
  set v u := let 'MkUserData a0 a1 a2 a3 a4 a5 a6 a7 a8 a9 a10 a11 a12 a13 a14 a15 a16 a17 a18 a19 a20 a21 a22 _ a24 a25 a26 := u in
    MkUserData a0 a1 a2 a3 a4 a5 a6 a7 a8 a9 a10 a11 a12 a13 a14 a15 a16 a17 a18 a19 a20 a21 a22 v a24 a25 a26 |}.
Definition f_lastLogin : field UserData (option Z) := {|
  get := lastLogin;
  set v u := let 'MkUserData a0 a1 a2 a3 a4 a5 a6 a7 a8 a9 a10 a11 a12 a13 a14 a15 a16 a17 a18 a19 a20 a21 a22 a23 _ a25 a26 := u in
    MkUserData a0 a1 a2 a3 a4 a5 a6 a7 a8 a9 a10 a11 a12 a13 a14 a15 a16 a17 a18 a19 a20 a21 a22 a23 v a25 a26 |}.
Definition f_ratio : field UserData (gmap str Z) := {|
  get := ratio;
  set v u := let 'MkUserData a0 a1 a2 a3 a4 a5 a6 a7 a8 a9 a10 a11 a12 a13 a14 a15 a16 a17 a18 a19 a20 a21 a22 a23 a24 _ a26 := u in
    MkUserData a0 a1 a2 a3 a4 a5 a6 a7 a8 a9 a10 a11 a12 a13 a14 a15 a16 a17 a18 a19 a20 a21 a22 a23 a24 v a26 |}.
Definition f_credits : field UserData (gmap str Z) := {|
  get := credits;
  set v u := let 'MkUserData a0 a1 a2 a3 a4 a5 a6 a7 a8 a9 a10 a11 a12 a13 a14 a15 a16 a17 a18 a19 a20 a21 a22 a23 a24 a25 _ := u in
    MkUserData a0 a1 a2 a3 a4 a5 a6 a7 a8 a9 a10 a11 a12 a13 a14 a15 a16 a17 a18 a19 a20 a21 a22 a23 a24 a25 v |}.

#[export] Instance UserData_inhabited : Inhabited UserData := populate (default_UserData 0).

Ltac solve_field := split; intros; repeat match goal with d : UserData |- _ => destruct d end; reflexivity.

#[export] Instance f_id_ok : FieldOk f_id.
Proof. solve_field. Qed.
#[export] Instance f_name_ok : FieldOk f_name.
Proof. solve_field. Qed.
#[export] Instance f_ipMasks_ok : FieldOk f_ipMasks.
Proof. solve_field. Qed.
#[export] Instance f_password_ok : FieldOk f_password.
Proof. solve_field. Qed.
#[export] Instance f_salt_ok : FieldOk f_salt.
Proof. solve_field. Qed.
#[export] Instance f_flags_ok : FieldOk f_flags.
Proof. solve_field. Qed.
#[export] Instance f_primaryGid_ok : FieldOk f_primaryGid.
Proof. solve_field. Qed.
#[export] Instance f_secondaryGids_ok : FieldOk f_secondaryGids.
Proof. solve_field. Qed.
#[export] Instance f_gadminGids_ok : FieldOk f_gadminGids.
Proof. solve_field. Qed.
#[export] Instance f_creator_ok : FieldOk f_creator.
Proof. solve_field. Qed.
#[export] Instance f_weeklyAllotment_ok : FieldOk f_weeklyAllotment.
Proof. solve_field. Qed.
#[export] Instance f_homeDir_ok : FieldOk f_homeDir.
Proof. solve_field. Qed.
#[export] Instance f_startUpDir_ok : FieldOk f_startUpDir.
Proof. solve_field. Qed.
#[export] Instance f_idleTime_ok : FieldOk f_idleTime.
Proof. solve_field. Qed.
#[export] Instance f_expires_ok : FieldOk f_expires.
Proof. solve_field. Qed.
#[export] Instance f_numLogins_ok : FieldOk f_numLogins.
Proof. solve_field. Qed.
#[export] Instance f_comment_ok : FieldOk f_comment.
Proof. solve_field. Qed.
#[export] Instance f_tagline_ok : FieldOk f_tagline.
Proof. solve_field. Qed.
#[export] Instance f_maxDownSpeed_ok : FieldOk f_maxDownSpeed.
Proof. solve_field. Qed.
#[export] Instance f_maxUpSpeed_ok : FieldOk f_maxUpSpeed.
Proof. solve_field. Qed.
#[export] Instance f_maxSimDown_ok : FieldOk f_maxSimDown.
Proof. solve_field. Qed.
#[export] Instance f_maxSimUp_ok : FieldOk f_maxSimUp.
Proof. solve_field. Qed.
#[export] Instance f_loggedIn_ok : FieldOk f_loggedIn.
Proof. solve_field. Qed.
#[export] Instance f_lastLogin_ok : FieldOk f_lastLogin.
Proof. solve_field. Qed.
#[export] Instance f_ratio_ok : FieldOk f_ratio.
Proof. solve_field. Qed.
#[export] Instance f_credits_ok : FieldOk f_credits.
Proof. solve_field. Qed.
