(* ===== verification/User.v ===== *)
(** * Users: acl/user.cpp

    Every operation of [acl::User] that changes the user, over the state of
    Transaction.v: the record in memory and the saves that returned.
    The database is the parameter [throws] (which saves raise an exception: none
    does because the database refuses it, see Accounts.v) and, for the save that reports failure by its result, [save_name];
    fnmatch(3), the salt generator and PBKDF2 are parameters as well. *)

From stdpp Require Import prelude gmap sorting strings.
From S2P Require Import Prelude CxxString Acl Passwd Transaction UserData.
Local Open Scope txn_scope.
Local Open Scope Z_scope.

(** The save operations of [db::User] *)
Inductive Save : Type :=
  | SaveName | SaveIPMasks | SavePassword | SaveFlags | SaveGIDs | SaveGadminGIDs
  | SaveWeeklyAllotment | SaveHomeDir | SaveStartUpDir | SaveIdleTime | SaveExpires
  | SaveNumLogins | SaveComment | SaveTagline | SaveMaxDownSpeed | SaveMaxUpSpeed
  | SaveMaxSimDown | SaveMaxSimUp | SaveLoggedIn | SaveRatio.

(** [std::find(v.begin(), v.end(), x) != v.end()] *)
Definition contains {A} `{EqDecision A} (x : A) (v : list A) : bool := bool_decide (x ∈ v).

(** [v.erase(std::find(v.begin(), v.end(), x))], when it is found *)
Fixpoint erase_first {A} `{EqDecision A} (x : A) (v : list A) : list A :=
  match v with
  | [] => []
  | y :: v' => if decide (y = x) then v' else y :: erase_first x v'
  end.

(** The loop of [std::copy_if] over [gids] into the back of [secondary],
    which the predicate itself consults. *)
Fixpoint copy_new (primary : Z) (secondary gids : list Z) : list Z :=
  match gids with
  | [] => secondary
  | gid :: gids' =>
      copy_new primary
        (if negb (contains gid secondary) && bool_decide (gid ≠ primary)
         then secondary ++ [gid] else secondary) gids'
  end.

(** [std::sort] on chars, which are signed. *)
Definition schar (c : ascii) : Z := if (code c <? 128)%Z then code c else code c - 256.
Definition schar_le (c d : ascii) : Prop := schar c ≤ schar d.
#[export] Instance schar_le_dec c d : Decision (schar_le c d).
Proof. unfold schar_le. apply _. Defined.
Definition sort_chars (s : str) : str := merge_sort schar_le s.

(** ** Reading a user *)

Section accessors.
Context (user : UserData).

(** [User::HasFlags(const std::string&)] *)
Definition HasFlags (fl : str) : bool := existsb (λ ch, has_char ch (flags user)) fl.

Definition HasFlag (flag : Flag) : bool := has_char (flag_char flag) (flags user).

Definition HasSecondaryGID (gid : Z) : bool := contains gid (secondaryGids user).

Definition HasGID (gid : Z) : bool :=
  bool_decide (primaryGid user = gid) || HasSecondaryGID gid.

Definition HasGadminGID (gid : Z) : bool := bool_decide (gid ∈ gadminGids user).

Definition SectionWeeklyAllotment (section : str) : Z :=
  default 0 (weeklyAllotment user !! section).

Definition SectionRatio (section : str) : Z := default (-1) (ratio user !! section).

Definition SectionCredits (section : str) : Z := default 0 (credits user !! section).

(** [today] is the local day. *)
Definition Expired (today : Z) : bool :=
  match expires user with None => false | Some d => d <=? today end.

(** [GIDToName] is a lookup in the group cache. *)
Definition User_ACLInfo (GIDToName : Z → str) : ACLInfo :=
  {| username := name user; groupname := GIDToName (primaryGid user); Acl.flags := flags user |}.

End accessors.

(** ** Changing a user *)

Section operations.
Context (throws : Save → UserData → bool).
Abbreviation UM := (M Save UserData).
Local Abbreviation save s := (save throws s).

(** [save_name] says whether the database took the new name. *)
Definition Rename (save_name : UserData → bool) (newName : str) : UM bool :=
  oldName <- gets name;;
  modify (set f_name newName);;;
  ok <- gets save_name;;
  if ok : bool then ret true
  else modify (set f_name oldName);;; ret false.

(** The result and what [deleted] collects. *)
Definition AddIPMask `{Fnmatch} (ipMask : str) : UM (bool * list str) :=
  masks <- gets ipMasks;;
  if existsb (λ mask, WildcardMatch mask ipMask true) masks then ret (false, [])
  else
    modify (set f_ipMasks
      (filter (λ mask, WildcardMatch ipMask mask true = false) masks ++ [ipMask]));;;
    save SaveIPMasks;;;
    ret (true, filter (λ mask, WildcardMatch ipMask mask true = true) masks).

(** [DelIPMask(const std::string&)] *)
Definition DelIPMask (ipMask : str) : UM unit :=
  masks <- gets ipMasks;;
  if contains ipMask masks
  then modify (set f_ipMasks (erase_first ipMask masks));;; save SaveIPMasks
  else ret tt.

(** [DelIPMask(size_t)]: an index out of range is undefined behaviour once
    [verify] is compiled out, and has no result here. *)
Definition DelIPMask_index (index : nat) : UM (option str) :=
  masks <- gets ipMasks;;
  match masks !! index with
  | None => ret None
  | Some mask =>
      modify (set f_ipMasks (delete index masks));;;
      save SaveIPMasks;;; ret (Some mask)
  end.

Definition ClearIPMasks : UM unit :=
  modify (set f_ipMasks []);;; save SaveIPMasks.

(** Hashing: [HashPassword] is PBKDF2, [rawSalt] what [GenerateSalt] returns. *)
Definition VerifyPassword (HashPassword : str → str → str) (u : UserData) (pw : str)
    : option bool :=
  match HexDecode (salt u) with
  | Some rawSalt => Some (bool_decide (HexEncode (HashPassword pw rawSalt) = password u))
  | None => None
  end.

Definition SetPasswordNoSave (HashPassword : str → str → str) (rawSalt pw : str) : UM unit :=
  modify (set f_password (HexEncode (HashPassword pw rawSalt)));;;
  modify (set f_salt (HexEncode rawSalt)).

(** The transaction covers the password and not the salt. *)
Definition SetPassword (HashPassword : str → str → str) (rawSalt pw : str) : UM unit :=
  transaction f_password
    (SetPasswordNoSave HashPassword rawSalt pw;;; save SavePassword).

Definition SetFlags (fl : str) : UM unit := transaction_set f_flags fl (save SaveFlags).

(** [if (data->flags.find(ch) == npos) data->flags += ch] for each [ch] *)
Definition add_chars (fl cur : str) : str :=
  foldl (λ cur ch, if has_char ch cur then cur else cur ++ [ch]) cur fl.

Definition AddFlags (fl : str) : UM unit :=
  transaction f_flags
    (cur <- gets flags;;
     modify (set f_flags (sort_chars (add_chars fl cur)));;;
     save SaveFlags).

Definition AddFlag (flag : Flag) : UM unit := AddFlags [flag_char flag].

(** [data->flags.erase(data->flags.find(ch), 1)] for each [ch] found *)
Definition del_chars (fl cur : str) : str := foldl (λ cur ch, erase_first ch cur) cur fl.

Definition DelFlags (fl : str) : UM unit :=
  transaction f_flags
    (cur <- gets flags;; modify (set f_flags (del_chars fl cur));;; save SaveFlags).

Definition DelFlag (flag : Flag) : UM unit := DelFlags [flag_char flag].

Definition SetPrimaryGID (gid : Z) : UM unit :=
  primary <- gets primaryGid;;
  if decide (primary = gid) then ret tt
  else
    transaction f_primaryGid (transaction f_secondaryGids
      (secondary <- gets secondaryGids;;
       modify (set f_secondaryGids
         (erase_first gid (if decide (primary ≠ -1) then primary :: secondary else secondary)));;;
       modify (set f_primaryGid gid);;;
       save SaveGIDs)).

Definition AddGIDs (gids : list Z) : UM unit :=
  match gids with
  | [] => ret tt
  | front :: rest =>
      transaction f_primaryGid (transaction f_secondaryGids
        (primary <- gets primaryGid;;
         secondary <- gets secondaryGids;;
         let '(primary', gids') :=
           if decide (primary = -1) then (front, rest) else (primary, gids) in
         modify (set f_primaryGid primary');;;
         modify (set f_secondaryGids (copy_new primary' secondary gids'));;;
         save SaveGIDs))
  end.

(** [CleanGadminGIDs]: only groups the user still has. *)
Definition CleanGadminGIDs : UM unit :=
  modify (λ u, set f_gadminGids
    (filter (λ gid, gid = primaryGid u ∨ gid ∈ secondaryGids u) (gadminGids u)) u).

Definition gid_transaction (body : UM unit) : UM unit :=
  transaction f_primaryGid (transaction f_secondaryGids (transaction f_gadminGids body)).

Definition DelGIDs (gids : list Z) : UM unit :=
  gid_transaction
    (primary <- gets primaryGid;;
     secondary <- gets secondaryGids;;
     let secondary := filter (.∉ gids) secondary in
     (if contains primary gids
      then match secondary with
           | [] => modify (set f_secondaryGids []);;; modify (set f_primaryGid (-1))
           | front :: rest =>
               modify (set f_primaryGid front);;; modify (set f_secondaryGids rest)
           end
      else modify (set f_secondaryGids secondary));;;
     CleanGadminGIDs;;;
     save SaveGIDs).

(** [primaryGid] and [secondaryGids] from a list, as [SetGIDs] and
    [ToggleGIDs] assign them. *)
Definition assign_gids (gids : list Z) : UM unit :=
  match gids with
  | [] => modify (set f_primaryGid (-1));;; modify (set f_secondaryGids [])
  | front :: rest => modify (set f_primaryGid front);;; modify (set f_secondaryGids rest)
  end.

Definition SetGIDs (gids : list Z) : UM unit :=
  gid_transaction (assign_gids gids;;; CleanGadminGIDs;;; save SaveGIDs).

Definition ToggleGIDs (gids : list Z) : UM unit :=
  gid_transaction
    (primary <- gets primaryGid;;
     secondary <- gets secondaryGids;;
     let own := if decide (primary ≠ -1) then primary :: secondary else secondary in
     assign_gids (filter (.∉ gids) own ++ filter (.∉ own) gids);;;
     CleanGadminGIDs;;;
     save SaveGIDs).

Definition AddGadminGID (gid : Z) : UM unit :=
  transaction f_gadminGids
    (gadmin <- gets gadminGids;;
     modify (set f_gadminGids ({[gid]} ∪ gadmin));;;
     save SaveGadminGIDs;;;
     has <- gets (λ u, HasFlag u Gadmin);;
     if has : bool then ret tt else AddFlag Gadmin).

Definition DelGadminGID (gid : Z) : UM unit :=
  transaction f_gadminGids
    (gadmin <- gets gadminGids;;
     modify (set f_gadminGids (gadmin ∖ {[gid]}));;;
     save SaveGadminGIDs;;;
     gadmin <- gets gadminGids;;
     if decide (gadmin = ∅) then DelFlag Gadmin else ret tt).

Definition ToggleGadminGID (gid : Z) : UM bool :=
  has <- gets (λ u, HasGadminGID u gid);;
  if has : bool then DelGadminGID gid;;; ret false
  else AddGadminGID gid;;; ret true.

Definition SetSectionWeeklyAllotment (section : str) (allotment : Z) : UM unit :=
  transaction f_weeklyAllotment
    (m <- gets weeklyAllotment;;
     modify (set f_weeklyAllotment (<[section := allotment]> m));;; save SaveWeeklyAllotment).

Definition SetHomeDir v := transaction_set f_homeDir v (save SaveHomeDir).
Definition SetStartUpDir v := transaction_set f_startUpDir v (save SaveStartUpDir).
Definition SetIdleTime v := transaction_set f_idleTime v (save SaveIdleTime).
Definition SetExpires v := transaction_set f_expires v (save SaveExpires).
Definition SetNumLogins v := transaction_set f_numLogins v (save SaveNumLogins).
Definition SetComment v := transaction_set f_comment v (save SaveComment).
Definition SetTagline v := transaction_set f_tagline v (save SaveTagline).
Definition SetMaxDownSpeed v := transaction_set f_maxDownSpeed v (save SaveMaxDownSpeed).
Definition SetMaxUpSpeed v := transaction_set f_maxUpSpeed v (save SaveMaxUpSpeed).
Definition SetMaxSimDown v := transaction_set f_maxSimDown v (save SaveMaxSimDown).
Definition SetMaxSimUp v := transaction_set f_maxSimUp v (save SaveMaxSimUp).

(** [now] is the local time. *)
Definition SetLoggedIn (now : Z) : UM unit :=
  n <- gets loggedIn;;
  transaction_set f_loggedIn (n + 1)
    (transaction_set f_lastLogin (Some now) (save SaveLoggedIn)).

Definition SetSectionRatio (section : str) (r : Z) : UM unit :=
  transaction f_ratio
    (m <- gets ratio;; modify (set f_ratio (<[section := r]> m));;; save SaveRatio).

End operations.

(** ** Specification of the group operations

    A user's groups are one ordered list without repetition, the primary group
    first; the pair of fields represents it, with -1 for "none". *)

Definition own (u : UserData) : list Z :=
  if decide (primaryGid u ≠ -1) then primaryGid u :: secondaryGids u else secondaryGids u.

Record gids_wf (u : UserData) : Prop := {
  wf_nodup : NoDup (own u);
  wf_none : -1 ∉ own u;
  wf_primary : primaryGid u = -1 → secondaryGids u = [];
  wf_gadmin gid : gid ∈ gadminGids u → gid ∈ own u
}.

Inductive GidOp : Type :=
  | OpSetPrimaryGID (gid : Z)
  | OpAddGIDs (gids : list Z)
  | OpDelGIDs (gids : list Z)
  | OpSetGIDs (gids : list Z)
  | OpToggleGIDs (gids : list Z)
  | OpAddGadminGID (gid : Z)
  | OpDelGadminGID (gid : Z).

Definition run_gid_op (throws : Save → UserData → bool) (op : GidOp) : M Save UserData unit :=
  match op with
  | OpSetPrimaryGID gid => SetPrimaryGID throws gid
  | OpAddGIDs gids => AddGIDs throws gids
  | OpDelGIDs gids => DelGIDs throws gids
  | OpSetGIDs gids => SetGIDs throws gids
  | OpToggleGIDs gids => ToggleGIDs throws gids
  | OpAddGadminGID gid => AddGadminGID throws gid
  | OpDelGadminGID gid => DelGadminGID throws gid
  end.

(** What the callers see to: names have been looked up, so no gid is -1;
    a gadmin is a member. *)
Definition gid_op_ok (u : UserData) (op : GidOp) : Prop :=
  match op with
  | OpSetPrimaryGID gid => gid ≠ -1
  | OpAddGIDs gids | OpSetGIDs gids | OpToggleGIDs gids => -1 ∉ gids
  | OpDelGIDs _ | OpDelGadminGID _ => True
  | OpAddGadminGID gid => gid ∈ own u
  end.

(** [SetGIDs] and [ToggleGIDs] take the list as it is, with what it repeats. *)
Definition distinct (op : GidOp) : Prop :=
  match op with OpSetGIDs gids | OpToggleGIDs gids => NoDup gids | _ => True end.

(** The operations on the abstract list, and on the set of gadmin groups. *)
Fixpoint add_new (l gids : list Z) : list Z :=
  match gids with
  | [] => l
  | gid :: gids' => add_new (if decide (gid ∈ l) then l else l ++ [gid]) gids'
  end.

Definition spec_groups (op : GidOp) (l : list Z) : list Z :=
  match op with
  | OpSetPrimaryGID gid => gid :: filter (.≠ gid) l
  | OpAddGIDs gids => add_new l gids
  | OpDelGIDs gids => filter (.∉ gids) l
  | OpSetGIDs gids => gids
  | OpToggleGIDs gids => filter (.∉ gids) l ++ filter (.∉ l) gids
  | OpAddGadminGID _ | OpDelGadminGID _ => l
  end.

Definition spec_gadmin (op : GidOp) (l : list Z) (g : gset Z) : gset Z :=
  match op with
  | OpAddGadminGID gid => {[gid]} ∪ g
  | OpDelGadminGID gid => g ∖ {[gid]}
  | _ => filter (.∈ spec_groups op l) g
  end.

(** *** The two fields and the list *)

Definition primary_of (l : list Z) : Z := default (-1) (head l).

Lemma own_assign u l :
  -1 ∉ l → primaryGid u = primary_of l → secondaryGids u = tail l → own u = l.
Proof.
  intros Hl Hp Hs. unfold own. rewrite Hp, Hs.
  destruct l as [|x l]; cbn; [by rewrite decide_False by auto|].
  apply not_elem_of_cons in Hl as [Hx _]. by rewrite decide_True by done.
Qed.


Lemma wf_fields u :
  gids_wf u → primaryGid u = primary_of (own u) ∧ secondaryGids u = tail (own u).
Proof.
  intros [_ _ Hp _]. unfold own. case_decide as H; [done|].
  by rewrite (Hp H), H.
Qed.

Lemma wf_intro u l g :
  NoDup l → -1 ∉ l → primaryGid u = primary_of l → secondaryGids u = tail l →
  gadminGids u = g → (∀ gid, gid ∈ g → gid ∈ l) → gids_wf u ∧ own u = l ∧ gadminGids u = g.
Proof.
  intros Hn Hl Hp Hs Hg Hsub. pose proof (own_assign u l Hl Hp Hs) as E.
  split; [|done]. split; rewrite ?E; [done..| |].
  - intros Hm. rewrite Hp in Hm. destruct l; [done|]. cbn in Hm. subst.
    by apply not_elem_of_cons in Hl as [[] _].
  - by rewrite Hg.
Qed.

(** *** What each operation does to the fields when it succeeds *)

(** The three group fields after a success. *)
Definition gid_fields (u : UserData) : Z * list Z * gset Z :=
  (primaryGid u, secondaryGids u, gadminGids u).

Definition cleaned (p : Z) (s : list Z) (g : gset Z) : gset Z :=
  filter (λ gid, gid = p ∨ gid ∈ s) g.

(** [inv_user] also takes the records apart, so that what is left computes. *)
Ltac inv_user :=
  inv_run;
  repeat match goal with st : store Save UserData |- _ => destruct st as [[] ?] end;
  repeat match goal with u : UserData |- _ => destruct u end.

Section effects.
Context (throws : Save → UserData → bool).

Lemma SetPrimaryGID_fields gid st st' :
  SetPrimaryGID throws gid st = (Ok tt, st') → primaryGid (data st) ≠ gid →
  gid_fields (data st') = (gid, erase_first gid (own (data st)), gadminGids (data st)).
Proof.
  unfold SetPrimaryGID. intros H Hne. apply bind_Ok in H as (p & st1 & [-> ->]%gets_Ok & H).
  rewrite decide_False in H by done. inv_user. reflexivity.
Qed.

Lemma AddGIDs_fields x gids st st' :
  AddGIDs throws (x :: gids) st = (Ok tt, st') →
  gid_fields (data st') =
    (if decide (primaryGid (data st) = -1)
     then (x, copy_new x (secondaryGids (data st)) gids, gadminGids (data st))
     else (primaryGid (data st),
           copy_new (primaryGid (data st)) (secondaryGids (data st)) (x :: gids),
           gadminGids (data st))).
Proof. unfold AddGIDs. intros H. inv_run. case_decide; inv_user; reflexivity. Qed.

Lemma assign_gids_fields gids st st' :
  assign_gids gids st = (Ok tt, st') →
  gid_fields (data st') = (primary_of gids, tail gids, gadminGids (data st)).
Proof. destruct gids; cbn [assign_gids]; intros H; inv_user; reflexivity. Qed.

Lemma CleanGadminGIDs_fields st st' :
  CleanGadminGIDs st = (Ok tt, st') →
  gid_fields (data st') =
    (primaryGid (data st), secondaryGids (data st),
     cleaned (primaryGid (data st)) (secondaryGids (data st)) (gadminGids (data st))).
Proof. unfold CleanGadminGIDs. intros H. inv_user. reflexivity. Qed.

(** The cleaning of the gadmin set is by membership in the list. *)
Lemma cleaned_list l g : -1 ∉ g → cleaned (primary_of l) (tail l) g = filter (.∈ l) g.
Proof.
  intros Hg. unfold cleaned. apply set_eq. intros x. rewrite !elem_of_filter.
  destruct l as [|y l]; cbn.
  - split; [|by intros [?%elem_of_nil _]]. by intros [[->|?%elem_of_nil] ?].
  - by rewrite elem_of_cons.
Qed.

Lemma clean_save_fields l g st st' :
  gid_fields (data st) = (primary_of l, tail l, g) → -1 ∉ g →
  (CleanGadminGIDs;;; save throws SaveGIDs) st = (Ok tt, st') →
  gid_fields (data st') = (primary_of l, tail l, filter (.∈ l) g).
Proof.
  intros E Hg H. inv_run. destruct a. apply CleanGadminGIDs_fields in Hrun.
  unfold gid_fields in *. injection E as E1 E2 E3. injection Hrun as E4 E5 E6.
  cbn [data]. rewrite E4, E5, E6, E1, E2, E3. by rewrite cleaned_list.
Qed.

End effects.

(** *** The operations refine those on lists *)

Lemma erase_first_filter {A} `{EqDecision A} (x : A) l : NoDup l → erase_first x l = filter (.≠ x) l.
Proof.
  induction 1 as [|y l Hy Hl IH]; [done|]. cbn [erase_first]. rewrite filter_cons.
  destruct (decide (y = x)) as [->|Hyx].
  - rewrite decide_False by auto. symmetry. apply filter_all, Forall_forall.
    by intros z Hz ->.
  - rewrite decide_True by done. by rewrite IH.
Qed.

Lemma add_new_spec l gids :
  NoDup l → NoDup (add_new l gids) ∧ (∀ x, x ∈ add_new l gids ↔ x ∈ l ∨ x ∈ gids) ∧
  ∃ k, add_new l gids = l ++ k.
Proof.
  revert l. induction gids as [|y gids IH]; intros l Hl; cbn.
  - split; [done|]. split; [|exists []; by rewrite app_nil_r].
    intros x. split; [auto|]. by intros [|?%elem_of_nil].
  - case_decide as Hy.
    + destruct (IH l Hl) as (H1 & H2 & H3). split; [done|]. split; [|done].
      intros x. rewrite H2, elem_of_cons. split; [tauto|]. intros [|[->|]]; auto.
    + destruct (IH (l ++ [y])) as (H1 & H2 & k & H3).
      { apply NoDup_app. split; [done|]. split; [|apply NoDup_singleton].
        intros x Hx. by intros ->%list_elem_of_singleton. }
      split; [done|]. split.
      * intros x. rewrite H2, elem_of_app, list_elem_of_singleton, elem_of_cons. tauto.
      * exists (y :: k). by rewrite H3, <- app_assoc.
Qed.

Lemma copy_new_add_new p s gids : p :: copy_new p s gids = add_new (p :: s) gids.
Proof.
  revert s. induction gids as [|x gids IH]; intros s; [done|]. cbn [copy_new add_new].
  rewrite IH. unfold contains. f_equal.
  destruct (decide (x ∈ p :: s)) as [Hx|Hx]; rewrite elem_of_cons in Hx.
  - case_bool_decide; cbn; [done|]. by rewrite bool_decide_eq_false_2 by tauto.
  - rewrite bool_decide_eq_false_2, bool_decide_eq_true_2 by tauto. done.
Qed.

Section refinement.
Context (throws : Save → UserData → bool).

Lemma wf_gadmin_none u : gids_wf u → -1 ∉ gadminGids u.
Proof. intros Hwf Hg. by apply (wf_none _ Hwf), (wf_gadmin _ Hwf). Qed.

Lemma DelGIDs_fields gids st st' :
  gids_wf (data st) → DelGIDs throws gids st = (Ok tt, st') →
  let l := filter (.∉ gids) (own (data st)) in
  gid_fields (data st') = (primary_of l, tail l, filter (.∈ l) (gadminGids (data st))).
Proof.
  intros Hwf H l. unfold DelGIDs, gid_transaction in H. rewrite !transaction_Ok in H.
  apply bind_Ok in H as (p & ? & [-> ->]%gets_Ok & H).
  apply bind_Ok in H as (s & ? & [-> ->]%gets_Ok & H).
  apply bind_Ok in H as ([] & st1 & H1 & H).
  refine (clean_save_fields throws l _ st1 st' _ (wf_gadmin_none _ Hwf) H).
  clear H. subst l. destruct Hwf as [_ _ Hp _]. destruct st as [u sv].
  unfold own, contains in *. cbn [data] in *.
  case_bool_decide as Hin; destruct (decide (primaryGid u ≠ -1)) as [Hn|Hn];
    rewrite ?filter_cons.
  - rewrite decide_False by auto.
    destruct (filter (.∉ gids) (secondaryGids u)); inv_user; reflexivity.
  - apply dec_stable in Hn. rewrite (Hp Hn), filter_nil in *. inv_user. reflexivity.
  - rewrite decide_True by done. inv_user. reflexivity.
  - apply dec_stable in Hn. rewrite (Hp Hn), filter_nil in *. inv_user. cbn in *. by subst.
Qed.

Lemma SetGIDs_fields gids st st' :
  gids_wf (data st) → SetGIDs throws gids st = (Ok tt, st') →
  gid_fields (data st') = (primary_of gids, tail gids, filter (.∈ gids) (gadminGids (data st))).
Proof.
  intros Hwf H. unfold SetGIDs, gid_transaction in H. rewrite !transaction_Ok in H.
  apply bind_Ok in H as ([] & st1 & H1 & H).
  refine (clean_save_fields throws gids _ st1 st' _ (wf_gadmin_none _ Hwf) H).
  by apply assign_gids_fields.
Qed.

Lemma ToggleGIDs_fields gids st st' :
  gids_wf (data st) → ToggleGIDs throws gids st = (Ok tt, st') →
  let l := filter (.∉ gids) (own (data st)) ++ filter (.∉ own (data st)) gids in
  gid_fields (data st') = (primary_of l, tail l, filter (.∈ l) (gadminGids (data st))).
Proof.
  intros Hwf H l. unfold ToggleGIDs, gid_transaction in H. rewrite !transaction_Ok in H.
  apply bind_Ok in H as (p & ? & [-> ->]%gets_Ok & H).
  apply bind_Ok in H as (s & ? & [-> ->]%gets_Ok & H).
  apply bind_Ok in H as ([] & st1 & H1 & H).
  refine (clean_save_fields throws l _ st1 st' _ (wf_gadmin_none _ Hwf) H).
  by apply assign_gids_fields.
Qed.

(** A list that contains the user's groups keeps the whole gadmin set. *)
Lemma filter_gadmin u (l : list Z) :
  gids_wf u → (∀ x, x ∈ own u → x ∈ l) → filter (.∈ l) (gadminGids u) = gadminGids u.
Proof.
  intros Hwf Hl. apply set_eq. intros x. rewrite elem_of_filter.
  split; [by intros []|]. intros Hx. split; [|done]. by apply Hl, (wf_gadmin _ Hwf).
Qed.

Lemma SetPrimaryGID_refines gid st st' :
  gids_wf (data st) → SetPrimaryGID throws gid st = (Ok tt, st') →
  let l := gid :: filter (.≠ gid) (own (data st)) in
  gid_fields (data st') = (primary_of l, tail l, filter (.∈ l) (gadminGids (data st))).
Proof.
  intros Hwf H l. rewrite filter_gadmin; [|done|].
  2: { intros x Hx. subst l. rewrite elem_of_cons, list_elem_of_filter.
       destruct (decide (x = gid)); auto. }
  destruct (decide (primaryGid (data st) = gid)) as [Hp|Hp].
  - unfold SetPrimaryGID in H. apply bind_Ok in H as (p & ? & [-> ->]%gets_Ok & H).
    rewrite decide_True in H by done. inv_run.
    destruct (wf_fields _ Hwf) as [_ E2]. unfold gid_fields. f_equal. f_equal; [done|].
    rewrite E2. subst l. cbn [tail]. pose proof (wf_nodup _ Hwf) as Hn. unfold own in *.
    case_decide as Hd.
    + rewrite filter_cons_False by auto. cbn [tail]. symmetry. apply filter_all, Forall_forall.
      intros x Hx ->. rewrite <- Hp in Hx. by inversion Hn.
    + by rewrite (wf_primary _ Hwf Hd).
  - rewrite (SetPrimaryGID_fields throws gid st st' H Hp).
    by rewrite erase_first_filter by (by apply wf_nodup).
Qed.

Lemma AddGIDs_refines gids st st' :
  gids_wf (data st) → -1 ∉ gids → AddGIDs throws gids st = (Ok tt, st') →
  let l := add_new (own (data st)) gids in
  gid_fields (data st') = (primary_of l, tail l, filter (.∈ l) (gadminGids (data st))).
Proof.
  intros Hwf Hne H l. destruct (wf_fields _ Hwf) as [E1 E2].
  destruct (add_new_spec (own (data st)) gids (wf_nodup _ Hwf)) as (_ & Hin & k & Ek).
  rewrite filter_gadmin; [|done|intros x Hx; apply Hin; auto].
  destruct gids as [|x gids].
  { cbn in H. inv_run. unfold gid_fields. by rewrite E1, E2. }
  rewrite (AddGIDs_fields throws x gids st st' H). subst l. case_decide as Hp.
  - assert (Ho : own (data st) = []).
    { unfold own. rewrite decide_False by auto. by apply wf_primary. }
    rewrite Ho, (wf_primary _ Hwf Hp). cbn [add_new]. rewrite decide_False by apply not_elem_of_nil.
    change ([] ++ [x]) with [x]. by rewrite <- copy_new_add_new.
  - assert (Ho : own (data st) = primaryGid (data st) :: secondaryGids (data st)).
    { unfold own. by rewrite decide_True by done. }
    by rewrite Ho, <- copy_new_add_new.
Qed.

End refinement.

(** ** Atomicity *)

(** Every operation that runs inside a transaction *)
Inductive Op : Type :=
  | OpGid (op : GidOp)
  | OpToggleGadminGID (gid : Z)
  | OpSetFlags (fl : str) | OpAddFlags (fl : str) | OpDelFlags (fl : str)
  | OpSetSectionWeeklyAllotment (section : str) (allotment : Z)
  | OpSetSectionRatio (section : str) (r : Z)
  | OpSetHomeDir (v : str) | OpSetStartUpDir (v : str) | OpSetIdleTime (v : Z)
  | OpSetExpires (v : option Z) | OpSetNumLogins (v : Z)
  | OpSetComment (v : str) | OpSetTagline (v : str)
  | OpSetMaxDownSpeed (v : Z) | OpSetMaxUpSpeed (v : Z)
  | OpSetMaxSimDown (v : Z) | OpSetMaxSimUp (v : Z)
  | OpSetLoggedIn (now : Z)
  | OpSetPassword (HashPassword : str → str → str) (rawSalt pw : str).

Definition run_op (throws : Save → UserData → bool) (op : Op) : M Save UserData unit :=
  match op with
  | OpGid op => run_gid_op throws op
  | OpToggleGadminGID gid => ToggleGadminGID throws gid;;; ret tt
  | OpSetFlags fl => SetFlags throws fl
  | OpAddFlags fl => AddFlags throws fl
  | OpDelFlags fl => DelFlags throws fl
  | OpSetSectionWeeklyAllotment s a => SetSectionWeeklyAllotment throws s a
  | OpSetSectionRatio s r => SetSectionRatio throws s r
  | OpSetHomeDir v => SetHomeDir throws v
  | OpSetStartUpDir v => SetStartUpDir throws v
  | OpSetIdleTime v => SetIdleTime throws v
  | OpSetExpires v => SetExpires throws v
  | OpSetNumLogins v => SetNumLogins throws v
  | OpSetComment v => SetComment throws v
  | OpSetTagline v => SetTagline throws v
  | OpSetMaxDownSpeed v => SetMaxDownSpeed throws v
  | OpSetMaxUpSpeed v => SetMaxUpSpeed throws v
  | OpSetMaxSimDown v => SetMaxSimDown throws v
  | OpSetMaxSimUp v => SetMaxSimUp throws v
  | OpSetLoggedIn now => SetLoggedIn throws now
  | OpSetPassword h salt pw => SetPassword throws h salt pw
  end.

(** What an exception leaves of an operation: nothing, but the new salt of a password *)
Definition left_over (op : Op) (u : UserData) : UserData :=
  match op with OpSetPassword _ rawSalt _ => set f_salt (HexEncode rawSalt) u | _ => u end.

(** [keeps_but f m]: a run of [m] that throws leaves [f] of the record; one that does
    not either changes nothing or ends with the record saved. *)
Definition keeps_but {A} (f : UserData → UserData) (m : M Save UserData A) : Prop :=
  (∀ st e st', m st = (Throw e, st') → data st' = f (data st)) ∧
  (∀ st a st', m st = (Ok a, st') →
     st' = st ∨ ∃ s, last (saved st') = Some (s, data st')).
Abbreviation keeps := (keeps_but (λ u, u)).

(** The branches of an operation are split as they are met. *)
Ltac split_branches :=
  repeat match goal with
  | H : (let '(_, _) := ?x in _) _ = _ |- _ => destruct x
  | H : (if ?b then _ else _) _ = _ |- _ => destruct b eqn:?
  | H : (match ?l with [] => _ | _ :: _ => _ end) _ = _ |- _ => destruct l eqn:?
  end.

Ltac unfold_ops :=
  unfold SetPrimaryGID, AddGIDs, DelGIDs, SetGIDs, ToggleGIDs, gid_transaction, assign_gids,
    CleanGadminGIDs, AddGadminGID, DelGadminGID, AddFlag, DelFlag, AddFlags, DelFlags,
    SetFlags, SetSectionWeeklyAllotment, SetSectionRatio, SetHomeDir, SetStartUpDir,
    SetIdleTime, SetExpires, SetNumLogins, SetComment, SetTagline, SetMaxDownSpeed,
    SetMaxUpSpeed, SetMaxSimDown, SetMaxSimUp, SetLoggedIn, SetPassword, SetPasswordNoSave.

Ltac solve_keeps :=
  unfold_ops; split;
  [ intros st e st' Hrun; repeat progress (inv_throw; inv_run; split_branches);
    repeat match goal with
    | st : store Save UserData |- _ => destruct st as [[] ?]
    | u : UserData |- _ => destruct u
    end; reflexivity
  | intros st a st' Hrun; repeat progress (inv_run; split_branches);
    first [ left; reflexivity | right; eexists; apply last_snoc ] ].

Section atomic.
Context (throws : Save → UserData → bool).

Lemma keeps_gid_op op : keeps (run_gid_op throws op).
Proof. destruct op as [| [] | | | | |]; cbn [run_gid_op]; solve_keeps. Qed.

Lemma keeps_op op : keeps_but (left_over op) (run_op throws op).
Proof.
  destruct op as [op|gid| | | | | | | | | | | | | | | | | |]; cbn [run_op left_over];
    [apply keeps_gid_op| |solve_keeps..].
  destruct (keeps_gid_op (OpAddGadminGID gid)) as [Ha1 Ha2].
  destruct (keeps_gid_op (OpDelGadminGID gid)) as [Hd1 Hd2]. cbn [run_gid_op] in *.
  unfold ToggleGadminGID. split.
  - intros st e st' H. repeat progress (inv_throw; inv_run; split_branches); eauto.
  - intros st [] st' H. repeat progress (inv_run; split_branches); eauto.
Qed.

End atomic.

(** Only the database can make an operation throw. *)
Lemma gid_op_throws throws op st e st' :
  run_gid_op throws op st = (Throw e, st') → ∃ s d, throws s d = true.
Proof.
  intros Hrun. destruct op as [| [] | | | | |]; cbn [run_gid_op] in Hrun; revert Hrun;
    unfold_ops; intros Hrun; repeat progress (inv_throw; inv_run; split_branches); eauto.
Qed.

Lemma op_throws throws op st e st' : run_op throws op st = (Throw e, st') → ∃ s d, throws s d = true.
Proof.
  intros Hrun. destruct op as [op|gid| | | | | | | | | | | | | | | | | |]; cbn [run_op] in Hrun; [by apply gid_op_throws in Hrun| |..].
  { unfold ToggleGadminGID in Hrun. pose proof (gid_op_throws throws (OpAddGadminGID gid)) as Ha.
    pose proof (gid_op_throws throws (OpDelGadminGID gid)) as Hd. cbn [run_gid_op] in *.
    repeat progress (inv_throw; inv_run; split_branches); eauto. }
  all: revert Hrun; unfold_ops; intros Hrun; repeat progress (inv_throw; inv_run; split_branches); eauto.
Qed.

(** *** Gadmin groups and flag *)

Lemma AddFlags_fields throws fl st st' :
  AddFlags throws fl st = (Ok tt, st') →
  data st' = set f_flags (sort_chars (add_chars fl (flags (data st)))) (data st).
Proof. unfold AddFlags. intros H. by inv_run. Qed.

Lemma DelFlags_fields throws fl st st' :
  DelFlags throws fl st = (Ok tt, st') →
  data st' = set f_flags (del_chars fl (flags (data st))) (data st).
Proof. unfold DelFlags. intros H. by inv_run. Qed.

Lemma gid_fields_set_flags v u : gid_fields (set f_flags v u) = gid_fields u.
Proof. by destruct u. Qed.

Lemma gid_fields_set_gadmin g u :
  gid_fields (set f_gadminGids g u) = (primaryGid u, secondaryGids u, g).
Proof. by destruct u. Qed.

Lemma flags_set_flags v u : flags (set f_flags v u) = v.
Proof. by destruct u. Qed.

Lemma flags_set_gadmin g u : flags (set f_gadminGids g u) = flags u.
Proof. by destruct u. Qed.

(** The record after a successful change of the gadmin set. *)
Lemma AddGadminGID_fields throws gid st st' :
  AddGadminGID throws gid st = (Ok tt, st') →
  let u := set f_gadminGids ({[gid]} ∪ gadminGids (data st)) (data st) in
  data st' = if HasFlag (data st) Gadmin then u
             else set f_flags (sort_chars (add_chars [flag_char Gadmin] (flags (data st)))) u.
Proof.
  unfold AddGadminGID. intros H. inv_run. unfold HasFlag in *. cbn [data] in *.
  rewrite flags_set_gadmin in H. destruct (has_char _ _); inv_run; [done|].
  apply AddFlags_fields in H. cbn [data] in H. by rewrite H, flags_set_gadmin.
Qed.

Lemma DelGadminGID_fields throws gid st st' :
  DelGadminGID throws gid st = (Ok tt, st') →
  let g := gadminGids (data st) ∖ {[gid]} in
  let u := set f_gadminGids g (data st) in
  data st' = if decide (g = ∅)
             then set f_flags (del_chars [flag_char Gadmin] (flags (data st))) u else u.
Proof.
  unfold DelGadminGID. intros H. inv_run. cbn [data] in *.
  replace (gadminGids (set f_gadminGids _ (data st))) with
    (gadminGids (data st) ∖ {[gid]}) in H by (by destruct (data st)).
  case_decide; inv_run; [|done].
  apply DelFlags_fields in H. cbn [data] in H. by rewrite H, flags_set_gadmin.
Qed.

Lemma gadmin_op_fields throws gid op st st' :
  op = OpAddGadminGID gid ∨ op = OpDelGadminGID gid →
  run_gid_op throws op st = (Ok tt, st') →
  gid_fields (data st') = (primaryGid (data st), secondaryGids (data st),
                           spec_gadmin op (own (data st)) (gadminGids (data st))).
Proof.
  intros [-> | ->] H; cbn [run_gid_op spec_gadmin] in *.
  - apply AddGadminGID_fields in H. rewrite H.
    by destruct (HasFlag _ _); rewrite ?gid_fields_set_flags, gid_fields_set_gadmin.
  - apply DelGadminGID_fields in H. rewrite H.
    by case_decide; rewrite ?gid_fields_set_flags, gid_fields_set_gadmin.
Qed.

Lemma own_from_fields u l g : -1 ∉ l → gid_fields u = (primary_of l, tail l, g) → own u = l ∧ gadminGids u = g.
Proof. intros Hl [= E1 E2 E3]. split; [by apply own_assign|done]. Qed.

Lemma wf_from_fields u l g :
  NoDup l → -1 ∉ l → gid_fields u = (primary_of l, tail l, g) → (∀ x, x ∈ g → x ∈ l) → gids_wf u.
Proof. intros Hn Hl [= E1 E2 E3] Hg. by apply (wf_intro u l g). Qed.

Lemma spec_groups_none op u : gids_wf u → gid_op_ok u op → -1 ∉ spec_groups op (own u).
Proof.
  intros [Hn Hne _ _] Hok. destruct op as [gid|gids|gids|gids|gids|gid|gid]; cbn in *; try done.
  - apply not_elem_of_cons; rewrite list_elem_of_filter; split; [auto|tauto].
  - destruct (add_new_spec (own u) gids Hn) as (H1 & H2 & _). rewrite H2. tauto.
  - rewrite list_elem_of_filter. tauto.
  - rewrite elem_of_app, !list_elem_of_filter. tauto.
Qed.

Lemma spec_groups_distinct op u : gids_wf u → distinct op → NoDup (spec_groups op (own u)).
Proof.
  intros [Hn Hne _ _] Hok. destruct op as [gid|gids|gids|gids|gids|gid|gid]; cbn in *; try done.
  - constructor; [rewrite list_elem_of_filter; tauto | by apply NoDup_filter].
  - by destruct (add_new_spec (own u) gids Hn) as (H1 & _ & _).
  - by apply NoDup_filter.
  - apply NoDup_app. split; [by apply NoDup_filter|]. split; [|by apply NoDup_filter].
    intros x. rewrite !list_elem_of_filter. tauto.
Qed.

Lemma gid_op_fields throws op st st' :
  gids_wf (data st) → gid_op_ok (data st) op → run_gid_op throws op st = (Ok tt, st') →
  let l := spec_groups op (own (data st)) in
  gid_fields (data st') = (primary_of l, tail l, spec_gadmin op (own (data st)) (gadminGids (data st))).
Proof.
  intros Hwf Hok H. cbv zeta.
  destruct op as [gid|gids|gids|gids|gids|gid|gid]; cbn [spec_groups spec_gadmin run_gid_op] in *.
  - by apply (SetPrimaryGID_refines throws).
  - by apply (AddGIDs_refines throws).
  - by apply (DelGIDs_fields throws).
  - by apply (SetGIDs_fields throws).
  - by apply (ToggleGIDs_fields throws).
  - destruct (wf_fields _ Hwf) as [<- <-]. apply (gadmin_op_fields throws gid (OpAddGadminGID gid)); auto.
  - destruct (wf_fields _ Hwf) as [<- <-]. apply (gadmin_op_fields throws gid (OpDelGadminGID gid)); auto.
Qed.

(** ** Properties *)

(** C25: Group membership refines an ordered list.  Take a user whose fields represent a
    list of groups without repetition, the primary group first, and whose gadmin groups
    are among them, and an operation with groups that exist.  It either throws - then
    a save threw and the user is unchanged - or leaves a user whose fields represent the
    list the abstract operation computes (toggling is symmetric difference; deleting the
    primary promotes the next group), with the gadmin groups cut down to those still
    held.  The list is again without repetition, unless the groups to set or to toggle
    were given with one: these are taken as they are, which SITE CHGRP does not prevent. *)
Theorem gid_ops_refine throws op st :
  gids_wf (data st) → gid_op_ok (data st) op →
  let '(r, st') := run_gid_op throws op st in
  match r with
  | Ok _ =>
      own (data st') = spec_groups op (own (data st)) ∧
      gadminGids (data st') = spec_gadmin op (own (data st)) (gadminGids (data st)) ∧
      (distinct op → gids_wf (data st'))
  | Throw _ => data st' = data st ∧ ∃ s d, throws s d = true
  end.
Proof.
  intros Hwf Hok. destruct (run_gid_op throws op st) as [[[]|e] st'] eqn:H.
  - pose proof (spec_groups_none op (data st) Hwf Hok) as Hne.
    pose proof (gid_op_fields throws op st st' Hwf Hok H) as Hf. cbv zeta in Hf.
    destruct (own_from_fields _ _ _ Hne Hf) as [E1 E2]. split; [done|]. split; [done|]. intros Hd.
    refine (wf_from_fields _ _ _ (spec_groups_distinct op _ Hwf Hd) Hne Hf _).
    intros x. clear H Hf E1 E2. destruct op as [gid|gids|gids|gids|gids|gid|gid];
        cbn [spec_gadmin spec_groups]; rewrite ?elem_of_filter; try tauto.
    + rewrite elem_of_union, elem_of_singleton. intros [->|]; [done|]. by apply wf_gadmin.
    + rewrite elem_of_difference. intros [? _]. by apply wf_gadmin.
  - split; [by apply (keeps_gid_op throws op) in H | by apply gid_op_throws in H].
Qed.

(** A user in groups 10, 20 and 30 who is gadmin of 20. *)
Definition example_user : UserData :=
  set f_primaryGid 10 (set f_secondaryGids [20; 30] (set f_gadminGids {[20]}
    (set f_flags (lit "23") (default_UserData 0)))).

Lemma example_user_wf : gids_wf example_user.
Proof.
  split; cbn.
  - by apply (bool_decide_unpack (NoDup [10; 20; 30])).
  - by apply (bool_decide_unpack (-1 ∉ [10; 20; 30])).
  - done.
  - intros gid ->%elem_of_singleton. by apply (bool_decide_unpack (20 ∈ [10; 20; 30])).
Qed.

Lemma gid_ops_refine_witness :
  gids_wf example_user ∧
  let '(r, st') := run_gid_op (λ _ _, false) (OpDelGIDs [10; 20]) (Store example_user []) in
  r = Ok tt ∧ own (data st') = [30] ∧ gadminGids (data st') = ∅.
Proof.
  split; [apply example_user_wf|].
  pose proof (gid_ops_refine (λ _ _, false) (OpDelGIDs [10; 20]) (Store example_user [])
    example_user_wf I) as H.
  destruct (run_gid_op _ _ _) as [[[]|e] st'].
  - destruct H as (H1 & H2 & _). split; [done|]. split; [exact H1|]. rewrite H2. vm_compute. reflexivity.
  - destruct H as (_ & s & d & [=]).
Defined.

(** SITE CHGRP user = g g *)
Example group_twice : own (data (run_gid_op (λ _ _, false) (OpSetGIDs [7; 7]) (Store example_user [])).2) = [7; 7].
Proof. vm_compute. reflexivity. Qed.

(** C26: An exception undoes the change.  Every setter of a user that runs in a
    transaction throws only when a save does, and then leaves the record in memory as it
    was; [SetPassword] as it was but for the salt, which stays the new one.  Otherwise
    it returns, with the record unchanged, or as the last save found it.  (A save that
    the database refuses returns as well: its connection keeps the error to itself, so
    that the record in memory is changed and that in the database is not.) *)
Theorem User_ops_atomic throws op st :
  let '(r, st') := run_op throws op st in
  match r with
  | Throw _ => data st' = left_over op (data st) ∧ ∃ s d, throws s d = true
  | Ok _ => st' = st ∨ ∃ s, last (saved st') = Some (s, data st')
  end.
Proof.
  destruct (keeps_op throws op) as [Hthrow Hok].
  destruct (run_op throws op st) as [[a|e] st'] eqn:E; [by apply Hok in E |].
  split; [by apply Hthrow in E|by apply op_throws in E].
Qed.

(** Saves that throw: the flags are as before, and so is the password, but not its salt *)
Lemma User_ops_atomic_witness :
  data (run_op (λ _ _, true) (OpAddFlags (lit "1")) (Store example_user [])).2 = example_user ∧
  let '(r, st') := run_op (λ _ _, true) (OpSetPassword (λ pw salt, pw ++ salt) (lit "x") (lit "y")) (Store example_user []) in
  r = Throw DBError ∧ data st' = set f_salt (HexEncode (lit "x")) example_user.
Proof.
  split.
  - pose proof (User_ops_atomic (λ _ _, true) (OpAddFlags (lit "1")) (Store example_user [])) as H.
    destruct (run_op _ _ _) as [[[]|e] st'] eqn:E; [vm_compute in E; discriminate E|]. exact (proj1 H).
  - pose proof (User_ops_atomic (λ _ _, true) (OpSetPassword (λ pw salt, pw ++ salt) (lit "x") (lit "y")) (Store example_user [])) as H.
    destruct (run_op _ _ _) as [[[]|[]] st'] eqn:E; [vm_compute in E; discriminate E|]. split; [reflexivity|]. exact (proj1 H).
Defined.

(** *** Flags *)

Lemma add_chars_spec fl cur :
  (∀ c, c ∈ add_chars fl cur ↔ c ∈ cur ∨ c ∈ fl) ∧ (NoDup cur → NoDup (add_chars fl cur)).
Proof.
  revert cur. induction fl as [|d fl IH]; intros cur; cbn.
  { split; [|done]. intros c. split; [auto|]. by intros [|?%elem_of_nil]. }
  destruct (has_char d cur) eqn:E.
  - apply has_char_true in E. destruct (IH cur) as [H1 H2]. split; [|done].
    intros c. rewrite H1, elem_of_cons. split; [tauto|]. intros [|[->|]]; auto.
  - apply has_char_false in E. destruct (IH (cur ++ [d])) as [H1 H2]. split.
    + intros c. rewrite H1, elem_of_app, list_elem_of_singleton, elem_of_cons. tauto.
    + intros Hn. apply H2, NoDup_app. split; [done|]. split; [|apply NoDup_singleton].
      intros x Hx. by intros ->%list_elem_of_singleton.
Qed.

Lemma del_chars_filter fl cur : NoDup cur → del_chars fl cur = filter (.∉ fl) cur.
Proof.
  revert cur. induction fl as [|d fl IH]; intros cur Hn; cbn.
  - symmetry. apply filter_all, Forall_forall. intros; apply not_elem_of_nil.
  - change (foldl _ _ fl) with (del_chars fl (erase_first d cur)).
    rewrite erase_first_filter, IH by (done || by apply NoDup_filter).
    rewrite list_filter_filter. apply list_filter_iff. intros x.
    rewrite not_elem_of_cons. tauto.
Qed.

#[export] Instance schar_le_total : Total schar_le.
Proof. intros x y. unfold schar_le. lia. Qed.

#[export] Instance schar_le_trans : Transitive schar_le.
Proof. intros x y z. unfold schar_le. lia. Qed.

Lemma sort_chars_perm s : sort_chars s ≡ₚ s.
Proof. apply merge_sort_Permutation. Qed.

(** Flags behave as a set.  On a user without repeated flags, when the
    database takes the save, [AddFlags] leaves exactly the old flags and the
    new ones, sorted and without repetition, and [DelFlags] exactly the old
    flags that are not deleted, in their order. *)
Lemma AddFlags_DelFlags throws fl st :
  NoDup (flags (data st)) → (∀ d, throws SaveFlags d = false) →
  (∃ st', AddFlags throws fl st = (Ok tt, st') ∧
     (∀ c, c ∈ flags (data st') ↔ c ∈ flags (data st) ∨ c ∈ fl) ∧
     NoDup (flags (data st')) ∧ StronglySorted schar_le (flags (data st')) ∧
     gid_fields (data st') = gid_fields (data st)) ∧
  (∃ st', DelFlags throws fl st = (Ok tt, st') ∧
     flags (data st') = filter (.∉ fl) (flags (data st)) ∧ NoDup (flags (data st')) ∧
     gid_fields (data st') = gid_fields (data st)).
Proof.
  intros Hn Ht. split.
  - destruct (AddFlags throws fl st) as [[[]|e] st'] eqn:E.
    + exists st'. apply AddFlags_fields in E. rewrite E, flags_set_flags, gid_fields_set_flags.
      destruct (add_chars_spec fl (flags (data st))) as [H1 H2].
      split; [done|]. split; [intros c; by rewrite sort_chars_perm, H1|].
      split; [rewrite sort_chars_perm; auto|]. split; [|done].
      apply StronglySorted_merge_sort; apply _.
    + unfold AddFlags in E. repeat progress (inv_throw; inv_run); by rewrite Ht in *.
  - destruct (DelFlags throws fl st) as [[[]|e] st'] eqn:E.
    + exists st'. apply DelFlags_fields in E. rewrite E, flags_set_flags, gid_fields_set_flags.
      rewrite del_chars_filter by done. split; [done|]. split; [done|]. split; [by apply NoDup_filter | done].
    + unfold DelFlags in E. repeat progress (inv_throw; inv_run); by rewrite Ht in *.
Qed.

(** *** Passwords *)

(** After a successful [SetPassword] exactly the passwords with the same
    hash under the new salt verify - the new one among them - and the stored
    hash and salt are those of the save.  When the save throws, the old hash is
    restored but the new salt stays: passwords are then checked against the old
    hash with the wrong salt. *)
Lemma SetPassword_VerifyPassword throws hash rawSalt pw st :
  let '(r, st') := SetPassword throws hash rawSalt pw st in
  match r with
  | Ok _ =>
      (∀ pw', VerifyPassword hash (data st') pw' =
              Some (bool_decide (hash pw' rawSalt = hash pw rawSalt))) ∧
      last (saved st') = Some (SavePassword, data st')
  | Throw _ =>
      password (data st') = password (data st) ∧ salt (data st') = HexEncode rawSalt ∧
      ∀ pw', VerifyPassword hash (data st') pw' =
             Some (bool_decide (HexEncode (hash pw' rawSalt) = password (data st)))
  end.
Proof.
  destruct (SetPassword throws hash rawSalt pw st) as [[[]|e] st'] eqn:E;
    unfold SetPassword, SetPasswordNoSave in E.
  - inv_run. cbn [data saved]. split; [|apply last_snoc]. intros pw'.
    destruct (data st). unfold VerifyPassword. cbn -[HexEncode HexDecode].
    rewrite HexDecode_HexEncode. do 2 f_equal.
    apply bool_decide_ext. split; [apply HexEncode_inj | by intros ->].
  - repeat progress (inv_throw; inv_run). destruct st as [[] sv].
    unfold VerifyPassword. cbn -[HexEncode HexDecode]. rewrite HexDecode_HexEncode. done.
Qed.

(** *** IP masks *)

(** No mask of a list makes another one superfluous. *)
Definition antichain `{Fnmatch} (masks : list str) : Prop :=
  ∀ i j m n, masks !! i = Some m → masks !! j = Some n → i ≠ j →
             WildcardMatch m n true = false.

Lemma antichain_sublist `{Fnmatch} (l k : list str) : sublist l k → antichain k → antichain l.
Proof.
  intros Hs Hk. induction Hs as [|x l k Hs IH|x l k Hs IH]; [done| |].
  - assert (Ha : antichain k).
    { intros i j m n Hi Hj Hij. apply (Hk (S i) (S j)); [done..|congruence]. }
    intros [|i] [|j] m n Hi Hj Hij; cbn in *; [done| | |].
    + apply list_elem_of_lookup_2 in Hj. apply (sublist_subseteq _ _ Hs) in Hj.
      apply list_elem_of_lookup_1 in Hj as [j' Hj']. by apply (Hk 0%nat (S j')).
    + apply list_elem_of_lookup_2 in Hi. apply (sublist_subseteq _ _ Hs) in Hi.
      apply list_elem_of_lookup_1 in Hi as [i' Hi']. by apply (Hk (S i') 0%nat).
    + apply (IH Ha i j); [done..|congruence].
  - apply IH. intros i j m n Hi Hj Hij. apply (Hk (S i) (S j)); [done..|congruence].
Qed.

Lemma antichain_snoc `{Fnmatch} l x :
  antichain l → (∀ m, m ∈ l → WildcardMatch m x true = false ∧ WildcardMatch x m true = false) →
  antichain (l ++ [x]).
Proof.
  intros Hl Hx i j m n Hi Hj Hij.
  apply lookup_app_Some in Hi as [Hi|[Hi1 Hi]]; apply lookup_app_Some in Hj as [Hj|[Hj1 Hj]].
  - by apply (Hl i j).
  - apply list_lookup_singleton_Some in Hj as [_ <-]. by apply Hx, (list_elem_of_lookup_2 _ i).
  - apply list_lookup_singleton_Some in Hi as [_ <-]. by apply Hx, (list_elem_of_lookup_2 _ j).
  - apply list_lookup_singleton_Some in Hi as [Hi _]. apply list_lookup_singleton_Some in Hj as [Hj _].
    lia.
Qed.

Lemma AddIPMask_run `{Fnmatch} throws ipMask st :
  (∀ d, throws SaveIPMasks d = false) →
  let masks := ipMasks (data st) in
  let kept := filter (λ m, WildcardMatch ipMask m true = false) masks in
  let '(r, st') := AddIPMask throws ipMask st in
  if existsb (λ m, WildcardMatch m ipMask true) masks then r = Ok (false, []) ∧ st' = st
  else r = Ok (true, filter (λ m, WildcardMatch ipMask m true = true) masks) ∧
       data st' = set f_ipMasks (kept ++ [ipMask]) (data st).
Proof.
  intros Ht. unfold AddIPMask, bind, gets. cbv zeta. destruct st as [u sv]. cbn [data].
  destruct (existsb _ _) eqn:E; cbn -[set].
  - done.
  - unfold Transaction.save. cbn -[set]. by rewrite Ht.
Qed.

(** IP masks never cover each other.  On a list where no mask matches
    another one, [AddIPMask] refuses a mask that some existing mask matches and
    changes nothing; otherwise it removes exactly the masks the new one matches,
    reports them, appends the new mask, and no mask of the result matches
    another. *)
Lemma AddIPMask_antichain `{Fnmatch} throws ipMask st :
  (∀ d, throws SaveIPMasks d = false) → antichain (ipMasks (data st)) →
  let '(r, st') := AddIPMask throws ipMask st in
  antichain (ipMasks (data st')) ∧
  ((∃ m, m ∈ ipMasks (data st) ∧ WildcardMatch m ipMask true = true) ∧
     r = Ok (false, []) ∧ st' = st
   ∨ (∃ kept deleted,
        ipMasks (data st) ≡ₚ kept ++ deleted ∧
        Forall (λ m, WildcardMatch ipMask m true = true) deleted ∧
        Forall (λ m, WildcardMatch m ipMask true = false) kept ∧
        ipMasks (data st') = kept ++ [ipMask] ∧ r = Ok (true, deleted))).
Proof.
  intros Ht Ha. pose proof (AddIPMask_run throws ipMask st Ht) as Hrun. cbv zeta in Hrun.
  destruct (AddIPMask throws ipMask st) as [r st']. destruct (existsb _ _) eqn:E.
  - destruct Hrun as [-> ->]. split; [done|]. left. split; [|done].
    apply existsb_exists in E as (m & Hm & E). apply list_elem_of_In in Hm. eauto.
  - destruct Hrun as [-> E']. rewrite E'. clear E'.
    replace (ipMasks (set f_ipMasks _ (data st))) with
      (filter (λ m, WildcardMatch ipMask m true = false) (ipMasks (data st)) ++ [ipMask])
      by (by destruct (data st)).
    assert (Hno : ∀ m, m ∈ ipMasks (data st) → WildcardMatch m ipMask true = false).
    { intros m Hm. apply not_true_iff_false. intros Hw. apply not_true_iff_false in E. apply E.
      apply existsb_exists. exists m. split; [by apply list_elem_of_In | done]. }
    split; [|right].
    + apply antichain_snoc.
      * eapply antichain_sublist; [apply sublist_filter | done].
      * intros m [Hm Hin]%list_elem_of_filter. auto.
    + eexists _, _. split; [|split; [|split; [|split; reflexivity]]].
      * rewrite Permutation_app_comm.
        rewrite <- (filter_app_complement (λ m, WildcardMatch ipMask m true = true)) at 1.
        apply Permutation_app; [done|]. apply reflexive_eq, list_filter_iff.
        intros m. by rewrite not_true_iff_false.
      * apply Forall_forall. by intros m [Hm _]%list_elem_of_filter.
      * apply Forall_forall. intros m [_ Hin]%list_elem_of_filter. auto.
Qed.

Lemma AddIPMask_antichain_example :
  let st := Store (S := Save) (set f_ipMasks [lit "*@10.0.0.1"; lit "joe@host"] example_user) [] in
  antichain (H := ref_fnmatch) (ipMasks (data st)) ∧
  let '(r, st') := AddIPMask (H := ref_fnmatch) (λ _ _, false) (lit "*@10.*") st in
  antichain (H := ref_fnmatch) (ipMasks (data st')) ∧
  ipMasks (data st') = [lit "joe@host"; lit "*@10.*"].
Proof.
  set (st := Store _ _).
  assert (Ha : antichain (H := ref_fnmatch) (ipMasks (data st))).
  { intros i j m n Hi Hj Hij. destruct i as [|[|i]], j as [|[|j]]; cbn in Hi, Hj;
      try done; simplify_eq; reflexivity. }
  cbv zeta. split; [exact Ha|].
  pose proof (@AddIPMask_antichain ref_fnmatch (λ _ _, false) (lit "*@10.*") st
                ltac:(done) Ha) as H.
  destruct (AddIPMask _ _ _) as [r st'] eqn:E. split; [exact (proj1 H)|].
  vm_compute in E. injection E as <- <-. reflexivity.
Defined.

(** *** The gadmin flag *)

(** The flag says whether the user is gadmin of some group. *)
Definition gadmin_flag_ok (u : UserData) : Prop :=
  NoDup (flags u) ∧ (HasFlag u Gadmin = true ↔ gadminGids u ≠ ∅).

Lemma gadminGids_set_flags v u : gadminGids (set f_flags v u) = gadminGids u.
Proof. by destruct u. Qed.

Lemma gadminGids_set_gadmin g u : gadminGids (set f_gadminGids g u) = g.
Proof. by destruct u. Qed.

(** Making a user gadmin of a group and unmaking keep the gadmin flag in
    step with the set of gadmin groups.  Taking the user out of the groups does
    not: [DelGIDs] of the only group a user is gadmin of leaves the flag. *)
Lemma gadmin_flag_coherent throws gid st :
  gadmin_flag_ok (data st) →
  (∀ st', AddGadminGID throws gid st = (Ok tt, st') → gadmin_flag_ok (data st')) ∧
  (∀ st', DelGadminGID throws gid st = (Ok tt, st') → gadmin_flag_ok (data st')) ∧
  (let '(r, st') := DelGIDs (λ _ _, false) [20] (Store example_user []) in
   r = Ok tt ∧ gadmin_flag_ok example_user ∧
   gadminGids (data st') = ∅ ∧ HasFlag (data st') Gadmin = true).
Proof.
  intros [Hn Hf]. split; [|split].
  - intros st' E. apply AddGadminGID_fields in E. rewrite E. clear E.
    destruct (add_chars_spec [flag_char Gadmin] (flags (data st))) as [Hin Hnd].
    destruct (HasFlag (data st) Gadmin) eqn:Hflag; split; unfold HasFlag in *.
    + by rewrite flags_set_gadmin.
    + rewrite flags_set_gadmin, gadminGids_set_gadmin, Hflag. split; [set_solver | done].
    + rewrite flags_set_flags, sort_chars_perm. auto.
    + rewrite flags_set_flags, gadminGids_set_flags, gadminGids_set_gadmin, has_char_true.
      rewrite sort_chars_perm, Hin, list_elem_of_singleton. split; [set_solver | auto].
  - intros st' E. apply DelGadminGID_fields in E. rewrite E. clear E.
    case_decide as Hg; split; unfold HasFlag in *.
    + rewrite flags_set_flags, del_chars_filter by done. by apply NoDup_filter.
    + rewrite flags_set_flags, gadminGids_set_flags, gadminGids_set_gadmin, Hg.
      rewrite del_chars_filter, has_char_true, list_elem_of_filter by done. set_solver.
    + by rewrite flags_set_gadmin.
    + rewrite flags_set_gadmin, gadminGids_set_gadmin, Hf. set_solver.
  - vm_compute. repeat split; try discriminate; try done.
    by apply (bool_decide_unpack (NoDup (lit "23"))).
Qed.

Lemma gadmin_flag_coherent_example :
  let '(r, st') := AddGadminGID (λ _ _, false) 30 (Store example_user []) in
  r = Ok tt ∧ gadmin_flag_ok (data st').
Proof.
  assert (H : gadmin_flag_ok example_user).
  { split; [by apply (bool_decide_unpack (NoDup (lit "23")))|]. by vm_compute. }
  destruct (gadmin_flag_coherent (λ _ _, false) 30 (Store example_user []) H) as [Hadd _].
  destruct (AddGadminGID _ _ _) as [r st'] eqn:E.
  assert (r = Ok tt) as -> by (vm_compute in E; by injection E as <- _).
  split; [done|]. by apply Hadd.
Defined.
