(* ===== verification/Group.v ===== *)
(** * Groups: acl/group.cpp, acl/groupdata.hpp

    The group record and the operations of [acl::Group] that change it, over
    the state and transactions of Transaction.v. *)

From stdpp Require Import prelude.
From S2P Require Import Prelude Transaction.
Local Open Scope txn_scope.
Local Open Scope Z_scope.

Record GroupData := MkGroupData {
  id : Z;
  name : str;
  description : str;
  comment : str;
  slots : Z;
  leechSlots : Z;
  allotmentSlots : Z;
  maxAllotmentSize : Z;
  maxLogins : Z
}.

(** [GroupData()] *)
Definition default_GroupData : GroupData := {|
  id := -1;
  name := [];
  description := [];
  comment := [];
  slots := 0;
  leechSlots := -2;
  allotmentSlots := -2;
  maxAllotmentSize := 0;
  maxLogins := -1
|}%Z.

Definition g_id : field GroupData Z := {|
  get := id;
  set v u := let 'MkGroupData _ a1 a2 a3 a4 a5 a6 a7 a8 := u in MkGroupData v a1 a2 a3 a4 a5 a6 a7 a8 |}.
Definition g_name : field GroupData str := {|
  get := name;
  set v u := let 'MkGroupData a0 _ a2 a3 a4 a5 a6 a7 a8 := u in MkGroupData a0 v a2 a3 a4 a5 a6 a7 a8 |}.
Definition g_description : field GroupData str := {|
  get := description;
  set v u := let 'MkGroupData a0 a1 _ a3 a4 a5 a6 a7 a8 := u in MkGroupData a0 a1 v a3 a4 a5 a6 a7 a8 |}.
Definition g_comment : field GroupData str := {|
  get := comment;
  set v u := let 'MkGroupData a0 a1 a2 _ a4 a5 a6 a7 a8 := u in MkGroupData a0 a1 a2 v a4 a5 a6 a7 a8 |}.
Definition g_slots : field GroupData Z := {|
  get := slots;
  set v u := let 'MkGroupData a0 a1 a2 a3 _ a5 a6 a7 a8 := u in MkGroupData a0 a1 a2 a3 v a5 a6 a7 a8 |}.
Definition g_leechSlots : field GroupData Z := {|
  get := leechSlots;
  set v u := let 'MkGroupData a0 a1 a2 a3 a4 _ a6 a7 a8 := u in MkGroupData a0 a1 a2 a3 a4 v a6 a7 a8 |}.
Definition g_allotmentSlots : field GroupData Z := {|
  get := allotmentSlots;
  set v u := let 'MkGroupData a0 a1 a2 a3 a4 a5 _ a7 a8 := u in MkGroupData a0 a1 a2 a3 a4 a5 v a7 a8 |}.
Definition g_maxAllotmentSize : field GroupData Z := {|
  get := maxAllotmentSize;
  set v u := let 'MkGroupData a0 a1 a2 a3 a4 a5 a6 _ a8 := u in MkGroupData a0 a1 a2 a3 a4 a5 a6 v a8 |}.
Definition g_maxLogins : field GroupData Z := {|
  get := maxLogins;
  set v u := let 'MkGroupData a0 a1 a2 a3 a4 a5 a6 a7 _ := u in MkGroupData a0 a1 a2 a3 a4 a5 a6 a7 v |}.

(** The save operations of [db::Group] *)
Inductive GroupSave : Type :=
  | SaveName | SaveDescription | SaveComment | SaveSlots | SaveLeechSlots
  | SaveAllotmentSlots | SaveMaxAllotmentSize | SaveMaxLogins.

(** [db::Group::SaveX] writes the members of the record with these names. *)
Definition saved_field (s : GroupSave) (d : GroupData) : str + Z :=
  match s with
  | SaveName => inl (name d)
  | SaveDescription => inl (description d)
  | SaveComment => inl (comment d)
  | SaveSlots => inr (slots d)
  | SaveLeechSlots => inr (leechSlots d)
  | SaveAllotmentSlots => inr (allotmentSlots d)
  | SaveMaxAllotmentSize => inr (maxAllotmentSize d)
  | SaveMaxLogins => inr (maxLogins d)
  end.

(** ** Operations *)

Section operations.
Context (throws : GroupSave → GroupData → bool).
Abbreviation GM := (M GroupSave GroupData).
Local Abbreviation save s := (save throws s).

(** [save_name] says whether the database took the new name. *)
Definition Rename (save_name : GroupData → bool) (newName : str) : GM bool :=
  oldName <- gets name;;
  modify (set g_name newName);;;
  ok <- gets save_name;;
  if ok : bool then ret true
  else modify (set g_name oldName);;; ret false.

Definition SetDescription (v : str) : GM unit :=
  transaction_set g_description v (save SaveDescription).

(** The transaction is on [data->description]. *)
Definition SetComment (v : str) : GM unit :=
  transaction_set g_description v (save SaveComment).

Definition SetSlots (v : Z) : GM unit := transaction_set g_slots v (save SaveSlots).
Definition SetLeechSlots (v : Z) : GM unit :=
  transaction_set g_leechSlots v (save SaveLeechSlots).
Definition SetAllotmentSlots (v : Z) : GM unit :=
  transaction_set g_allotmentSlots v (save SaveAllotmentSlots).
Definition SetMaxAllotmentSize (v : Z) : GM unit :=
  transaction_set g_maxAllotmentSize v (save SaveMaxAllotmentSize).
Definition SetMaxLogins (v : Z) : GM unit :=
  transaction_set g_maxLogins v (save SaveMaxLogins).

End operations.

(** ** Lemmas *)

(** A setter stores its value, or throws and changes nothing. *)
Lemma transaction_set_run {A} (f : field GroupData A) throws v s (st : store GroupSave GroupData) :
  (∀ w d, set f (get f d) (set f w d) = d) →
  transaction_set f v (save throws s) st =
  if throws s (set f v (data st)) then (Throw DBError, st)
  else (Ok tt, Store (set f v (data st)) (saved st ++ [(s, set f v (data st))])).
Proof.
  intros Hf. unfold transaction_set, transaction, bind, modify, save. cbn.
  destruct (throws s (set f v (data st))); [|done]. cbn [data saved]. rewrite Hf. by destruct st.
Qed.

(** ** Properties *)

(** A group's settings.  When the database takes the save, each of the
    numeric setters and [SetDescription] leaves the value it was given in its
    own member, and that value is what the save wrote.  [SetComment] does not:
    it overwrites the description, leaves the comment as it was, and saves that
    old comment again; so a comment can never be set. *)
Lemma Group_setters throws st (t : str) (n : Z) :
  (∀ s d, throws s d = false) →
  (∀ m s v, (m, s, v) ∈
     [(SetDescription throws t, SaveDescription, inl t);
      (SetSlots throws n, SaveSlots, inr n);
      (SetLeechSlots throws n, SaveLeechSlots, inr n);
      (SetAllotmentSlots throws n, SaveAllotmentSlots, inr n);
      (SetMaxAllotmentSize throws n, SaveMaxAllotmentSize, inr n);
      (SetMaxLogins throws n, SaveMaxLogins, inr n)] →
     ∃ st', m st = (Ok tt, st') ∧ saved_field s (data st') = v ∧
            last (saved st') = Some (s, data st')) ∧
  (∃ st', SetComment throws t st = (Ok tt, st') ∧
     description (data st') = t ∧ comment (data st') = comment (data st) ∧
     last (saved st') = Some (SaveComment, data st') ∧
     saved_field SaveComment (data st') = inl (comment (data st))).
Proof.
  intros Ht.
  assert (Hrun : ∀ A (f : field GroupData A) v s, (∀ w d, set f (get f d) (set f w d) = d) →
    transaction_set f v (save throws s) st =
    (Ok tt, Store (set f v (data st)) (saved st ++ [(s, set f v (data st))]))).
  { intros A f v s Hf. by rewrite transaction_set_run, Ht. }
  split.
  - intros m s v Hin.
    repeat (apply elem_of_cons in Hin as [Hin|Hin];
      [injection Hin as -> -> ->; eexists; split; [apply Hrun; by intros w []|];
       split; [by destruct st as [[] sv] | apply last_snoc]|]).
    by apply elem_of_nil in Hin.
  - eexists. split; [apply Hrun; by intros w []|].
    split; [by destruct st as [[] sv]|]. split; [by destruct st as [[] sv]|].
    split; [apply last_snoc | by destruct st as [[] sv]].
Qed.

