(* ===== verification/UserCache.v ===== *)
(** * The replicated user and group caches: db/user/usercache.cpp,
      db/group/groupcache.cpp

    Maps between names and ids that each server process keeps in memory and
    refreshes one record at a time, when the update log names the record.  What
    the database answers is an argument; [Populate] loads everything.  The
    mutexes make each map access atomic; the model is the single replication
    thread, which is the only writer. *)

From stdpp Require Import prelude gmap strings.
From S2P Require Import Prelude CxxString.
Local Open Scope Z_scope.

(** ** The user cache *)
Module UserCache.

Record UserCache := {
  names : gmap Z str;
  uids : gmap str Z;
  primaryGids : gmap Z Z;
  ipMasks : gmap Z (list str)
}.

(** What the database holds of a user. *)
Record UserRow := { row_uid : Z; row_name : str; row_primaryGid : Z; row_ipMasks : list str }.

Definition UIDToName (c : UserCache) (uid : Z) : str := default (lit "unknown") (names c !! uid).
Definition NameToUID (c : UserCache) (name : str) : Z := default (-1) (uids c !! name).
Definition UIDToPrimaryGID (c : UserCache) (uid : Z) : Z := default (-1) (primaryGids c !! uid).

(** [IdentIPAllowed(identAddress)]: any mask of any user. *)
Definition IdentIPAllowed_any `{Fnmatch} (c : UserCache) (identAddress : str) : bool :=
  existsb (λ kv : Z * list str, existsb (λ m, WildcardMatch m identAddress true) kv.2)
          (map_to_list (ipMasks c)).

Definition IdentIPAllowed `{Fnmatch} (c : UserCache) (identAddress : str) (uid : Z) : bool :=
  match ipMasks c !! uid with
  | None => false
  | Some masks => existsb (λ m, WildcardMatch m identAddress true) masks
  end.

(** [Replicate] of one uid: [row] is what the query for it returns. *)
Definition Replicate (uid : Z) (row : option UserRow) (c : UserCache) : UserCache :=
  match row with
  | Some r => {|
      uids := <[row_name r := row_uid r]> (uids c);
      names := <[row_uid r := row_name r]> (names c);
      primaryGids := <[row_uid r := row_primaryGid r]> (primaryGids c);
      ipMasks := <[row_uid r := row_ipMasks r]> (ipMasks c) |}
  | None =>
      let c' :=
        match names c !! uid with
        | Some name => (delete uid (names c), delete name (uids c))
        | None => (names c, uids c)
        end in
      {| names := c'.1; uids := c'.2;
         primaryGids := delete uid (primaryGids c); ipMasks := delete uid (ipMasks c) |}
  end.

Definition empty : UserCache := {| names := ∅; uids := ∅; primaryGids := ∅; ipMasks := ∅ |}.

(** One iteration of the loop of [Populate] *)
Definition Populate_step (c : UserCache) (r : UserRow) : UserCache := {|
  uids := <[row_name r := row_uid r]> (uids c);
  names := <[row_uid r := row_name r]> (names c);
  primaryGids := <[row_uid r := row_primaryGid r]> (primaryGids c);
  ipMasks := <[row_uid r := row_ipMasks r]> (ipMasks c) |}.

(** [Populate]: all rows, in the order of the query. *)
Definition Populate (rows : list UserRow) : UserCache := foldl Populate_step empty rows.

End UserCache.

(** ** The group cache *)
Module GroupCache.

Record GroupCache := { names : gmap Z str; gids : gmap str Z }.

Definition GIDToName (c : GroupCache) (gid : Z) : str :=
  if decide (gid = -1) then lit "NoGroup" else default (lit "unknown") (names c !! gid).

Definition NameToGID (c : GroupCache) (name : str) : Z := default (-1) (gids c !! name).

(** [row] is the gid and name the query returns. *)
Definition Replicate (gid : Z) (row : option (Z * str)) (c : GroupCache) : GroupCache :=
  match row with
  | Some (g, n) => {| gids := <[n := g]> (gids c); names := <[g := n]> (names c) |}
  | None =>
      match names c !! gid with
      | Some name => {| gids := delete name (gids c); names := delete gid (names c) |}
      | None => c
      end
  end.

Definition Populate_step (c : GroupCache) (r : Z * str) : GroupCache :=
  {| gids := <[r.2 := r.1]> (gids c); names := <[r.1 := r.2]> (names c) |}.

Definition Populate (rows : list (Z * str)) : GroupCache :=
  foldl Populate_step {| names := ∅; gids := ∅ |} rows.

End GroupCache.

(** ** A pair of inverse maps *)

(** The two maps say the same: each name belongs to one id and back. *)
Definition inverse (names : gmap Z str) (ids : gmap str Z) : Prop :=
  ∀ id name, names !! id = Some name ↔ ids !! name = Some id.

Lemma inverse_empty : inverse ∅ ∅.
Proof. intros id name. rewrite !lookup_empty. by split. Qed.

(** Recording a name keeps the maps inverse unless the id had another name or
    the name another id. *)
Lemma inverse_insert names ids id name :
  inverse names ids →
  (∀ n, names !! id = Some n → n = name) → (∀ i, ids !! name = Some i → i = id) →
  inverse (<[id := name]> names) (<[name := id]> ids).
Proof.
  intros Hinv Hn Hi i n. rewrite !lookup_insert_Some, (Hinv i n).
  destruct (decide (id = i)) as [->|Hid], (decide (name = n)) as [->|Hname].
  - split; by left.
  - split; intros [[? ?]|[? H]]; try congruence. apply Hinv, Hn in H. congruence.
  - split; intros [[? ?]|[? H]]; try congruence. apply Hi in H. congruence.
  - split; intros [[? ?]|[? H]]; try congruence; by right.
Qed.

Lemma inverse_delete names ids id name :
  inverse names ids → names !! id = Some name →
  inverse (delete id names) (delete name ids).
Proof.
  intros Hinv Hid i n. rewrite !lookup_delete_Some, (Hinv i n). split.
  - intros [Hi H]. split; [|done]. intros ->. apply Hinv in Hid. congruence.
  - intros [Hn H]. split; [|done]. intros ->. apply Hinv in H. congruence.
Qed.

(** ** Properties *)

(** The row that the query for [uid] can return. *)
Definition row_of (uid : Z) (row : option UserCache.UserRow) : Prop :=
  ∀ r, row = Some r → UserCache.row_uid r = uid.

(** The answers a cache gives about a user by uid. *)
Definition cached (c : UserCache.UserCache) (uid : Z) : option (str * Z * list str) :=
  n ← UserCache.names c !! uid; g ← UserCache.primaryGids c !! uid;
  m ← UserCache.ipMasks c !! uid; Some (n, g, m).

Definition row_data (r : UserCache.UserRow) : str * Z * list str :=
  (UserCache.row_name r, UserCache.row_primaryGid r, UserCache.row_ipMasks r).

(** Replication of one user.  Afterwards the cache answers about that uid
    exactly what the database row says (nothing if the user is gone) and about
    every other uid what it said before.  The name index stays the inverse of
    the uid index when the user is deleted, is new, or keeps the name.  When the
    user was renamed it does not: the old name goes on resolving to the uid. *)
Lemma UserCache_Replicate c uid row :
  row_of uid row →
  let c' := UserCache.Replicate uid row c in
  cached c' uid = row_data <$> row ∧
  (∀ u, u ≠ uid → cached c' u = cached c u) ∧
  (inverse (UserCache.names c) (UserCache.uids c) →
   (∀ r, row = Some r →
      (∀ n, UserCache.names c !! uid = Some n → n = UserCache.row_name r) ∧
      (∀ u, UserCache.uids c !! UserCache.row_name r = Some u → u = uid)) →
   inverse (UserCache.names c') (UserCache.uids c')) ∧
  (∀ r old, row = Some r → UserCache.uids c !! old = Some uid → old ≠ UserCache.row_name r →
     UserCache.NameToUID c' old = uid ∧
     UserCache.UIDToName c' uid = UserCache.row_name r).
Proof.
  intros Hrow. destruct row as [r|]; cbn [UserCache.Replicate] in *.
  - specialize (Hrow r eq_refl). subst uid. split; [|split; [|split]].
    + unfold cached. cbn. by rewrite !lookup_insert_eq.
    + intros u Hu. unfold cached. cbn. by rewrite !lookup_insert_ne by done.
    + intros Hinv Hok. destruct (Hok r eq_refl). cbn. by apply inverse_insert.
    + intros r' old [= <-] Hold Hne. unfold UserCache.NameToUID, UserCache.UIDToName. cbn.
      by rewrite lookup_insert_ne, Hold, lookup_insert_eq by done.
  - split; [|split; [|split]].
    + unfold cached. destruct (UserCache.names c !! uid) eqn:E; cbn;
        rewrite ?lookup_delete_eq, ?E; done.
    + intros u Hu. unfold cached. destruct (UserCache.names c !! uid) eqn:E; cbn;
        by rewrite ?lookup_delete_ne by done.
    + intros Hinv _. destruct (UserCache.names c !! uid) eqn:E; cbn; [|done].
      by apply inverse_delete.
    + done.
Qed.

Lemma UserCache_Replicate_example :
  let joe := {| UserCache.row_uid := 7; UserCache.row_name := lit "joe";
                UserCache.row_primaryGid := 1; UserCache.row_ipMasks := [] |} in
  let jim := {| UserCache.row_uid := 7; UserCache.row_name := lit "jim";
                UserCache.row_primaryGid := 1; UserCache.row_ipMasks := [] |} in
  let c := UserCache.Replicate 7 (Some joe) UserCache.empty in
  row_of 7 (Some jim) ∧
  UserCache.NameToUID (UserCache.Replicate 7 (Some jim) c) (lit "joe") = 7.
Proof.
  intros joe jim c. assert (Hrow : row_of 7 (Some jim)) by (by intros r [= <-]).
  split; [exact Hrow|].
  destruct (UserCache_Replicate c 7 (Some jim) Hrow) as (_ & _ & _ & H).
  by apply (H jim (lit "joe")).
Defined.

Lemma UserCache_Populate_step c rows :
  NoDup (map UserCache.row_uid rows) → NoDup (map UserCache.row_name rows) →
  (∀ r, r ∈ rows → UserCache.names c !! UserCache.row_uid r = None ∧
                   UserCache.uids c !! UserCache.row_name r = None) →
  inverse (UserCache.names c) (UserCache.uids c) →
  let c' := foldl UserCache.Populate_step c rows in
  inverse (UserCache.names c') (UserCache.uids c') ∧
  (∀ r, r ∈ rows → cached c' (UserCache.row_uid r) = Some (row_data r)) ∧
  (∀ u, u ∉ map UserCache.row_uid rows → cached c' u = cached c u).
Proof.
  revert c. induction rows as [|r rows IH]; intros c Hu Hn Hfresh Hinv; cbn.
  { split; [done|]. split; [by intros r ?%elem_of_nil | done]. }
  cbn in Hu, Hn. apply NoDup_cons in Hu as [Hu Hu']. apply NoDup_cons in Hn as [Hn Hn'].
  destruct (Hfresh r) as [Hf1 Hf2]; [by left|].
  set (c1 := UserCache.Populate_step c r).
  assert (Hc1 : ∀ u, u ≠ UserCache.row_uid r → cached c1 u = cached c u).
  { intros u Hne. unfold cached. cbn. by rewrite !lookup_insert_ne by done. }
  destruct (IH c1 Hu' Hn') as (H1 & H2 & H3).
  - intros r' Hr'. cbn. destruct (Hfresh r') as [Hr1 Hr2]; [by right|].
    rewrite !lookup_insert_ne; [done| |].
    + intros E. apply Hn. rewrite E. by apply list_elem_of_fmap_2.
    + intros E. apply Hu. rewrite E. by apply list_elem_of_fmap_2.
  - cbn. apply inverse_insert; [done| |]; intros ? E; congruence.
  - split; [done|]. split.
    + intros r' [->|Hr']%elem_of_cons; [|by apply H2].
      rewrite H3 by done. unfold cached. cbn. by rewrite !lookup_insert_eq.
    + intros u [Hne Hu1]%not_elem_of_cons. rewrite H3 by done. by apply Hc1.
Qed.

Lemma cached_name c u r :
  cached c u = Some (row_data r) → UserCache.names c !! u = Some (UserCache.row_name r).
Proof.
  unfold cached, row_data. intros H. simplify_option_eq. congruence.
Qed.

(** Populating the cache from a database whose uids and names are unique
    makes it answer for every row exactly what the row says, for every other
    uid nothing, and leaves the two name indexes inverse to each other. *)
Lemma UserCache_Populate rows :
  NoDup (map UserCache.row_uid rows) → NoDup (map UserCache.row_name rows) →
  let c := UserCache.Populate rows in
  inverse (UserCache.names c) (UserCache.uids c) ∧
  (∀ r, r ∈ rows → cached c (UserCache.row_uid r) = Some (row_data r) ∧
                   UserCache.NameToUID c (UserCache.row_name r) = UserCache.row_uid r) ∧
  (∀ u, u ∉ map UserCache.row_uid rows → cached c u = None).
Proof.
  intros Hu Hn c.
  destruct (UserCache_Populate_step UserCache.empty rows Hu Hn) as (H1 & H2 & H3).
  { intros r _. split; apply lookup_empty. }
  { apply inverse_empty. }
  split; [exact H1|]. split.
  - intros r Hr. specialize (H2 r Hr). split; [exact H2|].
    apply cached_name, H1 in H2. unfold UserCache.NameToUID, c, UserCache.Populate. by rewrite H2.
  - intros u Hu'. by rewrite H3.
Qed.

(** The group cache keeps its two indexes the same way. *)
Lemma GroupCache_Replicate_inverse c gid row :
  inverse (GroupCache.names c) (GroupCache.gids c) →
  (∀ g n, row = Some (g, n) →
     (∀ m, GroupCache.names c !! g = Some m → m = n) ∧
     (∀ i, GroupCache.gids c !! n = Some i → i = g)) →
  let c' := GroupCache.Replicate gid row c in
  inverse (GroupCache.names c') (GroupCache.gids c').
Proof.
  intros Hinv Hok. destruct row as [[g n]|]; cbn.
  - destruct (Hok g n eq_refl). by apply inverse_insert.
  - destruct (GroupCache.names c !! gid) eqn:E; cbn; [by apply inverse_delete | done].
Qed.
