(* ===== verification/Control.v ===== *)
(** * The control connection: ftp/controlimpl.cpp, ftp/util.hpp, ftp/util.cpp

    Building multi-line replies out of parts, with the check that the parts of
    one reply carry one code; cleaning a command line; the line-ending
    conversions of ASCII transfers.  The socket is the list of what was written
    to it; a network error, which ends the session, is not modelled here. *)

From stdpp Require Import prelude.
From S2P Require Import Prelude CxxString Numbers.
Local Open Scope Z_scope.
Local Open Scope list_scope.
Local Open Scope str_scope.

(** ** Reply codes: ftp/replycodes.hpp *)

Definition CodeDeferred : Z := -2.
Definition CodeNotSet : Z := -1.
Definition NoCode : Z := 0.

(** ** State *)

(** An assertion that fails ends the process. *)
Inductive ProtocolError : Type := InvalidReplyCodeSequence | AssertionFailed.

Record Control := MkControl {
  lastCode : Z;
  singleLineReplies : bool;
  deferred : list str;
  sent : list str
}.

(** [ControlImpl::ControlImpl] *)
Definition new_Control : Control := {|
  lastCode := CodeNotSet; singleLineReplies := false; deferred := []; sent := [] |}.

Definition set_lastCode (code : Z) (c : Control) : Control :=
  MkControl code (singleLineReplies c) (deferred c) (sent c).
Definition SetSingleLineReplies (b : bool) (c : Control) : Control :=
  MkControl (lastCode c) b (deferred c) (sent c).
Definition set_deferred (l : list str) (c : Control) : Control :=
  MkControl (lastCode c) (singleLineReplies c) l (sent c).
Definition Write (s : str) (c : Control) : Control :=
  MkControl (lastCode c) (singleLineReplies c) (deferred c) (sent c ++ [s]).

(** Operations change the state and may throw. *)
Definition CM : Type := Control → result ProtocolError unit * Control.

Definition seq (m k : CM) : CM := λ c,
  match m c with (Ok _, c') => k c' | (Throw e, c') => (Throw e, c') end.

(** ** Replies *)

(** [os << std::setw(3) << code] *)
Definition setw (n : nat) (s : str) : str := replicate (n - length s) " "%char ++ s.

Definition reply_line (code : Z) (part : bool) (message : str) : str :=
  (if decide (code ≠ NoCode)
   then setw 3 (to_string code) ++ (if part then lit "-" else lit " ") else [])
  ++ message ++ [CR; LF].

Definition SendReply (code : Z) (part : bool) (message : str) : CM := λ c,
  if singleLineReplies c && part then (Ok tt, c)
  else
    let c1 := Write (reply_line code part message) c in
    if bool_decide (lastCode c1 ≠ code) && bool_decide (lastCode c1 ≠ CodeNotSet)
       && bool_decide (code ≠ NoCode)
    then (Throw InvalidReplyCodeSequence, c1)
    else (Ok tt, if decide (code ≠ NoCode) then set_lastCode code c1 else c1).

(** [MultiReply(code, final, std::vector)] *)
Fixpoint MultiReply (code : Z) (final : bool) (messages : list str) : CM :=
  match messages with
  | [] => λ c, (Throw AssertionFailed, c)
  | [m] => SendReply code (negb final) m
  | m :: ms => seq (SendReply code true m) (MultiReply code final ms)
  end.

Section split.
Context `{Split}.

(** [MultiReply(code, final, std::string)] *)
Definition MultiReply_text (code : Z) (final : bool) (messages : str) : CM :=
  MultiReply code final (Split_ messages [LF] false).

Definition PartReply (code : Z) (messages : str) : CM := λ c,
  if decide (code = CodeNotSet) then (Throw AssertionFailed, c)
  else if decide (code = CodeDeferred)
  then (Ok tt, set_deferred (deferred c ++ Split_ messages [LF] false) c)
  else MultiReply_text code false messages c.

Definition Reply (code : Z) (messages : str) : CM :=
  if decide (code = CodeNotSet ∨ code = CodeDeferred) then λ c, (Throw AssertionFailed, c) else
  seq (λ c, if decide (deferred c ≠ [])
            then seq (MultiReply code false (deferred c)) (λ c, (Ok tt, set_deferred [] c)) c
            else (Ok tt, c))
  (seq (MultiReply_text code true messages)
       (λ c, (Ok tt, set_lastCode CodeNotSet c))).

End split.

(** ** Command lines *)

Fixpoint StripTelnetChars (commandLine : str) : str :=
  match commandLine with
  | [] => []
  | c :: s => if code c <=? 240 then commandLine else StripTelnetChars s
  end.

(** What [NextCommand] returns of a line it has read. *)
Definition NextCommand_line `{TrimRightIf} (line : str) : str :=
  StripTelnetChars (trim_right_if (trim_right_if line [LF]) [CR]).

(** ** Line endings *)

(** The loop of [LFtoCRLF]; [prev] is the character before, if any. *)
Fixpoint LFtoCRLF_loop (prev : option ascii) (source : str) : str :=
  match source with
  | [] => []
  | c :: s =>
      (if bool_decide (c = LF) && match prev with
                                  | None => false
                                  | Some p => bool_decide (p ≠ CR)
                                  end
       then [CR] else []) ++ c :: LFtoCRLF_loop (Some c) s
  end.

Definition LFtoCRLF (source : str) : str := LFtoCRLF_loop None source.

Definition CRLFtoLF (source : str) : str := filter (.≠ CR) source.

(** ** Lemmas *)

(** The next line with this code raises no protocol error. *)
Definition in_sequence (code : Z) (c : Control) : Prop :=
  lastCode c = CodeNotSet ∨ lastCode c = code.

Definition after_part (code : Z) (lines : list str) (c : Control) : Control :=
  MkControl code (singleLineReplies c) (deferred c) (sent c ++ lines).

Lemma SendReply_run code part m c :
  code ≠ NoCode → in_sequence code c →
  SendReply code part m c =
  if singleLineReplies c && part then (Ok tt, c)
  else (Ok tt, after_part code [reply_line code part m] c).
Proof.
  intros Hc Hs. unfold SendReply. destruct (singleLineReplies c && part); [done|].
  rewrite (decide_True (P := code ≠ NoCode)) by done. cbn.
  destruct Hs as [-> | ->].
  - by rewrite (bool_decide_eq_false_2 (CodeNotSet ≠ CodeNotSet)), andb_false_r by auto.
  - by rewrite (bool_decide_eq_false_2 (code ≠ code)) by auto.
Qed.

(** The lines that appear on the wire: the parts are left out in single-line
    mode. *)
Definition visible (c : Control) (lines : list str) : list str :=
  if singleLineReplies c then [] else lines.

Lemma MultiReply_parts code ms c :
  code ≠ NoCode → in_sequence code c → ms ≠ [] →
  MultiReply code false ms c =
  (Ok tt, if singleLineReplies c then c
          else after_part code (map (reply_line code true) ms) c).
Proof.
  intros Hc. revert c. induction ms as [|m ms IH]; intros c Hs Hne; [done|].
  destruct ms as [|m' ms].
  { cbn [MultiReply negb]. rewrite SendReply_run by done. rewrite andb_true_r.
    by destruct (singleLineReplies c). }
  change (MultiReply code false (m :: m' :: ms)) with
    (seq (SendReply code true m) (MultiReply code false (m' :: ms))).
  unfold seq. rewrite SendReply_run, andb_true_r by done.
  destruct (singleLineReplies c) eqn:E.
  - rewrite IH, E by done. done.
  - rewrite IH by (done || by right). cbn. rewrite E.
    unfold after_part. cbn. by rewrite <- app_assoc.
Qed.

Lemma MultiReply_final code ms m c :
  code ≠ NoCode → in_sequence code c →
  MultiReply code true (ms ++ [m]) c =
  (Ok tt, after_part code (visible c (map (reply_line code true) ms) ++
                           [reply_line code false m]) c).
Proof.
  intros Hc. revert c. induction ms as [|m' ms IH]; intros c Hs.
  { cbn [app MultiReply negb map]. rewrite SendReply_run, andb_false_r by done.
    unfold visible. by destruct (singleLineReplies c). }
  assert (E : MultiReply code true ((m' :: ms) ++ [m]) =
              seq (SendReply code true m') (MultiReply code true (ms ++ [m]))).
  { cbn. by destruct (ms ++ [m]) eqn:E; [destruct ms|]. }
  rewrite E. unfold seq. rewrite SendReply_run, andb_true_r by done. unfold visible.
  destruct (singleLineReplies c) eqn:Es.
  - rewrite IH by done. unfold visible. by rewrite Es.
  - rewrite IH by (by right). unfold visible, after_part. cbn. rewrite Es.
    by rewrite <- app_assoc.
Qed.

Lemma split_char_snoc d s : ∃ ms m, split_char d s = ms ++ [m].
Proof.
  destruct (exists_last (split_char_not_nil d s)) as (ms & m & E). by exists ms, m.
Qed.

(** A command's reply: parts and then the final message, under one code. *)
Fixpoint say `{Split} (code : Z) (parts : list str) (final : str) : CM :=
  match parts with
  | [] => Reply code final
  | p :: ps => seq (PartReply code p) (say code ps final)
  end.

Section laws.
Context `{SplitOk}.

(** The code of a reply on the wire *)
Definition proper (code : Z) : Prop := code ≠ NoCode ∧ code ≠ CodeNotSet ∧ code ≠ CodeDeferred.

Lemma PartReply_run code p c :
  proper code → in_sequence code c →
  PartReply code p c =
  (Ok tt, if singleLineReplies c then c
          else after_part code (map (reply_line code true) (split_char LF p)) c).
Proof.
  intros (H1 & H2 & H3) Hs. unfold PartReply, MultiReply_text, Split_.
  rewrite !decide_False, split_off by done.
  by apply MultiReply_parts; auto with ebftpd.
Qed.

Lemma Reply_run code m c :
  proper code → in_sequence code c →
  ∃ lines final, split_char LF m = lines ++ [final] ∧
  Reply code m c =
  (Ok tt, MkControl CodeNotSet (singleLineReplies c) []
     (sent c ++ visible c (map (reply_line code true) (deferred c ++ lines)) ++
      [reply_line code false final])).
Proof.
  intros (Hc & H2 & H3) Hs. destruct (split_char_snoc LF m) as (lines & final & E).
  exists lines, final. split; [done|].
  unfold Reply, MultiReply_text, Split_. rewrite decide_False, split_off, E by tauto. unfold seq at 1.
  destruct (decide (deferred c ≠ [])) as [Hd|Hd].
  - unfold seq at 1. rewrite MultiReply_parts by done. unfold seq.
    destruct (singleLineReplies c) eqn:Es.
    + rewrite MultiReply_final by done. unfold visible, set_deferred. cbn. by rewrite Es.
    + rewrite MultiReply_final by (done || by right). unfold visible. cbn. rewrite Es.
      unfold set_lastCode, after_part. cbn. by rewrite Es, map_app, <- !app_assoc.
  - apply dec_stable in Hd. unfold seq. rewrite MultiReply_final by done.
    unfold visible, set_lastCode, after_part. cbn. by rewrite Hd.
Qed.

(** C27: Replies on the wire.  A command that sends any number of parts and then
    a final message, all under one code, neither fails an assertion nor raises a
    protocol error, and produces exactly one reply of RFC 959: every line of the parts,
    then the deferred lines that were pending, then every line of the final message but
    its last, each as "code-text", and the last one as "code text"; in single-line mode
    only that last one.  Afterwards the next reply may use any code and nothing is
    deferred.  The code is a proper one, not one of the three markers, and the one of
    the reply that was begun, if there is one; the socket takes what is written. *)
Theorem say_one_reply code parts final c :
  proper code → in_sequence code c →
  ∃ lines l, split_char LF final = lines ++ [l] ∧
  say code parts final c =
  (Ok tt, MkControl CodeNotSet (singleLineReplies c) []
     (sent c ++
      (if singleLineReplies c then []
       else map (reply_line code true)
              (concat (map (split_char LF) parts) ++ deferred c ++ lines)) ++
      [reply_line code false l])).
Proof.
  intros H1. revert c. induction parts as [|p parts IH]; intros c Hs.
  { apply Reply_run; done. }
  cbn [say]. unfold seq. rewrite PartReply_run by done.
  destruct (singleLineReplies c) eqn:Es.
  - destruct (IH c Hs) as (lines & l & E & ->). exists lines, l. by rewrite Es.
  - destruct (IH (after_part code (map (reply_line code true) (split_char LF p)) c))
      as (lines & l & E & ->); [by right|].
    exists lines, l. split; [done|]. cbn. rewrite Es. f_equal. f_equal.
    by rewrite !map_app, <- !app_assoc.
Qed.

(** A reply under a different code than the parts before it is refused, but
    only after its first visible line has gone out: the line is sent and then
    the protocol error is raised. *)
Lemma Reply_wrong_code code m c :
  proper code → deferred c = [] → lastCode c ≠ CodeNotSet → lastCode c ≠ code →
  ∃ l part, (Reply code m c).1 = Throw InvalidReplyCodeSequence ∧
            sent (Reply code m c).2 = sent c ++ [reply_line code part l].
Proof.
  intros (Hc & H2 & H3) Hd Hn Hne. destruct (split_char_snoc LF m) as (lines & final & E).
  assert (Hsend : ∀ part l, singleLineReplies c && part = false →
    SendReply code part l c =
    (Throw InvalidReplyCodeSequence, Write (reply_line code part l) c)).
  { intros part l Hp. unfold SendReply. rewrite Hp. cbn.
    by rewrite !bool_decide_eq_true_2 by done. }
  assert (Er : Reply code m c = seq (MultiReply code true (lines ++ [final]))
    (λ c, (Ok tt, set_lastCode CodeNotSet c)) c).
  { unfold Reply, MultiReply_text, Split_. rewrite decide_False, split_off, E by tauto. unfold seq at 1.
    by rewrite decide_False by auto. }
  rewrite Er. clear Er E. unfold seq.
  induction lines as [|l lines IH].
  { exists final, false. cbn [app MultiReply negb]. by rewrite Hsend by apply andb_false_r. }
  assert (Em : MultiReply code true ((l :: lines) ++ [final]) =
               seq (SendReply code true l) (MultiReply code true (lines ++ [final]))).
  { cbn. by destruct (lines ++ [final]) eqn:E; [destruct lines|]. }
  rewrite Em. unfold seq. destruct (singleLineReplies c) eqn:Es.
  - destruct IH as (l' & part & IH). exists l', part. unfold SendReply. by rewrite Es.
  - exists l, true. by rewrite Hsend.
Qed.

End laws.

Lemma say_one_reply_witness :
  say (H := ref_split) 211 [lit "Features:"; lit " AUTH TLS"] (lit "End.") new_Control =
  (Ok tt, MkControl CodeNotSet false []
     (map (λ s, s ++ [CR; LF]) [lit "211-Features:"; lit "211- AUTH TLS"; lit "211 End."])).
Proof.
  destruct (@say_one_reply ref_split ref_split_ok 211 [lit "Features:"; lit " AUTH TLS"]
    (lit "End.") new_Control ltac:(by split_and!) (or_introl eq_refl)) as (ls & l & E & ->).
  assert (Hs : ls = [] ∧ l = lit "End.").
  { change (split_char LF (lit "End.")) with ([] ++ [lit "End."]) in E.
    by apply app_inj_tail in E as [<- <-]. }
  destruct Hs as [-> ->]. vm_compute. reflexivity.
Defined.

(** ** Line endings *)

Lemma LFtoCRLF_loop_app prev a b :
  LFtoCRLF_loop prev (a ++ b) =
  LFtoCRLF_loop prev a ++
  LFtoCRLF_loop (match last a with Some c => Some c | None => prev end) b.
Proof.
  revert prev. induction a as [|c a IH]; intros prev; [done|].
  cbn [app LFtoCRLF_loop]. rewrite IH, last_cons, <- app_assoc.
  by destruct (last a).
Qed.

Lemma CRLFtoLF_app a b : CRLFtoLF (a ++ b) = CRLFtoLF a ++ CRLFtoLF b.
Proof. apply filter_app. Qed.

Lemma CRLFtoLF_LFtoCRLF_loop prev s : CRLFtoLF (LFtoCRLF_loop prev s) = CRLFtoLF s.
Proof.
  revert prev. induction s as [|c s IH]; intros prev; [done|].
  cbn [LFtoCRLF_loop]. rewrite CRLFtoLF_app. unfold CRLFtoLF at 2 3. rewrite !filter_cons.
  change (filter (.≠ CR) ?l) with (CRLFtoLF l). rewrite IH.
  by destruct (bool_decide (c = LF) && _).
Qed.

(** ASCII transfers.  Converting a block to CRLF and back gives the block
    without its CRs, so text that has none survives the round trip.  But blocks
    do not compose: cutting a text in two loses the CR before a line feed that
    starts the second block (and a line feed at the very start of a text never
    gets one), so what a client receives depends on how the file was read. *)
Lemma LFtoCRLF_blocks a b :
  CRLFtoLF (LFtoCRLF a) = CRLFtoLF a ∧
  (CR ∉ a → CRLFtoLF (LFtoCRLF a) = a) ∧
  (LFtoCRLF (a ++ b) = LFtoCRLF a ++ LFtoCRLF b ↔
   ¬ (head b = Some LF ∧ a ≠ [] ∧ last a ≠ Some CR)).
Proof.
  assert (E : ∀ s, CRLFtoLF (LFtoCRLF s) = CRLFtoLF s) by (intros; apply CRLFtoLF_LFtoCRLF_loop).
  split; [done|]. split.
  { intros Ha. rewrite E. apply filter_all, Forall_forall. by intros x Hx ->. }
  unfold LFtoCRLF at 1. rewrite LFtoCRLF_loop_app. change (LFtoCRLF_loop None a) with (LFtoCRLF a).
  destruct b as [|c b]; [by split; [intros _ [? _]|]|].
  change (LFtoCRLF (c :: b)) with (LFtoCRLF_loop None (c :: b)). cbn [LFtoCRLF_loop]. rewrite andb_false_r. cbn [app head].
  destruct (last a) as [p|] eqn:Hl; cbn.
  2: { apply last_None in Hl as ->. rewrite andb_false_r. by split; [intros _ (_ & Hn & _)|]. }
  assert (Ha : a ≠ []) by (by intros ->).
  rewrite <- bool_decide_and. destruct (bool_decide (c = LF ∧ p ≠ CR)) eqn:Hb.
  - apply bool_decide_eq_true in Hb as [-> Hp]. split.
    + intros Heq. apply app_inv_head in Heq. cbn in Heq. discriminate Heq.
    + intros []. split; [done|]. split; [done|]. congruence.
  - apply bool_decide_eq_false in Hb. split; [|done]. intros _ (H1 & _ & H3). apply Hb.
    split; congruence.
Qed.
