(* ===== verification/Counters.v ===== *)
(** * Counters and allocators shared by the client threads

    ftp/transfercounter.cpp, ftp/logincounter.cpp, ftp/speedcounter.cpp,
    ftp/portallocator.hpp, ftp/addrallocator.hpp.  Every operation runs under
    the object's mutex (but for [NextAddr], which takes none), so the state of
    an object is a value and an operation a function on it.

    The counters are specified by the bag of the users (or transfers) that are
    active: a counter represents a bag when it holds its size and the number of
    occurrences of each user. *)

From stdpp Require Import prelude gmap strings sorting.
From S2P Require Import Prelude CxxString Errors Numbers.
Local Open Scope Z_scope.
Local Open Scope str_scope.
Local Open Scope list_scope.

Inductive CounterResult : Type := PersonalFail | GlobalFail | Okay.

(** ** Occurrences *)

Fixpoint count (x : Z) (l : list Z) : Z :=
  match l with [] => 0 | y :: l' => (if decide (y = x) then 1 else 0) + count x l' end.

Fixpoint remove_one (x : Z) (l : list Z) : list Z :=
  match l with [] => [] | y :: l' => if decide (y = x) then l' else y :: remove_one x l' end.

Lemma count_nonneg x l : 0 ≤ count x l.
Proof. induction l; cbn; [done|]. case_decide; lia. Qed.

Lemma count_pos x l : x ∈ l → 0 < count x l.
Proof.
  induction l as [|y l IH]; [by intros ?%elem_of_nil|].
  intros [->|Hx]%elem_of_cons; cbn.
  - rewrite decide_True by done. pose proof (count_nonneg y l). lia.
  - specialize (IH Hx). case_decide; lia.
Qed.

Lemma count_remove_one x y l :
  x ∈ l → count y (remove_one x l) = count y l - if decide (x = y) then 1 else 0.
Proof.
  induction l as [|z l IH]; [by intros ?%elem_of_nil|].
  intros Hx. cbn. destruct (decide (z = x)) as [->|Hz]; [lia|].
  apply elem_of_cons in Hx as [->|Hx]; [done|]. cbn. rewrite IH by done. lia.
Qed.

Lemma length_remove_one x l :
  x ∈ l → Z.of_nat (length (remove_one x l)) = Z.of_nat (length l) - 1.
Proof.
  induction l as [|z l IH]; [by intros ?%elem_of_nil|].
  intros Hx. cbn. destruct (decide (z = x)) as [->|Hz]; [lia|].
  apply elem_of_cons in Hx as [->|Hx]; [done|]. cbn [length].
  rewrite !Nat2Z.inj_succ, IH by done. lia.
Qed.

(** ** Totals per user *)

Record Totals := { global : Z; personal : gmap Z Z }.

(** [personal[uid]]: a missing entry is created as 0. *)
Definition at_uid (c : Totals) (uid : Z) : Z := default 0 (personal c !! uid).

Definition touch (uid : Z) (c : Totals) : Totals :=
  {| global := global c; personal := <[uid := at_uid c uid]> (personal c) |}.

Definition incr (uid : Z) (c : Totals) : Totals :=
  {| global := global c + 1; personal := <[uid := at_uid c uid + 1]> (personal c) |}.

(** [Stop] of both counters *)
Definition Stop (uid : Z) (c : Totals) : Totals :=
  {| global := global c - 1; personal := <[uid := at_uid c uid - 1]> (personal c) |}.

Definition no_totals : Totals := {| global := 0; personal := ∅ |}.

(** The counter holds the bag. *)
Record represents (c : Totals) (bag : list Z) : Prop := {
  rep_global : global c = Z.of_nat (length bag);
  rep_personal uid : at_uid c uid = count uid bag
}.

Lemma at_uid_insert uid v g p u :
  at_uid {| global := g; personal := <[uid := v]> p |} u =
  if decide (u = uid) then v else default 0 (p !! u).
Proof.
  unfold at_uid. cbn. case_decide; subst; [by rewrite lookup_insert_eq|].
  by rewrite lookup_insert_ne by done.
Qed.

Lemma represents_empty : represents no_totals [].
Proof. by split; intros. Qed.

Lemma represents_touch uid c bag : represents c bag → represents (touch uid c) bag.
Proof.
  intros [Hg Hp]. split; [done|]. intros u. unfold touch. rewrite at_uid_insert.
  case_decide; subst; apply Hp.
Qed.

Lemma represents_incr uid c bag : represents c bag → represents (incr uid c) (uid :: bag).
Proof.
  intros [Hg Hp]. split; [cbn; lia|]. intros u. unfold incr. rewrite at_uid_insert.
  cbn [count]. case_decide; subst.
  - rewrite decide_True by done. rewrite Hp. lia.
  - rewrite decide_False by auto. apply Hp.
Qed.

Lemma represents_Stop uid c bag :
  uid ∈ bag → represents c bag → represents (Stop uid c) (remove_one uid bag).
Proof.
  intros Hin [Hg Hp]. split.
  - cbn. rewrite Hg, length_remove_one by done. lia.
  - intros u. unfold Stop. rewrite at_uid_insert, count_remove_one by done.
    case_decide as Hu; subst.
    + rewrite decide_True, Hp by done. lia.
    + rewrite decide_False by auto. unfold at_uid in Hp. rewrite Hp. lia.
Qed.

(** The assertions [count > 0] and [global > 0] of [Stop] hold for a user
    who is active. *)
Lemma Stop_asserts uid c bag :
  uid ∈ bag → represents c bag → 0 < at_uid c uid ∧ 0 < global c.
Proof.
  intros Hin [Hg Hp]. rewrite Hp, Hg. split; [by apply count_pos|].
  destruct bag; [by apply elem_of_nil in Hin|]. cbn. lia.
Qed.

#[export] Hint Resolve represents_touch represents_incr represents_Stop represents_empty : ebftpd.

(** ** Transfers: one counter for uploads, one for downloads *)
Module TransferCounter.

(** [maxGlobal] is what [getMaxGlobal] returns. *)
Definition Start (maxGlobal uid limit : Z) (exempt : bool) (c : Totals)
    : CounterResult * Totals :=
  let c := touch uid c in
  let count := at_uid c uid in
  if (limit <=? count) && negb (limit =? -1) then (PersonalFail, c)
  else if negb exempt && negb (maxGlobal =? -1) && (maxGlobal <=? global c)
  then (GlobalFail, c)
  else (Okay, incr uid c).

End TransferCounter.

(** ** Logins *)
Module LoginCounter.

(** [maxUsers] is the sum the code computes from the configuration; the branch
    it guards is empty. *)
Definition Start (maxUsers uid limit : Z) (kickLogin : bool) (c : Totals)
    : CounterResult * Totals :=
  let c := touch uid c in
  let count := at_uid c uid in
  let kick := if kickLogin then 1 else 0 in
  if negb (limit =? -1) && (limit <=? count - kick) then (PersonalFail, c)
  else
    let c := if maxUsers <? global c - kick then c else c in
    (Okay, incr uid c).

Definition LoginsUsed (uid limit : Z) (c : Totals) : bool * Totals :=
  if negb (limit =? -1) then let c := touch uid c in (limit <=? at_uid c uid, c)
  else (false, c).

Definition GlobalCount (c : Totals) : Z := global c.

End LoginCounter.

Lemma at_uid_touch uid c u : at_uid (touch uid c) u = at_uid c u.
Proof. unfold touch. rewrite at_uid_insert. by case_decide; subst. Qed.

Lemma global_touch uid c : global (touch uid c) = global c.
Proof. done. Qed.

(** [Start] adds to the bag exactly when it answers [Okay]. *)
Lemma TransferCounter_Start_represents maxGlobal uid limit exempt c bag :
  represents c bag →
  represents (snd (TransferCounter.Start maxGlobal uid limit exempt c))
    (match fst (TransferCounter.Start maxGlobal uid limit exempt c) with Okay => uid :: bag | _ => bag end).
Proof.
  intros Hrep. unfold TransferCounter.Start. cbv zeta.
  destruct ((limit <=? _) && _); [cbn [fst snd]; auto with ebftpd|].
  destruct (negb exempt && negb (maxGlobal =? -1) && (maxGlobal <=? _)); cbn [fst snd]; auto with ebftpd.
Qed.

(** ** Properties *)

(** Transfer limits.  A counter that represents the bag of running transfers
    goes on doing so: [Start] admits a transfer exactly when the user is below
    the personal limit and, unless exempt, the site below the global one (-1 is
    no limit), adds it to the bag if it does and leaves the bag alone if not;
    [Stop] of a running transfer removes it and its assertions hold. *)
Lemma TransferCounter_refines c bag maxGlobal uid limit exempt :
  represents c bag →
  (let '(r, c') := TransferCounter.Start maxGlobal uid limit exempt c in
   (r = Okay ↔ (limit = -1 ∨ count uid bag < limit) ∧
               (exempt = true ∨ maxGlobal = -1 ∨ Z.of_nat (length bag) < maxGlobal)) ∧
   represents c' (match r with Okay => uid :: bag | _ => bag end)) ∧
  (uid ∈ bag → represents (Stop uid c) (remove_one uid bag) ∧ 0 < at_uid c uid ∧ 0 < global c).
Proof.
  intros Hrep. split.
  2: { intros Hin. split; [auto with ebftpd | by apply (Stop_asserts uid c bag)]. }
  unfold TransferCounter.Start. rewrite at_uid_touch, global_touch.
  rewrite (rep_personal _ _ Hrep), (rep_global _ _ Hrep).
  destruct (_ && negb (limit =? -1)) eqn:E1.
  { split; [split; [done|lia] | auto with ebftpd]. }
  destruct (negb exempt && negb (maxGlobal =? -1) && _) eqn:E2.
  { split; [split; [done|destruct exempt; cbn in *; lia] | auto with ebftpd]. }
  split; [|auto with ebftpd]. split; [intros _|done].
  split; [lia|]. destruct exempt; cbn in *; lia.
Qed.

Lemma TransferCounter_refines_example :
  represents no_totals [] ∧ represents (incr 7 no_totals) [7] ∧
  (TransferCounter.Start 10 7 1 false (incr 7 no_totals)).1 = PersonalFail.
Proof.
  split; [apply represents_empty|].
  assert (H : represents (incr 7 no_totals) [7]) by apply represents_incr, represents_empty.
  split; [exact H|].
  destruct (TransferCounter_refines (incr 7 no_totals) [7] 10 7 1 false H) as [Hs _].
  destruct (TransferCounter.Start 10 7 1 false (incr 7 no_totals)) as [r c'] eqn:E.
  destruct Hs as [Hs _]. vm_compute in E. injection E as <- _. reflexivity.
Defined.

(** Login limits.  The login counter represents the bag of logged in users;
    [Start] fails exactly when the user has a limit and is at it, counting out
    the session a login kick removes, and every other login is added.  The
    global limit is never enforced: the number of logins the configuration
    allows does not influence the result, and [GlobalFail] is never returned. *)
Lemma LoginCounter_refines c bag maxUsers uid limit kick :
  represents c bag →
  let '(r, c') := LoginCounter.Start maxUsers uid limit kick c in
  (r = PersonalFail ↔ limit ≠ -1 ∧ limit ≤ count uid bag - (if kick then 1 else 0)) ∧
  r ≠ GlobalFail ∧
  represents c' (match r with Okay => uid :: bag | _ => bag end) ∧
  (∀ other, LoginCounter.Start other uid limit kick c = (r, c')) ∧
  (LoginCounter.LoginsUsed uid limit c).1 = bool_decide (limit ≠ -1 ∧ limit ≤ count uid bag).
Proof.
  intros Hrep. unfold LoginCounter.Start, LoginCounter.LoginsUsed. cbv zeta.
  rewrite at_uid_touch, (rep_personal _ _ Hrep).
  assert (Hused : (if negb (limit =? -1) then (limit <=? count uid bag, touch uid c)
                   else (false, c)).1 = bool_decide (limit ≠ -1 ∧ limit ≤ count uid bag)).
  { symmetry. destruct (Z.eqb_spec limit (-1)); cbn.
    - apply bool_decide_eq_false. tauto.
    - destruct (Z.leb_spec limit (count uid bag));
        [by apply bool_decide_eq_true | apply bool_decide_eq_false; lia]. }
  destruct (negb (limit =? -1) && _) eqn:E.
  - split; [split; [lia | done]|]. split; [done|]. split; [auto with ebftpd|]. done.
  - assert (Hif : ∀ b : bool, (if b then touch uid c else touch uid c) = touch uid c) by (by intros []).
    rewrite Hif. split; [split; [done|lia]|]. split; [done|]. split; [auto with ebftpd|].
    split; [|exact Hused]. intros other. by rewrite Hif.
Qed.

Lemma LoginCounter_refines_example :
  represents (incr 7 no_totals) [7] ∧
  (LoginCounter.Start 0 7 5 false (incr 7 no_totals)).1 ≠ GlobalFail.
Proof.
  assert (H : represents (incr 7 no_totals) [7]) by apply represents_incr, represents_empty.
  split; [exact H|].
  pose proof (LoginCounter_refines (incr 7 no_totals) [7] 0 7 5 false H) as Hs.
  destruct (LoginCounter.Start 0 7 5 false (incr 7 no_totals)) as [r c'].
  apply Hs.
Defined.

(** ** Port ranges and the port allocator *)

(** cfg/setting.cpp: [Ports::Ports] *)
Section ports.
Context `{Split}.

Definition PortRange_parse (token : str) : cfg (Z * Z) :=
  let temp := Split_ token (lit "-") false in
  if (2 <? length temp)%nat then Throw (ConfigError (lit "Invalid port range."))
  else
    let! t0 := tok temp 0 in
    let! from := cast (StrToInt t0) in
    let! to := if (1 <? length temp)%nat then let! t1 := tok temp 1 in cast (StrToInt t1)
               else Ok from in
    if to <? from then Throw (ConfigError (lit "To port lower than from port in port range."))
    else if (to <? 1024) || (from <? 1024) || (65535 <? to) || (65535 <? from)
    then Throw BadCast
    else Ok (from, to).

Definition Ports (toks : list str) : cfg (list (Z * Z)) := rmap PortRange_parse toks.

End ports.

Module PortAllocator.

(** [it] is an index into the ranges. *)
Record PortAllocator := { ports : list (Z * Z); it : nat; nextPort : Z }.

Definition new : PortAllocator := {| ports := []; it := 0; nextPort := 0 |}.

Definition SetPorts (ranges : list (Z * Z)) (a : PortAllocator) : PortAllocator :=
  {| ports := ranges; it := 0; nextPort := nextPort a |}.

Definition AnyPort : Z := 0.

(** The [while (true)] loop, with fuel. *)
Fixpoint loop (fuel : nat) (a : PortAllocator) : option (Z * PortAllocator) :=
  match fuel with
  | O => None
  | S fuel' =>
      let '(_, to) := nth (it a) (ports a) (0, 0) in
      if nextPort a <=? to
      then Some (nextPort a, {| ports := ports a; it := it a; nextPort := nextPort a + 1 |})
      else
        let it' := if (S (it a) =? length (ports a))%nat then O else S (it a) in
        loop fuel' {| ports := ports a; it := it';
                      nextPort := fst (nth it' (ports a) (0, 0)) |}
  end.

Definition NextPort (fuel : nat) (a : PortAllocator) : option (Z * PortAllocator) :=
  match ports a with
  | [] => Some (AnyPort, a)
  | _ =>
      if decide (nextPort a = 0) then
        let from := fst (nth (it a) (ports a) (0, 0)) in
        Some (from, {| ports := ports a; it := it a; nextPort := from + 1 |})
      else loop fuel a
  end.

(** [n] calls in a row *)
Fixpoint NextPorts (fuel n : nat) (a : PortAllocator) : option (list Z * PortAllocator) :=
  match n with
  | O => Some ([], a)
  | S n' =>
      '(p, a) ← NextPort fuel a;
      '(ps, a) ← NextPorts fuel n' a;
      Some (p :: ps, a)
  end.

End PortAllocator.

(** ** The address allocator *)
Module AddrAllocator.

Record AddrAllocator := { addresses : list str; it : nat }.

Definition SetAddrs (addrs : list str) (a : AddrAllocator) : AddrAllocator :=
  {| addresses := addrs; it := 0 |}.

Definition NextAddr (a : AddrAllocator) : str * AddrAllocator :=
  match addresses a with
  | [] => ([], a)
  | _ =>
      let it := if (it a =? length (addresses a))%nat then O else it a in
      (nth it (addresses a) [], {| addresses := addresses a; it := S it |})
  end.

Fixpoint NextAddrs (n : nat) (a : AddrAllocator) : list str * AddrAllocator :=
  match n with
  | O => ([], a)
  | S n' => let '(s, a) := NextAddr a in let '(ss, a) := NextAddrs n' a in (s :: ss, a)
  end.

End AddrAllocator.

(** ** Round robin *)

Import PortAllocator.

Definition range_ports (r : Z * Z) : list Z := seqZ (fst r) (snd r - fst r + 1).
Definition all_ports (ranges : list (Z * Z)) : list Z := concat (map range_ports ranges).

(** What [Ports] guarantees of a range. *)
Definition range_ok (r : Z * Z) : Prop := 1024 ≤ fst r ≤ snd r ∧ snd r ≤ 65535.

Lemma Ports_ok `{Split} toks ranges : Ports toks = Ok ranges → Forall range_ok ranges.
Proof.
  apply rmap_Forall. intros t r Hr. unfold PortRange_parse in Hr. cbv zeta in Hr. cfg_inv.
  all: unfold range_ok; cbn [fst snd]; lia.
Qed.

Lemma Ports_defined `{SplitOk} toks : defined (Ports toks).
Proof.
  apply rmap_defined. intros t. unfold PortRange_parse. cbv zeta.
  pose proof (split_not_nil t (lit "-") false) as Hne.
  unfold Split_. destruct (split t (lit "-") false) as [|t0 [|t1 ts]] eqn:E; [done|..];
    solve_defined; cbn; lia.
Qed.

#[export] Hint Resolve Ports_defined : defined.

(** The ports still to come before the allocator starts over. *)
Definition pending (a : PortAllocator) : list Z :=
  seqZ (nextPort a) (snd (nth (it a) (ports a) (0, 0)) - nextPort a + 1) ++
  all_ports (drop (S (it a)) (ports a)).

Record alloc_ok (a : PortAllocator) : Prop := {
  alloc_ranges : Forall range_ok (ports a);
  alloc_it : (it a < length (ports a))%nat;
  alloc_next : 0 < nextPort a
}.

Lemma seqZ_range_cons f t : f ≤ t → seqZ f (t - f + 1) = f :: seqZ (f + 1) (t - (f + 1) + 1).
Proof. intros H. rewrite seqZ_cons by lia. do 2 f_equal; lia. Qed.

Lemma range_ok_nth ranges i :
  Forall range_ok ranges → (i < length ranges)%nat → range_ok (nth i ranges (0, 0)).
Proof. intros H Hi. rewrite Forall_nth in H. by apply H. Qed.

(** A port that is left in the current range. *)
Lemma loop_here fuel a :
  alloc_ok a → nextPort a ≤ snd (nth (it a) (ports a) (0, 0)) →
  ∃ a', loop (S fuel) a = Some (nextPort a, a') ∧ alloc_ok a' ∧ ports a' = ports a ∧
        pending a = nextPort a :: pending a'.
Proof.
  intros [H1 H2 H3] Hle. eexists. split; [|split; [|split]].
  - cbn [loop]. destruct (nth _ _ _) as [f t] eqn:E. cbn in Hle.
    rewrite (proj2 (Z.leb_le _ _)) by done. reflexivity.
  - split; cbn; [done|done|lia].
  - done.
  - unfold pending. cbn. by rewrite seqZ_range_cons by done.
Qed.

Lemma drop_nth_range (ranges : list (Z * Z)) i :
  (i < length ranges)%nat → drop i ranges = nth i ranges (0, 0) :: drop (S i) ranges.
Proof.
  intros Hi. apply drop_S. rewrite nth_lookup.
  destruct (lookup_lt_is_Some_2 ranges i Hi) as [x Hx]. by rewrite Hx.
Qed.

Lemma pending_start ranges i :
  (i < length ranges)%nat → Forall range_ok ranges →
  pending {| ports := ranges; it := i; nextPort := fst (nth i ranges (0, 0)) |} =
  all_ports (drop i ranges).
Proof. intros Hi Hr. rewrite (drop_nth_range ranges i Hi). done. Qed.

(** Every call returns the next pending port, starting over when there is
    none; two rounds of the loop are enough. *)
Lemma NextPort_pending a :
  alloc_ok a →
  ∃ p rest a', NextPort 2 a = Some (p, a') ∧ alloc_ok a' ∧ ports a' = ports a ∧
    pending a' = rest ∧
    p :: rest = (if decide (pending a = []) then all_ports (ports a) else pending a).
Proof.
  intros Ha. pose proof Ha as [H1 H2 H3]. unfold NextPort.
  destruct (ports a) as [|r0 rs0] eqn:Ep; [cbn in H2; lia|]. rewrite <- Ep in *.
  rewrite decide_False by lia.
  destruct (decide (nextPort a ≤ snd (nth (it a) (ports a) (0, 0)))) as [Hle|Hgt].
  { destruct (loop_here 1 a Ha Hle) as (a' & E & Ha' & Hp & Hpend).
    exists (nextPort a), (pending a'), a'. rewrite Hpend, decide_False by done. done. }
  set (it' := if (S (it a) =? length (ports a))%nat then O else S (it a)).
  assert (Hit : (it' < length (ports a))%nat).
  { subst it'. rewrite Ep in *. destruct (Nat.eqb_spec (S (it a)) (length (r0 :: rs0))); cbn in *; lia. }
  set (b := {| ports := ports a; it := it'; nextPort := fst (nth it' (ports a) (0, 0)) |}).
  pose proof (range_ok_nth _ _ H1 Hit) as Hr.
  assert (Hb : alloc_ok b) by (split; [done..|unfold range_ok in Hr; cbn; lia]).
  destruct (loop_here 0 b Hb) as (a' & E & Ha' & Hp & Hpend); [cbn; unfold range_ok in Hr; lia|].
  exists (nextPort b), (pending a'), a'. split; [|split; [done|split; [done|split; [done|]]]].
  - rewrite <- E. cbn [loop]. destruct (nth (it a) (ports a) (0, 0)) as [f t]. cbn in Hgt.
    by rewrite (proj2 (Z.leb_gt _ _)) by lia.
  - rewrite <- Hpend. unfold b. rewrite pending_start by done.
    assert (Hpa : pending a = all_ports (drop (S (it a)) (ports a))).
    { unfold pending. by rewrite seqZ_nil by lia. }
    rewrite Hpa. subst it'. destruct (Nat.eqb_spec (S (it a)) (length (ports a))) as [Heq|Hneq].
    + by rewrite (drop_ge (ports a) (S (it a))) by lia.
    + rewrite decide_False; [done|]. rewrite drop_nth_range by lia. cbn.
      pose proof (range_ok_nth (ports a) (S (it a)) H1 ltac:(lia)) as Hr'.
      unfold range_ports, range_ok in *. by rewrite seqZ_range_cons by lia.
Qed.

Lemma all_ports_cons r ranges : range_ok r → ∃ rest,
  range_ports r = fst r :: rest ∧ all_ports (r :: ranges) = fst r :: rest ++ all_ports ranges.
Proof.
  intros Hr. unfold range_ok in Hr. eexists. unfold all_ports, range_ports. cbn.
  rewrite seqZ_range_cons by lia. by split.
Qed.

Lemma concat_replicate_snoc {A} n (l : list A) :
  concat (replicate (S n) l) = concat (replicate n l) ++ l.
Proof.
  induction n as [|n IH]; [cbn; by rewrite app_nil_r|].
  change (l ++ concat (replicate (S n) l) = (l ++ concat (replicate n l)) ++ l).
  rewrite IH. apply app_assoc.
Qed.

Lemma take_cycle {A} n (l k : list A) :
  l ≠ [] → take n (k ++ concat (replicate (S n) l)) = take n (k ++ concat (replicate n l)).
Proof.
  intros Hl. rewrite concat_replicate_snoc, app_assoc. apply take_app_le.
  rewrite length_app. enough (n ≤ length (concat (replicate n l)))%nat by lia.
  induction n as [|n IH]; [cbn; lia|]. cbn. rewrite length_app.
  destruct l; [done|]. cbn. lia.
Qed.

Lemma NextPorts_cycle n a :
  alloc_ok a → ∃ a',
  NextPorts 2 n a = Some (take n (pending a ++ concat (replicate n (all_ports (ports a)))), a').
Proof.
  revert a. induction n as [|n IH]; intros a Ha; [by exists a|].
  destruct (NextPort_pending a Ha) as (p & rest & a1 & E & Ha1 & Hp & Hrest & Hl).
  destruct (IH a1 Ha1) as (a2 & E2). exists a2.
  cbn [NextPorts]. rewrite E. cbn. rewrite E2. cbn. do 2 f_equal.
  rewrite Hrest, Hp. case_decide as Hpe.
  - rewrite Hpe, <- Hl. cbn. done.
  - rewrite <- Hl. cbn [app take]. f_equal. symmetry. apply take_cycle.
    destruct Ha as [H1 H2 _]. destruct (ports a) as [|r rs]; [cbn in H2; lia|].
    inversion H1 as [|?? Hr _]; subst. destruct (all_ports_cons r rs Hr) as (? & _ & ->). done.
Qed.

(** The port allocator is round robin.  Configured with ranges that the
    configuration parser accepts, a fresh allocator hands out every port of
    every range, in order, and then starts again, for ever: [n] calls return
    the first [n] ports of that cycle, each call after at most two rounds of
    its loop.  Reconfiguring an allocator that is in use does not reset the
    next port: the next call returns the stale port number whenever it is not
    above the first range, even if it lies outside every configured range. *)
Lemma PortAllocator_round_robin toks ranges n `{Split} :
  Ports toks = Ok ranges → ranges ≠ [] →
  (∃ a', NextPorts 2 n (SetPorts ranges new) =
         Some (take n (concat (replicate n (all_ports ranges))), a')) ∧
  (∀ a, 0 < nextPort a ≤ snd (nth 0 ranges (0, 0)) →
        ∃ a', NextPort 2 (SetPorts ranges a) = Some (nextPort a, a')).
Proof.
  intros Hparse Hne. pose proof (Ports_ok _ _ Hparse) as Hok. split.
  - destruct n as [|n]; [by eexists|]. destruct ranges as [|r rs]; [done|].
    inversion Hok as [|?? Hr Hrs]; subst.
    set (a1 := {| ports := r :: rs; it := 0; nextPort := fst r + 1 |}).
    assert (Ha1 : alloc_ok a1) by (split; cbn; [done|lia|unfold range_ok in Hr; lia]).
    destruct (NextPorts_cycle n a1 Ha1) as (a2 & E). exists a2.
    assert (E0 : NextPort 2 (SetPorts (r :: rs) new) = Some (fst r, a1)) by done.
    cbn [NextPorts]. rewrite E0. cbn [mbind option_bind]. rewrite E. cbn [mbind option_bind].
    do 2 f_equal.
    assert (Hall : all_ports (r :: rs) = fst r :: pending a1).
    { unfold all_ports, range_ports. cbn. unfold range_ok in Hr.
      by rewrite seqZ_range_cons by lia. }
    change (ports a1) with (r :: rs). cbn [replicate concat]. by rewrite Hall.
  - intros a [Hpos Hle]. destruct ranges as [|[f t] rs]; [done|]. cbn in Hle.
    eexists. unfold NextPort. cbn. rewrite decide_False by lia.
    rewrite (proj2 (Z.leb_le _ _)) by done. done.
Qed.

Lemma PortAllocator_round_robin_example :
  Ports (H := ref_split) [lit "6000-6001"; lit "7000"] = Ok [(6000, 6001); (7000, 7000)] ∧
  (∃ a', NextPorts 2 5 (SetPorts [(6000, 6001); (7000, 7000)] new) =
         Some ([6000; 6001; 7000; 6000; 6001], a')) ∧
  (∃ a', NextPort 2 (SetPorts [(6000, 6001); (7000, 7000)]
           {| ports := [(5000, 5010)]; it := 0; nextPort := 5001 |}) = Some (5001, a')).
Proof.
  assert (E : Ports (H := ref_split) [lit "6000-6001"; lit "7000"] =
              Ok [(6000, 6001); (7000, 7000)]) by (vm_compute; reflexivity).
  split; [exact E|].
  destruct (@PortAllocator_round_robin _ _ 5 ref_split E ltac:(done)) as [H1 H2].
  split; [exact H1|]. apply H2. cbn. lia.
Defined.

(** Addresses go round as well; the empty string stands for "any". *)
Lemma NextAddrs_cycle n addrs k :
  addrs ≠ [] → (k ≤ length addrs)%nat →
  fst (AddrAllocator.NextAddrs n {| AddrAllocator.addresses := addrs; AddrAllocator.it := k |}) =
  take n (drop k addrs ++ concat (replicate n addrs)).
Proof.
  intros Hne. revert k. induction n as [|n IH]; intros k Hk; [done|].
  cbn [AddrAllocator.NextAddrs]. unfold AddrAllocator.NextAddr. cbn.
  destruct addrs as [|x xs] eqn:Ea; [done|]. rewrite <- Ea in *.
  assert (Hcons : ∀ i, (i < length addrs)%nat → drop i addrs = nth i addrs [] :: drop (S i) addrs).
  { intros i Hi. apply drop_S. rewrite nth_lookup.
    destruct (lookup_lt_is_Some_2 addrs i Hi) as [y Hy]. by rewrite Hy. }
  destruct (Nat.eqb_spec k (length addrs)) as [->|Hkl].
  - assert (H0 : (0 < length addrs)%nat) by (rewrite Ea; cbn; lia).
    specialize (IH 1%nat ltac:(lia)). destruct (AddrAllocator.NextAddrs _ _) as [ss a]. cbn in *.
    rewrite IH, (drop_ge addrs (length addrs)) by lia.
    change ([] ++ ?l) with l.
    pose proof (Hcons 0%nat H0) as E0. rewrite drop_0 in E0.
    change (take (S n) (addrs ++ concat (replicate n addrs))) with
      (take (S n) ((λ l, l ++ concat (replicate n addrs)) addrs)).
    by rewrite E0 at 4.
  - specialize (IH (S k) ltac:(lia)). destruct (AddrAllocator.NextAddrs _ _) as [ss a]. cbn in *.
    rewrite IH, (Hcons k) by lia. cbn [app take]. f_equal.
    change (addrs ++ concat (replicate n addrs)) with (concat (replicate (S n) addrs)).
    symmetry. by apply take_cycle.
Qed.

(** ** Speed counters *)
Module SpeedCounter.

(** Time in microseconds, and bytes. *)
Record SpeedInfo := { xfertime : Z; bytes : Z }.

Definition add (a b : SpeedInfo) : SpeedInfo :=
  {| xfertime := xfertime a + xfertime b; bytes := bytes a + bytes b |}.
Definition sub (a b : SpeedInfo) : SpeedInfo :=
  {| xfertime := xfertime a - xfertime b; bytes := bytes a - bytes b |}.

(** The paths of the limits, each with the number of transfers under it and
    their sum. *)
Abbreviation Speeds := (gmap str (Z * SpeedInfo)).

(** One round of the loop of [Update].  What it passes to
    [stats::SpeedLimitSleep], floating-point code that is not modelled, is the
    average time and the bytes of the entry. *)
Definition Update_limit (last : option SpeedInfo) (current : SpeedInfo) (path : str)
    (speeds : Speeds) : Speeds :=
  match speeds !! path with
  | None => <[path := (1, current)]> speeds
  | Some (n, i) =>
      let '(n, i) := match last with Some l => (n, sub i l) | None => (n + 1, i) end in
      <[path := (n, add i current)]> speeds
  end.

Definition Update (last : option SpeedInfo) (current : SpeedInfo) (limits : list str)
    (speeds : Speeds) : Speeds :=
  foldl (λ s path, Update_limit last current path s) speeds limits.

Definition Clear_limit (last : SpeedInfo) (path : str) (speeds : Speeds) : Speeds :=
  match speeds !! path with
  | None => speeds
  | Some (n, i) =>
      if n - 1 <=? 0 then delete path speeds else <[path := (n - 1, sub i last)]> speeds
  end.

Definition Clear (last : option SpeedInfo) (limits : list str) (speeds : Speeds) : Speeds :=
  match last with
  | None => speeds
  | Some l => foldl (λ s path, Clear_limit l path s) speeds limits
  end.

End SpeedCounter.

Import SpeedCounter.

(** The entry of a path is the sum over a bag of transfers. *)
Definition total (bag : list SpeedInfo) : SpeedInfo :=
  foldr add {| xfertime := 0; bytes := 0 |} bag.

Definition entry (bag : list SpeedInfo) : option (Z * SpeedInfo) :=
  match bag with [] => None | _ => Some (Z.of_nat (length bag), total bag) end.

Lemma SpeedInfo_eq a b : xfertime a = xfertime b → bytes a = bytes b → a = b.
Proof. destruct a, b; cbn; congruence. Qed.

Lemma sub_add a b : sub (add a b) a = b.
Proof. apply SpeedInfo_eq; cbn; lia. Qed.

Lemma add_comm a b : add a b = add b a.
Proof. apply SpeedInfo_eq; cbn; lia. Qed.

Lemma Update_limit_other last current path p speeds :
  p ≠ path → Update_limit last current path speeds !! p = speeds !! p.
Proof.
  intros Hp. unfold Update_limit. destruct (speeds !! path) as [[n i]|].
  - destruct last; cbn; by rewrite lookup_insert_ne by done.
  - by rewrite lookup_insert_ne by done.
Qed.

Lemma Clear_limit_other last path p speeds :
  p ≠ path → Clear_limit last path speeds !! p = speeds !! p.
Proof.
  intros Hp. unfold Clear_limit. destruct (speeds !! path) as [[n i]|]; [|done].
  destruct (_ <=? _); [by rewrite lookup_delete_ne | by rewrite lookup_insert_ne].
Qed.

(** A loop that touches each path once acts on a path as its one round. *)
Lemma foldl_once (f : str → Speeds → Speeds) limits p speeds :
  (∀ path s, p ≠ path → f path s !! p = s !! p) →
  (∀ s s', s !! p = s' !! p → f p s !! p = f p s' !! p) → NoDup limits →
  foldl (λ s path, f path s) speeds limits !! p =
  if decide (p ∈ limits) then f p speeds !! p else speeds !! p.
Proof.
  intros Hother Hcong Hn. revert speeds. induction Hn as [|x limits Hx Hn IH]; intros speeds; [done|].
  cbn [foldl]. rewrite IH. destruct (decide (p = x)) as [->|Hpx].
  - rewrite (decide_False (P := x ∈ limits)) by done.
    by rewrite decide_True by (apply elem_of_cons; auto).
  - destruct (decide (p ∈ limits)) as [Hin|Hin].
    + rewrite decide_True by (apply elem_of_cons; auto). apply Hcong. by apply Hother.
    + rewrite decide_False by (apply not_elem_of_cons; auto). by apply Hother.
Qed.

(** Speed accounting.  When the entry of a path under a speed limit is the
    sum over a bag of transfers, it stays so as a transfer reports its first
    figures, replaces its figures by newer ones, or ends; an entry exists
    exactly while some transfer runs, and other paths are untouched. *)
Lemma SpeedCounter_refines speeds p limits bag last current :
  NoDup limits → p ∈ limits → speeds !! p = entry bag →
  Update None current limits speeds !! p = entry (current :: bag) ∧
  (∀ rest, bag = last :: rest →
     Update (Some last) current limits speeds !! p = entry (current :: rest) ∧
     Clear (Some last) limits speeds !! p = entry rest) ∧
  (∀ q, q ∉ limits → Update None current limits speeds !! q = speeds !! q ∧
                     Clear (Some last) limits speeds !! q = speeds !! q).
Proof.
  intros Hn Hp He. unfold Update, Clear.
  assert (Hu : ∀ last q, foldl (λ s path, Update_limit last current path s) speeds limits !! q =
    if decide (q ∈ limits) then Update_limit last current q speeds !! q else speeds !! q).
  { intros l q. apply (foldl_once (Update_limit l current)); [|intros s s' E|done].
    - intros. by apply Update_limit_other.
    - unfold Update_limit. rewrite E. destruct (s' !! q) as [[n i]|]; [destruct l|]; cbn;
        by rewrite !lookup_insert_eq. }
  assert (Hc : ∀ q, foldl (λ s path, Clear_limit last path s) speeds limits !! q =
    if decide (q ∈ limits) then Clear_limit last q speeds !! q else speeds !! q).
  { intros q. apply (foldl_once (Clear_limit last)); [|intros s s' E|done].
    - intros. by apply Clear_limit_other.
    - unfold Clear_limit. rewrite E. destruct (s' !! q) as [[n i]|] eqn:E'; [|congruence].
      destruct (_ <=? _); [by rewrite !lookup_delete_eq | by rewrite !lookup_insert_eq]. }
  split; [|split].
  - rewrite Hu, decide_True by done. unfold Update_limit. rewrite He.
    destruct bag as [|b bag]; cbn [entry]; rewrite lookup_insert_eq.
    + do 2 f_equal. apply SpeedInfo_eq; cbn; lia.
    + do 2 f_equal; [cbn [length]; lia|]. by rewrite add_comm.
  - intros rest ->. rewrite Hu, Hc, !decide_True by done. unfold Update_limit, Clear_limit.
    rewrite He. cbn [entry]. rewrite lookup_insert_eq. cbn [total foldr]. rewrite sub_add.
    split; [do 2 f_equal; by rewrite add_comm|]. destruct rest as [|r rest]; [apply lookup_delete_eq|].
    rewrite (proj2 (Z.leb_gt _ _)) by (cbn [length]; lia).
    rewrite lookup_insert_eq. cbn [entry]. do 2 f_equal. cbn [length]. lia.
  - intros q Hq. by rewrite Hu, Hc, !decide_False by done.
Qed.

Lemma SpeedCounter_refines_example :
  let i := {| xfertime := 5; bytes := 100 |} in
  let j := {| xfertime := 7; bytes := 150 |} in
  Update (Some i) j [lit "/a"] (Update None i [lit "/a"] ∅) !! lit "/a" = Some (1, j).
Proof.
  intros i j.
  assert (Hn : NoDup [lit "/a"]) by (by apply (bool_decide_unpack (NoDup [lit "/a"]))).
  assert (Hp : lit "/a" ∈ [lit "/a"]) by (by left).
  destruct (SpeedCounter_refines ∅ (lit "/a") [lit "/a"] [] i i Hn Hp (lookup_empty _))
    as [H1 _].
  destruct (SpeedCounter_refines (Update None i [lit "/a"] ∅) (lit "/a") [lit "/a"] [i] i j
              Hn Hp H1) as (_ & H2 & _).
  destruct (H2 [] eq_refl) as [H _]. rewrite H. reflexivity.
Defined.
