(* ===== verification/Client.v ===== *)
(** * A client session: ftp/clientimpl.cpp, cmd/rfc/factory.cpp, cmd/rfc/pass.cpp,
      cmd/rfc/commands.cpp

    The state of one control connection, the dispatch of command lines, and the
    commands that act on the session itself.  The commands that act on files,
    on the site or on the data connection are run through the parameter
    [run_other]: none of them assigns the session state other than to finish
    it, and what else they may change of the session is listed in [Effect].

    The session's replies are recorded one by one; that each of them is one
    well-formed FTP reply is [say_one_reply] of Control.v. *)

From stdpp Require Import prelude gmap strings.
From S2P Require Import Prelude CxxString Numbers Strings Path Acl Passwd UserData Transaction User Counters.
Local Open Scope Z_scope.
Local Open Scope list_scope.

(** ** Reply codes: ftp/replycodes.hpp *)

Module Code.
Definition CommandOkay := 200.
Definition CommandUnrecognised := 500.
Definition SyntaxError := 501.
Definition NotImplemented := 502.
Definition BadCommandSequence := 503.
Definition ParameterNotImplemented := 504.
Definition SystemStatus := 211.
Definition HelpMessage := 214.
Definition SystemType := 215.
Definition ClosingControl := 221.
Definition ServiceUnavailable := 421.
Definition DataClosedOkay := 226.
Definition UserLoggedIn := 230.
Definition SecurityExchangeOkay := 234.
Definition NotLoggedIn := 530.
Definition NeedPassword := 331.
Definition PathCreated := 257.
Definition FileActionOkay := 250.
Definition PendingMoreInfo := 350.
Definition ActionNotOkay := 550.
Definition InvalidRESTParameter := 554.
End Code.

(** ** State *)

Inductive ClientState : Type :=
  | LoggedOut | WaitingPassword | LoggedIn | Finished | NotBeforeAuth | AnyState.

#[export] Instance ClientState_eq_dec : EqDecision ClientState.
Proof. solve_decision. Defined.

Inductive DataType : Type := ASCII | Binary.
Inductive SSCNMode : Type := SSCN_Server | SSCN_Client.

(** The settings of ftp::Data that commands change. *)
Record DataSettings := {
  protection : bool;
  restartOffset : Z;
  dataType : DataType;
  sscnMode : SSCNMode
}.

(** [failures] is a history variable: the passwords that did not verify.
    [loginGuard] is the flag of [LoginGuard], and [logins] the counter that all
    sessions share. *)
Record Client := MkClient {
  state : ClientState;
  user : option UserData;
  passwordAttempts : Z;
  failures : Z;
  renameFrom : option (str * str);
  confirmCommand : str;
  kickLogin : bool;
  loginGuard : bool;
  userUpdated : bool;
  logins : Totals;
  workDirectory : str;
  isTLS : bool;
  tlsControl : ACL;
  singleLineReplies : bool;
  dataSettings : DataSettings;
  ident : str;
  ip : str;
  hostname : str;
  replies : list (Z * str)
}.

Definition with_state (v : ClientState) (c : Client) : Client :=
  MkClient v (user c) (passwordAttempts c) (failures c) (renameFrom c) (confirmCommand c) (kickLogin c) (loginGuard c)
    (userUpdated c) (logins c) (workDirectory c) (isTLS c) (tlsControl c) (singleLineReplies c) (dataSettings c) (ident c) (ip c) (hostname c) (replies c).
Definition with_user (v : option UserData) (c : Client) : Client :=
  MkClient (state c) v (passwordAttempts c) (failures c) (renameFrom c) (confirmCommand c) (kickLogin c) (loginGuard c)
    (userUpdated c) (logins c) (workDirectory c) (isTLS c) (tlsControl c) (singleLineReplies c) (dataSettings c) (ident c) (ip c) (hostname c) (replies c).
Definition with_passwordAttempts (v : Z) (c : Client) : Client :=
  MkClient (state c) (user c) v (failures c) (renameFrom c) (confirmCommand c) (kickLogin c) (loginGuard c)
    (userUpdated c) (logins c) (workDirectory c) (isTLS c) (tlsControl c) (singleLineReplies c) (dataSettings c) (ident c) (ip c) (hostname c) (replies c).
Definition with_failures (v : Z) (c : Client) : Client :=
  MkClient (state c) (user c) (passwordAttempts c) v (renameFrom c) (confirmCommand c) (kickLogin c) (loginGuard c)
    (userUpdated c) (logins c) (workDirectory c) (isTLS c) (tlsControl c) (singleLineReplies c) (dataSettings c) (ident c) (ip c) (hostname c) (replies c).
Definition with_renameFrom (v : option (str * str)) (c : Client) : Client :=
  MkClient (state c) (user c) (passwordAttempts c) (failures c) v (confirmCommand c) (kickLogin c) (loginGuard c)
    (userUpdated c) (logins c) (workDirectory c) (isTLS c) (tlsControl c) (singleLineReplies c) (dataSettings c) (ident c) (ip c) (hostname c) (replies c).
Definition with_confirmCommand (v : str) (c : Client) : Client :=
  MkClient (state c) (user c) (passwordAttempts c) (failures c) (renameFrom c) v (kickLogin c) (loginGuard c)
    (userUpdated c) (logins c) (workDirectory c) (isTLS c) (tlsControl c) (singleLineReplies c) (dataSettings c) (ident c) (ip c) (hostname c) (replies c).
Definition with_kickLogin (v : bool) (c : Client) : Client :=
  MkClient (state c) (user c) (passwordAttempts c) (failures c) (renameFrom c) (confirmCommand c) v (loginGuard c)
    (userUpdated c) (logins c) (workDirectory c) (isTLS c) (tlsControl c) (singleLineReplies c) (dataSettings c) (ident c) (ip c) (hostname c) (replies c).
Definition with_loginGuard (v : bool) (c : Client) : Client :=
  MkClient (state c) (user c) (passwordAttempts c) (failures c) (renameFrom c) (confirmCommand c) (kickLogin c) v
    (userUpdated c) (logins c) (workDirectory c) (isTLS c) (tlsControl c) (singleLineReplies c) (dataSettings c) (ident c) (ip c) (hostname c) (replies c).
Definition with_userUpdated (v : bool) (c : Client) : Client :=
  MkClient (state c) (user c) (passwordAttempts c) (failures c) (renameFrom c) (confirmCommand c) (kickLogin c) (loginGuard c)
    v (logins c) (workDirectory c) (isTLS c) (tlsControl c) (singleLineReplies c) (dataSettings c) (ident c) (ip c) (hostname c) (replies c).
Definition with_logins (v : Totals) (c : Client) : Client :=
  MkClient (state c) (user c) (passwordAttempts c) (failures c) (renameFrom c) (confirmCommand c) (kickLogin c) (loginGuard c)
    (userUpdated c) v (workDirectory c) (isTLS c) (tlsControl c) (singleLineReplies c) (dataSettings c) (ident c) (ip c) (hostname c) (replies c).
Definition with_workDirectory (v : str) (c : Client) : Client :=
  MkClient (state c) (user c) (passwordAttempts c) (failures c) (renameFrom c) (confirmCommand c) (kickLogin c) (loginGuard c)
    (userUpdated c) (logins c) v (isTLS c) (tlsControl c) (singleLineReplies c) (dataSettings c) (ident c) (ip c) (hostname c) (replies c).
Definition with_isTLS (v : bool) (c : Client) : Client :=
  MkClient (state c) (user c) (passwordAttempts c) (failures c) (renameFrom c) (confirmCommand c) (kickLogin c) (loginGuard c)
    (userUpdated c) (logins c) (workDirectory c) v (tlsControl c) (singleLineReplies c) (dataSettings c) (ident c) (ip c) (hostname c) (replies c).
Definition with_tlsControl (v : ACL) (c : Client) : Client :=
  MkClient (state c) (user c) (passwordAttempts c) (failures c) (renameFrom c) (confirmCommand c) (kickLogin c) (loginGuard c)
    (userUpdated c) (logins c) (workDirectory c) (isTLS c) v (singleLineReplies c) (dataSettings c) (ident c) (ip c) (hostname c) (replies c).
Definition with_singleLineReplies (v : bool) (c : Client) : Client :=
  MkClient (state c) (user c) (passwordAttempts c) (failures c) (renameFrom c) (confirmCommand c) (kickLogin c) (loginGuard c)
    (userUpdated c) (logins c) (workDirectory c) (isTLS c) (tlsControl c) v (dataSettings c) (ident c) (ip c) (hostname c) (replies c).
Definition with_dataSettings (v : DataSettings) (c : Client) : Client :=
  MkClient (state c) (user c) (passwordAttempts c) (failures c) (renameFrom c) (confirmCommand c) (kickLogin c) (loginGuard c)
    (userUpdated c) (logins c) (workDirectory c) (isTLS c) (tlsControl c) (singleLineReplies c) v (ident c) (ip c) (hostname c) (replies c).
Definition with_ident (v : str) (c : Client) : Client :=
  MkClient (state c) (user c) (passwordAttempts c) (failures c) (renameFrom c) (confirmCommand c) (kickLogin c) (loginGuard c)
    (userUpdated c) (logins c) (workDirectory c) (isTLS c) (tlsControl c) (singleLineReplies c) (dataSettings c) v (ip c) (hostname c) (replies c).
Definition with_ip (v : str) (c : Client) : Client :=
  MkClient (state c) (user c) (passwordAttempts c) (failures c) (renameFrom c) (confirmCommand c) (kickLogin c) (loginGuard c)
    (userUpdated c) (logins c) (workDirectory c) (isTLS c) (tlsControl c) (singleLineReplies c) (dataSettings c) (ident c) v (hostname c) (replies c).
Definition with_hostname (v : str) (c : Client) : Client :=
  MkClient (state c) (user c) (passwordAttempts c) (failures c) (renameFrom c) (confirmCommand c) (kickLogin c) (loginGuard c)
    (userUpdated c) (logins c) (workDirectory c) (isTLS c) (tlsControl c) (singleLineReplies c) (dataSettings c) (ident c) (ip c) v (replies c).
Definition with_replies (v : list (Z * str)) (c : Client) : Client :=
  MkClient (state c) (user c) (passwordAttempts c) (failures c) (renameFrom c) (confirmCommand c) (kickLogin c) (loginGuard c)
    (userUpdated c) (logins c) (workDirectory c) (isTLS c) (tlsControl c) (singleLineReplies c) (dataSettings c) (ident c) (ip c) (hostname c) v.


Definition reply (code : Z) (message : str) (c : Client) : Client :=
  with_replies (replies c ++ [(code, message)]) c.

Definition SetProtection (b : bool) (d : DataSettings) : DataSettings :=
  {| protection := b; restartOffset := restartOffset d; dataType := dataType d; sscnMode := sscnMode d |}.
Definition SetRestartOffset (n : Z) (d : DataSettings) : DataSettings :=
  {| protection := protection d; restartOffset := n; dataType := dataType d; sscnMode := sscnMode d |}.
Definition SetDataType (t : DataType) (d : DataSettings) : DataSettings :=
  {| protection := protection d; restartOffset := restartOffset d; dataType := t; sscnMode := sscnMode d |}.
Definition SetSSCNMode (m : SSCNMode) (d : DataSettings) : DataSettings :=
  {| protection := protection d; restartOffset := restartOffset d; dataType := dataType d; sscnMode := m |}.

(** ** What a session asks of the rest of the server *)

(** How a command ends: it returns, or it throws; [OtherError] is an exception
    that [ExecuteCommand] does not catch. *)
Inductive cmd_error : Type := SyntaxError | NoPostScriptError | OtherError.

Inductive CscriptType : Type := Pre | Post.

(** The effects a command of another part of the server can have on the
    session. *)
Record Effect := {
  eff_error : option cmd_error;
  eff_replies : list (Z * str);
  eff_finish : bool;
  eff_user : UserData;
  eff_confirm : str;
  eff_workDirectory : str;
  eff_singleLine : bool;
  eff_data : DataSettings
}.

(** [W] is everything else: files, database, data connections, the other sessions.
    [SaveLoggedIn] writes the record of a login ([User::SaveLoggedIn], which keeps
    errors of the database to itself), [LoginKick] is the task that interrupts
    another session of a user, and the scripts are programs that may do anything. *)
Record Server (W : Type) := {
  Load : str → result str (option UserData);
  LoadID : Z → option UserData;
  GIDToName : Z → str;
  HashPassword : str → str → str;
  strerror : Z → str;
  IdentIPAllowed : Z → str → bool;
  IPAllowed : str → bool;
  IsSiteopOnly : bool;
  TLSServerContext : bool;
  TLSClientContext : bool;
  handshake : bool;
  ChangeDirectory : UserData → str → result str str;
  today : Z;
  now : Z;
  maxUsers : Z;
  SaveLoggedIn : UserData → W → W;
  LoginKick : Z → W → (bool * str * Z) * W;
  welcome : UserData → str;
  goodbye : UserData → option str;
  Cscripts : CscriptType → str → str → W → (bool * list (Z * str)) * W;
  PathFromUser : str → str → option str;
  RenameAllowed : UserData → str → error;
  MoveAllowed : UserData → str → error;
  Filter : UserData → str → error;
  IsDirectory : W → str → result str bool;
  MakedirAllowed : UserData → str → error;
  UploadAllowed : UserData → str → error;
  RenameFile : bool → str → str → W → error * W;
  run_other : str → str → list str → Client → UserData → W → Effect * W
}.
Arguments Load {W} s name : rename.
Arguments LoadID {W} s uid : rename.
Arguments GIDToName {W} s gid : rename.
Arguments HashPassword {W} s pw salt : rename.
Arguments strerror {W} s errno : rename.
Arguments IdentIPAllowed {W} s uid mask : rename.
Arguments IPAllowed {W} s addr : rename.
Arguments IsSiteopOnly {W} s : rename.
Arguments TLSServerContext {W} s : rename.
Arguments TLSClientContext {W} s : rename.
Arguments handshake {W} s : rename.
Arguments ChangeDirectory {W} s u path : rename.
Arguments today {W} s : rename.
Arguments now {W} s : rename.
Arguments maxUsers {W} s : rename.
Arguments SaveLoggedIn {W} s u w : rename.
Arguments LoginKick {W} s uid w : rename.
Arguments welcome {W} s u : rename.
Arguments goodbye {W} s u : rename.
Arguments Cscripts {W} s t name command w : rename.
Arguments PathFromUser {W} s cwd path : rename.
Arguments RenameAllowed {W} s u path : rename.
Arguments MoveAllowed {W} s u path : rename.
Arguments Filter {W} s u name : rename.
Arguments IsDirectory {W} s w path : rename.
Arguments MakedirAllowed {W} s u path : rename.
Arguments UploadAllowed {W} s u path : rename.
Arguments RenameFile {W} s dir old new w : rename.
Arguments run_other {W} s name argStr args c u w : rename.

Section session.
Context {W : Type} `{Split, Trim, CaseConv, Fnmatch}.
Implicit Types (s : Server W) (c : Client) (w : W).

(** [util::Error::Message] *)
Definition Message s (e : error) : str :=
  match e with
  | Success => strerror s 0
  | FailureErrno n => strerror s n
  | FailureMsg m => m
  end.

(** ** ClientImpl *)

(** [LoginGuard::Login] *)
Definition LoginGuard_Login s (u : UserData) (kicked : bool) c : CounterResult * Client :=
  let '(result, l) :=
    LoginCounter.Start (maxUsers s) (id u) (numLogins u) kicked (logins c) in
  let c := with_logins l c in
  match result with
  | Okay => (Okay, with_loginGuard true c)
  | _ => (result, c)
  end.

Definition LoginGuard_Logout (u : UserData) c : Client :=
  with_loginGuard false (with_logins (Stop (id u) (logins c)) c).

(** [SetState]: leaving [LoggedIn] for [Finished] logs out. *)
Definition SetState (st : ClientState) c : Client :=
  let logout := bool_decide (st = Finished) && bool_decide (state c = LoggedIn) in
  let c := with_state st c in
  if logout then match user c with Some u => LoginGuard_Logout u c | None => c end else c.

(** [SetLoggedIn]: [Throw] is the [util::RuntimeError] it raises. *)
Definition SetLoggedIn s (u : UserData) (kicked : bool) c : result str unit * Client :=
  let '(r, c) := LoginGuard_Login s u kicked c in
  match r with
  | PersonalFail =>
      (Throw (lit "You've reached your maximum of " ++ to_string (numLogins u) ++ lit " login(s)."), c)
  | GlobalFail =>
      (Throw (lit "The server has reached it's maximum number of logged in users."), c)
  | Okay => (Ok tt, with_state LoggedIn c)
  end.

Definition SetWaitingPassword (u : UserData) (kick : bool) c : Client :=
  with_kickLogin kick (with_user (Some u) (with_state WaitingPassword c)).

Definition CheckState (reqd : ClientState) c : bool * Client :=
  if decide (state c = reqd ∨ reqd = AnyState) then (true, c)
  else match state c with
  | LoggedIn => (false, reply Code.NotLoggedIn (lit "Already logged in.") c)
  | WaitingPassword => (false, reply Code.BadCommandSequence (lit "Expecting PASS comamnd.") c)
  | st =>
      if bool_decide (st = LoggedOut) && bool_decide (reqd = WaitingPassword)
      then (false, reply Code.BadCommandSequence (lit "Expecting USER command first.") c)
      else if decide (reqd = NotBeforeAuth) then
        if isTLS c then (true, c)
        else (false, reply Code.BadCommandSequence (lit "AUTH command must be issued first.") c)
      else if decide (st = LoggedOut)
      then (false, reply Code.NotLoggedIn (lit "Not logged in.") c)
      else (false, c)
  end.

Definition maxPasswordAttempts : Z := 3.

(** [VerifyPassword].  A salt that [HexDecode] cannot read has an undefined
    value in the code; here no password verifies against it. *)
Definition VerifyPassword_ s (u : UserData) (password : str) c : bool * Client :=
  let ok := default false (VerifyPassword (HashPassword s) u password) in
  (ok, with_failures (if ok then failures c else failures c + 1)
         (with_passwordAttempts (passwordAttempts c + 1) c)).

Definition PasswordAttemptsExceeded c : bool := maxPasswordAttempts <=? passwordAttempts c.

Definition PostCheckAddress s (u : UserData) c : bool :=
  IdentIPAllowed s (id u) (ident c ++ lit "@" ++ ip c) ||
  (bool_decide (ip c ≠ hostname c) &&
   IdentIPAllowed s (id u) (ident c ++ lit "@" ++ hostname c)).

Definition PreCheckAddress s c : bool :=
  negb (negb (IPAllowed s (ip c)) &&
        (bool_decide (ip c ≠ hostname c) && negb (IPAllowed s (hostname c)))).

(** [IdntParse] and [IdntUpdate]; [parse_ip] gives the address in the form
    [ToString] prints after unmapping, or [None] if it is invalid. *)
Definition IdntUpdate (parse_ip : str → option str) (id_ ip_ host : str) c : bool * Client :=
  match parse_ip ip_ with
  | None => (false, c)
  | Some ip_ =>
      let c := with_ip ip_ (with_ident id_ c) in
      (true, if decide (ip_ ≠ host) then with_hostname host c else c)
  end.

Definition IdntParse (parse_ip : str → option str) (command : str) c : bool * Client :=
  match Split_ command (lit " ") false with
  | [_; arg] =>
      match find "@"%char arg, find_last_of ":"%char arg with
      | Some pos1, Some pos2 =>
          if (pos2 <=? pos1)%nat then (false, c)
          else
            let id_ := substr arg 0 pos1 in
            let ip_ := substr arg (pos1 + 1) (pos2 - pos1 - 1) in
            let host := drop (pos2 + 1) arg in
            if decide (id_ = [] ∨ host = [] ∨ ip_ = []) then (false, c)
            else IdntUpdate parse_ip id_ ip_ host c
      | _, _ => (false, c)
      end
  | _ => (false, c)
  end.

(** [ConfirmCommand]: a dangerous command must be given twice. *)
Definition ConfirmCommand (argStr : str) c : bool * Client :=
  let command := CompressWhitespace argStr in
  if decide (command ≠ confirmCommand c) then (false, with_confirmCommand command c)
  else (true, with_confirmCommand [] c).

(** ** Commands on the session *)

(** A command returns, or throws. *)
Definition Exec : Type := (option cmd_error * Client)%type.

Definition arg1 (args : list str) : str := nth 1 args [].

Definition USERCommand s (argStr : str) c : Exec :=
  let kick := bool_decide (char_at argStr 0 = "!"%char) in
  let argStr := if kick then drop 1 argStr else argStr in
  match Load s argStr with
  | Throw message => (None, reply Code.NotLoggedIn message c)
  | Ok None => (None, reply Code.NotLoggedIn (lit "User " ++ argStr ++ lit " access denied.") c)
  | Ok (Some u) =>
      if HasFlag u Template
      then (None, reply Code.NotLoggedIn (lit "User " ++ argStr ++ lit " access denied.") c)
      else
        let '(enforced, acl) := Evaluate (tlsControl c) (User_ACLInfo u (GIDToName s)) in
        let c := with_tlsControl acl c in
        if enforced && negb (isTLS c)
        then (None, reply Code.NotLoggedIn (lit "TLS is enforced on control connections.") c)
        else
          let c := SetWaitingPassword u kick c in
          (None, reply Code.NeedPassword (lit "Password required for " ++ argStr ++ lit ".") c)
  end.

(** [os << kicked]: a bool *)
Definition show_bool (b : bool) : str := if b then lit "1" else lit "0".

(** The end of [PASSCommand::Execute], once the user has proved everything. *)
Definition PASS_login s (u : UserData) c w : Exec * W :=
  let '(used, l) := if kickLogin c then LoginCounter.LoginsUsed (id u) (numLogins u) (logins c)
                    else (false, logins c) in
  let c := with_logins l c in
  let '((kicked, idle, n), w) := if used then LoginKick s (id u) w else ((false, [], 0), w) in
  let '(r, c) := SetLoggedIn s u kicked c in
  match r with
  | Throw message =>
      ((None, SetState Finished (reply Code.ServiceUnavailable message c)), w)
  | Ok _ =>
      let os := if kickLogin c && negb (singleLineReplies c)
                then lit "Kicked " ++ show_bool kicked ++ lit " (idle " ++ idle ++ lit ") of "
                     ++ to_string n ++ lit " login(s)." ++ [LF]
                else [] in
      let u := Transaction.set f_lastLogin (Some (now s))
                 (Transaction.set f_loggedIn (loggedIn u + 1) u) in
      let c := with_user (Some u) c in
      ((None, reply Code.UserLoggedIn
                (os ++ welcome s u ++ lit "User " ++ name u ++ lit " logged in.") c), SaveLoggedIn s u w)
  end.

Definition PASSCommand s (argStr : str) c w : Exec * W :=
  let '(argStr, c) := if decide (char_at argStr 0 = "-"%char)
                      then (drop 1 argStr, with_singleLineReplies true c) else (argStr, c) in
  if decide (argStr = []) then ((Some SyntaxError, c), w)
  else match user c with
  | None => ((Some OtherError, c), w) (* dereferences boost::none *)
  | Some u =>
      let '(ok, c) := VerifyPassword_ s u argStr c in
      if negb ok then
        if PasswordAttemptsExceeded c then
          ((None, SetState Finished
             (reply Code.NotLoggedIn (lit "Password attempts exceeded, disconnecting.") c)), w)
        else ((None, SetState LoggedOut (reply Code.NotLoggedIn (lit "Login incorrect.") c)), w)
      else if negb (PostCheckAddress s u c) then
        ((None, SetState Finished
           (reply Code.ServiceUnavailable (lit "Login not allowed from " ++ ident c ++ lit "@" ++
              (if decide (hostname c = []) then ip c else hostname c) ++ lit "(" ++ ip c ++ lit ").") c)), w)
      else if HasFlag u Deleted then
        ((None, SetState Finished
           (reply Code.ServiceUnavailable (lit "You have been deleted. Goodbye.") c)), w)
      else if IsSiteopOnly s && negb (HasFlag u Siteop) then
        ((None, reply Code.ServiceUnavailable (lit "Server has been shutdown.") c), w)
      else
        match (match ChangeDirectory s u (startUpDir u) with
               | Ok d => Ok d
               | Throw _ => ChangeDirectory s u (homeDir u)
               end) with
        | Throw m =>
            ((None, SetState Finished
               (reply Code.ServiceUnavailable (lit "Unable to change to site root directory: " ++ m) c)), w)
        | Ok dir =>
            let c := with_workDirectory dir c in
            if Expired u (today s) then
              ((None, SetState Finished
                 (reply Code.ServiceUnavailable (lit "Your account has expired.") c)), w)
            else PASS_login s u c w
        end
  end.

Definition QUITCommand s c : Exec :=
  let '(bye, c) :=
    match state c, user c with
    | LoggedIn, Some u =>
        match goodbye s u with
        | Some text => (text, reply Code.ClosingControl text c)
        | None => ([], c)
        end
    | _, _ => ([], c)
    end in
  let c := if decide (bye = []) then reply Code.ClosingControl (lit "Bye bye") c else c in
  (None, SetState Finished c).

Definition AUTHCommand s (args : list str) c : Exec :=
  if negb (TLSServerContext s)
  then (None, reply Code.ParameterNotImplemented (lit "TLS is not enabled.") c)
  else
    let ssl := bool_decide (arg1 args = lit "SSL") in
    let c := if ssl then with_dataSettings (SetProtection true (dataSettings c)) c else c in
    if negb ssl && bool_decide (arg1 args ≠ lit "TLS")
    then (None, reply Code.ParameterNotImplemented
                  (lit "AUTH " ++ arg1 args ++ lit " is unsupported.") c)
    else
      let c := reply Code.SecurityExchangeOkay (lit "AUTH " ++ arg1 args ++ lit " successful.") c in
      if handshake s then (None, with_isTLS true c) else (Some OtherError, c).

Definition PROTCommand s (args : list str) c : Exec :=
  let a := arg1 args in
  (None,
   if decide (a = lit "P") then
     if negb (TLSServerContext s) || negb (TLSClientContext s)
     then reply Code.ParameterNotImplemented (lit "TLS is not enabled.") c
     else reply Code.CommandOkay (lit "Protection type set to 'private'.")
            (with_dataSettings (SetProtection true (dataSettings c)) c)
   else if decide (a = lit "C") then
     reply Code.CommandOkay (lit "Protection type set to 'clear'.")
       (with_dataSettings (SetProtection false (dataSettings c)) c)
   else if decide (a = lit "S") then
     reply Code.ParameterNotImplemented (lit "Protection type 'secure' not implemented.") c
   else if decide (a = lit "E") then
     reply Code.ParameterNotImplemented (lit "Protection type 'confidential' not implemented.") c
   else reply Code.SyntaxError (lit "Unrecognised protection type.") c).

Definition PBSZCommand (args : list str) c : Exec :=
  (None, if decide (arg1 args ≠ lit "0")
         then reply Code.ParameterNotImplemented (lit "Only protection buffer size 0 supported.") c
         else reply Code.CommandOkay (lit "Protection buffer size set to 0.") c).

Definition RESTCommand (args : list str) c : Exec :=
  let invalid := reply Code.InvalidRESTParameter
                   (lit "Invalid parameter, restart offset set to 0.") in
  match StrToInt (arg1 args) with
  | Some restart =>
      if restart <? 0
      then (None, with_dataSettings (SetRestartOffset 0 (dataSettings c)) (invalid c))
      else
        (None, reply Code.CommandOkay (lit "Restart offset set to " ++ to_string restart ++ lit ".")
                 (with_dataSettings (SetRestartOffset restart (dataSettings c)) c))
  | None => (None, with_dataSettings (SetRestartOffset 0 (dataSettings c)) (invalid c))
  end.

Definition TYPECommand (args : list str) c : Exec :=
  let a := arg1 args in
  if bool_decide (a ≠ lit "I") && bool_decide (a ≠ lit "A")
  then (Some NoPostScriptError,
        reply Code.ParameterNotImplemented (lit "TYPE " ++ a ++ lit " not supported.") c)
  else
    let t := if decide (a = lit "I") then Binary else ASCII in
    (None, reply Code.CommandOkay (lit "TYPE command successful.")
             (with_dataSettings (SetDataType t (dataSettings c)) c)).

Definition MODECommand (args : list str) c : Exec :=
  let a := arg1 args in
  (None,
   if decide (a = lit "S") then reply Code.CommandOkay (lit "Transfer mode set to 'stream'.") c
   else if decide (a = lit "B") then
     reply Code.ParameterNotImplemented (lit "Transfer mode 'block' not implemented.") c
   else if decide (a = lit "C") then
     reply Code.ParameterNotImplemented (lit "Transfer mode 'compressed' not implemented.") c
   else reply Code.SyntaxError (lit "Unrecognised transfer mode.") c).

Definition SSCNCommand (args : list str) c : Exec :=
  let finish c :=
    (None, reply Code.CommandOkay
             (lit "SSCN:" ++ match sscnMode (dataSettings c) with
                             | SSCN_Server => lit "SERVER METHOD"
                             | SSCN_Client => lit "CLIENT METHOD"
                             end) c) in
  match args with
  | [_; a] =>
      let a := to_lower a in
      if decide (a = lit "on") then
        finish (with_dataSettings (SetSSCNMode SSCN_Client (dataSettings c)) c)
      else if decide (a = lit "off") then
        finish (with_dataSettings (SetSSCNMode SSCN_Server (dataSettings c)) c)
      else (Some SyntaxError, c)
  | _ => finish c
  end.

Definition NOOPCommand c : Exec := (None, reply Code.CommandOkay (lit "NOOP command successful.") c).
Definition SYSTCommand c : Exec := (None, reply Code.SystemType (lit "UNIX Type: L8") c).
Definition ABORCommand c : Exec :=
  (None, reply Code.DataClosedOkay (lit "ABOR command successful.") c).
Definition PWDCommand c : Exec :=
  (None, reply Code.PathCreated
           ("034"%char :: workDirectory c ++ "034"%char :: lit " is your working directory.") c).

(** [Reply] of the parts and of the end line; the guard restores single-line
    mode. *)
Definition FEATCommand c : Exec :=
  (None, reply Code.SystemStatus (lit "End.")
    (foldl (λ c line, reply 0 line c)
       (reply Code.SystemStatus (lit "Extended feature support:") c)
       [lit " AUTH TLS"; lit " EPRT"; lit " EPSV"; lit " LPRT"; lit " LPSV"; lit " PBSZ";
        lit " PROT"; lit " MDTM"; lit " SIZE"; lit " SSCN"; lit " CPSV"; lit " MFMT"])).

Definition RNFRCommand s (argStr : str) (u : UserData) c : Exec :=
  match PathFromUser s (workDirectory c) argStr with
  | None => (Some OtherError, c)
  | Some path =>
      let e := RenameAllowed s u path in
      if negb (err_ok e) &&
         (negb (err_errno e =? EACCES) || negb (err_ok (MoveAllowed s u path)))
      then (Some NoPostScriptError,
            reply Code.ActionNotOkay (argStr ++ lit ": " ++ Message s e) c)
      else
        let c := with_renameFrom (Some (path, argStr)) c in
        (None, reply Code.PendingMoreInfo (lit "File exists, ready for destination name.") c)
  end.

Definition RNTOCommand s (argStr : str) (u : UserData) c w : Exec * W :=
  match renameFrom c with
  | None => ((Some NoPostScriptError,
              reply Code.BadCommandSequence (lit "Invalid command sequence.") c), w)
  | Some (oldPath, fromArgStr) =>
      let c := with_renameFrom None c in
      let fail message := ((Some NoPostScriptError, reply Code.ActionNotOkay message c), w) in
      match PathFromUser s (workDirectory c) argStr with
      | None => ((Some OtherError, c), w)
      | Some newPath =>
          if negb (err_ok (Filter s u (Basename newPath)))
          then fail (lit "Path name contains one or more invalid characters.")
          else
            let e1 := if decide (Dirname oldPath ≠ Dirname newPath)
                      then MoveAllowed s u oldPath else Success in
            if negb (err_ok e1) then fail (fromArgStr ++ lit ": " ++ Message s e1)
            else
            let e2 := if decide (Basename oldPath ≠ Basename newPath)
                      then RenameAllowed s u oldPath else Success in
            if negb (err_ok e2) then fail (fromArgStr ++ lit ": " ++ Message s e2)
            else
            match IsDirectory s w oldPath with
            | Throw message => fail (fromArgStr ++ lit ": " ++ message)
            | Ok isDirectory =>
                let e3 := if isDirectory then MakedirAllowed s u newPath
                          else UploadAllowed s u newPath in
                if negb (err_ok e3) then fail (argStr ++ lit ": " ++ Message s e3)
                else
                  let '(e4, w') := RenameFile s isDirectory oldPath newPath w in
                  if negb (err_ok e4)
                  then ((Some NoPostScriptError,
                         reply Code.ActionNotOkay
                           (fromArgStr ++ lit " -> " ++ argStr ++ lit ": " ++ Message s e4) c), w')
                  else ((None, reply Code.FileActionOkay (lit "RNTO command successful.") c), w')
            end
      end
  end.

(** A command of another part of the server: the session changes as its effect
    says, and in no other way. *)
Definition apply_effect (e : Effect) c : Client :=
  let c := with_replies (replies c ++ eff_replies e) c in
  let c := with_user (Some (eff_user e)) c in
  let c := with_confirmCommand (eff_confirm e) c in
  let c := with_workDirectory (eff_workDirectory e) c in
  let c := with_singleLineReplies (eff_singleLine e) c in
  let c := with_dataSettings (eff_data e) c in
  if eff_finish e then SetState Finished c else c.

End session.

(** ** The command table: cmd/rfc/factory.cpp *)

(** What [Create] makes; [Other] is a command that is run through [run_other]. *)
Inductive Creator : Type :=
  | ABOR | AUTH | FEAT | HELP | MODE | NOOP | PASS | PBSZ | PROT | PWD | QUIT | REST
  | RNFR | RNTO | SSCN | SYST | TYPE | USER | Other.

#[export] Instance Creator_eq_dec : EqDecision Creator.
Proof. solve_decision. Defined.

(** [failCode] is [ActionNotOkay] in every row. *)
Record CommandDef := {
  minimumArgs : Z;
  maximumArgs : Z;
  requiredState : ClientState;
  creator : option Creator;
  syntax : str
}.

Definition CheckArgs (d : CommandDef) (args : list str) : bool :=
  let argsSize := Z.of_nat (length args) - 1 in
  (minimumArgs d <=? argsSize) && ((maximumArgs d =? -1) || (argsSize <=? maximumArgs d)).

Definition def (mn mx : Z) (st : ClientState) (k : option Creator) (syn : string) : CommandDef :=
  {| minimumArgs := mn; maximumArgs := mx; requiredState := st; creator := k; syntax := lit syn |}.
Arguments def mn mx st k syn%_string.

Definition not_implemented : CommandDef := def 0 (-1) AnyState None "NOT IMPLEMENTED".

Definition defs : list (str * CommandDef) := [
  (lit "ABOR", def 0 0 AnyState (Some ABOR) "SITE ABOR");
  (lit "ACCT", not_implemented);
  (lit "ADAT", not_implemented);
  (lit "ALLO", not_implemented);
  (lit "APPE", not_implemented);
  (lit "AUTH", def 1 1 LoggedOut (Some AUTH) "SITE AUTH TLS|SSL");
  (lit "CCC", not_implemented);
  (lit "CDUP", def 0 0 LoggedIn (Some Other) "CDUP");
  (lit "CPSV", def 0 0 LoggedIn (Some Other) "CPSV");
  (lit "CWD", def 1 (-1) LoggedIn (Some Other) "CWD <path>");
  (lit "DELE", def 1 (-1) LoggedIn (Some Other) "DELE <path>");
  (lit "ENC", not_implemented);
  (lit "EPRT", def 1 1 LoggedIn (Some Other) "EPRT <port-string>");
  (lit "EPSV", def 0 1 LoggedIn (Some Other) "EPSV [MODE|EXTENDED|NORMAL]");
  (lit "FEAT", def 0 0 AnyState (Some FEAT) "FEAT");
  (lit "HELP", def 0 1 AnyState (Some HELP) "HELP [<command>]");
  (lit "LANG", not_implemented);
  (lit "LIST", def 0 (-1) LoggedIn (Some Other) "LIST [-<options>] [<path>]");
  (lit "LPRT", def 1 1 LoggedIn (Some Other) "LPRT <port-string>");
  (lit "LPSV", def 0 0 LoggedIn (Some Other) "LPSV");
  (lit "MDTM", def 1 (-1) LoggedIn (Some Other) "MDTM <path>");
  (lit "MFF", def 1 (-1) LoggedIn None "MFF <fact> [ ; <fact> ..] <path>");
  (lit "MFCT", def 2 2 LoggedIn None "MFCT <time-val> <path>");
  (lit "MFMT", def 2 2 LoggedIn (Some Other) "MFMT <time-val> <path>");
  (lit "MIC", not_implemented);
  (lit "MKD", def 1 (-1) LoggedIn (Some Other) "MKD <path>");
  (lit "MLSD", not_implemented);
  (lit "MLST", not_implemented);
  (lit "MODE", def 1 1 LoggedIn (Some MODE) "MODE S|B|C");
  (lit "NLST", def 0 (-1) LoggedIn (Some Other) "NLST [-<options>] [<path>]");
  (lit "NOOP", def 0 0 AnyState (Some NOOP) "NOOP");
  (lit "OPTS", not_implemented);
  (lit "PASS", def 0 (-1) WaitingPassword (Some PASS) "PASS <password>");
  (lit "PASV", def 0 0 LoggedIn (Some Other) "PASV");
  (lit "PORT", def 1 1 LoggedIn (Some Other) "PORT <port-string>");
  (lit "PBSZ", def 1 1 AnyState (Some PBSZ) "PBSZ <size>");
  (lit "PROT", def 1 1 AnyState (Some PROT) "PROT C|P");
  (lit "PWD", def 0 0 LoggedIn (Some PWD) "PWD");
  (lit "QUIT", def 0 0 AnyState (Some QUIT) "QUIT");
  (lit "REIN", not_implemented);
  (lit "REST", def 1 1 AnyState (Some REST) "REST <offset>");
  (lit "RETR", def 1 (-1) LoggedIn (Some Other) "RETR <path>");
  (lit "RMD", def 1 (-1) LoggedIn (Some Other) "RMD <path>");
  (lit "RNFR", def 1 (-1) LoggedIn (Some RNFR) "REFR <path>");
  (lit "RNTO", def 1 (-1) LoggedIn (Some RNTO) "RNTO <path>");
  (lit "SITE", def 1 (-1) LoggedIn (Some Other) "STIE <command> [<arguments>..]");
  (lit "SIZE", def 1 (-1) LoggedIn (Some Other) "SIZE <path>");
  (lit "SMNT", not_implemented);
  (lit "SSCN", def 0 1 LoggedIn (Some SSCN) "SSCN [ON|OFF]");
  (lit "STAT", def 0 (-1) LoggedIn (Some Other) "STAT [[-<options] [<path>]]");
  (lit "STOR", def 1 (-1) LoggedIn (Some Other) "STOR <path>");
  (lit "STOU", def 0 0 LoggedIn (Some Other) "STOU");
  (lit "STRU", not_implemented);
  (lit "SYST", def 0 0 LoggedIn (Some SYST) "SYST");
  (lit "TYPE", def 1 1 LoggedIn (Some TYPE) "TYPE I|A");
  (lit "USER", def 1 (-1) LoggedOut (Some USER) "USER <user>")
].

(** [Factory::Lookup] *)
Definition Lookup (command : str) : option CommandDef := assoc command defs.

(** ** Dispatch: [ExecuteCommand], [ReloadUser], [Handle] *)

Definition help_text : str := concat (map (λ l, lit l ++ [LF]) [
  " ebftpd Command listing:"%string;
  "------------------------------------------------------------------"%string;
  " ABOR *ACCT *ADAT *ALLO  APPE  AUTH *CCC   CDUP *CONF  CWD   DELE"%string;
  "*ENC   EPRT  EPSV  FEAT  HELP *LANG  LIST *LPRT *LPSV  MDTM *MIC"%string;
  " MKD  *MLSD *MLST  MODE  NLST  NOOP *OPTS  PASS  PASV  PBSZ  PORT"%string;
  " PROT  PWD   QUIT *REIN *REST  RETR  RMD   RNFR  RNTO  SITE  SIZE"%string;
  "*SMNT  STAT  STOR  STOU *STRU  SYST  TYPE"%string;
  "------------------------------------------------------------------"%string])
  ++ lit "End of list.                         (* Commands not implemented)".

Section dispatch.
Context {W : Type} `{Split, Trim, CaseConv, Fnmatch}.
Implicit Types (s : Server W) (c : Client) (w : W).

Definition HELPCommand (args : list str) c : Exec :=
  (None,
   match args with
   | [_; a] =>
       match Lookup (to_upper a) with
       | None => reply Code.CommandUnrecognised (lit "Command not understood") c
       | Some d => reply Code.CommandOkay (lit "Syntax: " ++ syntax d) c
       end
   | _ => reply Code.HelpMessage help_text c
   end).

(** [command->Execute()] *)
Definition Execute s (k : Creator) (name argStr : str) (args : list str) c w : Exec * W :=
  match k with
  | ABOR => (ABORCommand c, w)
  | AUTH => (AUTHCommand s args c, w)
  | FEAT => (FEATCommand c, w)
  | HELP => (HELPCommand args c, w)
  | MODE => (MODECommand args c, w)
  | NOOP => (NOOPCommand c, w)
  | PASS => PASSCommand s argStr c w
  | PBSZ => (PBSZCommand args c, w)
  | PROT => (PROTCommand s args c, w)
  | PWD => (PWDCommand c, w)
  | QUIT => (QUITCommand s c, w)
  | REST => (RESTCommand args c, w)
  | SSCN => (SSCNCommand args c, w)
  | SYST => (SYSTCommand c, w)
  | TYPE => (TYPECommand args c, w)
  | USER => (USERCommand s argStr c, w)
  | RNFR =>
      match user c with
      | Some u => (RNFRCommand s argStr u c, w)
      | None => ((Some OtherError, c), w)
      end
  | RNTO =>
      match user c with
      | Some u => RNTOCommand s argStr u c w
      | None => ((Some OtherError, c), w)
      end
  | Other =>
      match user c with
      | Some u =>
          let '(e, w) := run_other s name argStr args c u w in
          ((eff_error e, apply_effect e c), w)
      | None => ((Some OtherError, c), w)
      end
  end.

Definition run_cscripts s (t : CscriptType) (name command : str) c w : bool * Client * W :=
  let '((ok, rs), w) := Cscripts s t name command w in (ok, with_replies (replies c ++ rs) c, w).

(** [ExecuteCommand]: [false] when an exception leaves it. *)
Definition ExecuteCommand s (commandLine : str) c w : bool * Client * W :=
  match commandLine with
  | [] => (true, c, w)
  | _ =>
      match Split_ commandLine (lit " ") true with
      | [] => (false, c, w)
      | arg0 :: rest =>
          let argStr := trim (drop (length arg0) commandLine) in
          let name := to_upper arg0 in
          let args := name :: rest in
          let current := match argStr with [] => name | _ => name ++ lit " " ++ argStr end in
          match Lookup name with
          | None => (true, reply Code.CommandUnrecognised (lit "Command not understood") c, w)
          | Some d =>
              if negb (CheckArgs d args)
              then (true, reply Code.SyntaxError (lit "Syntax: " ++ syntax d) c, w)
              else
                let '(ok, c) := CheckState (requiredState d) c in
                let '(ok, c, w) :=
                  if negb ok then (false, c, w)
                  else if decide (state c ≠ LoggedIn) then (true, c, w)
                  else run_cscripts s Pre name current c w in
                if negb ok then (true, c, w)
                else match creator d with
                | None => (true, reply Code.NotImplemented (lit "Command not implemented") c, w)
                | Some k =>
                    let '((e, c), w) := Execute s k name argStr args c w in
                    match e with
                    | None =>
                        if decide (state c = LoggedIn)
                        then let '(_, c, w) := run_cscripts s Post name current c w in (true, c, w)
                        else (true, c, w)
                    | Some SyntaxError =>
                        (true, reply Code.SyntaxError (lit "Syntax: " ++ syntax d) c, w)
                    | Some NoPostScriptError => (true, c, w)
                    | Some OtherError => (false, c, w)
                    end
                end
          end
      end
  end.

Definition ReloadUser s c : bool * Client :=
  let c := with_userUpdated false c in
  match user c with
  | None => (false, c)
  | Some u =>
      match LoadID s (id u) with
      | None => (false, SetState Finished c)
      | Some u' =>
          if HasFlag u' Deleted then (false, SetState Finished c)
          else (true, with_user (Some u') c)
      end
  end.

(** One round of the loop of [Handle] with the command line that arrived.  An
    exception ends the session through the exit guard of [Run]. *)
Definition Handle_round s (command : str) c w : Client * W :=
  let '(go, c) := if userUpdated c then ReloadUser s c else (true, c) in
  if negb go then (SetState Finished c, w)
  else
    let '(ok, c, w) := ExecuteCommand s command c w in
    (if ok then c else SetState Finished c, w).

(** [ClientImpl::ClientImpl] *)
Definition new_Client (acl : ACL) (l : Totals) : Client := {|
  state := LoggedOut; user := None; passwordAttempts := 0; failures := 0;
  renameFrom := None; confirmCommand := []; kickLogin := false; loginGuard := false;
  userUpdated := false; logins := l; workDirectory := lit "/"; isTLS := false;
  tlsControl := acl; singleLineReplies := false;
  dataSettings := {| protection := false; restartOffset := 0; dataType := Binary;
                     sscnMode := SSCN_Server |};
  ident := lit "*"; ip := []; hostname := []; replies := [] |}.

End dispatch.

(** ** The abstract session

    What of a session matters to authentication, and the moves it can make. *)

Record Core := {
  c_state : ClientState;
  c_user : option UserData;
  c_attempts : Z;
  c_failures : Z;
  c_guard : bool;
  c_logins : Totals
}.

Definition core (c : Client) : Core := {|
  c_state := state c; c_user := user c; c_attempts := passwordAttempts c;
  c_failures := failures c; c_guard := loginGuard c; c_logins := logins c |}.

Section abstract.
Context {W : Type} `{Split, Trim, CaseConv, Fnmatch}.
Implicit Types (s : Server W) (c : Client) (w : W) (k : Core).

Definition verifies s (u : UserData) (pw : str) : Prop :=
  VerifyPassword (HashPassword s) u pw = Some true.

(** What [PASS] demands of a user besides the password and the address. *)
Definition admissible s (u : UserData) : Prop :=
  HasFlag u Deleted = false ∧ (IsSiteopOnly s = true → HasFlag u Siteop = true) ∧
  Expired u (today s) = false.

(** The counter [l'] counts the same logins as [l]. *)
Definition same_logins (l l' : Totals) : Prop := ∀ bag, represents l bag → represents l' bag.

Inductive move s : Core → Core → Prop :=
  | move_user k name u :
      c_state k = LoggedOut → Load s name = Ok (Some u) → HasFlag u Template = false →
      move s k {| c_state := WaitingPassword; c_user := Some u; c_attempts := c_attempts k;
                  c_failures := c_failures k; c_guard := c_guard k; c_logins := c_logins k |}
  | move_bad_password k u pw :
      c_state k = WaitingPassword → c_user k = Some u → ¬ verifies s u pw →
      move s k {| c_state := if maxPasswordAttempts <=? c_attempts k + 1 then Finished else LoggedOut;
                  c_user := Some u; c_attempts := c_attempts k + 1;
                  c_failures := c_failures k + 1; c_guard := c_guard k; c_logins := c_logins k |}
  | move_refused k u pw st l :
      c_state k = WaitingPassword → c_user k = Some u → verifies s u pw →
      st = WaitingPassword ∨ st = Finished → same_logins (c_logins k) l →
      move s k {| c_state := st; c_user := Some u; c_attempts := c_attempts k + 1;
                  c_failures := c_failures k; c_guard := c_guard k; c_logins := l |}
  | move_login k u u' pw l kicked l' :
      c_state k = WaitingPassword → c_user k = Some u → verifies s u pw → admissible s u →
      (∃ i h, IdentIPAllowed s (id u) (i ++ lit "@" ++ h) = true) →
      same_logins (c_logins k) l →
      LoginCounter.Start (maxUsers s) (id u) (numLogins u) kicked l = (Okay, l') →
      id u' = id u →
      move s k {| c_state := LoggedIn; c_user := Some u'; c_attempts := c_attempts k + 1;
                  c_failures := c_failures k; c_guard := true; c_logins := l' |}
  | move_finish k :
      c_state k ≠ LoggedIn →
      move s k {| c_state := Finished; c_user := c_user k; c_attempts := c_attempts k;
                  c_failures := c_failures k; c_guard := c_guard k; c_logins := c_logins k |}
  | move_logout k u :
      c_state k = LoggedIn → c_user k = Some u →
      move s k {| c_state := Finished; c_user := c_user k; c_attempts := c_attempts k;
                  c_failures := c_failures k; c_guard := false;
                  c_logins := Stop (id u) (c_logins k) |}
  | move_user_changed k u u' :
      c_user k = Some u → id u' = id u →
      move s k {| c_state := c_state k; c_user := Some u'; c_attempts := c_attempts k;
                  c_failures := c_failures k; c_guard := c_guard k; c_logins := c_logins k |}.

(** The rest of the server does not exchange a session's user for another. *)
Record server_ok s : Prop := {
  LoadID_ok uid u : LoadID s uid = Some u → id u = uid;
  run_other_ok name argStr args c u w :
    id (eff_user (run_other s name argStr args c u w).1) = id u
}.

Abbreviation moves s := (rtc (move s)).

(** At most one move. *)
Definition move1 s (k k' : Core) : Prop := k = k' ∨ move s k k'.

Lemma move1_moves s k k' : move1 s k k' → moves s k k'.
Proof. intros [->|]; [apply rtc_refl | by apply rtc_once]. Qed.

(** A session that is logged in has a user. *)
Definition has_user c : Prop := state c = LoggedIn → user c ≠ None.

Lemma core_SetState_Finished s c : has_user c → move s (core c) (core (SetState Finished c)).
Proof.
  intros Hu. unfold SetState. rewrite (bool_decide_eq_true_2 (Finished = Finished)) by done.
  cbn [andb]. case_bool_decide as Hst.
  - destruct (user c) as [u|] eqn:E; [|by destruct (Hu Hst)].
    change (user (with_state Finished c)) with (user c). rewrite E.
    exact (move_logout s (core c) u Hst E).
  - by apply (move_finish s (core c)).
Qed.

Lemma moves_Finished s c c0 :
  has_user c → core c = core c0 → moves s (core c0) (core (SetState Finished c)).
Proof. intros Hu <-. by apply rtc_once, core_SetState_Finished. Qed.

(** Commands that leave the core alone. *)
Definition passive (k : Creator) : bool :=
  match k with PASS | QUIT | USER | Other => false | _ => true end.

Lemma passive_core s (k : Creator) name argStr args c w :
  passive k = true → core (Execute s k name argStr args c w).1.2 = core c.
Proof.
  intros Hk. destruct k; try discriminate Hk; cbn [Execute fst snd]; try reflexivity;
    unfold AUTHCommand, HELPCommand, MODECommand, PBSZCommand, PROTCommand, RESTCommand,
      SSCNCommand, TYPECommand, RNFRCommand, RNTOCommand;
    repeat (case_match; try reflexivity).
Qed.

Lemma SetState_not_logged_in st c : state c ≠ LoggedIn → SetState st c = with_state st c.
Proof. intros Hc. unfold SetState. by rewrite (bool_decide_eq_false_2 _ Hc), andb_false_r. Qed.

Lemma same_logins_refl l : same_logins l l.
Proof. by intros bag. Qed.

Lemma same_logins_touch uid l : same_logins l (touch uid l).
Proof. intros bag. apply represents_touch. Qed.

Lemma LoginsUsed_same uid limit l : same_logins l (LoginCounter.LoginsUsed uid limit l).2.
Proof.
  unfold LoginCounter.LoginsUsed. case_match; [apply same_logins_touch | apply same_logins_refl].
Qed.

Lemma Start_result mx uid limit kick l :
  (LoginCounter.Start mx uid limit kick l).1 = Okay ∨
  ((LoginCounter.Start mx uid limit kick l).1 = PersonalFail ∧
   same_logins l (LoginCounter.Start mx uid limit kick l).2).
Proof.
  unfold LoginCounter.Start. cbv zeta. destruct (_ && _); [right|by left].
  split; [done | apply same_logins_touch].
Qed.

Lemma USER_moves s argStr c :
  state c = LoggedOut → moves s (core c) (core (USERCommand s argStr c).2).
Proof.
  intros Hst. unfold USERCommand. set (name := if bool_decide _ then _ else _).
  destruct (Load s name) as [[u|]|m] eqn:E; try apply rtc_refl.
  destruct (HasFlag u Template) eqn:Ht; [apply rtc_refl|].
  destruct (Evaluate _ _) as [enforced acl]. cbv zeta.
  destruct (enforced && _); [apply rtc_refl|].
  apply rtc_once. exact (move_user s (core c) name u Hst E Ht).
Qed.

(** What is left of [PASS] once everything is proved. *)
Lemma PASS_login_moves s u pw c0 c w :
  state c0 = WaitingPassword → user c0 = Some u → verifies s u pw → admissible s u →
  (∃ i h, IdentIPAllowed s (id u) (i ++ lit "@" ++ h) = true) →
  core c = {| c_state := WaitingPassword; c_user := Some u; c_attempts := passwordAttempts c0 + 1;
              c_failures := failures c0; c_guard := loginGuard c0; c_logins := logins c0 |} →
  move s (core c0) (core (PASS_login s u c w).1.2).
Proof.
  intros Hst Hu Hv Had Haddr Hc. injection Hc as E1 E2 E3 E4 E5 E6. unfold PASS_login.
  set (lu := if kickLogin c then _ else _).
  assert (Hl : same_logins (logins c0) lu.2).
  { subst lu. rewrite E6. destruct (kickLogin c); [apply LoginsUsed_same | apply same_logins_refl]. }
  destruct lu as [used l]. cbn [snd] in Hl.
  destruct (if used then LoginKick s (id u) w else _) as [[[kicked idle] n] w1].
  unfold SetLoggedIn, LoginGuard_Login. change (logins (with_logins l c)) with l.
  pose proof (Start_result (maxUsers s) (id u) (numLogins u) kicked l) as Hres.
  destruct (LoginCounter.Start _ _ _ _ l) as [r l'] eqn:Es. cbn [fst snd] in Hres.
  destruct Hres as [-> | [-> Hl']]; cbv beta iota zeta.
  - change (core (_, _, _).1.2) with
      {| c_state := LoggedIn;
         c_user := Some (set f_lastLogin (Some (now s)) (set f_loggedIn (loggedIn u + 1) u));
         c_attempts := passwordAttempts c; c_failures := failures c; c_guard := true;
         c_logins := l' |}.
    rewrite E3, E4. eapply (move_login s (core c0)); try done. by destruct u.
  - rewrite SetState_not_logged_in; [|cbn; by rewrite E1].
    change (core (_, _, _).1.2) with
      {| c_state := Finished; c_user := user c; c_attempts := passwordAttempts c;
         c_failures := failures c; c_guard := loginGuard c; c_logins := l' |}.
    rewrite E2, E3, E4, E5. eapply (move_refused s (core c0)); try done; [by right|].
    intros bag Hb. by apply Hl', Hl.
Qed.

Lemma verifies_dec s u pw :
  if default false (VerifyPassword (HashPassword s) u pw) then verifies s u pw
  else ¬ verifies s u pw.
Proof.
  unfold verifies. destruct (VerifyPassword (HashPassword s) u pw) as [[]|]; cbn; done.
Qed.

Lemma PostCheckAddress_addr s u c :
  PostCheckAddress s u c = true → ∃ i h, IdentIPAllowed s (id u) (i ++ lit "@" ++ h) = true.
Proof.
  unfold PostCheckAddress. rewrite orb_true_iff, andb_true_iff. intros [Ha|[_ Ha]]; eauto.
Qed.

(** A session that waits for a password, with the single-line switch set or
    not. *)
Lemma PASS_moves_user s u pw c w :
  state c = WaitingPassword → user c = Some u → pw ≠ [] →
  move1 s (core c) (core (
    let '(ok, c) := VerifyPassword_ s u pw c in
    if negb ok then
      if PasswordAttemptsExceeded c then
        SetState Finished
          (reply Code.NotLoggedIn (lit "Password attempts exceeded, disconnecting.") c)
      else SetState LoggedOut (reply Code.NotLoggedIn (lit "Login incorrect.") c)
    else if negb (PostCheckAddress s u c) then SetState Finished c
    else if HasFlag u Deleted then SetState Finished c
    else if IsSiteopOnly s && negb (HasFlag u Siteop) then c
    else
      match (match ChangeDirectory s u (startUpDir u) with
             | Ok d => Ok d
             | Throw _ => ChangeDirectory s u (homeDir u)
             end) with
      | Throw _ => SetState Finished c
      | Ok dir =>
          if Expired u (today s) then SetState Finished c
          else (PASS_login s u (with_workDirectory dir c) w).1.2
      end)).
Proof.
  intros Hst Hu _. right. unfold VerifyPassword_. pose proof (verifies_dec s u pw) as Hv.
  destruct (default false _); cbv beta iota zeta; cbn [negb].
  2: { pose proof (move_bad_password s (core c) u pw Hst Hu Hv) as Hm. cbn in Hm.
       unfold PasswordAttemptsExceeded. cbn [passwordAttempts with_failures with_passwordAttempts].
       revert Hm. destruct (maxPasswordAttempts <=? passwordAttempts c + 1); intros Hm;
         (rewrite SetState_not_logged_in; [|cbn; by rewrite Hst]);
         unfold core in *; cbn in *; rewrite Hu in Hm |- *; exact Hm. }
  set (c1 := with_failures _ _).
  assert (Hc1 : state c1 = WaitingPassword) by done.
  assert (Hrefused : ∀ st, st = WaitingPassword ∨ st = Finished →
    move s (core c) (core (with_state st c1))).
  { intros st Hfin.
    pose proof (move_refused s (core c) u pw st (logins c) Hst Hu Hv Hfin (same_logins_refl _)) as Hm.
    unfold core in *. cbn in *. rewrite Hu in Hm |- *. exact Hm. }
  assert (Hfinish : move s (core c) (core (SetState Finished c1))).
  { rewrite SetState_not_logged_in by (by rewrite Hc1). apply Hrefused. by right. }
  destruct (PostCheckAddress s u c1) eqn:Ha; cbn [negb]; [|exact Hfinish].
  destruct (HasFlag u Deleted) eqn:Hd; [exact Hfinish|].
  destruct (IsSiteopOnly s && negb (HasFlag u Siteop)) eqn:Hs.
  { assert (E : core c1 = core (with_state WaitingPassword c1)) by (unfold core; cbn; by rewrite Hst).
    rewrite E. apply Hrefused. by left. }
  destruct (match ChangeDirectory s u _ with Ok d => _ | Throw _ => _ end) as [dir|]; [|exact Hfinish].
  destruct (Expired u (today s)) eqn:He; [exact Hfinish|].
  apply (PASS_login_moves s u pw c); [done|done|done| |by eapply PostCheckAddress_addr|].
  - split; [done|]. split; [|done]. intros Hso. rewrite Hso in Hs. by destruct (HasFlag u Siteop).
  - unfold core. cbn. by rewrite Hst, Hu.
Qed.

Lemma core_SetState_reply st code m c : core (SetState st (reply code m c)) = core (SetState st c).
Proof.
  unfold SetState. destruct (bool_decide (st = Finished)); [|done].
  change (state (reply code m c)) with (state c). cbn [andb].
  case_bool_decide; [|done]. change (user (with_state st (reply code m c))) with (user c).
  change (user (with_state st c)) with (user c). by destruct (user c).
Qed.

Lemma core_SetState_workDirectory st d c :
  core (SetState st (with_workDirectory d c)) = core (SetState st c).
Proof.
  unfold SetState. destruct (bool_decide (st = Finished)); [|done].
  change (state (with_workDirectory d c)) with (state c). cbn [andb].
  case_bool_decide; [|done].
  change (user (with_state st (with_workDirectory d c))) with (user c).
  change (user (with_state st c)) with (user c). by destruct (user c).
Qed.

Lemma PASS_move s argStr c w :
  state c = WaitingPassword → move1 s (core c) (core (PASSCommand s argStr c w).1.2).
Proof.
  intros Hst. unfold PASSCommand.
  set (p := if decide (char_at argStr 0 = "-"%char) then _ else _).
  assert (Hp : core p.2 = core c) by (subst p; by case_decide).
  destruct p as [pw c1]. cbn [snd] in Hp. rewrite <- Hp.
  assert (Hst1 : state c1 = WaitingPassword) by (change (c_state (core c1) = WaitingPassword); by rewrite Hp).
  destruct (decide (pw = [])) as [|Hpw]; [by left|].
  destruct (user c1) as [u|] eqn:Hu; [|by left].
  pose proof (PASS_moves_user s u pw c1 w Hst1 Hu Hpw) as Hm.
  destruct (VerifyPassword_ s u pw c1) as [ok c2].
  destruct ok; cbn [negb] in *; [|destruct (PasswordAttemptsExceeded c2); exact Hm].
  destruct (PostCheckAddress s u c2); cbn [negb fst snd] in *; [|by rewrite core_SetState_reply].
  destruct (HasFlag u Deleted); [cbn [fst snd]; by rewrite core_SetState_reply|].
  destruct (IsSiteopOnly s && _); [exact Hm|].
  destruct (match ChangeDirectory s u _ with Ok d => _ | Throw _ => _ end);
    [|cbn [fst snd]; by rewrite core_SetState_reply].
  destruct (Expired u (today s)); [|exact Hm].
  cbn [fst snd]. by rewrite core_SetState_reply, core_SetState_workDirectory.
Qed.

(** *** Invariants of the abstract session *)

Record core_ok (k : Core) : Prop := {
  ok_user : c_state k = LoggedIn ∨ c_state k = WaitingPassword → c_user k ≠ None;
  ok_guard : c_guard k = bool_decide (c_state k = LoggedIn);
  ok_failures : 0 ≤ c_failures k ≤ c_attempts k;
  ok_locked : maxPasswordAttempts <= c_failures k → c_state k = Finished;
  ok_max : c_failures k ≤ maxPasswordAttempts;
  ok_state : c_state k ≠ NotBeforeAuth ∧ c_state k ≠ AnyState
}.

Lemma move_core_ok s k k' : move s k k' → core_ok k → core_ok k'.
Proof.
  unfold maxPasswordAttempts. intros Hm [Hu Hg Hf Hl Hx Hs]. unfold maxPasswordAttempts in *.
  destruct Hm as [k name u Hst _ _|k u pw Hst _ _|k u pw st l Hst _ _ Hor _
                 |k u u' pw l kicked l' Hst _ _ _ _ _ _ _|k Hst|k u Hst _|k u u' Hk _].
  all: split; cbn [c_state c_user c_attempts c_failures c_guard c_logins]; rewrite ?Hst in *.
  all: try (case_match; lia || done).
  all: try done; try lia; try (intros [|]; done).
  all: try (case_match; lia || done).
  all: try (by destruct Hor as [-> | ->]).
  all: try (intros Ha; specialize (Hl Ha); congruence).
  - unfold maxPasswordAttempts. enough (¬ 3 ≤ c_failures k) by lia.
    intros Ha. by specialize (Hl Ha).
  - rewrite Hg. by rewrite bool_decide_eq_false_2.
Qed.

Lemma moves_core_ok s k k' : moves s k k' → core_ok k → core_ok k'.
Proof. induction 1 as [|k k1 k' Hm _ IH]; eauto using move_core_ok. Qed.

Lemma core_ok_has_user c : core_ok (core c) → has_user c.
Proof. intros Hok Hst. apply (ok_user _ Hok). by left. Qed.

(** *** Every command is a sequence of moves *)

Definition creator_state (k : Creator) : option ClientState :=
  match k with
  | PASS => Some WaitingPassword
  | USER => Some LoggedOut
  | Other | RNFR | RNTO => Some LoggedIn
  | _ => None
  end.

(** Each command that acts on the session or beyond demands its state. *)
Definition def_ok (d : CommandDef) : bool :=
  match creator d with
  | Some k =>
      match creator_state k with
      | Some st => bool_decide (requiredState d = st)
      | None => true
      end
  | None => true
  end.

Lemma Lookup_ok name d (k : Creator) st :
  Lookup name = Some d → creator d = Some k → creator_state k = Some st → requiredState d = st.
Proof.
  intros Hd%assoc_in Hk Hst.
  assert (Hall : forallb (λ p, def_ok p.2) defs = true) by (vm_compute; reflexivity).
  rewrite forallb_forall in Hall. apply list_elem_of_In, Hall in Hd. cbn [snd] in Hd.
  unfold def_ok in Hd. rewrite Hk, Hst in Hd. by apply bool_decide_eq_true in Hd.
Qed.

Lemma QUIT_moves s c : has_user c → moves s (core c) (core (QUITCommand s c).2).
Proof.
  intros Hu. unfold QUITCommand.
  set (p := match state c with LoggedIn => _ | _ => _ end).
  assert (Hp : core p.2 = core c).
  { subst p. destruct (state c), (user c); try reflexivity. by destruct (goodbye s _). }
  destruct p as [bye c1]. cbn [snd] in *.
  assert (Hu1 : has_user c1).
  { unfold has_user. change (state c1) with (c_state (core c1)).
    change (user c1) with (c_user (core c1)). by rewrite Hp. }
  case_decide; [rewrite core_SetState_reply|]; rewrite <- Hp;
    by apply rtc_once, core_SetState_Finished.
Qed.

Lemma Other_moves s e u c :
  user c = Some u → id (eff_user e) = id u → moves s (core c) (core (apply_effect e c)).
Proof.
  intros Hu Hid. unfold apply_effect.
  set (c1 := with_dataSettings _ _).
  assert (Hm : move s (core c) (core c1)).
  { exact (move_user_changed s (core c) u (eff_user e) Hu Hid). }
  destruct (eff_finish e); [|by apply rtc_once].
  eapply rtc_l; [exact Hm|]. by apply rtc_once, core_SetState_Finished.
Qed.

Lemma Execute_moves s (k : Creator) name argStr args c w :
  server_ok s → has_user c → (∀ st, creator_state k = Some st → state c = st) →
  moves s (core c) (core (Execute s k name argStr args c w).1.2).
Proof.
  intros Hs Hu Hst. destruct (passive k) eqn:Hk.
  { rewrite passive_core by done. apply rtc_refl. }
  destruct k; try discriminate Hk; cbn [Execute fst snd].
  - by apply move1_moves, PASS_move, Hst.
  - by apply QUIT_moves.
  - by apply USER_moves, Hst.
  - destruct (user c) as [u|] eqn:E; [|apply rtc_refl].
    pose proof (run_other_ok s Hs name argStr args c u w) as Hid.
    destruct (run_other s name argStr args c u w) as [e w']. cbn in *. by eapply Other_moves.
Qed.

Lemma CheckState_core reqd c :
  core (CheckState reqd c).2 = core c ∧
  ((CheckState reqd c).1 = true → reqd ≠ NotBeforeAuth → state c = reqd ∨ reqd = AnyState).
Proof.
  unfold CheckState. case_decide as Hd; [by split|].
  destruct (state c) eqn:E; cbn; try by split.
  all: repeat (case_match; cbn); split; try done; intros; done.
Qed.

Lemma run_cscripts_core s t name command c w :
  core (run_cscripts s t name command c w).1.2 = core c ∧
  renameFrom (run_cscripts s t name command c w).1.2 = renameFrom c.
Proof. unfold run_cscripts. by destruct (Cscripts s t name command w) as [[] ]. Qed.

(** What [ExecuteCommand] comes to: it only replies, or it executes one command
    of the table in the state the command demands, between scripts. *)
Lemma ExecuteCommand_cases s line c w (P : bool → Client → W → Prop) :
  (∀ ok c' w', core c' = core c → (state c ≠ LoggedIn → w' = w) → P ok c' w') →
  (∀ (k : Creator) arg0 rest d argStr args c1 e c2 c3 w1 w2 w3 ok,
     Split_ line (lit " ") true = arg0 :: rest → Lookup (to_upper arg0) = Some d → creator d = Some k →
     argStr = trim (drop (length arg0) line) →
     core c1 = core c → ident c1 = ident c ∧ ip c1 = ip c ∧ hostname c1 = hostname c ∧ kickLogin c1 = kickLogin c →
     (state c ≠ LoggedIn → w1 = w) →
     (∀ st, creator_state k = Some st → state c1 = st) →
     Execute s k (to_upper arg0) argStr args c1 w1 = ((e, c2), w2) → core c3 = core c2 →
     w3 = w2 ∨ (state c2 = LoggedIn ∧ ∃ current, w3 = snd (Cscripts s Post (to_upper arg0) current w2)) →
     ok = true ∨ e = Some OtherError → P ok c3 w3) →
  let '(ok, c', w') := ExecuteCommand s line c w in P ok c' w'.
Proof.
  intros Hsame Hexec. unfold ExecuteCommand. destruct line as [|ch line]; [by apply Hsame|].
  destruct (Split_ _ _ _) as [|arg0 rest] eqn:Hsplit; [by apply Hsame|].
  destruct (Lookup (to_upper arg0)) as [d|] eqn:Hd; [|by apply Hsame].
  destruct (CheckArgs d _); cbn [negb]; [|by apply Hsame].
  pose proof (CheckState_core (requiredState d) c) as [Hc Hok].
  assert (Hren : ident (CheckState (requiredState d) c).2 = ident c ∧ ip (CheckState (requiredState d) c).2 = ip c ∧
    hostname (CheckState (requiredState d) c).2 = hostname c ∧ kickLogin (CheckState (requiredState d) c).2 = kickLogin c).
  { unfold CheckState. repeat (case_match; try done). }
  destruct (CheckState (requiredState d) c) as [ok c1]. cbn [fst snd] in *.
  destruct ok; cbn [negb]; [|by apply Hsame].
  assert (Hst1 : state c1 = state c) by exact (f_equal c_state Hc).
  set (name := to_upper arg0) in *.
  set (scripts := if decide (state c1 ≠ LoggedIn) then _ else _).
  assert (Hs : core scripts.1.2 = core c ∧ (ident scripts.1.2 = ident c ∧ ip scripts.1.2 = ip c ∧
    hostname scripts.1.2 = hostname c ∧ kickLogin scripts.1.2 = kickLogin c) ∧ (state c ≠ LoggedIn → scripts.2 = w)).
  { subst scripts. case_decide as Hn; [done|]. split_and!; try (unfold run_cscripts; by destruct (Cscripts _ _ _ _ _) as [[] ]; cbn; destruct Hren as (?&?&?&?)).
    intros Hn'. by rewrite Hst1 in Hn. }
  destruct scripts as [[ok c2] w1]. cbn [fst snd] in Hs. destruct Hs as (Hs1 & Hs2 & Hs3).
  destruct ok; cbn [negb]; [|by apply Hsame].
  destruct (creator d) as [k|] eqn:Hk; [|by apply Hsame].
  assert (Hst : ∀ st, creator_state k = Some st → state c2 = st).
  { intros st Ek. pose proof (Lookup_ok _ _ _ _ Hd Hk Ek) as Hreq.
    change (state c2) with (c_state (core c2)). rewrite Hs1.
    assert (st ≠ NotBeforeAuth ∧ st ≠ AnyState) as [H3 H4].
    { destruct k; cbn in Ek; (discriminate Ek || injection Ek as <-); by split. }
    rewrite Hreq in Hok. destruct (Hok eq_refl H3) as [Hst|]; done. }
  destruct (Execute s k name _ _ c2 w1) as [[e c3] w2] eqn:He.
  assert (Hdone : ∀ ok c' w', core c' = core c3 →
    w' = w2 ∨ (state c3 = LoggedIn ∧ ∃ current, w' = snd (Cscripts s Post name current w2)) →
    ok = true ∨ e = Some OtherError → P ok c' w').
  { intros ok' c' w' Hc' Hw' Hok'. eapply Hexec; try done. }
  destruct e as [[]|]; try (by apply Hdone; [|left|first [by left|by right]]).
  case_decide as Hl; [|by apply Hdone; [|left|left]]. set (cur := match trim _ with [] => _ | _ => _ end).
  pose proof (run_cscripts_core s Post name cur c3 w2) as [Hcc _].
  assert (Hw : (run_cscripts s Post name cur c3 w2).2 = snd (Cscripts s Post name cur w2)).
  { unfold run_cscripts. by destruct (Cscripts _ _ _ _ _) as [[] ]. }
  destruct (run_cscripts s Post name cur c3 w2) as [[ok' c4] w4]. cbn [fst snd] in *.
  apply Hdone; [done| |by left]. right. split; [done|]. by exists cur.
Qed.

Lemma ExecuteCommand_moves s line c w :
  server_ok s → core_ok (core c) →
  let '(_, c', _) := ExecuteCommand s line c w in moves s (core c) (core c').
Proof.
  intros Hs Hok. apply (ExecuteCommand_cases s line c w (λ _ c' _, moves s (core c) (core c'))).
  - intros _ c' _ -> _. apply rtc_refl.
  - intros k arg0 rest d argStr args c1 e c2 c3 w1 w2 w3 ok _ _ _ _ Hc1 _ _ Hst He Hc3 _ _.
    pose proof (Execute_moves s k (to_upper arg0) argStr args c1 w1 Hs) as Hm. rewrite He in Hm.
    rewrite Hc3, <- Hc1. apply Hm; [|done]. apply core_ok_has_user. by rewrite Hc1.
Qed.

Lemma ReloadUser_moves s c :
  server_ok s → core_ok (core c) → moves s (core c) (core (ReloadUser s c).2).
Proof.
  intros Hs Hok. unfold ReloadUser.
  assert (Hu : has_user (with_userUpdated false c)) by by apply core_ok_has_user.
  change (core c) with (core (with_userUpdated false c)).
  set (c1 := with_userUpdated false c) in *.
  destruct (user c1) as [u|] eqn:E; [|apply rtc_refl].
  destruct (LoadID s (id u)) as [u'|] eqn:El; [|by apply rtc_once, core_SetState_Finished].
  destruct (HasFlag u' Deleted); [by apply rtc_once, core_SetState_Finished|].
  apply rtc_once. apply (move_user_changed s (core c1) u u' E). by apply (LoadID_ok s Hs).
Qed.

Lemma Handle_round_moves s command c w :
  server_ok s → core_ok (core c) → moves s (core c) (core (Handle_round s command c w).1).
Proof.
  intros Hs Hok. unfold Handle_round.
  set (reload := if userUpdated c then _ else _).
  assert (Hr : moves s (core c) (core reload.2)).
  { subst reload. destruct (userUpdated c); [by apply ReloadUser_moves | apply rtc_refl]. }
  destruct reload as [go c1]. cbn [snd] in Hr.
  pose proof (moves_core_ok s _ _ Hr Hok) as Hok1.
  destruct go; cbn [negb fst].
  2: { eapply rtc_r; [exact Hr|]. by apply core_SetState_Finished, core_ok_has_user. }
  pose proof (ExecuteCommand_moves s command c1 w Hs Hok1) as Hm.
  destruct (ExecuteCommand s command c1 w) as [[ok c2] w']. cbn [fst].
  transitivity (core c1); [exact Hr|]. destruct ok; [exact Hm|].
  eapply rtc_r; [exact Hm|]. apply core_SetState_Finished, core_ok_has_user.
  by apply (moves_core_ok s (core c1)).
Qed.

(** *** The life of a session *)

(** Where the counter stands: it holds the login of this session, if it is
    logged in, and those of the other sessions. *)
Definition own (k : Core) : list Z :=
  match c_guard k, c_user k with true, Some u => [id u] | _, _ => [] end.

Definition accounted (k : Core) (others : list Z) : Prop :=
  represents (c_logins k) (own k ++ others).

Lemma own_not_logged_in (k : Core) : core_ok k → c_state k ≠ LoggedIn → own k = [].
Proof. intros Hok Hst. unfold own. by rewrite (ok_guard k Hok), bool_decide_eq_false_2. Qed.

Lemma own_logged_in (k : Core) u :
  core_ok k → c_state k = LoggedIn → c_user k = Some u → own k = [id u].
Proof.
  intros Hok Hst Hu. unfold own. by rewrite (ok_guard k Hok), bool_decide_eq_true_2, Hu.
Qed.

Lemma move_accounted s k k' others :
  move s k k' → core_ok k → accounted k others → accounted k' others.
Proof.
  intros Hm Hok. pose proof (move_core_ok s k k' Hm Hok) as Hok'. revert Hok'. unfold accounted.
  destruct Hm as [k name u Hst _ _|k u pw Hst _ _|k u pw st l Hst _ _ Hor Hl
                 |k u u' pw l kicked l' Hst _ _ _ _ Hl Hstart Hid|k Hst|k u Hst Hu|k u u' Hu Hid];
    intros Hok'; try rewrite (own_not_logged_in k Hok) by congruence; cbn [c_logins].
  - by rewrite (own_not_logged_in _ Hok').
  - rewrite (own_not_logged_in _ Hok'); [done|]. cbn. by case_match.
  - rewrite (own_not_logged_in _ Hok') by (cbn; destruct Hor; congruence). apply Hl.
  - rewrite (own_logged_in _ u' Hok') by done. rewrite Hid. cbn [app]. intros Ho.
    unfold LoginCounter.Start in Hstart. cbv zeta in Hstart. case_match; [done|].
    case_match; injection Hstart as <-; by apply represents_incr, represents_touch, Hl.
  - by rewrite (own_not_logged_in _ Hok').
  - rewrite (own_not_logged_in _ Hok'), (own_logged_in k u) by done. cbn [app]. intros Ho.
    apply (represents_Stop (id u)) in Ho; [|by left].
    cbn [remove_one] in Ho. by rewrite decide_True in Ho by done.
  - unfold own. cbn [c_guard c_user]. rewrite Hu, Hid. done.
Qed.

(** *** The life of a session *)

(** What can happen to a session: a command line arrives and is handled, with
    whatever the rest of the server answers at that time; another thread
    interrupts the session, or says that its user record has changed; the other
    sessions log in and out, or change the files and the database.  The last
    component are the users that are logged in in other sessions. *)
Inductive step : Client * W * list Z → Client * W * list Z → Prop :=
  | step_command s command c w o :
      server_ok s → state c ≠ Finished →
      step (c, w, o) ((Handle_round s command c w).1, (Handle_round s command c w).2, o)
  | step_interrupt c w o : step (c, w, o) (SetState Finished c, w, o)
  | step_user_updated c w o : step (c, w, o) (with_userUpdated true c, w, o)
  | step_others c w o w' l o' :
      represents l (own (core c) ++ o') → step (c, w, o) (with_logins l c, w', o').

(** A connection, from the moment it is accepted. *)
Definition reachable (c : Client) (w : W) (o : list Z) : Prop :=
  ∃ acl l0 w0 o0, represents l0 o0 ∧ rtc step (new_Client acl l0, w0, o0) (c, w, o).

Definition session_ok (x : Client * W * list Z) : Prop :=
  core_ok (core x.1.1) ∧ accounted (core x.1.1) x.2.

Lemma moves_session_ok s k k' o :
  moves s k k' → core_ok k ∧ accounted k o → core_ok k' ∧ accounted k' o.
Proof.
  induction 1 as [|k k1 k' Hm _ IH]; [done|]. intros [Hok Ha].
  apply IH. eauto using move_core_ok, move_accounted.
Qed.

(** A server that knows nobody and refuses everything. *)
Definition closed_server : Server W := {|
  Load _ := Ok None; LoadID _ := None; GIDToName _ := []; HashPassword _ _ := [];
  strerror _ := []; IdentIPAllowed _ _ := false; IPAllowed _ := false; IsSiteopOnly := true;
  TLSServerContext := false; TLSClientContext := false; handshake := false;
  ChangeDirectory _ _ := Throw []; today := 0; now := 0; maxUsers := 0;
  SaveLoggedIn _ w := w; LoginKick _ w := ((false, [], 0), w); welcome _ := []; goodbye _ := None;
  Cscripts _ _ _ w := ((true, []), w); PathFromUser _ _ := None; RenameAllowed _ _ := FailureErrno EACCES;
  MoveAllowed _ _ := FailureErrno EACCES; Filter _ _ := FailureErrno EACCES;
  IsDirectory _ _ := Throw []; MakedirAllowed _ _ := FailureErrno EACCES;
  UploadAllowed _ _ := FailureErrno EACCES; RenameFile _ _ _ w := (FailureErrno EACCES, w);
  run_other _ _ _ c u w :=
    ({| eff_error := Some NoPostScriptError; eff_replies := []; eff_finish := false; eff_user := u;
        eff_confirm := confirmCommand c; eff_workDirectory := workDirectory c;
        eff_singleLine := singleLineReplies c; eff_data := dataSettings c |}, w)
|}.

Lemma closed_server_ok : server_ok closed_server.
Proof. by split. Qed.

Lemma step_session_ok x y : step x y → session_ok x → session_ok y.
Proof.
  destruct 1 as [s command c w o Hs _|c w o|c w o|c w o w' l o' Hl]; intros Hok.
  - eapply moves_session_ok; [by apply Handle_round_moves, Hok | exact Hok].
  - eapply (moves_session_ok closed_server); [|exact Hok].
    apply rtc_once, core_SetState_Finished, core_ok_has_user, Hok.
  - exact Hok.
  - split; [|exact Hl]. destruct Hok as [[H1' H2' H3' H4' H5' H6'] _]. by split.
Qed.

Lemma new_Client_ok acl l w o : represents l o → session_ok (new_Client acl l, w, o).
Proof.
  intros Hl. split; [|exact Hl]. split; cbn; try done; try lia.
  by intros [].
Qed.

Lemma reachable_ok c w o : reachable c w o → core_ok (core c) ∧ accounted (core c) o.
Proof.
  intros (acl & l0 & w0 & o0 & Hl & Hsteps).
  apply (rtc_ind_r (λ y, session_ok y) (new_Client acl l0, w0, o0)) in Hsteps; [done| |].
  - by apply new_Client_ok.
  - intros y z _ Hyz. by apply step_session_ok.
Qed.

End abstract.
