(* ===== verification/Session.v ===== *)
(** * The properties of a client session

    What holds of every session the server of Client.v can reach: the state
    machine of ftp/clientimpl.cpp, the login of cmd/rfc/pass.cpp and the
    commands of cmd/rfc/commands.cpp that act on the session. *)

From stdpp Require Import prelude gmap strings.
From S2P Require Import Prelude CxxString Numbers Strings Path Acl Passwd UserData Transaction User Counters Client.
Local Open Scope Z_scope.
Local Open Scope list_scope.

Abbreviation moves s := (rtc (move s)).

(** A command that must be confirmed is confirmed by the same words, however they are
    spaced. *)
Lemma ConfirmCommand_again a b (c : Client) : only_blanks a → only_blanks b → fst (ConfirmCommand a c) = false →
  fst (ConfirmCommand b (snd (ConfirmCommand a c))) = true ↔ words_of a = words_of b.
Proof.
  intros Ha Hb. unfold ConfirmCommand at 1 3. destruct (decide _); [|done]. intros _. cbn [snd].
  unfold ConfirmCommand. cbn [confirmCommand with_confirmCommand]. split.
  - destruct (decide (CompressWhitespace b ≠ CompressWhitespace a)) as [|E%dec_stable]; [done|]. intros _.
    by rewrite <-(proj1 (CompressWhitespace_spec a)), <-(proj1 (CompressWhitespace_spec b)), E.
  - intros E. rewrite (CompressWhitespace_words a), (CompressWhitespace_words b), E by done. by destruct (decide _).
Qed.

Section lemmas.
Context {W : Type} `{Split, Trim, CaseConv, Fnmatch}.
Implicit Types (s : Server W) (c : Client) (w : W).

(** The password that a line gives: what stands behind the word PASS, without the dash
    that asks for single-line replies *)
Definition given_password (line : str) : option str :=
  match Split_ line (lit " ") true with
  | [] => None
  | word :: _ =>
      if decide (to_upper word = lit "PASS") then
        let arg := trim (drop (length word) line) in
        Some (match arg with c :: rest => if decide (c = "-"%char) then rest else arg | [] => [] end)
      else None
  end.

(** One of the two forms of the session's own address is allowed to the user. *)
Definition address_allowed s (u : UserData) c : Prop :=
  IdentIPAllowed s (id u) (ident c ++ lit "@" ++ ip c) = true ∨
  IdentIPAllowed s (id u) (ident c ++ lit "@" ++ hostname c) = true.

(** A free login besides those of the other sessions, [o] *)
Definition login_left (u : UserData) (o : list Z) : Prop :=
  numLogins u = -1 ∨ count (id u) o ≤ numLogins u.

(** The user whose password the session waits for has proved who he is, by the line
    and from the address of the session. *)
Record proved s (line : str) c (u : UserData) : Prop := {
  proved_user : user c = Some u;
  proved_password : ∃ pw, given_password line = Some pw ∧ verifies s u pw;
  proved_address : address_allowed s u c;
  proved_account : admissible s u
}.

Lemma move_login_left s k k' o :
  move s k k' → core_ok k → accounted k o → c_state k ≠ LoggedIn → c_state k' = LoggedIn →
  c_state k = WaitingPassword ∧
  ∃ u u', c_user k = Some u ∧ login_left u o ∧ c_user k' = Some u' ∧ id u' = id u.
Proof.
  intros Hm Hok Ha Hn Hl.
  destruct Hm as [k name u Hst _ _|k u pw Hst _ _|k u pw st l Hst _ _ Hor _
                 |k u u' pw l kicked l' Hst Hu Hv Had Hip Hsame Hstart Hid|k Hst|k u Hst _|k u u' Hk _];
    cbn [c_state] in *; try done.
  - by case_match.
  - by destruct Hor as [-> | ->].
  - split; [done|]. exists u, u'. split_and!; [done| |done|done].
    unfold login_left, accounted in *. rewrite (own_not_logged_in k Hok Hn) in Ha. apply Hsame in Ha.
    unfold LoginCounter.Start in Hstart. cbv zeta in Hstart.
    rewrite at_uid_touch, (rep_personal _ _ Ha) in Hstart.
    destruct (Z.eqb_spec (numLogins u) (-1)) as [->|_]; [by left|]. right. cbn [negb andb app] in *.
    destruct (Z.leb_spec (numLogins u) (count (id u) o - (if kicked then 1 else 0))) as [|Hlt];
      [done|]. destruct kicked; lia.
Qed.

Lemma state_SetState st c : state (SetState st c) = st.
Proof. unfold SetState. case_match; [|done]. by case_match. Qed.

(** What a command that [PASS] admits comes to: it leaves everything outside alone, or
    the user has proved who he is, and his other session may be interrupted for him; his
    login is written down when he gets one. *)
Definition PASS_effect s c w (u : UserData) c' w' : Prop :=
  ∃ w1, (w1 = w ∨ (kickLogin c = true ∧ w1 = snd (LoginKick s (id u) w))) ∧
    ((state c' ≠ LoggedIn ∧ w' = w1) ∨
     (state c' = LoggedIn ∧ ∃ u', id u' = id u ∧ w' = SaveLoggedIn s u' w1)).

Lemma PASS_login_effect s u c w :
  state c ≠ LoggedIn →
  PASS_effect s c w u (PASS_login s u c w).1.2 (PASS_login s u c w).2 ∧ (PASS_login s u c w).1.1 = None.
Proof.
  intros Hn. unfold PASS_login.
  destruct (if kickLogin c then _ else _) as [used l] eqn:Ek.
  assert (Hk : used = true → kickLogin c = true) by (destruct (kickLogin c); [done|congruence]).
  destruct (if used then LoginKick s (id u) w else _) as [[[kicked idle] n] w1] eqn:Ew.
  assert (Hw : w1 = w ∨ (kickLogin c = true ∧ w1 = snd (LoginKick s (id u) w))).
  { destruct used; [right; split; [by apply Hk|by rewrite Ew]|left; congruence]. }
  unfold SetLoggedIn, LoginGuard_Login. destruct (LoginCounter.Start _ _ _ _ _) as [r l'].
  split; [|by destruct r]. exists w1. split; [done|]. destruct r; cbn [fst snd].
  1, 2: left; split; [by rewrite SetState_not_logged_in|done].
  right. split; [done|]. eexists. split; [|done]. by destruct u.
Qed.

Lemma PASSCommand_effect s argStr c w :
  state c ≠ LoggedIn →
  let '((e, c'), w') := PASSCommand s argStr c w in
  (state c' ≠ LoggedIn ∧ w' = w) ∨
  ∃ u, user c = Some u ∧
    verifies s u (match argStr with x :: rest => if decide (x = "-"%char) then rest else argStr | [] => [] end) ∧
    address_allowed s u c ∧ admissible s u ∧ PASS_effect s c w u c' w' ∧ e = None.
Proof.
  intros Hn. unfold PASSCommand.
  set (pw := match argStr with [] => [] | _ => _ end).
  set (p := if decide (char_at argStr 0 = "-"%char) then _ else _).
  assert (Hp : p.1 = pw ∧ core p.2 = core c ∧ ident p.2 = ident c ∧ ip p.2 = ip c ∧ hostname p.2 = hostname c ∧
    kickLogin p.2 = kickLogin c).
  { subst p pw. destruct argStr as [|x rest]; [done|]. change (char_at (x :: rest) 0) with x. by case_decide. }
  destruct p as [pw' c1]. cbn [fst snd] in Hp. destruct Hp as (-> & Hc & Hi & Hip & Hh & Hkick).
  assert (Hs1 : state c1 = state c) by exact (f_equal c_state Hc).
  assert (Hu1 : user c1 = user c) by exact (f_equal c_user Hc).
  destruct (decide (pw = [])); [left; by rewrite Hs1|].
  rewrite Hu1. destruct (user c) as [u|] eqn:Hu; [|left; by rewrite Hs1].
  unfold VerifyPassword_. pose proof (verifies_dec s u pw) as Hv.
  destruct (default false _); cbv beta iota zeta; cbn [negb].
  2: { destruct (PasswordAttemptsExceeded _); left; (split; [by rewrite SetState_not_logged_in; cbn; rewrite ?Hs1|done]). }
  set (c2 := with_failures _ _). assert (Hs2 : state c2 ≠ LoggedIn) by (cbn; by rewrite Hs1).
  assert (Hfin : ∀ c3, state c3 = state c2 → state (SetState Finished c3) ≠ LoggedIn).
  { intros c3 E. by rewrite SetState_not_logged_in by congruence. }
  destruct (PostCheckAddress s u c2) eqn:Ha; cbn [negb]; [|left; split; [by apply Hfin|done]].
  destruct (HasFlag u Deleted) eqn:Hd; [left; split; [by apply Hfin|done]|].
  destruct (IsSiteopOnly s && negb (HasFlag u Siteop)) eqn:Hso; [left; by split|].
  destruct (match ChangeDirectory s u _ with Ok d => _ | Throw _ => _ end) as [dir|]; [|left; split; [by apply Hfin|done]].
  destruct (Expired u (today s)) eqn:He; [left; split; [by apply Hfin|done]|].
  destruct (PASS_login s u (with_workDirectory dir c2) w) as [[e c'] w'] eqn:El. right. exists u. split_and!; try done.
  - unfold PostCheckAddress in Ha. cbn in Ha. rewrite Hi, Hip, Hh in Ha.
    apply orb_true_iff in Ha as [Ha|[_ Ha]%andb_true_iff]; [by left|by right].
  - split; [done|]. split; [|done]. intros Hs. rewrite Hs in Hso. by destruct (HasFlag u Siteop).
  - pose proof (PASS_login_effect s u (with_workDirectory dir c2) w Hs2) as [HP _]. rewrite El in HP.
    unfold PASS_effect in *. cbn [fst snd] in HP. change (kickLogin (with_workDirectory dir c2)) with (kickLogin c1) in HP.
    rewrite Hkick in HP. exact HP.
  - pose proof (PASS_login_effect s u (with_workDirectory dir c2) w Hs2) as [_ HP]. by rewrite El in HP.
Qed.

(** Only [PASS] logs in, or changes anything outside a session that is not logged in. *)
Lemma Execute_not_logged_in s (k : Creator) name argStr args c w :
  has_user c → (∀ st, creator_state k = Some st → state c = st) → state c ≠ LoggedIn →
  let '((_, c'), w') := Execute s k name argStr args c w in
  (state c' ≠ LoggedIn ∧ w' = w) ∨ (k = PASS ∧ state c = WaitingPassword).
Proof.
  intros Hu Hst Hn. destruct (decide (k = PASS)) as [->|Hk].
  { destruct (Execute s PASS name argStr args c w) as [[e c'] w']. right. split; [done|]. by apply Hst. }
  assert (Hs : (Execute s k name argStr args c w).2 = w ∧ state (Execute s k name argStr args c w).1.2 ≠ LoggedIn).
  { destruct (passive k) eqn:Hpk.
    { split; [destruct k; try done; exfalso; by apply Hn, (Hst LoggedIn)|].
      apply (passive_core s k name argStr args c w), (f_equal c_state) in Hpk.
      change (state (Execute s k name argStr args c w).1.2 = state c) in Hpk. congruence. }
    destruct k; try discriminate Hpk; try done; cbn [Execute fst snd].
    - split; [done|]. unfold QUITCommand. destruct (match state c with LoggedIn => _ | _ => _ end) as [bye c'].
      cbn [snd]. by rewrite state_SetState.
    - split; [done|]. unfold USERCommand. set (n := if bool_decide _ then _ else _).
      destruct (Load s n) as [[u|]|m]; try done. destruct (HasFlag u Template); [done|].
      destruct (Evaluate _ _) as [enforced acl]. by destruct (enforced && _).
    - exfalso. by apply Hn, (Hst LoggedIn). }
  destruct (Execute s k name argStr args c w) as [[e c'] w']. left. cbn [fst snd] in Hs. by destruct Hs.
Qed.

(** The session after a changed user record has been read again. *)
Definition reloaded s c : Client := if userUpdated c then (ReloadUser s c).2 else c.

Lemma reloaded_session_ok s c w o :
  server_ok s → session_ok (c, w, o) → session_ok (reloaded s c, w, o).
Proof.
  intros Hs Hok. unfold reloaded. destruct (userUpdated c); [|done].
  eapply moves_session_ok; [by apply ReloadUser_moves, Hok | exact Hok].
Qed.

Lemma ReloadUser_state s c :
  state (ReloadUser s c).2 = state c ∨ state (ReloadUser s c).2 = Finished.
Proof.
  unfold ReloadUser. destruct (user (with_userUpdated false c)) as [u|]; [|by left].
  destruct (LoadID s (id u)) as [u'|]; [|right; apply state_SetState].
  destruct (HasFlag u' Deleted); [right; apply state_SetState | by left].
Qed.

Lemma reloaded_state s c : state (reloaded s c) = state c ∨ state (reloaded s c) = Finished.
Proof. unfold reloaded. destruct (userUpdated c); [apply ReloadUser_state | by left]. Qed.

(** A round of [Handle]: the session is over, or the command is executed on the
    reloaded session. *)
Lemma Handle_round_cases s command c w (P : Client → W → Prop) :
  (∀ c' w', state c' = Finished → w' = w ∨ (∃ c2, ExecuteCommand s command (reloaded s c) w = (false, c2, w')) → P c' w') →
  (∀ c' w', ExecuteCommand s command (reloaded s c) w = (true, c', w') → P c' w') →
  P (Handle_round s command c w).1 (Handle_round s command c w).2.
Proof.
  intros Hfin Hexec. unfold Handle_round, reloaded in *.
  destruct (userUpdated c).
  - destruct (ReloadUser s c) as [[] c1]; cbn [negb fst snd] in *.
    + destruct (ExecuteCommand s command c1 w) as [[[] c2] w'] eqn:E; [by apply Hexec|].
      apply Hfin; [apply state_SetState | right; eauto].
    + apply Hfin; [apply state_SetState | by left].
  - cbn [negb fst snd] in *.
    destruct (ExecuteCommand s command c w) as [[[] c2] w'] eqn:E; [by apply Hexec|].
    apply Hfin; [apply state_SetState | right; eauto].
Qed.

(** What a line does outside a session that is not logged in when [u] has proved who he
    is: his other session is interrupted, if he asked for it; and when he is logged in,
    that is written down, and the scripts that follow PASS are run. *)
Definition login_effect s c w (u : UserData) c' w' : Prop :=
  ∃ w1, (w1 = w ∨ (kickLogin c = true ∧ w1 = snd (LoginKick s (id u) w))) ∧
    ((state c' ≠ LoggedIn ∧ w' = w1) ∨
     (state c' = LoggedIn ∧ ∃ u', id u' = id u ∧
        (w' = SaveLoggedIn s u' w1 ∨
         ∃ current, w' = snd (Cscripts s Post (lit "PASS") current (SaveLoggedIn s u' w1))))).

Lemma Lookup_PASS name d : Lookup name = Some d → creator d = Some PASS → name = lit "PASS".
Proof.
  intros Hd%assoc_in Hk.
  assert (Hall : forallb (λ p, bool_decide (creator p.2 = Some PASS → p.1 = lit "PASS")) defs = true) by (vm_compute; reflexivity).
  rewrite forallb_forall in Hall. apply list_elem_of_In, Hall in Hd. apply bool_decide_eq_true in Hd. by apply Hd.
Qed.

Lemma ExecuteCommand_not_logged_in s line c w :
  state c ≠ LoggedIn →
  let '(ok, c', w') := ExecuteCommand s line c w in
  (state c' ≠ LoggedIn ∧ w' = w) ∨
  (ok = true ∧ state c = WaitingPassword ∧ ∃ u, proved s line c u ∧ login_effect s c w u c' w').
Proof.
  intros Hn.
  apply (ExecuteCommand_cases s line c w (λ ok c' w', (state c' ≠ LoggedIn ∧ w' = w) ∨
    (ok = true ∧ state c = WaitingPassword ∧ ∃ u, proved s line c u ∧ login_effect s c w u c' w'))).
  - intros ok c' w' Hc%(f_equal c_state) Hw. change (state c' = state c) in Hc. left. split; [congruence|by apply Hw].
  - intros k arg0 rest d argStr args c1 e c2 c3 w1 w2 w3 ok Hsplit Hd Hk -> Hc1 (Hi & Hip & Hh & Hki) Hw1 Hst He Hc3 Hw3 Hok.
    specialize (Hw1 Hn). subst w1.
    assert (Hs1 : state c1 = state c) by exact (f_equal c_state Hc1).
    assert (Hs3 : state c3 = state c2) by exact (f_equal c_state Hc3).
    pose proof (Execute_not_logged_in s k (to_upper arg0) (trim (drop (length arg0) line)) args c1 w) as HE. rewrite He in HE.
    destruct HE as [[Hn2 ->]|[-> Hwait]]; [by intros ?; rewrite Hs1 in *|done|by rewrite Hs1| |].
    { left. rewrite Hs3. split; [done|]. by destruct Hw3 as [->|[? _]]. }
    pose proof (Lookup_PASS _ _ Hd Hk) as Hname. cbn [Execute] in He.
    pose proof (PASSCommand_effect s (trim (drop (length arg0) line)) c1 w) as HP. rewrite He in HP.
    destruct HP as [[Hn2 ->]|(u & Hu & Hv & Ha & Had & (w1' & Hw1 & HL) & ->)]; [by rewrite Hs1| |].
    { left. rewrite Hs3. split; [done|]. by destruct Hw3 as [->|[? _]]. }
    right. split; [by destruct Hok|]. split; [congruence|]. exists u. split.
    + split; [exact (eq_trans (eq_sym (f_equal c_user Hc1)) Hu)| | |done].
      * eexists. unfold given_password. rewrite Hsplit, decide_True by done. split; [done|exact Hv].
      * unfold address_allowed in *. by rewrite Hi, Hip, Hh in Ha.
    + exists w1'. rewrite Hki in Hw1. split; [done|]. rewrite Hs3.
      destruct HL as [[Hn2 ->]|[Hl (u' & Hid & ->)]].
      * left. split; [done|]. by destruct Hw3 as [->|[? _]].
      * right. split; [done|]. exists u'. split; [done|]. destruct Hw3 as [->|[_ (cur & ->)]]; [by left|]. right.
        exists cur. by rewrite Hname.
Qed.

Lemma ExecuteCommand_login s command c w o :
  server_ok s → core_ok (core c) → accounted (core c) o → state c ≠ LoggedIn →
  let '(_, c', _) := ExecuteCommand s command c w in
  state c' = LoggedIn →
  ∃ u u', user c = Some u ∧ login_left u o ∧ user c' = Some u' ∧ id u' = id u.
Proof.
  intros Hs Hok Ha Hn.
  apply (ExecuteCommand_cases s command c w (λ _ c' _, state c' = LoggedIn →
    ∃ u u', user c = Some u ∧ login_left u o ∧ user c' = Some u' ∧ id u' = id u)).
  - intros _ c' _ Hc _ Hl. apply (f_equal c_state) in Hc.
    change (state c' = state c) in Hc. congruence.
  - intros k arg0 rest d argStr args c1 e c2 c3 w1 w2 w3 ok _ _ _ _ Hc1 _ _ Hst He Hc3 _ _ Hl.
    change (c_state (core c3) = LoggedIn) in Hl. rewrite Hc3 in Hl. change (state c2 = LoggedIn) in Hl.
    assert (Hn1 : state c1 ≠ LoggedIn).
    { change (c_state (core c1) ≠ LoggedIn). by rewrite Hc1. }
    pose proof (Execute_not_logged_in s k (to_upper arg0) argStr args c1 w1) as HP. rewrite He in HP.
    destruct HP as [[? _]|[-> Hw]]; [by intros ?%Hn1|done|done|done|].
    pose proof (PASS_move s argStr c1 w1 Hw) as Hm.
    cbn [Execute] in He. rewrite He in Hm. cbn [fst snd] in Hm.
    rewrite Hc1 in Hm. destruct Hm as [Hm|Hm]; [apply (f_equal c_state) in Hm; cbn in Hm; congruence|].
    destruct (move_login_left s _ _ o Hm Hok Ha Hn Hl) as [_ Hau].
    change (user c3) with (c_user (core c3)). by rewrite Hc3.
Qed.
End lemmas.

(** ** A server to try things on: one user, every path allowed *)

Module Example.

#[export] Existing Instances ref_split ref_fnmatch ref_case ref_trim.

(** The world is the list of the files that were renamed, and of the logins. *)
Definition World : Type := list (str * str).

Definition joe : UserData :=
  Transaction.set f_id 7 (Transaction.set f_name (lit "joe")
    (Transaction.set f_password (HexEncode (lit "secret" ++ lit "salt"))
      (Transaction.set f_salt (HexEncode (lit "salt"))
        (Transaction.set f_flags (lit "7") (default_UserData 0))))).

Definition jane : UserData :=
  Transaction.set f_id 8 (Transaction.set f_name (lit "jane")
    (Transaction.set f_flags (lit "1") joe)).

Definition server : Server World := {|
  Load name := Ok (if decide (name = lit "joe") then Some joe
                   else if decide (name = lit "jane") then Some jane else None);
  LoadID uid := if decide (uid = 7) then Some joe else None;
  GIDToName _ := lit "NoGroup"; HashPassword pw salt := pw ++ salt; strerror _ := lit "error";
  IdentIPAllowed uid mask := true; IPAllowed _ := true; IsSiteopOnly := false;
  TLSServerContext := false; TLSClientContext := false; handshake := false;
  ChangeDirectory _ path := Ok path; today := 0; now := 0; maxUsers := 10;
  SaveLoggedIn u w := w ++ [(lit "login", name u)]; LoginKick _ w := ((true, [], 1), w ++ [(lit "kick", [])]);
  welcome _ := []; goodbye _ := None; Cscripts _ _ _ w := ((true, []), w); PathFromUser cwd path := Some (cwd ++ path);
  RenameAllowed _ _ := Success; MoveAllowed _ _ := Success; Filter _ _ := Success;
  IsDirectory _ _ := Ok false; MakedirAllowed _ _ := Success; UploadAllowed _ _ := Success;
  RenameFile _ old new w := (Success, w ++ [(old, new)]);
  run_other _ _ _ c u w :=
    ({| eff_error := None; eff_replies := []; eff_finish := false; eff_user := u;
        eff_confirm := confirmCommand c; eff_workDirectory := workDirectory c;
        eff_singleLine := singleLineReplies c; eff_data := dataSettings c |}, w)
|}.

Lemma server_is_ok : server_ok server.
Proof.
  split; [|done]. intros uid u. cbn [LoadID server]. case_decide; [|done].
  intros [= <-]. by subst.
Qed.

(** The rounds of a session, one command after another. *)
Definition run (lines : list string) : Client * World :=
  foldl (λ x line, Handle_round server (lit line) x.1 x.2)
    (new_Client {| perms := []; finalResult := None |} no_totals, []) lines.

Lemma run_reachable lines :
  (∀ n, (n < length lines)%nat → state (run (take n lines)).1 ≠ Finished) →
  reachable (run lines).1 (run lines).2 [].
Proof.
  intros Hlive. exists {| perms := []; finalResult := None |}, no_totals, [], [].
  split; [apply represents_empty|].
  induction lines as [|line lines IH] using rev_ind; [apply rtc_refl|].
  unfold run at 1 2. rewrite foldl_snoc. fold (run lines). eapply rtc_r.
  - apply IH. intros n Hn. rewrite <- (take_app_le lines [line]) by lia.
    apply Hlive. rewrite length_app. lia.
  - apply step_command; [apply server_is_ok|].
    rewrite <- (take_app_length lines [line]). apply Hlive. rewrite length_app. cbn. lia.
Qed.

End Example.

(** ** Properties *)

Section properties.
Context {W : Type} `{Split, Trim, CaseConv, Fnmatch}.
Implicit Types (s : Server W) (c : Client) (w : W) (o : list Z).

(** C1: Session invariant.  In every state a connection can reach: a session
    that is logged in, or waits for a password, has a user; the login guard is
    set exactly while it is logged in; the shared login counter holds exactly
    this session's login, if it has one, and those of the others; at most three
    passwords have been wrong, and after the third the session is over. *)
Theorem session_invariant c w o :
  reachable c w o →
  (state c = LoggedIn ∨ state c = WaitingPassword → user c ≠ None) ∧
  (loginGuard c = true ↔ state c = LoggedIn) ∧
  (∀ u, state c = LoggedIn → user c = Some u → represents (logins c) (id u :: o)) ∧
  (state c ≠ LoggedIn → represents (logins c) o) ∧
  0 ≤ failures c ≤ 3 ∧ (failures c = 3 → state c = Finished).
Proof.
  intros Hr. destruct (reachable_ok c w o Hr) as [Hok Ha].
  pose proof (ok_guard _ Hok) as Hg. cbn in Hg.
  pose proof (ok_failures _ Hok) as Hf. pose proof (ok_max _ Hok) as Hx. cbn in Hf, Hx.
  split_and!; [exact (ok_user _ Hok)| | | |lia|exact Hx|].
  - rewrite Hg. apply bool_decide_eq_true.
  - intros u Hst Hu. unfold accounted in Ha. by rewrite (own_logged_in _ u Hok Hst Hu) in Ha.
  - intros Hst. unfold accounted in Ha. by rewrite (own_not_logged_in _ Hok Hst) in Ha.
  - intros E. apply (ok_locked _ Hok). cbn. unfold maxPasswordAttempts. lia.
Qed.

(** C2: Refinement.  Whatever line arrives, one round of [Handle] is a sequence
    of moves of the abstract session: naming a loadable user, failing or
    refusing a password, logging in, a new version of the user's record, and
    ending.  Files, replies, settings and every other command are invisible
    there. *)
Theorem Handle_round_refines s command c w o :
  reachable c w o → server_ok s →
  moves s (core c) (core (Handle_round s command c w).1).
Proof. intros Hr Hs. by apply Handle_round_moves, (reachable_ok c w o). Qed.

(** C3: No login without authentication.  If a round takes a session that is not
    logged in to one that is, then it was waiting for the password of a user, and it is
    that user who is logged in; the line was PASS with a password that verifies
    against his; the address of the session, or the name of its host, with its ident
    is one that he may come from; he is neither deleted nor expired nor kept out
    while the site is closed; and he has a login left next to the other sessions, of
    which one may be about to be interrupted for him. *)
Theorem login_authenticated s command c w o :
  reachable c w o → server_ok s → state c ≠ LoggedIn →
  state (Handle_round s command c w).1 = LoggedIn →
  state c = WaitingPassword ∧
  ∃ u u', proved s command (reloaded s c) u ∧ login_left u o ∧
          user (Handle_round s command c w).1 = Some u' ∧ id u' = id u.
Proof.
  intros Hr Hs Hn.
  destruct (reloaded_session_ok s c w o Hs (reachable_ok c w o Hr)) as [Hok Ha]. cbn in Hok, Ha.
  assert (Hn1 : state (reloaded s c) ≠ LoggedIn).
  { destruct (reloaded_state s c) as [-> | ->]; done. }
  pose proof (ExecuteCommand_login s command _ w o Hs Hok Ha Hn1) as He.
  pose proof (ExecuteCommand_not_logged_in s command _ w Hn1) as Hp.
  apply (Handle_round_cases s command c w (λ c' _, state c' = LoggedIn → _ ∧
    ∃ u u', _ ∧ _ ∧ user c' = Some u' ∧ _)); [by intros c' w' ->|].
  intros c' w' E Hl. rewrite E in He, Hp. destruct (He Hl) as (u & u' & Hu & Hleft & Hu' & Hid).
  destruct Hp as [[? _]|(_ & Hw & u2 & Hp & _)]; [done|]. assert (u2 = u) as ->.
  { pose proof (proved_user _ _ _ _ Hp). congruence. }
  split; [by destruct (reloaded_state s c) as [Hc|Hc]; rewrite Hc in Hw|]. by exists u, u'.
Qed.

(** C8: Before the login nothing happens.  Whatever line arrives on a session that is
    not logged in, the files, the database and the other sessions stay as they are;
    unless the session was waiting for a password, and its user has just proved who he
    is, by password, address and account.  Then another of his sessions may be
    interrupted, if he asked for it with the exclamation mark; and if he is logged
    in, the record of his login is written, and the scripts for PASS are run.  The end of
    the session, which purges the trash of a user it has named, is not covered. *)
Theorem not_logged_in_harmless s command c w :
  state c ≠ LoggedIn →
  let '(c', w') := Handle_round s command c w in
  w' = w ∨
  (state c = WaitingPassword ∧ ∃ u, proved s command (reloaded s c) u ∧ login_effect s (reloaded s c) w u c' w').
Proof.
  intros Hn.
  assert (Hn1 : state (reloaded s c) ≠ LoggedIn).
  { destruct (reloaded_state s c) as [-> | ->]; done. }
  assert (Hwait : state (reloaded s c) = WaitingPassword → state c = WaitingPassword).
  { by destruct (reloaded_state s c) as [Hc|Hc]; rewrite Hc. }
  pose proof (ExecuteCommand_not_logged_in s command (reloaded s c) w Hn1) as He.
  assert (HP : let x := Handle_round s command c w in x.2 = w ∨
    (state c = WaitingPassword ∧ ∃ u, proved s command (reloaded s c) u ∧ login_effect s (reloaded s c) w u x.1 x.2)).
  { apply (Handle_round_cases s command c w (λ c' w', w' = w ∨
      (state c = WaitingPassword ∧ ∃ u, proved s command (reloaded s c) u ∧ login_effect s (reloaded s c) w u c' w'))).
    - intros c' w' Hf [-> | (c2 & E)]; [by left|]. rewrite E in He.
      by destruct He as [[_ ->]|[? _]]; [left|].
    - intros c' w' E. rewrite E in He. destruct He as [[_ ->]|(_ & Hw & u & Hp & He)]; [by left|]. right.
      split; [by apply Hwait|]. by exists u. }
  by destruct (Handle_round s command c w) as [c' w'].
Qed.

(** What [RNTO] demands of the pair of names, and the renaming it then does. *)
Record rename_granted s (u : UserData) c w (argStr old from new : str) (isDirectory : bool)
    : Prop := {
  granted_from : renameFrom c = Some (old, from);
  granted_to : PathFromUser s (workDirectory c) argStr = Some new;
  granted_name : err_ok (Filter s u (Basename new)) = true;
  granted_move : Dirname old ≠ Dirname new → err_ok (MoveAllowed s u old) = true;
  granted_rename : Basename old ≠ Basename new → err_ok (RenameAllowed s u old) = true;
  granted_type : IsDirectory s w old = Ok isDirectory;
  granted_target :
    err_ok (if isDirectory then MakedirAllowed s u new else UploadAllowed s u new) = true
}.

(** A renaming that is refused. *)
Ltac refused :=
  split; [done|]; split; [done|]; split; [done|];
  intros (? & ? & ? & ? & [] & _); simplify_eq;
  repeat match goal with d : bool |- _ => destruct d end; intuition congruence.

(** RNTO.  It renames the file that [RNFR] named last, and only if the user
    may: the new name passes the filter, moving is allowed if the directory
    changes and renaming if the base name does, and the new name may be created
    for the kind of file it is.  In every other case the files are left alone.
    The command succeeds exactly when the renaming is granted and the system
    call succeeds.  The name that [RNFR] left is used up whatever happens. *)
Lemma RNTO_spec s argStr u c w :
  let '((e, c'), w') := RNTOCommand s argStr u c w in
  renameFrom c' = None ∧
  (w' ≠ w → ∃ old from new d,
     rename_granted s u c w argStr old from new d ∧ w' = (RenameFile s d old new w).2) ∧
  (e = None ↔ ∃ old from new d,
     rename_granted s u c w argStr old from new d ∧
     err_ok (RenameFile s d old new w).1 = true ∧ w' = (RenameFile s d old new w).2).
Proof.
  unfold RNTOCommand. destruct (renameFrom c) as [[old from]|] eqn:Hf; [|refused].
  cbv zeta. change (workDirectory (with_renameFrom None c)) with (workDirectory c).
  destruct (PathFromUser s (workDirectory c) argStr) as [new|] eqn:Ht; [|refused].
  destruct (err_ok (Filter s u (Basename new))) eqn:E1; cbn [negb]; [|refused].
  destruct (err_ok (if decide (Dirname old ≠ Dirname new) then _ else _)) eqn:E2; cbn [negb];
    [|case_decide; refused].
  destruct (err_ok (if decide (Basename old ≠ Basename new) then _ else _)) eqn:E3; cbn [negb];
    [|case_decide; refused].
  destruct (IsDirectory s w old) as [d|m] eqn:Hd; [|refused].
  destruct (err_ok (if d then _ else _)) eqn:E4; cbn [negb]; [|refused].
  assert (Hg : rename_granted s u c w argStr old from new d).
  { split; try done; intros; by rewrite decide_True in * by done. }
  destruct (RenameFile s d old new w) as [e4 w'] eqn:Hr.
  destruct (err_ok e4) eqn:E5; cbn [negb].
  - split; [done|]. split; [|split; [|done]]; intros _; exists old, from, new, d; by rewrite Hr.
  - split; [done|]. split; [intros _; exists old, from, new, d; by rewrite Hr|].
    split; [done|]. intros (o & f & n & d' & [] & Hok & _). assert (d' = d) as -> by congruence.
    simplify_eq. rewrite Hr in Hok. cbn in Hok. congruence.
Qed.


(** REST.  The restart offset is set to the number given when it fits an
    [int]; a larger number, a negative one or no number at all sets it to 0 and
    is answered with an error.  No file can be resumed beyond 2 GiB, although an
    offset is 64 bits wide. *)
Lemma REST_spec (arg : str) (n : Z) c :
  let offset a := restartOffset (dataSettings (RESTCommand [lit "REST"; a] c).2) in
  0 ≤ offset arg < 2 ^ 31 ∧
  (0 ≤ n → offset (to_string n) = if bool_decide (n < 2 ^ 31) then n else 0) ∧
  (2 ^ 31 ≤ n → (RESTCommand [lit "REST"; to_string n] c).2 =
     reply Code.InvalidRESTParameter (lit "Invalid parameter, restart offset set to 0.")
       (with_dataSettings (SetRestartOffset 0 (dataSettings c)) c)).
Proof.
  cbv zeta. unfold RESTCommand, arg1, StrToInt. cbn [nth]. split_and!.
  - destruct (StrTo INT_MIN INT_MAX arg) as [v|] eqn:E; [|done].
    apply StrTo_range in E. unfold INT_MAX in E. destruct (Z.ltb_spec v 0); cbn; lia.
  - destruct (StrTo INT_MIN INT_MAX arg) as [v|] eqn:E; [|done].
    apply StrTo_range in E. unfold INT_MAX in E. destruct (Z.ltb_spec v 0); cbn; lia.
  - intros Hn. case_bool_decide as Hb.
    + rewrite StrTo_to_string by (unfold INT_MIN, INT_MAX; lia).
      rewrite (proj2 (Z.ltb_ge n 0)) by done. done.
    + by rewrite StrTo_to_string_out by (unfold INT_MIN, INT_MAX; lia).
  - intros Hn. by rewrite StrTo_to_string_out by (unfold INT_MIN, INT_MAX; lia).
Qed.

(** IDNT.  The line a bouncer sends is read back as it was written: the
    ident is what precedes the first "@" and the host name what follows the last
    colon, so that the address between them may be an IPv6 address.  The session
    takes them over if the address is valid and is left alone if it is not. *)
Lemma IdntParse_roundtrip `{SplitOk} (parse_ip : str → option str) (i addr host : str) c :
  i ≠ [] → addr ≠ [] → host ≠ [] →
  " "%char ∉ i → " "%char ∉ addr → " "%char ∉ host → "@"%char ∉ i → ":"%char ∉ host →
  let '(ok, c') :=
    IdntParse parse_ip (lit "IDNT " ++ i ++ "@"%char :: addr ++ ":"%char :: host) c in
  match parse_ip addr with
  | None => ok = false ∧ c' = c
  | Some a =>
      ok = true ∧ ident c' = i ∧ ip c' = a ∧
      hostname c' = (if decide (a = host) then hostname c else host) ∧ core c' = core c
  end.
Proof.
  intros Hi Ha Hh Si Sa Sh Ni Nh. unfold IdntParse, Split_.
  set (arg := i ++ "@"%char :: addr ++ ":"%char :: host).
  change (lit "IDNT " ++ arg) with (lit "IDNT" ++ " "%char :: arg).
  assert (Sarg : " "%char ∉ arg).
  { subst arg. rewrite elem_of_app, elem_of_cons, elem_of_app, elem_of_cons. naive_solver. }
  change (lit " ") with [" "%char]. rewrite split_off, split_char_app, split_char_id; [|done|].
  2: { by apply (bool_decide_unpack (" "%char ∉ lit "IDNT")). }
  assert (Ef : find "@"%char arg = Some (length i)) by by apply (find_from_app "@"%char i _ 0).
  assert (El : find_last_of ":"%char arg = Some (length (i ++ "@"%char :: addr))).
  { subst arg. rewrite <- (find_last_of_app ":"%char (i ++ "@"%char :: addr) host) by done.
    by rewrite <- app_assoc. }
  rewrite Ef, El, length_app. cbn [length]. rewrite (proj2 (Nat.leb_gt _ _)) by lia. cbv zeta.
  replace (length i + S (length addr) - length i - 1)%nat with (length addr) by lia.
  assert (E1 : substr arg 0 (length i) = i) by (unfold substr; apply take_app_length).
  assert (E2 : substr arg (length i + 1) (length addr) = addr).
  { replace arg with ((i ++ ["@"%char]) ++ addr ++ ":"%char :: host)
      by (subst arg; by rewrite <- app_assoc).
    unfold substr. replace (length i + 1)%nat with (length (i ++ ["@"%char]))
      by (rewrite length_app; cbn; lia).
    by rewrite drop_app_length, take_app_length. }
  assert (E3 : drop (length i + S (length addr) + 1) arg = host).
  { replace arg with (((i ++ "@"%char :: addr) ++ [":"%char]) ++ host)
      by (subst arg; by rewrite <- !app_assoc).
    replace (length i + S (length addr) + 1)%nat
      with (length ((i ++ "@"%char :: addr) ++ [":"%char])) by (rewrite !length_app; cbn; lia).
    apply drop_app_length. }
  rewrite E1, E2, E3, decide_False by naive_solver. unfold IdntUpdate.
  destruct (parse_ip addr) as [a|]; [|done]. by repeat case_decide.
Qed.

(** Whether TLS is enforced is decided once per session.  The answer for the
    first user named is memoised: if that user need not use TLS, then no user
    named later in the session need, be it one on whom the configuration
    enforces it; if that user must, every later one is refused too. *)
Lemma USER_TLS_sticky s c ps n1 n2 u1 u2 :
  tlsControl c = {| perms := ps; finalResult := None |} → isTLS c = false → state c = LoggedOut →
  Load s n1 = Ok (Some u1) → HasFlag u1 Template = false → char_at n1 0 ≠ "!"%char →
  Load s n2 = Ok (Some u2) → HasFlag u2 Template = false → char_at n2 0 ≠ "!"%char →
  let enforced u := Evaluate_loop ps (User_ACLInfo u (GIDToName s)) in
  let c1 := (USERCommand s n1 c).2 in
  let c2 := (USERCommand s n2 (SetState LoggedOut c1)).2 in
  (state c1, state c2) =
    if enforced u1 then (LoggedOut, LoggedOut) else (WaitingPassword, WaitingPassword).
Proof.
  intros Ht Hi Hs L1 F1 N1 L2 F2 N2. cbv zeta.
  assert (HU : ∀ n u c0, Load s n = Ok (Some u) → HasFlag u Template = false →
    char_at n 0 ≠ "!"%char → isTLS c0 = false → state c0 = LoggedOut →
    let r := Evaluate (tlsControl c0) (User_ACLInfo u (GIDToName s)) in
    let c0' := (USERCommand s n c0).2 in
    state c0' = (if r.1 then LoggedOut else WaitingPassword) ∧ tlsControl c0' = r.2 ∧ isTLS c0' = false).
  { intros n u c0 L F N I S. unfold USERCommand. rewrite (bool_decide_eq_false_2 _ N), L, F.
    destruct (Evaluate (tlsControl c0) _) as [[] acl]; cbn; by rewrite I. }
  destruct (HU n1 u1 c L1 F1 N1 Hi Hs) as (S1 & T1 & I1). rewrite Ht in S1, T1.
  set (c1 := (USERCommand s n1 c).2) in *.
  assert (Hc1 : SetState LoggedOut c1 = with_state LoggedOut c1) by done. rewrite Hc1.
  destruct (HU n2 u2 (with_state LoggedOut c1) L2 F2 N2 I1 eq_refl) as (S2 & _ & _).
  change (tlsControl (with_state LoggedOut c1)) with (tlsControl c1) in S2.
  rewrite T1 in S2. cbn in S1, S2. rewrite S1, S2. by case_match.
Qed.

End properties.

Import Example.

(** The login that is in progress in the examples *)
Lemma Example_waiting :
  reachable (Example.run ["USER joe"%string]).1 (Example.run ["USER joe"%string]).2 [].
Proof.
  apply Example.run_reachable. intros [|n] Hn; [by vm_compute|cbn in Hn; lia].
Qed.

Lemma Example_logged_in :
  reachable (Example.run ["USER joe"; "PASS secret"]%string).1
            (Example.run ["USER joe"; "PASS secret"]%string).2 [].
Proof.
  apply Example.run_reachable.
  intros [|[|n]] Hn; [by vm_compute|by vm_compute|cbn in Hn; lia].
Qed.

Lemma session_invariant_witness :
  let c := (Example.run ["USER joe"; "PASS secret"]%string).1 in
  state c = LoggedIn ∧ loginGuard c = true ∧ represents (logins c) [7].
Proof.
  destruct (session_invariant _ _ _ Example_logged_in) as (_ & Hg & Hl & _).
  assert (E : state (Example.run ["USER joe"; "PASS secret"]%string).1 = LoggedIn) by (vm_compute; reflexivity).
  split; [exact E|]. split; [by apply Hg|].
  destruct (user (Example.run ["USER joe"; "PASS secret"]%string).1) as [u|] eqn:Eu;
    [|vm_compute in Eu; discriminate].
  pose proof (Hl u E eq_refl) as Hrep.
  assert (Hid : fmap id (user (Example.run ["USER joe"; "PASS secret"]%string).1) = Some 7) by (vm_compute; reflexivity).
  rewrite Eu in Hid. injection Hid as Hid. rewrite Hid in Hrep. exact Hrep.
Defined.

Lemma Handle_round_refines_witness :
  server_ok Example.server ∧
  moves Example.server (core (Example.run ["USER joe"%string]).1)
    (core (Handle_round Example.server (lit "PASS secret") (Example.run ["USER joe"%string]).1 []).1).
Proof.
  split; [apply Example.server_is_ok|].
  exact (Handle_round_refines Example.server (lit "PASS secret") _ [] [] Example_waiting
           Example.server_is_ok).
Defined.

Lemma login_authenticated_witness :
  let c := (Example.run ["USER joe"%string]).1 in
  state (Handle_round Example.server (lit "PASS secret") c []).1 = LoggedIn ∧
  given_password (lit "PASS secret") = Some (lit "secret") ∧
  ∃ u, proved Example.server (lit "PASS secret") (reloaded Example.server c) u.
Proof.
  assert (E : state (Handle_round Example.server (lit "PASS secret") (Example.run ["USER joe"%string]).1 []).1
              = LoggedIn) by (vm_compute; reflexivity).
  split; [exact E|]. split; [vm_compute; reflexivity|].
  assert (Hn : state (Example.run ["USER joe"%string]).1 ≠ LoggedIn) by (vm_compute; discriminate).
  destruct (login_authenticated Example.server (lit "PASS secret") _ [] [] Example_waiting
              Example.server_is_ok Hn E) as (_ & u & u' & H1 & _).
  exists u. exact H1.
Defined.

(** A command that is refused, and a login, which is written down *)
Lemma not_logged_in_harmless_witness :
  let c := (Example.run ["USER joe"%string]).1 in
  state c ≠ LoggedIn ∧
  (Handle_round Example.server (lit "RNTO x") c [(lit "a", lit "b")]).2 = [(lit "a", lit "b")] ∧
  (Handle_round Example.server (lit "PASS secret") c []).2 = [(lit "login", lit "joe")] ∧
  ∃ u, proved Example.server (lit "PASS secret") (reloaded Example.server c) u.
Proof.
  assert (Hn : state (Example.run ["USER joe"%string]).1 ≠ LoggedIn) by (vm_compute; discriminate).
  split; [exact Hn|]. split.
  - vm_compute. reflexivity.
  - split; [vm_compute; reflexivity|].
    pose proof (not_logged_in_harmless Example.server (lit "PASS secret") _ [] Hn) as H.
    assert (E : (Handle_round Example.server (lit "PASS secret") (Example.run ["USER joe"%string]).1 []).2 = [(lit "login", lit "joe")])
      by (vm_compute; reflexivity).
    destruct (Handle_round Example.server (lit "PASS secret") (Example.run ["USER joe"%string]).1 []) as [c' w'].
    cbn [snd] in E. destruct H as [H|(_ & u & Hp & _)]; [rewrite H in E; discriminate E|]. exists u. exact Hp.
Defined.

Lemma IdntParse_roundtrip_example :
  let '(ok, c') := IdntParse (λ a, Some a) (lit "IDNT joe@::1:home.net") (run []).1 in
  ok = true ∧ ip c' = lit "::1" ∧ hostname c' = lit "home.net".
Proof.
  assert (H1 : lit "joe" ≠ [] ∧ lit "::1" ≠ [] ∧ lit "home.net" ≠ []) by (split_and!; discriminate).
  destruct H1 as (H1 & H2 & H3).
  pose proof (@IdntParse_roundtrip ref_split ref_split_ok (λ a, Some a) (lit "joe") (lit "::1")
    (lit "home.net") (run []).1 H1 H2 H3
    (bool_decide_unpack (" "%char ∉ lit "joe") I) (bool_decide_unpack (" "%char ∉ lit "::1") I)
    (bool_decide_unpack (" "%char ∉ lit "home.net") I) (bool_decide_unpack ("@"%char ∉ lit "joe") I)
    (bool_decide_unpack (":"%char ∉ lit "home.net") I)) as H.
  change (lit "IDNT " ++ lit "joe" ++ "@"%char :: lit "::1" ++ ":"%char :: lit "home.net")
    with (lit "IDNT joe@::1:home.net") in H.
  destruct (IdntParse (λ a, Some a) (lit "IDNT joe@::1:home.net") (run []).1) as [ok c'].
  destruct H as (Hok & _ & Hip & Hh & _). split; [exact Hok|]. split; [exact Hip|].
  rewrite decide_False in Hh by discriminate. exact Hh.
Defined.

(** "!-joe *" enforces TLS on everybody but joe: jane comes after him. *)
Lemma USER_TLS_sticky_example :
  let c := new_Client (FromString (lit "!-joe *")) no_totals in
  let enforced u := Evaluate_loop (perms (tlsControl c)) (User_ACLInfo u (GIDToName server)) in
  enforced joe = false ∧ enforced jane = true ∧
  state (USERCommand server (lit "jane") (SetState LoggedOut
    (USERCommand server (lit "joe") c).2)).2 = WaitingPassword.
Proof.
  split; [vm_compute; reflexivity|]. split; [vm_compute; reflexivity|].
  assert (N1 : char_at (lit "joe") 0 ≠ "!"%char) by discriminate.
  assert (N2 : char_at (lit "jane") 0 ≠ "!"%char) by discriminate.
  pose proof (USER_TLS_sticky server (new_Client (FromString (lit "!-joe *")) no_totals)
    (perms (FromString (lit "!-joe *"))) (lit "joe") (lit "jane") joe jane
    eq_refl eq_refl eq_refl eq_refl eq_refl N1 eq_refl eq_refl N2) as H.
  cbv zeta in H.
  assert (E : Evaluate_loop (perms (FromString (lit "!-joe *"))) (User_ACLInfo joe (GIDToName server)) = false)
    by (vm_compute; reflexivity).
  cbv beta in H. rewrite E in H. exact (f_equal snd H).
Defined.
