(* ===== verification/Strength.v ===== *)
(** * Strength of IP masks and passwords: acl/ipstrength.hpp, acl/passwdstrength.hpp

    What secure_ip and secure_pass demand of an IP mask and of a password: the
    strength of a text is computed in one pass and compared field by field with
    a minimum. *)

From stdpp Require Import prelude strings.
From S2P Require Import Prelude CxxString Numbers.
Local Open Scope Z_scope.
Local Open Scope list_scope.

Definition isupper (c : ascii) : bool := (65 <=? code c) && (code c <=? 90).
Definition islower (c : ascii) : bool := (97 <=? code c) && (code c <=? 122).
Definition isalpha (c : ascii) : bool := isupper c || islower c.

(** ** IP masks *)

Record IPStrength := { numOctets : Z; isHostname : bool; hasIdent : bool }.

Definition wildcards : str := lit "*?[]".

Definition find_first_of (chars s : str) : bool := existsb (λ c, has_char c chars) s.

(** The loop over the address: the octets counted, whether it is a host name,
    and whether the end was reached. *)
Fixpoint octets_loop (ip : str) (n : Z) : Z * bool * bool :=
  match ip with
  | [] => (n, false, true)
  | c :: ip' =>
      if bool_decide (c = "."%char) || bool_decide (c = ":"%char) then octets_loop ip' (n + 1)
      else if isdigit c then octets_loop ip' n
      else if has_char c wildcards then (n, false, false)
      else if isalpha c || bool_decide (c = "-"%char) then (n, true, false)
      else octets_loop ip' n
  end.

(** [IPStrength(std::string ip)] *)
Definition IPStrength_of (mask : str) : IPStrength :=
  let '(ident, ip) :=
    match find_last_of "@"%char mask with
    | Some pos => (negb (find_first_of wildcards (take pos mask)), drop (pos + 1) mask)
    | None => (false, mask)
    end in
  let '(n, host, atEnd) := octets_loop ip 0 in
  {| numOctets := if atEnd then n + 1 else n; isHostname := host; hasIdent := ident |}.

(** [minimum.Allowed(userStrength)] *)
Definition IPStrength_Allowed (minimum userStrength : IPStrength) : error :=
  let noident := if negb (hasIdent userStrength) && hasIdent minimum
                 then FailureMsg (lit "No ident specified.") else Success in
  if isHostname userStrength then
    if negb (isHostname minimum) then FailureMsg (lit "Hostname's not allowed.") else noident
  else if numOctets userStrength <? numOctets minimum
  then FailureMsg (lit "Not enough octets specified.") else noident.

(** ** Passwords *)

Record PasswdStrength := {
  upperCase : Z; lowerCase : Z; length_ : Z; digits_ : Z; others : Z
}.

Definition add_char (st : PasswdStrength) (c : ascii) : PasswdStrength :=
  if isdigit c then
    {| upperCase := upperCase st; lowerCase := lowerCase st; length_ := length_ st;
       digits_ := digits_ st + 1; others := others st |}
  else if isalpha c then
    if isupper c then
      {| upperCase := upperCase st + 1; lowerCase := lowerCase st; length_ := length_ st;
         digits_ := digits_ st; others := others st |}
    else
      {| upperCase := upperCase st; lowerCase := lowerCase st + 1; length_ := length_ st;
         digits_ := digits_ st; others := others st |}
  else if bool_decide (c ≠ "."%char) then
    {| upperCase := upperCase st; lowerCase := lowerCase st; length_ := length_ st;
       digits_ := digits_ st; others := others st + 1 |}
  else st.

(** [PasswdStrength(const std::string&)] *)
Definition PasswdStrength_of (password : str) : PasswdStrength :=
  foldl add_char
    {| upperCase := 0; lowerCase := 0; length_ := Z.of_nat (length password);
       digits_ := 0; others := 0 |} password.

Definition PasswdStrength_Allowed (minimum userStrength : PasswdStrength) : bool :=
  (length_ minimum <=? length_ userStrength) &&
  (upperCase minimum <=? upperCase userStrength) &&
  (lowerCase minimum <=? lowerCase userStrength) &&
  (digits_ minimum <=? digits_ userStrength) &&
  (others minimum <=? others userStrength).

(** ** Properties *)

Definition count_if (p : ascii → bool) (s : str) : Z := Z.of_nat (length (List.filter p s)).

Lemma count_if_cons p c s : count_if p (c :: s) = (if p c then 1 else 0) + count_if p s.
Proof. unfold count_if. cbn [List.filter]. destruct (p c); cbn [length]; lia. Qed.

Lemma isdigit_not_alpha c : isdigit c = true → isalpha c = false.
Proof. unfold isdigit, isalpha, isupper, islower. lia. Qed.

Lemma isupper_not_lower c : isupper c = true → islower c = false.
Proof. unfold isupper, islower. lia. Qed.

(** The kinds a character can be of *)
Ltac kinds c :=
  let Hd := fresh in let Hu := fresh in
  pose proof (isdigit_not_alpha c) as Hd; pose proof (isupper_not_lower c) as Hu;
  unfold isalpha in *;
  destruct (isdigit c), (isupper c), (islower c); cbn in *;
  try discriminate (Hd eq_refl); try discriminate (Hu eq_refl).

Definition isother (c : ascii) : bool :=
  negb (isdigit c) && negb (isalpha c) && bool_decide (c ≠ "."%char).

Lemma PasswdStrength_fold s st :
  foldl add_char st s =
  {| upperCase := upperCase st + count_if isupper s; lowerCase := lowerCase st + count_if islower s;
     length_ := length_ st; digits_ := digits_ st + count_if isdigit s;
     others := others st + count_if isother s |}.
Proof.
  revert st. induction s as [|c s IH]; intros [u l n d o].
  - cbn. by rewrite !Z.add_0_r.
  - cbn [foldl]. rewrite IH, !count_if_cons. unfold add_char, isother. cbn.
    kinds c; try (case_bool_decide; cbn); f_equal; lia.
Qed.

Lemma PasswdStrength_of_eq s :
  PasswdStrength_of s =
  {| upperCase := count_if isupper s; lowerCase := count_if islower s;
     length_ := Z.of_nat (length s); digits_ := count_if isdigit s;
     others := count_if isother s |}.
Proof. unfold PasswdStrength_of. rewrite PasswdStrength_fold. done. Qed.

Lemma count_if_sublist p s t : sublist s t → count_if p s ≤ count_if p t.
Proof.
  induction 1 as [|c s t Hs IH|c s t Hs IH]; [done| |]; rewrite !count_if_cons; [lia|].
  destruct (p c); lia.
Qed.

(** Password strength.  The strength of a password is the number of its
    characters of each kind, dots counting towards the length only; it is
    compared field by field, so a password that is good enough stays so when
    characters are inserted anywhere. *)
Lemma PasswdStrength_monotone minimum s t :
  sublist s t →
  PasswdStrength_Allowed minimum (PasswdStrength_of s) = true →
  PasswdStrength_Allowed minimum (PasswdStrength_of t) = true ∧
  upperCase (PasswdStrength_of t) + lowerCase (PasswdStrength_of t) +
    digits_ (PasswdStrength_of t) + others (PasswdStrength_of t) =
    length_ (PasswdStrength_of t) - count_if (λ c, bool_decide (c = "."%char)) t.
Proof.
  intros Hs. rewrite !PasswdStrength_of_eq. unfold PasswdStrength_Allowed. cbn.
  pose proof (count_if_sublist isupper s t Hs). pose proof (count_if_sublist islower s t Hs).
  pose proof (count_if_sublist isdigit s t Hs). pose proof (count_if_sublist isother s t Hs).
  pose proof (sublist_length s t Hs). intros Ha. split; [lia|].
  clear. induction t as [|c t IH]; [done|]. rewrite !count_if_cons. cbn [length].
  destruct (decide (c = "."%char)) as [->|Hc].
  - rewrite (bool_decide_eq_true_2 ("."%char = "."%char)) by done.
    change (isupper "."%char) with false. change (islower "."%char) with false.
    change (isdigit "."%char) with false. change (isother "."%char) with false. lia.
  - unfold isother in *. rewrite (bool_decide_eq_true_2 (c ≠ "."%char)), (bool_decide_eq_false_2 (c = "."%char)) by done.
    kinds c; lia.
Qed.

Lemma PasswdStrength_monotone_example :
  PasswdStrength_Allowed (PasswdStrength_of (lit "Aa1")) (PasswdStrength_of (lit "xYz7")) = true ∧
  PasswdStrength_Allowed (PasswdStrength_of (lit "Aa1")) (PasswdStrength_of (lit "xY.z7")) = true.
Proof.
  assert (Hs : sublist (lit "xYz7") (lit "xY.z7")).
  { apply sublist_skip, sublist_skip, sublist_cons. reflexivity. }
  assert (E : PasswdStrength_Allowed (PasswdStrength_of (lit "Aa1")) (PasswdStrength_of (lit "xYz7")) = true)
    by (vm_compute; reflexivity).
  split; [exact E|]. exact (proj1 (PasswdStrength_monotone _ _ _ Hs E)).
Defined.

Lemma octets_loop_digits o ip n :
  forallb isdigit o = true → octets_loop (o ++ ip) n = octets_loop ip n.
Proof.
  induction o as [|c o IH]; [done|]. cbn [forallb app octets_loop]. intros [Hc Ho]%andb_true_iff.
  rewrite Hc. rewrite !bool_decide_eq_false_2; [by apply IH| |]; by intros ->.
Qed.

Lemma octets_loop_join os n tail :
  Forall (λ o, forallb isdigit o = true) os → os ≠ [] →
  octets_loop (join "."%char os ++ tail) n = octets_loop tail (n + Z.of_nat (length os) - 1).
Proof.
  intros Hos. revert n. induction Hos as [|o os Ho Hos IH]; intros n Hne; [done|].
  destruct os as [|o' os].
  - cbn [join length]. rewrite octets_loop_digits by done. f_equal. lia.
  - rewrite join_cons, <- app_assoc, octets_loop_digits by done. cbn [app].
    change (octets_loop ("."%char :: join "."%char (o' :: os) ++ tail) n)
      with (octets_loop (join "."%char (o' :: os) ++ tail) (n + 1)).
    rewrite IH by done. f_equal. cbn [length]. lia.
Qed.

(** IP mask strength.  The strength of a mask [ident@a.b.c] is the number of
    its octets, and so is that of one that ends in a wildcard after them
    ([a.b.*]); it has an ident if what precedes the last "@" is there and holds
    no wildcard.  A letter makes the address a host name, whatever precedes it
    and follows: so is every IPv6 address that is written with a hexadecimal
    digit above 9. *)
Lemma IPStrength_spec ident os c rest :
  os ≠ [] → Forall (λ o, forallb isdigit o = true) os → "@"%char ∉ c :: rest →
  let strength tail := IPStrength_of (ident ++ "@"%char :: join "."%char os ++ tail) in
  let octets := {| numOctets := Z.of_nat (length os); isHostname := false;
                   hasIdent := negb (find_first_of wildcards ident) |} in
  strength [] = octets ∧
  (has_char c wildcards = true → strength ("."%char :: c :: rest) = octets) ∧
  (isalpha c = true → isHostname (strength (c :: rest)) = true).
Proof.
  intros Hne Hos Hat. cbv zeta.
  assert (Hno : "@"%char ∉ join "."%char os).
  { clear Hne Hat. induction Hos as [|o os Ho Hos IH]; [apply not_elem_of_nil|].
    assert ("@"%char ∉ o).
    { intros Hin. rewrite forallb_forall in Ho. by apply list_elem_of_In, Ho in Hin. }
    destruct os; [done|]. rewrite join_cons by done. rewrite not_elem_of_app, not_elem_of_cons.
    split_and!; done. }
  assert (Hs : ∀ tail, "@"%char ∉ tail →
    IPStrength_of (ident ++ "@"%char :: join "."%char os ++ tail) =
    let '(n, host, atEnd) := octets_loop tail (Z.of_nat (length os) - 1) in
    {| numOctets := if atEnd then n + 1 else n; isHostname := host;
       hasIdent := negb (find_first_of wildcards ident) |}).
  { intros tail Ht. unfold IPStrength_of.
    rewrite find_last_of_app by (rewrite not_elem_of_app; done).
    rewrite take_app_length, drop_app_ge by lia.
    replace (length ident + 1 - length ident)%nat with 1%nat by lia. cbn [drop].
    rewrite drop_0, octets_loop_join by done. done. }
  rewrite not_elem_of_cons in Hat. split_and!.
  - rewrite Hs by apply not_elem_of_nil. cbn [octets_loop]. f_equal. lia.
  - intros Hc. rewrite Hs by (rewrite !not_elem_of_cons; naive_solver).
    assert (Hw : c = "*"%char ∨ c = "?"%char ∨ c = "["%char ∨ c = "]"%char).
    { apply has_char_true in Hc. unfold wildcards in Hc. cbn in Hc.
      rewrite !elem_of_cons, elem_of_nil in Hc. naive_solver. }
    destruct Hw as [-> | [-> | [-> | ->]]]; cbn; f_equal; lia.
  - intros Hc. rewrite Hs by (rewrite not_elem_of_cons; naive_solver). cbn [octets_loop].
    assert (Hd : isdigit c = false) by (destruct (isdigit c) eqn:E; [by rewrite isdigit_not_alpha in Hc|done]).
    rewrite Hd, Hc. rewrite !bool_decide_eq_false_2 by (intros ->; discriminate Hc). cbn [orb].
    assert (Hw : has_char c wildcards = false).
    { apply has_char_false. unfold wildcards. cbn. rewrite !not_elem_of_cons.
      split_and!; try apply not_elem_of_nil; intros ->; discriminate Hc. }
    by rewrite Hw.
Qed.

Lemma IPStrength_spec_example :
  IPStrength_of (lit "joe@10.0.*") = {| numOctets := 2; isHostname := false; hasIdent := true |} ∧
  isHostname (IPStrength_of (lit "joe@20a:1::5")) = true.
Proof.
  assert (H1 : [lit "10"; lit "0"] ≠ []) by discriminate.
  assert (H2 : Forall (λ o, forallb isdigit o = true) [lit "10"; lit "0"])
    by (repeat constructor).
  assert (H3 : "@"%char ∉ lit "*") by (apply (bool_decide_unpack ("@"%char ∉ lit "*")); vm_compute; exact I).
  assert (H4 : Forall (λ o, forallb isdigit o = true) [lit "20"]) by (repeat constructor).
  assert (H5 : [lit "20"] ≠ []) by discriminate.
  assert (H6 : "@"%char ∉ lit "a:1::5") by (apply (bool_decide_unpack ("@"%char ∉ lit "a:1::5")); vm_compute; exact I).
  split.
  - exact (proj1 (proj2 (IPStrength_spec (lit "joe") _ "*"%char [] H1 H2 H3)) eq_refl).
  - exact (proj2 (proj2 (IPStrength_spec (lit "joe") _ "a"%char (lit ":1::5") H5 H4 H6)) eq_refl).
Defined.
