(* ===== verification/Mode.v ===== *)
(** * File modes: fs/mode.cpp

    The modes of SITE CHMOD and of the umask setting, numeric ("0755") or
    symbolic ("u=rwx,g+r-w,o=g"): compiling a text into a list of changes and
    applying the changes to the mode of a file.

    A [mode_t] is a non-negative [Z]; complements are taken of one operand of a
    conjunction whose other operand is a mode, so its width does not matter.
    Reading at the end of the string gives NUL. *)

From stdpp Require Import prelude.
From S2P Require Import Prelude CxxString Numbers.
Local Open Scope Z_scope.
Local Open Scope list_scope.

Definition S_IRUSR : Z := 256.
Definition S_IWUSR : Z := 128.
Definition S_IXUSR : Z := 64.
Definition S_IRGRP : Z := 32.
Definition S_IWGRP : Z := 16.
Definition S_IXGRP : Z := 8.
Definition S_IROTH : Z := 4.
Definition S_IWOTH : Z := 2.
Definition S_IXOTH : Z := 1.
Definition S_IRWXU : Z := Z.lor S_IRUSR (Z.lor S_IWUSR S_IXUSR).
Definition S_IRWXG : Z := Z.lor S_IRGRP (Z.lor S_IWGRP S_IXGRP).
Definition S_IRWXO : Z := Z.lor S_IROTH (Z.lor S_IWOTH S_IXOTH).
Definition S_IR : Z := Z.lor S_IRUSR (Z.lor S_IRGRP S_IROTH).
Definition S_IW : Z := Z.lor S_IWUSR (Z.lor S_IWGRP S_IWOTH).
Definition S_IX : Z := Z.lor S_IXUSR (Z.lor S_IXGRP S_IXOTH).

(** [OutOfFuel] never happens: see [symbolic_loop_fuel] and [Compile_show]. *)
Inductive mode_error : Type := InvalidModeString | OutOfFuel.

(** ** The code *)

(** The loop of [NumericModeFromString], over the reversed string *)
Fixpoint numeric_loop (s : str) (factor value : Z) : result mode_error Z :=
  match s with
  | [] => Ok value
  | c :: s' =>
      if (code c <? 48) || (55 <? code c) then Throw InvalidModeString
      else numeric_loop s' (factor * 8) (value + (code c - 48) * factor)
  end.

Definition NumericModeFromString (s : str) : result mode_error Z :=
  if bool_decide (s = []) ||
     ((3 <? length s)%nat && (negb (length s =? 4)%nat || bool_decide (char_at s 0 ≠ "0"%char)))
  then Throw InvalidModeString
  else numeric_loop (rev s) 1 0.

Inductive Operator : Type := Plus | Minus | Equals.
Inductive ChangeType : Type := Normal | Copy.

Record Change := { op : Operator; type : ChangeType; affected : Z; value : Z }.

(** [for (; it != end; ++it)] over the letters of the classes *)
Fixpoint parse_affected (s : str) (acc : Z) : Z * str :=
  match s with
  | c :: s' =>
      if decide (c = "a"%char) then parse_affected s' (Z.lor acc (Z.lor S_IRWXU (Z.lor S_IRWXG S_IRWXO)))
      else if decide (c = "u"%char) then parse_affected s' (Z.lor acc S_IRWXU)
      else if decide (c = "g"%char) then parse_affected s' (Z.lor acc S_IRWXG)
      else if decide (c = "o"%char) then parse_affected s' (Z.lor acc S_IRWXO)
      else (acc, s)
  | [] => (acc, [])
  end.

(** ... and over those of the permissions *)
Fixpoint parse_perms (s : str) (acc : Z) : Z * str :=
  match s with
  | c :: s' =>
      if decide (c = "r"%char) then parse_perms s' (Z.lor acc S_IR)
      else if decide (c = "w"%char) then parse_perms s' (Z.lor acc S_IW)
      else if decide (c = "x"%char) then parse_perms s' (Z.lor acc S_IX)
      else (acc, s)
  | [] => (acc, [])
  end.

Definition parse_op (c : ascii) : option Operator :=
  if decide (c = "+"%char) then Some Plus
  else if decide (c = "-"%char) then Some Minus
  else if decide (c = "="%char) then Some Equals else None.

(** What follows an operator *)
Definition parse_value (s : str) : ChangeType * Z * str :=
  match s with
  | [] => (Normal, 0, [])
  | c :: s' =>
      if decide (c = "u"%char) then (Copy, S_IRWXU, s')
      else if decide (c = "g"%char) then (Copy, S_IRWXG, s')
      else if decide (c = "o"%char) then (Copy, S_IRWXO, s')
      else let '(v, s) := parse_perms s 0 in (Normal, v, s)
  end.

(** The [do] loop *)
Fixpoint parse_changes (fuel : nat) (aff : Z) (s : str) (changes : list Change)
    : result mode_error (list Change * str) :=
  match fuel with
  | O => Throw OutOfFuel
  | S fuel' =>
      match s with
      | [] => Throw InvalidModeString
      | c :: s' =>
          match parse_op c with
          | None => Throw InvalidModeString
          | Some o =>
              let '(t, v, s) := parse_value s' in
              let changes := changes ++ [{| op := o; type := t; affected := aff; value := v |}] in
              match parse_op (char_at s 0) with
              | Some _ => parse_changes fuel' aff s changes
              | None => Ok (changes, s)
              end
          end
      end
  end.

(** The [while] loop *)
Fixpoint symbolic_loop (fuel : nat) (s : str) (changes : list Change)
    : result mode_error (list Change) :=
  match fuel with
  | O => Throw OutOfFuel
  | S fuel' =>
      match s with
      | [] => Ok changes
      | _ =>
          let '(aff, s) := parse_affected s 0 in
          match parse_changes fuel' aff s changes with
          | Throw e => Throw e
          | Ok (changes, s) =>
              match s with
              | [] => Ok changes
              | c :: s' => if decide (c = ","%char) then symbolic_loop fuel' s' changes
                           else Throw InvalidModeString
              end
          end
      end
  end.

Definition CompileSymbolicMode (s : str) : result mode_error (list Change) :=
  symbolic_loop (S (length s)) s [].

Definition CompileNumericMode (s : str) : result mode_error (list Change) :=
  match NumericModeFromString s with
  | Ok v => Ok [{| op := Equals; type := Normal;
                   affected := Z.lor S_IRWXU (Z.lor S_IRWXG S_IRWXO); value := v |}]
  | Throw e => Throw e
  end.

Definition Compile (s : str) : result mode_error (list Change) :=
  match s with
  | [] => Throw InvalidModeString
  | c :: _ => if isdigit c then CompileNumericMode s else CompileSymbolicMode s
  end.

(** The value of a change: copied permissions are spread to all classes, then
    restricted to the affected ones, or by the umask if none were named. *)
Definition change_value (umask newMode : Z) (c : Change) : Z :=
  let v := match type c with
           | Normal => value c
           | Copy =>
               let v := Z.land (value c) newMode in
               let v := if Z.land v S_IR =? 0 then v else Z.lor v S_IR in
               let v := if Z.land v S_IW =? 0 then v else Z.lor v S_IW in
               if Z.land v S_IX =? 0 then v else Z.lor v S_IX
           end in
  if affected c =? 0 then Z.land v (Z.lnot umask) else Z.land v (affected c).

Definition apply_change (umask newMode : Z) (c : Change) : Z :=
  let v := change_value umask newMode c in
  match op c with
  | Equals => Z.lor (Z.land newMode (Z.lnot (affected c))) v
  | Plus => Z.lor newMode v
  | Minus => Z.land newMode (Z.lnot v)
  end.

Definition Apply (changes : list Change) (oldMode umask : Z) : Z :=
  foldl (apply_change umask) oldMode changes.

(** ** Texts of modes *)

Inductive Who : Type := User | Group | Other.
Inductive Perm : Type := Read | Write | Exec.

Inductive What : Type := Perms (ps : list Perm) | CopyOf (w : Who).

(** A clause: the classes it names and what it does to them. *)
Record Clause := { whos : list Who; first : Operator * What; more : list (Operator * What) }.

Definition who_char (w : Who) : ascii :=
  match w with User => "u" | Group => "g" | Other => "o" end%char.
Definition perm_char (p : Perm) : ascii :=
  match p with Read => "r" | Write => "w" | Exec => "x" end%char.
Definition op_char (o : Operator) : ascii :=
  match o with Plus => "+" | Minus => "-" | Equals => "=" end%char.

Definition show_what (w : What) : str :=
  match w with Perms ps => map perm_char ps | CopyOf w => [who_char w] end.

Definition show_act (a : Operator * What) : str := op_char a.1 :: show_what a.2.

Definition show_clause (c : Clause) : str :=
  map who_char (whos c) ++ show_act (first c) ++ concat (map show_act (more c)).

Definition show (cs : list Clause) : str := join ","%char (map show_clause cs).

Definition class_bits (w : Who) : Z :=
  match w with User => S_IRWXU | Group => S_IRWXG | Other => S_IRWXO end.
Definition perm_bits (p : Perm) : Z :=
  match p with Read => S_IR | Write => S_IW | Exec => S_IX end.

Definition whos_bits (acc : Z) (ws : list Who) : Z := foldl (λ a w, Z.lor a (class_bits w)) acc ws.
Definition perms_bits (acc : Z) (ps : list Perm) : Z := foldl (λ a p, Z.lor a (perm_bits p)) acc ps.

Definition change_of (aff : Z) (a : Operator * What) : Change :=
  match a.2 with
  | Perms ps => {| op := a.1; type := Normal; affected := aff; value := perms_bits 0 ps |}
  | CopyOf w => {| op := a.1; type := Copy; affected := aff; value := class_bits w |}
  end.

Definition changes_of (c : Clause) : list Change :=
  map (change_of (whos_bits 0 (whos c))) (first c :: more c).

(** ** Lemmas: compiling *)

#[export] Instance Who_eq_dec : EqDecision Who.
Proof. solve_decision. Defined.
#[export] Instance Perm_eq_dec : EqDecision Perm.
Proof. solve_decision. Defined.
#[export] Instance Operator_eq_dec : EqDecision Operator.
Proof. solve_decision. Defined.

Lemma parse_op_char o : parse_op (op_char o) = Some o.
Proof. by destruct o. Qed.

(** Where a list of classes or permissions ends. *)
Definition stops (s : str) : Prop :=
  s = [] ∨ ∃ c s', s = c :: s' ∧ (c = ","%char ∨ ∃ o, c = op_char o).

Lemma stops_act a s : stops (show_act a ++ s).
Proof. right. unfold show_act. cbn. eexists _, _. split; [done|]. eauto. Qed.

Lemma stops_acts acts s : stops s → stops (concat (map show_act acts) ++ s).
Proof.
  intros Hs. destruct acts as [|a acts]; [done|]. cbn [map concat]. rewrite <- app_assoc.
  apply stops_act.
Qed.

Lemma parse_affected_show ws s acc :
  (∃ o s', s = op_char o :: s') →
  parse_affected (map who_char ws ++ s) acc = (whos_bits acc ws, s).
Proof.
  intros (o & s' & ->). revert acc. induction ws as [|w ws IH]; intros acc; [by destruct o|].
  cbn [map app parse_affected]. destruct w; exact (IH _).
Qed.

Lemma parse_perms_show ps s acc :
  stops s → parse_perms (map perm_char ps ++ s) acc = (perms_bits acc ps, s).
Proof.
  intros Hs. revert acc. induction ps as [|p ps IH]; intros acc.
  - destruct Hs as [-> | (c & s' & -> & [-> | [o ->]])]; [done|done|by destruct o].
  - cbn [map app parse_perms]. destruct p; exact (IH _).
Qed.

Lemma parse_value_show w s :
  stops s →
  parse_value (show_what w ++ s) =
  (match w with Perms ps => (Normal, perms_bits 0 ps) | CopyOf w => (Copy, class_bits w) end, s).
Proof.
  intros Hs. destruct w as [ps|w]; [|by destruct w]. cbn [show_what].
  pose proof (parse_perms_show ps s 0 Hs) as Hp.
  destruct ps as [|p ps].
  - cbn [map app] in *. destruct Hs as [-> | (c & s' & -> & [-> | [o ->]])]; [done|done|].
    by destruct o.
  - cbn [map app parse_value] in *. by destruct p; rewrite Hp.
Qed.

Lemma parse_changes_show fuel aff a acts s ch :
  (s = [] ∨ ∃ s', s = ","%char :: s') → (length acts < fuel)%nat →
  parse_changes fuel aff (show_act a ++ concat (map show_act acts) ++ s) ch =
  Ok (ch ++ map (change_of aff) (a :: acts), s).
Proof.
  intros Hs. assert (Hst : stops s).
  { destruct Hs as [-> | [s' ->]]; [by left | right; eauto]. }
  revert fuel a ch. induction acts as [|b acts IH]; intros fuel a ch Hf;
    (destruct fuel as [|fuel]; [lia|]); cbn [parse_changes]; unfold show_act at 1; cbn [app];
    rewrite parse_op_char, parse_value_show by (by apply (stops_acts _ s Hst)); cbn [map concat].
  - cbn [app]. destruct a as [o [ps|w]]; cbn [fst snd]; by destruct Hs as [-> | [s' ->]].
  - rewrite <- app_assoc. unfold show_act at 1. cbn [app]. rewrite char_at_0, parse_op_char.
    change (op_char b.1 :: show_what b.2 ++ concat (map show_act acts) ++ s)
      with (show_act b ++ concat (map show_act acts) ++ s).
    destruct a as [o [ps|w]]; cbn [fst snd]; rewrite IH by (cbn in Hf; lia);
      by rewrite <- app_assoc.
Qed.

Lemma length_acts acts : (length acts ≤ length (concat (map show_act acts)))%nat.
Proof.
  induction acts as [|a acts IH]; [done|]. cbn [map concat length]. rewrite length_app.
  unfold show_act at 1. cbn. lia.
Qed.

Lemma symbolic_loop_show fuel cs ch :
  cs ≠ [] → (length (show cs) < fuel)%nat →
  symbolic_loop fuel (show cs) ch = Ok (ch ++ concat (map changes_of cs)).
Proof.
  unfold show. revert fuel ch. induction cs as [|c cs IH]; [done|]. intros fuel ch _ Hf.
  destruct fuel as [|fuel]; [lia|].
  set (rest := match cs with [] => [] | _ => ","%char :: join ","%char (map show_clause cs) end).
  assert (E : join ","%char (map show_clause (c :: cs)) = show_clause c ++ rest).
  { subst rest. destruct cs; [cbn; by rewrite app_nil_r | done]. }
  rewrite E in *. unfold show_clause in *. rewrite <- !app_assoc in *. cbn [symbolic_loop].
  assert (Hne : map who_char (whos c) ++ show_act (first c) ++ concat (map show_act (more c)) ++ rest ≠ []).
  { unfold show_act at 1. by destruct (map who_char (whos c)). }
  destruct (map who_char (whos c) ++ _) as [|x l] eqn:El; [done|]. rewrite <- El in *. clear El Hne x l.
  rewrite parse_affected_show by (unfold show_act; cbn; eauto).
  rewrite !length_app in Hf. pose proof (length_acts (more c)). unfold show_act in Hf at 1. cbn in Hf.
  rewrite parse_changes_show by (subst rest; destruct cs; eauto; lia).
  assert (Hch : map (change_of (whos_bits 0 (whos c))) (first c :: more c) = changes_of c) by done.
  rewrite Hch. subst rest. destruct cs as [|c' cs].
  - cbn [map concat]. by rewrite app_nil_r.
  - rewrite decide_True, IH by (done || (cbn [length] in Hf; lia)).
    cbn [map concat]. by rewrite <- !app_assoc.
Qed.

(** The fuel is enough. *)
Lemma parse_affected_length s acc : (length (parse_affected s acc).2 ≤ length s)%nat.
Proof.
  revert acc. induction s as [|c s IH]; intros acc; [done|]. cbn.
  repeat case_decide; cbn; try lia; etransitivity; try apply IH; lia.
Qed.

Lemma parse_perms_length s acc : (length (parse_perms s acc).2 ≤ length s)%nat.
Proof.
  revert acc. induction s as [|c s IH]; intros acc; [done|]. cbn.
  repeat case_decide; cbn; try lia; etransitivity; try apply IH; lia.
Qed.

Lemma parse_value_length s : (length (parse_value s).2 ≤ length s)%nat.
Proof.
  destruct s as [|c s]; [done|]. cbn [parse_value].
  pose proof (parse_perms_length (c :: s) 0) as Hl.
  repeat case_decide; [cbn; lia..|]. by destruct (parse_perms (c :: s) 0).
Qed.

Lemma parse_changes_fuel fuel aff s ch :
  (length s ≤ fuel)%nat → (0 < fuel)%nat →
  match parse_changes fuel aff s ch with
  | Ok (_, s') => (length s' < length s)%nat
  | Throw e => e = InvalidModeString
  end.
Proof.
  revert s ch. induction fuel as [|fuel IH]; intros s ch Hf H0; [lia|].
  cbn [parse_changes]. destruct s as [|c s]; [done|]. destruct (parse_op c); [|done].
  pose proof (parse_value_length s) as Hl. destruct (parse_value s) as [[t v] s']. cbn in Hl, Hf.
  set (ch' := ch ++ _). destruct (parse_op (char_at s' 0)) eqn:E; [|cbn; lia].
  assert (0 < length s')%nat by (destruct s'; [done | cbn; lia]).
  specialize (IH s' ch' ltac:(lia) ltac:(lia)).
  destruct (parse_changes fuel aff s' ch') as [[ch2 s2]|]; [|done]. cbn [length]. lia.
Qed.

Lemma symbolic_loop_fuel fuel s ch :
  (length s < fuel)%nat → symbolic_loop fuel s ch ≠ Throw OutOfFuel.
Proof.
  revert s ch. induction fuel as [|fuel IH]; intros s ch Hf; [lia|].
  cbn [symbolic_loop]. destruct s as [|c s]; [done|].
  pose proof (parse_affected_length (c :: s) 0) as Hl.
  destruct (parse_affected (c :: s) 0) as [aff s1]. cbn [snd] in Hl.
  cbn in Hf, Hl. pose proof (parse_changes_fuel fuel aff s1 ch ltac:(lia) ltac:(lia)) as Hc.
  destruct (parse_changes fuel aff s1 ch) as [[ch' s']|e]; [|by rewrite Hc].
  destruct s' as [|c' s']; [done|]. case_decide; [|done]. apply IH. cbn in *. lia.
Qed.

(** ** Lemmas: applying *)

Lemma numeric_loop_bound s f v r :
  numeric_loop s f v = Ok r → 0 ≤ f → v ≤ r ≤ v + f * (8 ^ Z.of_nat (length s) - 1).
Proof.
  revert f v. induction s as [|c s IH]; intros f v E Hf; cbn [numeric_loop] in E.
  - injection E as <-. cbn. lia.
  - destruct (_ || _) eqn:Hc in E; [done|]. apply IH in E; [|lia].
    cbn [length]. rewrite Nat2Z.inj_succ, Z.pow_succ_r by lia. apply orb_false_iff in Hc. nia.
Qed.

Lemma numeric_loop_leading_zero s f v : numeric_loop (s ++ ["0"%char]) f v = numeric_loop s f v.
Proof.
  revert f v. induction s as [|c s IH]; intros f v; cbn [numeric_loop app].
  - change (Ok (v + (48 - 48) * f) = Ok (E := mode_error) v). f_equal. lia.
  - by rewrite IH.
Qed.

(** A numeric mode has nine bits. *)
Lemma NumericModeFromString_range s n : NumericModeFromString s = Ok n → 0 ≤ n < 512.
Proof.
  unfold NumericModeFromString. destruct (_ || _) eqn:Hs; [done|]. intros E.
  apply orb_false_iff in Hs as [Hne Hlen].
  destruct (decide (length s ≤ 3)%nat) as [Hl|Hl].
  - apply numeric_loop_bound in E; [|lia]. rewrite length_rev in E.
    assert (8 ^ Z.of_nat (length s) <= 8 ^ 3) by (apply Z.pow_le_mono_r; lia). lia.
  - destruct s as [|c s]; [cbn in Hl; lia|].
    assert (Hc : c = "0"%char ∧ length s = 3%nat).
    { apply andb_false_iff in Hlen as [Hlen|Hlen]; [apply Nat.ltb_ge in Hlen; lia|].
      apply orb_false_iff in Hlen as [Hlen Hc]. apply bool_decide_eq_false in Hc.
      apply negb_false_iff, Nat.eqb_eq in Hlen. cbn in Hlen.
      rewrite char_at_0 in Hc. split; [by apply dec_stable | lia]. }
    destruct Hc as [-> Hl3]. cbn [rev] in E. rewrite numeric_loop_leading_zero in E.
    apply numeric_loop_bound in E; [|lia]. rewrite length_rev, Hl3 in E. cbn in E. lia.
Qed.

(** The position of a permission in a mode. *)
Definition bit (w : Who) (p : Perm) : Z :=
  match w with User => 6 | Group => 3 | Other => 0 end +
  match p with Read => 2 | Write => 1 | Exec => 0 end.

Definition has (mode : Z) (w : Who) (p : Perm) : bool := Z.testbit mode (bit w p).

Lemma bit_range w p : 0 ≤ bit w p < 9.
Proof. by destruct w, p. Qed.

Lemma has_class w' w p : has (class_bits w') w p = bool_decide (w' = w).
Proof. by destruct w', w, p. Qed.

Lemma has_perm p' w p : has (perm_bits p') w p = bool_decide (p' = p).
Proof. by destruct p', w, p. Qed.

Lemma has_lor a b w p : has (Z.lor a b) w p = has a w p || has b w p.
Proof. apply Z.lor_spec. Qed.

Lemma has_land a b w p : has (Z.land a b) w p = has a w p && has b w p.
Proof. apply Z.land_spec. Qed.

Lemma has_lnot a w p : has (Z.lnot a) w p = negb (has a w p).
Proof. apply Z.lnot_spec. pose proof (bit_range w p). lia. Qed.

Lemma has_0 w p : has 0 w p = false.
Proof. apply Z.testbit_0_l. Qed.

Hint Rewrite has_lor has_land has_lnot has_class has_perm has_0 : mode.

Lemma has_whos acc ws w p : has (whos_bits acc ws) w p = has acc w p || bool_decide (w ∈ ws).
Proof.
  revert acc. induction ws as [|w' ws IH]; intros acc.
  - cbn. by rewrite bool_decide_eq_false_2, orb_false_r by (by intros ?%elem_of_nil).
  - cbn. rewrite IH. autorewrite with mode. rewrite <- orb_assoc. f_equal.
    apply eq_bool_prop_intro. rewrite orb_True, !bool_decide_spec, elem_of_cons. naive_solver.
Qed.

Lemma has_perms acc ps w p : has (perms_bits acc ps) w p = has acc w p || bool_decide (p ∈ ps).
Proof.
  revert acc. induction ps as [|p' ps IH]; intros acc.
  - cbn. by rewrite bool_decide_eq_false_2, orb_false_r by (by intros ?%elem_of_nil).
  - cbn. rewrite IH. autorewrite with mode. rewrite <- orb_assoc. f_equal.
    apply eq_bool_prop_intro. rewrite orb_True, !bool_decide_spec, elem_of_cons. naive_solver.
Qed.

Lemma whos_bits_0 ws : (whos_bits 0 ws =? 0) = bool_decide (ws = []).
Proof.
  destruct ws as [|w ws]; [done|]. rewrite bool_decide_eq_false_2 by done. apply Z.eqb_neq. intros E.
  pose proof (has_whos 0 (w :: ws) w Read) as Hh. rewrite E, has_0 in Hh.
  by rewrite bool_decide_eq_true_2 in Hh by left.
Qed.

(** A permission bit of one class in a mode *)
Lemma land_class_perm w p mode :
  (Z.land (Z.land (class_bits w) mode) (perm_bits p) =? 0) = negb (has mode w p).
Proof.
  assert (E : Z.land (Z.land (class_bits w) mode) (perm_bits p) =
              if has mode w p then 2 ^ bit w p else 0).
  { rewrite Z.land_comm, Z.land_assoc.
    assert (E2 : Z.land (perm_bits p) (class_bits w) = 2 ^ bit w p) by (by destruct w, p).
    rewrite E2. apply Z.bits_inj'. intros n Hn. pose proof (bit_range w p).
    rewrite Z.land_spec, Z.pow2_bits_eqb by lia. destruct (Z.eqb_spec (bit w p) n) as [<-|Hne].
    - fold (has mode w p). destruct (has mode w p); [by rewrite Z.pow2_bits_true by lia|].
      by rewrite Z.testbit_0_l.
    - destruct (has mode w p); [by rewrite Z.pow2_bits_false by lia | by rewrite Z.testbit_0_l]. }
  rewrite E. destruct (has mode w p); [|done]. apply Z.eqb_neq.
  pose proof (bit_range w p). pose proof (Z.pow_pos_nonneg 2 (bit w p)). lia.
Qed.

(** Spreading one permission of [v] to all classes *)
Definition spread (p : Perm) (v : Z) : Z :=
  if Z.land v (perm_bits p) =? 0 then v else Z.lor v (perm_bits p).

Lemma spread_other p q v :
  p ≠ q → (Z.land (spread p v) (perm_bits q) =? 0) = (Z.land v (perm_bits q) =? 0).
Proof.
  intros Hpq. unfold spread. case_match; [done|]. rewrite Z.land_lor_distr_l.
  assert (E : Z.land (perm_bits p) (perm_bits q) = 0) by (by destruct p, q).
  by rewrite E, Z.lor_0_r.
Qed.

Lemma has_spread q v w p :
  has (spread q v) w p = has v w p || (bool_decide (q = p) && negb (Z.land v (perm_bits q) =? 0)).
Proof.
  unfold spread. destruct (Z.land v (perm_bits q) =? 0); autorewrite with mode.
  - by rewrite andb_false_r, orb_false_r.
  - by rewrite andb_true_r.
Qed.

Lemma has_copied w' mode w p :
  has (spread Exec (spread Write (spread Read (Z.land (class_bits w') mode)))) w p = has mode w' p.
Proof.
  rewrite !has_spread, !spread_other, !land_class_perm by done. autorewrite with mode.
  rewrite !negb_involutive. destruct (decide (w' = w)) as [->|Hw].
  - rewrite (bool_decide_eq_true_2 (w = w)) by done.
    destruct p, (has mode w Read), (has mode w Write), (has mode w Exec); reflexivity.
  - rewrite (bool_decide_eq_false_2 (w' = w)) by done.
    destruct p, (has mode w' Read), (has mode w' Write), (has mode w' Exec); reflexivity.
Qed.

Lemma change_value_copy umask mode o aff w :
  change_value umask mode (change_of aff (o, CopyOf w)) =
  let v := spread Exec (spread Write (spread Read (Z.land (class_bits w) mode))) in
  if aff =? 0 then Z.land v (Z.lnot umask) else Z.land v aff.
Proof. done. Qed.

(** Nothing above the permissions *)
Definition low (v : Z) : Prop := ∀ n, 9 ≤ n → Z.testbit v n = false.

Lemma low_small v : 0 ≤ v < 2 ^ 9 → low v.
Proof.
  intros Hv n Hn. destruct (Z.eq_dec v 0) as [->|?]; [apply Z.testbit_0_l|].
  apply Z.bits_above_log2; [lia|]. apply Z.log2_lt_pow2; [lia|].
  apply Z.lt_le_trans with (2 ^ 9); [lia|]. apply Z.pow_le_mono_r; lia.
Qed.

Lemma low_lor a b : low a → low b → low (Z.lor a b).
Proof. intros Ha Hb n Hn. by rewrite Z.lor_spec, Ha, Hb. Qed.

Lemma low_land a b : low a → low (Z.land a b).
Proof. intros Ha n Hn. by rewrite Z.land_spec, Ha. Qed.

Lemma low_class w : low (class_bits w).
Proof. apply low_small. by destruct w. Qed.

Lemma low_perm p : low (perm_bits p).
Proof. apply low_small. by destruct p. Qed.

Lemma low_whos acc ws : low acc → low (whos_bits acc ws).
Proof.
  revert acc. induction ws as [|w ws IH]; intros acc Ha; [done|].
  apply IH, low_lor; [done | apply low_class].
Qed.

Lemma low_perms acc ps : low acc → low (perms_bits acc ps).
Proof.
  revert acc. induction ps as [|p ps IH]; intros acc Ha; [done|].
  apply IH, low_lor; [done | apply low_perm].
Qed.

Lemma low_spread p v : low v → low (spread p v).
Proof. intros Hv. unfold spread. case_match; [done | by apply low_lor, low_perm]. Qed.

Lemma low_change_value umask mode aff o what : low (change_value umask mode (change_of aff (o, what))).
Proof.
  assert (H0 : low 0) by (intros n _; apply Z.testbit_0_l).
  destruct what as [ps|w].
  - unfold change_value, change_of. cbn [fst snd type value affected].
    case_match; by apply low_land, low_perms.
  - rewrite change_value_copy. cbv zeta.
    case_match; by apply low_land, low_spread, low_spread, low_spread, low_land, low_class.
Qed.

(** *** Properties *)

(** What a clause sets, of the permission [p] of the class [w]. *)
Definition wanted (umask mode : Z) (ws : list Who) (what : What) (w : Who) (p : Perm) : bool :=
  match what with Perms ps => bool_decide (p ∈ ps) | CopyOf w' => has mode w' p end &&
  (if decide (ws = []) then negb (has umask w p) else bool_decide (w ∈ ws)).

(** C28: Compiling a mode.  The text of any list of clauses, such as
    "ug=rw-x,o=g", compiles to exactly the changes it denotes, in order; and
    compiling ends, with changes or with the error, on every text. *)
Theorem Compile_show cs s :
  (cs ≠ [] → Compile (show cs) = Ok (concat (map changes_of cs))) ∧ Compile s ≠ Throw OutOfFuel.
Proof.
  split.
  - intros Hne. unfold Compile.
    assert (Hd : ∃ c l, show cs = c :: l ∧ isdigit c = false).
    { destruct cs as [|[ws [o wh] acts] cs]; [done|]. unfold show. cbn [map].
      assert (Hc : ∃ c l, show_clause {| whos := ws; first := (o, wh); more := acts |} = c :: l ∧
                          isdigit c = false).
      { unfold show_clause, show_act. cbn [whos first fst]. destruct ws as [|[] ws]; cbn;
          (eexists _, _; split; [done|]); by destruct o. }
      destruct Hc as (c & l & E & Hc). destruct cs; cbn [map join]; rewrite E; by eexists _, _. }
    destruct Hd as (c & l & E & Hd). rewrite E, Hd, <- E. unfold CompileSymbolicMode.
    by rewrite symbolic_loop_show by (done || lia).
  - unfold Compile. destruct s as [|c s]; [done|]. destruct (isdigit c).
    + unfold CompileNumericMode, NumericModeFromString. destruct (_ || _); [done|].
      assert (Hn : ∀ l f v, match numeric_loop l f v with Throw e => e = InvalidModeString | _ => True end).
      { induction l as [|x l IH]; intros f v; [done|]. cbn. destruct (_ || _); [done | apply IH]. }
      specialize (Hn (rev (c :: s)) 1 0). by destruct (numeric_loop _ _ _); [|rewrite Hn].
    + apply symbolic_loop_fuel. lia.
Qed.

Lemma Compile_show_witness :
  Compile (lit "ug=rw-x,o=g") =
  Ok [{| op := Equals; type := Normal; affected := 504; value := 438 |};
      {| op := Minus; type := Normal; affected := 504; value := 73 |};
      {| op := Equals; type := Copy; affected := 7; value := 56 |}].
Proof.
  pose proof (proj1 (Compile_show
    [{| whos := [User; Group]; first := (Equals, Perms [Read; Write]); more := [(Minus, Perms [Exec])] |};
     {| whos := [Other]; first := (Equals, CopyOf Group); more := [] |}] [])) as H.
  vm_compute in H. vm_compute. apply H. discriminate.
Defined.

(** Applying a change.  A change of a compiled clause gives each permission
    of each class the value chmod gives it: "+" adds what is wanted, "-" takes
    it away and "=" sets it for the classes named, where what is wanted are the
    permissions listed, or those the copied class has in the current mode,
    restricted to the classes named or, if there are none, to what the umask
    allows.  But "=" without classes takes nothing away: it acts as "+".  The
    bits above the permissions never change. *)
Lemma Apply_change_spec umask mode ws o what w p n :
  let mode' := apply_change umask mode (change_of (whos_bits 0 ws) (o, what)) in
  has mode' w p =
    match o with
    | Plus => has mode w p || wanted umask mode ws what w p
    | Minus => has mode w p && negb (wanted umask mode ws what w p)
    | Equals => if decide (w ∈ ws) then wanted umask mode ws what w p
                else has mode w p || wanted umask mode ws what w p
    end ∧
  (9 ≤ n → Z.testbit mode' n = Z.testbit mode n).
Proof.
  cbv zeta. unfold apply_change.
  assert (Ho : op (change_of (whos_bits 0 ws) (o, what)) = o) by (by destruct what).
  assert (Haff : affected (change_of (whos_bits 0 ws) (o, what)) = whos_bits 0 ws) by (by destruct what).
  rewrite Ho, Haff.
  assert (Hv : has (change_value umask mode (change_of (whos_bits 0 ws) (o, what))) w p =
               wanted umask mode ws what w p).
  { unfold wanted. destruct what as [ps|w'].
    - unfold change_value, change_of. cbn [fst snd type value affected]. rewrite whos_bits_0.
      case_bool_decide as Hw; [rewrite decide_True by done | rewrite decide_False by done];
        autorewrite with mode; rewrite ?has_perms, ?has_whos; by autorewrite with mode.
    - rewrite change_value_copy. cbv zeta. rewrite whos_bits_0.
      case_bool_decide as Hw; [rewrite decide_True by done | rewrite decide_False by done];
        autorewrite with mode; rewrite has_copied, ?has_whos; by autorewrite with mode. }
  assert (H0 : low 0) by (intros m _; apply Z.testbit_0_l).
  split; cycle 1.
  { intros Hn. pose proof (low_change_value umask mode (whos_bits 0 ws) o what n Hn) as Hlow.
    pose proof (low_whos 0 ws H0 n Hn) as Hws.
    destruct o; rewrite ?Z.lor_spec, ?Z.land_spec, ?Z.lnot_spec, Hlow, ?Hws by lia;
      cbn [negb]; by rewrite ?andb_true_r, ?orb_false_r. }
  destruct o; autorewrite with mode; rewrite Hv; [done|done|].
  rewrite has_whos, has_0. cbn [orb]. case_decide as Hw.
  - by rewrite bool_decide_eq_true_2, andb_false_r by done.
  - by rewrite bool_decide_eq_false_2, andb_true_r by done.
Qed.
