(* ===== verification/Kernel.v ===== *)
(** * System calls, status and ownership: util/path/status.cpp, fs/owner.cpp

    The file system is the kernel's.  A computation asks it by system calls; the
    state keeps the calls made so far, and what the kernel answers to the next
    one may depend on all of them: [Kernel] is an arbitrary function of the
    calls, which leaves room for everything that other processes do in between.

    [GetOwner_SetOwner]: the owner that [SetOwner] gives a file is the owner
    [GetOwner] finds. *)

From stdpp Require Import prelude strings.
From S2P Require Import Prelude CxxString State Numbers Path Mode.
Local Open Scope Z_scope.
Local Open Scope list_scope.
Local Open Scope st_scope.

Definition ENOSPC : Z := 28.
Definition ENOTEMPTY : Z := 39.

(** ** System calls *)

(** The flags of open(2) *)
Inductive open_how : Type :=
  | CreateExclusive (mode : Z)   (** [O_CREAT | O_WRONLY | O_EXCL] *)
  | WriteTruncate                (** [O_WRONLY | O_TRUNC] *)
  | WriteAppend                  (** [O_WRONLY | O_APPEND] *)
  | ReadOnly.                    (** [O_RDONLY] *)

Inductive sys : Type :=
  | Lstat (path : str) | Statvfs (path : str) | Opendir (path : str)
  | Open_ (path : str) (how : open_how) | Ftruncate (path : str) (length : Z)
  | Unlink (path : str) | RenamePath (oldPath newPath : str)
  | Mkdir (path : str) (mode : Z) | Rmdir (path : str)
  | Chmod_ (path : str) (mode : Z) | Utimes (path : str) (seconds : Z)
  | Setxattr (path attribute value : str).

(** The calls that change the file system or open a file for it *)
Definition mutates (c : sys) : bool :=
  match c with Lstat _ | Statvfs _ | Opendir _ | Open_ _ ReadOnly => false | _ => true end.

Record stat := MkStat { st_mode : Z; st_uid : Z; st_gid : Z; st_size : Z; st_mtime : Z }.

(** The answers; an errno is thrown.  [garbage] is what a [struct stat] on the
    stack holds before it is filled in. *)
Record Kernel := {
  lstat : list sys → str → result Z stat;
  stat_ : list sys → str → result Z stat;
  garbage : list sys → stat;
  statvfs : list sys → str → result Z (Z * Z);
  readdir : list sys → str → result Z (list str);
  seek_end : list sys → str → result Z Z;
  getxattr : list sys → str → str → result Z str;
  realpath : list sys → str → option str;
  time_ : list sys → Z;
  done_ : list sys → sys → error
}.

(** ** util::path::Status *)

Record Status := MkStatus { native : stat; linkDirectory : bool; linkRegularFile : bool }.

Definition S_IFMT : Z := 61440.
Definition S_IFDIR : Z := 16384.
Definition S_IFREG : Z := 32768.
Definition S_IFLNK : Z := 40960.
Definition S_ISDIR (mode : Z) : bool := Z.land mode S_IFMT =? S_IFDIR.
Definition S_ISREG (mode : Z) : bool := Z.land mode S_IFMT =? S_IFREG.
Definition S_ISLNK (mode : Z) : bool := Z.land mode S_IFMT =? S_IFLNK.

Definition IsRegularFile (s : Status) : bool := S_ISREG (st_mode (native s)) || linkRegularFile s.
Definition IsDirectory (s : Status) : bool := S_ISDIR (st_mode (native s)) || linkDirectory s.
Definition IsSymLink (s : Status) : bool := S_ISLNK (st_mode (native s)).
Definition Size (s : Status) : Z := st_size (native s).

Section kernel.
Context (K : Kernel) (euid egid : Z).
Implicit Types (tr : list sys) (path : str) (s : Status).

(** One of the three permissions, of others, of the owner or of the group *)
Definition access_bit (oth usr grp : Z) s : bool :=
  let has bit := negb (Z.land (st_mode (native s)) bit =? 0) in
  has oth || (euid =? st_uid (native s)) && has usr || (egid =? st_gid (native s)) && has grp.

Definition IsExecutable s : bool := access_bit S_IXOTH S_IXUSR S_IXGRP s.
Definition IsWriteable s : bool := access_bit S_IWOTH S_IWUSR S_IWGRP s.
Definition IsReadable s : bool := access_bit S_IROTH S_IRUSR S_IRGRP s.

(** [Status::Reset].  The test of stat(2), [!stat(...) < 0], is never true: when
    the target of a link does not exist, [st] is used as it is. *)
Definition Reset tr path : result Z Status :=
  match lstat K tr path with
  | Throw e => Throw e
  | Ok n =>
      if S_ISLNK (st_mode n) then
        let st := match stat_ K tr path with Ok st => st | Throw _ => garbage K tr end in
        Ok (MkStatus n (S_ISDIR (st_mode st)) (negb (S_ISDIR (st_mode st)) && S_ISREG (st_mode st)))
      else Ok (MkStatus n false false)
  end.

(** [util::path::IsDirectory] *)
Definition path_IsDirectory tr path : bool :=
  match Reset tr path with Ok s => IsDirectory s | Throw _ => false end.

(** ** fs::Owner *)

Record Owner := MkOwner { UID : Z; GID : Z }.

Definition uidAttributeName : str := lit "user.ebftpd.uid".
Definition gidAttributeName : str := lit "user.ebftpd.gid".

(** A digit of a number in a base up to 16 *)
Definition digit_of (base : Z) (c : ascii) : option Z :=
  let c := ascii_lower c in
  let v := if isdigit c then code c - 48
           else if (97 <=? code c) && (code c <=? 102) then code c - 87 else 16 in
  if v <? base then Some v else None.

Fixpoint leading_digits (base : Z) (s : str) : list Z :=
  match s with
  | [] => []
  | c :: s => match digit_of base c with Some d => d :: leading_digits base s | None => [] end
  end.

Definition wrap32 (n : Z) : Z := (n + 2 ^ 31) mod 2 ^ 32 - 2 ^ 31.

(** [sscanf(buf, "%i", &id)]: the base is that of the prefix. *)
Definition scan_i (s : str) : option Z :=
  let s := drop_spaces s in
  let '(sign, s) := match s with
                    | c :: s' => if decide (c = "-"%char) then (-1, s')
                                 else if decide (c = "+"%char) then (1, s') else (1, s)
                    | [] => (1, [])
                    end in
  let '(base, s) := match s with
                    | c :: s' =>
                        if decide (c = "0"%char)
                        then (if bool_decide (ascii_lower <$> head s' = Some "x"%char) then (16, tail s') else (8, s))
                        else (10, s)
                    | [] => (10, [])
                    end in
  match leading_digits base s with
  | [] => None
  | ds => Some (wrap32 (sign * foldl (λ v d, v * base + d) 0 ds))
  end.

(** [GetAttribute]: [None] when the code reads a variable it has not set, or
    writes behind its buffer of 11 bytes. *)
Definition GetAttribute tr path (attribute : str) : option Z :=
  match getxattr K tr path attribute with
  | Throw _ => Some 0
  | Ok buf => if (length buf <=? 10)%nat then scan_i buf else None
  end.

(** [GetOwner]; [uninit] is whatever such a variable holds. *)
Definition GetOwner (uninit : Z) tr path : Owner :=
  MkOwner (default uninit (GetAttribute tr path uidAttributeName))
          (default uninit (GetAttribute tr path gidAttributeName)).

End kernel.

Section effects.
Context {S E : Type} (K : Kernel) (ops : S → list sys) (push : sys → S → S).

(** One system call *)
Definition syscall (c : sys) : ST S E error := λ s, (Ok (done_ K (ops s) c), push c s).

(** [SetAttribute]: the text in a buffer of 11 bytes, the last of which is NUL *)
Definition snprintf_i (id : Z) : str :=
  let text := to_string id in
  take (length text) (take 10 text ++ [NUL]).

Definition SetAttribute (path attribute : str) (id : Z) : ST S E error :=
  syscall (Setxattr path attribute (snprintf_i id)).

Definition SetOwner (path : str) (o : Owner) : ST S E error :=
  e <- (if UID o =? -1 then st_ret Success else SetAttribute path uidAttributeName (UID o));;
  if negb (err_ok e) then st_ret e
  else if GID o =? -1 then st_ret Success
  else SetAttribute path gidAttributeName (GID o).

End effects.

(** ** The owner of a file *)

Lemma digit_of_10 c : isdigit c = true → digit_of 10 c = Some (code c - 48).
Proof.
  intros Hc. pose proof (isdigit_code c Hc) as Hr. assert (E : ascii_lower c = c).
  { unfold ascii_lower. case_match eqn:El; [|done]. apply andb_true_iff in El as [El _]. lia. }
  unfold digit_of. rewrite E, Hc. cbv zeta. destruct (Z.ltb_spec (code c - 48) 10); [done|lia].
Qed.

Lemma leading_digits_10 ds : forallb isdigit ds = true → leading_digits 10 ds = map (λ c, code c - 48) ds.
Proof.
  induction ds as [|c ds IH]; [done|]. cbn [forallb leading_digits map]. intros [Hc Hd]%andb_true_iff.
  by rewrite digit_of_10, IH.
Qed.

Lemma wrap32_small n : - 2 ^ 31 ≤ n < 2 ^ 31 → wrap32 n = n.
Proof. intros Hn. unfold wrap32. rewrite Z.mod_small; lia. Qed.

Lemma foldl_digits a ds : foldl (λ v d, v * 10 + d) a (map (λ c, code c - 48) ds) = digits_value a ds.
Proof.
  revert a. induction ds as [|c ds IH]; intros a; [done|]. cbn [map foldl]. rewrite IH.
  unfold digits_value. cbn [foldl]. f_equal. lia.
Qed.

(** A decimal number without a leading zero is read as a decimal number. *)
Lemma scan_i_to_string n : 0 ≤ n ≤ INT_MAX → scan_i (to_string n) = Some n.
Proof.
  unfold INT_MAX. intros Hn. destruct (decide (n = 0)) as [->|Hn0]; [done|].
  destruct (to_string_lead n ltac:(lia)) as (d & ds & E & Hd).
  destruct (to_string_digits n ltac:(lia)) as (ds' & E' & _ & Hf & Hv). rewrite E in *. subst ds'.
  pose proof (code_digit d ltac:(lia)) as Hc. set (c := digit d) in *. clearbody c.
  destruct (digit_head c ds Hf) as (H1 & H2 & H3).
  assert (H4 : c ≠ "0"%char) by (intros Ec; rewrite Ec in Hc; change (code "0"%char) with 48 in Hc; lia).
  unfold scan_i. cbn [drop_spaces]. rewrite H1, !decide_False by done. cbv zeta.
  pose proof (foldl_digits 0 (c :: ds)) as Hfold. rewrite Hv in Hfold.
  rewrite leading_digits_10 by done. cbn [map] in Hfold |- *. rewrite Hfold.
  by rewrite Z.mul_1_l, wrap32_small by lia.
Qed.

Lemma snprintf_i_spec n : 0 ≤ n ≤ INT_MAX → snprintf_i n = to_string n.
Proof.
  unfold INT_MAX. intros Hn. pose proof (to_string_length n 10 ltac:(lia) ltac:(lia)) as Hl.
  unfold snprintf_i. rewrite (take_ge (to_string n)) by done. apply take_app_length.
Qed.

Section owner.
Context {S E : Type} (K : Kernel) (ops : S → list sys) (push : sys → S → S).

(** Documented of setxattr(2): a value that was set is the value of the attribute,
    and of no other. *)
Record xattr_ok : Prop := {
  xattr_push c s : ops (push c s) = ops s ++ [c];
  xattr_set tr p a v : done_ K tr (Setxattr p a v) = Success → getxattr K (tr ++ [Setxattr p a v]) p a = Ok v;
  xattr_other tr p a b v : a ≠ b → getxattr K (tr ++ [Setxattr p b v]) p a = getxattr K tr p a
}.

Definition valid_id (n : Z) : Prop := 0 ≤ n ≤ INT_MAX.

Lemma GetAttribute_set tr p a n :
  xattr_ok → valid_id n → done_ K tr (Setxattr p a (snprintf_i n)) = Success →
  GetAttribute K (tr ++ [Setxattr p a (snprintf_i n)]) p a = Some n.
Proof.
  intros Hx Hn Hd. unfold GetAttribute. rewrite (xattr_set Hx) by done.
  rewrite snprintf_i_spec, scan_i_to_string by done.
  pose proof (to_string_length n 10 ltac:(unfold valid_id, INT_MAX in Hn; lia) ltac:(lia)) as Hl.
  by destruct (Nat.leb_spec (length (to_string n)) 10); [|lia].
Qed.

(** The owner of a file.  After [SetOwner] has succeeded with ids that are not
    negative, [GetOwner] finds exactly these ids, whatever its uninitialised
    variables hold; with the id -1 for the user or the group, that of the file
    stays what it was.  The ids are written in decimal and read by [%i], and they
    fit the buffer of eleven bytes. *)
Lemma GetOwner_SetOwner uninit p o s s' :
  xattr_ok → (UID o = -1 ∨ valid_id (UID o)) → (GID o = -1 ∨ valid_id (GID o)) →
  SetOwner (E := E) K ops push p o s = (Ok Success, s') →
  let old := GetOwner K uninit (ops s) p in
  GetOwner K uninit (ops s') p =
    MkOwner (if UID o =? -1 then UID old else UID o) (if GID o =? -1 then GID old else GID o).
Proof.
  intros Hx Hu Hg. unfold SetOwner, SetAttribute, st_bind, st_ret, syscall, GetOwner. cbn [UID GID].
  assert (Hab : uidAttributeName ≠ gidAttributeName) by done.
  assert (Hother : ∀ tr a b v, a ≠ b → GetAttribute K (tr ++ [Setxattr p b v]) p a = GetAttribute K tr p a).
  { intros tr a b v Hne. unfold GetAttribute. by rewrite (xattr_other Hx). }
  destruct (Z.eqb_spec (UID o) (-1)) as [Eu|Eu]; cbn [err_ok negb];
    destruct (Z.eqb_spec (GID o) (-1)) as [Eg|Eg]; cbn [err_ok negb].
  - by intros [= <-].
  - intros [= Hd <-]. destruct Hg as [|Hg]; [done|].
    rewrite (xattr_push Hx), Hother, GetAttribute_set by done. done.
  - destruct (done_ K _ _) eqn:Hd; cbn [err_ok negb]; try done. intros [= <-]. destruct Hu as [|Hu]; [done|].
    rewrite (xattr_push Hx), (Hother _ gidAttributeName), GetAttribute_set by done. done.
  - destruct (done_ K (ops s) _) eqn:Hd; cbn [err_ok negb]; try done. intros [= Hd' <-].
    destruct Hu as [|Hu]; [done|]. destruct Hg as [|Hg]; [done|]. rewrite !(xattr_push Hx) in *.
    rewrite Hother, !GetAttribute_set by done. done.
Qed.

End owner.

(** ** A kernel to try things on: the attributes are those that were set, there are
    no files *)

Module Example.

Fixpoint last_value (p a : str) (tr : list sys) : option str :=
  match tr with
  | [] => None
  | Setxattr p' a' v :: tr =>
      match last_value p a tr with
      | Some v' => Some v'
      | None => if decide (p' = p ∧ a' = a) then Some v else None
      end
  | _ :: tr => last_value p a tr
  end.

Definition kernel : Kernel := {|
  lstat _ _ := Throw ENOENT; stat_ _ _ := Throw ENOENT; garbage _ := MkStat 0 0 0 0 0;
  statvfs _ _ := Throw ENOENT; readdir _ _ := Throw ENOENT; seek_end _ _ := Throw ENOENT;
  getxattr tr p a := match last_value p a tr with Some v => Ok v | None => Throw 61 end;
  realpath _ _ := None; time_ _ := 0; done_ _ _ := Success
|}.

Lemma last_value_snoc p a tr c :
  last_value p a (tr ++ [c]) =
  match c with
  | Setxattr p' a' v => if decide (p' = p ∧ a' = a) then Some v else last_value p a tr
  | _ => last_value p a tr
  end.
Proof.
  induction tr as [|c' tr IH].
  - by destruct c; try done; cbn; case_decide.
  - cbn [app last_value]. destruct c'; try done. rewrite IH. destruct c; try done. by case_decide.
Qed.

Lemma kernel_xattr_ok : xattr_ok kernel (λ tr : list sys, tr) (λ c tr, tr ++ [c]).
Proof.
  split; [done| |]; intros; cbn; rewrite last_value_snoc.
  - by rewrite decide_True.
  - by rewrite decide_False by naive_solver.
Qed.

End Example.

Lemma GetOwner_SetOwner_example :
  GetOwner Example.kernel 99 [Setxattr (lit "/f") uidAttributeName (lit "1234567890");
                              Setxattr (lit "/f") gidAttributeName (lit "0")] (lit "/f") = MkOwner 1234567890 0.
Proof.
  apply (GetOwner_SetOwner (E := unit) Example.kernel (λ tr, tr) (λ c tr, tr ++ [c]) 99 (lit "/f")
    (MkOwner 1234567890 0) []); [apply Example.kernel_xattr_ok|right; unfold valid_id, INT_MAX; cbn; lia
    |right; unfold valid_id, INT_MAX; cbn; lia|vm_compute; reflexivity].
Defined.
