(* ===== verification/Rights.v ===== *)
(** * Rights on paths: acl/path.cpp

    Which user may do what with which path.  The configuration holds one list
    of rights per action; each names a pattern of paths and an access control
    list, and the first right whose pattern matches decides.  Most actions have
    a second list for the owner of the file.  Before any right is consulted the
    path must lie inside the user's home directory and outside the private
    paths of others.

    Every evaluation goes through [ACL::Evaluate], which stores its answer in
    the configuration: the model threads the configuration through.  The
    configuration is a copy of the thread's own, so a session sees its own
    answers only. *)

From stdpp Require Import prelude gmap strings.
From S2P Require Import Prelude CxxString Path VirtualPath Acl UserData User.
Local Open Scope list_scope.

Local Abbreviation SLASH := "/"%char.

(** ** Configuration *)

(** A setting that holds for the users an ACL admits. *)
Record entry (A : Type) := Entry { arg : A; acl : ACL }.
Arguments Entry {A} _ _.
Arguments arg {A} _.
Arguments acl {A} _.

(** cfg::Right *)
Record RightPath := { rpath : str; specialVar : bool }.
Definition Right : Type := entry RightPath.

Inductive Key : Type :=
  | KUpload | KResume | KResumeown | KOverwrite | KOverwriteown | KMakedir
  | KDownload | KDownloadown | KRename | KRenameown | KMove | KMoveown
  | KModify | KModifyown | KNuke | KDelete | KDeleteown | KHideinwho
  | KFreefile | KNostats | KHideowner.

#[export] Instance Key_eq_dec : EqDecision Key.
Proof. solve_decision. Defined.

(** The settings of cfg::Config that acl/path.cpp reads. *)
Record Config := {
  rights : Key → list Right;
  privpath : list (entry str);
  pathFilter : list (entry str);
  hiddenFiles : list (str * list str);
  noretrieve : list str
}.

Definition set_rights (k : Key) (l : list Right) (cfg : Config) : Config := {|
  rights k' := if decide (k = k') then l else rights cfg k';
  privpath := privpath cfg; pathFilter := pathFilter cfg;
  hiddenFiles := hiddenFiles cfg; noretrieve := noretrieve cfg |}.

Definition set_privpath (l : list (entry str)) (cfg : Config) : Config := {|
  rights := rights cfg; privpath := l; pathFilter := pathFilter cfg;
  hiddenFiles := hiddenFiles cfg; noretrieve := noretrieve cfg |}.

Definition set_pathFilter (l : list (entry str)) (cfg : Config) : Config := {|
  rights := rights cfg; privpath := privpath cfg; pathFilter := l;
  hiddenFiles := hiddenFiles cfg; noretrieve := noretrieve cfg |}.

Definition set_hiddenFiles (l : list (str * list str)) (cfg : Config) : Config := {|
  rights := rights cfg; privpath := privpath cfg; pathFilter := pathFilter cfg;
  hiddenFiles := l; noretrieve := noretrieve cfg |}.

Definition set_noretrieve (l : list str) (cfg : Config) : Config := {|
  rights := rights cfg; privpath := privpath cfg; pathFilter := pathFilter cfg;
  hiddenFiles := hiddenFiles cfg; noretrieve := l |}.

(** [e.ACL().Evaluate(info)] *)
Definition eval_entry {A} (info : ACLInfo) (e : entry A) : bool * entry A :=
  let '(r, a) := Evaluate (acl e) info in (r, Entry (arg e) a).

(** [enum Type] *)
Inductive Action : Type :=
  | Upload | Resume | Overwrite | Makedir | Download | Rename_ | Move | Nuke
  | Delete | View | Hideinwho | Freefile | Nostats | Hideowner | Modify.

(** ** The code *)

Section code.
Context `{Fnmatch, ReplaceAll, RegexMatch}.
(** The group cache, the owner a file is marked with, and stat(2); both take a
    real path. *)
Context (GIDToName : Z → str) (GetOwner : str → Z) (IsDirectory : str → bool).
Context (sitepath : str).
Implicit Types (user : UserData) (path : str) (cfg : Config).

Definition HiddenFile path cfg : bool :=
  let dirname := Dirname path in
  let dirname := if decide (char_at dirname (length dirname - 1) ≠ SLASH)
                 then dirname ++ [SLASH] else dirname in
  let basename := Basename path in
  existsb (λ hf, WildcardMatch hf.1 dirname false &&
                 existsb (λ mask, WildcardMatch mask basename false) hf.2)
    (hiddenFiles cfg).

Definition USERNAME : str := lit "[:username:]".
Definition GROUPNAME : str := lit "[:groupname:]".

(** [Evaluate]: [group] and [firstSpecial] are the variables of the loop. *)
Fixpoint Evaluate_rights user path (group : str) (firstSpecial : bool) (rs : list Right)
    : bool * list Right :=
  match rs with
  | [] => (false, [])
  | rt :: rs' =>
      if specialVar (arg rt) then
        let specialPath := replace_all (rpath (arg rt)) USERNAME (name user) in
        let '(group, firstSpecial) :=
          if firstSpecial
          then (if decide (primaryGid user ≠ (-1)%Z) then GIDToName (primaryGid user) else group,
                false)
          else (group, firstSpecial) in
        let specialPath := if decide (group ≠ []) then replace_all specialPath GROUPNAME group
                           else specialPath in
        if WildcardMatch specialPath path false then
          let '(r, rt) := eval_entry (User_ACLInfo user GIDToName) rt in (r, rt :: rs')
        else let '(r, rs') := Evaluate_rights user path group firstSpecial rs' in (r, rt :: rs')
      else
        if WildcardMatch (rpath (arg rt)) path false then
          let '(r, rt) := eval_entry (User_ACLInfo user GIDToName) rt in (r, rt :: rs')
        else let '(r, rs') := Evaluate_rights user path group firstSpecial rs' in (r, rt :: rs')
  end.

(** [Evaluate(cfg::Get().<k>(), user, path)] *)
Definition Evaluate_key (k : Key) user path cfg : bool * Config :=
  let '(r, l) := Evaluate_rights user path [] true (rights cfg k) in (r, set_rights k l cfg).

Definition CheckNoretrieve path cfg : error :=
  if existsb (λ mask, WildcardMatch mask (Basename path) false) (noretrieve cfg)
  then FailureErrno EACCES else Success.

(** [Traits<type>::Allowed] of the actions with one list *)
Definition Allowed_plain (k : Key) user path cfg : error * Config :=
  let '(r, cfg) := Evaluate_key k user path cfg in
  (if r then Success else FailureErrno EACCES, cfg).

(** ... and of those with another list for the owner; [check] is what
    [AllowedOwner] and [AllowedOther] do when the right is granted. *)
Definition Allowed_owned (own other : Key) (check : str → Config → error) user path cfg
    : error * Config :=
  let AllowedFrom k cfg :=
    let '(r, cfg) := Evaluate_key k user path cfg in
    (if r then check path cfg else FailureErrno EACCES, cfg) in
  let '(granted, cfg) :=
    if decide (GetOwner (MakeReal_virtual sitepath path) = id user)
    then let '(e, cfg) := AllowedFrom own cfg in (err_ok e, cfg)
    else (false, cfg) in
  if granted then (Success, cfg) else AllowedFrom other cfg.

Definition no_check path cfg : error := Success.

Definition Traits_Allowed (t : Action) user path cfg : error * Config :=
  match t with
  | Upload => Allowed_plain KUpload user path cfg
  | Resume => Allowed_owned KResumeown KResume no_check user path cfg
  | Overwrite => Allowed_owned KOverwriteown KOverwrite no_check user path cfg
  | Makedir => Allowed_plain KMakedir user path cfg
  | Download => Allowed_owned KDownloadown KDownload CheckNoretrieve user path cfg
  | Rename_ => Allowed_owned KRenameown KRename no_check user path cfg
  | Move => Allowed_owned KMoveown KMove no_check user path cfg
  | Modify => Allowed_owned KModifyown KModify no_check user path cfg
  | Nuke => Allowed_plain KNuke user path cfg
  | Delete => Allowed_owned KDeleteown KDelete no_check user path cfg
  | View => (if HiddenFile path cfg then FailureErrno ENOENT else Success, cfg)
  | Hideinwho => Allowed_plain KHideinwho user path cfg
  | Freefile => Allowed_plain KFreefile user path cfg
  | Nostats => Allowed_plain KNostats user path cfg
  | Hideowner => Allowed_plain KHideowner user path cfg
  end.

(** The loop of [PrivatePath] *)
Fixpoint PrivatePath_loop (info : ACLInfo) path (pps : list (entry str))
    : bool * list (entry str) :=
  match pps with
  | [] => (false, [])
  | pp :: pps' =>
      if starts_with path (arg pp) then
        let '(r, pp) := eval_entry info pp in (negb r, pp :: pps')
      else let '(r, pps') := PrivatePath_loop info path pps' in (r, pp :: pps')
  end.

Definition PrivatePath path user cfg : bool * Config :=
  let '(r, l) := PrivatePath_loop (User_ACLInfo user GIDToName) path (privpath cfg) in
  (r, set_privpath l cfg).

Definition InsideDir (dir path : str) : bool :=
  match last dir with
  | None => false
  | Some c => if decide (c = SLASH) then starts_with path dir
              else starts_with path (dir ++ [SLASH])
  end.

Definition InsideHomeDir user path : bool := InsideDir (homeDir user) path.
Definition InsideStartUpDir user path : bool := InsideDir (startUpDir user) path.

Definition InnerAllowed (t : Action) user path cfg : error * Config :=
  if negb (InsideHomeDir user path) then (FailureErrno EACCES, cfg)
  else if negb (InsideHomeDir user path) then (FailureErrno ENOENT, cfg)
  else
    let '(private, cfg) := PrivatePath path user cfg in
    if private then (FailureErrno ENOENT, cfg) else Traits_Allowed t user path cfg.

Definition FileAllowed (t : Action) user path cfg : error * Config := InnerAllowed t user path cfg.

Definition DirAllowed (t : Action) user path cfg : error * Config :=
  match path with
  | [] => (FailureErrno EINVAL, cfg)
  | _ =>
      if decide (char_at path (length path - 1) ≠ SLASH)
      then InnerAllowed t user (path ++ [SLASH]) cfg
      else InnerAllowed t user path cfg
  end.

Definition Allowed (t : Action) user path cfg : error * Config :=
  if IsDirectory (MakeReal_virtual sitepath path)
  then DirAllowed t user path cfg else FileAllowed t user path cfg.

(** The loop of [Filter]; the argument of an entry is its regular expression. *)
Fixpoint Filter_loop (info : ACLInfo) (basename : str) (fs : list (entry str))
    : error * list (entry str) :=
  match fs with
  | [] => (Success, [])
  | f :: fs' =>
      let '(r, f) := eval_entry info f in
      if r then
        (if negb (regex_match basename (arg f)) then FailureErrno EACCES else Success, f :: fs')
      else let '(e, fs') := Filter_loop info basename fs' in (e, f :: fs')
  end.

Definition Filter user (basename : str) cfg : error * Config :=
  let '(e, l) := Filter_loop (User_ACLInfo user GIDToName) basename (pathFilter cfg) in
  (e, set_pathFilter l cfg).

End code.

(** ** Specification *)

(** What a configuration says, without the answers it has stored. *)
Definition erase {A} (e : entry A) : A * list Permission := (arg e, perms (acl e)).

(** The permissions of the first rule that applies. *)
Fixpoint first_rule {A} (p : A → bool) (rules : list (A * list Permission))
    : option (list Permission) :=
  match rules with
  | [] => None
  | (a, ps) :: rules' => if p a then Some ps else first_rule p rules'
  end.

(** The stored answers are the answers for this user. *)
Definition coherent {A} (info : ACLInfo) (l : list (entry A)) : Prop :=
  Forall (λ e, ∀ r, finalResult (acl e) = Some r → r = Evaluate_loop (perms (acl e)) info) l.

Record coherent_cfg (info : ACLInfo) (cfg : Config) : Prop := {
  coh_rights k : coherent info (rights cfg k);
  coh_privpath : coherent info (privpath cfg);
  coh_pathFilter : coherent info (pathFilter cfg)
}.

Record same_rules (cfg cfg' : Config) : Prop := {
  same_rights k : map erase (rights cfg' k) = map erase (rights cfg k);
  same_privpath : map erase (privpath cfg') = map erase (privpath cfg);
  same_pathFilter : map erase (pathFilter cfg') = map erase (pathFilter cfg);
  same_hiddenFiles : hiddenFiles cfg' = hiddenFiles cfg;
  same_noretrieve : noretrieve cfg' = noretrieve cfg
}.

#[export] Instance same_rules_reflexive : Reflexive same_rules.
Proof. by split. Qed.

#[export] Instance same_rules_transitive : Transitive same_rules.
Proof. intros x y z [A1 A2 A3 A4 A5] [B1 B2 B3 B4 B5]. split; intros; congruence. Qed.

(** One pass over a list of entries: the first whose argument matches is asked. *)
Fixpoint eval_first {A} (p : A → bool) (info : ACLInfo) (l : list (entry A))
    : option bool * list (entry A) :=
  match l with
  | [] => (None, [])
  | e :: l' =>
      if p (arg e) then let '(r, e) := eval_entry info e in (Some r, e :: l')
      else let '(r, l') := eval_first p info l' in (r, e :: l')
  end.

Lemma eval_entry_spec {A} info (e : entry A) :
  coherent info [e] →
  let '(r, e') := eval_entry info e in
  r = Evaluate_loop (perms (acl e)) info ∧ coherent info [e'] ∧ erase e' = erase e.
Proof.
  unfold coherent. rewrite Forall_singleton. intros He. unfold eval_entry, Evaluate.
  destruct (finalResult (acl e)) as [r|] eqn:E.
  - split_and!; [by apply He| |done]. apply Forall_singleton. cbn. rewrite E. intros r' [= <-]. by apply He.
  - split_and!; [done| |done]. apply Forall_singleton. cbn. congruence.
Qed.

Lemma coherent_cons {A} info (e : entry A) l :
  coherent info (e :: l) ↔ coherent info [e] ∧ coherent info l.
Proof. unfold coherent. by rewrite Forall_cons, Forall_singleton. Qed.

Lemma eval_first_spec {A} p info (l : list (entry A)) :
  coherent info l →
  let '(r, l') := eval_first p info l in
  coherent info l' ∧ map erase l' = map erase l ∧
  r = (λ ps, Evaluate_loop ps info) <$> first_rule p (map erase l).
Proof.
  induction l as [|e l IH]; [done|]. intros [He Hl]%coherent_cons. cbn [eval_first map].
  change (erase e) with (arg e, perms (acl e)). cbn [first_rule]. destruct (p (arg e)).
  - pose proof (eval_entry_spec info e He) as Hs. destruct (eval_entry info e) as [r e'].
    destruct Hs as (-> & He' & E). split_and!; [by apply coherent_cons| |done]. cbn. by rewrite E.
  - specialize (IH Hl). destruct (eval_first p info l) as [r l']. destruct IH as (Hl' & E & Hr).
    split_and!; [by apply coherent_cons| |done]. cbn. by rewrite E.
Qed.

Section spec.
Context `{Fnmatch, ReplaceAll, RegexMatch}.
Context (GIDToName : Z → str) (GetOwner : str → Z) (IsDirectory : str → bool).
Context (sitepath : str).
Implicit Types (user : UserData) (path : str) (cfg : Config).

Abbreviation info user := (User_ACLInfo user GIDToName).

(** The pattern of a right, with the names of the user filled in. *)
Definition pattern user (r : RightPath) : str :=
  if specialVar r then
    let s := replace_all (rpath r) USERNAME (name user) in
    let group := if decide (primaryGid user = (-1)%Z) then [] else GIDToName (primaryGid user) in
    if decide (group = []) then s else replace_all s GROUPNAME group
  else rpath r.

Definition covers user path (r : RightPath) : bool := WildcardMatch (pattern user r) path false.

(** The first right that covers the path admits the user. *)
Definition granted (k : Key) user path cfg : Prop :=
  ∃ ps, first_rule (covers user path) (map erase (rights cfg k)) = Some ps ∧
        allowed ps (info user).

(** The first private path that is a prefix of the path does not admit the
    user. *)
Definition private user path cfg : Prop :=
  ∃ ps, first_rule (starts_with path) (map erase (privpath cfg)) = Some ps ∧
        ¬ allowed ps (info user).

Definition owns user path : Prop := GetOwner (MakeReal_virtual sitepath path) = id user.

Definition may user path cfg (own other : Key) : Prop :=
  granted other user path cfg ∨ owns user path ∧ granted own user path cfg.

Definition permitted (t : Action) user path cfg : Prop :=
  match t with
  | Upload => granted KUpload user path cfg
  | Makedir => granted KMakedir user path cfg
  | Nuke => granted KNuke user path cfg
  | Hideinwho => granted KHideinwho user path cfg
  | Freefile => granted KFreefile user path cfg
  | Nostats => granted KNostats user path cfg
  | Hideowner => granted KHideowner user path cfg
  | Resume => may user path cfg KResumeown KResume
  | Overwrite => may user path cfg KOverwriteown KOverwrite
  | Rename_ => may user path cfg KRenameown KRename
  | Move => may user path cfg KMoveown KMove
  | Modify => may user path cfg KModifyown KModify
  | Delete => may user path cfg KDeleteown KDelete
  | Download =>
      may user path cfg KDownloadown KDownload ∧ CheckNoretrieve path cfg = Success
  | View => HiddenFile path cfg = false
  end.

Lemma Evaluate_rights_first user path group firstSpecial rs :
  (firstSpecial = true ∧ group = [] ∨
   firstSpecial = false ∧
   group = (if decide (primaryGid user = (-1)%Z) then [] else GIDToName (primaryGid user))) →
  Evaluate_rights GIDToName user path group firstSpecial rs =
  let '(r, l) := eval_first (covers user path) (info user) rs in (default false r, l).
Proof.
  revert group firstSpecial. induction rs as [|e rs IH]; intros group first Hg; [done|].
  cbn [Evaluate_rights eval_first]. unfold covers at 1, pattern. cbv zeta.
  destruct (specialVar (arg e)).
  - set (g := if decide (primaryGid user = (-1)%Z) then _ else _) in *.
    assert (Hp : (if first then (if decide (primaryGid user ≠ (-1)%Z) then GIDToName (primaryGid user)
                                 else group, false) else (group, first)) = (g, false)).
    { destruct Hg as [[-> ->] | [-> ->]]; [|done]. subst g. by repeat case_decide. }
    rewrite Hp. rewrite IH by (by right).
    destruct (decide (g = [])) as [Eg|Eg].
    + rewrite decide_False by (by intros []).
      destruct (WildcardMatch _ _ _); [by destruct (eval_entry _ e)|].
      by destruct (eval_first _ _ rs).
    + rewrite decide_True by done.
      destruct (WildcardMatch _ _ _); [by destruct (eval_entry _ e)|].
      by destruct (eval_first _ _ rs).
  - rewrite IH by done.
    destruct (WildcardMatch _ _ _); [by destruct (eval_entry _ e)|].
    by destruct (eval_first _ _ rs).
Qed.

(** One use of a list of rights. *)
Lemma Evaluate_key_spec k user path cfg :
  coherent_cfg (info user) cfg →
  let '(r, cfg') := Evaluate_key GIDToName k user path cfg in
  (r = true ↔ granted k user path cfg) ∧ coherent_cfg (info user) cfg' ∧ same_rules cfg cfg'.
Proof.
  intros [Hr Hp Hf]. unfold Evaluate_key. rewrite Evaluate_rights_first by (by left).
  pose proof (eval_first_spec (covers user path) (info user) (rights cfg k) (Hr k)) as Hs.
  destruct (eval_first _ _ (rights cfg k)) as [r l]. destruct Hs as (Hl & E & ->). split_and!.
  - unfold granted. destruct (first_rule _ _) as [ps|]; cbn; [|naive_solver].
    pose proof (Evaluate_loop_spec ps (info user)). naive_solver.
  - split; [|done|done]. intros k'. cbn. by case_decide; subst.
  - split; try done. intros k'. cbn. by case_decide; subst.
Qed.

Lemma granted_same k user path cfg cfg' :
  same_rules cfg cfg' → granted k user path cfg' ↔ granted k user path cfg.
Proof. intros Hs. unfold granted. by rewrite (same_rights _ _ Hs). Qed.

Lemma Allowed_plain_spec k user path cfg :
  coherent_cfg (info user) cfg →
  let '(e, cfg') := Allowed_plain GIDToName k user path cfg in
  (err_ok e = true ↔ granted k user path cfg) ∧ coherent_cfg (info user) cfg' ∧ same_rules cfg cfg'.
Proof.
  intros Hc. unfold Allowed_plain. pose proof (Evaluate_key_spec k user path cfg Hc) as Hs.
  destruct (Evaluate_key GIDToName k user path cfg) as [[] cfg']; by destruct Hs as (<- & ? & ?).
Qed.

Lemma Allowed_owned_spec own other check user path cfg :
  coherent_cfg (info user) cfg →
  (∀ cfg', same_rules cfg cfg' → check path cfg' = check path cfg) →
  let '(e, cfg') := Allowed_owned GIDToName GetOwner sitepath own other check user path cfg in
  (err_ok e = true ↔ may user path cfg own other ∧ err_ok (check path cfg) = true) ∧
  coherent_cfg (info user) cfg' ∧ same_rules cfg cfg'.
Proof.
  intros Hc Hcheck. unfold Allowed_owned, may, owns.
  destruct (decide (GetOwner _ = id user)) as [Ho|Ho]; cbv beta iota zeta.
  - pose proof (Evaluate_key_spec own user path cfg Hc) as Hs.
    destruct (Evaluate_key GIDToName own user path cfg) as [r cfg1].
    destruct Hs as (Hr & Hc1 & Hs1).
    pose proof (Evaluate_key_spec other user path cfg1 Hc1) as Hs.
    destruct (Evaluate_key GIDToName other user path cfg1) as [r2 cfg2].
    destruct Hs as (Hr2 & Hc2 & Hs2). rewrite (granted_same other user path cfg cfg1 Hs1) in Hr2.
    assert (Hs12 : same_rules cfg cfg2) by by transitivity cfg1.
    rewrite (Hcheck cfg1 Hs1), (Hcheck cfg2 Hs12). destruct (err_ok (if r then _ else _)) eqn:E.
    + destruct r; [|done]. split_and!; [|done|done]. rewrite <- Hr. intuition.
    + split_and!; [|done|done]. rewrite <- Hr, <- Hr2. destruct r, r2;
        change (err_ok (FailureErrno EACCES)) with false in *; intuition congruence.
  - pose proof (Evaluate_key_spec other user path cfg Hc) as Hs.
    destruct (Evaluate_key GIDToName other user path cfg) as [r2 cfg2].
    destruct Hs as (Hr2 & Hc2 & Hs2). rewrite Hcheck by done.
    split_and!; [|done|done]. rewrite <- Hr2. destruct r2;
      change (err_ok (FailureErrno EACCES)) with false in *; intuition congruence.
Qed.

Lemma CheckNoretrieve_same path cfg cfg' :
  same_rules cfg cfg' → CheckNoretrieve path cfg' = CheckNoretrieve path cfg.
Proof. intros Hs. unfold CheckNoretrieve. by rewrite (same_noretrieve _ _ Hs). Qed.

Lemma CheckNoretrieve_ok path cfg :
  err_ok (CheckNoretrieve path cfg) = true ↔ CheckNoretrieve path cfg = Success.
Proof. unfold CheckNoretrieve. by case_match. Qed.

Lemma Traits_Allowed_spec t user path cfg :
  coherent_cfg (info user) cfg →
  let '(e, cfg') := Traits_Allowed GIDToName GetOwner sitepath t user path cfg in
  (err_ok e = true ↔ permitted t user path cfg) ∧
  coherent_cfg (info user) cfg' ∧ same_rules cfg cfg'.
Proof.
  intros Hc.
  assert (Howned : ∀ own other,
    let '(e, cfg') := Allowed_owned GIDToName GetOwner sitepath own other no_check user path cfg in
    (err_ok e = true ↔ may user path cfg own other) ∧
    coherent_cfg (info user) cfg' ∧ same_rules cfg cfg').
  { intros own other. pose proof (Allowed_owned_spec own other no_check user path cfg Hc) as Hs.
    destruct (Allowed_owned _ _ _ _ _ _ _ _ _) as [e cfg']. destruct Hs as (He & ? & ?); [done|].
    split_and!; [|done|done]. rewrite He. naive_solver. }
  destruct t; cbn [Traits_Allowed permitted]; try (by apply Howned); try (by apply Allowed_plain_spec).
  - pose proof (Allowed_owned_spec KDownloadown KDownload CheckNoretrieve user path cfg Hc) as Hs.
    destruct (Allowed_owned _ _ _ _ _ _ _ _ _) as [e cfg']. rewrite <- CheckNoretrieve_ok.
    apply Hs. apply CheckNoretrieve_same.
  - by destruct (HiddenFile path cfg).
Qed.

Lemma PrivatePath_spec user path cfg :
  coherent_cfg (info user) cfg →
  let '(r, cfg') := PrivatePath GIDToName path user cfg in
  (r = true ↔ private user path cfg) ∧ coherent_cfg (info user) cfg' ∧ same_rules cfg cfg'.
Proof.
  intros [Hr Hp Hf]. unfold PrivatePath.
  assert (E : ∀ l, PrivatePath_loop (info user) path l =
    let '(r, l') := eval_first (starts_with path) (info user) l in
    (match r with Some b => negb b | None => false end, l')).
  { induction l as [|e l IH]; [done|]. cbn [PrivatePath_loop eval_first]. rewrite IH.
    destruct (starts_with path (arg e)); [by destruct (eval_entry _ e)|].
    by destruct (eval_first _ _ l). }
  rewrite E. pose proof (eval_first_spec (starts_with path) (info user) _ Hp) as Hs.
  destruct (eval_first _ _ (privpath cfg)) as [r l]. destruct Hs as (Hl & Em & ->).
  split_and!; [| by split | by split].
  unfold private. destruct (first_rule _ _) as [ps|]; cbn; [|naive_solver].
  pose proof (Evaluate_loop_spec ps (info user)). rewrite negb_true_iff, <- not_true_iff_false.
  naive_solver.
Qed.

Lemma permitted_same t user path cfg cfg' :
  same_rules cfg cfg' → permitted t user path cfg' ↔ permitted t user path cfg.
Proof.
  intros Hs. destruct t; cbn [permitted]; unfold may;
    rewrite ?(CheckNoretrieve_same path cfg cfg' Hs), ?(granted_same _ user path cfg cfg' Hs);
    try done.
  unfold HiddenFile. by rewrite (same_hiddenFiles _ _ Hs).
Qed.

Lemma InnerAllowed_spec t user path cfg :
  coherent_cfg (info user) cfg →
  let '(e, cfg') := InnerAllowed GIDToName GetOwner sitepath t user path cfg in
  (err_ok e = true ↔
   InsideHomeDir user path = true ∧ ¬ private user path cfg ∧ permitted t user path cfg) ∧
  coherent_cfg (info user) cfg' ∧ same_rules cfg cfg'.
Proof.
  intros Hc. unfold InnerAllowed. destruct (InsideHomeDir user path); cbn [negb].
  2: { split_and!; [naive_solver | done | done]. }
  pose proof (PrivatePath_spec user path cfg Hc) as Hs.
  destruct (PrivatePath GIDToName path user cfg) as [r cfg1]. destruct Hs as (Hr & Hc1 & Hs1).
  destruct r.
  { split_and!; [naive_solver | done | done]. }
  pose proof (Traits_Allowed_spec t user path cfg1 Hc1) as Hs.
  destruct (Traits_Allowed _ _ _ t user path cfg1) as [e cfg2]. destruct Hs as (He & Hc2 & Hs2).
  rewrite (permitted_same t user path cfg cfg1 Hs1) in He.
  split_and!; [|done|by transitivity cfg1]. rewrite He, <- Hr. naive_solver.
Qed.

(** *** Properties *)

(** C14: Who may do what.  For a configuration whose stored answers are those for
    this user, an action on a path is allowed exactly when the path, written
    with a final slash if it is a directory, lies inside the user's home
    directory, the first private path that is a prefix of it admits the user, and
    the action is granted: by the first right of the action's list that covers
    the path, or, for the owner of the file, by the owner's list; a download
    must also pass the list of names that are never retrieved.  The rules are
    left as they are, and the stored answers stay those for this user. *)
Theorem Allowed_refines t user path cfg :
  path ≠ [] → coherent_cfg (info user) cfg →
  let dir := IsDirectory (MakeReal_virtual sitepath path) in
  let path' := if dir && bool_decide (last path ≠ Some SLASH) then path ++ [SLASH] else path in
  let '(e, cfg') := Allowed GIDToName GetOwner IsDirectory sitepath t user path cfg in
  (err_ok e = true ↔
   InsideHomeDir user path' = true ∧ ¬ private user path' cfg ∧ permitted t user path' cfg) ∧
  coherent_cfg (info user) cfg' ∧ same_rules cfg cfg'.
Proof.
  intros Hne Hc. cbv zeta. unfold Allowed, DirAllowed, FileAllowed.
  destruct (IsDirectory _); cbn [andb]; [|by apply InnerAllowed_spec].
  destruct path as [|c path]; [done|]. set (p := c :: path).
  assert (Hl : char_at p (length p - 1) = SLASH ↔ last p = Some SLASH).
  { destruct (exists_last Hne) as (q & x & E). subst p. rewrite E. rewrite last_snoc.
    unfold char_at. rewrite length_app, Nat.add_sub, list_lookup_middle by done. naive_solver. }
  case_bool_decide as Hb; [rewrite decide_True by (by rewrite Hl)|
                           rewrite decide_False by (rewrite Hl; intros []; by apply Hb)];
    by apply InnerAllowed_spec.
Qed.

(** A right once used is not revoked.  After a list of rights has been asked
    about a path for a user, it gives the same answer for that path whatever
    flags the user has been given or has lost since, until the configuration is
    read again. *)
Lemma rights_not_revoked k user user' path cfg :
  name user' = name user → primaryGid user' = primaryGid user →
  let '(r, cfg') := Evaluate_key GIDToName k user path cfg in
  (Evaluate_key GIDToName k user' path cfg').1 = r.
Proof.
  intros Hn Hg. unfold Evaluate_key. rewrite Evaluate_rights_first by (by left).
  assert (Hcov : ∀ r, covers user' path r = covers user path r).
  { intros r. unfold covers, pattern. by rewrite Hn, Hg. }
  assert (Hl : ∀ l, let '(r, l') := eval_first (covers user path) (info user) l in
                    (eval_first (covers user' path) (info user') l').1 = r).
  { induction l as [|e l IH]; [done|]. cbn [eval_first].
    destruct (covers user path (arg e)) eqn:E.
    - unfold eval_entry, Evaluate. destruct (finalResult (acl e)) as [r|] eqn:F; cbn;
        rewrite Hcov, E; [|done]. unfold eval_entry, Evaluate. cbn. by rewrite F.
    - destruct (eval_first _ _ l) as [r l']. cbn [eval_first]. rewrite Hcov, E.
      by destruct (eval_first _ _ l'). }
  specialize (Hl (rights cfg k)). destruct (eval_first _ _ (rights cfg k)) as [r l].
  rewrite Evaluate_rights_first by (by left). unfold set_rights at 1. cbn [rights].
  rewrite decide_True by done. destruct (eval_first _ _ l) as [r' l']. cbn in Hl. by subst.
Qed.

(** Inside the home directory.  For a canonical home directory the test on
    strings is the test on names: a file is inside when its path goes on from
    that of the home directory, and a directory, written with a final slash,
    when it is the home directory or goes on from it.  A directory whose name
    only begins with that of the home directory is outside. *)
Lemma InsideHomeDir_spec user hs ps :
  homeDir user = render hs → Forall normal hs → Forall normal ps → ps ≠ [] →
  (InsideHomeDir user (render ps) = true ↔ ∃ rest, rest ≠ [] ∧ ps = hs ++ rest) ∧
  (InsideHomeDir user (render ps ++ [SLASH]) = true ↔ ∃ rest, ps = hs ++ rest).
Proof.
  intros Hh Hhs Hps Hne. unfold InsideHomeDir, InsideDir. rewrite Hh.
  destruct (decide (hs = [])) as [->|Hhn].
  { change (last (render [])) with (Some SLASH). cbv beta iota.
    rewrite !decide_True by done. rewrite !starts_with_spec.
    split; (split; [intros _; by exists ps | intros _]).
    - by exists (join SLASH ps).
    - by exists (join SLASH ps ++ [SLASH]). }
  destruct (last (render hs)) as [c|] eqn:El; [|by apply last_None in El].
  assert (Hc : c ≠ SLASH) by (intros ->; by apply (last_render hs Hhs Hhn)).
  rewrite !decide_False by done.
  rewrite !starts_with_spec. split.
  - split.
    + intros [k E]. rewrite <- app_assoc in E. symmetry in E.
      apply render_extend in E; [|done..]. exists (split_char SLASH k).
      split; [apply split_char_not_nil | done].
    + intros (rest & Hr & ->). exists (join SLASH rest). rewrite render_app by done.
      by rewrite <- app_assoc.
  - split.
    + intros [k E]. destruct k as [|x k _] using rev_ind.
      * rewrite app_nil_r in E. apply app_inj_tail in E as [E _].
        apply render_inj in E; [|done..]. exists []. by rewrite app_nil_r.
      * rewrite app_assoc in E. apply app_inj_tail in E as [E _]. rewrite <- app_assoc in E.
        symmetry in E. apply render_extend in E; [|done..]. by eexists.
    + intros [rest ->]. destruct (decide (rest = [])) as [->|Hr].
      * exists []. by rewrite !app_nil_r.
      * exists (join SLASH rest ++ [SLASH]). rewrite render_app by done.
        by rewrite <- !app_assoc.
Qed.

End spec.

(** ** Examples *)

Module Example.

#[export] Existing Instances ref_split ref_fnmatch ref_replace_all.

Definition regex : RegexMatch := λ s re, bool_decide (s = re).

Definition owner : UserData :=
  Transaction.set f_id 7%Z (Transaction.set f_name (lit "joe")
    (Transaction.set f_homeDir (lit "/home") (default_UserData 0))).

(** Everybody may upload below a directory of his name; /home/joe/priv is
    jane's. *)
Definition config : Config := {|
  rights k := match k with
              | KUpload => [Entry {| rpath := lit "/home/[:username:]/*"; specialVar := true |}
                                  (FromString (lit "*"))]
              | _ => []
              end;
  privpath := [Entry (lit "/home/joe/priv") (FromString (lit "-jane"))];
  pathFilter := []; hiddenFiles := []; noretrieve := []
|}.

Definition upload (path : str) : error :=
  (Allowed (λ _, lit "NoGroup") (λ _, 7%Z) (λ _, false) (lit "/site") Upload owner path config).1.

Lemma config_coherent info : coherent_cfg info config.
Proof.
  split; [intros []| |]; unfold coherent; cbn; rewrite ?Forall_cons, ?Forall_nil;
    split_and?; done.
Qed.

End Example.

(** "/home/joe/priv" hides "/home/joe/private.txt" as well. *)
Example PrivatePath_prefix : Example.upload (lit "/home/joe/private.txt") = FailureErrno ENOENT.
Proof. vm_compute. reflexivity. Qed.

Lemma Allowed_refines_witness :
  Example.upload (lit "/home/joe/f") = Success ∧
  @permitted ref_fnmatch ref_replace_all (λ _, lit "NoGroup") (λ _, 7%Z) (lit "/site") Upload
    Example.owner (lit "/home/joe/f") Example.config.
Proof.
  split; [vm_compute; reflexivity|].
  assert (Hne : lit "/home/joe/f" ≠ []) by discriminate.
  pose proof (@Allowed_refines ref_fnmatch ref_replace_all (λ _, lit "NoGroup") (λ _, 7%Z)
    (λ _, false) (lit "/site") Upload Example.owner (lit "/home/joe/f") Example.config Hne
    (Example.config_coherent _)) as Hs.
  cbv zeta in Hs. cbn [andb] in Hs.
  assert (Hok : err_ok (Example.upload (lit "/home/joe/f")) = true) by (vm_compute; reflexivity).
  unfold Example.upload in Hok.
  destruct (Allowed _ _ _ _ Upload Example.owner (lit "/home/joe/f") Example.config) as [e cfg'].
  destruct Hs as [Hs _]. by apply Hs in Hok as (_ & _ & Hp).
Defined.

Lemma rights_not_revoked_example :
  let user' := Transaction.set f_flags (lit "6") Example.owner in
  name user' = name Example.owner ∧
  (@Evaluate_key ref_fnmatch ref_replace_all (λ _, []) KUpload user' (lit "/home/joe/f")
    (@Evaluate_key ref_fnmatch ref_replace_all (λ _, []) KUpload Example.owner (lit "/home/joe/f")
       Example.config).2).1 = true.
Proof.
  split; [reflexivity|].
  pose proof (@rights_not_revoked ref_fnmatch ref_replace_all (λ _, []) KUpload Example.owner
    (Transaction.set f_flags (lit "6") Example.owner) (lit "/home/joe/f") Example.config
    eq_refl eq_refl) as Hs.
  assert (E : (@Evaluate_key ref_fnmatch ref_replace_all (λ _, []) KUpload Example.owner
                (lit "/home/joe/f") Example.config).1 = true) by (vm_compute; reflexivity).
  destruct (@Evaluate_key ref_fnmatch ref_replace_all (λ _, []) KUpload Example.owner
              (lit "/home/joe/f") Example.config) as [r cfg']. cbn [fst] in E. rewrite E in Hs. exact Hs.
Defined.

Lemma InsideHomeDir_spec_example :
  InsideHomeDir Example.owner (lit "/home/joe") = true ∧
  InsideHomeDir Example.owner (lit "/homework") = false.
Proof.
  assert (Hh : Forall normal [lit "home"]) by (apply (bool_decide_unpack (Forall normal [lit "home"])); vm_compute; exact I).
  assert (Hj : Forall normal [lit "home"; lit "joe"])
    by (apply (bool_decide_unpack (Forall normal [lit "home"; lit "joe"])); vm_compute; exact I).
  assert (Hw : Forall normal [lit "homework"]) by (apply (bool_decide_unpack (Forall normal [lit "homework"])); vm_compute; exact I).
  assert (Nj : [lit "home"; lit "joe"] ≠ []) by discriminate.
  assert (Nw : [lit "homework"] ≠ []) by discriminate.
  destruct (InsideHomeDir_spec Example.owner [lit "home"] [lit "home"; lit "joe"] eq_refl Hh Hj Nj)
    as [Ej _].
  destruct (InsideHomeDir_spec Example.owner [lit "home"] [lit "homework"] eq_refl Hh Hw Nw)
    as [Ew _].
  split; [apply Ej; exists [lit "joe"]; split; [discriminate | reflexivity]|].
  apply not_true_is_false. intros Hin. apply Ew in Hin as (rest & _ & E). discriminate.
Defined.
