(* ===== verification/Settings.v ===== *)
(** * The settings of the configuration file: cfg/setting.cpp, cfg/util.cpp

    Every setting that takes more than one word is a class with a constructor
    from the words of its line.  The constructors are functions from the words
    to a result; what they promise of the numbers in them are the [_ok]
    predicates, which Config.v collects into an invariant of the loaded
    configuration. *)

From stdpp Require Import prelude.
From S2P Require Import Prelude CxxString Errors Numbers Acl Rights Strength.
Local Open Scope Z_scope.
Local Open Scope str_scope.
Local Open Scope list_scope.

Definition wrap64 (n : Z) : Z := (n + 2 ^ 63) mod 2 ^ 64 - 2 ^ 63.

(** [s.find(t) != npos] *)
Fixpoint contains (t s : str) : bool :=
  starts_with s t || match s with [] => false | _ :: s' => contains t s' end.

Section settings.
Context `{Split, CaseConv, Fnmatch}.
(** Whether boost::regex accepts the expression *)
Context (regex_valid : str → bool).

(** ** cfg/util.cpp *)

Definition YesNoToBoolean (s : str) : cfg bool :=
  let s := to_lower s in
  if decide (s = lit "yes") then Ok true
  else if decide (s = lit "no") then Ok false else Throw BadCast.

(** The product is computed in a [long long]. *)
Definition ParseSize (s : str) : cfg Z :=
  match last s with
  | None => Throw BadCast
  | Some c =>
      let '(unit, s) := if isalpha c then (to_upper [c], removelast s) else (lit "K", s) in
      if decide (s = []) then Throw BadCast
      else
        let! kBytes := cast (StrToLLong s) in
        if kBytes <? 0 then Throw BadCast
        else if decide (unit = lit "M") then Ok (wrap64 (kBytes * 1024))
        else if decide (unit = lit "G") then Ok (wrap64 (kBytes * (1024 * 1024)))
        else if decide (unit ≠ lit "K") then Throw BadCast
        else Ok kBytes
  end.

(** ** Access control lists *)

(** The ACL that the words after the first [n] spell. *)
Definition rest_acl (n : nat) (toks : list str) : ACL := FromString (join " "%char (drop n toks)).

Definition Right_of (toks : list str) : cfg Right :=
  let! path := tok toks 0 in
  Ok (Entry {| rpath := path;
               specialVar := contains USERNAME path || contains GROUPNAME path |}
            (rest_acl 1 toks)).

Definition ACLInt_of (toks : list str) : cfg (entry Z) :=
  let! t := tok toks 0 in
  let! n := cast (StrToInt t) in
  Ok (Entry n (rest_acl 1 toks)).

Definition PathFilter_of (toks : list str) : cfg (entry str) :=
  let! re := tok toks 0 in
  if regex_valid re then Ok (Entry re (rest_acl 1 toks))
  else Throw (ConfigError (lit "Invalid regular expression.")).

Definition Privpath_of (toks : list str) : cfg (entry str) :=
  let! path := tok toks 0 in Ok (Entry path (rest_acl 1 toks)).

(** [path] and [filepath]; no word is dropped before the ACL is read. *)
Definition Msgpath_of (toks : list str) : cfg (entry (str * str)) :=
  let! path := tok toks 0 in
  let! filepath := tok toks 1 in
  Ok (Entry (path, filepath) (rest_acl 0 toks)).

(** Creditcheck and Creditloss: the path and the ratio *)
Definition CreditRule : Type := entry (str * Z).

Definition Credit_of (toks : list str) : cfg CreditRule :=
  let! path := tok toks 0 in
  let! t := tok toks 1 in
  let! ratio := cast (StrToInt t) in
  let! _u := require (0 <=? ratio) in
  Ok (Entry (path, ratio) (rest_acl 2 toks)).

Record AllowFxpRule := { fxp_downloads : bool; fxp_uploads : bool; fxp_logging : bool }.

Definition AllowFxp_of (toks : list str) : cfg (entry AllowFxpRule) :=
  let! t0 := tok toks 0 in
  let! d := YesNoToBoolean t0 in
  let! t1 := tok toks 1 in
  let! u := YesNoToBoolean t1 in
  let! t2 := tok toks 2 in
  let! l := YesNoToBoolean t2 in
  Ok (Entry {| fxp_downloads := d; fxp_uploads := u; fxp_logging := l |} (rest_acl 3 toks)).

Record SpeedLimitRule := { sl_path : str; downloads : Z; uploads : Z }.

Definition SpeedLimit_of (toks : list str) : cfg (entry SpeedLimitRule) :=
  let! path := tok toks 0 in
  let! t1 := tok toks 1 in
  let! d := ParseSize t1 in
  let! t2 := tok toks 2 in
  let! u := ParseSize t2 in
  Ok (Entry {| sl_path := path; downloads := d; uploads := u |} (rest_acl 3 toks)).

(** [SpeedLimit::Uploads()] and [SpeedLimit::Downloads()] *)
Definition SpeedLimit_Uploads (l : SpeedLimitRule) : Z := downloads l.
Definition SpeedLimit_Downloads (l : SpeedLimitRule) : Z := uploads l.

Definition SecureIp_of (toks : list str) : cfg (entry IPStrength) :=
  let! t0 := tok toks 0 in
  let! n := cast (StrToInt t0) in
  let! _u := require (0 <=? n) in
  let! t1 := tok toks 1 in
  let! host := YesNoToBoolean t1 in
  let! t2 := tok toks 2 in
  let! ident := YesNoToBoolean t2 in
  Ok (Entry {| numOctets := n; isHostname := host; hasIdent := ident |} (rest_acl 3 toks)).

Definition SecurePass_of (toks : list str) : cfg (entry PasswdStrength) :=
  let! t := tok toks 0 in Ok (Entry (PasswdStrength_of t) (rest_acl 1 toks)).

(** ** Lists of masks *)

Record AsciiDownloads := { ad_kBytes : Z; ad_masks : list str }.

Definition AsciiDownloads_of (toks : list str) : cfg AsciiDownloads :=
  let! t := tok toks 0 in
  let kBytes := match ParseSize t with Ok n => n | Throw _ => -1 end in
  let kBytes := if kBytes =? 0 then -1 else kBytes in
  Ok {| ad_kBytes := kBytes; ad_masks := drop 1 toks |}.

Definition masks_Allowed (masks : list str) (path : str) : bool :=
  match masks with [] => true | _ => existsb (λ m, WildcardMatch m path false) masks end.

Definition AsciiDownloads_Allowed (a : AsciiDownloads) (size : Z) (path : str) : bool :=
  if (0 <? ad_kBytes a) && (ad_kBytes a <? Z.quot size 1024) then false
  else masks_Allowed (ad_masks a) path.

Definition AsciiUploads_Allowed (masks : list str) (path : str) : bool := masks_Allowed masks path.

(** The path and the masks of the files to hide *)
Definition HiddenFiles_of (toks : list str) : cfg (str * list str) :=
  let! path := tok toks 0 in Ok (path, drop 1 toks).

(** ** Numbers *)

Record SimXfers := { maxDownloads : Z; maxUploads : Z }.

Definition SimXfers_of (toks : list str) : cfg SimXfers :=
  let! t0 := tok toks 0 in
  let! d := cast (StrToInt t0) in
  let! t1 := tok toks 1 in
  let! u := cast (StrToInt t1) in
  if (d <? -1) || (u <? -1) then Throw BadCast
  else Ok {| maxDownloads := d; maxUploads := u |}.

Record MaxUsers := { users : Z; exemptUsers : Z }.

Definition MaxUsers_of (toks : list str) : cfg MaxUsers :=
  let! t0 := tok toks 0 in
  let! n := cast (StrToInt t0) in
  let! _u := require (0 <=? n) in
  let! t1 := tok toks 1 in
  let! e := cast (StrToInt t1) in
  let! _u := require (0 <=? e) in
  Ok {| users := n; exemptUsers := e |}.

Record NukeMax := { multiplier : Z; percent : Z }.

Definition NukeMax_of (toks : list str) : cfg NukeMax :=
  let! t0 := tok toks 0 in
  let! m := cast (StrToInt t0) in
  let! t1 := tok toks 1 in
  let! p := cast (StrToInt t1) in
  if (m <? 0) || (p <? 0) || (100 <? p) then Throw BadCast
  else Ok {| multiplier := m; percent := p |}.

Definition NukeMax_IsOkay (n : NukeMax) (value : Z) (isPercent : bool) : bool :=
  if isPercent then (0 <=? value) && (value <=? percent n)
  else (0 <=? value) && (value <=? multiplier n).

(** [None] is a member that the constructor does not initialise. *)
Record Lslong := { options : str; maxRecursion : option Z }.

Definition Lslong_of (toks : list str) : cfg Lslong :=
  let! o := tok toks 0 in
  let o := if decide (char_at o 0 = "-"%char) then drop 1 o else o in
  if (length toks =? 1)%nat then Ok {| options := o; maxRecursion := None |}
  else
    let! t := tok toks 1 in
    let! n := cast (StrToInt t) in
    let! _u := require (0 <=? n) in
    Ok {| options := o; maxRecursion := Some n |}.

Record IdleTimeout := { maximum : Z; minimum : Z; timeout : Z }.

Definition IdleTimeout_of (toks : list str) : cfg IdleTimeout :=
  let! t0 := tok toks 0 in
  let! mx := cast (StrToLong t0) in
  let! t1 := tok toks 1 in
  let! mn := cast (StrToLong t1) in
  let! t2 := tok toks 2 in
  let! t := cast (StrToLong t2) in
  if (t <? 1) || (mn <? 1) || (mx <? 1) then Throw BadCast
  else if mx <=? mn
  then Throw (ConfigError (lit "Mnimum must be smaller than maximum in idle_timeout"))
  else if (t <? mn) || (mx <? t)
  then Throw (ConfigError (lit "Default timeout must be larger than or equal to minimum and smaller than or equal to maximum in idle_timeout"))
  else Ok {| maximum := mx; minimum := mn; timeout := t |}.

Record Log := { log_name : str; console : bool; file : bool; database : Z }.

Definition Log_of (name : str) (toks : list str) : cfg Log :=
  let! t0 := tok toks 0 in
  let! c := YesNoToBoolean t0 in
  let! t1 := tok toks 1 in
  let! f := YesNoToBoolean t1 in
  let! d := match toks !! 2%nat with Some t => cast (StrToLong t) | None => Ok 0 end in
  let! _u := require (0 <=? d) in
  Ok {| log_name := name; console := c; file := f; database := d |}.

Record TransferLog := { tl_log : Log; tl_uploads : bool; tl_downloads : bool }.

Definition TransferLog_of (name : str) (toks : list str) : cfg TransferLog :=
  let! l := Log_of name toks in
  let! t3 := tok toks 3 in
  let! u := YesNoToBoolean t3 in
  let! t4 := tok toks 4 in
  let! d := YesNoToBoolean t4 in
  Ok {| tl_log := l; tl_uploads := u; tl_downloads := d |}.

(** ** Commands, scripts and styles *)

Definition Alias_of (toks : list str) : cfg (str * str) :=
  let! t0 := tok toks 0 in
  let! t1 := tok toks 1 in Ok (to_lower t0, t1).

Inductive NukeAction : Type := DeleteAll | KeepDir | Keep.

(** The member [action] of NukeStyle is hidden by a local string of the same
    name, which takes the assignments: [None] is the uninitialised member. *)
Record NukeStyle := {
  format : str; action : option NukeAction; emptyKBytes : Z; emptyPenalty : Z
}.

Definition NukeStyle_of (toks : list str) : cfg NukeStyle :=
  let! f := tok toks 0 in
  let! t1 := tok toks 1 in
  let a := to_lower t1 in
  if bool_decide (a ≠ lit "deleteall") && bool_decide (a ≠ lit "keepdir") &&
     bool_decide (a ≠ lit "keep")
  then Throw BadCast
  else
    let! t2 := tok toks 2 in
    let! k := ParseSize t2 in
    let! t3 := tok toks 3 in
    let! p := ParseSize t3 in
    Ok {| format := f; action := None; emptyKBytes := k; emptyPenalty := p |}.

Inductive SiteCmdType : Type := CmdExec | CmdText | CmdAlias.

Record SiteCmd := {
  command : str; syntax : str; sc_type : SiteCmdType;
  description : str; target : str; arguments : str
}.

(** The target is put into upper case before it is assigned. *)
Definition SiteCmd_of (toks : list str) : cfg SiteCmd :=
  let! t0 := tok toks 0 in
  let args := Split_ t0 (lit " ") true in
  let! a0 := tok args 0 in
  let args := to_upper a0 :: drop 1 args in
  let! desc := tok toks 1 in
  let! t2 := tok toks 2 in
  let typeStr := to_upper t2 in
  let! ty := if decide (typeStr = lit "EXEC") then Ok CmdExec
             else if decide (typeStr = lit "TEXT") then Ok CmdText
             else if decide (typeStr = lit "ALIAS") then Ok CmdAlias
             else Throw BadCast in
  let! tgt := tok toks 3 in
  Ok {| command := to_upper a0; syntax := join " "%char args; sc_type := ty;
        description := desc; target := tgt;
        arguments := if (length toks =? 5)%nat then nth 4 toks [] else [] |}.

Record Cscript := { cs_command : str; cs_pre : bool; cs_path : str }.

Definition Cscript_of (toks : list str) : cfg Cscript :=
  let! t0 := tok toks 0 in
  let! t1 := tok toks 1 in
  let w := to_lower t1 in
  let! pre := if decide (w = lit "pre") then Ok true
              else if decide (w = lit "post") then Ok false else Throw BadCast in
  let! path := tok toks 2 in
  Ok {| cs_command := to_upper t0; cs_pre := pre; cs_path := path |}.

Record CheckScript := { ck_path : str; ck_mask : str; ck_disabled : bool }.

Definition CheckScript_of (toks : list str) : cfg CheckScript :=
  let! path := tok toks 0 in
  let! mask := if (length toks =? 2)%nat then tok toks 1 else Ok (lit "*") in
  Ok {| ck_path := path; ck_mask := mask; ck_disabled := bool_decide (path = lit "none") |}.

(** ** The database *)

Record Database := {
  db_name : str; hosts : list (str * Z); db_login : str; db_password : str; replicaSet : str
}.

Definition URL (d : Database) : str :=
  (match replicaSet d with [] => [] | rs => rs ++ lit "/" end) ++
  join ","%char (map (λ h, h.1 ++ lit ":" ++ to_string h.2) (hosts d)).

Definition NeedAuth (d : Database) : bool := bool_decide (db_login d ≠ []).

(** ** What the constructors promise *)

Definition SimXfers_ok (s : SimXfers) : Prop := -1 ≤ maxDownloads s ∧ -1 ≤ maxUploads s.
Definition MaxUsers_ok (m : MaxUsers) : Prop := 0 ≤ users m ∧ 0 ≤ exemptUsers m.
Definition NukeMax_ok (n : NukeMax) : Prop := 0 ≤ multiplier n ∧ 0 ≤ percent n ≤ 100.
Definition IdleTimeout_ok (t : IdleTimeout) : Prop :=
  1 ≤ minimum t ∧ minimum t < maximum t ∧ minimum t ≤ timeout t ≤ maximum t.
Definition Log_ok (l : Log) : Prop := 0 ≤ database l.
Definition Credit_ok (c : CreditRule) : Prop := 0 ≤ snd (arg c).
Definition SecureIp_ok (s : entry IPStrength) : Prop := 0 ≤ numOctets (arg s).

End settings.

Section lemmas.
Context `{Split, CaseConv, Fnmatch}.
Context (regex_valid : str → bool).

Lemma SimXfers_of_ok toks s : SimXfers_of toks = Ok s → SimXfers_ok s.
Proof. unfold SimXfers_of. intros E. cfg_inv. split; cbn; lia. Qed.

Lemma MaxUsers_of_ok toks m : MaxUsers_of toks = Ok m → MaxUsers_ok m.
Proof. unfold MaxUsers_of. intros E. cfg_inv. split; cbn; lia. Qed.

Lemma NukeMax_of_ok toks n : NukeMax_of toks = Ok n → NukeMax_ok n.
Proof. unfold NukeMax_of. intros E. cfg_inv. split; cbn; lia. Qed.

Lemma IdleTimeout_of_ok toks t : IdleTimeout_of toks = Ok t → IdleTimeout_ok t.
Proof. unfold IdleTimeout_of. intros E. cfg_inv. split; cbn; lia. Qed.

Lemma Log_of_ok name toks l : Log_of name toks = Ok l → Log_ok l.
Proof. unfold Log_of. intros E. cfg_inv. unfold Log_ok. cbn. lia. Qed.

Lemma TransferLog_of_ok name toks l : TransferLog_of name toks = Ok l → Log_ok (tl_log l).
Proof. unfold TransferLog_of. intros E. cfg_inv. cbn. by eapply Log_of_ok. Qed.

Lemma Credit_of_ok toks c : Credit_of toks = Ok c → Credit_ok c.
Proof. unfold Credit_of. intros E. cfg_inv. unfold Credit_ok. cbn. lia. Qed.

Lemma SecureIp_of_ok toks s : SecureIp_of toks = Ok s → SecureIp_ok s.
Proof. unfold SecureIp_of. intros E. cfg_inv. unfold SecureIp_ok. cbn. lia. Qed.

Lemma YesNoToBoolean_defined s : defined (YesNoToBoolean s).
Proof. unfold YesNoToBoolean. solve_defined. Qed.

Lemma ParseSize_defined s : defined (ParseSize s).
Proof. unfold ParseSize. solve_defined. Qed.

#[local] Hint Resolve YesNoToBoolean_defined ParseSize_defined : defined.

(** The constructors read no more words than the parser checks there are. *)
Tactic Notation "ctor" reference(f) := intros ?; unfold f; solve_defined; try lia.

Lemma Right_of_defined toks : (1 ≤ length toks)%nat → defined (Right_of toks).
Proof. ctor Right_of. Qed.
Lemma ACLInt_of_defined toks : (1 ≤ length toks)%nat → defined (ACLInt_of toks).
Proof. ctor ACLInt_of. Qed.
Lemma PathFilter_of_defined toks : (1 ≤ length toks)%nat → defined (PathFilter_of regex_valid toks).
Proof. ctor PathFilter_of. Qed.
Lemma Privpath_of_defined toks : (1 ≤ length toks)%nat → defined (Privpath_of toks).
Proof. ctor Privpath_of. Qed.
Lemma Credit_of_defined toks : (2 ≤ length toks)%nat → defined (Credit_of toks).
Proof. ctor Credit_of. Qed.
Lemma AllowFxp_of_defined toks : (3 ≤ length toks)%nat → defined (AllowFxp_of toks).
Proof. ctor AllowFxp_of. Qed.
Lemma SpeedLimit_of_defined toks : (3 ≤ length toks)%nat → defined (SpeedLimit_of toks).
Proof. ctor SpeedLimit_of. Qed.
Lemma SecureIp_of_defined toks : (3 ≤ length toks)%nat → defined (SecureIp_of toks).
Proof. ctor SecureIp_of. Qed.
Lemma SecurePass_of_defined toks : (1 ≤ length toks)%nat → defined (SecurePass_of toks).
Proof. ctor SecurePass_of. Qed.
Lemma HiddenFiles_of_defined toks : (1 ≤ length toks)%nat → defined (HiddenFiles_of toks).
Proof. ctor HiddenFiles_of. Qed.
Lemma SimXfers_of_defined toks : (2 ≤ length toks)%nat → defined (SimXfers_of toks).
Proof. ctor SimXfers_of. Qed.
Lemma MaxUsers_of_defined toks : (2 ≤ length toks)%nat → defined (MaxUsers_of toks).
Proof. ctor MaxUsers_of. Qed.
Lemma NukeMax_of_defined toks : (2 ≤ length toks)%nat → defined (NukeMax_of toks).
Proof. ctor NukeMax_of. Qed.
Lemma Lslong_of_defined toks : (2 ≤ length toks)%nat → defined (Lslong_of toks).
Proof. ctor Lslong_of. Qed.
Lemma IdleTimeout_of_defined toks : (3 ≤ length toks)%nat → defined (IdleTimeout_of toks).
Proof. ctor IdleTimeout_of. Qed.
Lemma Log_of_defined name toks : (2 ≤ length toks)%nat → defined (Log_of name toks).
Proof. ctor Log_of. Qed.
Lemma TransferLog_of_defined name toks : (5 ≤ length toks)%nat → defined (TransferLog_of name toks).
Proof. intros ?. unfold TransferLog_of, Log_of. solve_defined; lia. Qed.
Lemma Alias_of_defined toks : (2 ≤ length toks)%nat → defined (Alias_of toks).
Proof. ctor Alias_of. Qed.
Lemma NukeStyle_of_defined toks : (4 ≤ length toks)%nat → defined (NukeStyle_of toks).
Proof. ctor NukeStyle_of. Qed.
Lemma Cscript_of_defined toks : (3 ≤ length toks)%nat → defined (Cscript_of toks).
Proof. ctor Cscript_of. Qed.
Lemma CheckScript_of_defined toks : (1 ≤ length toks)%nat → defined (CheckScript_of toks).
Proof.
  intros ?. unfold CheckScript_of. destruct (Nat.eqb_spec (length toks) 2); solve_defined; lia.
Qed.

Lemma SiteCmd_of_defined `{!SplitOk} toks : (4 ≤ length toks)%nat → defined (SiteCmd_of toks).
Proof.
  intros Hl. unfold SiteCmd_of. solve_defined; try lia.
  unfold Split_. pose proof (split_not_nil a (lit " ") true). by destruct (split _ _ _); cbn; [|lia].
Qed.

End lemmas.

#[export] Hint Resolve YesNoToBoolean_defined ParseSize_defined Right_of_defined ACLInt_of_defined
  PathFilter_of_defined Privpath_of_defined Credit_of_defined AllowFxp_of_defined
  SpeedLimit_of_defined SecureIp_of_defined SecurePass_of_defined HiddenFiles_of_defined
  SimXfers_of_defined MaxUsers_of_defined NukeMax_of_defined Lslong_of_defined
  IdleTimeout_of_defined Log_of_defined TransferLog_of_defined Alias_of_defined
  NukeStyle_of_defined Cscript_of_defined CheckScript_of_defined SiteCmd_of_defined : defined.

(** ** Properties *)

Definition size_units : list (str * Z) :=
  [([], 1); (lit "K", 1); (lit "k", 1); (lit "M", 1024); (lit "m", 1024);
   (lit "G", 1024 * 1024); (lit "g", 1024 * 1024)].

Lemma to_string_last n : 0 ≤ n → ∃ d, last (to_string n) = Some d ∧ isdigit d = true.
Proof.
  intros Hn. destruct (to_string_digits n Hn) as (ds & -> & Hne & Hd & _).
  destruct (exists_last Hne) as (l & d & ->). exists d. split; [apply last_snoc|].
  rewrite forallb_app in Hd. apply andb_true_iff in Hd as [_ Hd]. cbn in Hd.
  by rewrite andb_true_r in Hd.
Qed.

Lemma wrap64_id n : - 2 ^ 63 ≤ n < 2 ^ 63 → wrap64 n = n.
Proof. intros Hn. unfold wrap64. rewrite Z.mod_small by lia. lia. Qed.

(** Sizes.  A number of kilobytes, or of megabytes or gigabytes marked by M
    or G in either case, is read as that many kilobytes when they fit 64 bits.
    When they do not, the product wraps around: nothing checks it, and a large
    size can be read as a small one. *)
Lemma ParseSize_spec `{CaseConvOk} n suffix m :
  0 ≤ n < 2 ^ 63 → (suffix, m) ∈ size_units →
  ParseSize (to_string n ++ suffix) = Ok (wrap64 (n * m)) ∧
  (n * m < 2 ^ 63 → ParseSize (to_string n ++ suffix) = Ok (n * m)).
Proof.
  intros Hn Hin.
  assert (E : ParseSize (to_string n ++ suffix) = Ok (wrap64 (n * m))).
  { assert (Hnum : StrToLLong (to_string n) = Some n).
    { apply StrTo_to_string; unfold LLONG_MIN, LLONG_MAX; lia. }
    destruct (to_string_digits n ltac:(lia)) as (ds & Eds & Hne & _). rewrite <- Eds in Hne.
    destruct (to_string_last n ltac:(lia)) as (d & Hd & Hdig).
    assert (Hneg : (n <? 0) = false) by lia.
    assert (H1 : ∀ c m, isalpha c = true → (to_upper [c], m) ∈ [(lit "K", 1); (lit "M", 1024); (lit "G", 1024 * 1024)] →
      ParseSize (to_string n ++ [c]) = Ok (wrap64 (n * m))).
    { clear Hin suffix m. intros c m Hc Hm. unfold ParseSize.
      rewrite last_snoc, Hc, removelast_last, decide_False by done. rewrite Hnum. cbn [cast rbind].
      rewrite Hneg. rewrite !elem_of_cons, elem_of_nil in Hm.
      destruct Hm as [[= -> ->] | [[= -> ->] | [[= -> ->] | []]]]; [|done|done].
      by rewrite Z.mul_1_r, (wrap64_id n) by lia. }
    unfold size_units in Hin. rewrite !elem_of_cons, elem_of_nil in Hin.
    destruct Hin as [[= -> ->] | Hin].
    - rewrite app_nil_r, Z.mul_1_r, (wrap64_id n) by lia. unfold ParseSize.
      rewrite Hd. destruct (isalpha d) eqn:Ha; [by rewrite isdigit_not_alpha in Ha|].
      rewrite decide_False by done. rewrite Hnum. cbn [cast rbind]. by rewrite Hneg.
    - destruct Hin as [[= -> ->] | [[= -> ->] | [[= -> ->] | [[= -> ->] | [[= -> ->] | [[= -> ->] | []]]]]]];
        apply H1; try done; rewrite to_upper_map; cbn; rewrite !elem_of_cons; tauto. }
  split; [exact E|]. intros Hs. rewrite E, wrap64_id; [done|].
  unfold size_units in Hin. rewrite !elem_of_cons, elem_of_nil in Hin.
  assert (0 ≤ m) by (destruct Hin as [[= _ ->] | [[= _ ->] | [[= _ ->] | [[= _ ->] | [[= _ ->] | [[= _ ->] | [[= _ ->] | []]]]]]]]; lia).
  nia.
Qed.

(** 2^44 gigabytes are read as nothing. *)
Lemma ParseSize_spec_example :
  @ParseSize ref_case (lit "17592186044416G") = Ok 0 ∧ @ParseSize ref_case (lit "5m") = Ok 5120.
Proof.
  assert (H1 : 0 ≤ 17592186044416 < 2 ^ 63) by lia.
  assert (H2 : 0 ≤ 5 < 2 ^ 63) by lia.
  assert (I1 : (lit "G", 1024 * 1024) ∈ size_units) by (unfold size_units; rewrite !elem_of_cons; tauto).
  assert (I2 : (lit "m", 1024) ∈ size_units) by (unfold size_units; rewrite !elem_of_cons; tauto).
  pose proof (proj1 (@ParseSize_spec ref_case ref_case_ok _ _ _ H1 I1)) as E1.
  pose proof (proj2 (@ParseSize_spec ref_case ref_case_ok _ _ _ H2 I2) ltac:(lia)) as E2.
  split; [vm_compute in E1; exact E1 | vm_compute in E2; exact E2].
Defined.

(** Words that get lost.  The action of a nuke style is never stored,
    whatever the line says; the ACL of a message path begins with the two paths,
    which are read as flags; and the target of an alias command keeps its case,
    so that an alias written in lower case names no command. *)
Lemma settings_misread `{Split, CaseConv} toks n m s t0 t1 :
  (NukeStyle_of toks = Ok n → action n = None) ∧
  (Msgpath_of (t0 :: t1 :: toks) = Ok m → acl m = FromString (join " "%char (t0 :: t1 :: toks))) ∧
  (SiteCmd_of toks = Ok s → toks !! 3%nat = Some (target s)).
Proof.
  split_and!.
  - unfold NukeStyle_of. intros E. cfg_inv. done.
  - unfold Msgpath_of. intros E. cfg_inv. done.
  - unfold SiteCmd_of. intros E. cfg_inv; cbn [target]; unfold tok in *;
      by repeat case_match; simplify_eq.
Qed.

Lemma settings_misread_example :
  ∃ n, @NukeStyle_of ref_case [lit "NUKED-%N"; lit "keep"; lit "1"; lit "1"] = Ok n ∧ action n = None.
Proof.
  destruct (@NukeStyle_of ref_case [lit "NUKED-%N"; lit "keep"; lit "1"; lit "1"]) as [n|e] eqn:E;
    [|vm_compute in E; discriminate].
  exists n. split; [reflexivity|].
  exact (proj1 (@settings_misread ref_split ref_case _ n
    (Entry ([], []) {| perms := []; finalResult := None |})
    {| command := []; syntax := []; sc_type := CmdExec; description := []; target := []; arguments := [] |}
    [] []) E).
Defined.
