(* ===== verification/Policies.v ===== *)
(** * Policies by ACL: acl/misc.cpp, stats/util.cpp

    The settings that hold for some users and not for others: messages, speed
    limits, site to site transfers, site commands, ratios, and the strength of
    passwords and IP masks.  Each is a list of rules that is searched in order;
    the model returns the list with the answers its ACLs have stored. *)

From stdpp Require Import prelude gmap strings.
From S2P Require Import Prelude CxxString Errors Numbers Acl Passwd UserData User UserCache Rights Strength Settings.
Local Open Scope Z_scope.
Local Open Scope list_scope.

(** ** Searching the rules *)

(** The first rule that passes [pre], then the ACL, then [post]. *)
Fixpoint select {A} (pre post : A → bool) (info : ACLInfo) (l : list (entry A))
    : option A * list (entry A) :=
  match l with
  | [] => (None, [])
  | e :: l' =>
      if pre (arg e) then
        let '(r, e) := eval_entry info e in
        if r && post (arg e) then (Some (arg e), e :: l')
        else let '(x, l') := select pre post info l' in (x, e :: l')
      else let '(x, l') := select pre post info l' in (x, e :: l')
  end.

(** Every such rule *)
Fixpoint select_all {A} (pre post : A → bool) (info : ACLInfo) (l : list (entry A))
    : list A * list (entry A) :=
  match l with
  | [] => ([], [])
  | e :: l' =>
      if pre (arg e) then
        let '(r, e) := eval_entry info e in
        let '(xs, l') := select_all pre post info l' in
        (if r && post (arg e) then arg e :: xs else xs, e :: l')
      else let '(xs, l') := select_all pre post info l' in (xs, e :: l')
  end.

Definition always {A} (_ : A) : bool := true.

Section code.
Context `{Split, CaseConv, Fnmatch}.
Context (GIDToName : Z → str).
Implicit Types (user : UserData) (path : str).

Abbreviation info user := (User_ACLInfo user GIDToName).

(** [message::Evaluate]; [Choose] applies it to the two lists of messages. *)
Definition message_Evaluate (rights : list Right) user : str * list Right :=
  let '(r, l) := select always always (info user) rights in
  (match r with Some a => rpath a | None => [] end, l).

(** [stats::Max] *)
Definition stats_Max (maxStats : list (entry Z)) user : Z * list (entry Z) :=
  let '(r, l) := select always always (info user) maxStats in (default (-1) r, l).

Definition covers_limit path (l : SpeedLimitRule) : bool := WildcardMatch (sl_path l) path false.

Definition UploadMaximum user path (limits : list (entry SpeedLimitRule))
    : list SpeedLimitRule * list (entry SpeedLimitRule) :=
  if HasFlag user Exempt then ([], limits)
  else select_all (λ l, 0 <? SpeedLimit_Uploads l) (covers_limit path) (info user) limits.

Definition DownloadMaximum user path (limits : list (entry SpeedLimitRule))
    : list SpeedLimitRule * list (entry SpeedLimitRule) :=
  if HasFlag user Exempt then ([], limits)
  else select_all (λ l, 0 <? SpeedLimit_Downloads l) (covers_limit path) (info user) limits.

Definition UploadMinimum user path (limits : list (entry SpeedLimitRule))
    : Z * list (entry SpeedLimitRule) :=
  let '(r, l) := select always (covers_limit path) (info user) limits in
  (match r with Some s => SpeedLimit_Uploads s | None => 0 end, l).

Definition DownloadMinimum user path (limits : list (entry SpeedLimitRule))
    : Z * list (entry SpeedLimitRule) :=
  let '(r, l) := select always (covers_limit path) (info user) limits in
  (match r with Some s => SpeedLimit_Downloads s | None => 0 end, l).

(** [AllowFxp]: whether it is allowed, the new value of [logging], the rules *)
Definition AllowFxp user (logging : bool) (isAllowed : AllowFxpRule → bool)
    (rules : list (entry AllowFxpRule)) : bool * bool * list (entry AllowFxpRule) :=
  let '(r, l) := select always always (info user) rules in
  match r with
  | Some af => (isAllowed af, fxp_logging af, l)
  | None => (false, logging, l)
  end.

Definition AllowFxpSend user logging rules := AllowFxp user logging fxp_uploads rules.
Definition AllowFxpReceive user logging rules := AllowFxp user logging fxp_downloads rules.

(** The loop of [AllowSiteCmd]; a keyword without an ACL is passed over. *)
Fixpoint AllowSiteCmd_loop user (toks : list str) (acls : gmap str ACL) : bool * gmap str ACL :=
  match toks with
  | [] => (false, acls)
  | tok :: toks' =>
      match acls !! tok with
      | None => AllowSiteCmd_loop user toks' acls
      | Some acl =>
          let '(r, acl) := Evaluate acl (info user) in
          let acls := <[tok := acl]> acls in
          if r then (true, acls) else AllowSiteCmd_loop user toks' acls
      end
  end.

Definition AllowSiteCmd user (keyword : str) (acls : gmap str ACL) : bool * gmap str ACL :=
  match Split_ keyword (lit "|") false with
  | [] => (true, acls)
  | toks => AllowSiteCmd_loop user toks acls
  end.

(** [CreditCheck] and [CreditLoss] *)
Definition CreditRule_for user path (rules : list CreditRule)
    : option (str * Z) * list CreditRule :=
  select (λ cc, WildcardMatch cc.1 path false) always (info user) rules.

Definition CreditCheck := CreditRule_for.
Definition CreditLoss := CreditRule_for.

(** [SecureIP]: the minimum that was not met, if one was not *)
Definition SecureIP user (ip : str) (rules : list (entry IPStrength))
    : option IPStrength * list (entry IPStrength) :=
  let '(r, l) := select always always (info user) rules in
  (match r with
   | Some s => if err_ok (IPStrength_Allowed s (IPStrength_of ip)) then None else Some s
   | None => None
   end, l).

Definition SecurePass user (password : str) (rules : list (entry PasswdStrength))
    : option PasswdStrength * list (entry PasswdStrength) :=
  let '(r, l) := select always always (info user) rules in
  (match r with
   | Some s => if PasswdStrength_Allowed s (PasswdStrength_of password) then None else Some s
   | None => None
   end, l).

Definition IPAllowed (cache : UserCache.UserCache) (address : str) : bool :=
  UserCache.IdentIPAllowed_any cache (lit "*@" ++ address).

(** ** Ratios: stats/util.cpp *)

(** A section: its name and its ratio *)
Definition SectionInfo : Type := (str * Z)%type.

Definition DefaultRatio user : Z := SectionRatio user [].

Definition UploadRatio user path (section : option SectionInfo) (rules : list CreditRule)
    : Z * list CreditRule :=
  let fallback rules :=
    let '(cc, rules) := CreditCheck user path rules in
    (match cc with
     | Some (_, r) => if 0 <=? r then Some r else None
     | None => None
     end, rules) in
  let after '(cc, rules) :=
    (match cc, section with
     | Some r, _ => r
     | None, Some (_, r) => if 0 <=? r then r else DefaultRatio user
     | None, None => DefaultRatio user
     end, rules) in
  match section with
  | Some (name, _) =>
      let ratio := SectionRatio user name in
      if 0 <=? ratio then (ratio, rules) else after (fallback rules)
  | None => after (fallback rules)
  end.

(** [freefile] is the answer of [FileAllowed<Freefile>]. *)
Definition DownloadRatio (freefile : bool) user path (section : option SectionInfo)
    (rules : list CreditRule) : Z * list CreditRule :=
  if freefile then (0, rules)
  else if match section with Some (name, _) => SectionRatio user name =? 0 | None => false end
  then (0, rules)
  else
    let '(cl, rules) := CreditLoss user path rules in
    let rest := match section with
                | Some (_, r) => if 0 <=? r then r else if DefaultRatio user =? 0 then 0 else 1
                | None => if DefaultRatio user =? 0 then 0 else 1
                end in
    (match cl with Some (_, r) => if 0 <=? r then r else rest | None => rest end, rules).

End code.

(** ** Lemmas *)

(** A rule applies to a user: it passes both tests and its ACL admits him. *)
Definition rule_applies {A} (pre post : A → bool) (info : ACLInfo) (r : A * list Permission) : Prop :=
  pre r.1 = true ∧ allowed r.2 info ∧ post r.1 = true.

(** The first rule that applies has the argument [a]. *)
Definition first_applies {A} (pre post : A → bool) (info : ACLInfo)
    (rules : list (A * list Permission)) (a : A) : Prop :=
  ∃ before ps after,
    rules = before ++ (a, ps) :: after ∧ rule_applies pre post info (a, ps) ∧
    Forall (λ r, ¬ rule_applies pre post info r) before.

Lemma first_applies_cons {A} pre post info (r : A * list Permission) rules a :
  first_applies pre post info (r :: rules) a ↔
  (rule_applies pre post info r ∧ r.1 = a) ∨
  (¬ rule_applies pre post info r ∧ first_applies pre post info rules a).
Proof.
  split.
  - intros (before & ps & after & E & Ha & Hb). destruct before as [|b before].
    + injection E as -> ->. by left.
    + injection E as <- ->. apply Forall_cons in Hb as [Hb1 Hb2]. right. split; [done|].
      by exists before, ps, after.
  - intros [[Ha <-] | [Hn (before & ps & after & -> & Ha & Hb)]].
    + exists [], r.2, rules. by destruct r.
    + exists (r :: before), ps, after. split_and!; [done|done|by constructor].
Qed.

Lemma select_spec {A} pre post info (l : list (entry A)) :
  coherent info l →
  let '(r, l') := select pre post info l in
  coherent info l' ∧ map erase l' = map erase l ∧
  ∀ a, r = Some a ↔ first_applies pre post info (map erase l) a.
Proof.
  induction l as [|e l IH].
  { intros _. cbn. split; [apply Forall_nil_2|]. split; [done|]. intros a. split; [done|].
    intros (before & ps & after & E & _). by destruct before. }
  intros [He Hl]%coherent_cons. specialize (IH Hl). cbn [select map].
  pose proof (λ a, first_applies_cons pre post info (erase e) (map erase l) a) as Hfc.
  change (erase e) with (arg e, perms (acl e)) in *. unfold rule_applies at 1 2 in Hfc.
  cbn [fst snd] in Hfc.
  destruct (select pre post info l) as [x l']. destruct IH as (Hl' & E & Hx).
  destruct (pre (arg e)) eqn:Hp.
  2: { split_and!; [by apply coherent_cons| by cbn; rewrite E|]. intros a. rewrite Hfc, Hx, ?Hp. naive_solver. }
  pose proof (eval_entry_spec info e He) as Hs. destruct (eval_entry info e) as [r e'].
  destruct Hs as (-> & He' & Ee). assert (Ha : arg e' = arg e) by exact (f_equal fst Ee).
  pose proof (Evaluate_loop_spec (perms (acl e)) info) as Hev. rewrite Ha.
  destruct (Evaluate_loop _ info && post (arg e)) eqn:Hb.
  - apply andb_true_iff in Hb as [Hb1 Hb2]. apply Hev in Hb1.
    split_and!; [by apply coherent_cons| by cbn; rewrite Ee|].
    intros a. rewrite Hfc, ?Hp. split; [intros [= <-]; left; by split_and! | intros [[_ <-] | [Hn _]]; [done|]].
    exfalso. by apply Hn.
  - apply andb_false_iff in Hb.
    assert (Hn : ¬ (true = true ∧ allowed (perms (acl e)) info ∧ post (arg e) = true)).
    { intros (_ & H1%Hev & H2). destruct Hb; congruence. }
    split_and!; [by apply coherent_cons| by cbn; rewrite Ee, E|].
    intros a. rewrite Hfc, Hx, ?Hp. split; [intros Hf; right; by split|]. by intros [[? _] | [_ ?]].
Qed.

Lemma eval_fresh {A} info (e : entry A) :
  finalResult (acl e) = None →
  eval_entry info e =
  (Evaluate_loop (perms (acl e)) info,
   Entry (arg e) {| perms := perms (acl e);
                    finalResult := Some (Evaluate_loop (perms (acl e)) info) |}).
Proof. intros E. unfold eval_entry, Evaluate. by rewrite E. Qed.

(** ** Properties *)

Section properties.
Context `{Split, CaseConv, Fnmatch}.
Context (GIDToName : Z → str).

(** Credit rules.  The ratio that applies to a user on a path is that of the
    first rule whose path mask matches and whose ACL admits the user; asking
    leaves the rules as they are, and the stored answers those of the user. *)
Lemma CreditCheck_first_match user path rules :
  coherent (User_ACLInfo user GIDToName) rules →
  let '(r, rules') := CreditCheck GIDToName user path rules in
  coherent (User_ACLInfo user GIDToName) rules' ∧ map erase rules' = map erase rules ∧
  ∀ a, r = Some a ↔
    ∃ before ps after,
      map erase rules = before ++ (a, ps) :: after ∧
      (WildcardMatch a.1 path false = true ∧ allowed ps (User_ACLInfo user GIDToName)) ∧
      Forall (λ b, ¬ (WildcardMatch b.1.1 path false = true ∧
                      allowed b.2 (User_ACLInfo user GIDToName))) before.
Proof.
  intros Hc. unfold CreditCheck, CreditRule_for.
  pose proof (select_spec (λ cc : str * Z, WildcardMatch cc.1 path false) always _ rules Hc) as Hs.
  destruct (select _ _ _ rules) as [r rules']. destruct Hs as (Hc' & E & Hr).
  split_and!; [done|done|]. intros a. rewrite Hr. unfold first_applies, rule_applies, always.
  split; intros (before & ps & after & -> & Ha & Hb); exists before, ps, after;
    (split; [done|]; split; [naive_solver|]);
    (eapply Forall_impl; [exact Hb|]); cbn; naive_solver.
Qed.

(** Speed limits are swapped.  A line "maximum_speed mask D U acl" (or
    minimum_speed) gives the limit D on downloads and U on uploads, says the
    manual; but for a user to whom the line applies, D is what the code takes
    for the limit on uploads and U for that on downloads. *)
Lemma speed_limits_swapped user path mask d u acls e dn up :
  SpeedLimit_of (mask :: d :: u :: acls) = Ok e →
  ParseSize d = Ok dn → ParseSize u = Ok up → HasFlag user Exempt = false →
  WildcardMatch mask path false = true →
  allowed (perms (acl e)) (User_ACLInfo user GIDToName) →
  (UploadMinimum GIDToName user path [e]).1 = dn ∧
  (DownloadMinimum GIDToName user path [e]).1 = up ∧
  map SpeedLimit_Uploads (UploadMaximum GIDToName user path [e]).1 = (if 0 <? dn then [dn] else []) ∧
  map SpeedLimit_Downloads (DownloadMaximum GIDToName user path [e]).1 = (if 0 <? up then [up] else []).
Proof.
  intros He Hd Hu Hx Hm Ha%Evaluate_loop_spec.
  assert (Hf : finalResult (acl e) = None ∧
               arg e = {| sl_path := mask; downloads := dn; uploads := up |}).
  { unfold SpeedLimit_of, tok in He. cbn [lookup list_lookup rbind] in He.
    rewrite Hd, Hu in He. cbn [rbind] in He. by injection He as <-. }
  destruct Hf as [Hf Hl].
  unfold UploadMinimum, DownloadMinimum, UploadMaximum, DownloadMaximum. rewrite Hx.
  cbn [select select_all]. rewrite (eval_fresh _ e Hf), Ha. unfold covers_limit, always.
  cbn [arg andb]. rewrite Hl. cbn [sl_path]. rewrite Hm.
  unfold SpeedLimit_Uploads, SpeedLimit_Downloads. cbn [downloads uploads].
  split_and!; [done|done| |]; by case_match.
Qed.

End properties.

(** ** Examples *)

Module Example.
#[export] Existing Instances ref_split ref_fnmatch ref_case.

Definition user : UserData := default_UserData 0.
Definition rules : list CreditRule :=
  [Entry (lit "/old/*", 1) (FromString (lit "*")); Entry (lit "/*", 3) (FromString (lit "!-joe *"))].
End Example.
Import Example.

Lemma CreditCheck_first_match_example :
  ∃ before ps after, map erase rules = before ++ ((lit "/*", 3), ps) :: after ∧ allowed ps (User_ACLInfo user (λ _, [])).
Proof.
  assert (Hc : coherent (User_ACLInfo user (λ _, [])) rules).
  { unfold coherent, rules. repeat constructor; done. }
  pose proof (CreditCheck_first_match (λ _, []) user (lit "/new/x") rules Hc) as H.
  assert (E : (CreditCheck (λ _, []) user (lit "/new/x") rules).1 = Some (lit "/*", 3))
    by (vm_compute; reflexivity).
  destruct (CreditCheck (λ _, []) user (lit "/new/x") rules) as [r rules']. cbn [fst] in E. subst r.
  destruct H as (_ & _ & Hr). destruct (proj1 (Hr _) eq_refl) as (b & ps & a & E & [_ Ha] & _).
  exists b, ps, a. split; [exact E | exact Ha].
Defined.

(** 100 kB/s down and 7 kB/s up *)
Lemma speed_limits_swapped_example :
  ∃ e, SpeedLimit_of [lit "*"; lit "100"; lit "7"; lit "*"] = Ok e ∧
       (UploadMinimum (λ _, []) user (lit "/f") [e]).1 = 100.
Proof.
  destruct (SpeedLimit_of [lit "*"; lit "100"; lit "7"; lit "*"]) as [e|x] eqn:E;
    [|vm_compute in E; discriminate].
  exists e. split; [reflexivity|].
  assert (Ha : allowed (perms (acl e)) (User_ACLInfo user (λ _, []))).
  { apply Evaluate_loop_spec. vm_compute in E. injection E as <-. vm_compute. reflexivity. }
  exact (proj1 (speed_limits_swapped (λ _, []) user (lit "/f") _ _ _ _ e 100 7 E eq_refl eq_refl
    eq_refl eq_refl Ha)).
Defined.
