(* ===== verification/Config.v ===== *)
(** * The configuration: cfg/config.cpp, cfg/section.cpp, cfg/defaults.cpp

    The state of the parser is the configuration under construction.  Its
    members are numbered by [Key], so that one operation assigns any of them;
    the chain of comparisons that dispatches an option is a table of rows, in
    the order of the source, of which the first with the name applies. *)

From Stdlib Require Import Sorted.
From stdpp Require Import prelude gmap functions.
From S2P Require Import Prelude CxxString Path Errors Numbers Mode Counters Acl Rights Strength Settings.
Local Open Scope Z_scope.
Local Open Scope str_scope.
Local Open Scope list_scope.

(** ** Data *)

Inductive EPSVFxp : Type := EPSV_Allow | EPSV_Deny | EPSV_Force.
Inductive LogAddresses : Type := Log_Never | Log_Errors | Log_Always.

(** cfg/section.hpp *)
Record SectionDef := {
  s_name : str; s_paths : list str; separateCredits : bool; s_ratio : Z
}.

Definition new_Section (name : str) : SectionDef :=
  {| s_name := name; s_paths := []; separateCredits := false; s_ratio := -1 |}.

(** The members of [Config].  The lists of rights, the private paths, the path
    filter, the hidden files and [noretrieve] are one member, [KPaths], the
    record that Rights.v works on. *)
Inductive Key : Type :=
  | KSitepath | KPidfile | KTlsCertificate | KTlsCiphers | KSitenameLong | KSitenameShort
  | KLoginPrompt | KDatapath | KBanner | KNatAddr
  | KMaster | KBouncerIp | KCalcCrc | KXdupe | KValidIp | KActiveAddr | KPasvAddr | KCdpath
  | KEventpath | KDupepath | KIndexpath | KBannedUsers | KIdleCommands | KAsciiUploads
  | KPort | KFreeSpace | KTotalUsers | KMaxSitecmdLines | KMaximumRatio | KDirSizeDepth
  | KUmask | KLogLines | KDataBufferSize
  | KBouncerOnly | KDlIncomplete | KAsyncCRC | KIdentLookup | KDnsLookup
  | KSecurityLog | KDatabaseLog | KEventLog | KErrorLog | KDebugLog | KSiteopLog | KTransferLog
  | KTlsControl | KTlsListing | KTlsData | KTlsFxp
  | KWelcomeMsg | KGoodbyeMsg | KShowDiz | KPaths
  | KAsciiDownloads | KSecureIp | KSecurePass | KMaximumSpeed | KMinimumSpeed | KSimXfers
  | KActivePorts | KPasvPorts | KAllowFxp | KAlias | KMaxUsers | KMaxUstats | KMaxGstats
  | KCscript | KLslong | KNukeMax | KCreditcheck | KCreditloss | KNukedirStyle | KMsgpath
  | KSiteCmd | KIdleTimeout | KDatabase | KPreCheck | KPreDirCheck | KPostCheck
  | KCommandACLs | KSections | KEpsvFxp | KLogAddresses.

#[export] Instance Key_eq_dec : EqDecision Key.
Proof. solve_decision. Defined.

Definition type_of (k : Key) : Type :=
  match k with
  | KSitepath | KPidfile | KTlsCertificate | KTlsCiphers | KSitenameLong | KSitenameShort
  | KLoginPrompt | KDatapath | KBanner | KNatAddr => str
  | KMaster | KBouncerIp | KCalcCrc | KXdupe | KValidIp | KActiveAddr | KPasvAddr | KCdpath
  | KEventpath | KDupepath | KIndexpath | KBannedUsers | KIdleCommands | KAsciiUploads => list str
  | KPort | KFreeSpace | KTotalUsers | KMaxSitecmdLines | KMaximumRatio | KDirSizeDepth
  | KUmask | KLogLines | KDataBufferSize => Z
  | KBouncerOnly | KDlIncomplete | KAsyncCRC | KIdentLookup | KDnsLookup => bool
  | KSecurityLog | KDatabaseLog | KEventLog | KErrorLog | KDebugLog | KSiteopLog => Log
  | KTransferLog => TransferLog
  | KTlsControl | KTlsListing | KTlsData | KTlsFxp => ACL
  | KWelcomeMsg | KGoodbyeMsg | KShowDiz => list Right
  | KPaths => Rights.Config
  | KAsciiDownloads => AsciiDownloads
  | KSecureIp => list (entry IPStrength)
  | KSecurePass => list (entry PasswdStrength)
  | KMaximumSpeed | KMinimumSpeed => list (entry SpeedLimitRule)
  | KSimXfers => SimXfers
  | KActivePorts | KPasvPorts => list (Z * Z)
  | KAllowFxp => list (entry AllowFxpRule)
  | KAlias => list (str * str)
  | KMaxUsers => MaxUsers
  | KMaxUstats | KMaxGstats => list (entry Z)
  | KCscript => list Cscript
  | KLslong => Lslong
  | KNukeMax => NukeMax
  | KCreditcheck | KCreditloss => list CreditRule
  | KNukedirStyle => NukeStyle
  | KMsgpath => list (entry (str * str))
  | KSiteCmd => list SiteCmd
  | KIdleTimeout => IdleTimeout
  | KDatabase => Database
  | KPreCheck | KPreDirCheck | KPostCheck => list CheckScript
  | KCommandACLs => gmap str ACL
  (* std::map: in the order of the names *)
  | KSections => list (str * SectionDef)
  | KEpsvFxp => EPSVFxp
  | KLogAddresses => LogAddresses
  end.

(** [currentSection] is the name of the section it points to. *)
Record Config := {
  version : Z; tool : bool;
  get : ∀ k, type_of k;
  settingsCache : gmap str Z;
  currentSection : option str
}.

Definition set (k : Key) (v : type_of k) (c : Config) : Config := {|
  version := version c; tool := tool c;
  get k' := match decide (k = k') with left e => eq_rect k type_of v k' e | right _ => get c k' end;
  settingsCache := settingsCache c; currentSection := currentSection c |}.

Definition set_settingsCache (m : gmap str Z) (c : Config) : Config := {|
  version := version c; tool := tool c; get := get c;
  settingsCache := m; currentSection := currentSection c |}.

Definition set_currentSection (s : option str) (c : Config) : Config := {|
  version := version c; tool := tool c; get := get c;
  settingsCache := settingsCache c; currentSection := s |}.

Lemma get_set k v c : get (set k v c) k = v.
Proof. cbn. destruct (decide (k = k)) as [e|]; [|done]. by rewrite (proof_irrel e eq_refl). Qed.

Lemma get_set_ne k k' v c : k ≠ k' → get (set k v c) k' = get c k'.
Proof. intros Hk. cbn. by destruct (decide (k = k')). Qed.

(** The lists of std::string compare as std::map's keys do, byte by byte. *)
Fixpoint str_ltb (s t : str) : bool :=
  match s, t with
  | _, [] => false
  | [], _ :: _ => true
  | c :: s', d :: t' => if decide (c = d) then str_ltb s' t' else code c <? code d
  end.

(** [sections.insert]: [None] when the key is there already. *)
Fixpoint map_insert {A} (k : str) (v : A) (l : list (str * A)) : option (list (str * A)) :=
  match l with
  | [] => Some [(k, v)]
  | (k', v') :: l' =>
      if decide (k = k') then None
      else if str_ltb k k' then Some ((k, v) :: l)
      else match map_insert k v l' with Some l' => Some ((k', v') :: l') | None => None end
  end.

(** An assignment through the pointer to the section [name] *)
Definition map_alter {A} (f : A → A) (name : str) (l : list (str * A)) : list (str * A) :=
  map (λ kv, if decide (kv.1 = name) then (kv.1, f kv.2) else kv) l.

Definition map_find {A} (name : str) (l : list (str * A)) : option A := assoc name l.

(** ** The parser *)

Definition Handler : Type := list str → Config → cfg Config.

Definition TAB : ascii := ascii_of_N 9.

Section parser.
Context `{Split, CaseConv, Trim, ReplaceAll, Fnmatch}.
(** Whether boost::regex accepts an expression, the commands that have an ACL
    keyword ([Config::aclKeywords]) and the umask of the process *)
Context (regex_valid : str → bool) (aclKeywords : list str) (CurrentUmask : Z).

Definition ParameterCheck (opt : str) (toks : list str) (minimum maximum : Z) : cfg unit :=
  let toksSize := Z.of_nat (length toks) in
  if (toksSize <? minimum) || (negb (maximum =? -1) && (maximum <? toksSize))
  then Throw (ConfigError (lit "Wrong numer of parameters for " ++ opt))
  else Ok tt.

(** A row of the chain whose branch begins with [ParameterCheck] *)
Definition row (opt : str) (minimum maximum : Z) (h : Handler) : str * Handler :=
  (opt, λ toks c, let! _u := ParameterCheck opt toks minimum maximum in h toks c).

(** The branches that the chain repeats *)
Definition assign (k : Key) (build : list str → cfg (type_of k)) : Handler :=
  λ toks c, let! v := build toks in Ok (set k v c).

Definition update (k : Key) (build : list str → type_of k → cfg (type_of k)) : Handler :=
  λ toks c, let! v := build toks (get c k) in Ok (set k v c).

(** [<member> = toks[0]] and so on *)
Definition first {A} (convert : str → cfg A) (toks : list str) : cfg A :=
  let! t := tok toks 0 in convert t.
Definition string_ (s : str) : cfg str := Ok s.
Definition int_ (ok : Z → bool) (s : str) : cfg Z :=
  let! n := cast (StrToInt s) in
  let! _u := require (ok n) in Ok n.

(** [<member>.insert(end, toks.begin(), toks.end())] *)
Definition append (toks l : list str) : cfg (list str) := Ok (l ++ toks).

(** [<member>.emplace_back(toks)] *)
Definition emplace {A} (build : list str → cfg A) (toks : list str) (l : list A) : cfg (list A) :=
  let! a := build toks in Ok (l ++ [a]).

Definition emplace_right (k : Rights.Key) : Handler :=
  update KPaths (λ toks p,
    let! l := emplace Right_of toks (rights p k) in Ok (set_rights k l p)).

Definition acl_ (toks : list str) : cfg ACL := Ok (FromString (join " "%char toks)).

Definition set_name (n : str) (d : Database) : Database :=
  {| db_name := n; hosts := hosts d; db_login := db_login d;
     db_password := db_password d; replicaSet := replicaSet d |}.
Definition set_hosts (l : list (str * Z)) (d : Database) : Database :=
  {| db_name := db_name d; hosts := l; db_login := db_login d;
     db_password := db_password d; replicaSet := replicaSet d |}.
Definition set_auth (l p : str) (d : Database) : Database :=
  {| db_name := db_name d; hosts := hosts d; db_login := l;
     db_password := p; replicaSet := replicaSet d |}.
Definition set_replicaSet (r : str) (d : Database) : Database :=
  {| db_name := db_name d; hosts := hosts d; db_login := db_login d;
     db_password := db_password d; replicaSet := r |}.

Definition port_ok (n : Z) : bool := (0 <=? n) && (n <=? 65535).

(** A word of [db_host] *)
Definition host_of (t : str) : cfg (str * Z) :=
  match Split_ t (lit ":") false with
  | [host; port] => let! n := int_ port_ok port in Ok (host, n)
  | _ => Throw BadCast
  end.

Definition globals_database : list (str * Handler) := [
  row (lit "db_name") 1 1 (update KDatabase (λ toks d,
    let! t := tok toks 0 in Ok (set_name t d)));
  row (lit "db_host") 1 (-1) (update KDatabase (λ toks d,
    let! l := rmap host_of toks in Ok (set_hosts (hosts d ++ l) d)));
  row (lit "db_auth") 2 2 (update KDatabase (λ toks d,
    let! t0 := tok toks 0 in let! t1 := tok toks 1 in Ok (set_auth t0 t1 d)));
  row (lit "db_replicaset") 1 1 (update KDatabase (λ toks d,
    let! t := tok toks 0 in Ok (set_replicaSet t d)))
].

Definition globals_site : list (str * Handler) := [
  row (lit "sitepath") 1 1 (assign KSitepath (first string_));
  row (lit "pidfile") 1 1 (assign KPidfile (first string_));
  row (lit "port") 1 1 (assign KPort (first (int_ port_ok)));
  row (lit "tls_certificate") 1 1 (assign KTlsCertificate (first string_));
  row (lit "tls_ciphers") 1 1 (assign KTlsCiphers (first string_));
  row (lit "datapath") 1 1 (assign KDatapath (first string_));
  row (lit "banner") 1 1 (assign KBanner (first string_));
  (lit "ascii_downloads", assign KAsciiDownloads AsciiDownloads_of);
  (lit "ascii_uploads", assign KAsciiUploads (λ toks, Ok toks));
  row (lit "free_space") 1 1 (assign KFreeSpace (first ParseSize));
  row (lit "total_users") 1 1 (assign KTotalUsers (first (int_ (λ n, -1 <=? n))));
  row (lit "nuke_max") 2 2 (assign KNukeMax NukeMax_of);
  row (lit "max_sitecmd_lines") 1 1 (assign KMaxSitecmdLines (first (int_ (λ n, -1 <=? n))));
  row (lit "dl_incomplete") 1 1 (assign KDlIncomplete (first YesNoToBoolean));
  row (lit "sitename_long") 1 1 (assign KSitenameLong (first string_));
  row (lit "sitename_short") 1 1 (assign KSitenameShort (first string_));
  row (lit "login_prompt") 1 1 (assign KLoginPrompt (first string_));
  row (lit "master") 1 (-1) (update KMaster append);
  row (lit "bouncer_ip") 1 (-1) (update KBouncerIp append)
].

Definition globals_logs : list (str * Handler) := [
  row (lit "security_log") 3 3 (assign KSecurityLog (Log_of (lit "security")));
  row (lit "database_log") 2 2 (assign KDatabaseLog (Log_of (lit "database")));
  row (lit "event_log") 3 3 (assign KEventLog (Log_of (lit "events")));
  row (lit "debug_log") 3 3 (assign KDebugLog (Log_of (lit "debug")));
  row (lit "error_log") 3 3 (assign KErrorLog (Log_of (lit "errors")));
  row (lit "siteop_log") 3 3 (assign KSiteopLog (Log_of (lit "siteop")));
  row (lit "transfer_log") 5 5 (assign KTransferLog (TransferLog_of (lit "transfer")));
  row (lit "bouncer_only") 1 1 (assign KBouncerOnly (first YesNoToBoolean))
].

Definition globals_lists : list (str * Handler) := [
  row (lit "calc_crc") 1 (-1) (update KCalcCrc append);
  row (lit "xdupe") 1 (-1) (update KXdupe append);
  row (lit "valid_ip") 1 (-1) (update KValidIp append);
  row (lit "active_addr") 1 (-1) (update KActiveAddr append);
  row (lit "banned_users") 1 (-1) (update KBannedUsers append);
  row (lit "idle_commands") 1 (-1) (update KIdleCommands (λ toks l,
    Ok (map to_upper (l ++ toks))));
  row (lit "noretrieve") 1 (-1) (update KPaths (λ toks p,
    let! l := append toks (noretrieve p) in Ok (set_noretrieve l p)));
  row (lit "maximum_speed") 4 (-1) (update KMaximumSpeed (emplace SpeedLimit_of));
  row (lit "minimum_speed") 4 (-1) (update KMinimumSpeed (emplace SpeedLimit_of));
  row (lit "sim_xfers") 2 2 (assign KSimXfers SimXfers_of);
  row (lit "secure_ip") 4 (-1) (update KSecureIp (emplace SecureIp_of));
  row (lit "secure_pass") 2 (-1) (update KSecurePass (emplace SecurePass_of));
  row (lit "pasv_addr") 1 (-1) (update KPasvAddr append);
  row (lit "nat_addr") 1 1 (assign KNatAddr (first string_));
  row (lit "active_ports") 1 (-1) (assign KActivePorts Ports);
  (lit "pasv_ports", assign KPasvPorts Ports);
  row (lit "allow_fxp") 4 (-1) (update KAllowFxp (emplace AllowFxp_of));
  row (lit "welcome_msg") 2 (-1) (update KWelcomeMsg (emplace Right_of));
  row (lit "goodbye_msg") 2 (-1) (update KGoodbyeMsg (emplace Right_of));
  row (lit "cdpath") 1 (-1) (update KCdpath append);
  row (lit "alias") 2 2 (update KAlias (emplace Alias_of))
].

Definition globals_rights : list (str * Handler) := [
  row (lit "delete") 2 (-1) (emplace_right KDelete);
  row (lit "deleteown") 2 (-1) (emplace_right KDeleteown);
  row (lit "overwrite") 2 (-1) (emplace_right KOverwrite);
  row (lit "overwriteown") 2 (-1) (emplace_right KOverwriteown);
  row (lit "resume") 2 (-1) (emplace_right KResume);
  row (lit "resumeown") 2 (-1) (emplace_right KResumeown);
  row (lit "rename") 2 (-1) (emplace_right KRename);
  row (lit "renameown") 2 (-1) (emplace_right KRenameown);
  row (lit "move") 2 (-1) (emplace_right KMove);
  row (lit "moveown") 2 (-1) (emplace_right KMoveown);
  row (lit "makedir") 2 (-1) (emplace_right KMakedir);
  row (lit "upload") 2 (-1) (emplace_right KUpload);
  row (lit "download") 2 (-1) (emplace_right KDownload);
  row (lit "downloadown") 2 (-1) (emplace_right KDownloadown);
  row (lit "modify") 2 (-1) (emplace_right KModify);
  row (lit "modifyown") 2 (-1) (emplace_right KModifyown);
  row (lit "nuke") 2 (-1) (emplace_right KNuke);
  row (lit "event_path") 1 (-1) (update KEventpath append);
  row (lit "dupe_path") 1 (-1) (update KDupepath append);
  row (lit "index_path") 1 (-1) (update KIndexpath append);
  row (lit "hideinwho") 2 (-1) (emplace_right KHideinwho);
  row (lit "freefile") 2 (-1) (emplace_right KFreefile);
  row (lit "nostats") 2 (-1) (emplace_right KNostats);
  row (lit "hideowner") 2 (-1) (emplace_right KHideowner);
  row (lit "show_diz") 2 (-1) (update KShowDiz (emplace Right_of));
  row (lit "path_filter") 2 (-1) (update KPaths (λ toks p,
    let! l := emplace (PathFilter_of regex_valid) toks (pathFilter p) in
    Ok (set_pathFilter l p)))
].

Definition globals_limits : list (str * Handler) := [
  row (lit "max_users") 2 2 (assign KMaxUsers MaxUsers_of);
  row (lit "max_ustats") 2 (-1) (update KMaxUstats (emplace ACLInt_of));
  row (lit "max_gstats") 2 (-1) (update KMaxGstats (emplace ACLInt_of));
  row (lit "cscript") 3 3 (update KCscript (emplace Cscript_of));
  row (lit "lslong") 2 2 (assign KLslong Lslong_of);
  row (lit "hidden_files") 2 (-1) (update KPaths (λ toks p,
    let! l := emplace HiddenFiles_of toks (hiddenFiles p) in Ok (set_hiddenFiles l p)));
  row (lit "creditcheck") 3 (-1) (update KCreditcheck (emplace Credit_of));
  row (lit "creditloss") 3 (-1) (update KCreditloss (emplace Credit_of));
  row (lit "nuke_style") 4 4 (assign KNukedirStyle NukeStyle_of);
  row (lit "msg_path") 1 (-1) (update KMsgpath (emplace Msgpath_of));
  row (lit "privpath") 1 (-1) (update KPaths (λ toks p,
    let! l := emplace Privpath_of toks (privpath p) in Ok (set_privpath l p)));
  row (lit "site_cmd") 4 5 (update KSiteCmd (emplace SiteCmd_of));
  row (lit "idle_timeout") 3 3 (assign KIdleTimeout IdleTimeout_of);
  row (lit "pre_check") 1 2 (update KPreCheck (emplace CheckScript_of));
  row (lit "pre_dir_check") 1 2 (update KPreDirCheck (emplace CheckScript_of));
  row (lit "post_check") 1 2 (update KPostCheck (emplace CheckScript_of))
].

(** [section]: the new section becomes the current one. *)
Definition begin_section : Handler := λ toks c,
  let! t := tok toks 0 in
  let name := to_upper t in
  match map_insert name (new_Section name) (get c KSections) with
  | None => Throw (ConfigError (lit "Section " ++ name ++ lit " already exists."))
  | Some l => Ok (set_currentSection (Some name) (set KSections l c))
  end.

Definition EPSVFxp_of (s : str) : cfg EPSVFxp :=
  let s := to_lower s in
  if decide (s = lit "allow") then Ok EPSV_Allow
  else if decide (s = lit "deny") then Ok EPSV_Deny
  else if decide (s = lit "force") then Ok EPSV_Force
  else Throw (ConfigError (lit "epsv_fxp must be allow, deny or force")).

(** [util::EnumFromString], which compares without case *)
Definition LogAddresses_of (s : str) : cfg LogAddresses :=
  let s := to_lower s in
  if decide (s = lit "never") then Ok Log_Never
  else if decide (s = lit "errors") then Ok Log_Errors
  else if decide (s = lit "always") then Ok Log_Always
  else Throw BadCast.

Definition umask_of (s : str) : cfg Z :=
  match NumericModeFromString s with Ok n => Ok n | Throw _ => Throw BadCast end.

Definition globals_misc : list (str * Handler) := [
  row (lit "section") 1 1 begin_section;
  row (lit "epsv_fxp") 1 1 (assign KEpsvFxp (first EPSVFxp_of));
  row (lit "maximum_ratio") 1 1 (assign KMaximumRatio (first (int_ (λ n, 0 <=? n))));
  row (lit "dir_size_depth") 1 1 (assign KDirSizeDepth (first (int_ (λ n, 0 <=? n))));
  row (lit "async_crc") 1 1 (assign KAsyncCRC (first YesNoToBoolean));
  row (lit "ident_lookup") 1 1 (assign KIdentLookup (first YesNoToBoolean));
  row (lit "dns_lookup") 1 1 (assign KDnsLookup (first YesNoToBoolean));
  row (lit "log_addresses") 1 1 (assign KLogAddresses (first LogAddresses_of));
  row (lit "umask") 1 1 (assign KUmask (first umask_of));
  row (lit "log_lines") 1 1 (assign KLogLines (first (int_ (λ n, 0 <=? n))));
  row (lit "data_buffer_size") 1 1 (assign KDataBufferSize (first (int_ (λ n, 0 <=? n))));
  (lit "tls_control", assign KTlsControl acl_);
  (lit "tls_listing", assign KTlsListing acl_);
  (lit "tls_data", assign KTlsData acl_);
  (lit "tls_fxp", assign KTlsFxp acl_)
].

Definition globals : list (str * Handler) :=
  globals_database ++ globals_site ++ globals_logs ++ globals_lists ++ globals_rights ++
  globals_limits ++ globals_misc.

(** [commandACLs.insert] keeps the ACL that is there. *)
Definition insert_acl (keyword : str) (toks : list str) (m : gmap str ACL) : gmap str ACL :=
  match m !! keyword with
  | Some _ => m
  | None => <[keyword := FromString (join " "%char toks)]> m
  end.

(** [-<keyword>] and [custom-<command>] *)
Definition command_acl (opt : str) : Handler := λ toks c,
  let! _u := ParameterCheck opt toks 1 (-1) in
  let keyword := drop 1 opt in
  if negb (bool_decide (keyword ∈ aclKeywords)) && negb (tool c)
  then Throw (ConfigError (lit "Invalid command acl keyword: " ++ keyword))
  else Ok (set KCommandACLs (insert_acl keyword toks (get c KCommandACLs)) c).

Definition custom_acl (opt : str) : Handler := λ toks c,
  let! _u := ParameterCheck opt toks 1 (-1) in
  let cmd := to_upper (drop 7 opt) in
  if negb (existsb (λ sc, bool_decide (command sc = cmd)) (get c KSiteCmd : list SiteCmd))
     && negb (tool c)
  then Throw (ConfigError (lit "Invalid custom command acl keyword: " ++ cmd))
  else Ok (set KCommandACLs (insert_acl (to_lower opt) toks (get c KCommandACLs)) c).

Definition ParseGlobal (opt : str) : Handler := λ toks c,
  if decide (char_at opt 0 = "-"%char) then command_acl opt toks c
  else if starts_with opt (lit "custom-") then custom_acl opt toks c
  else match assoc opt globals with
       | Some h => h toks c
       | None => Throw (ConfigError (lit "Invalid global config option: " ++ opt))
       end.

(** An option of the section that [currentSection] points to *)
Definition in_section (name : str) (f : list str → SectionDef → cfg SectionDef) : Handler :=
  λ toks c,
  match map_find name (get c KSections) with
  | None => Throw Undefined
  | Some s => let! s' := f toks s in
              Ok (set KSections (map_alter (λ _, s') name (get c KSections)) c)
  end.

Definition section_options (name : str) : list (str * Handler) := [
  row (lit "path") 1 (-1) (in_section name (λ toks s,
    Ok {| s_name := s_name s; s_paths := s_paths s ++ toks;
          separateCredits := separateCredits s; s_ratio := s_ratio s |}));
  row (lit "separate_credits") 1 1 (in_section name (λ toks s,
    let! b := first YesNoToBoolean toks in
    Ok {| s_name := s_name s; s_paths := s_paths s;
          separateCredits := b; s_ratio := s_ratio s |}));
  row (lit "ratio") 1 1 (in_section name (λ toks s,
    let! n := first (int_ (λ n, 0 <=? n)) toks in
    Ok {| s_name := s_name s; s_paths := s_paths s;
          separateCredits := separateCredits s; s_ratio := n |}));
  (lit "endsection", λ _ c, Ok (set_currentSection None c))
].

Definition ParseSection (name opt : str) : Handler := λ toks c,
  match assoc opt (section_options name) with
  | Some h => h toks c
  | None => Throw (ConfigError (lit "Invalid section config option: " ++ opt))
  end.

(** [settingsCache[opt]++] *)
Definition count_setting (opt : str) (c : Config) : Config :=
  set_settingsCache (<[opt := default 0 (settingsCache c !! opt) + 1]> (settingsCache c)) c.

Definition dispatch (opt : str) (toks : list str) (c : Config) : cfg Config :=
  let opt := to_lower opt in
  let c := count_setting opt c in
  match currentSection c with
  | Some name => ParseSection name opt toks c
  | None => ParseGlobal opt toks c
  end.

(** The words of a line *)
Definition words (line : str) : list str :=
  map (λ t, replace_all t (lit "[:space:]") (lit " ")) (Split_ (trim line) [TAB; " "%char] true).

Definition Parse (line : str) (c : Config) : cfg Config :=
  match words line with
  | [] => Ok c
  | opt :: toks => if decide (opt = []) then Ok c else dispatch opt toks c
  end.

(** ** Loading a file *)

(** std::getline until the end of the file *)
Fixpoint getlines (s : str) : list str :=
  match s with
  | [] => []
  | c :: s' =>
      if decide (c = LF) then [] :: getlines s'
      else match getlines s' with [] => [[c]] | l :: ls => (c :: l) :: ls end
  end.

(** [line.find_first_of('#')] and [line.erase(pos)] *)
Definition strip_comment (line : str) : str :=
  match find "#"%char line with Some pos => take pos line | None => line end.

Definition at_line {A} (i : nat) (r : cfg A) : cfg A :=
  let message text := lit "Error in config at line " ++ to_string (Z.of_nat i) ++ lit ": " ++ text in
  match r with
  | Throw (ConfigError m) => Throw (ConfigError (message m))
  | Throw (RequiredSettingError s) =>
      Throw (ConfigError (message (lit "Missing required setting: " ++ s)))
  | Throw BadCast => Throw (ConfigError (message (lit "Invalid value")))
  | _ => r
  end.

Definition ParseLine (i : nat) (line : str) (c : Config) : cfg Config :=
  let line := strip_comment line in
  if decide (line = []) then Ok c
  else at_line i (Parse (replace_all line (lit "[:hash:]") (lit "#")) c).

Fixpoint ParseLines (i : nat) (lines : list str) (c : Config) : cfg Config :=
  match lines with
  | [] => Ok c
  | l :: ls => let! c := ParseLine i l c in ParseLines (S i) ls c
  end.

Definition CheckSetting (name : str) (c : Config) : bool :=
  bool_decide (is_Some (settingsCache c !! name)).

Definition requiredSettings : list str :=
  [lit "sitepath"; lit "datapath"; lit "port"; lit "valid_ip"].

Definition defaultAllowFxp : entry AllowFxpRule :=
  Entry {| fxp_downloads := true; fxp_uploads := true; fxp_logging := false |} (FromString (lit "*")).
Definition defaultPathFilter : entry str :=
  Entry (lit "^[[\]A-Za-z0-9_'()[:space:]][[\]A-Za-z0-9_.'()[:space:]-]+$") (FromString (lit "*")).
Definition defaultDatabaseName : str := lit "ebftpd".
Definition defaultDatabaseAddress : str := lit "localhost".
Definition defaultDatabasePort : Z := 27017.

Definition default_prompt (c : Config) : Config :=
  if decide ((get c KLoginPrompt : str) = [])
  then set KLoginPrompt (get c KSitenameLong ++ lit ": ebftpd connected.") c else c.

Definition default_rules (c : Config) : Config :=
  let c := if decide (length (get c KAllowFxp) = 0%nat)
           then set KAllowFxp [defaultAllowFxp] c else c in
  if decide (length (pathFilter (get c KPaths)) = 0%nat)
  then set KPaths (set_pathFilter [defaultPathFilter] (get c KPaths)) c else c.

Definition default_database (c : Config) : Config :=
  let c := if CheckSetting (lit "db_name") c then c
           else set KDatabase (set_name defaultDatabaseName (get c KDatabase)) c in
  if CheckSetting (lit "db_host") c then c
  else set KDatabase (set_hosts (hosts (get c KDatabase) ++
         [(defaultDatabaseAddress, defaultDatabasePort)]) (get c KDatabase)) c.

Definition SanityCheck (c : Config) : cfg Config :=
  match List.find (λ s, negb (CheckSetting s c)) requiredSettings with
  | Some s => Throw (RequiredSettingError s)
  | None =>
      let c := default_database (default_rules (default_prompt c)) in
      if (1 <? length (hosts (get c KDatabase)))%nat && negb (CheckSetting (lit "db_replicaset") c)
      then Throw (RequiredSettingError (lit "db_replicaset"))
      else Ok c
  end.

(** The members the constructor does not name get the value of their default
    constructor. *)
Definition default_value (k : Key) : type_of k :=
  match k with
  | KSitepath | KPidfile | KTlsCertificate | KTlsCiphers | KLoginPrompt | KDatapath
  | KBanner | KNatAddr => []
  | KSitenameLong => lit "EBFTPD"
  | KSitenameShort => lit "EB"
  | KMaster | KBouncerIp | KCalcCrc | KXdupe | KValidIp | KActiveAddr | KPasvAddr | KCdpath
  | KEventpath | KDupepath | KIndexpath | KBannedUsers | KIdleCommands | KAsciiUploads => []
  | KPort => -1
  | KFreeSpace => 1048576
  | KTotalUsers => -1
  | KMaxSitecmdLines => 100
  | KMaximumRatio => 10
  | KDirSizeDepth => 2
  | KUmask => CurrentUmask
  | KLogLines => 100
  | KDataBufferSize => 16384
  | KBouncerOnly => false
  | KDlIncomplete => true
  | KAsyncCRC => false
  | KIdentLookup | KDnsLookup => true
  | KSecurityLog => Build_Log (lit "security") true true 0
  | KDatabaseLog => Build_Log (lit "database") true true 0
  | KEventLog => Build_Log (lit "events") true true 0
  | KErrorLog => Build_Log (lit "errors") true true 0
  | KDebugLog => Build_Log (lit "debug") false false 0
  | KSiteopLog => Build_Log (lit "siteop") true true 0
  | KTransferLog => {| tl_log := Build_Log (lit "transfer") false false 0;
                       tl_uploads := false; tl_downloads := false |}
  | KTlsControl | KTlsListing => FromString (lit "*")
  | KTlsData | KTlsFxp => FromString (lit "!*")
  | KWelcomeMsg | KGoodbyeMsg | KShowDiz => []
  | KPaths => {| rights _ := []; privpath := []; pathFilter := []; hiddenFiles := [];
                 noretrieve := [] |}
  | KAsciiDownloads => {| ad_kBytes := -1; ad_masks := [] |}
  | KSecureIp => []
  | KSecurePass => []
  | KMaximumSpeed | KMinimumSpeed => []
  | KSimXfers => {| maxDownloads := -1; maxUploads := -1 |}
  | KActivePorts | KPasvPorts => []
  | KAllowFxp => []
  | KAlias => []
  | KMaxUsers => {| users := 50; exemptUsers := 5 |}
  | KMaxUstats | KMaxGstats => []
  | KCscript => []
  | KLslong => {| options := lit "l"; maxRecursion := Some 2 |}
  | KNukeMax => {| multiplier := 10; percent := 50 |}
  | KCreditcheck | KCreditloss => []
  | KNukedirStyle => {| format := lit "NUKED-%N"; action := Some Keep; emptyKBytes := 1024;
                        emptyPenalty := 1048576 |}
  | KMsgpath => []
  | KSiteCmd => []
  | KIdleTimeout => {| maximum := 7200; minimum := 1; timeout := 900 |}
  | KDatabase => {| db_name := []; hosts := []; db_login := []; db_password := [];
                    replicaSet := [] |}
  | KPreCheck | KPreDirCheck | KPostCheck => []
  | KCommandACLs => ∅
  | KSections => []
  | KEpsvFxp => EPSV_Allow
  | KLogAddresses => Log_Always
  end.

(** The static members of [Config] *)
Record Statics := {
  latestVersion : Z; lastConfigPath : str; maxOnline : option MaxUsers
}.

(** [Config::Config]; [read] opens and reads a file.  The version is taken
    before anything can fail, the limit of users online from the first
    configuration that loads. *)
Definition new_Config (read : str → option str) (configPath : str) (tool : bool) (st : Statics)
    : cfg Config * Statics :=
  let st := {| latestVersion := latestVersion st + 1; lastConfigPath := lastConfigPath st;
               maxOnline := maxOnline st |} in
  let c0 := {| version := latestVersion st; tool := tool; get := default_value;
               settingsCache := ∅; currentSection := None |} in
  let r := match read configPath with
           | None => Throw (ConfigError (lit "Unable to open config file."))
           | Some text => let! c := ParseLines 1 (getlines text) c0 in SanityCheck c
           end in
  match r with
  | Throw _ => (r, st)
  | Ok c => (r, {| latestVersion := latestVersion st; lastConfigPath := lastConfigPath st;
                   maxOnline := Some (default (get c KMaxUsers) (maxOnline st)) |})
  end.

Definition configSearch : list str := [lit "../etc"; lit "etc"; lit "."].
Definition configFile : str := lit "ebftpd.conf".

(** [Config::Load]; [exists_] is access(2). *)
Definition Load (exists_ : str → bool) (read : str → option str) (configPath : str)
    (tool : bool) (st : Statics) : cfg Config * Statics :=
  let configPaths := if decide (configPath = []) then map (λ cs, Join cs configFile) configSearch
                     else [configPath] in
  match List.find exists_ configPaths with
  | None => (Throw (ConfigError (lit "Unable to open config file.")), st)
  | Some cp =>
      new_Config read cp tool
        {| latestVersion := latestVersion st; lastConfigPath := cp; maxOnline := maxOnline st |}
  end.

(** ** Questions to the configuration *)

Definition IsBouncer (ip : str) (c : Config) : bool :=
  existsb (λ bip, bool_decide (ip = bip)) (get c KBouncerIp).

Definition Section_IsMatch (path : str) (s : SectionDef) : bool :=
  existsb (λ p, WildcardMatch p path false) (s_paths s).

Definition SectionMatch (path : str) (isDir : bool) (c : Config) : option SectionDef :=
  if decide (path = []) then None
  else
    let path := if isDir && negb (bool_decide (last path = Some "/"%char))
                then path ++ lit "/" else path in
    match List.find (λ kv, Section_IsMatch path kv.2) (get c KSections) with
    | Some kv => Some kv.2
    | None => None
    end.

(** [IsEventLogged], [IsDupeLogged] and [IsIndexed] *)
Definition matches_dir (masks : list str) (path : str) : bool :=
  if decide (path = []) then false
  else
    let path := path ++ (if bool_decide (last path = Some "/"%char) then [] else lit "/") in
    existsb (λ p, WildcardMatch p path false) masks.

Definition IsEventLogged (path : str) (c : Config) : bool := matches_dir (get c KEventpath) path.
Definition IsDupeLogged (path : str) (c : Config) : bool := matches_dir (get c KDupepath) path.
Definition IsIndexed (path : str) (c : Config) : bool := matches_dir (get c KIndexpath) path.

End parser.

(** ** The configuration shared by the threads: cfg/get.cpp

    [sharedMutex] is held for the whole of each operation on [shared]; every
    thread has a copy of its own. *)

Record Exchange := { shared : option Config; local : gmap nat Config }.

Definition UpdateShared (c : Config) (x : Exchange) : Exchange :=
  {| shared := Some c; local := local x |}.

(** [shared] is dereferenced: [None] when it is null. *)
Definition UpdateLocal (thread : nat) (x : Exchange) : option Exchange :=
  match shared x with
  | None => None
  | Some s =>
      let fresh := {| shared := shared x; local := <[thread := s]> (local x) |} in
      match local x !! thread with
      | Some c => if version s <=? version c then Some x else Some fresh
      | None => Some fresh
      end
  end.

(** The assertion that a configuration was loaded is [None]. *)
Definition Get (thread : nat) (x : Exchange) : option (Config * Exchange) :=
  match shared x with
  | None => None
  | Some _ =>
      match local x !! thread with
      | Some c => Some (c, x)
      | None =>
          x ← UpdateLocal thread x;
          c ← local x !! thread;
          Some (c, x)
      end
  end.

(** ** What a configuration promises *)

Definition umask_ok (n : Z) : Prop := 0 ≤ n < 512.

Definition sections_ok (l : list (str * SectionDef)) : Prop :=
  StronglySorted (λ a b, str_ltb a.1 b.1 = true) l ∧
  Forall (λ kv, s_name kv.2 = kv.1 ∧ -1 ≤ s_ratio kv.2) l.

Definition key_ok (k : Key) : type_of k → Prop :=
  match k with
  | KPort => λ n, n = -1 ∨ 0 ≤ n ≤ 65535
  | KTotalUsers | KMaxSitecmdLines => λ n, -1 ≤ n
  | KMaximumRatio | KDirSizeDepth | KLogLines | KDataBufferSize => λ n, 0 ≤ n
  | KUmask => umask_ok
  | KSecurityLog | KDatabaseLog | KEventLog | KErrorLog | KDebugLog | KSiteopLog => Log_ok
  | KTransferLog => λ l, Log_ok (tl_log l)
  | KSecureIp => Forall SecureIp_ok
  | KSimXfers => SimXfers_ok
  | KActivePorts | KPasvPorts => Forall range_ok
  | KMaxUsers => MaxUsers_ok
  | KLslong => λ l, ∃ n, maxRecursion l = Some n ∧ 0 ≤ n
  | KNukeMax => NukeMax_ok
  | KCreditcheck | KCreditloss => Forall Credit_ok
  | KIdleTimeout => IdleTimeout_ok
  | KDatabase => λ d, Forall (λ h, 0 ≤ h.2 ≤ 65535) (hosts d)
  | KSections => sections_ok
  | _ => λ _, True
  end.

(** Members with a value that, once given, stays *)
Definition given (k : Key) : type_of k → Prop :=
  match k with
  | KPort => λ n, n ≠ -1
  | KValidIp => λ l, l ≠ []
  | KDatabase => λ d, hosts d ≠ []
  | _ => λ _, True
  end.

Definition required : list (str * Key) :=
  [(lit "port", KPort); (lit "valid_ip", KValidIp); (lit "db_host", KDatabase)].

(** The part of the invariant that the branches maintain *)
Record members_ok (c : Config) : Prop := {
  ok_key k : key_ok k (get c k);
  ok_current n : currentSection c = Some n → is_Some (map_find n (get c KSections))
}.

(** The whole of it: an option that was seen was read. *)
Record Config_ok (c : Config) : Prop := {
  ok_members : members_ok c;
  ok_given opt k : (opt, k) ∈ required → CheckSetting opt c = true → given k (get c k)
}.

(** ... of a configuration that was loaded *)
Record loaded (c : Config) : Prop := {
  loaded_ok : Config_ok c;
  loaded_required s : s ∈ requiredSettings → CheckSetting s c = true;
  loaded_port : 0 ≤ get c KPort ≤ 65535;
  loaded_ip : get c KValidIp ≠ [];
  loaded_prompt : get c KLoginPrompt ≠ [];
  loaded_fxp : get c KAllowFxp ≠ [];
  loaded_filter : pathFilter (get c KPaths) ≠ [];
  loaded_hosts : hosts (get c KDatabase) ≠ [];
  loaded_replicas : (1 < length (hosts (get c KDatabase)))%nat →
                    CheckSetting (lit "db_replicaset") c = true
}.

(** ** Lemmas: maps *)

Lemma code_inj c d : code c = code d → c = d.
Proof. intros E. apply N2Z.inj in E. by rewrite <- (ascii_N_embedding c), E, ascii_N_embedding. Qed.

Lemma str_ltb_trans s t u : str_ltb s t = true → str_ltb t u = true → str_ltb s u = true.
Proof.
  revert s u. induction t as [|b t IH]; intros [|a s] [|c u]; cbn [str_ltb]; try done.
  intros H1 H2. repeat case_decide; subst; try done.
  - by eapply IH.
  - lia.
  - lia.
Qed.

Lemma str_ltb_total s t : s ≠ t → str_ltb s t = false → str_ltb t s = true.
Proof.
  revert t. induction s as [|a s IH]; intros [|b t] Hne; cbn [str_ltb]; try done.
  repeat case_decide; subst; try done.
  - apply IH. congruence.
  - intros Hc. assert (code a ≠ code b) by (by intros ?%code_inj). lia.
Qed.

Lemma str_ltb_irrefl s : str_ltb s s = false.
Proof. induction s as [|a s IH]; cbn [str_ltb]; [done|]. by rewrite decide_True. Qed.

Lemma map_insert_Forall {A} (P : str * A → Prop) k v l l' :
  map_insert k v l = Some l' → P (k, v) → Forall P l → Forall P l'.
Proof.
  revert l'. induction l as [|[k' v'] l IH]; intros l' E Hp Hl; cbn [map_insert] in E.
  - injection E as <-. by constructor.
  - case_decide; [done|]. inversion Hl; subst. destruct (str_ltb k k'); [injection E as <-; by repeat constructor|].
    destruct (map_insert k v l) as [l0|]; [|done]. injection E as <-. constructor; eauto.
Qed.

Lemma map_insert_sorted {A} k v (l l' : list (str * A)) :
  map_insert k v l = Some l' →
  StronglySorted (λ a b, str_ltb a.1 b.1 = true) l →
  StronglySorted (λ a b, str_ltb a.1 b.1 = true) l'.
Proof.
  revert l'. induction l as [|[k' v'] l IH]; intros l' E Hl; cbn [map_insert] in E.
  - injection E as <-. repeat constructor.
  - case_decide; [done|]. inversion Hl as [|?? Hs Hf]; subst. destruct (str_ltb k k') eqn:Hk.
    + injection E as <-. constructor; [done|]. constructor; [done|].
      eapply Forall_impl; [exact Hf|]. intros x Hx. cbn in *. by eapply str_ltb_trans.
    + destruct (map_insert k v l) as [l0|] eqn:E0; [|done]. injection E as <-.
      constructor; [by apply IH|]. eapply map_insert_Forall; [done|cbn; by apply str_ltb_total|done].
Qed.

Lemma map_insert_find {A} k v (l l' : list (str * A)) :
  map_insert k v l = Some l' → map_find k l' = Some v ∧ ∀ k', k' ≠ k → map_find k' l' = map_find k' l.
Proof.
  unfold map_find. revert l'. induction l as [|[k1 v1] l IH]; intros l' E; cbn [map_insert] in E.
  - injection E as <-. cbn. rewrite decide_True by done. split; [done|]. intros k' Hk. by rewrite decide_False.
  - case_decide; [done|]. destruct (str_ltb k k1).
    + injection E as <-. cbn. rewrite decide_True by done. split; [done|]. intros k' Hk.
      by rewrite decide_False by done.
    + destruct (map_insert k v l) as [l0|] eqn:E0; [|done]. injection E as <-.
      destruct (IH _ eq_refl) as [H1 H2]. cbn. rewrite decide_False by done. split; [done|].
      intros k' Hk. by rewrite H2.
Qed.

Lemma map_alter_find {A} (f : A → A) name l k :
  map_find k (map_alter f name l) = if decide (k = name) then f <$> map_find k l else map_find k l.
Proof.
  unfold map_find, map_alter. induction l as [|[k1 v1] l IH]; [by case_decide|]. cbn.
  destruct (decide (k1 = name)) as [->|Hn]; cbn;
    repeat case_decide; subst; try done; rewrite IH; by repeat case_decide.
Qed.

Lemma map_alter_sorted {A} (f : A → A) name l :
  StronglySorted (λ a b, str_ltb a.1 b.1 = true) l →
  StronglySorted (λ a b, str_ltb a.1 b.1 = true) (map_alter f name l).
Proof.
  induction 1 as [|x l Hl IH Hx]; cbn; [constructor|]. constructor; [done|].
  apply Forall_map. eapply Forall_impl; [exact Hx|]. intros y Hy. cbn. by repeat case_decide.
Qed.

(** ** Lemmas: the branches *)

(** What every branch promises of the configuration it leaves *)
Definition handler_ok (h : Handler) : Prop := ∀ toks c c',
  h toks c = Ok c' → members_ok c →
  members_ok c' ∧ (settingsCache c' = settingsCache c ∧ version c' = version c) ∧
  ∀ k, given k (get c k) → given k (get c' k).

Lemma set_ok k v c :
  k ≠ KSections → key_ok k v → (given k (get c k) → given k v) → members_ok c →
  members_ok (set k v c) ∧
  (settingsCache (set k v c) = settingsCache c ∧ version (set k v c) = version c) ∧ ∀ k', given k' (get c k') → given k' (get (set k v c) k').
Proof.
  intros Hk Hv Hg [H1 H2]. split; [split | split; [done|]].
  - intros k'. destruct (decide (k = k')) as [<-|Hne];
      [by rewrite get_set | by rewrite get_set_ne].
  - intros n Hn. rewrite get_set_ne by done. by apply H2.
  - intros k'. destruct (decide (k = k')) as [<-|Hne];
      [by rewrite get_set | by rewrite get_set_ne].
Qed.

Lemma assign_ok k build :
  k ≠ KSections → (∀ toks v, build toks = Ok v → key_ok k v ∧ given k v) →
  handler_ok (assign k build).
Proof.
  intros Hk Hb toks c c' E Hc. unfold assign in E. cfg_inv.
  edestruct Hb as [??]; [done|]. by apply set_ok.
Qed.

Lemma update_ok k build :
  k ≠ KSections →
  (∀ toks v v', build toks v = Ok v' → key_ok k v → key_ok k v' ∧ (given k v → given k v')) →
  handler_ok (update k build).
Proof.
  intros Hk Hb toks c c' E Hc. unfold update in E. cfg_inv.
  edestruct Hb as [??]; [done|apply Hc|]. by apply set_ok.
Qed.

Lemma emplace_Forall {A} (P : A → Prop) (build : list str → cfg A) toks l l' :
  (∀ toks a, build toks = Ok a → P a) → emplace build toks l = Ok l' → Forall P l → Forall P l'.
Proof.
  intros Hb E Hl. unfold emplace in E. cfg_inv. apply Forall_app. split; [done|].
  repeat constructor. by eapply Hb.
Qed.

Section branches.
Context `{Split, CaseConv, Trim, ReplaceAll, Fnmatch}.
Context (regex_valid : str → bool) (aclKeywords : list str) (CurrentUmask : Z).

Abbreviation globals := (globals regex_valid).

Lemma row_ok opt lo hi h : handler_ok h → handler_ok (row opt lo hi h).2.
Proof. intros Hh toks c c' E Hc. cbn in E. cfg_inv. by eapply Hh. Qed.

Lemma int_spec ok s n : int_ ok s = Ok n → ok n = true.
Proof. unfold int_. intros E. cfg_inv. done. Qed.

Lemma first_spec {A} (convert : str → cfg A) toks v :
  first convert toks = Ok v → ∃ t, convert t = Ok v.
Proof. unfold first. intros E. cfg_inv. eauto. Qed.

(** Members of which nothing is promised *)
Lemma assign_any k build :
  (∀ v, key_ok k v) → (∀ v, given k v) → k ≠ KSections → handler_ok (assign k build).
Proof. intros K1 K2 Hk. apply assign_ok; auto. Qed.

Lemma update_any k build :
  (∀ v, key_ok k v) → (∀ v, given k v) → k ≠ KSections → handler_ok (update k build).
Proof. intros K1 K2 Hk. apply update_ok; auto. Qed.

Lemma emplace_right_ok k : handler_ok (emplace_right k).
Proof. by apply update_any. Qed.

Lemma ParameterCheck_spec opt toks lo hi u :
  ParameterCheck opt toks lo hi = Ok u →
  lo ≤ Z.of_nat (length toks) ∧ (hi ≠ -1 → Z.of_nat (length toks) ≤ hi).
Proof. unfold ParameterCheck. destruct (_ || _) eqn:E; [done|]. lia. Qed.

(** The one branch that needs the check of the number of words *)
Lemma lslong_ok : handler_ok (row (lit "lslong") 2 2 (assign KLslong Lslong_of)).2.
Proof.
  intros toks c c' E Hc. cbn in E. cfg_inv.
  match goal with P : ParameterCheck _ _ _ _ = _ |- _ => apply ParameterCheck_spec in P as [P1 _] end.
  unfold assign in E. cfg_inv. apply set_ok; [done| |done|done].
  unfold Lslong_of in *. cfg_inv; cbn; eauto with lia.
  match goal with P : (_ =? _)%nat = true |- _ => apply Nat.eqb_eq in P end. lia.
Qed.

(** [any] closes the branches of members of which nothing is promised. *)
Ltac any := first [by apply assign_any | by apply update_any | apply emplace_right_ok].
Ltac branch := first [apply lslong_ok | apply row_ok | cbn [snd]]; try any.
Ltac branches :=
  repeat lazymatch goal with
  | |- Forall _ (_ :: _) => apply Forall_cons_2; [branch|]
  | |- Forall _ [] => apply Forall_nil_2
  end.

Lemma host_of_ok t h : host_of t = Ok h → 0 ≤ h.2 ≤ 65535.
Proof.
  unfold host_of. intros E. repeat case_match; try done. cfg_inv.
  match goal with H : int_ _ _ = _ |- _ => apply int_spec in H end.
  unfold port_ok in *. cbn. lia.
Qed.

Abbreviation rows_ok := (Forall (λ r : str * Handler, handler_ok r.2)).

Lemma globals_database_ok : rows_ok globals_database.
Proof.
  unfold globals_database. branches; apply update_ok; try done; intros toks d d' E Hd; cfg_inv; try done.
  cbn in *. split; [apply Forall_app; split; [done|] |].
  - eapply rmap_Forall; [|done]. apply host_of_ok.
  - intros Hne Ha. by apply app_eq_nil in Ha as [? _].
Qed.

(** [assign_first] reads the test of an integer. *)
Ltac assign_first :=
  apply assign_ok; [done|]; intros ?toks v ?E; apply first_spec in E as (?t & E);
  apply int_spec in E; cbn.

Lemma globals_site_ok : rows_ok globals_site.
Proof.
  unfold globals_site. branches.
  - assign_first. unfold port_ok in *. lia.
  - assign_first. lia.
  - apply assign_ok; [done|]. intros toks v ?%NukeMax_of_ok. done.
  - assign_first. lia.
Qed.

Lemma globals_logs_ok : rows_ok globals_logs.
Proof.
  unfold globals_logs. branches; apply assign_ok; try done; intros toks v E;
    try apply Log_of_ok in E; try apply TransferLog_of_ok in E; done.
Qed.

Lemma globals_lists_ok : rows_ok globals_lists.
Proof.
  unfold globals_lists. branches.
  - apply update_ok; [done|]. intros toks v v' [= <-] _. cbn. split; [done|].
    intros Hv Ha. by apply app_eq_nil in Ha as [? _].
  - apply assign_ok; [done|]. intros toks v ?%SimXfers_of_ok. done.
  - apply update_ok; [done|]. intros toks v v' E Hv. split; [|done].
    eapply emplace_Forall; [|done..]. apply SecureIp_of_ok.
  - apply assign_ok; [done|]. intros toks v ?%Ports_ok. done.
  - apply assign_ok; [done|]. intros toks v ?%Ports_ok. done.
Qed.

Lemma globals_rights_ok : rows_ok (globals_rights regex_valid).
Proof. unfold globals_rights. branches. Qed.

Lemma globals_limits_ok : rows_ok globals_limits.
Proof.
  unfold globals_limits. branches.
  - apply assign_ok; [done|]. intros toks v ?%MaxUsers_of_ok. done.
  - apply update_ok; [done|]. intros toks v v' E Hv. split; [|done].
    eapply emplace_Forall; [|done..]. apply Credit_of_ok.
  - apply update_ok; [done|]. intros toks v v' E Hv. split; [|done].
    eapply emplace_Forall; [|done..]. apply Credit_of_ok.
  - apply assign_ok; [done|]. intros toks v ?%IdleTimeout_of_ok. done.
Qed.

Lemma new_sections_ok n l l' :
  map_insert n (new_Section n) l = Some l' → sections_ok l → sections_ok l'.
Proof.
  intros E [K1 K2]. split; [by eapply map_insert_sorted|].
  eapply map_insert_Forall; [done| |done]. cbn. by split.
Qed.

Lemma begin_section_ok : handler_ok begin_section.
Proof.
  intros toks c c' E [K1 K2]. unfold begin_section in E. cfg_inv.
  destruct (map_insert _ _ _) as [l|] eqn:El in E; [|done]. injection E as <-.
  split; [split | split; [done|]].
  - intros k. destruct (decide (KSections = k)) as [<-|Hne]; cbn [get set_currentSection].
    + rewrite get_set. by eapply new_sections_ok, (K1 KSections).
    + by rewrite get_set_ne.
  - intros n [= <-]. cbn [get set_currentSection]. rewrite get_set.
    by rewrite (proj1 (map_insert_find _ _ _ _ El)).
  - intros k. cbn [get set_currentSection].
    destruct (decide (KSections = k)) as [<-|Hne]; [done|by rewrite get_set_ne].
Qed.

Lemma globals_misc_ok : rows_ok globals_misc.
Proof.
  unfold globals_misc. branches.
  - apply begin_section_ok.
  - assign_first. lia.
  - assign_first. lia.
  - apply assign_ok; [done|]. intros toks v (t & E)%first_spec. split; [|done].
    unfold umask_of in E. destruct (NumericModeFromString t) as [n|] eqn:En; [|done].
    injection E as <-. by eapply NumericModeFromString_range.
  - assign_first. lia.
  - assign_first. lia.
Qed.

Lemma globals_ok : rows_ok globals.
Proof.
  unfold Config.globals.
  auto 10 using Forall_app_2, globals_database_ok, globals_site_ok, globals_logs_ok,
    globals_lists_ok, globals_rights_ok, globals_limits_ok, globals_misc_ok.
Qed.

Lemma in_section_ok n f :
  (∀ toks s s', f toks s = Ok s' → -1 ≤ s_ratio s → s_name s' = s_name s ∧ -1 ≤ s_ratio s') →
  handler_ok (in_section n f).
Proof.
  intros Hf toks c c' E [K1 K2]. unfold in_section in E.
  destruct (map_find n _) as [s|] eqn:Es; [|done]. cfg_inv.
  pose proof (K1 KSections) as [K3 K4].
  assert (Hs : s_name s = n ∧ -1 ≤ s_ratio s).
  { apply assoc_in in Es. by apply (proj1 (Forall_forall _ _) K4) in Es. }
  destruct Hs as [Hn Hr]. edestruct Hf as [F1 F2]; [done..|].
  split; [split | split; [done|]].
  - intros k. destruct (decide (KSections = k)) as [<-|Hne]; [|by rewrite get_set_ne].
    rewrite get_set. split; [by apply map_alter_sorted|].
    apply Forall_map. eapply Forall_impl; [exact K4|]. intros [k v] [??]. cbn in *.
    case_decide; cbn; [split; congruence | done].
  - intros m Hm. rewrite get_set, map_alter_find. apply K2 in Hm as [? E'].
    case_decide; [|by rewrite E']. cbn in *. rewrite E'. cbn. done.
  - intros k. destruct (decide (KSections = k)) as [<-|Hne]; [done|by rewrite get_set_ne].
Qed.

Lemma section_options_ok n : rows_ok (section_options n).
Proof.
  unfold section_options. branches.
  - apply in_section_ok. intros toks s s' [= <-]. done.
  - apply in_section_ok. intros toks s s' E Hr. cfg_inv. done.
  - apply in_section_ok. intros toks s s' E Hr. cfg_inv. cbn. split; [done|].
    match goal with P : first _ _ = _ |- _ => apply first_spec in P as (? & P%int_spec) end. lia.
  - intros toks c c' [= <-] [K1 K2]. by split; [split|].
Qed.

Lemma assoc_ok opt (l : list (str * Handler)) h : assoc opt l = Some h → rows_ok l → handler_ok h.
Proof. intros E%assoc_in Hl. by apply (proj1 (Forall_forall _ _) Hl) in E. Qed.

Abbreviation ParseGlobal := (ParseGlobal regex_valid aclKeywords).
Abbreviation dispatch := (dispatch regex_valid aclKeywords).
Abbreviation Parse := (Parse regex_valid aclKeywords).

Lemma ParseGlobal_ok opt : handler_ok (ParseGlobal opt).
Proof.
  intros toks c c' E Hc. unfold Config.ParseGlobal in E. case_decide.
  { unfold command_acl in E. cfg_inv. by apply set_ok. }
  destruct (starts_with _ _).
  { unfold custom_acl in E. cfg_inv. by apply set_ok. }
  destruct (assoc opt _) as [h|] eqn:Eh; [|done].
  by eapply assoc_ok; [exact Eh | apply globals_ok | ..].
Qed.

Lemma ParseSection_ok n opt : handler_ok (ParseSection n opt).
Proof.
  intros toks c c' E Hc. unfold ParseSection in E.
  destruct (assoc opt _) as [h|] eqn:Eh; [|done].
  by eapply assoc_ok; [exact Eh | apply section_options_ok | ..].
Qed.

Lemma CheckSetting_count opt o c :
  CheckSetting o (count_setting opt c) = true ↔ o = opt ∨ CheckSetting o c = true.
Proof.
  unfold CheckSetting, count_setting. cbn [settingsCache set_settingsCache].
  rewrite !bool_decide_eq_true. destruct (decide (opt = o)) as [->|Hne].
  - rewrite lookup_insert_eq. naive_solver.
  - rewrite lookup_insert_ne by done. naive_solver.
Qed.

(** After the branch of an option that is required, its member has a value. *)
Lemma ParseGlobal_given opt k toks c c' :
  (opt, k) ∈ required → ParseGlobal opt toks c = Ok c' → given k (get c' k).
Proof.
  unfold required. rewrite !elem_of_cons, elem_of_nil.
  intros [[= -> ->] | [[= -> ->] | [[= -> ->] | []]]] E.
  - change ((row (lit "port") 1 1 (assign KPort (first (int_ port_ok)))).2 toks c = Ok c') in E.
    cbn [row snd] in E. cfg_inv. unfold assign in E. cfg_inv. rewrite get_set.
    match goal with P : first _ _ = _ |- _ => apply first_spec in P as (? & P%int_spec) end.
    unfold port_ok in *. cbn. lia.
  - change ((row (lit "valid_ip") 1 (-1) (update KValidIp append)).2 toks c = Ok c') in E.
    cbn [row snd] in E. cfg_inv. match goal with P : ParameterCheck _ _ _ _ = _ |- _ => apply ParameterCheck_spec in P as [P _] end.
    unfold update, append in E. cfg_inv. rewrite get_set. cbn.
    intros [_ ->]%app_eq_nil. cbn in *. lia.
  - change ((row (lit "db_host") 1 (-1) (update KDatabase (λ toks d,
         let! l := rmap host_of toks in Ok (set_hosts (hosts d ++ l) d)))).2 toks c = Ok c') in E.
    cbn [row snd] in E. cfg_inv. match goal with P : ParameterCheck _ _ _ _ = _ |- _ => apply ParameterCheck_spec in P as [P _] end.
    unfold update in E. cfg_inv. rewrite get_set. cbn.
    intros [_ ->]%app_eq_nil. destruct toks as [|t toks]; [cbn in *; lia|].
    match goal with P : rmap _ _ = _ |- _ => cbn [rmap] in P end. cfg_inv. done.
Qed.

Lemma required_not_section opt k n : (opt, k) ∈ required → assoc opt (section_options n) = None.
Proof.
  unfold required. rewrite !elem_of_cons, elem_of_nil.
  by intros [[= -> ->] | [[= -> ->] | [[= -> ->] | []]]].
Qed.

Lemma dispatch_ok opt toks c c' :
  dispatch opt toks c = Ok c' → Config_ok c → Config_ok c' ∧ version c' = version c.
Proof.
  intros E [K1 K2]. unfold Config.dispatch in E. cbv zeta in E.
  set (o := to_lower opt) in *. set (c0 := count_setting o c) in *.
  assert (K0 : members_ok c0) by (by destruct K1; split).
  assert (Hr : members_ok c' ∧ (settingsCache c' = settingsCache c0 ∧ version c' = version c0) ∧
               ∀ k, given k (get c0 k) → given k (get c' k)).
  { destruct (currentSection c0); [by eapply ParseSection_ok | by eapply ParseGlobal_ok]. }
  destruct Hr as (R1 & [R2 Rv] & R3). split; [|done]. split; [done|]. intros o' k Hin Ho'.
  assert (Hset : CheckSetting o' c0 = true) by (unfold CheckSetting in *; by rewrite <- R2).
  apply CheckSetting_count in Hset as [->|Hset]; [|apply R3; by apply (K2 o')].
  destruct (currentSection c0) as [n|].
  - unfold ParseSection in E. by rewrite (required_not_section _ _ _ Hin) in E.
  - by eapply ParseGlobal_given.
Qed.

Lemma Parse_ok line c c' :
  Parse line c = Ok c' → Config_ok c → Config_ok c' ∧ version c' = version c.
Proof.
  unfold Config.Parse. destruct (words line) as [|opt toks]; [by intros [= <-]|].
  case_decide; [by intros [= <-]|]. apply dispatch_ok.
Qed.

Lemma at_line_Ok {A} i (r : cfg A) a : at_line i r = Ok a → r = Ok a.
Proof. destruct r as [|[]]; cbn; congruence. Qed.

Lemma ParseLine_ok i l c c' :
  ParseLine regex_valid aclKeywords i l c = Ok c' → Config_ok c →
  Config_ok c' ∧ version c' = version c.
Proof.
  unfold ParseLine. case_decide; [by intros [= <-]|]. intros E%at_line_Ok Hc. by eapply Parse_ok.
Qed.

Lemma ParseLines_ok i ls c c' :
  ParseLines regex_valid aclKeywords i ls c = Ok c' → Config_ok c →
  Config_ok c' ∧ version c' = version c.
Proof.
  revert i c. induction ls as [|l ls IH]; intros i c E Hc; cbn [ParseLines] in E; cfg_inv; [done|].
  edestruct ParseLine_ok as [P1 P2]; [eassumption|done|]. rewrite <- P2. by eapply IH.
Qed.

Lemma set_Config_ok k v c :
  k ≠ KSections → key_ok k v → (given k (get c k) → given k v) → Config_ok c → Config_ok (set k v c).
Proof.
  intros Hk Hv Hg [K1 K2]. edestruct (set_ok k v c) as (R1 & _ & R3); [done..|].
  split; [done|]. intros opt k' Hin Ho. apply R3. by eapply K2.
Qed.

Lemma default_prompt_ok c :
  Config_ok c → Config_ok (default_prompt c) ∧ get (default_prompt c) KLoginPrompt ≠ [].
Proof.
  intros Hc. unfold default_prompt. case_decide as Hp; [|done]. split.
  - by apply set_Config_ok.
  - rewrite get_set. by intros [_ ?]%app_eq_nil.
Qed.

Lemma default_rules_ok c :
  Config_ok c → Config_ok (default_rules c) ∧
  get (default_rules c) KAllowFxp ≠ [] ∧ pathFilter (get (default_rules c) KPaths) ≠ [] ∧
  get (default_rules c) KLoginPrompt = get c KLoginPrompt.
Proof.
  intros Hc. unfold default_rules. cbv zeta.
  set (c1 := if decide _ then set KAllowFxp _ c else c).
  assert (Hc1 : Config_ok c1 ∧ get c1 KAllowFxp ≠ [] ∧ get c1 KLoginPrompt = get c KLoginPrompt).
  { unfold c1. case_decide as Hl.
    - rewrite get_set, get_set_ne by done. split_and!; [by apply set_Config_ok|done..].
    - split_and!; [done| |done]. intros E. by rewrite E in Hl. }
  destruct Hc1 as (K1 & K2 & K3). case_decide as Hl.
  - rewrite !get_set, !get_set_ne by done. split_and!; [by apply set_Config_ok|done..].
  - split_and!; [done..| |done]. intros E. by rewrite E in Hl.
Qed.

Lemma default_database_ok c :
  Config_ok c → Config_ok (default_database c) ∧ hosts (get (default_database c) KDatabase) ≠ [] ∧
  (∀ k, k ≠ KDatabase → get (default_database c) k = get c k) ∧
  settingsCache (default_database c) = settingsCache c.
Proof.
  intros Hc. unfold default_database. cbv zeta.
  set (c1 := if CheckSetting (lit "db_name") c then c else _).
  assert (Hc1 : Config_ok c1 ∧ (∀ k, k ≠ KDatabase → get c1 k = get c k) ∧
                settingsCache c1 = settingsCache c).
  { unfold c1. destruct (CheckSetting _ c); [done|]. split_and!; [|by intros; apply get_set_ne|done].
    apply set_Config_ok; [done| |done|done]. apply (ok_key _ (ok_members _ Hc) KDatabase). }
  destruct Hc1 as (K1 & K2 & K3). destruct (CheckSetting (lit "db_host") c1) eqn:Hh.
  - split_and!; [done| |done|done]. apply (ok_given _ K1 (lit "db_host") KDatabase); [|done].
    unfold required. rewrite !elem_of_cons. auto.
  - rewrite get_set. split_and!; [| | |done].
    + apply set_Config_ok; [done| | |done]; cbn.
      * apply Forall_app. split; [apply (ok_key _ (ok_members _ K1) KDatabase)|].
        repeat constructor; unfold defaultDatabasePort; cbn; lia.
      * by intros _ [_ ?]%app_eq_nil.
    + cbn. by intros [_ ?]%app_eq_nil.
    + intros k Hk. rewrite get_set_ne by done. by apply K2.
Qed.

Lemma default_cache c : settingsCache (default_rules (default_prompt c)) = settingsCache c.
Proof. unfold default_rules, default_prompt. by repeat case_decide. Qed.

Lemma CheckSetting_cache s c c' :
  settingsCache c' = settingsCache c → CheckSetting s c' = CheckSetting s c.
Proof. unfold CheckSetting. by intros ->. Qed.

Lemma SanityCheck_ok c c' : SanityCheck c = Ok c' → Config_ok c → loaded c'.
Proof.
  unfold SanityCheck. destruct (List.find _ _) eqn:Ef; [done|]. cbv zeta.
  destruct (_ && _) eqn:Er; [done|]. intros [= <-] Hc.
  destruct (default_prompt_ok _ Hc) as [P1 P2].
  destruct (default_rules_ok _ P1) as (Q1 & Q2 & Q3 & Q4).
  destruct (default_database_ok _ Q1) as (R1 & R2 & R3 & R4).
  set (c3 := default_database _) in *.
  assert (Hreq : ∀ s, s ∈ requiredSettings → CheckSetting s c3 = true).
  { intros s Hs. rewrite (CheckSetting_cache s c c3) by (by rewrite R4, default_cache).
    apply list_elem_of_In in Hs. apply (List.find_none _ _ Ef) in Hs. by apply negb_false_iff. }
  assert (Hin : ∀ k s, (s, k) ∈ required → s ∈ requiredSettings → given k (get c3 k)).
  { intros k s ??. by eapply ok_given, Hreq. }
  split; try done.
  - assert (Hp := ok_key _ (ok_members _ R1) KPort). cbn in Hp.
    assert (Hg : given KPort (get c3 KPort)).
    { apply (Hin _ (lit "port")); unfold required, requiredSettings; rewrite !elem_of_cons; auto. }
    cbn in Hg. lia.
  - change (given KValidIp (get c3 KValidIp)).
    apply (Hin _ (lit "valid_ip")); unfold required, requiredSettings; rewrite !elem_of_cons; auto.
  - by rewrite R3, Q4.
  - by rewrite R3.
  - by rewrite R3.
  - intros Hlen. apply Nat.ltb_lt in Hlen. rewrite Hlen in Er. cbn in Er. by apply negb_false_iff.
Qed.

Lemma new_Config_ok v t :
  umask_ok CurrentUmask →
  Config_ok {| version := v; tool := t; get := default_value CurrentUmask;
               settingsCache := ∅; currentSection := None |}.
Proof.
  intros Hu. split; [split|]; [|done|].
  - intros []; cbn; try done; try (by left); try (repeat constructor; cbn; lia).
    eexists. split; [done|lia].
  - intros o k _ Ho. exfalso. revert Ho. unfold CheckSetting. cbn.
    rewrite bool_decide_eq_true, lookup_empty. by intros [].
Qed.

Lemma SanityCheck_version c c' : SanityCheck c = Ok c' → version c' = version c.
Proof.
  unfold SanityCheck. destruct (List.find _ _); [done|]. cbv zeta. destruct (_ && _); [done|].
  intros [= <-]. unfold default_database, default_rules, default_prompt. cbv zeta.
  by repeat case_match.
Qed.

Lemma new_Config_loaded read path t st c st' :
  umask_ok CurrentUmask →
  new_Config regex_valid aclKeywords CurrentUmask read path t st = (Ok c, st') →
  loaded c ∧ version c = latestVersion st + 1.
Proof.
  intros Hu. unfold new_Config. cbv zeta. destruct (read path) as [text|]; [|done].
  destruct (rbind _ _) as [c'|] eqn:E; [|done]. intros [= -> _]. cfg_inv.
  edestruct ParseLines_ok as [P1 P2]; [done|by apply new_Config_ok|]. split.
  - by eapply SanityCheck_ok.
  - apply SanityCheck_version in E. by rewrite E, P2.
Qed.

Lemma Load_loaded exists_ read path t st c :
  umask_ok CurrentUmask →
  (Load regex_valid aclKeywords CurrentUmask exists_ read path t st).1 = Ok c →
  loaded c ∧ version c = latestVersion st + 1.
Proof.
  intros Hu. unfold Load. cbv zeta. destruct (List.find exists_ _) as [cp|]; [|done].
  destruct (new_Config _ _ _ _ _ _ _) as [r st'] eqn:E. cbn [fst]. intros ->.
  by apply new_Config_loaded in E.
Qed.

(** ** Lemmas: what the branches read *)

Definition reads_too_much : list str := [lit "ascii_downloads"; lit "msg_path"].

Definition row_defined (r : str * Handler) : Prop :=
  r.1 ∈ reads_too_much ∨ ∀ toks c, defined (r.2 toks c).

Lemma ParameterCheck_defined opt toks lo hi : defined (ParameterCheck opt toks lo hi).
Proof. unfold ParameterCheck. by destruct (_ || _). Qed.

Lemma row_defined_intro opt lo hi h :
  (∀ toks c, lo ≤ Z.of_nat (length toks) → defined (h toks c)) → row_defined (row opt lo hi h).
Proof.
  intros Hh. right. intros toks c. cbn [row snd]. apply rbind_defined; [apply ParameterCheck_defined|].
  intros u [? _]%ParameterCheck_spec. by apply Hh.
Qed.

Lemma int_defined ok s : defined (int_ ok s).
Proof. unfold int_. solve_defined. Qed.

Lemma host_defined t : defined (host_of t).
Proof. unfold host_of. repeat case_match; try done. apply rbind_defined; [apply int_defined|done]. Qed.

Lemma assign_defined k build toks c : defined (build toks) → defined (assign k build toks c).
Proof. intros Hb. by apply rbind_defined. Qed.

Lemma update_defined k build toks c : defined (build toks (get c k)) → defined (update k build toks c).
Proof. intros Hb. by apply rbind_defined. Qed.

Lemma first_defined {A} (convert : str → cfg A) toks :
  (1 ≤ length toks)%nat → (∀ s, defined (convert s)) → defined (first convert toks).
Proof. intros Hl Hc. apply rbind_defined; [apply tok_defined; lia|]. auto. Qed.

Lemma emplace_defined {A} (build : list str → cfg A) toks l :
  defined (build toks) → defined (emplace build toks l).
Proof. intros Hb. by apply rbind_defined. Qed.

Lemma emplace_right_defined k toks c : (1 ≤ length toks)%nat → defined (emplace_right k toks c).
Proof.
  intros Hl. apply update_defined, rbind_defined; [|done].
  apply emplace_defined. by apply Right_of_defined.
Qed.

Lemma EPSVFxp_defined s : defined (EPSVFxp_of s).
Proof. unfold EPSVFxp_of. solve_defined. Qed.
Lemma LogAddresses_defined s : defined (LogAddresses_of s).
Proof. unfold LogAddresses_of. solve_defined. Qed.
Lemma umask_defined s : defined (umask_of s).
Proof. unfold umask_of. solve_defined. Qed.
Lemma begin_section_defined toks c : (1 ≤ length toks)%nat → defined (begin_section toks c).
Proof. intros Hl. unfold begin_section. solve_defined. Qed.

Lemma string_defined s : defined (string_ s).
Proof. done. Qed.
Lemma acl_defined toks : defined (acl_ toks).
Proof. done. Qed.

#[local] Hint Resolve int_defined host_defined EPSVFxp_defined LogAddresses_defined umask_defined
  string_defined acl_defined YesNoToBoolean_defined ParseSize_defined : defined.
#[local] Hint Extern 1 (_ ≤ _)%nat => lia : defined.

(** [row_def] closes a row: its branch reads no more than the words it has
    checked there are. *)
Ltac row_def :=
  lazymatch goal with
  | |- row_defined (row _ _ _ _) => apply row_defined_intro; intros ?toks ?c ?Hl
  | |- _ => right; intros ?toks ?c; cbn [snd]
  end;
  repeat lazymatch goal with
  | |- defined (assign _ _ _ _) => apply assign_defined
  | |- defined (update _ _ _ _) => apply update_defined
  | |- defined (emplace_right _ _ _) => apply emplace_right_defined
  | |- defined (begin_section _ _) => apply begin_section_defined
  | |- defined (first _ _) => apply first_defined
  | |- defined (emplace _ _ _) => apply emplace_defined
  end;
  auto with defined nocore;
  solve [ lia | done | solve_defined; lia ].

Lemma globals_defined `{!SplitOk} : Forall row_defined globals.
Proof.
  unfold Config.globals, globals_database, globals_site, globals_logs, globals_lists, globals_rights,
    globals_limits, globals_misc.
  repeat apply Forall_app_2;
  repeat lazymatch goal with
  | |- Forall _ (_ :: _) => apply Forall_cons_2;
      [first [by left; unfold reads_too_much; rewrite !elem_of_cons; auto | row_def]|]
  | |- Forall _ [] => apply Forall_nil_2
  end.
Qed.

Lemma in_section_defined n f toks c :
  is_Some (map_find n (get c KSections)) → (∀ s, defined (f toks s)) → defined (in_section n f toks c).
Proof.
  intros [s Hs] Hf. unfold in_section. rewrite Hs. by apply rbind_defined.
Qed.

Lemma ParseSection_defined n opt toks c :
  is_Some (map_find n (get c KSections)) → defined (ParseSection n opt toks c).
Proof.
  intros Hn. unfold ParseSection. destruct (assoc opt _) as [h|] eqn:E; [|done].
  apply assoc_in in E. unfold section_options in E. rewrite !elem_of_cons, elem_of_nil in E.
  destruct E as [[= _ ->] | [[= _ ->] | [[= _ ->] | [[= _ ->] | []]]]]; cbn [row snd].
  4: done.
  all: apply rbind_defined; [apply ParameterCheck_defined|];
    intros u [Hl _]%ParameterCheck_spec; apply in_section_defined; [done|]; intros s.
  - done.
  - apply rbind_defined; [apply first_defined; auto with defined; lia | done].
  - apply rbind_defined; [apply first_defined; auto with defined; lia | done].
Qed.

Lemma ParseGlobal_defined `{!SplitOk} opt toks c :
  opt ∉ reads_too_much → defined (ParseGlobal opt toks c).
Proof.
  intros Hopt. unfold Config.ParseGlobal. case_decide.
  { apply rbind_defined; [apply ParameterCheck_defined|]. intros _ _. cbv zeta. by case_match. }
  destruct (starts_with _ _).
  { apply rbind_defined; [apply ParameterCheck_defined|]. intros _ _. cbv zeta. by case_match. }
  destruct (assoc opt _) as [h|] eqn:E; [|done]. apply assoc_in in E.
  pose proof (proj1 (Forall_forall _ _) globals_defined _ E) as [?|Hd]; [done|]. apply Hd.
Qed.

Lemma ascii_downloads_undefined toks c :
  ParseGlobal (lit "ascii_downloads") toks c = Throw Undefined ↔ toks = [].
Proof.
  change (ParseGlobal (lit "ascii_downloads") toks c) with (assign KAsciiDownloads AsciiDownloads_of toks c).
  split; [|by intros ->]. by destruct toks.
Qed.

Lemma msg_path_undefined toks c :
  ParseGlobal (lit "msg_path") toks c = Throw Undefined ↔ ∃ t, toks = [t].
Proof.
  change (ParseGlobal (lit "msg_path") toks c) with
    ((row (lit "msg_path") 1 (-1) (update KMsgpath (emplace Msgpath_of))).2 toks c).
  split; [|by intros [t ->]]. cbn [row snd]. destruct toks as [|t [|t' toks]]; cbn; eauto; try done.
  unfold ParameterCheck. by destruct (_ || _).
Qed.

End branches.

(** ** Lemmas: the shared configuration *)

(** After [UpdateLocal] a thread has the newer of its own configuration and the
    shared one, and no other thread's changes. *)
Lemma UpdateLocal_newest thread x s :
  shared x = Some s →
  ∃ x' c, UpdateLocal thread x = Some x' ∧ shared x' = Some s ∧ local x' !! thread = Some c ∧
    version c = Z.max (version s) (from_option version (version s) (local x !! thread)) ∧
    ∀ t, t ≠ thread → local x' !! t = local x !! t.
Proof.
  intros Hs. unfold UpdateLocal. rewrite Hs.
  destruct (local x !! thread) as [c|] eqn:Hc; cbn [from_option].
  - destruct (version s <=? version c) eqn:Hv.
    + exists x, c. split_and!; [done..|lia|done].
    + eexists _, s. split; [reflexivity|]. cbn [shared local].
      rewrite lookup_insert_eq. split_and!; [done..|lia|].
      intros t Ht. by rewrite lookup_insert_ne.
  - eexists _, s. split; [reflexivity|]. cbn [shared local].
    rewrite lookup_insert_eq. split_and!; [done..|lia|].
    intros t Ht. by rewrite lookup_insert_ne.
Qed.

(** ** Properties *)

Lemma map_find_sorted {A} (l : list (str * A)) k v :
  StronglySorted (λ a b, str_ltb a.1 b.1 = true) l → (k, v) ∈ l → map_find k l = Some v.
Proof.
  unfold map_find. induction 1 as [|[k' v'] l Hl IH Hf]; [by rewrite elem_of_nil|].
  rewrite elem_of_cons. cbn. intros [[= <- <-]|Hin]; [by rewrite decide_True|].
  apply (proj1 (Forall_forall _ _) Hf) in Hin as Hlt. cbn in Hlt.
  rewrite decide_False; [by apply IH|]. intros ->. by rewrite str_ltb_irrefl in Hlt.
Qed.

Lemma find_least {A} (p : str * A → bool) (l : list (str * A)) kv :
  StronglySorted (λ a b, str_ltb a.1 b.1 = true) l → List.find p l = Some kv →
  kv ∈ l ∧ p kv = true ∧ ∀ kv', kv' ∈ l → p kv' = true → kv' = kv ∨ str_ltb kv.1 kv'.1 = true.
Proof.
  induction 1 as [|x l Hl IH Hf]; cbn; [done|]. destruct (p x) eqn:Hp.
  - intros [= <-]. split; [left|]. split; [done|]. intros kv' [->|Hin]%elem_of_cons _; [by left|].
    right. by apply (proj1 (Forall_forall _ _) Hf) in Hin.
  - intros E. destruct (IH E) as (I1 & I2 & I3). split; [by right|]. split; [done|].
    intros kv' [->|Hin]%elem_of_cons Hp'; [congruence|]. by apply I3.
Qed.

Section properties.
Context `{Split, CaseConv, Trim, ReplaceAll, Fnmatch}.
Context (regex_valid : str → bool) (aclKeywords : list str) (CurrentUmask : Z).

(** C15: Loading.  A configuration that loads keeps the promises the server
    relies on: the port is in 0 to 65535, as are those of the database hosts, the ports of
    the allocators are in 1024 to 65535, the umask has nine bits, the numbers of
    total_users, max_sitecmd_lines, maximum_ratio, dir_size_depth, log_lines,
    data_buffer_size, lslong, the logs, secure_ip, sim_xfers, max_users, nuke_max,
    idle_timeout and the ratios are within the bounds of each (sizes and all other
    numbers are not covered); the options that are required were given; at least one
    address is valid; the prompt, the FXP rules, the path filter and the database hosts
    are not empty; several hosts come with a replica set; and the sections are sorted by
    name without duplicates.  The path of the file that is found, and a new version, are
    remembered whether or not the load succeeds; the limit of users online is the one of
    the first configuration that loaded, and a load that fails leaves it alone. *)
Theorem Load_ok exists_ read path t st r st' :
  umask_ok CurrentUmask →
  Load regex_valid aclKeywords CurrentUmask exists_ read path t st = (r, st') →
  let found := List.find exists_ (if decide (path = []) then map (λ dir, Join dir configFile) configSearch else [path]) in
  lastConfigPath st' = default (lastConfigPath st) found ∧
  latestVersion st' = latestVersion st + (match found with Some _ => 1 | None => 0 end) ∧
  match r with
  | Ok c => loaded c ∧ is_Some found ∧ version c = latestVersion st' ∧
            maxOnline st' = Some (default (get c KMaxUsers) (maxOnline st))
  | Throw _ => maxOnline st' = maxOnline st
  end.
Proof.
  intros Hu. unfold Load. cbv zeta. destruct (List.find exists_ _) as [cp|].
  2: { intros [= <- <-]. by rewrite Z.add_0_r. }
  intros E. destruct r as [c|e].
  - destruct (new_Config_loaded _ _ _ _ _ _ _ _ _ Hu E) as [Hl Hv]. cbn in Hv.
    revert E. unfold new_Config. cbv zeta. destruct (read cp) as [text|]; [|done].
    destruct (rbind _ _); [|done]. intros [= -> <-]. cbn. by rewrite Hv.
  - revert E. unfold new_Config. cbv zeta. cbn. intros E.
    assert (Es : st' = {| latestVersion := latestVersion st + 1; lastConfigPath := cp;
                          maxOnline := maxOnline st |}).
    { destruct (read cp); cbn in E; [destruct (rbind _ _)|]; congruence. }
    by subst st'.
Qed.

(** C16: No word is read that is not there.  The parser checks the number of
    words of every option before it reads them, in a section and outside, with
    two exceptions: "ascii_downloads" without a parameter and "msg_path" with a
    single one read past the end of the words.  Both are accepted in every
    state outside a section, and no other line can. *)
Theorem Parse_defined `{!SplitOk, !CaseConvOk} line c :
  Config_ok c →
  Parse regex_valid aclKeywords line c = Throw Undefined ↔
  currentSection c = None ∧
  ((∃ o, words line = [o] ∧ to_lower o = lit "ascii_downloads") ∨
   (∃ o t, words line = [o; t] ∧ to_lower o = lit "msg_path")).
Proof.
  intros [[_ Hcur] _]. unfold Parse. destruct (words line) as [|o toks].
  { split; [done|]. intros [_ [(? & ? & _) | (? & ? & ? & _)]]; done. }
  case_decide as Ho.
  { split; [done|]. subst o.
    intros [_ [(? & [= <- _] & E) | (? & ? & [= <- _] & E)]]; by rewrite to_lower_map in E. }
  unfold dispatch. cbv zeta. change (currentSection (count_setting _ c)) with (currentSection c).
  destruct (currentSection c) as [n|] eqn:Hn.
  { split; [|by intros [? _]]. intros E. exfalso. revert E. apply ParseSection_defined. by apply Hcur. }
  destruct (decide (to_lower o ∈ reads_too_much)) as [Hin|Hin].
  - unfold reads_too_much in Hin. rewrite !elem_of_cons, elem_of_nil in Hin.
    destruct Hin as [E | [E | []]]; rewrite E.
    + rewrite ascii_downloads_undefined. split; [intros ->; eauto 6|].
      intros [_ [(? & [= _ ->] & _) | (? & ? & [= <- _] & E')]]; [done|]. by rewrite E in E'.
    + rewrite msg_path_undefined. split; [intros [t ->]; eauto 8|].
      intros [_ [(? & [= <- _] & E') | (? & t & [= _ ->] & _)]]; [by rewrite E in E'|eauto].
  - split; [intros E; exfalso; revert E; by apply ParseGlobal_defined|].
    intros [_ [(? & [= <- _] & E) | (? & ? & [= <- _] & E)]]; exfalso; apply Hin; rewrite E;
      unfold reads_too_much; rewrite !elem_of_cons; auto.
Qed.

(** The section of a path.  Of the sections with a mask that matches the
    path (a directory is matched with a slash at its end) it is the one with
    the least name, whatever the order of the file; there is none exactly when
    no section matches. *)
Lemma SectionMatch_least path isDir c :
  Config_ok c → path ≠ [] →
  let p := if isDir && negb (bool_decide (last path = Some "/"%char)) then path ++ lit "/" else path in
  match SectionMatch path isDir c with
  | Some s =>
      map_find (s_name s) (get c KSections) = Some s ∧ Section_IsMatch p s = true ∧
      ∀ n s', map_find n (get c KSections) = Some s' → Section_IsMatch p s' = true →
              n = s_name s ∨ str_ltb (s_name s) n = true
  | None => ∀ n s', map_find n (get c KSections) = Some s' → Section_IsMatch p s' = false
  end.
Proof.
  intros [[Hk _] _] Hp. cbv zeta. destruct (Hk KSections) as [Hsort Hname].
  unfold SectionMatch. rewrite decide_False by done. cbv zeta.
  set (p := if isDir && _ then path ++ _ else path). destruct (List.find _ _) as [[n s]|] eqn:E.
  - cbn [snd]. destruct (find_least _ _ _ Hsort E) as (I1 & I2 & I3).
    pose proof (proj1 (Forall_forall _ _) Hname _ I1) as [Hn _]. cbn in Hn. subst n.
    split_and!; [by apply map_find_sorted | done |].
    intros n s' Hs' Hm. apply assoc_in in Hs' as Hin.
    destruct (I3 _ Hin Hm) as [[= -> _]|]; [by left | by right].
  - intros n s' Hs'%assoc_in. apply list_elem_of_In in Hs'. by apply (List.find_none _ _ E) in Hs'.
Qed.

End properties.

(** A small configuration *)
Module Example.
#[export] Existing Instances ref_split ref_case ref_trim ref_replace_all ref_fnmatch.

Definition text : str := join LF [
  lit "# the site";
  lit "sitepath /site   # its files";
  lit "datapath /data";
  lit "port 2121";
  lit "valid_ip 127.0.0.1 192.168.0.*";
  lit "Max_Users 20 2";
  lit "section mp3";
  lit "  path /site/mp3/* /site/*/live/*";
  lit "  ratio 3";
  lit "endsection";
  lit "section live";
  lit "  path /site/*/live/*";
  lit "endsection";
  lit "download /site/* 1 -bob"].

Definition no_statics : Statics := {| latestVersion := 0; lastConfigPath := []; maxOnline := None |}.

Definition read (path : str) : option str :=
  if decide (path = lit "etc/ebftpd.conf") then Some text else None.

Abbreviation load :=
  (Load (λ _, true) [] 18 (λ path, bool_decide (is_Some (read path))) read [] false no_statics).

Definition start : Config :=
  {| version := 1; tool := false; get := default_value 18; settingsCache := ∅;
     currentSection := None |}.

Definition config : Config := match load.1 with Ok c => c | Throw _ => start end.

Lemma umask_18 : umask_ok 18.
Proof. unfold umask_ok. lia. Qed.

Lemma start_ok : Config_ok start.
Proof. apply new_Config_ok, umask_18. Qed.

Lemma load_Ok : load.1 = Ok config.
Proof.
  assert (Hok : (match load.1 with Ok _ => true | Throw _ => false end) = true)
    by (vm_compute; reflexivity).
  unfold config. by destruct (load.1).
Qed.

Lemma config_ok : Config_ok config.
Proof.
  pose proof (Load_loaded (λ _, true) [] 18 _ _ _ _ _ _ umask_18 load_Ok) as [Hl _].
  exact (loaded_ok _ Hl).
Qed.
End Example.
Import Example.


Lemma Load_ok_witness :
  ∃ c st', load = (Ok c, st') ∧ loaded c ∧ get c KPort = 2121 ∧
    maxOnline st' = Some {| users := 20; exemptUsers := 2 |}.
Proof.
  destruct load as [r st'] eqn:E.
  pose proof (Load_ok (λ _, true) [] 18 _ _ _ _ _ _ _ umask_18 E) as Hok.
  assert (Er : r = Ok config) by (rewrite <- load_Ok, E; reflexivity). subst r.
  exists config, st'. destruct Hok as (_ & _ & K1 & _ & _ & K2). split; [reflexivity|]. split; [exact K1|].
  split; [vm_compute; reflexivity|]. rewrite K2.
  apply (f_equal Some). vm_compute. reflexivity.
Defined.

Lemma Parse_defined_witness :
  Parse (λ _, true) [] (lit " ascii_downloads ") start = Throw Undefined ∧
  Parse (λ _, true) [] (lit "msg_path  /site/*") start = Throw Undefined.
Proof.
  pose proof ref_split_ok as HS. pose proof ref_case_ok as HC.
  pose proof (λ line, proj2 (Parse_defined (λ _, true) [] line start start_ok)) as W.
  split; apply W; (split; [reflexivity|]).
  - left. exists (lit "ascii_downloads"). split; vm_compute; reflexivity.
  - right. exists (lit "msg_path"), (lit "/site/*"). split; vm_compute; reflexivity.
Defined.

(** The path is in both sections; "LIVE" comes before "MP3". *)
Lemma SectionMatch_least_example :
  ∃ s, SectionMatch (lit "/site/mp3/live/x") true config = Some s ∧ s_name s = lit "LIVE" ∧
    map_find (lit "LIVE") (get config KSections) = Some s.
Proof.
  pose proof (SectionMatch_least (lit "/site/mp3/live/x") true config config_ok ltac:(done)) as W.
  cbv zeta in W.
  assert (En : s_name <$> SectionMatch (lit "/site/mp3/live/x") true config = Some (lit "LIVE"))
    by (vm_compute; reflexivity).
  destruct (SectionMatch (lit "/site/mp3/live/x") true config) as [s|]; [|discriminate].
  injection En as En. exists s. split; [reflexivity|]. split; [exact En|].
  exact (eq_rect _ (λ n, map_find n (get config KSections) = Some s) (proj1 W) _ En).
Defined.
