(* ===== verification/AsyncCrc.v ===== *)
(** * The checksum thread: util/asynccrc32.hpp

    An upload hands its buffers over to a thread of its own through a ring of
    buffers.  The two threads take turns at will; what either does without the
    mutex, or in one critical section, is one step.  A thread that waits on a
    condition variable does not move until the other notifies it (or it wakes
    up for no reason, which C++ allows), so that a lost notification would be a
    deadlock of the model. *)

From stdpp Require Import prelude.
From S2P Require Import Prelude Crc32.
From Stdlib Require Import NArith.

(** ** Data *)

Record Buffer := { len : nat; empty : bool; data : list N }.

(** Where the thread of [Main] is: about to look at its buffer, waiting on
    [readCond], about to update the checksum, about to give the buffer back,
    about to notify and go on, or at [exitloop]. *)
Inductive ReaderPC : Type := RCheck | RWait | RUpdate | RMark | RNotify | RExit.

(** Where the client is: not in a call, or in [Update] (about to look whether
    its buffer is empty, waiting on [writeCond], about to copy, about to hand
    over, about to notify and go on), in [WaitPending] (about to look or
    waiting), or in the destructor (about to set [finished], to notify, to
    join). *)
Inductive ClientPC : Type :=
  | Idle
  | USlot (bytes : list N) | USlotWait (bytes : list N) | UCopy (bytes : list N)
  | UMark (bytes : list N) | UNotify
  | PCheck | PWait
  | DFinish | DNotify | DJoin | Gone.

Record State := {
  finished : bool; pending : nat; queue : list Buffer; readIt : nat; writeIt : nat;
  checksum : N; result : option N; reader : ReaderPC; client : ClientPC
}.

(** ** The code *)

Section code.
(** The addresses of the buffers *)
Context (addr : nat → N).

Definition new_Buffer (bufferSize : nat) : Buffer :=
  {| len := 0; empty := true; data := replicate bufferSize 0%N |}.

Definition AsyncCRC32 (bufferSize queueSize : nat) : State := {|
  finished := false; pending := 0; queue := replicate queueSize (new_Buffer bufferSize);
  readIt := 0; writeIt := 0; checksum := 0; result := None; reader := RCheck; client := Idle |}.

Definition set_reader r s : State := {|
  finished := finished s; pending := pending s; queue := queue s; readIt := readIt s;
  writeIt := writeIt s; checksum := checksum s; result := result s; reader := r; client := client s |}.

Definition set_client c s : State := {|
  finished := finished s; pending := pending s; queue := queue s; readIt := readIt s;
  writeIt := writeIt s; checksum := checksum s; result := result s; reader := reader s; client := c |}.

Definition set_queue p q s : State := {|
  finished := finished s; pending := p; queue := q; readIt := readIt s; writeIt := writeIt s;
  checksum := checksum s; result := result s; reader := reader s; client := client s |}.

Definition set_its r w s : State := {|
  finished := finished s; pending := pending s; queue := queue s; readIt := r; writeIt := w;
  checksum := checksum s; result := result s; reader := reader s; client := client s |}.

Definition set_checksum c s : State := {|
  finished := finished s; pending := pending s; queue := queue s; readIt := readIt s;
  writeIt := writeIt s; checksum := c; result := result s; reader := reader s; client := client s |}.

Definition set_result s : State := {|
  finished := finished s; pending := pending s; queue := queue s; readIt := readIt s;
  writeIt := writeIt s; checksum := checksum s; result := Some (checksum s);
  reader := reader s; client := client s |}.

Definition set_finished s : State := {|
  finished := true; pending := pending s; queue := queue s; readIt := readIt s;
  writeIt := writeIt s; checksum := checksum s; result := result s;
  reader := reader s; client := client s |}.

(** [if (++it == queue.end()) it = queue.begin();] *)
Definition advance (it : nat) s : nat := if S it =? length (queue s) then 0 else S it.

(** [readCond.notify_one()] and [writeCond.notify_one()]: only one thread can
    wait on either. *)
Definition notify_reader s : State :=
  match reader s with RWait => set_reader RCheck s | _ => s end.

Definition notify_client s : State :=
  match client s with
  | USlotWait bytes => set_client (USlot bytes) s
  | PWait => set_client PCheck s
  | _ => s
  end.

(** A step of [Main]; [None]: it cannot move. *)
Definition reader_step s : option State :=
  match reader s with
  | RCheck =>
      b ← queue s !! readIt s;
      Some (if empty b then if finished s then set_reader RExit s else set_reader RWait s
            else set_reader RUpdate s)
  | RWait => None
  | RUpdate =>
      b ← queue s !! readIt s;
      c ← crc32 (addr (readIt s)) (take (len b) (data b)) (checksum s);
      Some (set_reader RMark (set_checksum c s))
  | RMark =>
      b ← queue s !! readIt s;
      let b := {| len := len b; empty := true; data := data b |} in
      Some (set_reader RNotify (set_queue (pending s - 1) (<[readIt s := b]> (queue s)) s))
  | RNotify =>
      let s := notify_client s in
      Some (set_reader RCheck (set_its (advance (readIt s) s) (writeIt s) s))
  | RExit => None
  end.

(** A step of the client within [Update(bytes, len)], [WaitPending] (before the
    checksum is read) or the destructor *)
Definition client_step s : option State :=
  match client s with
  | Idle | USlotWait _ | PWait | Gone => None
  | USlot bytes =>
      b ← queue s !! writeIt s;
      Some (if empty b then set_client (UCopy bytes) s else set_client (USlotWait bytes) s)
  | UCopy bytes =>
      b ← queue s !! writeIt s;
      let b := {| len := length bytes; empty := empty b;
                  data := bytes ++ drop (length bytes) (data b) |} in
      Some (set_client (UMark bytes) (set_queue (pending s) (<[writeIt s := b]> (queue s)) s))
  | UMark bytes =>
      b ← queue s !! writeIt s;
      let b := {| len := len b; empty := false; data := data b |} in
      Some (set_client UNotify (set_queue (S (pending s)) (<[writeIt s := b]> (queue s)) s))
  | UNotify =>
      let s := notify_reader s in
      Some (set_client Idle (set_its (readIt s) (advance (writeIt s) s) s))
  | PCheck =>
      Some (if pending s =? 0 then set_client Idle (set_result s) else set_client PWait s)
  | DFinish => Some (set_client DNotify (set_finished s))
  | DNotify => Some (set_client DJoin (notify_reader s))
  | DJoin => match reader s with RExit => Some (set_client Gone s) | _ => None end
  end.

(** The calls of the client; [Update] asserts that the bytes fit a buffer. *)
Definition Update (bytes : list N) s : State := set_client (USlot bytes) s.
Definition Checksum s : State := set_client PCheck s.
Definition Destroy s : State := set_client DFinish s.

(** A thread that waits may wake up unnotified. *)
Definition spurious s s' : Prop :=
  (reader s = RWait ∧ s' = set_reader RCheck s) ∨
  (∃ bytes, client s = USlotWait bytes ∧ s' = set_client (USlot bytes) s) ∨
  (client s = PWait ∧ s' = set_client PCheck s).

(** [moves s s']: one of the threads makes a step of the code. *)
Definition moves s s' : Prop := reader_step s = Some s' ∨ client_step s = Some s'.

(** [reachable sent s]: after the calls of [Update] with the buffers [sent], in
    this order, and any interleaving, the state is [s]. *)
Inductive reachable (bufferSize queueSize : nat) : list (list N) → State → Prop :=
  | reach_new : reachable bufferSize queueSize [] (AsyncCRC32 bufferSize queueSize)
  | reach_move sent s s' :
      reachable bufferSize queueSize sent s → moves s s' → reachable bufferSize queueSize sent s'
  | reach_spurious sent s s' :
      reachable bufferSize queueSize sent s → spurious s s' → reachable bufferSize queueSize sent s'
  | reach_update sent s bytes :
      reachable bufferSize queueSize sent s → client s = Idle →
      length bytes ≤ bufferSize → Forall u8 bytes →
      reachable bufferSize queueSize (sent ++ [bytes]) (Update bytes s)
  | reach_checksum sent s :
      reachable bufferSize queueSize sent s → client s = Idle →
      reachable bufferSize queueSize sent (Checksum s)
  | reach_destroy sent s :
      reachable bufferSize queueSize sent s → client s = Idle →
      reachable bufferSize queueSize sent (Destroy s).

End code.

(** ** The invariant *)

(** The place [k] buffers behind [r] in a ring of [Q], and how far [j] is
    behind [r] *)
Definition behind (Q r k : nat) : nat := if r + k <? Q then r + k else r + k - Q.
Definition dist (Q r j : nat) : nat := if r <=? j then j - r else j + Q - r.

(** The buffer that is in the hands of the client *)
Definition in_hand (c : ClientPC) : list (list N) :=
  match c with USlot b | USlotWait b | UCopy b | UMark b => [b] | _ => [] end.

Definition leaving (c : ClientPC) : bool :=
  match c with DNotify | DJoin | Gone => true | _ => false end.

(** The next place of either thread, once it has gone on *)
Definition rpos Q s : nat := match reader s with RNotify => behind Q (readIt s) 1 | _ => readIt s end.
Definition wpos Q s : nat := match client s with UNotify => behind Q (writeIt s) 1 | _ => writeIt s end.

Definition slot_ok (todo : list (list N)) (k : nat) (b : Buffer) : Prop :=
  match todo !! k with
  | Some bytes => empty b = false ∧ take (len b) (data b) = bytes
  | None => empty b = true
  end.

Record Inv (Q : nat) (sent done todo : list (list N)) (s : State) : Prop := {
  inv_sent : sent = done ++ todo ++ in_hand (client s);
  inv_bytes : Forall (Forall u8) sent;
  inv_queue : length (queue s) = Q;
  inv_its : readIt s < Q ∧ writeIt s < Q;
  inv_pending : pending s = length todo;
  inv_full : length todo ≤ Q;
  inv_wpos : wpos Q s = behind Q (rpos Q s) (length todo);
  inv_slots j : j < Q → ∃ b, queue s !! j = Some b ∧ slot_ok todo (dist Q (rpos Q s) j) b;
  inv_checksum : checksum s =
    crc_ref 0 (concat (done ++ match reader s with RMark => take 1 todo | _ => [] end));
  inv_reader : match reader s with
    | RUpdate | RMark => todo ≠ []
    | RWait => (todo = [] ∨ client s = UNotify) ∧ (finished s = true → client s = DNotify)
    | RExit => finished s = true ∧ todo = []
    | _ => True
    end;
  inv_client : match client s with
    | UCopy _ => length todo < Q
    | UMark bytes => length todo < Q ∧
        ∃ b, queue s !! writeIt s = Some b ∧ take (len b) (data b) = bytes
    | USlotWait _ => length todo = Q ∨ reader s = RNotify
    | PWait => todo ≠ [] ∨ reader s = RNotify
    | _ => True
    end;
  inv_finished : finished s = leaving (client s)
}.

Section proofs.
Context (addr : nat → N).
Context (bufferSize Q : nat) (HQ : 0 < Q).
Implicit Types (s : State) (sent done todo : list (list N)).

Ltac positions := unfold behind, dist in *; repeat case_match; rewrite ?Nat.ltb_lt, ?Nat.ltb_ge, ?Nat.leb_le, ?Nat.leb_gt in *; try lia.

Lemma dist_behind r k : r < Q → k < Q → dist Q r (behind Q r k) = k.
Proof. intros. positions. Qed.

Lemma behind_lt r k : r < Q → k ≤ Q → behind Q r k < Q.
Proof. intros. positions. Qed.

Lemma behind_dist r j : r < Q → j < Q → behind Q r (dist Q r j) = j.
Proof. intros. positions. Qed.

Lemma dist_lt r j : r < Q → j < Q → dist Q r j < Q.
Proof. intros. positions. Qed.

(** Going on by one brings every other place one nearer. *)
Lemma dist_next r j : r < Q → j < Q → j ≠ r → S (dist Q (behind Q r 1) j) = dist Q r j.
Proof. intros. positions. Qed.

Lemma dist_next_self r : r < Q → dist Q (behind Q r 1) r = Q - 1.
Proof. intros. positions. Qed.

Lemma behind_next r k : r < Q → 0 < k → k ≤ Q → behind Q (behind Q r 1) (k - 1) = behind Q r k.
Proof. intros. positions. Qed.

Lemma behind_S r k : r < Q → k < Q → behind Q (behind Q r k) 1 = behind Q r (S k).
Proof. intros. positions. Qed.

Lemma advance_behind it s : length (queue s) = Q → it < Q → advance it s = behind Q it 1.
Proof. intros Hq Hi. unfold advance. rewrite Hq. destruct (Nat.eqb_spec (S it) Q); positions. Qed.

(** The reader's place holds the first of the buffers to do. *)
Lemma reader_slot sent done todo s b :
  Inv Q sent done todo s → reader s ≠ RNotify → queue s !! readIt s = Some b →
  slot_ok todo 0 b.
Proof.
  intros Hi Hr Hb. destruct (inv_its _ _ _ _ _ Hi) as [Hri _].
  destruct (inv_slots _ _ _ _ _ Hi (readIt s) Hri) as (b' & Hb' & Hs).
  assert (Er : rpos Q s = readIt s) by (unfold rpos; by destruct (reader s)).
  rewrite Er in Hs. replace (dist Q (readIt s) (readIt s)) with 0 in Hs by positions. congruence.
Qed.

(** The client's place is empty exactly when the ring is not full. *)
Lemma client_slot sent done todo s b :
  Inv Q sent done todo s → client s ≠ UNotify → queue s !! writeIt s = Some b →
  empty b = true ↔ length todo < Q.
Proof.
  intros Hi Hc Hb. destruct (inv_its _ _ _ _ _ Hi) as [Hri Hwi].
  destruct (inv_slots _ _ _ _ _ Hi (writeIt s) Hwi) as (b' & Hb' & Hs).
  assert (Ew : wpos Q s = writeIt s) by (unfold wpos; by destruct (client s)).
  pose proof (inv_wpos _ _ _ _ _ Hi) as Hw. rewrite Ew in Hw.
  pose proof (inv_full _ _ _ _ _ Hi) as Hf.
  assert (Hr : rpos Q s < Q) by (unfold rpos; destruct (reader s); try done; apply behind_lt; lia).
  assert (b' = b) by congruence. subst b'. unfold slot_ok in Hs. rewrite Hw in Hs.
  destruct (decide (length todo = Q)) as [E|E].
  - split; [|lia]. intros Hemp. exfalso.
    destruct (todo !! dist Q (rpos Q s) (behind Q (rpos Q s) (length todo))) as [x|] eqn:Ex.
    + destruct Hs as [Hs _]. congruence.
    + apply lookup_ge_None in Ex. pose proof (behind_lt (rpos Q s) (length todo) Hr Hf).
      pose proof (dist_lt (rpos Q s) _ Hr H). lia.
  - rewrite dist_behind in Hs by lia. rewrite lookup_ge_None_2 in Hs by lia. split; [lia|done].
Qed.

Lemma Inv_new : Inv Q [] [] [] (AsyncCRC32 bufferSize Q).
Proof.
  split; cbn; try done; try lia.
  - apply length_replicate.
  - unfold wpos, rpos. cbn. positions.
  - intros j Hj. exists (new_Buffer bufferSize). split; [|done]. by apply lookup_replicate.
Qed.

Lemma concat_u8 (l : list (list N)) : Forall (Forall u8) l → Forall u8 (concat l).
Proof. induction 1; cbn; [constructor|by apply Forall_app]. Qed.

Ltac open Hi := destruct Hi as [K1 K2 K3 [K4 K4'] K5 K6 K7 K8 K9 K10 K11 K12].
(** [close] proves the parts of the invariant that did not change. *)
Ltac close := split; cbn [client reader queue pending readIt writeIt checksum finished
    set_reader set_client set_queue set_its set_checksum set_finished set_result in_hand leaving]; try done.

Lemma todo_head todo b :
  slot_ok todo 0 b →
  if empty b then todo = [] else ∃ bytes todo', todo = bytes :: todo' ∧ take (len b) (data b) = bytes.
Proof.
  unfold slot_ok. destruct todo as [|bytes todo']; cbn.
  - by intros ->.
  - intros [-> <-]. eauto.
Qed.

(** A change of the reader's place that moves nothing *)
Lemma set_reader_inv sent done todo s r :
  Inv Q sent done todo s → r ≠ RNotify → reader s ≠ RNotify → r ≠ RMark → reader s ≠ RMark →
  match r with
  | RUpdate => todo ≠ []
  | RWait => (todo = [] ∨ client s = UNotify) ∧ (finished s = true → client s = DNotify)
  | RExit => finished s = true ∧ todo = []
  | _ => True
  end →
  Inv Q sent done todo (set_reader r s).
Proof.
  intros Hi Hr1 Hr2 Hr3 Hr4 Hr. open Hi.
  assert (Er : rpos Q (set_reader r s) = rpos Q s) by (unfold rpos; cbn; by destruct r, (reader s)).
  close.
  - by rewrite Er.
  - by rewrite Er.
  - rewrite K9. by destruct r, (reader s).
  - by destruct r.
  - destruct (client s); try done; by destruct K11; [left|].
Qed.

Lemma reader_check_inv sent done todo s s' :
  Inv Q sent done todo s → reader s = RCheck → reader_step addr s = Some s' →
  Inv Q sent done todo s'.
Proof.
  intros Hi Er E. unfold reader_step in E. rewrite Er in E.
  destruct (queue s !! readIt s) as [b|] eqn:Eb; [|done]. cbn [mbind option_bind] in E.
  pose proof (todo_head _ _ (reader_slot _ _ _ _ _ Hi ltac:(congruence) Eb)) as Ht.
  destruct (empty b); [destruct (finished s) eqn:Ef|]; injection E as <-;
    apply set_reader_inv; try congruence; try done.
  - split; [by left | congruence].
  - by destruct Ht as (? & ? & -> & _).
Qed.

Lemma reader_update_inv sent done todo s :
  Inv Q sent done todo s → reader s = RUpdate →
  ∃ s', reader_step addr s = Some s' ∧ Inv Q sent done todo s'.
Proof.
  intros Hi Er. pose proof (inv_reader _ _ _ _ _ Hi) as Hne. rewrite Er in Hne.
  destruct (inv_its _ _ _ _ _ Hi) as [Hri _].
  assert (Hsome : is_Some (queue s !! readIt s))
    by (apply lookup_lt_is_Some_2; rewrite (inv_queue _ _ _ _ _ Hi); lia).
  destruct Hsome as [b Eb].
  pose proof (todo_head _ _ (reader_slot _ _ _ _ _ Hi ltac:(congruence) Eb)) as Ht.
  destruct (empty b); [done|]. destruct Ht as (bytes & todo' & -> & Hb).
  unfold reader_step. rewrite Er, Eb. cbn [mbind option_bind]. rewrite Hb.
  open Hi. rewrite Er, app_nil_r in K9.
  rewrite K1 in K2. apply Forall_app in K2 as [Kd Kt].
  assert (Kb : Forall u8 bytes) by (apply Forall_app in Kt as [Kt _]; by inversion Kt).
  rewrite K9, crc32_crc; [|apply not32_u32, foldl_crc_u32; [apply not32_u32|by apply concat_u8]|done].
  2: { by vm_compute. }
  cbn [mbind option_bind]. eexists. split; [reflexivity|].
  assert (K2' : Forall (Forall u8) sent) by (rewrite K1; by apply Forall_app).
  unfold rpos in *. rewrite Er in *. close; unfold rpos in *; cbn in *; try done.
  - rewrite concat_app. cbn. by rewrite app_nil_r, crc_ref_app.
  - destruct (client s); try done; by destruct K11; [left|].
Qed.

Lemma reader_mark_inv sent done todo s s' :
  Inv Q sent done todo s → reader s = RMark → reader_step addr s = Some s' →
  ∃ done' todo', Inv Q sent done' todo' s'.
Proof.
  intros Hi Er E. pose proof (inv_reader _ _ _ _ _ Hi) as Hne. rewrite Er in Hne.
  unfold reader_step in E. rewrite Er in E.
  destruct (queue s !! readIt s) as [b|] eqn:Eb; [|done]. cbn [mbind option_bind] in E.
  injection E as <-. destruct todo as [|bytes todo']; [done|].
  exists (done ++ [bytes]), todo'. open Hi. cbn [length] in *.
  assert (Erp : rpos Q s = readIt s) by (unfold rpos; by rewrite Er). rewrite Erp in *.
  set (b' := {| len := len b; empty := true; data := data b |}).
  close.
  - rewrite K1, <- !app_assoc. done.
  - by rewrite length_insert.
  - rewrite K5. lia.
  - lia.
  - change (wpos Q s = behind Q (behind Q (readIt s) 1) (length todo')). rewrite K7.
    rewrite <- (behind_next (readIt s) (S (length todo'))) by lia. f_equal. lia.
  - intros j Hj. unfold rpos. cbn. destruct (decide (j = readIt s)) as [->|Hne'].
    + exists b'. rewrite list_lookup_insert_eq by lia. split; [done|].
      unfold slot_ok. rewrite dist_next_self by done. by rewrite lookup_ge_None_2 by lia.
    + rewrite list_lookup_insert_ne by done. destruct (K8 j Hj) as (b0 & Hb0 & Hs0).
      exists b0. split; [done|]. rewrite <- (dist_next (readIt s) j) in Hs0 by done. done.
  - rewrite K9, Er. cbn. by rewrite app_nil_r.
  - destruct (client s) eqn:Ec; try done; try (by right); try lia.
    destruct K11 as [Hl (b0 & Hb0 & Ht0)]. split; [lia|]. exists b0.
    rewrite list_lookup_insert_ne; [done|]. unfold wpos in K7. rewrite Ec in K7. rewrite K7.
    intros E. positions.
Qed.

Lemma reader_notify_inv sent done todo s s' :
  Inv Q sent done todo s → reader s = RNotify → reader_step addr s = Some s' →
  Inv Q sent done todo s'.
Proof.
  intros Hi Er E. unfold reader_step in E. rewrite Er in E. injection E as <-.
  open Hi. unfold notify_client. unfold rpos in *. rewrite Er in *.
  assert (Ha : ∀ s0, queue s0 = queue s → advance (readIt s) s0 = behind Q (readIt s) 1)
    by (intros s0 E1; apply advance_behind; [congruence|done]).
  assert (Hlt : behind Q (readIt s) 1 < Q) by (apply behind_lt; lia).
  destruct (client s) eqn:Ec; close; unfold rpos, wpos in *; cbn [client reader queue pending readIt
    writeIt checksum finished set_reader set_client set_queue set_its] in *; rewrite ?Ec in *;
    rewrite ?Ha by done; try done; try lia; try congruence.
Qed.

Lemma reader_step_inv sent done todo s s' :
  Inv Q sent done todo s → reader_step addr s = Some s' → ∃ done' todo', Inv Q sent done' todo' s'.
Proof.
  intros Hi E. destruct (reader s) eqn:Er.
  - exists done, todo. by eapply reader_check_inv.
  - unfold reader_step in E. by rewrite Er in E.
  - destruct (reader_update_inv _ _ _ _ Hi Er) as (s0 & E0 & Hi0).
    exists done, todo. rewrite E in E0. by injection E0 as ->.
  - by eapply reader_mark_inv.
  - exists done, todo. by eapply reader_notify_inv.
  - unfold reader_step in E. by rewrite Er in E.
Qed.

(** A change of the client's place that moves nothing *)
Lemma set_client_inv sent done todo s c :
  Inv Q sent done todo s → c ≠ UNotify → client s ≠ UNotify → in_hand c = in_hand (client s) →
  leaving c = leaving (client s) → client s ≠ DNotify →
  match c with
  | UCopy _ => length todo < Q
  | USlotWait _ => length todo = Q ∨ reader s = RNotify
  | PWait => todo ≠ [] ∨ reader s = RNotify
  | UMark _ => False
  | _ => True
  end →
  Inv Q sent done todo (set_client c s).
Proof.
  intros Hi Hc1 Hc2 Hh Hl Hd Hc. open Hi.
  assert (Ew : wpos Q (set_client c s) = wpos Q s) by (unfold wpos; cbn; by destruct c, (client s)).
  close.
  - by rewrite Hh.
  - by rewrite Ew.
  - destruct (reader s); try done. destruct K10 as [[?|?] Hf]; [|done]. split; [by left|].
    intros E. by apply Hf in E.
  - by destruct c.
  - congruence.
Qed.

Lemma client_copy_inv sent done todo s s' bytes :
  Inv Q sent done todo s → client s = UCopy bytes → client_step s = Some s' →
  Inv Q sent done todo s'.
Proof.
  intros Hi Ec E. unfold client_step in E. rewrite Ec in E.
  destruct (queue s !! writeIt s) as [b|] eqn:Eb; [|done]. cbn [mbind option_bind] in E.
  injection E as <-. set (b' := {| len := _; empty := _; data := _ |}).
  pose proof (proj2 (client_slot _ _ _ _ _ Hi ltac:(congruence) Eb)) as Hemp.
  open Hi. rewrite Ec in *. specialize (Hemp K11).
  unfold wpos in K7. rewrite Ec in K7.
  close.
  - by rewrite length_insert.
  - intros j Hj. change (rpos Q (set_client _ _)) with (rpos Q s).
    destruct (K8 j Hj) as (b0 & Hb0 & Hs0). destruct (decide (j = writeIt s)) as [->|Hne].
    + exists b'. rewrite list_lookup_insert_eq by lia. split; [done|].
      assert (b0 = b) by congruence. subst b0. unfold slot_ok in *.
      destruct (todo !! _); [|done]. destruct Hs0. congruence.
    + exists b0. by rewrite list_lookup_insert_ne.
  - destruct (reader s); try done. cbn in K12. intuition congruence.
  - split; [done|]. exists b'. rewrite list_lookup_insert_eq by lia. split; [done|]. cbn.
    by rewrite take_app_length.
Qed.

Lemma client_mark_inv sent done todo s s' bytes :
  Inv Q sent done todo s → client s = UMark bytes → client_step s = Some s' →
  Inv Q sent done (todo ++ [bytes]) s'.
Proof.
  intros Hi Ec E. unfold client_step in E. rewrite Ec in E.
  destruct (queue s !! writeIt s) as [b|] eqn:Eb; [|done]. cbn [mbind option_bind] in E.
  injection E as <-. set (b' := {| len := _; empty := _; data := _ |}).
  open Hi. rewrite Ec in *. destruct K11 as [K11 (b1 & Hb1 & Ht1)].
  assert (b1 = b) by congruence. subst b1.
  unfold wpos in K7. rewrite Ec in K7.
  assert (Hr : rpos Q s < Q) by (unfold rpos; destruct (reader s); try done; apply behind_lt; lia).
  close.
  - rewrite K1. cbn. by rewrite app_nil_r.
  - by rewrite length_insert.
  - rewrite length_app, K5. cbn. lia.
  - rewrite length_app. cbn. lia.
  - unfold wpos. cbn [client writeIt set_client set_queue]. change (rpos Q (set_client _ _)) with (rpos Q s).
    rewrite K7, behind_S by done. f_equal. rewrite length_app. cbn. lia.
  - intros j Hj. change (rpos Q (set_client _ _)) with (rpos Q s).
    destruct (K8 j Hj) as (b0 & Hb0 & Hs0). destruct (decide (j = writeIt s)) as [->|Hne].
    + exists b'. rewrite list_lookup_insert_eq by lia. split; [done|]. unfold slot_ok.
      rewrite K7, dist_behind by lia. by rewrite list_lookup_middle.
    + exists b0. rewrite list_lookup_insert_ne by done. split; [done|]. unfold slot_ok in *.
      assert (Hd : dist Q (rpos Q s) j ≠ length todo).
      { intros Hd. apply Hne. rewrite K7, <- Hd. symmetry. by apply behind_dist. }
      destruct (decide (dist Q (rpos Q s) j < length todo)).
      * by rewrite lookup_app_l.
      * rewrite (lookup_ge_None_2 todo) in Hs0 by lia. rewrite lookup_ge_None_2; [done|].
        rewrite length_app. cbn. lia.
  - rewrite K9. destruct (reader s); try done. by destruct todo.
  - destruct (reader s); try done.
    + split; [by right|]. intros E. rewrite K12 in E. done.
    + by destruct todo.
    + by destruct todo.
    + destruct K10 as [E _]. rewrite K12 in E. done.
Qed.

Lemma notify_reader_inv sent done todo s c w :
  Inv Q sent done todo s →
  (client s = UNotify ∧ c = Idle ∧ w = behind Q (writeIt s) 1) ∨
  (client s = DNotify ∧ c = DJoin ∧ w = writeIt s) →
  Inv Q sent done todo (set_client c (set_its (readIt s) w (notify_reader s))).
Proof.
  intros Hi Hc. open Hi.
  assert (Hw : behind Q (writeIt s) 1 < Q) by (apply behind_lt; lia).
  unfold notify_reader. unfold rpos, wpos in *.
  destruct Hc as [(Ec & -> & ->) | (Ec & -> & ->)]; rewrite Ec in *;
    destruct (reader s) eqn:Er; close; unfold rpos, wpos; cbn; rewrite ?Er; try done; try lia.
  all: intuition congruence.
Qed.

Lemma client_step_inv sent done todo s s' :
  Inv Q sent done todo s → client_step s = Some s' → ∃ todo', Inv Q sent done todo' s'.
Proof.
  intros Hi E. destruct (client s) eqn:Ec; pose proof E as E0; unfold client_step in E; rewrite Ec in E;
    try done.
  - exists todo. destruct (queue s !! writeIt s) as [b|] eqn:Eb; [|done]. cbn [mbind option_bind] in E.
    pose proof (client_slot _ _ _ _ _ Hi ltac:(congruence) Eb) as Hs.
    pose proof (inv_full _ _ _ _ _ Hi) as Hf.
    destruct (empty b); injection E as <-; apply set_client_inv; rewrite ?Ec; try done.
    + by apply Hs.
    + left. destruct (decide (length todo < Q)) as [Hl|Hl]; [|lia]. by apply Hs in Hl.
  - exists todo. by eapply client_copy_inv.
  - exists (todo ++ [bytes]). by eapply client_mark_inv.
  - exists todo. injection E as <-.
    replace (advance (writeIt (notify_reader s)) (notify_reader s)) with (behind Q (writeIt s) 1).
    2: { unfold notify_reader. destruct (inv_its _ _ _ _ _ Hi), (reader s);
           symmetry; apply advance_behind; try done; apply (inv_queue _ _ _ _ _ Hi). }
    replace (readIt (notify_reader s)) with (readIt s) by (unfold notify_reader; by destruct (reader s)).
    apply notify_reader_inv; auto.
  - exists todo. pose proof (inv_pending _ _ _ _ _ Hi) as Hp.
    destruct (Nat.eqb_spec (pending s) 0); injection E as <-.
    + assert (Inv Q sent done todo (set_client Idle s)) as Hi' by (apply set_client_inv; rewrite ?Ec; done).
      by destruct Hi'; split.
    + apply set_client_inv; rewrite ?Ec; try done. left. intros ->. by rewrite Hp in n.
  - exists todo. injection E as <-. open Hi. unfold rpos, wpos in *. rewrite Ec in *.
    close; unfold rpos, wpos; cbn; try done. destruct (reader s); try done; intuition congruence.
  - exists todo. injection E as <-.
    assert (Hi' : Inv Q sent done todo (set_client DJoin (set_its (readIt s) (writeIt s) (notify_reader s))))
      by (apply notify_reader_inv; auto).
    assert (Hid : set_its (readIt s) (writeIt s) (notify_reader s) = notify_reader s)
      by (destruct s as [? ? ? ? ? ? ? r ?]; by destruct r).
    by rewrite Hid in Hi'.
  - exists todo. destruct (reader s) eqn:Er; try done. injection E as <-.
    apply set_client_inv; rewrite ?Ec; done.
Qed.

Lemma spurious_inv sent done todo s s' :
  Inv Q sent done todo s → spurious s s' → Inv Q sent done todo s'.
Proof.
  intros Hi [[Er ->] | [(bytes & Ec & ->) | [Ec ->]]].
  - by apply set_reader_inv; rewrite ?Er.
  - by apply set_client_inv; rewrite ?Ec.
  - by apply set_client_inv; rewrite ?Ec.
Qed.

Lemma Update_inv sent done todo s bytes :
  Inv Q sent done todo s → client s = Idle → Forall u8 bytes →
  Inv Q (sent ++ [bytes]) done todo (Update bytes s).
Proof.
  intros Hi Ec Hb. open Hi. unfold Update, rpos, wpos in *. rewrite Ec in *.
  close; try (unfold rpos, wpos; cbn; done).
  - rewrite K1. cbn. by rewrite app_nil_r, <- app_assoc.
  - apply Forall_app. by repeat constructor.
  - destruct (reader s); try done. cbn in K12. intuition congruence.
Qed.

Lemma reachable_Inv sent s : reachable addr bufferSize Q sent s → ∃ done todo, Inv Q sent done todo s.
Proof.
  induction 1 as [|sent s s' _ (d & t & Hi) [E|E]|sent s s' _ (d & t & Hi) E
    |sent s bytes _ (d & t & Hi) Ec _ Hb|sent s _ (d & t & Hi) Ec|sent s _ (d & t & Hi) Ec].
  - exists [], []. apply Inv_new.
  - by eapply reader_step_inv.
  - exists d. by eapply client_step_inv.
  - exists d, t. by eapply spurious_inv.
  - exists d, t. by apply Update_inv.
  - exists d, t. by apply set_client_inv; rewrite ?Ec.
  - exists d, t. by apply set_client_inv; rewrite ?Ec.
Qed.

(** ** Lemmas: progress *)

Definition in_call s : bool := match client s with Idle | Gone => false | _ => true end.

Lemma at_place s it : length (queue s) = Q → it < Q → is_Some (queue s !! it).
Proof. intros Hq Hi. apply lookup_lt_is_Some_2. lia. Qed.

Lemma reader_moves sent done todo s :
  Inv Q sent done todo s → reader s ≠ RWait → reader s ≠ RExit → ∃ s', reader_step addr s = Some s'.
Proof.
  intros Hi Hw He. destruct (inv_its _ _ _ _ _ Hi) as [Hri _].
  destruct (at_place s (readIt s) (inv_queue _ _ _ _ _ Hi) Hri) as [b Eb].
  destruct (reader s) eqn:Er; try done.
  - unfold reader_step. rewrite Er, Eb. cbn [mbind option_bind]. eauto.
  - destruct (reader_update_inv _ _ _ _ Hi Er) as (s' & E & _). eauto.
  - unfold reader_step. rewrite Er, Eb. cbn [mbind option_bind]. eauto.
  - unfold reader_step. rewrite Er. eauto.
Qed.

(** Whatever the client waits for, one of the threads can move. *)
Lemma never_stuck sent done todo s : Inv Q sent done todo s → in_call s = true → ∃ s', moves addr s s'.
Proof.
  intros Hi Hc. destruct (inv_its _ _ _ _ _ Hi) as [_ Hwi].
  destruct (at_place s (writeIt s) (inv_queue _ _ _ _ _ Hi) Hwi) as [b Eb].
  pose proof (inv_reader _ _ _ _ _ Hi) as Hr. pose proof (inv_client _ _ _ _ _ Hi) as Hcl.
  pose proof (inv_finished _ _ _ _ _ Hi) as Hf.
  assert (Hreader : reader s ≠ RWait → reader s ≠ RExit → ∃ s', moves addr s s').
  { intros Hw He. destruct (reader_moves _ _ _ _ Hi Hw He) as [s' E]. exists s'. by left. }
  assert (Hclient : (∃ s', client_step s = Some s') → ∃ s', moves addr s s')
    by (intros [s' E]; exists s'; by right).
  unfold in_call in Hc. destruct (client s) eqn:Ec; try done.
  - apply Hclient. unfold client_step. rewrite Ec, Eb. cbn [mbind option_bind]. eauto.
  - apply Hreader; intros Er; rewrite Er in Hr.
    + destruct Hr as [[->|?] _]; [|done]. cbn in Hcl. destruct Hcl; [lia|congruence].
    + destruct Hr as [_ ->]. cbn in Hcl. destruct Hcl; [lia|congruence].
  - apply Hclient. unfold client_step. rewrite Ec, Eb. cbn [mbind option_bind]. eauto.
  - apply Hclient. unfold client_step. rewrite Ec, Eb. cbn [mbind option_bind]. eauto.
  - apply Hclient. unfold client_step. rewrite Ec. eauto.
  - apply Hclient. unfold client_step. rewrite Ec. eauto.
  - apply Hreader; intros Er; rewrite Er in Hr.
    + destruct Hr as [[->|?] _]; [|done]. by destruct Hcl; [|congruence].
    + destruct Hr as [_ ->]. by destruct Hcl; [|congruence].
  - apply Hclient. unfold client_step. rewrite Ec. eauto.
  - apply Hclient. unfold client_step. rewrite Ec. eauto.
  - destruct (reader s) eqn:Er; try (by apply Hreader).
    + destruct Hr as [_ Hr]. by apply Hr in Hf.
    + apply Hclient. unfold client_step. rewrite Ec, Er. eauto.
Qed.

(** The steps that are left, at most *)
Definition reader_work r : nat :=
  match r with RCheck => 3 | RWait => 0 | RUpdate => 2 | RMark => 1 | RNotify => 6 | RExit => 0 end.

Definition client_work c : nat :=
  match c with
  | Idle => 0 | USlot _ => 16 | USlotWait _ => 15 | UCopy _ => 14 | UMark _ => 13 | UNotify => 4
  | PCheck => 2 | PWait => 1 | DFinish => 6 | DNotify => 5 | DJoin => 1 | Gone => 0
  end.

Definition work s : nat := 8 * pending s + reader_work (reader s) + client_work (client s).

Lemma moves_work sent done todo s s' : Inv Q sent done todo s → moves addr s s' → work s' < work s.
Proof.
  intros Hi [E|E]; unfold work.
  - unfold reader_step in E. destruct (reader s) eqn:Er; try done.
    + destruct (queue s !! readIt s); [|done]. cbn [mbind option_bind] in E.
      repeat case_match; injection E as <-; cbn; lia.
    + destruct (queue s !! readIt s); [|done]. cbn [mbind option_bind] in E.
      destruct (crc32 _ _ _); [|done]. cbn [mbind option_bind] in E. injection E as <-. cbn. lia.
    + destruct (queue s !! readIt s); [|done]. cbn [mbind option_bind] in E. injection E as <-. cbn.
      pose proof (inv_pending _ _ _ _ _ Hi) as Hp. pose proof (inv_reader _ _ _ _ _ Hi) as Hr.
      rewrite Er in Hr. destruct todo; [done|]. cbn in Hp. lia.
    + injection E as <-. unfold notify_client. destruct (client s) eqn:Ec; cbn; rewrite ?Ec; cbn; lia.
  - unfold client_step in E. destruct (client s) eqn:Ec; try done.
    + destruct (queue s !! writeIt s); [|done]. cbn [mbind option_bind] in E.
      case_match; injection E as <-; cbn; lia.
    + destruct (queue s !! writeIt s); [|done]. injection E as <-. cbn. lia.
    + destruct (queue s !! writeIt s); [|done]. injection E as <-. cbn. lia.
    + injection E as <-. unfold notify_reader. destruct (reader s) eqn:Er; cbn; rewrite ?Er; cbn; lia.
    + case_match; injection E as <-; cbn; lia.
    + injection E as <-. cbn. lia.
    + injection E as <-. unfold notify_reader. destruct (reader s) eqn:Er; cbn; rewrite ?Er; cbn; lia.
    + destruct (reader s) eqn:Er; [done..|]. injection E as <-. cbn. rewrite Er. cbn. lia.
Qed.

(** [n] moves during which the client is in a call *)
Inductive run : nat → State → State → Prop :=
  | run_0 s : run 0 s s
  | run_S n s s1 s2 : in_call s = true → moves addr s s1 → run n s1 s2 → run (S n) s s2.

Lemma run_work n s s' sent :
  run n s s' → reachable addr bufferSize Q sent s → reachable addr bufferSize Q sent s' ∧ n + work s' ≤ work s.
Proof.
  induction 1 as [s|n s s1 s2 _ Hm _ IH]; intros Hr; [by split|].
  destruct (reachable_Inv _ _ Hr) as (d & t & Hi). pose proof (moves_work _ _ _ _ _ Hi Hm).
  destruct IH as [Hr2 Hw]; [by eapply reach_move|]. split; [done|lia].
Qed.

(** ** Properties *)

(** C39: The checksum thread computes the checksum.  However the two threads are
    interleaved, and whatever they wake up for, the checksum that is read after
    [WaitPending] returns is the CRC-32 of all the bytes handed over so far, in
    order. *)
Theorem Checksum_correct sent s s' :
  reachable addr bufferSize Q sent s → client s = PCheck →
  client_step s = Some s' → client s' = Idle → result s' = Some (crc_ref 0 (concat sent)).
Proof.
  intros Hr Ec E Ec'. destruct (reachable_Inv _ _ Hr) as (d & t & Hi). open Hi. rewrite Ec in *.
  unfold client_step in E. rewrite Ec in E.
  destruct (Nat.eqb_spec (pending s) 0) as [Hp|Hp]; injection E as <-; [|done].
  cbn. rewrite K5 in Hp. apply length_zero_iff_nil in Hp as ->. rewrite K9, K1. cbn.
  by destruct (reader s); rewrite ?app_nil_r.
Qed.

(** C40: Every call returns.  While the client is in [Update], in [WaitPending] or
    in the destructor, one of the threads can move without being woken up by
    chance, so that no notification is lost; and no schedule keeps the client
    in its call for more than [8 * queueSize + 22] moves. *)
Theorem calls_return sent s :
  reachable addr bufferSize Q sent s →
  (in_call s = true → ∃ s', moves addr s s') ∧
  (∀ n s', run n s s' → n ≤ 8 * Q + 22).
Proof.
  intros Hr. destruct (reachable_Inv _ _ Hr) as (d & t & Hi). split.
  - intros Hc. by eapply never_stuck.
  - intros n s' Hn. apply run_work with (sent := sent) in Hn as [_ Hw]; [|done].
    pose proof (inv_pending _ _ _ _ _ Hi). pose proof (inv_full _ _ _ _ _ Hi).
    unfold work in Hw. assert (reader_work (reader s) ≤ 6) by (destruct (reader s); cbn; lia).
    assert (client_work (client s) ≤ 16) by (destruct (client s); cbn; lia). lia.
Qed.

End proofs.

(** A schedule: the client steps when it can, otherwise the checksum thread *)
Fixpoint drive (addr : nat → N) (n : nat) (s : State) : State :=
  match n with
  | 0 => s
  | S n =>
      match client_step s, reader_step addr s with
      | Some s', _ | None, Some s' => drive addr n s'
      | None, None => s
      end
  end.

Lemma drive_reachable addr bufferSize Q sent n s :
  reachable addr bufferSize Q sent s → reachable addr bufferSize Q sent (drive addr n s).
Proof.
  revert s. induction n as [|n IH]; intros s Hs; [done|]. cbn.
  destruct (client_step s) as [s'|] eqn:Ec; [|destruct (reader_step addr s) as [s'|] eqn:Er; [|done]];
    apply IH; eapply reach_move; try done; [by right|by left].
Qed.

Module Example.

Definition addr : nat → N := λ k, N.of_nat (5 * k).
Definition idle1 : State := drive addr 40 (Update [0x31; 0x32; 0x33]%N (AsyncCRC32 8 2)).
Definition busy : State := Update [0x34; 0x35; 0x36; 0x37; 0x38; 0x39]%N idle1.
Definition asked : State := Checksum (drive addr 40 busy).

Lemma busy_reachable :
  reachable addr 8 2 [[0x31; 0x32; 0x33]; [0x34; 0x35; 0x36; 0x37; 0x38; 0x39]]%N busy.
Proof.
  apply (reach_update addr 8 2 [[0x31; 0x32; 0x33]%N]).
  - apply drive_reachable. apply (reach_update addr 8 2 []); [constructor|done|cbn; lia|].
    repeat constructor.
  - vm_compute. reflexivity.
  - cbn. lia.
  - repeat constructor.
Qed.

Lemma asked_reachable :
  reachable addr 8 2 [[0x31; 0x32; 0x33]; [0x34; 0x35; 0x36; 0x37; 0x38; 0x39]]%N asked.
Proof.
  apply reach_checksum; [|vm_compute; reflexivity]. apply drive_reachable, busy_reachable.
Qed.

End Example.

Lemma Checksum_correct_witness :
  ∃ s', client_step Example.asked = Some s' ∧ result s' = Some 0xCBF43926%N.
Proof.
  eexists. split; [vm_compute; reflexivity|].
  etransitivity.
  - eapply (Checksum_correct Example.addr 8 2 ltac:(lia) _ Example.asked _ Example.asked_reachable);
      vm_compute; reflexivity.
  - vm_compute. reflexivity.
Defined.

Lemma calls_return_witness :
  in_call Example.busy = true ∧ ∃ s', moves Example.addr Example.busy s'.
Proof.
  split; [reflexivity|].
  apply (calls_return Example.addr 8 2 ltac:(lia) _ Example.busy Example.busy_reachable). reflexivity.
Defined.
