(* ===== verification/NetFtp.v ===== *)
(** * Addresses, endpoints and their text: util/net/ipaddress.cpp, endpoint.cpp, ftp.cpp

    The arguments of PORT, LPRT and EPRT and the replies to PASV, LPSV and EPSV.
    inet_pton(3), inet_ntop(3) and the casts of boost are parameters; what is
    assumed of them is [InetOk] and [BoostCastOk].  The theorems: whatever the
    text, the endpoint read from it is well formed; every encoding is read back
    to the same endpoint; and the equality of addresses is an equivalence, for
    which a mapped address is the IPv4 address it maps. *)

From stdpp Require Import prelude.
From S2P Require Import Prelude CxxString Numbers.
Local Open Scope Z_scope.

(** ** Third-party functions *)

Inductive IPFamily : Type := IPv4 | IPv6.

#[global] Instance IPFamily_eq_dec : EqDecision IPFamily.
Proof. solve_decision. Defined.

(** [sizeof(in_addr)] and [sizeof(in6_addr)] *)
Definition size_of (f : IPFamily) : nat := match f with IPv4 => 4%nat | IPv6 => 16%nat end.

Definition byte (b : Z) : Prop := 0 ≤ b ≤ 255.

(** The bytes are those in network order. *)
Class Inet := {
  inet_pton : IPFamily → str → option (list Z);
  inet_ntop : IPFamily → list Z → str
}.

Class InetOk `{Inet} : Prop := {
  pton_shape f s d : inet_pton f s = Some d → length d = size_of f ∧ Forall byte d;
  pton_ntop f d : length d = size_of f → Forall byte d → inet_pton f (inet_ntop f d) = Some d;
  pton_ntop4 d : length d = 16%nat → Forall byte d → inet_pton IPv4 (inet_ntop IPv6 d) = None;
  ntop_text f d : length d = size_of f → Forall byte d →
    inet_ntop f d ≠ [] ∧ "|"%char ∉ inet_ntop f d ∧ NUL ∉ inet_ntop f d
}.

(** boost::lexical_cast to an integer with the range [lo] to [hi], and
    boost::numeric_cast; [None] is an exception that is a [std::bad_cast]. *)
Class BoostCast := {
  lexical_cast : Z → Z → str → option Z;
  numeric_cast : Z → Z → Z → option Z
}.

Class BoostCastOk `{BoostCast} : Prop := {
  lexical_cast_range lo hi s n : lexical_cast lo hi s = Some n → lo ≤ n ≤ hi;
  lexical_cast_to_string lo hi n : 0 ≤ n → lo ≤ n ≤ hi → lexical_cast lo hi (to_string n) = Some n;
  numeric_cast_spec lo hi n : numeric_cast lo hi n = if decide (lo ≤ n ≤ hi) then Some n else None
}.

(** [s.c_str()] as a C string: up to the first [NUL] *)
Fixpoint c_str (s : str) : str :=
  match s with
  | c :: s' => if decide (c = NUL) then [] else c :: c_str s'
  | [] => []
  end.

(** ** IPAddress *)

(** [dataLen] is the length of [data]. *)
Record IPAddress := { data : list Z; family : IPFamily; asString : str }.

Definition InvalidIPAddressError : error := FailureMsg (lit "Invalid IP address or family").

Section code.
Context `{Split, Inet, BoostCast}.

Definition IPAddress_FromString (addr : str) : option IPAddress :=
  match inet_pton IPv4 (c_str addr) with
  | Some d => Some {| data := d; family := IPv4; asString := addr |}
  | None =>
      match inet_pton IPv6 (c_str addr) with
      | Some d => Some {| data := d; family := IPv6; asString := addr |}
      | None => None
      end
  end.

(** [IPAddress(const IPAddress&)] does not copy the text. *)
Definition IPAddress_copy (ip : IPAddress) : IPAddress :=
  {| data := data ip; family := family ip; asString := [] |}.

(** [IPAddress(const void*, socklen_t)] *)
Definition IPAddress_bytes (d : list Z) : option IPAddress :=
  if decide (length d = size_of IPv4) then Some {| data := d; family := IPv4; asString := [] |}
  else if decide (length d = size_of IPv6) then Some {| data := d; family := IPv6; asString := [] |}
  else None.

(** The text is kept for the next call, which returns the same. *)
Definition IPAddress_ToString (ip : IPAddress) : str :=
  if decide (asString ip = []) then inet_ntop (family ip) (data ip) else asString ip.

(** IN6_IS_ADDR_V4MAPPED *)
Definition v4mapped (d : list Z) : bool :=
  bool_decide (take 12 d = replicate 10 0 ++ [255; 255]).

Definition IsMappedv4 (ip : IPAddress) : bool :=
  match family ip with IPv6 => v4mapped (data ip) | IPv4 => false end.

(** [data.unmapped.in4] *)
Definition ToUnmappedv4 (ip : IPAddress) : IPAddress :=
  {| data := take 4 (drop 12 (data ip)); family := IPv4; asString := [] |}.

Definition Valid (addr : str) : bool :=
  match IPAddress_FromString addr with Some _ => true | None => false end.

Definition Valid_family (f : IPFamily) (addr : str) : bool :=
  match IPAddress_FromString addr with Some ip => bool_decide (family ip = f) | None => false end.

(** What is unmapped is not mapped, so that two calls are the deepest. *)
Definition Equals_data (a b : IPAddress) : bool := bool_decide (data a = data b).

Definition Equals (a b : IPAddress) : bool :=
  let a := if IsMappedv4 a then ToUnmappedv4 a else a in
  let b := if IsMappedv4 b then ToUnmappedv4 b else b in
  Equals_data a b.

(** 127.0.0.1, ::1 or the former mapped *)
Definition IsLoopback (ip : IPAddress) : bool :=
  match family ip with
  | IPv4 => bool_decide (data ip = [127; 0; 0; 1])
  | IPv6 =>
      if IsMappedv4 ip then bool_decide (data (ToUnmappedv4 ip) = [127; 0; 0; 1])
      else bool_decide (data ip = replicate 15 0 ++ [1])
  end.

(** ** Endpoint *)

(** What [addr4] or [addr6] points to: the bytes of the address and the port *)
Record sockaddr := { sa_addr : list Z; sa_port : list Z }.

Record Endpoint := { addr : sockaddr; ip : IPAddress; port : Z }.

Definition htons (p : Z) : list Z := [(p `div` 256) `mod` 256; p `mod` 256].

Definition ntohs (p : list Z) : Z := match p with [p0; p1] => 256 * p0 + p1 | _ => 0 end.

(** [Endpoint(const IPAddress&, int32_t)] *)
Definition Endpoint_of (a : IPAddress) (p : Z) : Endpoint :=
  {| addr := {| sa_addr := data a; sa_port := htons p |}; ip := IPAddress_copy a; port := p |}.

(** [Endpoint(const std::string&, int32_t)] *)
Definition Endpoint_text (s : str) (p : Z) : option Endpoint :=
  a ← IPAddress_FromString s;
  Some {| addr := {| sa_addr := data a; sa_port := htons p |}; ip := a; port := p |}.

(** [FromAddr]; the type of the socket address says how long the address is. *)
Definition Endpoint_FromAddr (sa : sockaddr) : option Endpoint :=
  a ← IPAddress_bytes (sa_addr sa);
  Some {| addr := sa; ip := a; port := ntohs (sa_port sa) |}.

Definition Endpoint_Equals (e1 e2 : Endpoint) : bool :=
  Equals (ip e1) (ip e2) && bool_decide (port e1 = port e2).

Definition Endpoint_ToString (ep : Endpoint) : str :=
  match family (ip ep) with
  | IPv6 => "["%char :: IPAddress_ToString (ip ep) ++ "]"%char :: ":"%char :: to_string (port ep)
  | IPv4 => IPAddress_ToString (ip ep) ++ ":"%char :: to_string (port ep)
  end.

(** ** The text of an endpoint *)

(** An [error] other than [Success], or the endpoint *)
Abbreviation parsed := (result error Endpoint).

Definition invalid : error := FailureMsg (lit "Invalid port string.").

(** [numeric_cast<uint8_t>(lexical_cast<int16_t>(s))] *)
Definition u8_cast (s : str) : option Z :=
  n ← lexical_cast (-32768) 32767 s; numeric_cast 0 255 n.

(** The [try] blocks around [Endpoint(addr)] *)
Definition make_endpoint (sa : sockaddr) : parsed :=
  match Endpoint_FromAddr sa with Some ep => Ok ep | None => Throw InvalidIPAddressError end.

Definition EndpointFromPORT (portString : str) : parsed :=
  match Split_ portString (lit ",") false with
  | [s0; s1; s2; s3; s4; s5] =>
      match mapM u8_cast [s0; s1; s2; s3], mapM u8_cast [s4; s5] with
      | Some a, Some p => make_endpoint {| sa_addr := a; sa_port := p |}
      | _, _ => Throw (FailureMsg (lit "Unknown error"))
      end
  | _ => Throw invalid
  end.

(** [os << int(x0) << ',' << int(x1) ...] *)
Definition print_bytes (l : list Z) : str := join ","%char (map to_string l).

Definition EndpointToPORTv4Mappedv6 (ep : Endpoint) : str :=
  print_bytes (take 4 (drop 12 (sa_addr (addr ep))) ++ sa_port (addr ep)).

Definition EndpointToPORTv4 (ep : Endpoint) : str :=
  print_bytes (take 4 (sa_addr (addr ep)) ++ sa_port (addr ep)).

Definition EndpointToPORT (ep : Endpoint) : result error str :=
  match family (ip ep) with
  | IPv4 => Ok (EndpointToPORTv4 ep)
  | IPv6 =>
      if v4mapped (sa_addr (addr ep)) then Ok (EndpointToPORTv4Mappedv6 ep)
      else Throw (FailureErrno EPFNOSUPPORT)
  end.

(** The body of [EndpointFromLPRTv4] and [EndpointFromLPRTv6]: the pieces are
    the version, the length [n] of the address, its bytes, the length of the
    port and its bytes.  Every failure has the same message. *)
Definition lprt (n : nat) (split : list str) : parsed :=
  if decide (length split = (n + 5)%nat) then
    let piece i := u8_cast (default [] (split !! i)) in
    match
      addrLen ← piece 1%nat;
      if negb (addrLen =? Z.of_nat n) then None else
      a ← mapM piece (seq 2 n);
      portLen ← piece (n + 2)%nat;
      if negb (portLen =? 2) then None else
      p ← mapM piece [(n + 3)%nat; (n + 4)%nat];
      Some {| sa_addr := a; sa_port := p |}
    with
    | Some sa => make_endpoint sa
    | None => Throw invalid
    end
  else Throw invalid.

Definition EndpointFromLPRTv4 (portString : str) : parsed := lprt 4 (Split_ portString (lit ",") false).
Definition EndpointFromLPRTv6 (portString : str) : parsed := lprt 16 (Split_ portString (lit ",") false).

Definition EndpointFromLPRT (portString : str) : parsed :=
  match portString with
  | [] => Throw (FailureMsg (lit "Empty port string"))
  | c :: _ =>
      if decide (c = "4"%char) then EndpointFromLPRTv4 portString
      else if decide (c = "6"%char) then EndpointFromLPRTv6 portString
      else Throw (FailureErrno EPFNOSUPPORT)
  end.

Definition EndpointToLPRTv4 (ep : Endpoint) : str :=
  print_bytes ([4; 4] ++ take 4 (sa_addr (addr ep)) ++ [2] ++ sa_port (addr ep)).

Definition EndpointToLPRTv6 (ep : Endpoint) : str :=
  print_bytes ([6; 16] ++ take 16 (sa_addr (addr ep)) ++ [2] ++ sa_port (addr ep)).

Definition EndpointToLPRT (ep : Endpoint) : str :=
  match family (ip ep) with IPv4 => EndpointToLPRTv4 ep | IPv6 => EndpointToLPRTv6 ep end.

Definition EndpointFromEPRT (portString : str) : parsed :=
  match Split_ portString (lit "|") false with
  | [s0; s1; s2; s3; s4] =>
      if negb (bool_decide (s0 = [])) || negb (bool_decide (s4 = [])) then Throw invalid else
      match (family ← u8_cast s1; port ← lexical_cast 0 65535 s3; Some (family, port)) with
      | None => Throw invalid
      | Some (family, port) =>
          if negb (family =? 1) && negb (family =? 2) then Throw invalid else
          match Endpoint_text s2 port with
          | Some ep => Ok ep
          | None => Throw InvalidIPAddressError
          end
      end
  | _ => Throw invalid
  end.

Definition EndpointToEPRT (ep : Endpoint) (full : bool) : str :=
  let family := match family (ip ep) with IPv4 => 1 | IPv6 => 2 end in
  if full then
    lit "|" ++ to_string family ++ lit "|" ++ IPAddress_ToString (ip ep) ++
    lit "|" ++ to_string (port ep) ++ lit "|"
  else lit "|||" ++ to_string (port ep) ++ lit "|".

End code.

(** ** Well-formed addresses and endpoints *)

Section proofs.
Context `{SplitOk, InetOk, BoostCastOk}.

Definition ip_ok (a : IPAddress) : Prop :=
  length (data a) = size_of (family a) ∧ Forall byte (data a) ∧
  (asString a = [] ∨
   ∃ s, IPAddress_FromString (asString a) = Some {| data := data a; family := family a; asString := s |}).

Definition port_ok (p : list Z) : Prop := length p = 2%nat ∧ Forall byte p.

Definition endpoint_ok (ep : Endpoint) : Prop :=
  ip_ok (ip ep) ∧ sa_addr (addr ep) = data (ip ep) ∧ port_ok (sa_port (addr ep)) ∧
  port ep = ntohs (sa_port (addr ep)).

Lemma ntohs_htons p : 0 ≤ p ≤ 65535 → ntohs (htons p) = p.
Proof.
  intros Hp. unfold ntohs, htons. pose proof (Z.div_mod p 256 ltac:(lia)).
  rewrite (Z.mod_small (p `div` 256)); [lia|]. split; [apply Z.div_pos|apply Z.div_lt_upper_bound]; lia.
Qed.

Lemma htons_ok p : port_ok (htons p).
Proof.
  split; [done|]. unfold htons, byte. pose proof (Z.mod_pos_bound (p `div` 256) 256 ltac:(lia)).
  pose proof (Z.mod_pos_bound p 256 ltac:(lia)). repeat constructor; lia.
Qed.

Lemma ntohs_range p : port_ok p → 0 ≤ ntohs p ≤ 65535.
Proof.
  intros [Hl Hb]. destruct p as [|p0 [|p1 [|]]]; try done.
  apply Forall_cons in Hb as [K0 [K1 _]%Forall_cons]. unfold byte in *. cbn. lia.
Qed.

Lemma htons_ntohs p : port_ok p → htons (ntohs p) = p.
Proof.
  intros [Hl Hb]. destruct p as [|p0 [|p1 [|]]]; try done.
  apply Forall_cons in Hb as [K0 [K1 _]%Forall_cons]. unfold byte, htons in *. cbn [ntohs].
  rewrite (Z.mul_comm 256), Z.div_add_l, (Z.div_small p1), Z.add_0_r, (Z.mod_small p0) by lia.
  by rewrite Z.add_comm, Z_mod_plus_full, Z.mod_small by lia.
Qed.

Lemma FromString_ok s a : IPAddress_FromString s = Some a → ip_ok a.
Proof.
  unfold ip_ok, IPAddress_FromString. intros E.
  destruct (inet_pton IPv4 (c_str s)) as [d|] eqn:E4; simplify_eq/=.
  - apply pton_shape in E4 as E'. destruct E'. split; [done|]. split; [done|]. right. rewrite E4. eauto.
  - destruct (inet_pton IPv6 (c_str s)) as [d|] eqn:E6; simplify_eq/=.
    apply pton_shape in E6 as E'. destruct E'. split; [done|]. split; [done|]. right. rewrite E4, E6. eauto.
Qed.

Lemma IPAddress_bytes_spec f d :
  length d = size_of f → IPAddress_bytes d = Some {| data := d; family := f; asString := [] |}.
Proof.
  intros Hl. unfold IPAddress_bytes. destruct f; cbn in *; repeat case_decide; try done; lia.
Qed.

Lemma make_endpoint_ok f sa :
  length (sa_addr sa) = size_of f → Forall byte (sa_addr sa) → port_ok (sa_port sa) →
  make_endpoint sa = Ok {| addr := sa; ip := {| data := sa_addr sa; family := f; asString := [] |};
                           port := ntohs (sa_port sa) |} ∧
  endpoint_ok {| addr := sa; ip := {| data := sa_addr sa; family := f; asString := [] |};
                 port := ntohs (sa_port sa) |}.
Proof.
  intros Hl Hb Hp. unfold make_endpoint, Endpoint_FromAddr. rewrite (IPAddress_bytes_spec f) by done.
  split; [done|]. unfold endpoint_ok, ip_ok. cbn. auto 10.
Qed.

(** ** Bytes and their text *)

Lemma u8_cast_range s b : u8_cast s = Some b → byte b.
Proof.
  unfold u8_cast. intros (n & _ & E)%bind_Some. rewrite numeric_cast_spec in E. unfold byte.
  case_decide; naive_solver.
Qed.

Lemma u8_cast_to_string b : byte b → u8_cast (to_string b) = Some b.
Proof.
  unfold byte, u8_cast. intros Hb. rewrite lexical_cast_to_string by lia. cbn.
  rewrite numeric_cast_spec. by rewrite decide_True.
Qed.

Lemma mapM_u8_range {A} (f : A → str) l bs :
  mapM (λ x, u8_cast (f x)) l = Some bs → length bs = length l ∧ Forall byte bs.
Proof.
  intros E. apply mapM_Some_1 in E. split; [symmetry; by eapply Forall2_length|].
  induction E as [|x b l bs E _ IH]; constructor; [by eapply u8_cast_range|done].
Qed.

Lemma mapM_u8_to_string l : Forall byte l → mapM u8_cast (map to_string l) = Some l.
Proof.
  induction 1 as [|b l Hb _ IH]; [done|]. cbn. rewrite u8_cast_to_string by done. cbn. by rewrite IH.
Qed.

Lemma to_string_free b d : byte b → isdigit d = false → d ∉ to_string b.
Proof. intros Hb. apply to_string_no_char. unfold byte in Hb. lia. Qed.

(** The printed bytes are read back as the pieces they were. *)
Lemma split_print_bytes l :
  l ≠ [] → Forall byte l → Split_ (print_bytes l) (lit ",") false = map to_string l.
Proof.
  intros Hne Hl. unfold Split_, print_bytes. rewrite (split_off ","%char). apply split_join.
  - by destruct l.
  - apply Forall_map. eapply Forall_impl; [exact Hl|]. intros b Hb. by apply to_string_free.
Qed.

Lemma EndpointFromPORT_ok s ep : EndpointFromPORT s = Ok ep → endpoint_ok ep.
Proof.
  unfold EndpointFromPORT.
  destruct (Split_ s (lit ",") false) as [|s0 [|s1 [|s2 [|s3 [|s4 [|s5 [|]]]]]]]; try done.
  destruct (mapM u8_cast [s0; s1; s2; s3]) as [a|] eqn:Ea; [|done].
  destruct (mapM u8_cast [s4; s5]) as [p|] eqn:Ep; [|done].
  apply (mapM_u8_range id) in Ea as [La Ba]. apply (mapM_u8_range id) in Ep as [Lp Bp].
  destruct (make_endpoint_ok IPv4 {| sa_addr := a; sa_port := p |}) as [-> Hok]; [done..|].
  intros [= <-]. exact Hok.
Qed.

Lemma lprt_ok f split ep : lprt (size_of f) split = Ok ep → endpoint_ok ep.
Proof.
  unfold lprt. case_decide as Hl; [|done].
  match goal with |- context [match ?o with Some _ => _ | None => _ end] => destruct o as [sa|] eqn:E end;
    [|done].
  apply bind_Some in E as (n & _ & E). destruct (negb (n =? _)); [done|].
  apply bind_Some in E as (a & Ea & E). apply bind_Some in E as (m & _ & E).
  destruct (negb (m =? 2)); [done|]. apply bind_Some in E as (p & Ep & [= <-]).
  apply mapM_u8_range in Ea as [La Ba]. apply mapM_u8_range in Ep as [Lp Bp]. rewrite length_seq in La.
  destruct (make_endpoint_ok f {| sa_addr := a; sa_port := p |}) as [-> Hok]; [done..|].
  intros [= <-]. exact Hok.
Qed.

Lemma EndpointFromLPRT_ok s ep : EndpointFromLPRT s = Ok ep → endpoint_ok ep.
Proof.
  unfold EndpointFromLPRT. destruct s as [|c s]; [done|].
  case_decide; [apply (lprt_ok IPv4)|]. case_decide; [apply (lprt_ok IPv6)|done].
Qed.

Lemma Endpoint_text_ok s p ep : 0 ≤ p ≤ 65535 → Endpoint_text s p = Some ep → endpoint_ok ep.
Proof.
  intros Hp. unfold Endpoint_text. intros (a & Ea & [= <-])%bind_Some.
  split; [by eapply FromString_ok|]. cbn [ip addr port sa_addr sa_port]. rewrite ntohs_htons by done. auto using htons_ok.
Qed.

Lemma EndpointFromEPRT_ok s ep : EndpointFromEPRT s = Ok ep → endpoint_ok ep.
Proof.
  unfold EndpointFromEPRT.
  destruct (Split_ s (lit "|") false) as [|s0 [|s1 [|s2 [|s3 [|s4 [|]]]]]]; try done.
  destruct (_ || _); [done|].
  destruct (u8_cast s1) as [f|]; [|done]. cbn [mbind option_bind].
  destruct (lexical_cast 0 65535 s3) as [p|] eqn:Ep; [|done]. cbn [mbind option_bind].
  destruct (_ && _); [done|]. destruct (Endpoint_text s2 p) as [e|] eqn:Ee; [|done].
  intros [= <-]. apply lexical_cast_range in Ep. by eapply Endpoint_text_ok.
Qed.

(** Printing and reading back *)
Lemma print_read_PORT a p :
  length a = 4%nat → Forall byte a → port_ok p →
  EndpointFromPORT (print_bytes (a ++ p)) = make_endpoint {| sa_addr := a; sa_port := p |}.
Proof.
  intros La Ba [Lp Bp]. unfold EndpointFromPORT.
  rewrite split_print_bytes by (try apply Forall_app; try done; by destruct a).
  pose proof (mapM_u8_to_string a Ba) as Ea. pose proof (mapM_u8_to_string p Bp) as Ep.
  destruct a as [|a0 [|a1 [|a2 [|a3 [|]]]]]; try done. destruct p as [|p0 [|p1 [|]]]; try done.
  change (map to_string ([a0; a1; a2; a3] ++ [p0; p1]))
    with [to_string a0; to_string a1; to_string a2; to_string a3; to_string p0; to_string p1].
  cbv iota. cbn [map] in Ea, Ep. by rewrite Ea, Ep.
Qed.

Lemma pieces_of l k n :
  Forall byte l → (k + n ≤ length l)%nat →
  mapM (λ i, u8_cast (default [] (map to_string l !! i))) (seq k n) = Some (take n (drop k l)).
Proof.
  intros Hl. revert k. induction n as [|n IH]; intros k Hk; [done|]. cbn [seq mapM].
  destruct (lookup_lt_is_Some_2 l k) as [b Eb]; [lia|].
  rewrite (drop_S _ _ _ Eb). rewrite list_lookup_fmap, Eb. cbn.
  rewrite u8_cast_to_string by (by eapply Forall_lookup_1). cbn. by rewrite IH by lia.
Qed.

Lemma piece_of l k b :
  Forall byte l → l !! k = Some b → u8_cast (default [] (map to_string l !! k)) = Some b.
Proof.
  intros Hl Hk. rewrite list_lookup_fmap, Hk. cbn. apply u8_cast_to_string. by eapply Forall_lookup_1.
Qed.

Lemma print_read_lprt f v a p :
  byte v → length a = size_of f → Forall byte a → port_ok p →
  lprt (size_of f) (Split_ (print_bytes ([v; Z.of_nat (size_of f)] ++ a ++ [2] ++ p)) (lit ",") false) =
  make_endpoint {| sa_addr := a; sa_port := p |}.
Proof.
  intros Hv La Ba [Lp Bp]. set (l := [v; _] ++ a ++ [2] ++ p).
  assert (Hl : Forall byte l).
  { unfold l, byte in *. repeat (apply Forall_cons_2 || apply Forall_app_2); try done; destruct f; cbn; lia. }
  assert (Ll : length l = (size_of f + 5)%nat) by (unfold l; rewrite !length_app, La, Lp; cbn; lia).
  rewrite split_print_bytes by done. unfold lprt. rewrite length_map, decide_True by done. cbv zeta.
  rewrite (piece_of l 1 (Z.of_nat (size_of f))) by done. cbn [mbind option_bind].
  rewrite Z.eqb_refl. cbn [negb].
  rewrite pieces_of by (done || lia). cbn [mbind option_bind].
  assert (Ea : take (size_of f) (drop 2 l) = a).
  { unfold l. cbn [app skipn].
    by rewrite drop_0, <- La, take_app_length. }
  assert (Ed : drop (size_of f + 2) l = 2 :: p).
  { rewrite Nat.add_comm. unfold l. cbn [app]. change (2 + size_of f)%nat with (S (S (size_of f))).
    cbn [skipn]. by rewrite <- La, drop_app_length. }
  assert (Hk : ∀ k, l !! (size_of f + (2 + k))%nat = (2 :: p) !! k).
  { intros k. by rewrite <- Ed, lookup_drop, Nat.add_assoc. }
  rewrite Ea, (piece_of l (size_of f + 2) 2) by (done || apply (Hk 0%nat)).
  cbn [mbind option_bind]. change (negb (2 =? 2)) with false. cbv iota.
  destruct p as [|p0 [|p1 [|]]]; try done. cbn [mapM].
  rewrite (piece_of l (size_of f + 3) p0) by (done || apply (Hk 1%nat)). cbn [mbind option_bind].
  by rewrite (piece_of l (size_of f + 4) p1) by (done || apply (Hk 2%nat)).
Qed.

(** ** Equality *)

(** The bytes of an address once unmapped *)
Definition canonical (a : IPAddress) : list Z := data (if IsMappedv4 a then ToUnmappedv4 a else a).

Lemma Equals_canonical a b : Equals a b = true ↔ canonical a = canonical b.
Proof. unfold Equals, Equals_data. apply bool_decide_eq_true. Qed.

Definition ip_equiv (a b : IPAddress) : Prop := Equals a b = true.

#[export] Instance ip_equiv_equivalence : Equivalence ip_equiv.
Proof.
  split; unfold ip_equiv; red; setoid_rewrite Equals_canonical; congruence.
Qed.

Lemma Equals_data_eq a b : family a = family b → data a = data b → Equals a b = true.
Proof.
  intros Ef Ed. apply Equals_canonical. unfold canonical, IsMappedv4, ToUnmappedv4. rewrite Ef, Ed.
  by destruct (match family b with IPv6 => _ | IPv4 => _ end).
Qed.

Lemma ToUnmappedv4_equiv a : IsMappedv4 a = true → Equals (ToUnmappedv4 a) a = true.
Proof. intros Hm. apply Equals_canonical. unfold canonical. by rewrite Hm. Qed.

Lemma make_endpoint_equiv ep a p :
  port ep = ntohs p → Equals a (ip ep) = true →
  Endpoint_Equals {| addr := {| sa_addr := data a; sa_port := p |}; ip := a; port := ntohs p |} ep = true.
Proof.
  intros Hp He. unfold Endpoint_Equals. cbn. rewrite He, Hp. by apply bool_decide_eq_true.
Qed.

(** ** Properties *)

(** C36: Typing of endpoints.  Whatever text a client sends with PORT, LPRT or
    EPRT, the endpoint that is read from it, if any, has the four or sixteen
    bytes of its family, a port of two bytes, and a text that names the same
    address. *)
Theorem parsed_endpoint_ok s ep :
  EndpointFromPORT s = Ok ep ∨ EndpointFromLPRT s = Ok ep ∨ EndpointFromEPRT s = Ok ep →
  endpoint_ok ep ∧ 0 ≤ port ep ≤ 65535.
Proof.
  intros Hs. assert (Hok : endpoint_ok ep).
  { destruct Hs as [?|[?|?]];
      [by eapply EndpointFromPORT_ok|by eapply EndpointFromLPRT_ok|by eapply EndpointFromEPRT_ok]. }
  split; [done|]. destruct Hok as (_ & _ & Hp & ->). by apply ntohs_range.
Qed.

Definition reads_back (from : str → result error Endpoint) (s : str) (ep : Endpoint) : Prop :=
  ∃ ep', from s = Ok ep' ∧ endpoint_ok ep' ∧ Endpoint_Equals ep' ep = true.

Lemma split_char_here d s : split_char d (d :: s) = [] :: split_char d s.
Proof. exact (split_char_app d [] s (not_elem_of_nil d)). Qed.

Lemma print_read_EPRT n a p :
  n = 1 ∨ n = 2 → "|"%char ∉ a → 0 ≤ p ≤ 65535 →
  EndpointFromEPRT (lit "|" ++ to_string n ++ lit "|" ++ a ++ lit "|" ++ to_string p ++ lit "|") =
  match Endpoint_text a p with Some ep => Ok ep | None => Throw InvalidIPAddressError end.
Proof.
  intros Hn Ha Hp. unfold EndpointFromEPRT.
  assert (Es : Split_ (lit "|" ++ to_string n ++ lit "|" ++ a ++ lit "|" ++ to_string p ++ lit "|") (lit "|") false
               = [[]; to_string n; a; to_string p; []]).
  { unfold Split_. rewrite (split_off "|"%char). cbn [lit String.list_ascii_of_string app].
    rewrite split_char_here, !split_char_app by (done || (apply to_string_no_char; [lia|done])). done. }
  rewrite Es. cbn [negb bool_decide orb].
  rewrite !bool_decide_eq_true_2 by done. cbn [negb orb].
  rewrite u8_cast_to_string by (unfold byte; lia). cbn [mbind option_bind].
  rewrite lexical_cast_to_string by lia. cbn [mbind option_bind].
  by destruct Hn as [-> | ->].
Qed.

Lemma text_of_ip_ok a :
  ip_ok a → ∃ b, IPAddress_FromString (IPAddress_ToString a) = Some b ∧ data b = data a ∧ family b = family a.
Proof.
  intros (Hl & Hb & Ht). unfold IPAddress_ToString. case_decide as Ha.
  - unfold IPAddress_FromString. assert (Hn : c_str (inet_ntop (family a) (data a)) = inet_ntop (family a) (data a)).
    { destruct (ntop_text _ _ Hl Hb) as (_ & _ & Hn). clear -Hn.
      induction (inet_ntop _ _) as [|c s IH]; [done|]. apply not_elem_of_cons in Hn as [Hc Hn]. cbn.
      rewrite decide_False by congruence. by rewrite IH. }
    rewrite Hn. destruct (family a) eqn:Ef.
    + rewrite pton_ntop by done. eauto.
    + rewrite pton_ntop4, pton_ntop by done. eauto.
  - destruct Ht as [?|[s ->]]; [done|]. eauto.
Qed.

Lemma ToString_free a : ip_ok a → "|"%char ∉ asString a → "|"%char ∉ IPAddress_ToString a.
Proof.
  intros (Hl & Hb & _) Ha. unfold IPAddress_ToString. case_decide; [|done]. by apply ntop_text.
Qed.

Lemma reads_back_bytes from s ep f a p :
  from s = make_endpoint {| sa_addr := a; sa_port := p |} →
  length a = size_of f → Forall byte a → port_ok p → port ep = ntohs p →
  Equals {| data := a; family := f; asString := [] |} (ip ep) = true → reads_back from s ep.
Proof.
  intros Efrom Hl Hb Hp Ep He. unfold reads_back. rewrite Efrom. destruct (make_endpoint_ok f {| sa_addr := a; sa_port := p |}) as [E Hok]; [done..|].
  eexists. split; [exact E|]. split; [exact Hok|].
  unfold Endpoint_Equals. cbn [ip port sa_addr sa_port]. rewrite He, Ep. by apply bool_decide_eq_true.
Qed.

(** The encodings of addresses are read back.  The text of an endpoint for
    PORT, which exists unless the address is IPv6 and maps no IPv4 address, its
    text for LPRT, and its full text for EPRT are read as an endpoint that is
    well formed and equal to it. *)
Lemma port_strings_roundtrip ep :
  endpoint_ok ep →
  (is_Ok (EndpointToPORT ep) ↔ family (ip ep) = IPv4 ∨ v4mapped (data (ip ep)) = true) ∧
  (∀ s, EndpointToPORT ep = Ok s → reads_back EndpointFromPORT s ep) ∧
  reads_back EndpointFromLPRT (EndpointToLPRT ep) ep ∧
  ("|"%char ∉ asString (ip ep) → reads_back EndpointFromEPRT (EndpointToEPRT ep true) ep).
Proof.
  intros (Hip & Ea & Hp & Eport). pose proof Hip as (Hl & Hb & _). pose proof (ntohs_range _ Hp) as Hr.
  unfold EndpointToPORT, EndpointToLPRT. rewrite Ea. split_and!.
  - destruct (family (ip ep)); [split; [auto|by eexists]|].
    destruct (v4mapped _); split; [auto|by eexists|by intros [? ?]|by intros [?|?]].
  - intros s. destruct (family (ip ep)) eqn:Ef.
    + intros [= <-]. unfold EndpointToPORTv4. rewrite Ea, take_ge by (rewrite Hl; cbn; lia).
      eapply (reads_back_bytes _ _ _ IPv4); [by apply print_read_PORT|done..|]. by apply Equals_data_eq.
    + destruct (v4mapped _) eqn:Hm; [|done]. intros [= <-]. unfold EndpointToPORTv4Mappedv6. rewrite Ea.
      assert (L4 : length (take 4 (drop 12 (data (ip ep)))) = 4%nat).
      { rewrite length_take, length_drop, Hl. done. }
      assert (B4 : Forall byte (take 4 (drop 12 (data (ip ep))))) by (by apply Forall_take, Forall_drop).
      eapply (reads_back_bytes _ _ _ IPv4); [by apply print_read_PORT|done..|].
      apply ToUnmappedv4_equiv. unfold IsMappedv4. by rewrite Ef.
  - destruct (family (ip ep)) eqn:Ef.
    + unfold EndpointToLPRTv4. rewrite Ea, take_ge by (rewrite Hl; cbn; lia).
      eapply (reads_back_bytes _ _ _ IPv4); [apply (print_read_lprt IPv4)|..]; try done. by apply Equals_data_eq.
    + unfold EndpointToLPRTv6. rewrite Ea, take_ge by (rewrite Hl; cbn; lia).
      eapply (reads_back_bytes _ _ _ IPv6); [apply (print_read_lprt IPv6)|..]; try done. by apply Equals_data_eq.
  - intros Hbar. destruct (text_of_ip_ok _ Hip) as (b & Eb & Ed & Ef). unfold reads_back, EndpointToEPRT.
    rewrite print_read_EPRT; [|destruct (family _); auto|by apply ToString_free|lia].
    destruct (Endpoint_text (IPAddress_ToString (ip ep)) (port ep)) as [e|] eqn:Ee;
      [|unfold Endpoint_text in Ee; by rewrite Eb in Ee].
    exists e. split; [done|]. split; [eapply Endpoint_text_ok; [|done]; lia|].
    unfold Endpoint_text in Ee. rewrite Eb in Ee. injection Ee as <-.
    unfold Endpoint_Equals. cbn [ip port]. rewrite Equals_data_eq by done. by apply bool_decide_eq_true.
Qed.

(** The family that EPRT names is not compared with that of the address. *)
Lemma EPRT_family_ignored a p :
  "|"%char ∉ a → 0 ≤ p ≤ 65535 →
  EndpointFromEPRT (lit "|" ++ to_string 1 ++ lit "|" ++ a ++ lit "|" ++ to_string p ++ lit "|") =
  EndpointFromEPRT (lit "|" ++ to_string 2 ++ lit "|" ++ a ++ lit "|" ++ to_string p ++ lit "|").
Proof. intros Ha Hp. by rewrite !print_read_EPRT by auto. Qed.

End proofs.

(** ** Reference instances, for evaluation

    Dotted decimal, and eight groups of four hexadecimal digits. *)

Definition hex_digits : str := lit "0123456789abcdef".
Definition hex_of (n : Z) : ascii := default NUL (hex_digits !! Z.to_nat n).
Definition of_hex (c : ascii) : option Z := Z.of_nat <$> find c hex_digits.

Definition hex_byte (b : Z) : str := [hex_of (b / 16); hex_of (b mod 16)].
Definition byte_of_hex (c d : ascii) : option Z := x ← of_hex c; y ← of_hex d; Some (16 * x + y).

Fixpoint groups (l : list Z) : list str :=
  match l with b0 :: b1 :: l' => (hex_byte b0 ++ hex_byte b1) :: groups l' | _ => [] end.

Fixpoint bytes_of_groups (ts : list str) : option (list Z) :=
  match ts with
  | [] => Some []
  | [c0; c1; c2; c3] :: ts' =>
      b0 ← byte_of_hex c0 c1; b1 ← byte_of_hex c2 c3; l ← bytes_of_groups ts'; Some (b0 :: b1 :: l)
  | _ :: _ => None
  end.

Definition ref_pton (f : IPFamily) (s : str) : option (list Z) :=
  match f with
  | IPv4 =>
      let ts := split_char "."%char s in
      if decide (length ts = 4%nat) then mapM (StrTo 0 255) ts else None
  | IPv6 =>
      let ts := split_char ":"%char s in
      if decide (length ts = 8%nat) then bytes_of_groups ts else None
  end.

Definition ref_ntop (f : IPFamily) (d : list Z) : str :=
  match f with
  | IPv4 => join "."%char (map to_string d)
  | IPv6 => join ":"%char (groups d)
  end.

Definition ref_inet : Inet := {| inet_pton := ref_pton; inet_ntop := ref_ntop |}.

Definition ref_cast : BoostCast := {|
  lexical_cast := StrTo;
  numeric_cast := λ lo hi n, if decide (lo ≤ n ≤ hi) then Some n else None |}.

Lemma ref_cast_ok : @BoostCastOk ref_cast.
Proof. split; cbn; [apply StrTo_range|by intros; apply StrTo_to_string|done]. Qed.

Lemma hex_byte_all :
  forallb (λ k, let b := Z.of_nat k in
    bool_decide (byte_of_hex (hex_of (b / 16)) (hex_of (b mod 16)) = Some b) &&
    forallb (λ c, bool_decide (c ∈ hex_digits)) (hex_byte b)) (seq 0 256) = true.
Proof. vm_compute. reflexivity. Qed.

Lemma hex_byte_spec b :
  byte b → byte_of_hex (hex_of (b / 16)) (hex_of (b mod 16)) = Some b ∧ Forall (.∈ hex_digits) (hex_byte b).
Proof.
  unfold byte. intros Hb. pose proof hex_byte_all as Hall. rewrite forallb_forall in Hall.
  specialize (Hall (Z.to_nat b)). rewrite Z2Nat.id in Hall by lia.
  destruct (andb_prop _ _ (Hall ltac:(apply in_seq; lia))) as [E Hf].
  apply bool_decide_eq_true in E. split; [done|]. apply Forall_forall. intros c Hc.
  rewrite forallb_forall in Hf. apply list_elem_of_In, Hf, bool_decide_eq_true in Hc. done.
Qed.

Lemma of_hex_range c x : of_hex c = Some x → 0 ≤ x ≤ 15.
Proof.
  unfold of_hex. destruct (find c hex_digits) as [n|] eqn:E; [|done]. intros [= <-].
  enough (n < 16)%nat by lia. revert E. unfold find, hex_digits. cbn.
  repeat (case_decide; [intros [= <-]; lia|]). done.
Qed.

Lemma byte_of_hex_range c d b : byte_of_hex c d = Some b → byte b.
Proof.
  unfold byte_of_hex, byte. intros (x & Ex & (y & Ey & [= <-])%bind_Some)%bind_Some.
  apply of_hex_range in Ex, Ey. lia.
Qed.

Lemma bytes_of_groups_shape ts l :
  bytes_of_groups ts = Some l → length l = (2 * length ts)%nat ∧ Forall byte l.
Proof.
  revert l. induction ts as [|t ts IH]; intros l; cbn [bytes_of_groups].
  - by intros [= <-].
  - destruct t as [|c0 [|c1 [|c2 [|c3 [|]]]]]; try done.
    intros (b0 & E0 & (b1 & E1 & (l' & E' & [= <-])%bind_Some)%bind_Some)%bind_Some.
    destruct (IH _ E') as [Hl Hb]. apply byte_of_hex_range in E0, E1. cbn [length]. split; [lia|].
    by apply Forall_cons_2; [|apply Forall_cons_2].
Qed.

Lemma bytes_of_groups_groups n l :
  length l = (2 * n)%nat → Forall byte l → bytes_of_groups (groups l) = Some l ∧ length (groups l) = n.
Proof.
  revert l. induction n as [|n IH]; intros l Hl Hb.
  - by destruct l.
  - destruct l as [|b0 [|b1 l]]; cbn [length] in Hl; [lia|lia|].
    apply Forall_cons in Hb as [B0 [B1 Hb]%Forall_cons]. destruct (IH l ltac:(lia) Hb) as [E El].
    cbn [groups length hex_byte app bytes_of_groups]. rewrite El.
    destruct (hex_byte_spec b0 B0) as [-> _], (hex_byte_spec b1 B1) as [-> _]. cbn. by rewrite E.
Qed.

Lemma groups_text l : Forall byte l → Forall (Forall (.∈ hex_digits)) (groups l).
Proof.
  revert l. fix IH 1. intros [|b0 [|b1 l]] Hb; cbn [groups]; [constructor..|].
  apply Forall_cons in Hb as [B0 [B1 Hb]%Forall_cons]. constructor; [|by apply IH].
  apply Forall_app. split; by apply hex_byte_spec.
Qed.

Lemma join_Forall (P : ascii → Prop) d ts : P d → Forall (Forall P) ts → Forall P (join d ts).
Proof.
  intros Hd. induction 1 as [|t ts Ht Hts IH]; [constructor|]. destruct ts as [|u ts]; [done|].
  rewrite join_cons by done. apply Forall_app. split; [done|]. by constructor.
Qed.

(** The characters of a text *)
Lemma ref_ntop_text f d :
  length d = size_of f → Forall byte d →
  Forall (λ c, c ∈ match f with IPv4 => lit ".0123456789" | IPv6 => ":"%char :: hex_digits end) (ref_ntop f d).
Proof.
  intros Hl Hb. destruct f; cbn [ref_ntop]; apply join_Forall.
  - by left.
  - apply Forall_map. eapply Forall_impl; [exact Hb|]. intros b Hb'.
    destruct (to_string_digits b) as (ds & -> & _ & Hd & _); [unfold byte in Hb'; lia|].
    apply Forall_forall. intros c Hc. rewrite forallb_forall in Hd. apply list_elem_of_In, Hd in Hc.
    clear -Hc. destruct c as [[] [] [] [] [] [] [] []]; try discriminate Hc;
      apply (bool_decide_unpack _); vm_compute; exact I.
  - by left.
  - eapply Forall_impl; [by apply groups_text|]. intros t Ht. eapply Forall_impl; [exact Ht|].
    intros c Hc. by right.
Qed.

Lemma ref_ntop_free f d c :
  length d = size_of f → Forall byte d →
  c ∉ match f with IPv4 => lit ".0123456789" | IPv6 => ":"%char :: hex_digits end → c ∉ ref_ntop f d.
Proof. intros Hl Hb Hc Hin. pose proof (ref_ntop_text f d Hl Hb) as Ht. rewrite Forall_forall in Ht. auto. Qed.

Lemma ref_inet_ok : @InetOk ref_inet.
Proof.
  split.
  - intros f s d. destruct f; cbn [inet_pton ref_inet ref_pton]; cbv zeta; case_decide as Hl; try done; intros E.
    + apply mapM_Some_1 in E. pose proof (Forall2_length _ _ _ E) as El. split; [cbn; lia|]. clear Hl El.
      induction E; constructor; [by eapply StrTo_range|done].
    + apply bytes_of_groups_shape in E as [-> Hb]. by rewrite Hl.
  - intros f d Hl Hb. destruct f; cbn [inet_pton inet_ntop ref_inet ref_pton ref_ntop]; cbv zeta.
    + rewrite split_join; [| |].
      * rewrite length_map, decide_True by done. clear Hl.
        induction Hb as [|b l Hb _ IH]; [done|]. cbn. unfold byte in Hb.
        rewrite StrTo_to_string by lia. cbn. by rewrite IH.
      * by destruct d.
      * apply Forall_map. eapply Forall_impl; [exact Hb|]. intros b Hb'. by apply to_string_free.
    + destruct (bytes_of_groups_groups 8 d Hl Hb) as [E El]. rewrite split_join, El; [by rewrite decide_True| |].
      * intros E0. by rewrite E0 in El.
      * eapply Forall_impl; [by apply groups_text|]. intros t Ht Hc. rewrite Forall_forall in Ht.
        apply Ht in Hc. revert Hc. apply (bool_decide_unpack _). vm_compute. exact I.
  - intros d Hl Hb. cbn [inet_pton ref_inet ref_pton]; cbv zeta. rewrite split_char_id; [done|].
    apply (ref_ntop_free IPv6); [done..|]. apply (bool_decide_unpack _). vm_compute. exact I.
  - intros f d Hl Hb. split; [|split; apply ref_ntop_free; try done; destruct f;
      apply (bool_decide_unpack _); vm_compute; exact I].
    destruct d as [|b0 [|b1 d]]; [by destruct f|by destruct f|]. destruct f; cbn [ref_ntop inet_ntop ref_inet map groups].
    + destruct d; cbn [map join]; (intros [_ ?]%app_eq_nil || intros E%app_eq_nil); naive_solver.
    + by destruct (groups d).
Qed.

#[local] Existing Instances ref_split ref_split_ok ref_inet ref_inet_ok ref_cast ref_cast_ok.

Lemma parsed_endpoint_ok_witness :
  ∃ ep, EndpointFromEPRT (lit "|2|0000:0000:0000:0000:0000:0000:0000:0001|65535|") = Ok ep ∧
        endpoint_ok ep ∧ 0 ≤ port ep ≤ 65535.
Proof.
  eexists. split; [vm_compute; reflexivity|].
  apply (parsed_endpoint_ok (lit "|2|0000:0000:0000:0000:0000:0000:0000:0001|65535|")).
  right. right. vm_compute. reflexivity.
Defined.

(** ::ffff:10.0.0.1 *)
Definition mapped_endpoint : Endpoint :=
  let d := replicate 10 0 ++ [255; 255; 10; 0; 0; 1] in
  {| addr := {| sa_addr := d; sa_port := [4; 210] |};
     ip := {| data := d; family := IPv6; asString := [] |}; port := 1234 |}.

Lemma mapped_endpoint_ok : endpoint_ok mapped_endpoint.
Proof.
  unfold endpoint_ok, ip_ok, port_ok, mapped_endpoint. cbn [addr ip port sa_addr sa_port data family asString].
  split_and!; try done; try (by left); apply (bool_decide_unpack (Forall (λ b, 0 ≤ b ≤ 255) _)); vm_compute; exact I.
Qed.

Lemma port_strings_roundtrip_example :
  EndpointToPORT mapped_endpoint = Ok (lit "10,0,0,1,4,210") ∧
  reads_back EndpointFromPORT (lit "10,0,0,1,4,210") mapped_endpoint.
Proof.
  assert (E : EndpointToPORT mapped_endpoint = Ok (lit "10,0,0,1,4,210")) by (vm_compute; reflexivity).
  split; [exact E|].
  exact (proj1 (proj2 (port_strings_roundtrip mapped_endpoint mapped_endpoint_ok)) _ E).
Defined.
