(* ===== verification/Data.v ===== *)
(** * The data connection: ftp/data.cpp, ftp/data.hpp, ftp/transferstate.hpp

    Setting up the connection (PORT and its kin connect, PASV and its kin
    listen), opening it for a transfer, and reading and writing while the
    control connection is watched.  The system calls are a parameter: the n-th
    call answers what [Net] says, so that no property depends on the answers
    being repeatable.  The allocators of addresses and ports, which the sessions
    share, are part of the state of the one session that is modelled. *)

From stdpp Require Import prelude.
From S2P Require Import Prelude CxxString Numbers Counters Acl UserData User Rights Settings Policies Config NetFtp.
Local Open Scope Z_scope.
Local Open Scope list_scope.

Import AddrAllocator PortAllocator.

(** ** Errors *)

(** util/net/error.hpp; a [TLSError] is a [NetworkError] as well. *)
Inductive net_error : Type :=
  | NetworkError (message : str)
  | NetworkSystemError (errno : Z)
  | TimeoutError
  | EndOfStream.

(** ftp/error.hpp, and reading what is not there ([assert]) *)
Inductive data_error : Type :=
  | NetErr (e : net_error)
  | ControlError (e : net_error)
  | TransferAborted
  | AssertFailed.

Definition EADDRINUSE : Z := 98.

Section messages.
Context (strerror : Z → str).

(** [NetworkError::Message] *)
Definition net_message (e : net_error) : str :=
  match e with
  | NetworkError m => m
  | NetworkSystemError n => strerror n
  | TimeoutError => lit "Timeout error"
  | EndOfStream => lit "End of stream"
  end.
End messages.

(** The message of a plain [NetworkError()] *)
Definition plain_error : net_error := NetworkError (lit "Network error").

(** ** Data *)

Inductive EPSVMode : Type := Extended | Normal.
Inductive DataType : Type := ASCII | Binary.
Inductive PassiveType : Type := PASV | EPSV | LPSV | CPSV | Active.
Inductive SSCNMode : Type := SSCN_Server | SSCN_Client.
Inductive TransferType : Type := Upload_ | Download_ | List_ | NoTransfer.
Inductive HandshakeRole : Type := TLS_Server | TLS_Client.
Inductive AddrType : Type := ActiveAddr | PassiveAddr.

#[global] Instance EPSVMode_eq_dec : EqDecision EPSVMode. Proof. solve_decision. Defined.
#[global] Instance DataType_eq_dec : EqDecision DataType. Proof. solve_decision. Defined.
#[global] Instance PassiveType_eq_dec : EqDecision PassiveType. Proof. solve_decision. Defined.
#[global] Instance SSCNMode_eq_dec : EqDecision SSCNMode. Proof. solve_decision. Defined.
#[global] Instance TransferType_eq_dec : EqDecision TransferType. Proof. solve_decision. Defined.
#[global] Instance AddrType_eq_dec : EqDecision AddrType. Proof. solve_decision. Defined.

(** [listener]: where it listens; [remote] and [tls] are those of the socket;
    [xferType] and [xferBytes] are the [TransferState].  [addrs] and [ports] are
    the allocators, [calls] counts the system calls, and the rest are the ACLs
    of the configuration with the answers they have stored. *)
Record Data := MkData {
  listener : option Endpoint;
  connected : bool;
  remote : Endpoint;
  tls : option HandshakeRole;
  protection : bool;
  pasvType : PassiveType;
  epsvMode : EPSVMode;
  dataType : DataType;
  sscnMode : SSCNMode;
  restartOffset : Z;
  bytesRead : Z;
  bytesWrite : Z;
  xferType : TransferType;
  xferBytes : Z;
  addrs : AddrType → AddrAllocator;
  ports : AddrType → PortAllocator;
  calls : nat;
  fxpRules : list (entry AllowFxpRule);
  tlsListing : ACL;
  tlsFxp : ACL;
  tlsData : ACL
}.

Definition set_listener v (d : Data) : Data :=
  MkData
    v (connected d) (remote d) (tls d) (protection d) (pasvType d) (epsvMode d)
    (dataType d) (sscnMode d) (restartOffset d) (bytesRead d) (bytesWrite d) (xferType
    d) (xferBytes d) (addrs d) (ports d) (calls d) (fxpRules d) (tlsListing d) (tlsFxp
    d) (tlsData d).

Definition set_connected v (d : Data) : Data :=
  MkData
    (listener d) v (remote d) (tls d) (protection d) (pasvType d) (epsvMode d) (dataType
    d) (sscnMode d) (restartOffset d) (bytesRead d) (bytesWrite d) (xferType d)
    (xferBytes d) (addrs d) (ports d) (calls d) (fxpRules d) (tlsListing d) (tlsFxp d)
    (tlsData d).

Definition set_remote v (d : Data) : Data :=
  MkData
    (listener d) (connected d) v (tls d) (protection d) (pasvType d) (epsvMode d)
    (dataType d) (sscnMode d) (restartOffset d) (bytesRead d) (bytesWrite d) (xferType
    d) (xferBytes d) (addrs d) (ports d) (calls d) (fxpRules d) (tlsListing d) (tlsFxp
    d) (tlsData d).

Definition set_tls v (d : Data) : Data :=
  MkData
    (listener d) (connected d) (remote d) v (protection d) (pasvType d) (epsvMode d)
    (dataType d) (sscnMode d) (restartOffset d) (bytesRead d) (bytesWrite d) (xferType
    d) (xferBytes d) (addrs d) (ports d) (calls d) (fxpRules d) (tlsListing d) (tlsFxp
    d) (tlsData d).

Definition set_protection v (d : Data) : Data :=
  MkData
    (listener d) (connected d) (remote d) (tls d) v (pasvType d) (epsvMode d) (dataType
    d) (sscnMode d) (restartOffset d) (bytesRead d) (bytesWrite d) (xferType d)
    (xferBytes d) (addrs d) (ports d) (calls d) (fxpRules d) (tlsListing d) (tlsFxp d)
    (tlsData d).

Definition set_pasvType v (d : Data) : Data :=
  MkData
    (listener d) (connected d) (remote d) (tls d) (protection d) v (epsvMode d)
    (dataType d) (sscnMode d) (restartOffset d) (bytesRead d) (bytesWrite d) (xferType
    d) (xferBytes d) (addrs d) (ports d) (calls d) (fxpRules d) (tlsListing d) (tlsFxp
    d) (tlsData d).

Definition set_epsvMode v (d : Data) : Data :=
  MkData
    (listener d) (connected d) (remote d) (tls d) (protection d) (pasvType d) v
    (dataType d) (sscnMode d) (restartOffset d) (bytesRead d) (bytesWrite d) (xferType
    d) (xferBytes d) (addrs d) (ports d) (calls d) (fxpRules d) (tlsListing d) (tlsFxp
    d) (tlsData d).

Definition set_dataType v (d : Data) : Data :=
  MkData
    (listener d) (connected d) (remote d) (tls d) (protection d) (pasvType d) (epsvMode
    d) v (sscnMode d) (restartOffset d) (bytesRead d) (bytesWrite d) (xferType d)
    (xferBytes d) (addrs d) (ports d) (calls d) (fxpRules d) (tlsListing d) (tlsFxp d)
    (tlsData d).

Definition set_sscnMode v (d : Data) : Data :=
  MkData
    (listener d) (connected d) (remote d) (tls d) (protection d) (pasvType d) (epsvMode
    d) (dataType d) v (restartOffset d) (bytesRead d) (bytesWrite d) (xferType d)
    (xferBytes d) (addrs d) (ports d) (calls d) (fxpRules d) (tlsListing d) (tlsFxp d)
    (tlsData d).

Definition set_restartOffset v (d : Data) : Data :=
  MkData
    (listener d) (connected d) (remote d) (tls d) (protection d) (pasvType d) (epsvMode
    d) (dataType d) (sscnMode d) v (bytesRead d) (bytesWrite d) (xferType d) (xferBytes
    d) (addrs d) (ports d) (calls d) (fxpRules d) (tlsListing d) (tlsFxp d) (tlsData d).

Definition set_bytesWrite v (d : Data) : Data :=
  MkData
    (listener d) (connected d) (remote d) (tls d) (protection d) (pasvType d) (epsvMode
    d) (dataType d) (sscnMode d) (restartOffset d) (bytesRead d) v (xferType d)
    (xferBytes d) (addrs d) (ports d) (calls d) (fxpRules d) (tlsListing d) (tlsFxp d)
    (tlsData d).

Definition set_xferType v (d : Data) : Data :=
  MkData
    (listener d) (connected d) (remote d) (tls d) (protection d) (pasvType d) (epsvMode
    d) (dataType d) (sscnMode d) (restartOffset d) (bytesRead d) (bytesWrite d) v
    (xferBytes d) (addrs d) (ports d) (calls d) (fxpRules d) (tlsListing d) (tlsFxp d)
    (tlsData d).

Definition set_xferBytes v (d : Data) : Data :=
  MkData
    (listener d) (connected d) (remote d) (tls d) (protection d) (pasvType d) (epsvMode
    d) (dataType d) (sscnMode d) (restartOffset d) (bytesRead d) (bytesWrite d)
    (xferType d) v (addrs d) (ports d) (calls d) (fxpRules d) (tlsListing d) (tlsFxp d)
    (tlsData d).

Definition set_addrs v (d : Data) : Data :=
  MkData
    (listener d) (connected d) (remote d) (tls d) (protection d) (pasvType d) (epsvMode
    d) (dataType d) (sscnMode d) (restartOffset d) (bytesRead d) (bytesWrite d)
    (xferType d) (xferBytes d) v (ports d) (calls d) (fxpRules d) (tlsListing d) (tlsFxp
    d) (tlsData d).

Definition set_ports v (d : Data) : Data :=
  MkData
    (listener d) (connected d) (remote d) (tls d) (protection d) (pasvType d) (epsvMode
    d) (dataType d) (sscnMode d) (restartOffset d) (bytesRead d) (bytesWrite d)
    (xferType d) (xferBytes d) (addrs d) v (calls d) (fxpRules d) (tlsListing d) (tlsFxp
    d) (tlsData d).

Definition set_calls v (d : Data) : Data :=
  MkData
    (listener d) (connected d) (remote d) (tls d) (protection d) (pasvType d) (epsvMode
    d) (dataType d) (sscnMode d) (restartOffset d) (bytesRead d) (bytesWrite d)
    (xferType d) (xferBytes d) (addrs d) (ports d) v (fxpRules d) (tlsListing d) (tlsFxp
    d) (tlsData d).

Definition set_fxpRules v (d : Data) : Data :=
  MkData
    (listener d) (connected d) (remote d) (tls d) (protection d) (pasvType d) (epsvMode
    d) (dataType d) (sscnMode d) (restartOffset d) (bytesRead d) (bytesWrite d)
    (xferType d) (xferBytes d) (addrs d) (ports d) (calls d) v (tlsListing d) (tlsFxp d)
    (tlsData d).

Definition set_tlsListing v (d : Data) : Data :=
  MkData
    (listener d) (connected d) (remote d) (tls d) (protection d) (pasvType d) (epsvMode
    d) (dataType d) (sscnMode d) (restartOffset d) (bytesRead d) (bytesWrite d)
    (xferType d) (xferBytes d) (addrs d) (ports d) (calls d) (fxpRules d) v (tlsFxp d)
    (tlsData d).

Definition set_tlsFxp v (d : Data) : Data :=
  MkData
    (listener d) (connected d) (remote d) (tls d) (protection d) (pasvType d) (epsvMode
    d) (dataType d) (sscnMode d) (restartOffset d) (bytesRead d) (bytesWrite d)
    (xferType d) (xferBytes d) (addrs d) (ports d) (calls d) (fxpRules d) (tlsListing d)
    v (tlsData d).

Definition set_tlsData v (d : Data) : Data :=
  MkData
    (listener d) (connected d) (remote d) (tls d) (protection d) (pasvType d) (epsvMode
    d) (dataType d) (sscnMode d) (restartOffset d) (bytesRead d) (bytesWrite d)
    (xferType d) (xferBytes d) (addrs d) (ports d) (calls d) (fxpRules d) (tlsListing d)
    (tlsFxp d) v.


Definition at_type {A} (t : AddrType) (x : A) (f : AddrType → A) : AddrType → A :=
  λ u, if decide (u = t) then x else f u.

(** ** The system *)

(** What the [n]-th system call answers: [listen] and [connect] with the endpoint
    they got, [accept] with the other side's; a TLS handshake succeeds or not. *)
Class Net := {
  net_listen : nat → Endpoint → result net_error Endpoint;
  net_connect : nat → Endpoint → Endpoint → result net_error Endpoint;
  net_accept : nat → Endpoint → result net_error Endpoint;
  net_handshake : nat → HandshakeRole → result net_error unit
}.

(** [socket.Close()], [listener.Close()]: closing the socket ends TLS; its
    [RemoteEndpoint] is kept. *)
Definition close_socket (d : Data) : Data := set_tls None (set_connected false d).
Definition close_listener (d : Data) : Data := set_listener None d.

Section code.
Context `{Split, Inet, BoostCast, Net}.
(** The endpoints of the control connection, the addresses of the interfaces in
    the order of their names, [nat_addr] and [epsv_fxp] of the configuration *)
Context (localEndpoint remoteEndpoint : Endpoint) (interfaces : result net_error (list (list IPAddress)))
        (NATAddr : str) (EPSVFxp_ : EPSVFxp).

(** ** Data::InitPassive, Data::InitActive *)

(** The loop over the addresses; [good] says whether an address will do. *)
Fixpoint pick_addr (fuel : nat) (good : IPAddress → bool) (firstAddr : str) (ip : option IPAddress)
    (a : AddrAllocator) : option (result net_error (option IPAddress) * AddrAllocator) :=
  match fuel with
  | O => None
  | S fuel' =>
      let '(addr, a) := NextAddr a in
      if decide (addr = []) then Some (Ok ip, a)
      else if decide (addr = firstAddr)
      then Some (Throw (NetworkError (lit "Unable to find a valid local address.")), a)
      else
        let firstAddr' := if decide (firstAddr = []) then addr else firstAddr in
        match IPAddress_FromString addr with
        | Some x =>
            if good (IPAddress_copy x) then Some (Ok (Some (IPAddress_copy x)), a)
            else pick_addr fuel' good firstAddr' (Some (IPAddress_copy x)) a
        | None => pick_addr fuel' good firstAddr' ip a
        end
  end.

(** The loop over the ports; [attempt] is the system call. *)
Fixpoint try_ports {A} (fuel : nat) (attempt : nat → Z → result net_error A) (firstPort : option Z)
    (n : nat) (a : PortAllocator) : option (result net_error A * nat * PortAllocator) :=
  match fuel with
  | O => None
  | S fuel' =>
      '(port, a) ← NextPort 2 a;
      if decide (firstPort = Some port) then Some (Throw (NetworkError (lit "All ports exhausted.")), n, a)
      else
        match attempt n port with
        | Ok x => Some (Ok x, S n, a)
        | Throw (NetworkSystemError e) =>
            if decide (e = EADDRINUSE) then try_ports fuel' attempt (Some (default port firstPort)) (S n) a
            else Some (Throw (NetworkSystemError e), S n, a)
        | Throw e => Some (Throw e, S n, a)
        end
  end.

(** [FindPartnerIP]: the first IPv4 address of the first interface that has the
    address *)
Definition FindPartnerIP (ip : IPAddress) (ifs : list (list IPAddress)) : option IPAddress :=
  match List.find (existsb (λ a, Equals a ip)) ifs with
  | Some l => List.find (λ a, bool_decide (family a = IPv4)) l
  | None => None
  end.

(** The address to listen on, once one is picked *)
Definition passive_ip (pasvType : PassiveType) (picked : option IPAddress) : result net_error IPAddress :=
  let ip := default (IPAddress_copy (ip localEndpoint)) picked in
  if bool_decide (pasvType = PASV) && bool_decide (family ip = IPv6) then
    match interfaces with
    | Ok ifs => Ok (default ip (FindPartnerIP ip ifs))
    | Throw e => Throw e
    end
  else Ok ip.

Definition passive_good (pasvType : PassiveType) (a : IPAddress) : bool :=
  (bool_decide (pasvType = PASV) && bool_decide (family a = IPv4)) ||
  bool_decide (family a = family (ip localEndpoint)).

(** [try { listener.Listen(Endpoint(ip, port)) }] *)
Definition listen_at (a : IPAddress) : nat → Z → result net_error Endpoint :=
  λ n p, net_listen n (Endpoint_of a p).

(** The endpoint to announce *)
Definition announced (bound : Endpoint) : result net_error Endpoint :=
  if decide (NATAddr = []) then Ok bound
  else match IPAddress_FromString NATAddr with
       | Some a => Ok (Endpoint_of a (port bound))
       | None => Throw (NetworkError (lit "Invalid IP address or family"))
       end.

(** [None]: not enough fuel *)
Definition InitPassive (fuel : nat) (pt : PassiveType) (d : Data)
    : option (result net_error Endpoint * Data) :=
  let d := close_listener (close_socket d) in
  '(r, a) ←
    (if bool_decide (pt ≠ EPSV) || bool_decide (epsvMode d = Extended)
     then pick_addr fuel (passive_good pt) [] None (addrs d PassiveAddr)
     else Some (Ok None, addrs d PassiveAddr));
  let d := set_addrs (at_type PassiveAddr a (addrs d)) d in
  match (match r with Ok picked => passive_ip pt picked | Throw e => Throw e end) with
  | Throw e => Some (Throw e, d)
  | Ok a =>
      '(r, n, p) ← try_ports fuel (listen_at a) None (calls d) (ports d PassiveAddr);
      let d := set_calls n (set_ports (at_type PassiveAddr p (ports d)) d) in
      match r with
      | Throw e => Some (Throw e, d)
      | Ok bound => let d := set_pasvType pt (set_listener (Some bound) d) in Some (announced bound, d)
      end
  end.

(** [IPAddress(family)]: the address "any" *)
Definition IPAddress_any (f : IPFamily) : option IPAddress :=
  IPAddress_FromString (match f with IPv4 => lit "0.0.0.0" | IPv6 => lit "::" end).

Definition InitActive (fuel : nat) (ep : Endpoint) (d : Data) : option (result net_error unit * Data) :=
  let d := close_listener (close_socket (set_pasvType Active d)) in
  '(r, a) ← pick_addr fuel (λ a, bool_decide (family a = family (ip ep))) [] None (addrs d ActiveAddr);
  let d := set_addrs (at_type ActiveAddr a (addrs d)) d in
  match r with
  | Throw e => Some (Throw e, d)
  | Ok picked =>
      match (match picked with Some a => Some a | None => IPAddress_any (family (ip ep)) end) with
      | None => Some (Throw (NetworkError (lit "Invalid IP address or family")), d)
      | Some localIP =>
          '(r, n, p) ← try_ports fuel (λ n p, net_connect n ep (Endpoint_of localIP p)) None
                                 (calls d) (ports d ActiveAddr);
          let d := set_calls n (set_ports (at_type ActiveAddr p (ports d)) d) in
          match r with
          | Throw e => Some (Throw e, d)
          | Ok peer => Some (Ok tt, set_remote peer (set_connected true d))
          end
      end
  end.

(** ** Data::Open, Close, IsFXP, ProtectionOkay *)

Definition IsFXP (d : Data) : bool := negb (Equals (ip (remote d)) (ip remoteEndpoint)).

(** A step that may throw *)
Abbreviation DM A := (result net_error A * Data)%type.

(** The connection: the other side's, which [Accept] waits for, or the one that
    [InitActive] made.  An [Accept] without a listener is an assertion. *)
Definition open_connection (d : Data) : result data_error unit * Data :=
  if decide (pasvType d = Active) then
    if connected d then (Ok tt, d) else (Throw (NetErr (NetworkError (lit "Invalid command sequence"))), d)
  else
    match listener d with
    | None => (Throw AssertFailed, d)
    | Some l =>
        let n := calls d in
        let d := set_calls (S n) d in
        match net_accept n l with
        | Ok peer => (Ok tt, set_remote peer (set_connected true d))
        | Throw e => (Throw (NetErr e), d)
        end
    end.

Context (user : UserData) (GIDToName : Z → str).

(** The check of site to site transfers; the text it logs is left out, and with
    it the variable [logging]. *)
Definition check_fxp (t : TransferType) (d : Data) : result data_error unit * Data :=
  if bool_decide (t ≠ List_) && IsFXP d then
    let '(allowed, _, rules) :=
      if decide (t = Upload_) then AllowFxpReceive GIDToName user false (fxpRules d)
      else AllowFxpSend GIDToName user false (fxpRules d) in
    let d := set_fxpRules rules d in
    if allowed then (Ok tt, d)
    else
      let type := if decide (t = Upload_) then lit "upload from" else lit "download to" in
      (Throw (NetErr (NetworkError (lit "FXP " ++ type ++ lit " not allowed."))), close_socket d)
  else (Ok tt, d).

Definition handshake_role (t : TransferType) (d : Data) : HandshakeRole :=
  if (bool_decide (sscnMode d = SSCN_Client) || bool_decide (pasvType d = CPSV)) &&
     (bool_decide (t = Upload_) || bool_decide (t = Download_))
  then TLS_Client else TLS_Server.

(** [if (protection) socket.HandshakeTLS(role)] *)
Definition start_tls (t : TransferType) (d : Data) : result data_error unit * Data :=
  if protection d then
    let n := calls d in
    let role := handshake_role t d in
    let d := set_calls (S n) d in
    match net_handshake n role with
    | Ok _ => (Ok tt, set_tls (Some role) d)
    | Throw e => (Throw (NetErr e), d)
    end
  else (Ok tt, d).

(** [TransferState::Start], [Stop] and [Update]; the times are left out. *)
Definition state_Start (t : TransferType) (d : Data) : Data := set_xferBytes 0 (set_xferType t d).
Definition state_Stop (d : Data) : Data := set_xferType NoTransfer d.
Definition state_Update (n : Z) (d : Data) : Data := set_xferBytes (xferBytes d + n) d.

Definition dbind {A B} (r : result data_error A * Data) (k : A → Data → result data_error B * Data)
    : result data_error B * Data :=
  match r with (Ok a, d) => k a d | (Throw e, d) => (Throw e, d) end.

Definition Open (t : TransferType) (d : Data) : result data_error unit * Data :=
  dbind (open_connection d) (λ _ d,
  dbind (check_fxp t d) (λ _ d,
  dbind (start_tls t d) (λ _ d, (Ok tt, state_Start t d)))).

Definition Close (d : Data) : Data := state_Stop (close_socket (set_restartOffset 0 d)).

Definition ProtectionOkay (d : Data) : bool * Data :=
  let i := User_ACLInfo user GIDToName in
  if protection d then (true, d)
  else if decide (xferType d = List_) then
    let '(r, acl) := Evaluate (tlsListing d) i in (negb r, set_tlsListing acl d)
  else if IsFXP d then
    let '(r, acl) := Evaluate (tlsFxp d) i in (negb r, set_tlsFxp acl d)
  else
    let '(r, acl) := Evaluate (tlsData d) i in (negb r, set_tlsData acl d).

(** ** Data::HandleControl, Read, Write *)

(** What a command during a transfer makes the session do *)
Inductive control_effect : Type :=
  | Replied (code : Z) (text : str)
  | SessionFinished.

(** [revents] of the control connection; the command is what [NextCommand]
    returns or throws.  Whatever is not caught as a [NetworkError] goes on. *)
Definition HandleControl (pollin pollhup : bool) (command : result net_error str) (d : Data)
    : list control_effect * data_error :=
  let rest := ControlError (if pollhup then EndOfStream else plain_error) in
  if pollin then
    match command with
    | Throw e => ([], ControlError e)
    | Ok command =>
        if decide (command = lit "ABOR") then
          ([Replied 426 (lit "Abort requested, closing data connection")], TransferAborted)
        else if decide (command = lit "QUIT") then
          ([Replied 221 (lit "Bye bye"); SessionFinished], ControlError EndOfStream)
        else if decide (command = lit "STAT") then
          ([Replied 213 (lit "Status: " ++ to_string (xferBytes d) ++ lit " bytes transferred")], rest)
        else ([Replied 503 (lit "Unsupported command during transfer")], rest)
    end
  else ([], rest).

(** What poll(2) reports: nothing in time, an error, or the events of the control
    connection (if any, with the command that is waiting there) and of the data
    connection *)
Inductive poll_result : Type :=
  | PollTimeout
  | PollError (errno : Z)
  | PollEvents (control : option (bool * bool * result net_error str)) (ready hup : bool).

Definition poll_then {A} (p : poll_result) (go : result net_error A) (d : Data)
    : list control_effect * result data_error A :=
  match p with
  | PollTimeout => ([], Throw (NetErr TimeoutError))
  | PollError errno => ([], Throw (NetErr (NetworkSystemError errno)))
  | PollEvents (Some (pollin, pollhup, command)) _ _ =>
      let '(effects, e) := HandleControl pollin pollhup command d in (effects, Throw e)
  | PollEvents None ready hup =>
      ([], if ready then match go with Ok a => Ok a | Throw e => Throw (NetErr e) end
           else Throw (NetErr (if hup then EndOfStream else plain_error)))
  end.

(** [got] is what [socket.Read] returns or throws *)
Definition Read (p : poll_result) (got : result net_error str) (d : Data)
    : list control_effect * result data_error str := poll_then p got d.

Definition Write (p : poll_result) (wrote : result net_error unit) (len : Z) (d : Data)
    : list control_effect * result data_error unit * Data :=
  let '(effects, r) := poll_then p wrote d in
  (effects, r,
   match r with
   | Ok _ => if decide (xferType d = List_) then set_bytesWrite (bytesWrite d + len) d else d
   | Throw _ => d
   end).

End code.

(** ** The commands that set up a data connection: cmd/rfc/commands.cpp *)

(** How a command ends: it returns, throws [NoPostScriptError] or
    [SyntaxError], or the fuel was not enough. *)
Inductive command_end : Type := Returned | NoPostScriptError | SyntaxErrorThrown | OutOfFuel.

(** The replies that were sent, the end and the state *)
Abbreviation command := (list (Z * str) * command_end * Data)%type.

Section commands.
Context `{Split, CaseConv, Inet, BoostCast, Net}.
Context (strerror : Z → str) (localEndpoint : Endpoint) (interfaces : result net_error (list (list IPAddress)))
        (NATAddr : str) (EPSVFxp_ : EPSVFxp) (fuel : nat).

Abbreviation InitPassive := (InitPassive localEndpoint interfaces NATAddr fuel).

(** PASV, EPSV, LPSV and CPSV up to the reply: [fails] is how the command ends
    when it cannot listen. *)
Definition passive_command (pt : PassiveType) (fails : command_end) (reply : Endpoint → Data → list (Z * str) * command_end)
    (d : Data) : command :=
  match InitPassive pt d with
  | None => ([], OutOfFuel, d)
  | Some (Throw e, d) =>
      ([(425, lit "Unable to listen for data connection: " ++ net_message strerror e)], fails, d)
  | Some (Ok ep, d) => (reply ep d, d)
  end.

(** The reply of PASV and CPSV *)
Definition reply_PORT (fails : command_end) (ep : Endpoint) (d : Data) : list (Z * str) * command_end :=
  match EndpointToPORT ep with
  | Throw e => ([(501, err_message strerror e)], fails)
  | Ok portString => ([(227, lit "Entering passive mode (" ++ portString ++ lit ")")], Returned)
  end.

Definition PASVCommand : Data → command := passive_command PASV NoPostScriptError (reply_PORT NoPostScriptError).
Definition CPSVCommand : Data → command := passive_command CPSV Returned (reply_PORT Returned).

Definition LPSVCommand : Data → command :=
  passive_command LPSV Returned (λ ep _,
    ([(228, lit "Entering passive mode (" ++ EndpointToLPRT ep ++ lit ")")], Returned)).

(** [EnumToString] of both enumerations *)
Definition EPSVFxp_string (f : EPSVFxp) : str :=
  match f with EPSV_Allow => lit "Allow" | EPSV_Deny => lit "Deny" | EPSV_Force => lit "Force" end.
Definition EPSVMode_string (m : EPSVMode) : str :=
  match m with Extended => lit "EXTENDED" | Normal => lit "NORMAL" end.

Definition EPSV_ChangeMode (arg : str) (d : Data) : command :=
  let arg := to_upper arg in
  let mode m d :=
    let d := set_epsvMode m d in
    ([(200, EPSVFxp_string EPSVFxp_ ++ lit " (" ++ EPSVMode_string (epsvMode d) ++ lit ").")], Returned, d) in
  if decide (arg = lit "EXTENDED") then
    match EPSVFxp_ with
    | EPSV_Deny => ([(504, lit "EPSV EXTENDED not supported.")], Returned, d)
    | _ => mode Extended d
    end
  else if decide (arg = lit "NORMAL") then
    match EPSVFxp_ with
    | EPSV_Force => ([(504, lit "EPSV NORMAL not supported.")], Returned, d)
    | _ => mode Normal d
    end
  else if decide (arg = lit "MODE") then mode (epsvMode d) d
  else ([], SyntaxErrorThrown, d).

(** [args] with the name of the command *)
Definition EPSVCommand (args : list str) (d : Data) : command :=
  match args with
  | [_; arg] => EPSV_ChangeMode arg d
  | _ =>
      passive_command EPSV Returned (λ ep d,
        ([(229, lit "Entering extended passive mode (" ++
                EndpointToEPRT ep (bool_decide (epsvMode d = Extended)) ++ lit ")")], Returned)) d
  end.

(** PORT, LPRT and EPRT once the endpoint is read *)
Definition active_command (name : str) (ep : Endpoint) (d : Data) : command :=
  match InitActive fuel ep d with
  | None => ([], OutOfFuel, d)
  | Some (Throw e, d) =>
      ([(425, lit "Unable to open data connection: " ++ net_message strerror e)], Returned, d)
  | Some (Ok _, d) => ([(200, name ++ lit " command successful.")], Returned, d)
  end.

Definition PORTCommand (arg : str) (d : Data) : command :=
  match EndpointFromPORT arg with
  | Throw e => ([(501, lit "Invalid port string.")], Returned, d)
  | Ok ep => active_command (lit "PORT") ep d
  end.

Definition LPRTCommand (arg : str) (d : Data) : command :=
  match EndpointFromLPRT arg with
  | Throw e => ([(501, arg ++ lit ": " ++ err_message strerror e)], Returned, d)
  | Ok ep => active_command (lit "LPRT") ep d
  end.

Definition EPRTCommand (arg : str) (d : Data) : command :=
  match EndpointFromEPRT arg with
  | Throw e => ([(501, err_message strerror e)], Returned, d)
  | Ok ep => active_command (lit "EPRT") ep d
  end.

End commands.

(** ** The allocators *)

(** An allocator that was configured once and used since: the next port is in
    the current range, or just behind it, or none was asked for yet. *)
Definition ports_ok (a : PortAllocator) : Prop :=
  PortAllocator.ports a = [] ∨
  Forall range_ok (PortAllocator.ports a) ∧ (PortAllocator.it a < length (PortAllocator.ports a))%nat ∧
  (nextPort a = 0 ∨
   fst (nth (PortAllocator.it a) (PortAllocator.ports a) (0, 0)) ≤ nextPort a ≤ snd (nth (PortAllocator.it a) (PortAllocator.ports a) (0, 0)) + 1).

Definition addrs_ok (a : AddrAllocator) : Prop := (AddrAllocator.it a ≤ length (addresses a))%nat.

Lemma SetPorts_ok ranges : Forall range_ok ranges → ports_ok (SetPorts ranges new).
Proof.
  intros Hr. destruct ranges as [|r rs]; [by left|]. right. cbn. split; [done|]. split; [lia|]. by left.
Qed.

Lemma in_all_ports ranges i p :
  (i < length ranges)%nat → fst (nth i ranges (0, 0)) ≤ p ≤ snd (nth i ranges (0, 0)) →
  p ∈ all_ports ranges.
Proof.
  intros Hi Hp. unfold all_ports. apply list_elem_of_In, in_concat.
  exists (range_ports (nth i ranges (0, 0))). split; [by apply in_map, nth_In|].
  apply list_elem_of_In. unfold range_ports. apply elem_of_seqZ. lia.
Qed.

(** A port that is handed out is a configured one. *)
Ltac alloc_cbn := cbn [PortAllocator.ports PortAllocator.it PortAllocator.nextPort fst snd].

Lemma NextPort_ok a :
  ports_ok a → ∃ p a', NextPort 2 a = Some (p, a') ∧ ports_ok a' ∧ PortAllocator.ports a' = PortAllocator.ports a ∧
    (if decide (PortAllocator.ports a = []) then p = AnyPort else p ∈ all_ports (PortAllocator.ports a) ∧ alloc_ok a').
Proof.
  intros [E|(Hr & Hi & Hn)].
  { exists AnyPort, a. unfold NextPort. rewrite E.
    destruct (decide ([] = [])) as [_|?]; [|done]. repeat split. by left. }
  unfold NextPort. destruct (PortAllocator.ports a) as [|r0 rs0] eqn:Ep; [cbn in Hi; lia|]. rewrite <- Ep in *.
  destruct (decide (PortAllocator.ports a = [])) as [E|_]; [by rewrite E in Ep|].
  pose proof (range_ok_nth _ _ Hr Hi) as Hrange. unfold range_ok in Hrange.
  destruct (decide (nextPort a = 0)) as [E0|E0].
  { eexists _, _. split; [done|]. alloc_cbn. split; [right; alloc_cbn; split; [done|]; split; [done|]; lia|]. split; [done|].
    split; [apply (in_all_ports _ (PortAllocator.it a)); [done|lia]|]. split; alloc_cbn; [done|done|lia]. }
  cbn [loop]. destruct (nth (PortAllocator.it a) (PortAllocator.ports a) (0, 0)) as [f t] eqn:En. cbn [fst snd] in *.
  destruct (Z.leb_spec (nextPort a) t) as [Hle|Hgt].
  { eexists _, _. split; [done|].
    split; [right; alloc_cbn; rewrite En; alloc_cbn; split; [done|]; split; [done|]; lia|]. split; [done|].
    split; [apply (in_all_ports _ (PortAllocator.it a)); [done|rewrite En; alloc_cbn; lia]|]. split; alloc_cbn; [done|done|lia]. }
  set (it' := if (S (PortAllocator.it a) =? length (PortAllocator.ports a))%nat then O else S (PortAllocator.it a)).
  assert (Hit : (it' < length (PortAllocator.ports a))%nat).
  { subst it'. destruct (Nat.eqb_spec (S (PortAllocator.it a)) (length (PortAllocator.ports a))); lia. }
  pose proof (range_ok_nth _ _ Hr Hit) as Hrange'. unfold range_ok in Hrange'. alloc_cbn.
  destruct (nth it' (PortAllocator.ports a) (0, 0)) as [f' t'] eqn:En'. cbn [fst snd] in *.
  rewrite (proj2 (Z.leb_le f' t')) by lia. eexists _, _. split; [done|].
  split; [right; alloc_cbn; rewrite En'; alloc_cbn; split; [done|]; split; [done|]; lia|]. split; [done|].
  split; [apply (in_all_ports _ it'); [done|rewrite En'; alloc_cbn; lia]|]. split; alloc_cbn; [done|done|lia].
Qed.

(** ** The loops end *)

Section loops.
Context `{Split, Inet, BoostCast, Net}.

Lemma try_ports_first {A} fuel (attempt : nat → Z → result net_error A) p0 n a ps a' :
  NextPorts 2 fuel a = Some (ps, a') → p0 ∈ ps → is_Some (try_ports fuel attempt (Some p0) n a).
Proof.
  revert n a ps a'. induction fuel as [|fuel IH]; intros n a ps a' E Hp.
  { injection E as <- <-. by apply elem_of_nil in Hp. }
  cbn [NextPorts] in E. apply bind_Some in E as ([p a1] & E1 & E).
  apply bind_Some in E as ([ps' a2] & E2 & [= <- <-]). cbn [try_ports]. rewrite E1. cbn [mbind option_bind].
  case_decide as Hpp; [eauto|]. assert (Hp' : p0 ∈ ps').
  { apply elem_of_cons in Hp as [->|?]; [|done]. by destruct Hpp. }
  destruct (attempt n p) as [x|[m|e| |]]; [eauto..| |eauto|eauto]. case_decide; [|eauto].
  cbn [default]. by eapply IH.
Qed.

Lemma pending_short a :
  Forall range_ok (PortAllocator.ports a) → (PortAllocator.it a < length (PortAllocator.ports a))%nat →
  fst (nth (PortAllocator.it a) (PortAllocator.ports a) (0, 0)) ≤ nextPort a →
  (length (pending a) ≤ length (all_ports (PortAllocator.ports a)))%nat.
Proof.
  intros Hr Hi Hn. set (r := nth (PortAllocator.it a) (PortAllocator.ports a) (0, 0)) in *.
  assert (E : PortAllocator.ports a = take (PortAllocator.it a) (PortAllocator.ports a) ++ r ::
              drop (S (PortAllocator.it a)) (PortAllocator.ports a)).
  { symmetry. apply take_drop_middle. unfold r. rewrite nth_lookup.
    by destruct (lookup_lt_is_Some_2 _ _ Hi) as [x ->]. }
  unfold pending. fold r. rewrite E at 2. unfold all_ports. rewrite map_app, concat_app.
  cbn [map concat]. rewrite !length_app. unfold range_ports. rewrite !length_seqZ. lia.
Qed.

(** Enough fuel for the ports and the addresses of an allocator *)
Definition ports_fuel (a : PortAllocator) : nat := (2 + 2 * length (all_ports (PortAllocator.ports a)))%nat.
Definition addrs_fuel (a : AddrAllocator) : nat := (2 + 2 * length (addresses a))%nat.

Lemma try_ports_more {A} fuel fuel' (attempt : nat → Z → result net_error A) first n a :
  (fuel ≤ fuel')%nat → is_Some (try_ports fuel attempt first n a) →
  try_ports fuel' attempt first n a = try_ports fuel attempt first n a.
Proof.
  revert fuel' first n a. induction fuel as [|fuel IH]; intros fuel' first n a Hle [x E]; [done|].
  destruct fuel' as [|fuel']; [lia|]. cbn [try_ports] in *.
  destruct (NextPort 2 a) as [[p a1]|]; [|done]. cbn [mbind option_bind] in *.
  case_decide; [done|]. destruct (attempt n p) as [y|[m|e| |]]; try done. case_decide; [|done].
  apply IH; [lia|eauto].
Qed.

Lemma try_ports_total {A} fuel (attempt : nat → Z → result net_error A) n a :
  ports_ok a → (ports_fuel a ≤ fuel)%nat → is_Some (try_ports fuel attempt None n a).
Proof.
  intros Ha Hf. destruct (NextPort_ok a Ha) as (p & a1 & E1 & Ha1 & Ep & Hp).
  unfold ports_fuel in Hf. destruct fuel as [|fuel]; [lia|]. cbn [try_ports]. rewrite E1. cbn [mbind option_bind].
  rewrite decide_False by done.
  destruct (attempt n p) as [y|[m|e| |]]; [eauto..| |eauto|eauto].
  destruct (decide (e = EADDRINUSE)); [|eauto]. cbn [default].
  destruct (decide (PortAllocator.ports a = [])) as [E0|E0].
  - subst p. assert (E2 : is_Some (try_ports 1 attempt (Some AnyPort) (S n) a1)).
    { cbn [try_ports]. unfold NextPort. rewrite Ep, E0. cbn [mbind option_bind].
      rewrite decide_True by done. eauto. }
    by rewrite (try_ports_more 1) by (lia || done).
  - destruct Hp as [Hp Hok]. set (L := all_ports (PortAllocator.ports a)) in *.
    destruct (NextPorts_cycle (2 * length L) a1 Hok) as (a2 & E2). rewrite Ep in E2. fold L in E2.
    assert (Hlen : (length (pending a1) ≤ length L)%nat).
    { unfold L. rewrite <- Ep. destruct Ha1 as [?|(Hr & Hi & Hn)]; [congruence|]. destruct Hok as [_ _ Hn0].
      apply pending_short; [done..|lia]. }
    enough (E3 : is_Some (try_ports (2 * length L) attempt (Some p) (S n) a1))
      by (by rewrite (try_ports_more (2 * length L)) by (lia || done)).
    eapply try_ports_first; [exact E2|].
    destruct (2 * length L)%nat as [|k] eqn:Ek.
    { destruct L; [by apply elem_of_nil in Hp|done]. }
    cbn [replicate concat]. rewrite app_assoc, take_app_ge by (rewrite length_app; lia).
    apply elem_of_app. left. apply elem_of_app. by right.
Qed.

(** What the loop leaves of the allocator, and what it returns *)
Lemma try_ports_spec {A} fuel (attempt : nat → Z → result net_error A) first n a r n' a' :
  try_ports fuel attempt first n a = Some (r, n', a') → ports_ok a →
  ports_ok a' ∧ PortAllocator.ports a' = PortAllocator.ports a ∧
  match r with
  | Ok x => ∃ k p, attempt k p = Ok x ∧
      (p ∈ all_ports (PortAllocator.ports a) ∨ PortAllocator.ports a = [] ∧ p = AnyPort)
  | Throw _ => True
  end.
Proof.
  revert first n a. induction fuel as [|fuel IH]; intros first n a E Ha; [done|].
  destruct (NextPort_ok a Ha) as (p & a1 & E1 & Ha1 & Ep & Hp). cbn [try_ports] in E. rewrite E1 in E.
  cbn [mbind option_bind] in E. rewrite <- Ep.
  assert (Hin : p ∈ all_ports (PortAllocator.ports a1) ∨ PortAllocator.ports a1 = [] ∧ p = AnyPort).
  { rewrite Ep. destruct (decide (PortAllocator.ports a = [])) as [?|?]; [right|left]; tauto. }
  clear Hp.
  case_decide; [by simplify_eq|]. destruct (attempt n p) as [y|[m|e| |]] eqn:Ey; simplify_eq; eauto 10.
  case_decide; [|by simplify_eq]. by apply IH in E.
Qed.

Lemma pick_addr_first fuel good f o a :
  f ∈ fst (NextAddrs fuel a) → f ≠ [] → is_Some (pick_addr fuel good f o a).
Proof.
  revert o a. induction fuel as [|fuel IH]; intros o a Hf Hne; [by apply elem_of_nil in Hf|].
  cbn [NextAddrs] in Hf. cbn [pick_addr]. destruct (NextAddr a) as [s a1].
  destruct (NextAddrs fuel a1) as [ss a2] eqn:E. cbn [fst] in Hf.
  case_decide; [eauto|]. case_decide as Hs; [eauto|]. rewrite (decide_False (P := f = [])) by done.
  assert (Hf' : f ∈ fst (NextAddrs fuel a1)) by (rewrite E; apply elem_of_cons in Hf as [->|?]; done).
  destruct (IPAddress_FromString s) as [x|]; [|by apply IH]. destruct (good _); [eauto|]. by apply IH.
Qed.

Lemma NextAddr_ok a : addrs_ok a → addrs_ok (snd (NextAddr a)) ∧ addresses (snd (NextAddr a)) = addresses a.
Proof.
  unfold addrs_ok, NextAddr. destruct (addresses a) as [|x xs] eqn:E; cbn; rewrite ?E; [done|].
  intros Ha. split; [|done]. destruct (Nat.eqb_spec (AddrAllocator.it a) (S (length xs))); cbn; lia.
Qed.

Lemma pick_addr_more fuel fuel' good f o a :
  (fuel ≤ fuel')%nat → is_Some (pick_addr fuel good f o a) →
  pick_addr fuel' good f o a = pick_addr fuel good f o a.
Proof.
  revert fuel' f o a. induction fuel as [|fuel IH]; intros fuel' f o a Hle [x E]; [done|].
  destruct fuel' as [|fuel']; [lia|]. cbn [pick_addr] in *. destruct (NextAddr a) as [s a1].
  case_decide; [done|]. case_decide; [done|].
  destruct (IPAddress_FromString s) as [y|]; [|apply IH; [lia|eauto]]. destruct (good _); [done|].
  apply IH; [lia|eauto].
Qed.

Lemma pick_addr_total fuel good a :
  addrs_ok a → (addrs_fuel a ≤ fuel)%nat → is_Some (pick_addr fuel good [] None a).
Proof.
  intros Ha Hf. unfold addrs_fuel in Hf. destruct fuel as [|fuel]; [lia|]. cbn [pick_addr].
  destruct (NextAddr_ok a Ha) as [Ha1 Ea1]. destruct (NextAddr a) as [s a1] eqn:E. cbn [snd] in *.
  case_decide as Hs; [eauto|]. rewrite (decide_True (P := [] = [])), (decide_False (P := s = [])) by done.
  assert (Hin : s ∈ addresses a).
  { unfold NextAddr in E. unfold addrs_ok in Ha. destruct (addresses a) as [|x xs] eqn:Eas; [congruence|].
    injection E as <- _. clear Hs. change (match ?k with O => x | S m => nth m xs [] end) with (nth k (x :: xs) []).
    apply list_elem_of_In. apply (nth_In (x :: xs)).
    cbn [length] in *. destruct (Nat.eqb_spec (AddrAllocator.it a) (S (length xs))); lia. }
  assert (His : is_Some (pick_addr (2 * length (addresses a)) good s None a1) ∧
               ∀ y, is_Some (pick_addr (2 * length (addresses a)) good s (Some y) a1)).
  { assert (Hf' : s ∈ fst (NextAddrs (2 * length (addresses a)) a1)).
    { destruct a1 as [as1 k1]. cbn in Ea1. subst as1.
      rewrite NextAddrs_cycle; [|by intros E0; rewrite E0 in Hin; apply elem_of_nil in Hin|done].
      destruct (2 * length (addresses a))%nat as [|k] eqn:Ek.
      { destruct (addresses a); [by apply elem_of_nil in Hin|done]. }
      cbn [replicate concat]. rewrite app_assoc, take_app_ge by (rewrite length_app, length_drop; lia).
      apply elem_of_app. left. apply elem_of_app. by right. }
    split; [by apply pick_addr_first|]. intros y. by apply pick_addr_first. }
  destruct His as [H1' H2']. destruct (IPAddress_FromString s) as [x|].
  - destruct (good _); [eauto|]. rewrite (pick_addr_more (2 * length (addresses a))) by (lia || auto). auto.
  - rewrite (pick_addr_more (2 * length (addresses a))) by (lia || auto). auto.
Qed.

Lemma pick_addr_ok fuel good f o a r a' :
  pick_addr fuel good f o a = Some (r, a') → addrs_ok a → addrs_ok a' ∧ addresses a' = addresses a.
Proof.
  revert f o a. induction fuel as [|fuel IH]; intros f o a E Ha; [done|]. cbn [pick_addr] in E.
  destruct (NextAddr_ok a Ha) as [Ha1 Ea1]. destruct (NextAddr a) as [s a1]. cbn [snd] in *.
  rewrite <- Ea1. case_decide; [by simplify_eq|]. case_decide; [by simplify_eq|].
  destruct (IPAddress_FromString s) as [x|]; [|by eapply IH]. destruct (good _); [by simplify_eq|]. by eapply IH.
Qed.

End loops.

(** ** Properties *)

Section properties.
Context `{SplitOk, InetOk, BoostCastOk, Net, CaseConv}.
Context (strerror : Z → str) (localEndpoint remoteEndpoint : Endpoint)
        (interfaces : result net_error (list (list IPAddress))) (NATAddr : str) (EPSVFxp_ : EPSVFxp).

(** The allocators of one kind in a state, and enough fuel for them *)
Definition alloc_inv (t : AddrType) (d : Data) : Prop := addrs_ok (addrs d t) ∧ ports_ok (ports d t).

Definition enough (t : AddrType) (d : Data) : nat := (addrs_fuel (addrs d t) + ports_fuel (ports d t))%nat.

(** Nothing is connected. *)
Definition closed (d : Data) : Prop := connected d = false ∧ tls d = None.

(** The port of an endpoint is a configured one. *)
Definition configured_port (t : AddrType) (d : Data) (p : Z) : Prop :=
  p ∈ all_ports (PortAllocator.ports (ports d t)) ∨ PortAllocator.ports (ports d t) = [] ∧ p = AnyPort.

Lemma at_type_same {A} t (x : A) f : at_type t x f t = x.
Proof. unfold at_type. by rewrite decide_True. Qed.

Lemma at_type_other {A} t u (x : A) f : u ≠ t → at_type t x f u = f u.
Proof. intros Hu. unfold at_type. by rewrite decide_False. Qed.

Ltac data_cbn := cbn [listener connected remote tls protection pasvType epsvMode dataType sscnMode
  restartOffset bytesRead bytesWrite xferType xferBytes addrs ports calls fxpRules tlsListing tlsFxp tlsData
  set_listener set_connected set_remote set_tls set_protection set_pasvType set_epsvMode set_dataType
  set_sscnMode set_restartOffset set_bytesWrite set_xferType set_xferBytes set_addrs set_ports set_calls
  set_fxpRules set_tlsListing set_tlsFxp set_tlsData close_socket close_listener].

(** Listening.  From allocators that were configured once and used since,
    the search for an address and a port ends, whatever the system answers: it
    tries no more than each address and each port twice.  Afterwards nothing
    is connected, and if it succeeds the session listens, on an endpoint that
    the system gave for one of the configured ports, and announces that
    endpoint or the NAT address with its port. *)
Lemma InitPassive_ends fuel pt d :
  alloc_inv PassiveAddr d → (enough PassiveAddr d ≤ fuel)%nat →
  ∃ r d', InitPassive localEndpoint interfaces NATAddr fuel pt d = Some (r, d') ∧
    alloc_inv PassiveAddr d' ∧ closed d' ∧
    match r with
    | Throw _ => True
    | Ok ep => ∃ a p n bound,
        configured_port PassiveAddr d p ∧ net_listen n (Endpoint_of a p) = Ok bound ∧
        listener d' = Some bound ∧ pasvType d' = pt ∧ announced NATAddr bound = Ok ep
    end.
Proof.
  intros [Ha Hp] Hf. unfold enough in Hf. unfold InitPassive.
  set (d0 := close_listener (close_socket d)).
  assert (E : is_Some (if bool_decide (pt ≠ EPSV) || bool_decide (epsvMode d0 = Extended)
    then pick_addr fuel (passive_good localEndpoint pt) [] None (addrs d0 PassiveAddr)
    else Some (Ok None, addrs d0 PassiveAddr))).
  { destruct (_ || _); [|eauto]. apply pick_addr_total; [done|]. change (addrs d0) with (addrs d). lia. }
  destruct E as [[r a] E]. rewrite E. cbn [mbind option_bind].
  assert (Ha' : addrs_ok a).
  { destruct (_ || _); [by eapply pick_addr_ok in E as [? _]|by injection E as _ <-]. }
  clear E. set (d1 := set_addrs _ d0).
  assert (Hd1 : alloc_inv PassiveAddr d1).
  { split; [|done]. unfold d1. data_cbn. by rewrite at_type_same. }
  destruct (match r with Ok picked => _ | Throw e => Throw e end) as [x|e];
    [|exists (Throw e), d1; repeat split; apply Hd1].
  destruct (try_ports_total fuel (listen_at x) (calls d1) (ports d1 PassiveAddr)) as [[[r2 n] p] E2];
    [apply Hd1|change (ports d1) with (ports d); lia|].
  rewrite E2. cbn [mbind option_bind]. apply try_ports_spec in E2 as (Hp2 & Ep2 & Hr2); [|apply Hd1].
  assert (Hall : ∀ d2, addrs d2 = addrs d1 → ports d2 = at_type PassiveAddr p (ports d1) → alloc_inv PassiveAddr d2).
  { intros d2 E1 E3. split; [rewrite E1; apply Hd1|]. by rewrite E3, at_type_same. }
  destruct r2 as [bound|e].
  - eexists _, _. split; [done|]. split; [by apply Hall|]. split; [done|].
    destruct (announced NATAddr bound) as [ep|] eqn:En; [|done].
    destruct Hr2 as (k & q & Eq & Hq). exists x, q, k, bound. repeat split; done.
  - eexists _, _. split; [done|]. split; [by apply Hall|]. by split.
Qed.

(** The same of [InitActive] *)
Lemma InitActive_ends fuel ep d :
  alloc_inv ActiveAddr d → (enough ActiveAddr d ≤ fuel)%nat →
  ∃ r d', InitActive fuel ep d = Some (r, d') ∧ alloc_inv ActiveAddr d' ∧ pasvType d' = Active ∧
    listener d' = None ∧ tls d' = None ∧ (connected d' = true ↔ r = Ok tt).
Proof.
  intros [Ha Hp] Hf. unfold enough in Hf. unfold InitActive.
  set (d0 := close_listener _).
  destruct (pick_addr_total fuel (λ a, bool_decide (family a = family (ip ep))) (addrs d0 ActiveAddr)) as [[r a] E];
    [done|change (addrs d0) with (addrs d); lia|].
  rewrite E. cbn [mbind option_bind]. apply pick_addr_ok in E as [Ha' _]; [|done].
  set (d1 := set_addrs _ d0).
  assert (Hd1 : alloc_inv ActiveAddr d1).
  { split; [|done]. unfold d1. data_cbn. by rewrite at_type_same. }
  destruct r as [picked|e]; [|eexists _, d1; split; [done|]; by repeat split].
  destruct (match picked with Some a0 => Some a0 | None => _ end) as [x|];
    [|eexists _, d1; split; [done|]; by repeat split].
  destruct (try_ports_total fuel (λ n p, net_connect n ep (Endpoint_of x p)) (calls d1) (ports d1 ActiveAddr))
    as [[[r2 n] p] E2]; [apply Hd1|change (ports d1) with (ports d); lia|].
  rewrite E2. cbn [mbind option_bind]. apply try_ports_spec in E2 as (Hp2 & _ & _); [|apply Hd1].
  assert (Hall : ∀ d2, addrs d2 = addrs d1 → ports d2 = at_type ActiveAddr p (ports d1) → alloc_inv ActiveAddr d2).
  { intros d2 E1 E3. split; [rewrite E1; apply Hd1|]. by rewrite E3, at_type_same. }
  destruct r2 as [peer|e]; eexists _, _; (split; [done|]); (split; [by apply Hall|]); by repeat split.
Qed.

Context (user : UserData) (GIDToName : Z → str).

Abbreviation Open := (Open remoteEndpoint user GIDToName).

(** The first rule whose ACL admits the user has the flag that the code looks at: the
    first flag of the rule, [downloads], for what is sent here, and the second,
    [uploads], for what is sent from here. *)
Definition fxp_licensed (t : TransferType) (rules : list (entry AllowFxpRule)) : Prop :=
  let admits (e : entry AllowFxpRule) := allowed (perms (acl e)) (User_ACLInfo user GIDToName) in
  ∃ before e after,
    rules = before ++ e :: after ∧ admits e ∧ Forall (λ e, ¬ admits e) before ∧
    (if decide (t = Upload_) then fxp_downloads (arg e) else fxp_uploads (arg e)) = true.

Lemma fxp_licensed_spec (t : TransferType) rules :
  coherent (User_ACLInfo user GIDToName) rules →
  fst (fst (if decide (t = Upload_) then AllowFxpReceive GIDToName user false rules
            else AllowFxpSend GIDToName user false rules)) = true ↔ fxp_licensed t rules.
Proof.
  intros Hc. pose proof (select_spec always always _ rules Hc) as Hs.
  unfold AllowFxpReceive, AllowFxpSend, AllowFxp, fxp_licensed. destruct (select _ _ _ rules) as [r l]. destruct Hs as (_ & _ & Hr).
  assert (Hf : ∀ a, r = Some a ↔ ∃ before e after, rules = before ++ e :: after ∧ arg e = a ∧
    allowed (perms (acl e)) (User_ACLInfo user GIDToName) ∧ Forall (λ e, ¬ allowed (perms (acl e)) (User_ACLInfo user GIDToName)) before).
  { intros a. rewrite Hr. unfold first_applies, rule_applies, always. split.
    - intros (b & ps & af & E & (_ & Ha & _) & Hb). apply fmap_app_inv in E as (b' & af0 & -> & E & ->). symmetry in E.
      apply fmap_cons_inv in E as (e & af' & E & -> & ->). exists b', e, af'. destruct e as [a' acl']. injection E as -> ->.
      split; [reflexivity|]. split; [reflexivity|]. split; [exact Ha|]. rewrite (Forall_fmap erase (λ r, ¬ (true = true ∧ allowed r.2 (User_ACLInfo user GIDToName) ∧ true = true))) in Hb.
      eapply Forall_impl; [exact Hb|]. cbn. naive_solver.
    - intros (b & e & af & -> & <- & Ha & Hb). exists (map erase b), (perms (acl e)), (map erase af).
      rewrite map_app. split; [reflexivity|]. split; [by split_and!|]. apply (Forall_fmap erase). eapply Forall_impl; [exact Hb|]. cbn. naive_solver. }
  split.
  - intros Hb0. destruct r as [a|]; [|by case_decide]. destruct (proj1 (Hf a) eq_refl) as (b & e & af & -> & <- & Ha & Hb).
    exists b, e, af. split_and!; [done..|]. by case_decide.
  - intros (b & e & af & -> & Ha & Hb & Hflag). destruct (Hf (arg e)) as [_ E]. rewrite E by (by exists b, e, af). by case_decide.
Qed.

Lemma open_connection_spec d r d' :
  open_connection d = (r, d') →
  xferType d' = xferType d ∧ protection d' = protection d ∧ fxpRules d' = fxpRules d ∧
  sscnMode d' = sscnMode d ∧ pasvType d' = pasvType d ∧ (r = Ok tt → connected d' = true).
Proof.
  unfold open_connection. repeat case_match; intros; simplify_eq; repeat split; try done.
Qed.

Lemma check_fxp_spec t d r d' :
  coherent (User_ACLInfo user GIDToName) (fxpRules d) → check_fxp remoteEndpoint user GIDToName t d = (r, d') →
  xferType d' = xferType d ∧ protection d' = protection d ∧ sscnMode d' = sscnMode d ∧ pasvType d' = pasvType d ∧
  remote d' = remote d ∧
  match r with
  | Ok _ => connected d' = connected d ∧ (t ≠ List_ → IsFXP remoteEndpoint d = true → fxp_licensed t (fxpRules d))
  | Throw _ => closed d' ∧ t ≠ List_ ∧ IsFXP remoteEndpoint d = true ∧ ¬ fxp_licensed t (fxpRules d)
  end.
Proof.
  intros Hc. pose proof (fxp_licensed_spec t (fxpRules d) Hc) as Hs. unfold check_fxp. destruct (bool_decide (t ≠ List_)) eqn:Et; cbn [andb].
  - apply bool_decide_eq_true in Et. destruct (IsFXP remoteEndpoint d) eqn:Ef; [|by intros [= <- <-]].
    destruct (if decide (t = Upload_) then _ else _) as [[ok l] rules]. cbn [fst] in Hs.
    destruct ok; intros [= <- <-]; split_and!; try done; [intros _ _; by apply Hs|by rewrite <-Hs].
  - apply bool_decide_eq_false in Et. intros [= <- <-]. repeat split; done.
Qed.

Lemma start_tls_spec t d r d' :
  start_tls t d = (r, d') →
  xferType d' = xferType d ∧ connected d' = connected d ∧ remote d' = remote d ∧ protection d' = protection d ∧
  (r = Ok tt → protection d = true → tls d' = Some (handshake_role t d)).
Proof.
  unfold start_tls. destruct (protection d) eqn:Ep; [|intros [= <- <-]; done].
  destruct (net_handshake _ _); intros [= <- <-]; data_cbn; done.
Qed.

(** What opening a connection leaves alone *)
Lemma open_step_keeps (f : Data → result data_error unit * Data) t d :
  (f = open_connection ∨ f = check_fxp remoteEndpoint user GIDToName t ∨ f = start_tls t) →
  dataType (snd (f d)) = dataType d ∧ restartOffset (snd (f d)) = restartOffset d ∧
  protection (snd (f d)) = protection d.
Proof.
  intros [->|[->| ->]]; unfold open_connection, check_fxp, start_tls;
    repeat (case_match; simplify_eq/=); done.
Qed.

Lemma Open_keeps t d :
  let d' := snd (Open t d) in
  dataType d' = dataType d ∧ restartOffset d' = restartOffset d ∧ protection d' = protection d.
Proof.
  unfold Data.Open.
  destruct (open_step_keeps open_connection t d) as (D1 & R1 & P1); [auto|].
  destruct (open_connection d) as [[[]|e] d1]; cbn [dbind fst snd] in *; [|done].
  destruct (open_step_keeps (check_fxp remoteEndpoint user GIDToName t) t d1) as (D2 & R2 & P2); [auto|].
  destruct (check_fxp _ _ _ t d1) as [[[]|e] d2]; cbn [dbind fst snd] in *; [|by rewrite D2, R2, P2].
  destruct (open_step_keeps (start_tls t) t d2) as (D3 & R3 & P3); [auto|].
  destruct (start_tls t d2) as [[[]|e] d3]; cbn [dbind fst snd] in *; repeat split; unfold state_Start; data_cbn; congruence.
Qed.

Lemma Open_started t d :
  fst (Open t d) = Ok tt → xferType (snd (Open t d)) = t ∧ xferBytes (snd (Open t d)) = 0.
Proof.
  unfold Data.Open. destruct (open_connection d) as [[[]|e] d1]; cbn [dbind fst snd]; [|done].
  destruct (check_fxp _ _ _ t d1) as [[[]|e] d2]; cbn [dbind fst snd]; [|done].
  by destruct (start_tls t d2) as [[[]|e] d3].
Qed.


(** A command during a transfer ends it.  When there is anything to read on
    the control connection no data is read or written: ABOR aborts the
    transfer, and every other command, STAT among them, is answered and then
    treated as a failure of the control connection. *)
Lemma control_ends_transfer d pollin pollhup cmd ready hup got wrote len :
  let p := PollEvents (Some (pollin, pollhup, cmd)) ready hup in
  let '(effects, r) := Read p got d in
  (∃ e, r = Throw e ∧
     (e = TransferAborted ↔ pollin = true ∧ cmd = Ok (lit "ABOR")) ∧
     (e = TransferAborted ∨ ∃ n, e = ControlError n)) ∧
  (pollin = true → cmd = Ok (lit "STAT") → ∃ text, effects = [Replied 213 text]) ∧
  ∃ e, Write p wrote len d = (effects, Throw e, d) ∧ r = Throw e.
Proof.
  cbv zeta. unfold Read, Write, poll_then, HandleControl.
  destruct pollin; [|split; [|split; [done|eauto]]].
  2: { eexists. split; [done|]. split; [|eauto]. split; [done|]. by intros [? _]. }
  destruct cmd as [s|e].
  2: { split; [|split; [done|eauto]]. eexists. split; [done|]. split; [|eauto]. split; [done|]. by intros [_ ?]. }
  destruct (decide (s = lit "ABOR")) as [->|Ha].
  { split; [|split; [done|eauto]]. eexists. split; [done|]. split; [done|]. by left. }
  assert (Hc : ∀ (e : data_error), (∃ n, e = ControlError n) →
    (e = TransferAborted ↔ true = true ∧ Ok (E := net_error) s = Ok (lit "ABOR")) ∧
    (e = TransferAborted ∨ ∃ n, e = ControlError n)).
  { intros e [n ->]. split; [|eauto]. split; [done|]. intros [_ [=]]. done. }
  destruct (decide (s = lit "QUIT")) as [->|Hq].
  { split; [|split; [done|eauto]]. eexists. split; [done|]. apply Hc. eauto. }
  destruct (decide (s = lit "STAT")) as [->|Hs].
  { split; [|split; [eauto|eauto]]. eexists. split; [done|]. apply Hc. eauto. }
  split; [|split; [|eauto]].
  - eexists. split; [done|]. apply Hc. eauto.
  - intros _ [= ->]. done.
Qed.

(** What the system says of a listener is the text-less endpoint of getsockname. *)
Definition listen_ok : Prop :=
  ∀ n e b, net_listen n e = Ok b → endpoint_ok b ∧ asString (ip b) = [].

Lemma Endpoint_of_ok a p : ip_ok a → 0 ≤ p ≤ 65535 → endpoint_ok (Endpoint_of a p).
Proof.
  intros (Hl & Hb & _) Hp. unfold Endpoint_of. split; [split; [done|]; split; [done|by left]|].
  cbn [ip addr port sa_addr sa_port]. rewrite ntohs_htons by done. auto using htons_ok.
Qed.

Lemma announced_ok bound ep :
  endpoint_ok bound → asString (ip bound) = [] → announced NATAddr bound = Ok ep →
  endpoint_ok ep ∧ "|"%char ∉ asString (ip ep).
Proof.
  intros Hb Ht. unfold announced. case_decide.
  - intros [= <-]. rewrite Ht. split; [done|]. apply not_elem_of_nil.
  - destruct (IPAddress_FromString NATAddr) as [a|] eqn:Ea; [|done]. intros [= <-]. split; [|apply not_elem_of_nil].
    apply Endpoint_of_ok; [by eapply FromString_ok|].
    destruct Hb as (_ & _ & Hp & ->). by apply ntohs_range.
Qed.

(** The reply [text] gives, between [open] and the closing parenthesis, an
    endpoint that a client reads as [ep] *)
Definition tells (open text : str) (from : str → result error Endpoint) (ep : Endpoint) : Prop :=
  ∃ s, text = open ++ s ++ lit ")" ∧ reads_back from s ep.

(** The passive commands tell the client where to connect.  When the reply
    to PASV or CPSV is 227, the text in its parentheses is read back, by the
    reader of PORT, as an endpoint that is equal to the one announced for the
    listener; so are the replies to LPSV and, in extended mode, to EPSV by the
    readers of LPRT and EPRT. *)
Lemma passive_reply_roundtrip fuel d d' code text :
  listen_ok → alloc_inv PassiveAddr d → (enough PassiveAddr d ≤ fuel)%nat →
  let announces from open := ∃ bound ep,
    listener d' = Some bound ∧ announced NATAddr bound = Ok ep ∧ tells open text from ep in
  let ended c := c = ([(code, text)], Returned, d') in
  (code = 227 →
   ended (PASVCommand strerror localEndpoint interfaces NATAddr fuel d) ∨
   ended (CPSVCommand strerror localEndpoint interfaces NATAddr fuel d) →
   announces EndpointFromPORT (lit "Entering passive mode (")) ∧
  (code = 228 → ended (LPSVCommand strerror localEndpoint interfaces NATAddr fuel d) →
   announces EndpointFromLPRT (lit "Entering passive mode (")) ∧
  (code = 229 → epsvMode d' = Extended →
   ended (EPSVCommand strerror localEndpoint interfaces NATAddr EPSVFxp_ fuel [lit "EPSV"] d) →
   announces EndpointFromEPRT (lit "Entering extended passive mode (")).
Proof.
  intros Hnet Hinv Hf announces ended.
  assert (Hgen : ∀ pt fails reply,
    passive_command strerror localEndpoint interfaces NATAddr fuel pt fails reply d = ([(code, text)], Returned, d') →
    code ≠ 425 →
    ∃ bound ep, listener d' = Some bound ∧ announced NATAddr bound = Ok ep ∧ endpoint_ok ep ∧
      "|"%char ∉ asString (ip ep) ∧ reply ep d' = ([(code, text)], Returned)).
  { intros pt fails reply E Hc. unfold passive_command in E.
    destruct (InitPassive_ends fuel pt d Hinv Hf) as (r & d2 & Ei & _ & _ & Hr). rewrite Ei in E.
    destruct r as [ep|e]; [|by injection E; intros; subst; destruct Hc].
    destruct Hr as (a & p & n & bound & _ & El & Hl & _ & Ha). destruct (Hnet _ _ _ El) as [Hb Ht].
    destruct (announced_ok _ _ Hb Ht Ha). injection E as E <-. exists bound, ep. auto 10. }
  subst ended announces. cbn beta. split_and!.
  - intros -> E. assert (E' : ∃ fails pt, passive_command strerror localEndpoint interfaces NATAddr fuel pt fails
      (reply_PORT strerror fails) d = ([(227, text)], Returned, d')) by (destruct E; eauto).
    destruct E' as (fails & pt & E'). destruct (Hgen _ _ _ E') as (bound & ep & Hl & Ha & Hok & Hbar & Er); [done|].
    exists bound, ep. split; [done|]. split; [done|]. unfold reply_PORT in Er.
    destruct (EndpointToPORT ep) as [s|e] eqn:Es; [|done]. injection Er as <-. exists s. split; [done|].
    by apply (port_strings_roundtrip ep Hok).
  - intros -> E. destruct (Hgen _ _ _ E) as (bound & ep & Hl & Ha & Hok & Hbar & Er); [done|].
    exists bound, ep. split; [done|]. split; [done|]. injection Er as <-. exists (EndpointToLPRT ep). split; [done|].
    by apply (port_strings_roundtrip ep Hok).
  - intros -> Hm E. destruct (Hgen _ _ _ E) as (bound & ep & Hl & Ha & Hok & Hbar & Er); [done|].
    exists bound, ep. split; [done|]. split; [done|]. rewrite bool_decide_eq_true_2 in Er by done.
    injection Er as <-. exists (EndpointToEPRT ep true). split; [done|]. by apply (port_strings_roundtrip ep Hok).
Qed.

End properties.

(** An allocator that is reconfigured while in use can hand out a port below
    every configured range once and never again; when all ports are in use the
    search then never ends. *)
Lemma stale_ports_loop fuel f t p0 n :
  0 < p0 < f → f ≤ t →
  try_ports (A := unit) fuel (λ _ _, Throw (NetworkSystemError EADDRINUSE)) None n
    (SetPorts [(f, t)] {| PortAllocator.ports := []; PortAllocator.it := 0; nextPort := p0 |}) = None.
Proof.
  intros Hp Hft.
  assert (Hloop : ∀ fuel n q, p0 < q →
    try_ports (A := unit) fuel (λ _ _, Throw (NetworkSystemError EADDRINUSE)) (Some p0) n
      {| PortAllocator.ports := [(f, t)]; PortAllocator.it := 0; nextPort := q |} = None).
  { clear fuel n. induction fuel as [|fuel IH]; intros n q Hq; [done|]. cbn [try_ports].
    unfold NextPort. cbn [PortAllocator.ports PortAllocator.nextPort].
    rewrite decide_False by lia. cbn. destruct (Z.leb_spec q t).
    - cbn [mbind option_bind]. rewrite decide_False by (intros [= ?]; lia). apply IH. lia.
    - rewrite (proj2 (Z.leb_le f t)) by lia. cbn [mbind option_bind].
      rewrite decide_False by (intros [= ?]; lia). apply IH. lia. }
  destruct fuel as [|fuel]; [done|]. cbn [try_ports]. unfold NextPort, SetPorts.
  cbn [PortAllocator.ports PortAllocator.nextPort]. rewrite decide_False by lia. cbn.
  rewrite (proj2 (Z.leb_le p0 t)) by lia. apply Hloop. lia.
Qed.

(** ** An example *)

Module Example.

#[local] Existing Instances ref_split ref_split_ok ref_inet ref_inet_ok ref_cast ref_cast_ok ref_case.

Definition localhost (p : list Z) : Endpoint :=
  {| addr := {| sa_addr := [127; 0; 0; 1]; sa_port := p |};
     ip := {| data := [127; 0; 0; 1]; family := IPv4; asString := [] |}; port := ntohs p |}.

(** The first port asked for is in use, and the second attempt succeeds. *)
Definition net : Net := {|
  net_listen n e := if decide (n = 0%nat) then Throw (NetworkSystemError EADDRINUSE)
                    else Ok (localhost (htons (port e)));
  net_connect n e l := Ok (localhost (htons (port e)));
  net_accept n e := Ok (localhost (htons 40000));
  net_handshake n r := Ok tt
|}.
#[local] Existing Instance net.

Definition no_addrs : AddrAllocator := {| addresses := [lit "127.0.0.1"]; AddrAllocator.it := 0 |}.

Definition d0 : Data :=
  MkData None false (localhost (htons 0)) None false Active Normal Binary SSCN_Server 0 0 0 NoTransfer 0
    (λ _, no_addrs) (λ _, SetPorts [(6000, 6001)] new) 0 [] empty_ACL empty_ACL empty_ACL.

Lemma localhost_ok p : port_ok p → endpoint_ok (localhost p).
Proof.
  intros Hp. split; [split; [done|]; split; [|by left]|split; [done|by split]].
  apply (bool_decide_unpack (Forall (λ b, 0 ≤ b ≤ 255) _)). vm_compute. exact I.
Qed.

Lemma net_ok : listen_ok.
Proof.
  intros n e b. cbn. case_decide; [done|]. intros [= <-]. split; [|done]. apply localhost_ok, htons_ok.
Qed.

Lemma d0_inv t : alloc_inv t d0.
Proof.
  split; [unfold addrs_ok; cbn; lia|]. apply SetPorts_ok. repeat constructor; unfold range_ok; cbn; lia.
Qed.

Definition listened : Data :=
  Eval vm_compute in
    match InitPassive (localhost (htons 21)) (Ok []) [] 20 PASV d0 with Some (_, d) => d | None => d0 end.

End Example.

Import Example.
#[local] Existing Instances ref_split ref_split_ok ref_inet ref_inet_ok ref_cast ref_cast_ok ref_case net.

Lemma InitPassive_ends_example :
  alloc_inv PassiveAddr d0 ∧
  ∃ r d', InitPassive (localhost (htons 21)) (Ok []) [] 20 PASV d0 = Some (r, d') ∧
    alloc_inv PassiveAddr d' ∧ r = Ok (localhost (htons 6001)).
Proof.
  split; [apply d0_inv|].
  destruct (InitPassive_ends (localhost (htons 21)) (Ok []) [] 20 PASV d0
    (d0_inv PassiveAddr) ltac:(vm_compute; lia)) as (r & d' & E & Hinv & _).
  exists r, d'. split; [exact E|]. split; [exact Hinv|]. vm_compute in E. injection E as <- _. reflexivity.
Defined.

(** A download opened on that listener *)
Definition opened : result data_error unit * Data :=
  Open (localhost (htons 21)) (default_UserData 0) (λ _, []) Download_ listened.


Definition pasv_text : str := lit "Entering passive mode (127,0,0,1,23,113)".

Definition pasv_run : command := PASVCommand (λ _, []) (localhost (htons 21)) (Ok []) [] 20 d0.

Lemma passive_reply_roundtrip_example :
  fst pasv_run = ([(227, pasv_text)], Returned) ∧
  ∃ bound ep, listener (snd pasv_run) = Some bound ∧ announced [] bound = Ok ep ∧
    tells (lit "Entering passive mode (") pasv_text EndpointFromPORT ep.
Proof.
  assert (E : pasv_run = ([(227, pasv_text)], Returned, snd pasv_run)) by (vm_compute; reflexivity).
  split; [by rewrite E|].
  exact (proj1 (passive_reply_roundtrip (λ _, []) (localhost (htons 21)) (Ok []) [] EPSV_Allow 20 d0 (snd pasv_run)
    227 pasv_text net_ok (d0_inv PassiveAddr) ltac:(vm_compute; lia)) eq_refl (or_introl E)).
Defined.
