(* ===== verification/Credits.v ===== *)
(** * Credits: db/user/user.cpp

    The kilobytes a user may download, per section.  An update of the
    database, one atomic findAndModify, is one step; that [IncrCredits] runs in
    a task of its own is not modelled. *)

From stdpp Require Import prelude gmap strings.
From S2P Require Import Prelude.
Local Open Scope Z_scope.
Local Open Scope list_scope.

(** The value of a section, if the user has an entry for it *)
Abbreviation Credits := (gmap str Z).

Definition IncrCredits (section : str) (kBytes : Z) (c : Credits) : Credits :=
  match c !! section with
  | Some v => <[section := v + kBytes]> c
  | None => <[section := kBytes]> c
  end.

Definition DecrCredits (section : str) (kBytes : Z) (force : bool) (c : Credits) : bool * Credits :=
  if kBytes =? 0 then (true, c)
  else
    match c !! section with
    | Some v =>
        if force || (kBytes <=? v) then (true, <[section := v - kBytes]> c) else (force, c)
    | None => (force, c)
    end.

(** A decrement that is refused leaves the credits alone. *)
Lemma DecrCredits_refused s k c c' : DecrCredits s k false c = (false, c') → c' = c.
Proof. unfold DecrCredits. repeat case_match; naive_solver. Qed.

Lemma DecrCredits_spec s k force c v :
  c !! s = Some v → (force = true ∨ fst (DecrCredits s k force c) = true) →
  snd (DecrCredits s k force c) = <[s := v - k]> c ∧ (force = false → k = 0 ∨ k ≤ v).
Proof.
  intros Hc Hf. unfold DecrCredits in *. rewrite Hc in *. destruct (Z.eqb_spec k 0) as [->|Hk].
  - rewrite Z.sub_0_r, insert_id by done. auto.
  - destruct force; cbn [orb fst snd] in *; [done|]. destruct (Z.leb_spec k v); cbn [fst snd] in *; [auto|].
    by destruct Hf.
Qed.

(** Taking credits from an entry and giving them back *)
Lemma IncrCredits_DecrCredits s k c v : c !! s = Some v → IncrCredits s k (snd (DecrCredits s k true c)) = c.
Proof.
  intros Hc. destruct (DecrCredits_spec s k true c v Hc) as [-> _]; [by left|].
  unfold IncrCredits. rewrite lookup_insert_eq, insert_insert_eq. rewrite insert_id; [done|]. rewrite Hc. f_equal. lia.
Qed.

(** Without an entry nothing is taken, although the answer is yes. *)
Lemma DecrCredits_no_entry s k c : c !! s = None → DecrCredits s k true c = (true, c).
Proof. intros Hc. unfold DecrCredits. rewrite Hc. by destruct (k =? 0). Qed.
