(* ===== verification/Transfer.v ===== *)
(** * Transfers: cmd/rfc/retr.cpp, cmd/rfc/stor.cpp

    RETR and STOR from the argument to the last reply: the counters of
    simultaneous transfers, weekly allotment and credits, the data connection,
    the loop over blocks, the ways it can stop, and the scope guards that clean
    up.  The disk and the network are scripts of events; statistics and the
    transfer log are recorded.  The theorems say what a transfer costs or
    earns, that the counters are always released, what must hold before a byte
    is sent, and what is left of an uploaded file. *)

From stdpp Require Import prelude gmap strings.
From S2P Require Import Prelude CxxString Numbers Counters Acl UserData User Path Rights Settings Policies Control Config Crc32 NetFtp Data Credits.
Local Open Scope Z_scope.
Local Open Scope list_scope.

(** ** State *)

(** What the command works on: the data connection, the credits of the user,
    the counter of transfers in this direction, the configured credit rules, the
    replies, whether the session was told to finish, the statistics recorded
    (kilobytes and section), the transfer log (kilobytes and success), the bytes
    written to the data connection, the contents of the file uploaded to, its
    checksum, and the local variable [fileOkay] of STOR. *)
Record X := MkX {
  conn : Data;
  credits : Credits;
  counter : Totals;
  creditRules : list CreditRule;
  replies : list (Z * str);
  finished : bool;
  stats : list (Z * str);
  transferLog : list (Z * bool);
  wire : str;
  file : option str;
  crc : N;
  fileOkay : bool
}.

Definition set_conn v (x : X) : X :=
  MkX v (credits x) (counter x) (creditRules x) (replies x) (finished x) (stats x)
    (transferLog x) (wire x) (file x) (crc x) (fileOkay x).

Definition set_credits v (x : X) : X :=
  MkX (conn x) v (counter x) (creditRules x) (replies x) (finished x) (stats x) (transferLog
    x) (wire x) (file x) (crc x) (fileOkay x).

Definition set_counter v (x : X) : X :=
  MkX (conn x) (credits x) v (creditRules x) (replies x) (finished x) (stats x) (transferLog
    x) (wire x) (file x) (crc x) (fileOkay x).

Definition set_creditRules v (x : X) : X :=
  MkX (conn x) (credits x) (counter x) v (replies x) (finished x) (stats x) (transferLog x)
    (wire x) (file x) (crc x) (fileOkay x).

Definition set_replies v (x : X) : X :=
  MkX (conn x) (credits x) (counter x) (creditRules x) v (finished x) (stats x) (transferLog
    x) (wire x) (file x) (crc x) (fileOkay x).

Definition set_finished v (x : X) : X :=
  MkX (conn x) (credits x) (counter x) (creditRules x) (replies x) v (stats x) (transferLog
    x) (wire x) (file x) (crc x) (fileOkay x).

Definition set_stats v (x : X) : X :=
  MkX (conn x) (credits x) (counter x) (creditRules x) (replies x) (finished x) v
    (transferLog x) (wire x) (file x) (crc x) (fileOkay x).

Definition set_transferLog v (x : X) : X :=
  MkX (conn x) (credits x) (counter x) (creditRules x) (replies x) (finished x) (stats x) v
    (wire x) (file x) (crc x) (fileOkay x).

Definition set_wire v (x : X) : X :=
  MkX (conn x) (credits x) (counter x) (creditRules x) (replies x) (finished x) (stats x)
    (transferLog x) v (file x) (crc x) (fileOkay x).

Definition set_file v (x : X) : X :=
  MkX (conn x) (credits x) (counter x) (creditRules x) (replies x) (finished x) (stats x)
    (transferLog x) (wire x) v (crc x) (fileOkay x).

Definition set_crc v (x : X) : X :=
  MkX (conn x) (credits x) (counter x) (creditRules x) (replies x) (finished x) (stats x)
    (transferLog x) (wire x) (file x) v (fileOkay x).

Definition set_fileOkay v (x : X) : X :=
  MkX (conn x) (credits x) (counter x) (creditRules x) (replies x) (finished x) (stats x)
    (transferLog x) (wire x) (file x) (crc x) v.


(** ** Commands as computations that may throw *)

(** [NoPostScriptError]; the network error of the control connection, rethrown;
    what the code asserts does not happen *)
Inductive exit : Type := NoPostScript | Rethrow (e : net_error) | Undefined_.

Definition M (A : Type) : Type := X → result exit A * X.

Definition ret {A} (a : A) : M A := λ x, (Ok a, x).
Definition throw {A} (e : exit) : M A := λ x, (Throw e, x).
Definition bind {A B} (m : M A) (k : A → M B) : M B := λ x,
  match m x with (Ok a, x) => k a x | (Throw e, x) => (Throw e, x) end.
Definition gets {A} (f : X → A) : M A := λ x, (Ok (f x), x).
Definition modify (f : X → X) : M unit := λ x, (Ok tt, f x).

(** [MakeScopeExit]: [g] runs when the rest [m] of the scope is left, and is told
    whether an exception is on its way. *)
Definition finally {A} (g : bool → X → X) (m : M A) : M A := λ x,
  let '(r, x) := m x in (r, g (match r with Ok _ => false | Throw _ => true end) x).

Declare Scope xfer_scope.
Delimit Scope xfer_scope with xfer.
Notation "x '<-' m ';;' k" := (bind m (λ x, k)) (at level 100, m at next level, right associativity) : xfer_scope.
Notation "m ';;;' k" := (bind m (λ _, k)) (at level 100, right associativity) : xfer_scope.
Local Open Scope xfer_scope.

Definition reply (code : Z) (text : str) : M unit := modify (λ x, set_replies (replies x ++ [(code, text)]) x).

(** A reply and [throw cmd::NoPostScriptError()] *)
Definition deny {A} (code : Z) (text : str) : M A := reply code text;;; throw NoPostScript.

(** [if (b) m] *)
Definition when (b : bool) (m : M unit) : M unit := if b then m else ret tt.

Definition on_conn (f : Data → Data) (x : X) : X := set_conn (f (conn x)) x.

Definition record_stats (kBytes : Z) (section : str) (x : X) : X := set_stats (stats x ++ [(kBytes, section)]) x.

(** ** The loops over the blocks *)

(** How a loop stops *)
Inductive Stop_ : Type :=
  | Complete
  | Aborted
  | TooSlow
  | DiskFailure (what : str)
  | NetFailure (e : net_error)
  | ControlFailure (e : net_error)
  | AssertStop.

(** The [catch] clause an exception of the data connection goes to *)
Definition stop_of (e : data_error) : Stop_ :=
  match e with
  | NetErr e => NetFailure e
  | ControlError e => ControlFailure e
  | TransferAborted => Aborted
  | AssertFailed => AssertStop
  end.

(** The effects of commands that arrived during the transfer *)
Definition apply_effects (l : list control_effect) (x : X) : X :=
  foldl (λ x e, match e with
                | Replied code text => set_replies (replies x ++ [(code, text)]) x
                | SessionFinished => set_finished true x
                end) x l.

(** A read of the file: a block, with what poll(2) and the write to the data
    connection answer and whether the transfer has been too slow; the end of the
    file, which may be incomplete; a failure.  [fin->read] gives at least one
    byte. *)
Inductive read_event : Type :=
  | ReadBlock (bytes : str) (polled : poll_result) (wrote : result net_error unit) (slow : bool)
  | ReadEnd (incomplete : bool)
  | ReadFailure (what : str).

(** The bytes on the wire of a block read from the file *)
Definition transcode_RETR (t : DataType) (bytes : str) : str :=
  match t with ASCII => LFtoCRLF bytes | Binary => bytes end.

(** The bytes in the file of a block that arrives; not on Windows *)
Definition transcode_STOR (t : DataType) (bytes : str) : str :=
  match t with ASCII => CRLFtoLF bytes | Binary => bytes end.

(** The loop of RETR; without further events the file has ended. *)
Fixpoint RETR_loop (dlIncomplete : bool) (events : list read_event) (x : X) : Stop_ * X :=
  match events with
  | [] => (Complete, x)
  | ReadFailure what :: _ => (DiskFailure what, x)
  | ReadEnd incomplete :: events =>
      if negb dlIncomplete || negb incomplete then (Complete, x) else RETR_loop dlIncomplete events x
  | ReadBlock bytes polled wrote slow :: events =>
      let x := on_conn (state_Update (Z.of_nat (length bytes))) x in
      let bufp := transcode_RETR (dataType (conn x)) bytes in
      let '(effects, r, d) := Write polled wrote (Z.of_nat (length bufp)) (conn x) in
      let x := apply_effects effects (set_conn d x) in
      match r with
      | Throw e => (stop_of e, x)
      | Ok _ =>
          let x := set_wire (wire x ++ bufp) x in
          if slow then (TooSlow, x) else RETR_loop dlIncomplete events x
      end
  end.

(** A read of the data connection: what poll(2) and the read answer, whether the
    write to the file fails, where the buffer is, and whether the transfer has
    been too slow *)
Record arrival := Arrival {
  polled : poll_result; got : result net_error str; disk : option str; address : N; slow : bool
}.

(** The loop of STOR; without further arrivals the other side has closed. *)
Fixpoint STOR_loop (calcCrc : bool) (arrivals : list arrival) (x : X) : Stop_ * X :=
  match arrivals with
  | [] => (Complete, x)
  | a :: arrivals =>
      let '(effects, r) := Read (polled a) (got a) (conn x) in
      let x := apply_effects effects x in
      match r with
      | Throw (NetErr EndOfStream) => (Complete, x)
      | Throw e => (stop_of e, x)
      | Ok bytes =>
          let bufp := transcode_STOR (dataType (conn x)) bytes in
          let x := on_conn (state_Update (Z.of_nat (length bufp))) x in
          match disk a with
          | Some what => (DiskFailure what, x)
          | None =>
              let x := set_file (f ← file x; Some (f ++ bufp)) x in
              match (if calcCrc then crc32 (address a) (map N_of_ascii bufp) (crc x) else Some (crc x)) with
              | None => (AssertStop, x)
              | Some c =>
                  let x := set_crc c x in
                  if slow a then (TooSlow, x) else STOR_loop calcCrc arrivals x
              end
          end
      end
  end.

(** ** RETR *)

Section commands.
Context `{Split, CaseConv, Fnmatch, Net}.
Context (remoteEndpoint : Endpoint) (user : UserData) (GIDToName : Z → str) (strerror : Z → str).
(** The uid, the limit of [sim_xfers] for this direction; the path, how it is
    shown, and its section; whether the right [nostats] is granted; the texts of
    the speed of the transfer *)
Context (uid maxGlobal : Z) (path pretty : str) (section : option SectionDef) (nostats : bool) (speed : str).

(** [section ? section->Name() : ""] *)
Definition section_name : str := match section with Some s => s_name s | None => [] end.

(** The section whose credits are used *)
Definition credits_section : str :=
  match section with Some s => if separateCredits s then s_name s else [] | None => [] end.

Definition section_info : option SectionInfo :=
  match section with Some s => Some (s_name s, s_ratio s) | None => None end.

(** [switch (Counter::...().Start(...))] *)
Definition start_counter (limit : Z) (personal global : str) : M unit :=
  r <- (λ x, let '(r, c) := TransferCounter.Start maxGlobal uid limit (HasFlag user Exempt) (counter x) in
             (Ok r, set_counter c x));;
  match r with
  | PersonalFail => deny 550 personal
  | GlobalFail => deny 550 global
  | Okay => ret tt
  end.

Definition stop_counter (_ : bool) (x : X) : X := set_counter (Stop uid (counter x)) x.

(** [data.Open] and the reply when it throws a [NetworkError] *)
Definition open_data (t : TransferType) (failed : X → X) : M unit :=
  r <- (λ x, let '(r, d) := Open remoteEndpoint user GIDToName t (conn x) in (Ok r, set_conn d x));;
  match r with
  | Ok _ => ret tt
  | Throw (NetErr e) =>
      modify failed;;; deny 425 (lit "Unable to open data connection: " ++ net_message strerror e)
  | Throw _ => throw Undefined_
  end.

(** [!data.ProtectionOkay()] *)
Definition protection_ok : M bool := λ x,
  let '(r, d) := ProtectionOkay remoteEndpoint user GIDToName (conn x) in (Ok r, set_conn d x).

Definition tls_text : M str :=
  fxp <- gets (λ x, IsFXP remoteEndpoint (conn x));;
  ret (lit "TLS is enforced on " ++ (if fxp : bool then lit "FXP" else lit "data") ++ lit " transfers.").

(** The text of the reply 150 *)
Definition opening_text (direction size : str) (d : Data) : str :=
  lit "Opening " ++ (match dataType d with ASCII => lit "ASCII" | Binary => lit "BINARY" end) ++
  lit " connection for " ++ direction ++ lit " of " ++ pretty ++ size ++
  (if protection d then lit " using TLS/SSL" else []) ++ lit ".".

(** The log of the transfer, when it is configured *)
Definition log_guard (configured throwing : bool) (x : X) : X :=
  if configured then set_transferLog (transferLog x ++ [(Z.quot (xferBytes (conn x)) 1024, negb throwing)]) x else x.

(** What the [catch] clauses make of the end of a loop: [true] when the transfer
    was aborted; [reading] and [writing] are their words. *)
Definition caught (disk_text net_text : str) (s : Stop_) : M bool :=
  match s with
  | Complete => ret false
  | Aborted | TooSlow => ret true
  | DiskFailure what => deny 426 (disk_text ++ what)
  | NetFailure e => deny 426 (net_text ++ net_message strerror e)
  | ControlFailure e => throw (Rethrow e)
  | AssertStop => throw Undefined_
  end.

(** [CheckWeeklyAllotment]; [downloaded] is what the database says. *)
Definition CheckWeeklyAllotment (downloaded size : Z) : option bool :=
  let allotment := SectionWeeklyAllotment user section_name in
  if allotment <=? 0 then None else Some (downloaded + Z.quot size 1024 <? allotment).

(** [errmsg[0] = std::toupper(errmsg[0])] *)
Definition upper_first (s : str) : str := match s with c :: s' => ascii_upper c :: s' | [] => [] end.

(** What is asked of the disk and the configuration in the course of a RETR:
    whether the file opens, its size (or the message of a failed seek and what
    the variable then holds), the reads, the setting [ascii_downloads], the
    kilobytes downloaded this week, whether the path is in a free directory,
    [dl_incomplete] and whether downloads are logged. *)
Record RETR_env := {
  opened_file : result str unit; seek : result (str * Z) Z; reads : list read_event;
  asciiDownloads : AsciiDownloads; downloaded : Z; freefile : bool; dlIncomplete : bool; logDownloads : bool
}.

(** Taking the credits; the result is the ratio. *)
Definition take_credits (e : RETR_env) (size : Z) : M Z :=
  r <- (λ x, let '(r, l) := DownloadRatio GIDToName (freefile e) user path section_info (creditRules x) in
             (Ok r, set_creditRules l x));;
  ok <- (λ x, let '(ok, c) := DecrCredits credits_section (Z.quot size 1024 * r) false (credits x) in
              (Ok ok, set_credits c x));;
  if ok : bool then ret r else deny 550 (lit "Not enough credits to download that file.").

(** The guard of the data connection, which settles the credits *)
Definition RETR_data_guard (ratio : option Z) (size : Z) (_ : bool) (x : X) : X :=
  let x := if decide (xferType (conn x) = NoTransfer) then x
           else let x := on_conn Close x in record_stats (Z.quot (xferBytes (conn x)) 1024) [] x in
  match ratio with
  | None => x
  | Some ratio =>
      let bytes := xferBytes (conn x) in
      if bytes <? size then
        set_credits (IncrCredits credits_section (Z.quot (size - bytes) 1024 * ratio) (credits x)) x
      else if size <? bytes then
        set_credits (snd (DecrCredits credits_section ((bytes - size) * ratio) true (credits x))) x
      else x
  end.

(** From the reads to the last reply *)
Definition RETR_transfer (e : RETR_env) : M unit :=
  s <- (λ x, let '(s, x) := RETR_loop (dlIncomplete e) (reads e) x in (Ok s, x));;
  aborted <- caught (lit "Error while reading from disk: ") (lit "Error while writing to data connection: ") s;;
  modify (on_conn Close);;;
  modify (λ x, record_stats (Z.quot (xferBytes (conn x)) 1024)
                 (if match section with None => true | Some _ => nostats end then [] else section_name) x);;;
  if aborted : bool then deny 226 (lit "Transfer aborted @ " ++ speed)
  else reply 226 (lit "Transfer finished @ " ++ speed).

Definition RETRCommand (e : RETR_env) : M unit :=
  offset <- gets (λ x, restartOffset (conn x));;
  t <- gets (λ x, dataType (conn x));;
  if (0 <? offset) && bool_decide (t = ASCII)
  then deny 503 (lit "Resume not supported on ASCII data type.") else
  start_counter (maxSimDown user)
    (lit "You have reached your maximum of " ++ to_string (maxSimDown user) ++ lit " simultaneous download(s).")
    (lit "The server has reached it's maximum number of simultaneous downloads.");;;
  finally stop_counter
  (match opened_file e with
   | Throw what => deny 550 (lit "Unable to open file: " ++ what)
   | Ok _ =>
       size <- match seek e with
               | Ok size => if size <? offset
                            then deny 554 (lit "Restart offset larger than file size.") else ret size
               | Throw (what, size) => reply 451 (upper_first what);;; ret size
               end;;
       if bool_decide (t = ASCII) && negb (AsciiDownloads_Allowed (asciiDownloads e) size (Basename path))
       then deny 550 (lit "File can't be downloaded in ASCII, change to BINARY.") else
       ratio <- match CheckWeeklyAllotment (downloaded e) size with
                | Some false => deny 550 (lit "Not enough allotment left to download that file.")
                | Some true => ret None
                | None => r <- take_credits e size;; ret (Some r)
                end;;
       (d <- gets conn;;
        reply 150 (opening_text (lit "download") (lit " (" ++ to_string size ++ lit " bytes)") d));;;
       open_data Download_ (λ x, x);;;
       finally (RETR_data_guard ratio size)
       (ok <- protection_ok;;
        if negb ok then (text <- tls_text;; deny 522 text) else
        finally (log_guard (logDownloads e)) (RETR_transfer e))
   end).

(** ** STOR *)

(** What is asked of the disk, the configuration and the scripts in the course
    of a STOR: the file name filter, the pre-check, [ascii_uploads], whether the
    file can be created or appended to (and if not, whether [AppendFile] has cut it by
    then), the text about a dupe, the arrivals, the
    answer of [CalcCRC], whether uploads are logged, whether the file can be
    deleted, the result of chmod, and the answer of the post-check to a
    checksum *)
Record STOR_env := {
  filtered : error; precheck : bool; asciiUploads : list str; opened_sink : result (bool * error) unit; dupe : str;
  arrivals : list arrival; calcCrc : bool; logUploads : bool; deletable : bool; chmod_result : error;
  postcheck : str → bool
}.

(** [DeleteFile] *)
Definition delete_file (e : STOR_env) (x : X) : X := if deletable e then set_file None x else x.

(** [CreateFile] and [AppendFile]: what they leave in the file *)
Definition sink_contents (offset : Z) (old : option str) : option str :=
  if 0 <? offset then (f ← old; Some (take (Z.to_nat offset) f)) else Some [].

Definition open_sink (e : STOR_env) (offset : Z) : M unit :=
  match opened_sink e with
  | Ok _ => modify (λ x, set_file (sink_contents offset (file x)) x)
  | Throw (cut, err) =>
      when (cut && (0 <? offset)) (modify (λ x, set_file (sink_contents offset (file x)) x));;;
      if (offset =? 0) && bool_decide (err = FailureErrno EEXIST) then deny 553 (dupe e)
      else deny 550 (lit "Unable to " ++ (if 0 <? offset then lit "append" else lit "create") ++
                     lit " file: " ++ err_message strerror err)
  end.

Definition STOR_data_guard (_ : bool) (x : X) : X :=
  if decide (xferType (conn x) = NoTransfer) then x
  else
    let x := on_conn Close x in
    if 0 <? xferBytes (conn x) then record_stats (Z.quot (xferBytes (conn x)) 1024) [] x else x.

(** The end of a complete upload *)
Definition STOR_finish (e : STOR_env) : M unit :=
  sum <- gets crc;;
  if postcheck e (if calcCrc e then HexString sum else lit "000000") then
    modify (set_fileOkay true);;;
    modify (λ x, record_stats (Z.quot (xferBytes (conn x)) 1024)
                   (if match section with None => true | Some _ => nostats end then [] else section_name) x);;;
    r <- (λ x, let '(r, l) := UploadRatio GIDToName user path section_info (creditRules x) in
               (Ok r, set_creditRules l x));;
    modify (λ x, set_credits (IncrCredits credits_section (Z.quot (xferBytes (conn x)) 1024 * r) (credits x)) x)
  else ret tt.

(** From the arrivals to the last reply *)
Definition STOR_transfer (e : STOR_env) : M unit :=
  modify (λ x, set_fileOkay false (set_crc 0%N x));;;
  s <- (λ x, let '(s, x) := STOR_loop (calcCrc e) (arrivals e) x in (Ok s, x));;
  aborted <- caught (lit "Error while writing to disk: ") (lit "Error while reading from data connection: ") s;;
  modify (on_conn Close);;;
  when (negb (err_ok (chmod_result e)))
    (reply 226 (lit "Failed to chmod upload: " ++ err_message strerror (chmod_result e)));;;
  if aborted : bool then deny 226 (lit "Transfer aborted @ " ++ speed)
  else STOR_finish e;;; reply 226 (lit "Transfer finished @ " ++ speed).

(** The guard of the file *)
Definition file_guard (e : STOR_env) (_ : bool) (x : X) : X := if fileOkay x then x else delete_file e x.

Definition STORCommand (e : STOR_env) : M unit :=
  offset <- gets (λ x, restartOffset (conn x));;
  t <- gets (λ x, dataType (conn x));;
  if negb (err_ok (filtered e))
  then deny 550 (lit "File name contains one or more invalid characters.") else
  if (0 <? offset) && bool_decide (t = ASCII)
  then deny 503 (lit "Resume not supported on ASCII data type.") else
  if negb (precheck e) then throw NoPostScript else
  start_counter (maxSimUp user)
    (lit "You have reached your maximum of " ++ to_string (maxSimUp user) ++ lit " simultaneous uploads(s).")
    (lit "The server has reached it's maximum number of simultaneous uploads.");;;
  finally stop_counter
  (if bool_decide (t = ASCII) && negb (AsciiUploads_Allowed (asciiUploads e) path)
   then deny 550 (lit "File can't be uploaded in ASCII, change to BINARY.") else
   open_sink e offset;;;
   modify (set_fileOkay (0 <? offset));;;
   finally (file_guard e)
   ((d <- gets conn;; reply 150 (opening_text (lit "upload") [] d));;;
    open_data Upload_ (λ x, if restartOffset (conn x) =? 0 then delete_file e x else x);;;
    finally STOR_data_guard
    (ok <- protection_ok;;
     if negb ok then (text <- tls_text;; reply 522 text) else
     finally (log_guard (logUploads e)) (STOR_transfer e)))).

End commands.

(** ** Reasoning about commands *)

(** [holds m x Q]: the run of [m] from [x] ends with a result and a state that [Q]
    allows. *)
Definition holds {A} (m : M A) (x : X) (Q : result exit A → X → Prop) : Prop :=
  Q (fst (m x)) (snd (m x)).

Lemma holds_run {A} (m : M A) x Q r x' : holds m x Q → m x = (r, x') → Q r x'.
Proof. unfold holds. intros H E. by rewrite E in H. Qed.

Lemma holds_conseq {A} (m : M A) x (P Q : result exit A → X → Prop) :
  holds m x P → (∀ r x', P r x' → Q r x') → holds m x Q.
Proof. unfold holds. auto. Qed.

Lemma holds_bind {A B} (m : M A) (k : A → M B) x Q :
  holds m x (λ r x1, match r with Ok a => holds (k a) x1 Q | Throw e => Q (Throw e) x1 end) →
  holds (bind m k) x Q.
Proof. unfold holds, bind. by destruct (m x) as [[a|e] x1]. Qed.

Lemma holds_finally {A} g (m : M A) x Q :
  holds m x (λ r x1, Q r (g (match r with Ok _ => false | Throw _ => true end) x1)) →
  holds (finally g m) x Q.
Proof. unfold holds, finally. by destruct (m x) as [r x1]. Qed.

Lemma holds_reply code text x Q :
  Q (Ok tt) (set_replies (replies x ++ [(code, text)]) x) → holds (reply code text) x Q.
Proof. done. Qed.

Lemma holds_deny {A} code text x (Q : result exit A → X → Prop) :
  Q (Throw NoPostScript) (set_replies (replies x ++ [(code, text)]) x) → holds (deny code text) x Q.
Proof. done. Qed.

(** [m] leaves the part [f] of the state alone, whatever happens. *)
Definition keeps {A B} (f : X → B) (m : M A) : Prop := ∀ x, f (snd (m x)) = f x.

Lemma keeps_bind {A B C} (f : X → C) (m : M A) (k : A → M B) :
  keeps f m → (∀ a, keeps f (k a)) → keeps f (bind m k).
Proof.
  intros Hm Hk x. unfold bind. specialize (Hm x). destruct (m x) as [[a|e] x1]; [|done].
  rewrite Hk. exact Hm.
Qed.

Lemma keeps_finally {A B} (f : X → B) g (m : M A) :
  (∀ b x, f (g b x) = f x) → keeps f m → keeps f (finally g m).
Proof. intros Hg Hm x. unfold finally. specialize (Hm x). destruct (m x) as [r x1]. cbn. by rewrite Hg. Qed.

Lemma keeps_holds {A B} (f : X → B) (m : M A) x : keeps f m → holds m x (λ _ x', f x' = f x).
Proof. intros Hm. apply Hm. Qed.

(** [keeps] goes through the structure of a command; what is left are updates of
    other parts of the state. *)
Ltac keeps_step :=
  lazymatch goal with
  | |- keeps _ (bind _ _) => apply keeps_bind; [|intros ?]
  | |- keeps _ (deny _ _) => intros ?; reflexivity
  | |- keeps _ (reply _ _) => intros ?; reflexivity
  | |- keeps _ (ret _) => intros ?; reflexivity
  | |- keeps _ (throw _) => intros ?; reflexivity
  | |- keeps _ (gets _) => intros ?; reflexivity
  | |- keeps _ (modify _) => intros ?; try reflexivity
  | |- keeps _ (if ?b then _ else _) => destruct b
  | |- keeps _ (match ?o with _ => _ end) => destruct o
  | |- keeps _ (when ?b _) => unfold when
  end.
Ltac keeps := repeat keeps_step.

(** A step [λ x, let '(r, v) := f x in (Ok r, set v x)] *)
Lemma keeps_update {A B C} (f : X → C) (g : X → A * B) (upd : B → X → X) :
  (∀ v x, f (upd v x) = f x) → keeps f (λ x, let '(r, v) := g x in (Ok r, upd v x)).
Proof. intros Hu x. cbv beta. destruct (g x). apply Hu. Qed.

(** ** The loops *)

(** What a loop changes: replies, the end of the session, the wire, the bytes
    counted and, for an upload, the file and its checksum *)
Definition frame (x x' : X) : Prop :=
  ∃ n w r f fl c, x' = set_conn (set_xferBytes n (conn x))
    (set_wire w (set_replies r (set_finished f (set_file fl (set_crc c x))))).

Lemma frame_refl x : frame x x.
Proof. destruct x as [[]]. by repeat eexists. Qed.

Lemma frame_trans x y z : frame x y → frame y z → frame x z.
Proof. intros (n & w & r & f & fl & c & ->) (n' & w' & r' & f' & fl' & c' & ->). by repeat eexists. Qed.

Lemma frame_Update n x : frame x (on_conn (state_Update n) x).
Proof. destruct x as [[]]. by repeat eexists. Qed.

Lemma apply_effects_spec l x : ∃ r f, apply_effects l x = set_replies r (set_finished f x).
Proof.
  unfold apply_effects. revert x. induction l as [|e l IH]; intros x; cbn [foldl].
  - destruct x. by repeat eexists.
  - destruct e; match goal with |- context [foldl _ ?y l] => destruct (IH y) as (r & f & ->) end;
      by repeat eexists.
Qed.

Lemma frame_effects l x : frame x (apply_effects l x).
Proof. destruct (apply_effects_spec l x) as (r & f & ->).
  exists (xferBytes (conn x)), (wire x), r, f, (file x), (crc x). by destruct x as [[]]. Qed.

Lemma Write_conn p wrote len d : xferType d ≠ List_ → snd (Write p wrote len d) = d.
Proof.
  intros Ht. unfold Write. destruct (poll_then p wrote d) as [effects [u|e]]; cbn [snd]; [|done].
  by rewrite decide_False.
Qed.

(** The blocks of a file before its end, or before reading fails *)
Fixpoint blocks_read (dlIncomplete : bool) (events : list read_event) : list str :=
  match events with
  | [] | ReadFailure _ :: _ => []
  | ReadEnd incomplete :: events =>
      if negb dlIncomplete || negb incomplete then [] else blocks_read dlIncomplete events
  | ReadBlock bytes _ _ _ :: events => bytes :: blocks_read dlIncomplete events
  end.

(** The blocks that arrive before the connection is closed or something happens
    on the control connection *)
Fixpoint blocks_got (l : list arrival) : list str :=
  match l with
  | Arrival (PollEvents None true _) (Ok bytes) _ _ _ :: l => bytes :: blocks_got l
  | _ => []
  end.

(** The other side closes the connection, and until then nothing goes wrong: no poll
    or read fails, nothing comes on the control connection, every block is written to the
    file, and the transfer is never too slow. *)
Fixpoint ends_well (l : list arrival) : bool :=
  match l with
  | [] => true
  | a :: l =>
      match polled a with
      | PollEvents None ready hup =>
          if ready then
            match got a with
            | Ok _ => bool_decide (disk a = None) && negb (slow a) && ends_well l
            | Throw EndOfStream => true
            | Throw _ => false
            end
          else hup
      | _ => false
      end
  end.

Definition total (l : list str) : Z := Z.of_nat (length (concat l)).

Lemma total_cons b l : total (b :: l) = Z.of_nat (length b) + total l.
Proof. unfold total. cbn [concat]. rewrite length_app. lia. Qed.

(** What a download has sent when its loop stops, and what it has counted: a block
    is counted before it is written. *)
Definition sent_blocks (dl : bool) (events : list read_event) (s : Stop_) (x x' : X) : Prop :=
  ∃ k j,
    wire x' = wire x ++ concat (map (transcode_RETR (dataType (conn x))) (take k (blocks_read dl events))) ∧
    xferBytes (conn x') = xferBytes (conn x) + total (take j (blocks_read dl events)) ∧
    (k ≤ j ≤ S k)%nat ∧ (s = Complete → take k (blocks_read dl events) = blocks_read dl events ∧ j = k).

Lemma stop_of_Complete e : stop_of e ≠ Complete.
Proof. by destruct e. Qed.

Lemma sent_none dl events s x x' :
  wire x' = wire x → conn x' = conn x → (s = Complete → blocks_read dl events = []) →
  sent_blocks dl events s x x'.
Proof.
  intros Ew Ec Hs. exists 0%nat, 0%nat. rewrite take_0. cbn [map concat]. rewrite app_nil_r, Ew, Ec.
  split; [done|]. split; [unfold total; cbn; lia|]. split; [lia|]. intros E. by rewrite Hs.
Qed.

Lemma RETR_loop_spec dl events x s x' :
  RETR_loop dl events x = (s, x') → xferType (conn x) ≠ List_ →
  frame x x' ∧ file x' = file x ∧ sent_blocks dl events s x x'.
Proof.
  revert x. induction events as [|ev events IH]; intros x E Ht; cbn [RETR_loop] in E.
  { injection E as <- <-. split; [apply frame_refl|]. split; [done|]. by apply sent_none. }
  destruct ev as [bytes polled wrote slow|incomplete|what].
  - set (x1 := on_conn (state_Update (Z.of_nat (length bytes))) x) in E.
    assert (Ht1 : xferType (conn x1) ≠ List_) by done.
    assert (B1 : xferBytes (conn x1) = xferBytes (conn x) + Z.of_nat (length bytes)) by done.
    pose proof (Write_conn polled wrote (Z.of_nat (length (transcode_RETR (dataType (conn x1)) bytes))) (conn x1) Ht1) as Hw.
    destruct (Write polled wrote _ (conn x1)) as [[effects r] d]. cbn [snd] in Hw. subst d.
    destruct (apply_effects_spec effects (set_conn (conn x1) x1)) as (rs & fs & Ee). rewrite Ee in E.
    set (x2 := set_replies rs _) in E.
    assert (F1 : frame x x2 ∧ file x2 = file x ∧ wire x2 = wire x ∧ conn x2 = conn x1).
    { split; [|done]. unfold x2. rewrite <- Ee. eapply frame_trans; [apply frame_Update|].
      replace (set_conn (conn x1) x1) with x1 by (by destruct x). apply frame_effects. }
    destruct F1 as (F1 & L1 & W1 & C1). clearbody x2. clear Ee.
    destruct r as [u|e].
    2: { injection E as <- E. rewrite <- E. clear E. split; [exact F1|]. split; [exact L1|].
         exists 0%nat, 1%nat. cbn [firstn map concat blocks_read]. rewrite !take_0. cbn [map concat]. rewrite app_nil_r, total_cons, C1, B1.
         split; [done|]. split; [unfold total; cbn; lia|]. split; [lia|]. intros Hc.
         by apply stop_of_Complete in Hc. }
    set (x3 := set_wire _ x2) in E.
    assert (F3 : frame x x3).
    { eapply frame_trans; [exact F1|]. exists (xferBytes (conn x2)), (wire x3), (replies x2), (finished x2), (file x2), (crc x2).
      unfold x3. by destruct x2 as [[]]. }
    assert (W3 : wire x3 = wire x ++ transcode_RETR (dataType (conn x)) bytes).
    { unfold x3. cbn [wire set_wire]. by rewrite W1. }
    assert (C3 : conn x3 = conn x1 ∧ file x3 = file x) by (split; [exact C1|exact L1]). clearbody x3. destruct C3 as [C3 L3].
    destruct slow.
    + injection E as <- E. rewrite <- E. clear E. split; [exact F3|]. split; [exact L3|]. exists 1%nat, 1%nat.
      cbn [firstn map concat blocks_read]. rewrite !take_0. cbn [map concat]. rewrite app_nil_r, total_cons, C3, B1.
      split; [done|]. split; [unfold total; cbn; lia|]. split; [lia|]. done.
    + apply IH in E as (F4 & L4 & k & j & W4 & B4 & Hkj & Hc); [|by rewrite C3].
      split; [by eapply frame_trans|]. split; [congruence|]. exists (S k), (S j).
      cbn [firstn map concat blocks_read]. rewrite total_cons, W4, B4, W3, C3, B1, <- app_assoc.
      split; [done|]. split; [lia|]. split; [lia|]. intros Hs. destruct (Hc Hs) as [-> ->]. done.
  - cbn [blocks_read]. destruct (negb dl || negb incomplete) eqn:Ei.
    + injection E as <- <-. split; [apply frame_refl|]. split; [done|]. apply sent_none; [done..|].
      intros _. cbn [blocks_read]. by rewrite Ei.
    + apply IH in E as (F & L & k & j & Hs); [|done]. split; [done|]. split; [done|]. exists k, j.
      cbn [blocks_read]. by rewrite Ei.
  - injection E as <- <-. split; [apply frame_refl|]. split; [done|]. by apply sent_none.
Qed.

(** What an upload has stored when its loop stops, and the checksum of it *)
Definition stored_blocks (calcCrc : bool) (l : list arrival) (s : Stop_) (x x' : X) : Prop :=
  ∃ bs, bs `prefix_of` blocks_got l ∧
    let data := concat (map (transcode_STOR (dataType (conn x))) bs) in
    file x' = (f ← file x; Some (f ++ data)) ∧
    crc x' = (if calcCrc then crc_ref (crc x) (map N_of_ascii data) else crc x) ∧
    (s = Complete → bs = blocks_got l ∧
       xferBytes (conn x') = xferBytes (conn x) + Z.of_nat (length data)).

Lemma crc_ref_nil c : crc_ref c [] = c.
Proof. unfold crc_ref. cbn. apply not32_involutive. Qed.

Lemma stored_none b l s x x' :
  file x' = file x → crc x' = crc x → (s = Complete → blocks_got l = [] ∧ conn x' = conn x) →
  stored_blocks b l s x x'.
Proof.
  intros Ef Ec Hs. exists []. split; [apply prefix_nil|]. cbn. rewrite Ef, Ec.
  split; [by destruct (file x); cbn; rewrite ?app_nil_r|]. split; [destruct b; by rewrite ?crc_ref_nil|].
  intros E. destruct (Hs E) as [-> ->]. split; [done|]. lia.
Qed.

(** What a read of the connection gives, but for the effects of commands *)
Lemma Read_blocks a l d effects r :
  Read (polled a) (got a) d = (effects, r) →
  match r with
  | Ok bytes => blocks_got (a :: l) = bytes :: blocks_got l ∧ effects = []
  | Throw e => blocks_got (a :: l) = []
  end.
Proof.
  destruct a as [p g k n sl]. unfold Read, poll_then. cbn [polled got]. destruct p as [|e|[[[i h] c]|] ready hup].
  - by intros [= <- <-].
  - by intros [= <- <-].
  - destruct (HandleControl i h c d). by intros [= <- <-].
  - destruct ready; [|by intros [= <- <-]]. destruct g; by intros [= <- <-].
Qed.

Lemma STOR_loop_spec b l x s x' :
  STOR_loop b l x = (s, x') → u32 (crc x) →
  frame x x' ∧ wire x' = wire x ∧ stored_blocks b l s x x'.
Proof.
  revert x. induction l as [|a l IH]; intros x E Hu; cbn [STOR_loop] in E.
  { injection E as <- <-. split; [apply frame_refl|]. split; [done|]. by apply stored_none. }
  destruct (Read (polled a) (got a) (conn x)) as [effects r] eqn:Er. apply (Read_blocks a l) in Er.
  destruct r as [bytes|e].
  2: { destruct (apply_effects_spec effects x) as (rs & fs & Ee). pose proof (frame_effects effects x) as F1.
       rewrite Ee in *. assert (Hs : x' = set_replies rs (set_finished fs x))
         by (destruct e as [[]| | |]; injection E as _ <-; done).
       rewrite Hs. split; [exact F1|]. split; [done|]. by apply stored_none. }
  destruct Er as [Eb ->]. change (apply_effects [] x) with x in E.
  set (data := transcode_STOR (dataType (conn x)) bytes) in E.
  set (x1 := on_conn (state_Update (Z.of_nat (length data))) x) in E.
  assert (F1 : frame x x1) by apply frame_Update.
  assert (B1 : xferBytes (conn x1) = xferBytes (conn x) + Z.of_nat (length data)) by done.
  assert (P1 : wire x1 = wire x ∧ file x1 = file x ∧ crc x1 = crc x ∧ dataType (conn x1) = dataType (conn x)) by done.
  clearbody x1. destruct P1 as (W1 & L1 & C1 & D1).
  destruct (disk a) as [what|].
  { injection E as <- <-. split; [exact F1|]. split; [exact W1|].
    exists []. split; [apply prefix_nil|]. cbn. rewrite L1, C1.
    split; [by destruct (file x); cbn; rewrite ?app_nil_r|]. split; [destruct b; by rewrite ?crc_ref_nil|done]. }
  assert (Hcrc : (if b then crc32 (address a) (map N_of_ascii data) (crc (set_file (f ← file x1; Some (f ++ data)) x1))
      else Some (crc (set_file (f ← file x1; Some (f ++ data)) x1))) =
      Some (if b then crc_ref (crc x) (map N_of_ascii data) else crc x)).
  { cbn [crc set_file]. rewrite C1. destruct b; [|done]. by rewrite crc32_crc by (done || apply u8_of_ascii). }
  rewrite Hcrc in E. clear Hcrc. set (x2 := set_crc _ _) in E.
  assert (P2 : wire x2 = wire x ∧ file x2 = (f ← file x; Some (f ++ data)) ∧ conn x2 = conn x1 ∧
               crc x2 = (if b then crc_ref (crc x) (map N_of_ascii data) else crc x)).
  { unfold x2. cbn [wire file conn crc set_crc set_file]. by rewrite L1. }
  assert (F2 : frame x x2).
  { eapply frame_trans; [exact F1|].
    exists (xferBytes (conn x1)), (wire x1), (replies x1), (finished x1), (file x2), (crc x2).
    unfold x2. by destruct x1 as [[]]. }
  clearbody x2. destruct P2 as (W2 & L2 & C2 & R2).
  destruct (slow a).
  { injection E as <- E. rewrite <- E. clear E. split; [exact F2|]. split; [exact W2|].
    exists [bytes]. rewrite Eb. split; [apply prefix_cons, prefix_nil|]. cbn [map concat].
    rewrite app_nil_r. fold data. split; [exact L2|]. split; [exact R2|]. done. }
  apply IH in E as (F3 & W3 & bs & Hbs & L3 & R3 & Hc).
  2: { rewrite R2. destruct b; [|done]. apply crc_ref_u32; [done|apply u8_of_ascii]. }
  split; [by eapply frame_trans|]. split; [congruence|]. exists (bytes :: bs). rewrite Eb.
  split; [by apply prefix_cons|]. cbn [map concat]. fold data. rewrite C2, D1 in L3, R3, Hc.
  split.
  { rewrite L3, L2. destruct (file x); cbn; [|done]. by rewrite app_assoc. }
  split.
  { rewrite R3, R2. destruct b; [|done]. by rewrite crc_ref_app, map_app. }
  intros Hs. destruct (Hc Hs) as [-> ->]. split; [done|]. rewrite B1, length_app. lia.
Qed.

Lemma STOR_loop_Complete b l x s x' :
  STOR_loop b l x = (s, x') → u32 (crc x) → (s = Complete ↔ ends_well l = true).
Proof.
  revert x. induction l as [|[p g k n sl] l IH]; intros x E Hu; cbn [STOR_loop ends_well polled got disk address slow] in *.
  { by injection E as <- _. }
  unfold Read, poll_then in E. destruct p as [|e|[[[i h] c]|] ready hup].
  - by injection E as <- _.
  - by injection E as <- _.
  - destruct (HandleControl i h c (conn x)) as [effects e] eqn:Ec.
    assert (He : ∀ e', e ≠ NetErr e').
    { unfold HandleControl in Ec. repeat case_match; by simplify_eq. }
    destruct e as [e'| | |]; [by destruct (He e')|by injection E as <- _..].
  - destruct ready; [|by destruct hup; injection E as <- _].
    destruct g as [bytes|e]; [|by destruct e; injection E as <- _].
    destruct k as [what|]; [by injection E as <- _|].
    destruct (if b then _ else _) as [v|] eqn:Ev in E.
    2: { destruct b; [|done]. rewrite crc32_crc in Ev; [done|exact Hu|apply u8_of_ascii]. }
    assert (Hv : u32 v).
    { destruct b; [|by injection Ev as <-]. rewrite crc32_crc in Ev; [|exact Hu|apply u8_of_ascii].
      injection Ev as <-. apply crc_ref_u32; [exact Hu|apply u8_of_ascii]. }
    destruct sl; [by injection E as <- _|]. rewrite bool_decide_eq_true_2 by done. by apply IH in E.
Qed.

(** ** RETR *)

Section proofs.
Context `{Split, CaseConv, Fnmatch, Net}.
Context (remoteEndpoint : Endpoint) (user : UserData) (GIDToName : Z → str) (strerror : Z → str).
Context (uid maxGlobal : Z) (path pretty : str) (section : option SectionDef) (nostats : bool) (speed : str).

Abbreviation RETR := (RETRCommand remoteEndpoint user GIDToName strerror uid maxGlobal path pretty section nostats speed).
Abbreviation STOR := (STORCommand remoteEndpoint user GIDToName strerror uid maxGlobal path pretty section nostats speed).
Abbreviation csection := (credits_section section).

Lemma ProtectionOkay_conn d :
  let d' := snd (ProtectionOkay remoteEndpoint user GIDToName d) in
  xferType d' = xferType d ∧ xferBytes d' = xferBytes d ∧ dataType d' = dataType d ∧ protection d' = protection d ∧
  restartOffset d' = restartOffset d.
Proof. unfold ProtectionOkay. cbv zeta. repeat case_match; done. Qed.

Lemma frame_fields x x' :
  frame x x' → counter x' = counter x ∧ credits x' = credits x ∧ creditRules x' = creditRules x ∧ stats x' = stats x ∧
  transferLog x' = transferLog x ∧ fileOkay x' = fileOkay x ∧ xferType (conn x') = xferType (conn x) ∧
  dataType (conn x') = dataType (conn x) ∧ restartOffset (conn x') = restartOffset (conn x).
Proof. intros (n & w & r & f & fl & c & ->). done. Qed.

(** The credits once a download of [n] of [size] bytes is settled *)
Definition settle (ratio : option Z) (size n : Z) (c : Credits) : Credits :=
  match ratio with
  | None => c
  | Some ratio =>
      if n <? size then IncrCredits csection (Z.quot (size - n) 1024 * ratio) c
      else if size <? n then snd (DecrCredits csection ((n - size) * ratio) true c) else c
  end.

(** What the guard of the data connection leaves *)
Lemma RETR_data_guard_spec ratio size b x :
  let x' := RETR_data_guard section ratio size b x in
  counter x' = counter x ∧ wire x' = wire x ∧ xferBytes (conn x') = xferBytes (conn x) ∧
  xferType (conn x') = NoTransfer ∧ credits x' = settle ratio size (xferBytes (conn x)) (credits x).
Proof.
  cbv zeta. unfold RETR_data_guard, settle. case_decide as Ht.
  - destruct ratio; [|done]. case_match; [done|]. case_match; done.
  - set (y := record_stats _ _ _).
    assert (Hy : counter y = counter x ∧ wire y = wire x ∧ xferBytes (conn y) = xferBytes (conn x) ∧
      xferType (conn y) = NoTransfer ∧ credits y = credits x) by done.
    clearbody y. destruct Hy as (? & ? & Hb & ? & Hc). destruct ratio; [|by rewrite Hc]. rewrite Hb, <- Hc.
    case_match; [done|]. case_match; done.
Qed.

Lemma log_guard_spec b t x :
  let x' := log_guard b t x in
  counter x' = counter x ∧ wire x' = wire x ∧ conn x' = conn x ∧ credits x' = credits x ∧ file x' = file x ∧
  fileOkay x' = fileOkay x ∧ crc x' = crc x.
Proof. unfold log_guard. by destruct b. Qed.

(** [RETR_transfer]: what was sent and counted when it returns or throws *)
Definition sent_of (e : RETR_env) (done : bool) (x x' : X) : Prop :=
  ∃ k j,
    wire x' = wire x ++ concat (map (transcode_RETR (dataType (conn x))) (take k (blocks_read (dlIncomplete e) (reads e)))) ∧
    xferBytes (conn x') = xferBytes (conn x) + total (take j (blocks_read (dlIncomplete e) (reads e))) ∧
    (k ≤ j ≤ S k)%nat ∧
    (done = true → take k (blocks_read (dlIncomplete e) (reads e)) = blocks_read (dlIncomplete e) (reads e) ∧ j = k).

Lemma RETR_transfer_spec e x :
  xferType (conn x) ≠ List_ →
  holds (RETR_transfer strerror section nostats speed e) x (λ r x',
    counter x' = counter x ∧ credits x' = credits x ∧
    sent_of e (match r with Ok _ => true | Throw _ => false end) x x').
Proof.
  intros Ht. unfold RETR_transfer. apply holds_bind. unfold holds at 1.
  destruct (RETR_loop (dlIncomplete e) (reads e) x) as [s x1] eqn:E. cbn [fst snd].
  apply RETR_loop_spec in E as (F & _ & k & j & Hw & Hb & Hkj & Hc); [|done].
  apply frame_fields in F as (Fc & Fr & _).
  assert (Hsent : ∀ done y, wire y = wire x1 → xferBytes (conn y) = xferBytes (conn x1) →
    (done = true → s = Complete) → sent_of e done x y).
  { intros d y Ew Eb Hd. exists k, j. rewrite Ew, Eb. split; [done|]. split; [done|]. split; [done|]. auto. }
  apply holds_bind. destruct s; unfold holds at 1; cbn [caught ret deny bind reply modify throw fst snd];
    (split; [done|]; split; [done|]; by apply Hsent).
Qed.

(** The part of RETR behind [data.Open] *)
Definition RETR_opened (e : RETR_env) (ratio : option Z) (size : Z) : M unit :=
  finally (RETR_data_guard section ratio size)
    (bind (protection_ok remoteEndpoint user GIDToName) (λ ok,
     if negb ok then bind (tls_text remoteEndpoint) (λ text, deny 522 text)
     else finally (log_guard (logDownloads e)) (RETR_transfer strerror section nostats speed e))).

Lemma RETR_opened_spec e ratio size x :
  xferType (conn x) ≠ List_ →
  holds (RETR_opened e ratio size) x (λ r x',
    counter x' = counter x ∧ credits x' = settle ratio size (xferBytes (conn x')) (credits x) ∧
    xferType (conn x') = NoTransfer ∧ sent_of e (match r with Ok _ => true | Throw _ => false end) x x' ∧
    (wire x' ≠ wire x → fst (ProtectionOkay remoteEndpoint user GIDToName (conn x)) = true)).
Proof.
  intros Ht. unfold RETR_opened. apply holds_finally, holds_bind. unfold holds at 1, protection_ok.
  pose proof (ProtectionOkay_conn (conn x)) as (T & B & D & _). cbv zeta in *.
  destruct (ProtectionOkay remoteEndpoint user GIDToName (conn x)) as [ok d]. cbn [fst snd] in *.
  set (x1 := set_conn d x).
  assert (P1 : counter x1 = counter x ∧ credits x1 = credits x ∧ wire x1 = wire x ∧ conn x1 = d) by done.
  clearbody x1. destruct P1 as (C1 & R1 & W1 & N1). destruct ok; cbn [negb].
  - apply holds_finally. eapply holds_conseq; [apply RETR_transfer_spec; congruence|].
    intros r x' (C' & R' & k & j & W' & B' & Hkj & Hd). cbv beta.
    set (b := match r with Ok _ => false | Throw _ => true end).
    pose proof (log_guard_spec (logDownloads e) b x') as (LC & LW & LN & LR & _). cbv zeta in *.
    pose proof (RETR_data_guard_spec ratio size b (log_guard (logDownloads e) b x')) as (GC & GW & GB & GT & GR).
    cbv zeta in *. split; [congruence|]. split; [rewrite GR, GB, LN, LR; congruence|]. split; [done|].
    split; [|done]. exists k, j. rewrite GW, LW, GB, LN, W', B', N1, D, W1, B. done.
  - unfold holds, bind, tls_text, deny. cbn [gets ret reply modify throw fst snd bind].
    set (x2 := set_replies _ x1).
    assert (P2 : counter x2 = counter x1 ∧ credits x2 = credits x1 ∧ wire x2 = wire x1 ∧ conn x2 = conn x1) by done.
    clearbody x2. destruct P2 as (C2 & R2 & W2 & N2).
    pose proof (RETR_data_guard_spec ratio size true x2) as (GC & GW & GB & GT & GR). cbv zeta in *.
    split; [congruence|]. split; [rewrite GR, GB; congruence|]. split; [done|]. split; [|congruence].
    exists 0%nat, 0%nat. rewrite take_0. cbn [map concat]. rewrite app_nil_r, GW, GB, N2, N1, B.
    split; [congruence|]. split; [unfold total; cbn; lia|]. split; [lia|done].
Qed.

(** The counter once a transfer was asked for *)
Definition started (limit : Z) (x : X) : CounterResult * Totals :=
  TransferCounter.Start maxGlobal uid limit (HasFlag user Exempt) (counter x).

Lemma start_counter_spec limit p g x :
  holds (start_counter user uid maxGlobal limit p g) x (λ r x', ∃ rs,
    x' = set_replies rs (set_counter (snd (started limit x)) x) ∧
    match r with Ok _ => fst (started limit x) = Okay ∧ rs = replies x | Throw _ => fst (started limit x) ≠ Okay end).
Proof.
  unfold start_counter, started. apply holds_bind. unfold holds at 1.
  destruct (TransferCounter.Start maxGlobal uid limit (HasFlag user Exempt) (counter x)) as [r c]. cbn [fst snd].
  destruct r; unfold holds; cbn; eexists; (split; [reflexivity|done]).
Qed.

Lemma open_data_spec t failed x :
  (∀ y, wire (failed y) = wire y ∧ counter (failed y) = counter y ∧ credits (failed y) = credits y) →
  holds (open_data remoteEndpoint user GIDToName strerror t failed) x (λ r x',
    wire x' = wire x ∧ counter x' = counter x ∧ credits x' = credits x ∧
    match r with
    | Ok _ => fst (Open remoteEndpoint user GIDToName t (conn x)) = Ok tt ∧
              x' = set_conn (snd (Open remoteEndpoint user GIDToName t (conn x))) x
    | Throw _ => fst (Open remoteEndpoint user GIDToName t (conn x)) ≠ Ok tt
    end).
Proof.
  intros Hf. unfold open_data. apply holds_bind. unfold holds at 1.
  destruct (Open remoteEndpoint user GIDToName t (conn x)) as [r d]. cbn [fst snd].
  destruct r as [[]|[e|e| |]]; try by unfold holds.
  unfold holds. cbn. destruct (Hf (set_conn d x)) as (-> & -> & ->). done.
Qed.

(** What RETR checks before it opens the data connection: the [size] is that of
    the file, and [ratio] is what the download costs, if not an allotment. *)
Record admitted (e : RETR_env) (x : X) (size : Z) (ratio : option Z) : Prop := {
  adm_file : opened_file e = Ok tt;
  adm_size : (seek e = Ok size ∧ restartOffset (conn x) ≤ size) ∨ ∃ what, seek e = Throw (what, size);
  adm_ascii : dataType (conn x) = ASCII →
    restartOffset (conn x) ≤ 0 ∧ AsciiDownloads_Allowed (asciiDownloads e) size (Basename path) = true;
  adm_counter : fst (started (maxSimDown user) x) = Okay;
  adm_credits :
    match ratio with
    | None => CheckWeeklyAllotment user section (downloaded e) size = Some true
    | Some r =>
        CheckWeeklyAllotment user section (downloaded e) size = None ∧
        r = fst (DownloadRatio GIDToName (freefile e) user path (section_info section) (creditRules x)) ∧
        fst (DecrCredits csection (Z.quot size 1024 * r) false (credits x)) = true
    end
}.

(** The credits after the price of the whole file is taken *)
Definition charged (ratio : option Z) (size : Z) (c : Credits) : Credits :=
  match ratio with
  | None => c
  | Some r => snd (DecrCredits csection (Z.quot size 1024 * r) false c)
  end.

Abbreviation Open_RETR x := (Open remoteEndpoint user GIDToName Download_ (conn x)).

(** The three ends of a RETR that was not refused by the counter *)
Inductive RETR_end (e : RETR_env) (x : X) (r : result exit unit) (x' : X) : Prop :=
  | RETR_refused :
      wire x' = wire x → credits x' = credits x → r ≠ Ok tt → RETR_end e x r x'
  | RETR_not_opened size ratio :
      admitted e x size ratio → fst (Open_RETR x) ≠ Ok tt →
      wire x' = wire x → credits x' = charged ratio size (credits x) → r ≠ Ok tt → RETR_end e x r x'
  | RETR_sent size ratio :
      admitted e x size ratio → fst (Open_RETR x) = Ok tt →
      credits x' = settle ratio size (xferBytes (conn x')) (charged ratio size (credits x)) →
      xferType (conn x') = NoTransfer →
      (wire x' ≠ wire x → fst (ProtectionOkay remoteEndpoint user GIDToName (snd (Open_RETR x))) = true) →
      (∃ k j, let bs := blocks_read (dlIncomplete e) (reads e) in
         wire x' = wire x ++ concat (map (transcode_RETR (dataType (conn x))) (take k bs)) ∧
         xferBytes (conn x') = total (take j bs) ∧ (k ≤ j ≤ S k)%nat ∧
         (r = Ok tt → take k bs = bs ∧ j = k)) →
      RETR_end e x r x'.

Lemma holds_gets {A B} (f : X → A) (k : A → M B) x Q : holds (k (f x)) x Q → holds (bind (gets f) k) x Q.
Proof. done. Qed.

(** Taking the credits of the whole file *)
Lemma take_credits_spec e size x :
  holds (take_credits user GIDToName path section e size) x (λ r x', 
    wire x' = wire x ∧ counter x' = counter x ∧ conn x' = conn x ∧
    match r with
    | Ok ratio =>
        ratio = fst (DownloadRatio GIDToName (freefile e) user path (section_info section) (creditRules x)) ∧
        fst (DecrCredits csection (Z.quot size 1024 * ratio) false (credits x)) = true ∧
        credits x' = charged (Some ratio) size (credits x)
    | Throw _ => credits x' = credits x
    end).
Proof.
  unfold take_credits. apply holds_bind. unfold holds at 1.
  destruct (DownloadRatio GIDToName (freefile e) user path (section_info section) (creditRules x)) as [ratio l].
  cbn [fst snd]. apply holds_bind. unfold holds at 1.
  cbn [credits set_creditRules]. set (kb := Z.quot size 1024 * ratio).
  destruct (DecrCredits csection kb false (credits x)) as [ok c] eqn:Ed. destruct ok.
  - unfold holds. cbn. unfold charged. fold kb. by rewrite Ed.
  - apply DecrCredits_refused in Ed. unfold holds. cbn. by subst c.
Qed.

Lemma RETR_spec e x :
  holds (RETR e) x (λ r x',
    (∀ bag, represents (counter x) bag → represents (counter x') bag) ∧ RETR_end e x r x').
Proof.
  unfold RETRCommand. apply holds_gets, holds_gets. set (offset := restartOffset (conn x)). set (t := dataType (conn x)).
  destruct ((0 <? offset) && bool_decide (t = ASCII)) eqn:Eo.
  { apply holds_deny. split; [by intros|]. by apply RETR_refused. }
  apply holds_bind. eapply holds_conseq; [apply start_counter_spec|]. intros r0 x1 (rs & E1 & Hr0).
  assert (P1 : counter x1 = snd (started (maxSimDown user) x) ∧ credits x1 = credits x ∧ wire x1 = wire x ∧
    conn x1 = conn x ∧ creditRules x1 = creditRules x) by (rewrite E1; done).
  clear E1. destruct P1 as (C1 & R1 & W1 & N1 & L1).
  pose proof (TransferCounter_Start_represents maxGlobal uid (maxSimDown user) (HasFlag user Exempt) (counter x)) as Hstart.
  fold (started (maxSimDown user) x) in Hstart. destruct r0 as [[]|err].
  2: { split.
       - intros bag Hbag. specialize (Hstart bag Hbag). rewrite C1. by destruct (fst (started _ x)).
       - by apply RETR_refused. }
  destruct Hr0 as [Hok _]. rewrite Hok, <- C1 in Hstart.
  assert (Hstop : ∀ r b y, counter y = counter x1 →
    (∀ z, wire z = wire y → credits z = credits y → conn z = conn y → RETR_end e x r z) →
    (∀ bag, represents (counter x) bag → represents (counter (stop_counter uid b y)) bag) ∧
    RETR_end e x r (stop_counter uid b y)).
  { intros r b y Ey Hend. split; [|by apply Hend]. intros bag Hbag. unfold stop_counter. cbn [counter set_counter].
    rewrite Ey. specialize (Hstart bag Hbag). apply (represents_Stop uid) in Hstart; [|by left].
    cbn [remove_one] in Hstart. by rewrite decide_True in Hstart. }
  assert (Hrefuse : ∀ err b y, counter y = counter x1 → wire y = wire x → credits y = credits x →
    (∀ bag, represents (counter x) bag → represents (counter (stop_counter uid b y)) bag) ∧
    RETR_end e x (Throw err) (stop_counter uid b y)).
  { intros err b y E1 E2 E3. apply Hstop; [done|]. intros z E4 E5 _. apply RETR_refused; congruence. }
  apply holds_finally. destruct (opened_file e) as [[]|what] eqn:Efile; [|by apply holds_deny, Hrefuse].
  apply holds_bind.
  assert (Hseek : holds (match seek e with
      | Ok size => if size <? offset then deny 554 (lit "Restart offset larger than file size.") else ret size
      | Throw (what, size) => bind (reply 451 (upper_first what)) (λ _, ret size)
      end) x1 (λ r x2, wire x2 = wire x1 ∧ counter x2 = counter x1 ∧ credits x2 = credits x1 ∧ conn x2 = conn x1 ∧
        creditRules x2 = creditRules x1 ∧
        match r with
        | Ok size => (seek e = Ok size ∧ offset ≤ size) ∨ ∃ what, seek e = Throw (what, size)
        | Throw _ => True
        end)).
  { destruct (seek e) as [size|[what size]]; [|unfold holds; cbn; eauto 10].
    destruct (Z.ltb_spec size offset); unfold holds; cbn; eauto 10. }
  eapply holds_conseq; [exact Hseek|]. clear Hseek. intros r2 x2 (W2 & C2 & R2 & N2 & L2 & Hsize). cbv beta.
  destruct r2 as [size|err]; [|by apply Hrefuse; congruence].
  destruct (bool_decide (t = ASCII) && negb _) eqn:Ea.
  { apply holds_deny, Hrefuse; cbn; congruence. }
  apply holds_bind.
  assert (Hratio : holds (match CheckWeeklyAllotment user section (downloaded e) size with
      | Some false => deny 550 (lit "Not enough allotment left to download that file.")
      | Some true => ret None
      | None => bind (take_credits user GIDToName path section e size) (λ r, ret (Some r))
      end) x2 (λ r x3, wire x3 = wire x ∧ counter x3 = counter x1 ∧ conn x3 = conn x ∧
        match r with
        | Ok ratio => admitted e x size ratio ∧ credits x3 = charged ratio size (credits x)
        | Throw _ => credits x3 = credits x
        end)).
  { assert (Hadm : ∀ ratio, match ratio with
        | None => CheckWeeklyAllotment user section (downloaded e) size = Some true
        | Some r => CheckWeeklyAllotment user section (downloaded e) size = None ∧
            r = fst (DownloadRatio GIDToName (freefile e) user path (section_info section) (creditRules x)) ∧
            fst (DecrCredits csection (Z.quot size 1024 * r) false (credits x)) = true
        end → admitted e x size ratio).
    { intros ratio Hr. split; try done. fold t offset. intros Et. rewrite Et in *.
      rewrite bool_decide_eq_true_2 in Eo, Ea by done. split; [lia|].
      by destruct (AsciiDownloads_Allowed _ _ _). }
    destruct (CheckWeeklyAllotment user section (downloaded e) size) as [[]|] eqn:Ec.
    - unfold holds. cbn. split; [congruence|]. split; [done|]. split; [congruence|]. split; [by apply Hadm|congruence].
    - unfold holds. cbn. split; [congruence|]. split; [done|]. split; congruence.
    - apply holds_bind. eapply holds_conseq; [apply take_credits_spec|].
      intros r3 x3 (W3 & C3 & N3 & Hr3). destruct r3 as [ratio|err].
      + destruct Hr3 as (-> & Hd & R3). rewrite L2, L1, R2, R1 in *.
        unfold holds. cbn. split; [congruence|]. split; [congruence|]. split; [congruence|]. split; [by apply Hadm|done].
      + split; [congruence|]. split; [congruence|]. split; congruence. }
  eapply holds_conseq; [exact Hratio|]. clear Hratio. intros r3 x3 (W3 & C3 & N3 & Hr3). cbv beta.
  destruct r3 as [ratio|err]; [|by apply Hrefuse].
  destruct Hr3 as [Hadm R3]. apply holds_bind, holds_bind. unfold holds at 1. cbn [gets fst snd].
  apply holds_reply. set (x4 := set_replies _ x3).
  assert (P4 : wire x4 = wire x ∧ counter x4 = counter x1 ∧ conn x4 = conn x ∧ credits x4 = charged ratio size (credits x))
    by done.
  clearbody x4. destruct P4 as (W4 & C4 & N4 & R4). apply holds_bind.
  eapply holds_conseq; [by apply open_data_spec|]. intros r5 x5 (W5 & C5 & R5 & Hr5). cbv beta. rewrite N4 in Hr5.
  destruct r5 as [u|err].
  2: { apply Hstop; [congruence|]. intros z E4 E5 _. eapply RETR_not_opened; [done|done|congruence|congruence|done]. }
  destruct Hr5 as [Ho E5]. destruct (Open_started _ _ _ _ _ Ho) as (To & Bo).
  destruct (Open_keeps remoteEndpoint user GIDToName Download_ (conn x)) as (Do & _ & _).
  assert (N5 : conn x5 = snd (Open_RETR x)) by (by rewrite E5).
  change (finally _ _) with (RETR_opened e ratio size).
  eapply holds_conseq; [apply RETR_opened_spec; by rewrite N5, To|].
  intros r x' (C6 & R6 & T6 & (k & j & W6 & B6 & Hkj & Hd) & Hp). cbv beta.
  apply Hstop; [congruence|]. intros z Ew Er Ez. apply (RETR_sent e x r z size ratio).
  - done.
  - done.
  - by rewrite Er, Ez, R6, R5, R4.
  - by rewrite Ez.
  - intros Hne. rewrite <- N5. apply Hp. congruence.
  - exists k, j. cbv zeta. rewrite Ew, Ez, W6, B6, N5, Do, W5, W4, Bo, Z.add_0_l. split; [done|]. split; [done|].
    split; [done|]. intros ->. by apply Hd.
Qed.

(** ** STOR *)

Abbreviation Open_STOR x := (Open remoteEndpoint user GIDToName Upload_ (conn x)).

(** Everything that arrived, as it is stored *)
Definition received (e : STOR_env) (t : DataType) : str :=
  concat (map (transcode_STOR t) (blocks_got (arrivals e))).

(** The checksum that is given to the post-check *)
Definition checksum_text (e : STOR_env) (data : str) : str :=
  if calcCrc e then HexString (crc_ref 0 (map N_of_ascii data)) else lit "000000".

(** What STOR asks for before it touches the data connection *)
Record accepted (e : STOR_env) (x : X) : Prop := {
  acc_name : err_ok (filtered e) = true;
  acc_offset : 0 < restartOffset (conn x) → dataType (conn x) ≠ ASCII;
  acc_pre : precheck e = true;
  acc_counter : fst (started (maxSimUp user) x) = Okay;
  acc_ascii : dataType (conn x) = ASCII → AsciiUploads_Allowed (asciiUploads e) path = true;
  acc_sink : opened_sink e = Ok tt
}.

(** The data connection is opened, and it is protected if it has to be. *)
Definition linked (x : X) : Prop :=
  fst (Open_STOR x) = Ok tt ∧ fst (ProtectionOkay remoteEndpoint user GIDToName (snd (Open_STOR x))) = true.

(** All that is sent arrives, and the post-check agrees to its checksum. *)
Definition completed (e : STOR_env) (x : X) : Prop :=
  ends_well (arrivals e) = true ∧ postcheck e (checksum_text e (received e (dataType (conn x)))) = true.

(** [AppendFile] has cut the file before it failed. *)
Definition cut_anyway (e : STOR_env) (x : X) : Prop :=
  0 < restartOffset (conn x) ∧ ∃ err, opened_sink e = Throw (true, err).

Abbreviation kept_file x := (sink_contents (restartOffset (conn x)) (file x)).

(** What is left of the file, and of the credits, when a STOR has ended: it is not
    accepted; the file that was to be resumed is as it was cut off, as the transfer did
    not start; the file is deleted, if the system lets it; or the upload is complete. *)
Inductive STOR_end (e : STOR_env) (x : X) (r : result exit unit) (x' : X) : Prop :=
  | STOR_refused :
      ¬ accepted e x → file x' = file x ∨ cut_anyway e x ∧ file x' = kept_file x →
      credits x' = credits x → r ≠ Ok tt → STOR_end e x r x'
  | STOR_kept :
      accepted e x → ¬ linked x → 0 < restartOffset (conn x) → file x' = kept_file x →
      credits x' = credits x → STOR_end e x r x'
  | STOR_deleted :
      accepted e x → ¬ (linked x ∧ completed e x) → linked x ∨ restartOffset (conn x) ≤ 0 →
      (deletable e = true → file x' = None) → credits x' = credits x → STOR_end e x r x'
  | STOR_stored data ratio :
      accepted e x → linked x → completed e x →
      r = Ok tt → data = received e (dataType (conn x)) → file x' = (f ← kept_file x; Some (f ++ data)) →
      ratio = fst (UploadRatio GIDToName user path (section_info section) (creditRules x)) →
      credits x' = IncrCredits csection (Z.quot (Z.of_nat (length data)) 1024 * ratio) (credits x) →
      STOR_end e x r x'.

Lemma STOR_data_guard_spec b x :
  let x' := STOR_data_guard b x in
  counter x' = counter x ∧ file x' = file x ∧ credits x' = credits x ∧ fileOkay x' = fileOkay x.
Proof. cbv zeta. unfold STOR_data_guard. case_decide; [done|]. by case_match. Qed.

(** The end of a transfer: [fileOkay] is set exactly if it was complete and passed
    the post-check. *)
Lemma STOR_transfer_spec e x :
  xferType (conn x) ≠ List_ → xferBytes (conn x) = 0 →
  holds (STOR_transfer user GIDToName strerror path section nostats speed e) x (λ r x',
    counter x' = counter x ∧
    if fileOkay x' then
      let data := received e (dataType (conn x)) in
      r = Ok tt ∧ file x' = (f ← file x; Some (f ++ data)) ∧ completed e x ∧
      credits x' = IncrCredits csection (Z.quot (Z.of_nat (length data)) 1024 *
        fst (UploadRatio GIDToName user path (section_info section) (creditRules x))) (credits x)
    else credits x' = credits x ∧ ¬ completed e x).
Proof.
  intros Ht Hb. unfold STOR_transfer. apply holds_bind. unfold holds at 1. cbn [modify fst snd].
  set (x0 := set_fileOkay false _).
  assert (P0 : counter x0 = counter x ∧ credits x0 = credits x ∧ file x0 = file x ∧ conn x0 = conn x ∧
    creditRules x0 = creditRules x ∧ fileOkay x0 = false ∧ crc x0 = 0%N) by done.
  clearbody x0. destruct P0 as (C0 & R0 & F0 & N0 & L0 & O0 & K0).
  apply holds_bind. unfold holds at 1. destruct (STOR_loop (calcCrc e) (arrivals e) x0) as [s x1] eqn:E. cbn [fst snd].
  pose proof (STOR_loop_Complete _ _ _ _ _ E) as Hcomplete. rewrite K0 in Hcomplete. specialize (Hcomplete eq_refl).
  apply STOR_loop_spec in E as (Fr & _ & bs & _ & F1 & K1 & Hc); [|by rewrite K0].
  assert (Hnot : s ≠ Complete → ¬ completed e x) by (intros Hs [Hw _]; by apply Hs, Hcomplete).
  apply frame_fields in Fr as (C1 & R1 & L1 & _ & _ & O1 & T1 & D1 & _).
  apply holds_bind. destruct s; unfold holds at 1; cbn [caught ret deny bind reply modify throw fst snd].
  2-7: specialize (Hnot ltac:(done)).
  2-7: try (rewrite O1, O0; split; [congruence|split; [congruence|exact Hnot]]).
  2-3: unfold holds, bind, modify, when; destruct (negb (err_ok (chmod_result e))); cbn;
    rewrite O1, O0; split; [congruence|split; [congruence|exact Hnot]|congruence|split; [congruence|exact Hnot]].
  2-3: cbn [counter fileOkay credits set_replies]; rewrite O1, O0; split; [congruence|split; [congruence|exact Hnot]].
  destruct (Hc eq_refl) as [-> B1]. clear Hc.
  apply holds_bind. unfold holds at 1. cbn [modify fst snd]. apply holds_bind.
  set (x2 := on_conn Close x1).
  assert (P2 : counter x2 = counter x1 ∧ credits x2 = credits x1 ∧ file x2 = file x1 ∧ crc x2 = crc x1 ∧
    creditRules x2 = creditRules x1 ∧ fileOkay x2 = fileOkay x1 ∧ xferBytes (conn x2) = xferBytes (conn x1)) by done.
  clearbody x2. destruct P2 as (C2 & R2 & F2 & K2 & L2 & O2 & B2).
  assert (Hchmod : holds (when (negb (err_ok (chmod_result e)))
      (reply 226 (lit "Failed to chmod upload: " ++ err_message strerror (chmod_result e)))) x2 (λ r x3,
      r = Ok tt ∧ ∃ rs, x3 = set_replies rs x2)).
  { unfold when. destruct (negb _); unfold holds; cbn; (split; [done|]); [by eexists|exists (replies x2); by destruct x2]. }
  eapply holds_conseq; [exact Hchmod|]. clear Hchmod. intros r3 x3 [-> [rs ->]]. cbv beta iota.
  set (data := received e (dataType (conn x))).
  assert (Edata : concat (map (transcode_STOR (dataType (conn x0))) (blocks_got (arrivals e))) = data) by (by rewrite N0).
  rewrite Edata in *. rewrite N0, Hb, Z.add_0_l in B1. rewrite K0 in K1. rewrite F0 in F1.
  apply holds_bind. unfold STOR_finish. apply holds_gets. cbn [crc set_replies].
  assert (Ecrc : (if calcCrc e then HexString (crc x2) else lit "000000") = checksum_text e data).
  { unfold checksum_text. rewrite K2, K1. by destruct (calcCrc e). }
  rewrite Ecrc. destruct (postcheck e (checksum_text e data)) eqn:Epost.
  - unfold holds, bind, modify, reply. cbn.
    destruct (UploadRatio GIDToName user path (section_info section) (creditRules x2)) as [ratio l] eqn:Eu. cbn.
    rewrite L2, L1, L0 in Eu. rewrite Eu. cbn [fst]. unfold record_stats. cbn.
    split; [congruence|]. split; [done|]. split; [congruence|]. split; [split; [by apply Hcomplete|exact Epost]|].
    by rewrite B2, B1, R2, R1, R0.
  - unfold holds. cbn. rewrite O2, O1, O0. split; [congruence|]. split; [congruence|].
    intros [_ Hp]. fold data in Hp. congruence.
Qed.

Lemma file_guard_spec e b x :
  let x' := file_guard e b x in
  counter x' = counter x ∧ credits x' = credits x ∧
  if fileOkay x then file x' = file x else deletable e = true → file x' = None.
Proof. unfold file_guard, delete_file. destruct (fileOkay x); [done|]. by destruct (deletable e). Qed.

Lemma STOR_spec e x :
  holds (STOR e) x (λ r x',
    (∀ bag, represents (counter x) bag → represents (counter x') bag) ∧ STOR_end e x r x').
Proof.
  unfold STORCommand. apply holds_gets, holds_gets. set (offset := restartOffset (conn x)). set (t := dataType (conn x)).
  assert (Hdeny : ∀ code text, ¬ accepted e x → holds (deny (A := unit) code text) x (λ r x',
    (∀ bag, represents (counter x) bag → represents (counter x') bag) ∧ STOR_end e x r x')).
  { intros code text Hna. apply holds_deny. split; [by intros|]. apply STOR_refused; [done|by left|done..]. }
  destruct (err_ok (filtered e)) eqn:Ename; cbn [negb]; [|apply Hdeny; intros []; congruence].
  destruct ((0 <? offset) && bool_decide (t = ASCII)) eqn:Eoff.
  { apply Hdeny. intros []. apply andb_true_iff in Eoff as [Eo%Z.ltb_lt Et%bool_decide_eq_true]. naive_solver. }
  destruct (precheck e) eqn:Epre; cbn [negb].
  2: { split; [by intros|]. apply STOR_refused; [intros []; congruence|by left|done..]. }
  clear Hdeny.
  apply holds_bind. eapply holds_conseq; [apply start_counter_spec|]. intros r0 x1 (rs & E1 & Hr0).
  assert (P1 : counter x1 = snd (started (maxSimUp user) x) ∧ credits x1 = credits x ∧ file x1 = file x ∧
    conn x1 = conn x ∧ creditRules x1 = creditRules x) by (rewrite E1; done).
  clear E1. destruct P1 as (C1 & R1 & F1 & N1 & L1).
  pose proof (TransferCounter_Start_represents maxGlobal uid (maxSimUp user) (HasFlag user Exempt) (counter x)) as Hstart.
  fold (started (maxSimUp user) x) in Hstart. destruct r0 as [[]|err].
  2: { split.
       - intros bag Hbag. specialize (Hstart bag Hbag). rewrite C1. by destruct (fst (started _ x)).
       - apply STOR_refused; [by intros []|left; congruence|congruence|done]. }
  destruct Hr0 as [Hok _]. rewrite Hok, <- C1 in Hstart.
  assert (Hstop : ∀ r b y, counter y = counter x1 →
    (∀ z, file z = file y → credits z = credits y → STOR_end e x r z) →
    (∀ bag, represents (counter x) bag → represents (counter (stop_counter uid b y)) bag) ∧
    STOR_end e x r (stop_counter uid b y)).
  { intros r b y Ey Hend. split; [|by apply Hend]. intros bag Hbag. unfold stop_counter. cbn [counter set_counter].
    rewrite Ey. specialize (Hstart bag Hbag). apply (represents_Stop uid) in Hstart; [|by left].
    cbn [remove_one] in Hstart. by rewrite decide_True in Hstart. }
  assert (Hrefuse : ∀ err b y, ¬ accepted e x → counter y = counter x1 →
    file y = file x ∨ cut_anyway e x ∧ file y = kept_file x → credits y = credits x →
    (∀ bag, represents (counter x) bag → represents (counter (stop_counter uid b y)) bag) ∧
    STOR_end e x (Throw err) (stop_counter uid b y)).
  { intros err b y Hna E1 E2 E3. apply Hstop; [done|]. intros z E4 E5. apply STOR_refused; [done|by rewrite E4|congruence|done]. }
  apply holds_finally. destruct (bool_decide (t = ASCII) && negb _) eqn:Easc.
  { apply holds_deny, Hrefuse; [|done|by left|done]. intros [].
    apply andb_true_iff in Easc as [Et%bool_decide_eq_true Ea%negb_true_iff]. rewrite acc_ascii0 in Ea; done. }
  apply holds_bind. unfold open_sink. destruct (opened_sink e) as [[]|[cut err]] eqn:Esink.
  2: { assert (¬ accepted e x) as Hna by (intros []; congruence). apply holds_bind.
       assert (Hcut : holds (when (cut && (0 <? offset)) (modify (λ x, set_file (sink_contents offset (file x)) x))) x1
         (λ r y, r = Ok tt ∧ counter y = counter x1 ∧ credits y = credits x ∧
            (file y = file x ∨ cut_anyway e x ∧ file y = kept_file x))).
       { unfold when. destruct (cut && (0 <? offset)) eqn:Ecut; unfold holds; cbn; [|by eauto].
         apply andb_true_iff in Ecut as [-> Ho%Z.ltb_lt]. rewrite F1. split_and!; [done..|]. right. split; [|done].
         split; [done|by exists err]. }
       eapply holds_conseq; [exact Hcut|]. intros r y (-> & Hy1 & Hy2 & Hy3). cbv beta iota.
       destruct ((offset =? 0) && bool_decide _); apply holds_deny, Hrefuse; done. }
  assert (Hacc : accepted e x).
  { split; [done| |done|done| |done].
    - intros Ho%Z.ltb_lt Et. fold offset in Ho. fold t in Et. by rewrite Ho, bool_decide_eq_true_2 in Eoff.
    - fold t. intros Et. rewrite bool_decide_eq_true_2 in Easc by done. by apply negb_false_iff in Easc. }
  unfold holds at 1. cbn [modify fst snd]. apply holds_bind. unfold holds at 1. cbn [modify fst snd].
  set (x2 := set_fileOkay _ _).
  assert (P2 : counter x2 = counter x1 ∧ credits x2 = credits x ∧ file x2 = sink_contents offset (file x) ∧
    conn x2 = conn x ∧ creditRules x2 = creditRules x ∧ fileOkay x2 = (0 <? offset))
    by (rewrite <- R1, <- F1, <- N1, <- L1; done).
  clearbody x2. destruct P2 as (C2 & R2 & F2 & N2 & L2 & O2).
  apply holds_finally.
  (* what the guard of the file makes of the end *)
  assert (Hguard : ∀ r b1 b2 y, counter y = counter x1 → credits y = credits x →
    (if fileOkay y then ¬ linked x ∧ 0 < offset ∧ file y = sink_contents offset (file x)
     else ¬ (linked x ∧ completed e x) ∧ (linked x ∨ offset ≤ 0)) →
    (∀ bag, represents (counter x) bag → represents (counter (stop_counter uid b1 (file_guard e b2 y))) bag) ∧
    STOR_end e x r (stop_counter uid b1 (file_guard e b2 y))).
  { intros r b1 b2 y Ec Er Hf. pose proof (file_guard_spec e b2 y) as (Gc & Gr & Gf). cbv zeta in *.
    apply Hstop; [congruence|]. intros z Ez Erz. destruct (fileOkay y).
    - destruct Hf as (Hl & Ho & Hs). apply STOR_kept; [done|done|done|fold offset; congruence|congruence].
    - destruct Hf. apply STOR_deleted; [done..|by rewrite Ez|congruence]. }
  apply holds_bind, holds_bind. unfold holds at 1. cbn [gets fst snd]. apply holds_reply. set (x3 := set_replies _ x2).
  assert (P3 : counter x3 = counter x1 ∧ credits x3 = credits x ∧ file x3 = sink_contents offset (file x) ∧
    conn x3 = conn x ∧ creditRules x3 = creditRules x ∧ fileOkay x3 = (0 <? offset)) by done.
  clearbody x3. destruct P3 as (C3 & R3 & F3 & N3 & L3 & O3). apply holds_bind.
  unfold open_data. apply holds_bind. unfold holds at 1. rewrite N3.
  destruct (Open_keeps remoteEndpoint user GIDToName Upload_ (conn x)) as (Do & Ro & _).
  pose proof (Open_started remoteEndpoint user GIDToName Upload_ (conn x)) as Hst.
  destruct (Open_STOR x) as [ro d] eqn:Eo. cbn [fst snd] in *.
  assert (Hnot : ro ≠ Ok tt → ∀ y b1 b2 err, counter y = counter x1 → credits y = credits x →
    fileOkay y = (0 <? offset) → (0 < offset → file y = sink_contents offset (file x)) →
    (∀ bag, represents (counter x) bag → represents (counter (stop_counter uid b1 (file_guard e b2 y))) bag) ∧
    STOR_end e x (Throw err) (stop_counter uid b1 (file_guard e b2 y))).
  { intros Hne y b1 b2 err E1 E2 E3 E4. assert (¬ linked x) as Hnl by (unfold linked; rewrite Eo; by intros [? _]).
    apply Hguard; [done..|]. rewrite E3. destruct (Z.ltb_spec 0 offset) as [Ho|Ho].
    - split_and!; [done..|by apply E4].
    - split; [by intros [? _]|by right]. }
  destruct ro as [[]|[ne|ne| |]].
  2: { unfold holds, bind, modify, deny, reply, throw. cbn. rewrite Ro. fold offset.
       destruct (Z.eqb_spec offset 0); cbn.
       - apply Hnot; try done; unfold delete_file; destruct (deletable e); try done; cbn; lia.
       - apply Hnot; try done. }
  2-4: unfold holds, throw; cbn; apply Hnot; done.
  clear Hnot. unfold holds at 1. cbn [ret fst snd]. set (x4 := set_conn d x3).
  destruct (Hst eq_refl) as [To Bo].
  assert (P4 : counter x4 = counter x1 ∧ credits x4 = credits x ∧ file x4 = sink_contents offset (file x) ∧
    conn x4 = d ∧ creditRules x4 = creditRules x ∧ fileOkay x4 = (0 <? offset)) by done.
  clearbody x4. destruct P4 as (C4 & R4 & F4 & N4 & L4 & O4).
  apply holds_finally, holds_bind. unfold holds at 1, protection_ok. rewrite N4.
  pose proof (ProtectionOkay_conn d) as (T & B & D & _). cbv zeta in *.
  destruct (ProtectionOkay remoteEndpoint user GIDToName d) as [ok d5] eqn:Ep. cbn [fst snd] in *.
  set (x5 := set_conn d5 x4).
  assert (P5 : counter x5 = counter x1 ∧ credits x5 = credits x ∧ file x5 = sink_contents offset (file x) ∧
    conn x5 = d5 ∧ creditRules x5 = creditRules x ∧ fileOkay x5 = (0 <? offset)) by done.
  clearbody x5. destruct P5 as (C5 & R5 & F5 & N5 & L5 & O5). destruct ok; cbn [negb].
  - assert (linked x) as Hlinked by (unfold linked; by rewrite Eo; cbn; rewrite Ep).
    assert (completed e x5 ↔ completed e x) as Hcompl by (unfold completed; by rewrite N5, D, Do).
    apply holds_finally. eapply holds_conseq; [apply STOR_transfer_spec; congruence|].
    intros r x6 [C6 H6]. cbv beta. set (b := match r with Ok _ => false | Throw _ => true end).
    pose proof (log_guard_spec (logUploads e) b x6) as (LC & _ & _ & LR & LFl & LO & _). cbv zeta in *.
    pose proof (STOR_data_guard_spec b (log_guard (logUploads e) b x6)) as (GC & GF & GR & GO). cbv zeta in *.
    set (y := STOR_data_guard b _) in *. destruct (fileOkay x6) eqn:E6.
    + destruct H6 as (-> & F6 & Hpost & R6).
      pose proof (file_guard_spec e b y) as (Hc & Hr & Hf). cbv zeta in *. rewrite GO, LO in Hf.
      apply Hstop; [congruence|]. intros z Ez Erz.
      eapply (STOR_stored e x (Ok tt) z (received e (dataType (conn x)))
        (fst (UploadRatio GIDToName user path (section_info section) (creditRules x)))); try done.
      * by rewrite <-Hcompl.
      * rewrite Ez, Hf, GF, LFl, F6, F5, N5, D, Do. done.
      * rewrite Erz, Hr, GR, LR, R6, R5, L5, N5, D, Do. done.
    + destruct H6 as [H6 Hnc]. apply Hguard; [congruence|congruence|]. rewrite GO, LO.
      split; [intros [_ Hc]; apply Hnc; by rewrite Hcompl|by left].
  - unfold holds, bind, tls_text, reply. cbn [gets ret reply modify throw fst snd bind].
    set (x6 := set_replies _ x5).
    assert (P6 : counter x6 = counter x1 ∧ credits x6 = credits x ∧ file x6 = sink_contents offset (file x) ∧
      fileOkay x6 = (0 <? offset)) by done.
    clearbody x6. destruct P6 as (C6 & R6 & F6 & O6).
    pose proof (STOR_data_guard_spec false x6) as (GC & GF & GR & GO). cbv zeta in *.
    assert (¬ linked x) as Hnl by (unfold linked; rewrite Eo; cbn; rewrite Ep; by intros [_ ?]).
    apply Hguard; [congruence|congruence|]. rewrite GO, O6. destruct (Z.ltb_spec 0 offset) as [Ho|Ho].
    + split_and!; [done..|congruence].
    + split; [by intros [? _]|by right].
Qed.

(** ** Properties *)

(** C12: No transfer leaks.  Whatever happens during a RETR or a STOR, a refusal,
    a failure of the disk, of the network or of the control connection, an
    abort or a complete transfer, afterwards the counter represents the same
    bag of running transfers as before. *)
Theorem transfers_release bag eR eS x :
  represents (counter x) bag →
  represents (counter (snd (RETR eR x))) bag ∧ represents (counter (snd (STOR eS x))) bag.
Proof.
  intros Hbag. split; [by apply (RETR_spec eR x)|by apply (STOR_spec eS x)].
Qed.

(** C11: What must hold before a byte of a file is sent.  If a RETR has put
    anything on the data connection, the file was opened; the offset is not behind its
    end, unless the end could not be found, or the place of the offset not gone to: then
    the command says so and carries on, with what it takes for the size; with that size,
    ASCII is allowed for it, and the allotment or the credits sufficed for the whole
    file; the counter admitted the transfer, the data connection was opened, and
    protection is in place or not required.  What was sent is then a prefix of the
    blocks that were read, transcoded, and all of them if the command succeeded. *)
Theorem RETR_guarded e x r x' :
  RETR e x = (r, x') → wire x' ≠ wire x →
  ∃ size ratio, admitted e x size ratio ∧ fst (Open_RETR x) = Ok tt ∧
    fst (ProtectionOkay remoteEndpoint user GIDToName (snd (Open_RETR x))) = true ∧
    ∃ k, let bs := blocks_read (dlIncomplete e) (reads e) in
      wire x' = wire x ++ concat (map (transcode_RETR (dataType (conn x))) (take k bs)) ∧
      (r = Ok tt → take k bs = bs).
Proof.
  intros E Hne. destruct (holds_run _ _ _ _ _ (RETR_spec e x) E) as [_ [Hw _ _|size ratio _ _ Hw _ _|size ratio Ha Ho _ _ Hp Hs]];
    [done..|]. exists size, ratio. split; [done|]. split; [done|]. split; [by apply Hp|].
  destruct Hs as (k & j & Hw & _ & _ & Hall). exists k. split; [done|]. intros Hr. by apply Hall.
Qed.

(** The price of [k] bytes *)
Definition price (k ratio : Z) : Z := Z.quot k 1024 * ratio.

Lemma price_bounds n size R :
  0 ≤ n ≤ size → 0 ≤ R → price n R ≤ price size R - price (size - n) R ≤ price n R + R.
Proof.
  intros Hn HR. unfold price. rewrite !Z.quot_div_nonneg by lia.
  pose proof (Z.div_mod size 1024 ltac:(lia)). pose proof (Z.div_mod n 1024 ltac:(lia)).
  pose proof (Z.div_mod (size - n) 1024 ltac:(lia)).
  pose proof (Z.mod_pos_bound size 1024 ltac:(lia)). pose proof (Z.mod_pos_bound n 1024 ltac:(lia)).
  pose proof (Z.mod_pos_bound (size - n) 1024 ltac:(lia)).
  assert (Hq : n `div` 1024 ≤ size `div` 1024 - (size - n) `div` 1024 ≤ n `div` 1024 + 1) by lia.
  rewrite <- Z.mul_sub_distr_r. nia.
Qed.

(** What a download of [n] of [size] bytes has cost once it is settled *)
Definition settled_charge (size n R : Z) : Z :=
  if size <? n then price size R + (n - size) * R else price size R - price (size - n) R.

Lemma settle_charge (size n R c0 : Z) (c : Credits) :
  settle (Some R) size n (<[csection := c0 - price size R]> c) = <[csection := c0 - settled_charge size n R]> c.
Proof.
  assert (Hins : <[csection := c0 - price size R]> c !! csection = Some (c0 - price size R)) by apply lookup_insert_eq.
  unfold settle, settled_charge. destruct (Z.ltb_spec n size).
  - rewrite (proj2 (Z.ltb_ge size n)) by lia. unfold IncrCredits. rewrite Hins, insert_insert_eq. f_equal. unfold price. lia.
  - destruct (Z.ltb_spec size n).
    + destruct (DecrCredits_spec csection ((n - size) * R) true _ _ Hins) as [-> _]; [by left|].
      rewrite insert_insert_eq. f_equal. lia.
    + assert (n = size) as -> by lia. rewrite Z.sub_diag. f_equal. unfold price. rewrite Z.quot_0_l by lia. lia.
Qed.

Lemma total_nonneg l : 0 ≤ total l.
Proof. unfold total. lia. Qed.


(** C10: What an upload leaves behind, in every case.  A STOR that is not accepted
    leaves the credits alone, and the file, but for one to be resumed that is cut before
    an error of the system.  One that is accepted, whose data connection is opened and
    protected if it must be, to which the client sends until it closes the connection
    without anything going wrong, and to whose checksum the post-check agrees, succeeds:
    stored, behind what was kept of the file, is everything that arrived, the checksum
    was its CRC-32 if one is calculated, and the credits of its kilobytes are earned.
    In all other cases nothing is earned, and the file is deleted, if the system lets
    it be deleted, even one that was being resumed; only one that was to be resumed stays,
    cut off, if the transfer did not start. *)
Theorem STOR_outcome e x r x' : STOR e x = (r, x') → STOR_end e x r x'.
Proof. intros E. by apply (holds_run _ _ _ _ _ (STOR_spec e x) E). Qed.

End proofs.

(** ** An example *)

Module Example.

#[local] Existing Instances ref_split ref_case ref_fnmatch Data.Example.net.

Definition x0 : X :=
  MkX Data.Example.listened {[ [] := 100 ]} no_totals [] [] false [] [] [] None 0%N false.

Definition peer : Endpoint := Data.Example.localhost (htons 21).

(** A file of 3000 bytes, of which one kilobyte can be sent *)
Definition retr_env : RETR_env := {|
  opened_file := Ok tt; seek := Ok 3000;
  reads := [ReadBlock (replicate 1024 "a"%char) (PollEvents None true false) (Ok tt) false;
            ReadBlock (replicate 1024 "b"%char) PollTimeout (Ok tt) false];
  asciiDownloads := {| ad_kBytes := -1; ad_masks := [] |}; downloaded := 0; freefile := false;
  dlIncomplete := false; logDownloads := true
|}.

Definition download : result exit unit * X :=
  RETRCommand peer (default_UserData 0) (λ _, []) (λ _, []) 7 (-1) (lit "/f") (lit "/f") None false (lit "0B/s") retr_env x0.

Definition stor_env : STOR_env := {|
  filtered := Success; precheck := true; asciiUploads := []; opened_sink := Ok tt; dupe := [];
  arrivals := [Arrival (PollEvents None true false) (Ok (lit "1234")) None 0 false;
               Arrival (PollEvents None true false) (Ok (lit "56789")) None 0 false;
               Arrival (PollEvents None true false) (Throw EndOfStream) None 0 false];
  calcCrc := true; logUploads := true; deletable := true; chmod_result := Success;
  postcheck := λ text, bool_decide (text = lit "CBF43926")
|}.

Definition upload : result exit unit * X :=
  STORCommand peer (default_UserData 0) (λ _, []) (λ _, []) 7 (-1) (lit "/f") (lit "/f") None false (lit "0B/s") stor_env x0.

End Example.

Import Example.
#[local] Existing Instances ref_split ref_case ref_fnmatch Data.Example.net.

Lemma transfers_release_witness :
  represents no_totals [] ∧ represents (counter (snd download)) [] ∧ represents (counter (snd upload)) [].
Proof.
  split; [apply represents_empty|].
  exact (transfers_release peer (default_UserData 0) (λ _, []) (λ _, []) 7 (-1) (lit "/f") (lit "/f") None false
    (lit "0B/s") [] retr_env stor_env x0 represents_empty).
Defined.

Lemma RETR_guarded_witness :
  wire (snd download) = replicate 1024 "a"%char ∧ ∃ size ratio, admitted (default_UserData 0) (λ _, []) 7 (-1) (lit "/f") None retr_env x0 size ratio.
Proof.
  split; [vm_compute; reflexivity|].
  destruct (RETR_guarded peer (default_UserData 0) (λ _, []) (λ _, []) 7 (-1) (lit "/f") (lit "/f") None false
    (lit "0B/s") retr_env x0 (fst download) (snd download) (surjective_pairing download)) as (size & ratio & Ha & _).
  - vm_compute. discriminate.
  - exists size, ratio. exact Ha.
Defined.


Lemma STOR_outcome_witness :
  file (snd upload) = Some (lit "123456789") ∧
  STOR_end peer (default_UserData 0) (λ _, []) 7 (-1) (lit "/f") None stor_env x0 (fst upload) (snd upload).
Proof.
  split; [vm_compute; reflexivity|].
  exact (STOR_outcome peer (default_UserData 0) (λ _, []) (λ _, []) 7 (-1) (lit "/f") (lit "/f") None false
    (lit "0B/s") stor_env x0 (fst upload) (snd upload) (surjective_pairing upload)).
Defined.
