(* ===== verification/Messages.v ===== *)
(** * Messages: text/factory.cpp, text/util.cpp, stats/compile.cpp, stats/stat.hpp

    What is done with the templates of Template.v: loading all of a directory,
    filling in the values every template may name, and the tables of the best
    users and groups.  The theorem says which users such a table shows, and of
    whom its totals are the sum. *)

From stdpp Require Import base option list sets gmap.
From Stdlib Require Import Ascii ZArith Lia.
From S2P Require Import Prelude CxxString Numbers Path Template.
Local Open Scope Z_scope.
Local Open Scope list_scope.
Local Open Scope str_scope.

(** Conversion to [int] *)
Definition to_int (n : Z) : Z := (n + 2 ^ 31) mod 2 ^ 32 - 2 ^ 31.

(** ** Statistics: stats/types.hpp, stats/stat.hpp *)

Inductive Timeframe : Type := Day | Week | Month | Year | Alltime.
Inductive Direction : Type := Upload | Download.

Definition timeframes : list Timeframe := [Day; Week; Month; Year; Alltime].
Definition directions : list Direction := [Upload; Download].

Definition Timeframe_string (t : Timeframe) : str :=
  match t with Day => lit "day" | Week => lit "week" | Month => lit "month" | Year => lit "year" | Alltime => lit "alltime" end.
Definition Direction_string (d : Direction) : str := match d with Upload => lit "up" | Download => lit "down" end.

Record Stat := { id : Z; files : Z; kBytes : Z; xfertime : Z }.

(** The kilobytes per second of an amount and a time in milliseconds *)
Definition speed_of (kBytes xfertime : Z) : double :=
  if xfertime =? 0 then double_of_Z kBytes
  else double_div (double_of_Z kBytes) (double_div (double_of_Z xfertime) (double_of_Z 1000)).

(** The member [speed] stores the result. *)
Definition Speed (s : Stat) : double := speed_of (kBytes s) (xfertime s).

Definition Incr (s t : Stat) : Stat :=
  {| id := id s; files := files s + files t; kBytes := kBytes s + kBytes t; xfertime := xfertime s + xfertime t |}.

(** ** Loading the templates: text/factory.cpp *)

Section factory.
Context `{Split, Trim, CaseConv, Format, TitleCase, ReplaceFirst, TrimIf}.

(** The loop of [Initialize] over the names in a directory: the templates and
    the number of errors.  Inserting does not replace. *)
Fixpoint load_all (contents : str → option str) (fuel : nat) (textpath : str) (names : list str)
    (templates : gmap str Template) (errors : Z) : gmap str Template * Z :=
  match names with
  | [] => (templates, errors)
  | p :: names =>
      if bool_decide (Extension p = lit "tmpl") then
        let name := to_lower (NoExtension p) in
        match Create contents fuel (Join textpath p) with
        | Ok t =>
            let templates := match templates !! name with Some _ => templates | None => <[name := t]> templates end in
            load_all contents fuel textpath names templates errors
        | Throw _ => load_all contents fuel textpath names templates (errors + 1)
        end
      else load_all contents fuel textpath names templates errors
  end.

(** The answer is the new instance, an error the old one is kept with, or an
    exception. *)
Definition Initialize (contents : str → option str) (fuel : nat) (datapath : str) (entries : result str (list str))
    : result template_error (result str (gmap str Template)) :=
  let textpath := Join datapath (lit "text") in
  match entries with
  | Throw e => Ok (Throw e)
  | Ok names =>
      let '(templates, errors) := load_all contents fuel textpath names ∅ 0 in
      if 0 <? errors
      then Throw (TemplateError (to_string errors ++ lit " template errors. Please review errors above."))
      else Ok (Ok templates)
  end.

Definition GetTemplate (templ : str) (instance : option (gmap str Template)) : result template_error Template :=
  let name := to_lower templ in
  match (instance ≫= lookup name) with
  | Some t => Ok t
  | None => Throw (TemplateError (lit "No such template (" ++ templ ++ lit ")"))
  end.

(** ** Values of every message: text/util.cpp *)

(** What is asked of the session, the configuration, the clock and the database;
    the section is its name and whether its credits are its own. *)
Record Globals := {
  g_section : option (str * bool); maxUsers : Z; timeStr : str; hostname : str; ip : str; ident : str;
  sitenameLong : str; sitenameShort : str; workDir : str; freeSpace : Z; sectionCredits : str → Z;
  userName : str; primaryGroup : str; flags : str; ratioString : str; g_tagline : str; creditString : str;
  onlineCount : Z; calculate : str → Timeframe → Direction → Stat; controlTLS : bool; dataProtection : bool;
  tlsCipher : str
}.

(** The part of the date and that of the time, around the first space *)
Definition date_of (s : str) : str := match find " "%char s with Some n => take n s | None => s end.
Definition time_of (s : str) : str := match find " "%char s with Some n => drop (n + 1) s | None => [] end.

Definition tls_mode (g : Globals) : str :=
  let m := if controlTLS g then lit "control" else [] in
  let m := if dataProtection g then (match m with [] => m | _ => m ++ lit "&" end) ++ lit "data" else m in
  match m with [] => lit "insecure" | _ => m end.

Definition stat_values (prefix suffix : str) (s : Stat) : list (str * value) :=
  [(prefix ++ lit "files" ++ suffix, VInteger (files s));
   (prefix ++ lit "size" ++ suffix, VDouble (double_of_Z (kBytes s)));
   (prefix ++ lit "speed" ++ suffix, VDouble (Speed s))].

(** The values of one time frame and direction that the section asks for *)
Definition stat_globals (g : Globals) (ts : TemplateSection) (tf : Timeframe) (dir : Direction) : list (str * value) :=
  let prefix := Timeframe_string tf ++ lit "_" ++ Direction_string dir ++ lit "_" in
  let doGlobal := HasTag (prefix ++ lit "files") ts || HasTag (prefix ++ lit "size") ts || HasTag (prefix ++ lit "speed") ts in
  let doSection := HasTag (prefix ++ lit "files_section") ts || HasTag (prefix ++ lit "size_section") ts ||
                   HasTag (prefix ++ lit "speed_section") ts in
  let stat := calculate g [] tf dir in
  (if doGlobal then stat_values prefix [] stat else []) ++
  (if doSection then
     stat_values prefix (lit "_section")
       (match g_section g with None => stat | Some (name, _) => calculate g name tf dir end)
   else []).

(** [RegisterGlobals]; the integers pass through an [int]. *)
Definition RegisterGlobals (g : Globals) (ts : TemplateSection) : TemplateSection :=
  let ts := RegisterSpeed (lit "last_speed") (double_of_Z 0) ts in
  let ts := RegisterValue_int (lit "max_online_users") (to_int (maxUsers g)) ts in
  let ts := RegisterValue (lit "date_time") (timeStr g) ts in
  let ts := RegisterValue (lit "date") (date_of (timeStr g)) ts in
  let ts := RegisterValue (lit "time") (time_of (timeStr g)) ts in
  let ts := RegisterValue (lit "remote_host") (hostname g) ts in
  let ts := RegisterValue (lit "remote_ip") (ip g) ts in
  let ts := RegisterValue (lit "ident") (ident g) ts in
  let ts := RegisterValue (lit "sitename_long") (sitenameLong g) ts in
  let ts := RegisterValue (lit "sitename_short") (sitenameShort g) ts in
  let ts := RegisterValue (lit "work_dir") (workDir g) ts in
  let ts := RegisterSize (lit "free_space") (freeSpace g) ts in
  let ts := RegisterValue (lit "section") (match g_section g with None => lit "NoSection" | Some (name, _) => name end) ts in
  let ts := RegisterSize (lit "credits_section")
              (sectionCredits g (match g_section g with Some (name, true) => name | _ => [] end)) ts in
  let ts := RegisterValue (lit "username") (userName g) ts in
  let ts := RegisterValue (lit "groupname") (primaryGroup g) ts in
  let ts := RegisterValue (lit "flags") (flags g) ts in
  let ts := RegisterValue (lit "ratio") (ratioString g) ts in
  let ts := RegisterValue (lit "tagline") (g_tagline g) ts in
  let ts := RegisterValue (lit "credits_all") (creditString g) ts in
  let ts := RegisterValue (lit "credits_current") (creditString g) ts in
  let ts := RegisterValue (lit "time_online") [] ts in
  let ts := RegisterValue_int (lit "online_users") (onlineCount g) ts in
  let ts := RegisterValue_int (lit "all_online_users") (onlineCount g) ts in
  let ts := foldl (λ ts tf, foldl (λ ts dir, fill_in (stat_globals g ts tf dir) ts) ts directions) ts timeframes in
  let ts := RegisterValue (lit "tls_mode") (tls_mode g) ts in
  RegisterValue (lit "tls_cipher") (tlsCipher g) ts.

(** [GenericTemplate] of a template *)
Definition GenericTemplate (g : Globals) (t : Template) : str :=
  Compile None (RegisterGlobals g (Head t)) ++ Compile None (RegisterGlobals g (Body t)) ++
  Compile None (RegisterGlobals g (Foot t)).

(** ... of a name, and of a file; an error is its message. *)
Definition GenericTemplate_name (g : Globals) (instance : option (gmap str Template)) (name : str) : result template_error str :=
  let! t := GetTemplate name instance in Ok (GenericTemplate g t).

Definition GenericTemplate_path (g : Globals) (contents : str → option str) (fuel : nat) (path : str) : result template_error str :=
  let! t := Create contents fuel path in Ok (GenericTemplate g t).

End factory.

(** ** Tables of the best: stats/compile.cpp *)

Section ranks.
Context `{Split, Trim, CaseConv, Format, TitleCase, ReplaceFirst, TrimIf}.

(** What [acl::User::Load] gives of a user, and [acl::Group::Load] of a group *)
Record UserRow := { ur_name : str; ur_group : str; ur_tagline : str }.
Record GroupRow := { gr_name : str; gr_description : str }.

Definition head_section (section : str) (t : TemplateSection) : TemplateSection :=
  RegisterValue (lit "section") (match section with [] => lit "ALL" | _ => section end) t.

(** The totals: kilobytes, files, time and how many *)
Record Totals := { totalKBytes : Z; totalFiles : Z; totalXfertime : Z; total : Z }.

Definition no_totals : Totals := {| totalKBytes := 0; totalFiles := 0; totalXfertime := 0; total := 0 |}.

Definition add_totals (t : Totals) (u : Stat) : Totals :=
  {| totalKBytes := totalKBytes t + kBytes u; totalFiles := totalFiles t + files u;
     totalXfertime := totalXfertime t + xfertime u; total := total t + 1 |}.

Definition foot_values (what : str) (t : Totals) (s : TemplateSection) : TemplateSection :=
  let s := RegisterValue_int what (to_int (total t)) s in
  let s := RegisterSize (lit "size") (totalKBytes t) s in
  let s := RegisterValue_int (lit "files") (to_int (totalFiles t)) s in
  RegisterSpeed (lit "speed") (speed_of (totalKBytes t) (totalXfertime t)) s.

Definition user_values (index : Z) (row : UserRow) (u : Stat) (s : TemplateSection) : TemplateSection :=
  let s := RegisterValue_int (lit "index") index s in
  let s := RegisterValue (lit "user") (ur_name row) s in
  let s := RegisterValue (lit "group") (ur_group row) s in
  let s := RegisterValue (lit "tagline") (ur_tagline row) s in
  let s := RegisterValue_int (lit "files") (files u) s in
  let s := RegisterSize (lit "size") (kBytes u) s in
  RegisterSpeed (lit "speed") (Speed u) s.

Definition group_values (index : Z) (row : option GroupRow) (g : Stat) (s : TemplateSection) : TemplateSection :=
  let s := RegisterValue_int (lit "index") index s in
  let s := RegisterValue (lit "group") (match row with Some r => gr_name r | None => lit "unknown" end) s in
  let s := RegisterValue (lit "descr") (match row with Some r => gr_description r | None => [] end) s in
  let s := RegisterValue_int (lit "files") (files g) s in
  let s := RegisterSize (lit "size") (kBytes g) s in
  RegisterSpeed (lit "speed") (Speed g) s.

Section users.
Context (Load : Z → option UserRow) (filter : option (UserRow → bool)) (max : Z).

(** [!user || (filter && !filter( user))] *)
Definition accepted (u : Stat) : option UserRow :=
  match Load (id u) with
  | Some row => if match filter with Some f => f row | None => true end then Some row else None
  | None => None
  end.

(** The loop of [CompileUserRanks]: the text, the body, the index and the totals *)
Fixpoint user_ranks_loop (users : list Stat) (os : str) (body : TemplateSection) (index : Z) (t : Totals) : str * Totals :=
  match users with
  | [] => (os, t)
  | u :: users =>
      if files u <=? 0 then (os, t)
      else if index <? max then
        match accepted u with
        | None => user_ranks_loop users os body index t
        | Some row =>
            let body := user_values (index + 1) row u body in
            user_ranks_loop users (os ++ Compile None body) body (index + 1) (add_totals t u)
        end
      else user_ranks_loop users os body index (add_totals t u)
  end.

(** [users] is what the database gives. *)
Definition CompileUserRanks (section : str) (users : list Stat) (templ : Template) : str :=
  let head := head_section section (Head templ) in
  let '(os, t) := user_ranks_loop users (Compile None head) (Body templ) 0 no_totals in
  os ++ Compile None (foot_values (lit "users") t (Foot templ)).

End users.

Section groups.
Context (Load : Z → option GroupRow) (max : Z).

Fixpoint group_ranks_loop (groups : list Stat) (os : str) (body : TemplateSection) (index : Z) (t : Totals) : str * Totals :=
  match groups with
  | [] => (os, t)
  | g :: groups =>
      if files g <=? 0 then (os, t)
      else if index <? max then
        let body := group_values (index + 1) (Load (id g)) g body in
        group_ranks_loop groups (os ++ Compile None body) body (index + 1) (add_totals t g)
      else group_ranks_loop groups os body index (add_totals t g)
  end.

Definition CompileGroupRanks (section : str) (groups : list Stat) (templ : Template) : str :=
  let head := head_section section (Head templ) in
  let '(os, t) := group_ranks_loop groups (Compile None head) (Body templ) 0 no_totals in
  os ++ Compile None (foot_values (lit "groups") t (Foot templ)).

End groups.

(** ** Whom a table shows *)

(** Registering the same names again leaves nothing of the first values. *)
Lemma registered_present (l : list (str * value)) name v v' :
  name ∈ map to_lower (map fst l) → registered l name v = registered l name v'.
Proof.
  revert v v'. induction l as [|[n w] l IH]; intros v v' Hn; cbn in Hn; [by apply not_elem_of_nil in Hn|].
  cbn [registered foldl]. destruct (bool_decide_reflect (name = to_lower n)) as [->|Hne]; [done|].
  apply IH. apply elem_of_cons in Hn as [->|Hn]; [done|exact Hn].
Qed.

Lemma registered_absent (l : list (str * value)) name v : name ∉ map to_lower (map fst l) → registered l name v = v.
Proof.
  revert v. induction l as [|[n w] l IH]; intros v Hn; [done|]. cbn [registered foldl].
  cbn in Hn. apply not_elem_of_cons in Hn as [Hne Hn]. rewrite bool_decide_eq_false_2 by done. by apply IH.
Qed.

Lemma fill_in_again (l l' : list (str * value)) s : map fst l = map fst l' → fill_in l' (fill_in l s) = fill_in l' s.
Proof.
  intros Hl. destruct (fill_in_spec l s) as (Hb & Hf & Ht), (fill_in_spec l' (fill_in l s)) as (Hb' & Hf' & Ht'),
    (fill_in_spec l' s) as (Hb2 & Hf2 & Ht2).
  assert (He : ∀ a b, s_buffer a = s_buffer b → tags a = tags b → isFoot a = isFoot b → a = b).
  { intros [] []; cbn; congruence. }
  apply He; [congruence| |congruence]. rewrite Ht', Ht, Ht2, map_map. apply map_ext. intros t.
  unfold set_value. cbn. f_equal. destruct (decide (t_name t ∈ map to_lower (map fst l'))) as [Hin|Hout].
  - by apply registered_present.
  - rewrite !registered_absent; [done..| |]; by rewrite ?Hl.
Qed.

(** The users of a table: those with files, as far as the first without *)
Fixpoint ranked (users : list Stat) : list Stat :=
  match users with
  | u :: users => if files u <=? 0 then [] else u :: ranked users
  | [] => []
  end.

(** The first [n] users the filter accepts, and the users the totals are taken of:
    those shown, and all that come after the last of them, accepted or not. *)
Fixpoint shown_users (Load : Z → option UserRow) (filter : option (UserRow → bool)) (n : nat) (users : list Stat) : list (UserRow * Stat) :=
  match users, n with
  | u :: users, S n' =>
      match accepted Load filter u with
      | Some row => (row, u) :: shown_users Load filter n' users
      | None => shown_users Load filter n users
      end
  | _, _ => []
  end.

Fixpoint counted_users (Load : Z → option UserRow) (filter : option (UserRow → bool)) (n : nat) (users : list Stat) : list Stat :=
  match users, n with
  | u :: users, S n' =>
      match accepted Load filter u with
      | Some _ => u :: counted_users Load filter n' users
      | None => counted_users Load filter n users
      end
  | _, _ => users
  end.

Lemma user_values_again index row u index' row' u' s :
  user_values index row u (user_values index' row' u' s) = user_values index row u s.
Proof.
  set (vals i r (v : Stat) := [(lit "index", VInteger i); (lit "user", VString (ur_name r)); (lit "group", VString (ur_group r));
    (lit "tagline", VString (ur_tagline r)); (lit "files", VInteger (files v)); (lit "size", VDouble (double_of_Z (kBytes v)));
    (lit "speed", VDouble (Speed v))]).
  by apply (fill_in_again (vals index' row' u') (vals index row u)).
Qed.

(** The rows of a table, numbered from [k] on *)
Definition rows (body : TemplateSection) (k : Z) (l : list (UserRow * Stat)) : str :=
  concat (imap (λ i r, Compile None (user_values (k + Z.of_nat i + 1) (fst r) (snd r) body)) l).

Lemma rows_cons body k r l :
  rows body k (r :: l) = Compile None (user_values (k + 1) (fst r) (snd r) body) ++ rows body (k + 1) l.
Proof.
  unfold rows. cbn [imap concat]. rewrite Z.add_0_r. f_equal. f_equal. apply imap_ext. intros i x _. cbn.
  do 2 f_equal. lia.
Qed.

Lemma user_ranks_loop_spec Load filter max body users os b k t :
  (∀ i r u, user_values i r u b = user_values i r u body) →
  let n := Z.to_nat (max - k) in
  user_ranks_loop Load filter max users os b k t =
    (os ++ rows body k (shown_users Load filter n (ranked users)),
     foldl add_totals t (counted_users Load filter n (ranked users))).
Proof.
  revert os b k t. induction users as [|u users IH]; intros os b k t Hb n.
  - cbn. destruct n; cbn; by rewrite app_nil_r.
  - cbn [user_ranks_loop ranked]. destruct (files u <=? 0) eqn:Hf.
    { destruct n; cbn; by rewrite app_nil_r. }
    destruct (Z.ltb_spec k max) as [Hk|Hk].
    + assert (Hn : n = S (Z.to_nat (max - (k + 1)))) by lia. rewrite Hn. cbn [shown_users counted_users].
      destruct (accepted Load filter u) as [row|]; [|rewrite <- Hn; by apply IH].
      rewrite IH by (intros; by rewrite user_values_again). rewrite rows_cons, Hb. cbn [fst snd foldl]. by rewrite <- app_assoc.
    + assert (Hn : n = O) by lia. rewrite IH by done. fold n. rewrite Hn. cbn [foldl].
      by destruct (ranked users).
Qed.

(** Whom a table of users shows.  It is the head, a row for each of the
    first [max] users that have files, exist and pass the filter, in the order
    of the database and numbered from one, and the foot with the totals.  No row
    keeps a value of the one before.  The totals are those of the users
    shown, and of all who come after the last of them, whether they pass the
    filter or not. *)
Lemma CompileUserRanks_spec Load filter max section users templ :
  let n := Z.to_nat max in
  let shown := shown_users Load filter n (ranked users) in
  CompileUserRanks Load filter max section users templ =
    Compile None (head_section section (Head templ)) ++
    concat (imap (λ i r, Compile None (user_values (Z.of_nat i + 1) (fst r) (snd r) (Body templ))) shown) ++
    Compile None (foot_values (lit "users") (foldl add_totals no_totals (counted_users Load filter n (ranked users))) (Foot templ)).
Proof.
  intros n shown. unfold CompileUserRanks. rewrite (user_ranks_loop_spec _ _ _ (Body templ)) by done.
  rewrite Z.sub_0_r. fold n. unfold rows. rewrite <- app_assoc. done.
Qed.

End ranks.

(** ** An example *)

Module Example.

Import Template.Example.

Definition load (n : Z) : option UserRow :=
  if n =? 3 then None else Some {| ur_name := to_string n; ur_group := lit "g"; ur_tagline := [] |}.

Definition stat (n f : Z) : Stat := {| id := n; files := f; kBytes := 10 * f; xfertime := 1000 |}.

Definition table : Template := {|
  Head := new_TemplateSection false;
  Body := parsed_section false [Field (lit "index") []; Text (lit " "); Field (lit "user") []; Text [LF]];
  Foot := parsed_section true [Field (lit "files") []; Text (lit " files")]
|}.

(** Users 2 and 5 are refused by the filter and 3 does not exist; 5 enters the
    totals, as the table is full by then, and 2 and 3 do not. *)
Example ranks_1 :
  CompileUserRanks load (Some (λ r, negb (bool_decide (ur_name r = lit "2") || bool_decide (ur_name r = lit "5")))) 2 []
    [stat 1 100; stat 2 90; stat 3 80; stat 4 70; stat 5 60; stat 6 0] table =
  lit "1 1" ++ [LF] ++ lit "2 4" ++ [LF] ++ lit "230 files".
Proof. vm_compute. reflexivity. Qed.

End Example.
