(* ===== verification/Arguments.v ===== *)
(** * The arguments of commands: cmd/arguments.cpp, cmd/util.cpp

    Two ways to cut a command line into arguments: by a grammar that names
    them ([ArgumentParser]), and by spaces and braces ([SplitArgs]).  Both walk
    over the line with positions; a position past the terminating NUL is an
    error of the model ([OutOfRange]), and so is a walk that does not end
    ([NoEnd]).  The theorems: neither happens, and arguments that are written
    down are read back. *)

From stdpp Require Import base option list sets.
From Stdlib Require Import Ascii Lia.
From S2P Require Import Prelude CxxString Numbers.
Local Open Scope list_scope.
Local Open Scope str_scope.

Inductive arg_error : Type :=
  | SyntaxError
  | LogicError (what : str)
  | OutOfRange
  | NoEnd.

Notation parse := (result arg_error).

(** [line[pos]] *)
Definition at_pos (line : str) (pos : nat) : parse ascii :=
  if pos <=? length line then Ok (char_at line pos) else Throw OutOfRange.

(** ** Grammars and their arguments *)

Inductive Type_ : Type := Single | Grouped | Multiple.

(** [Arguments]: names and values, in order *)
Definition Arguments : Type := list (str * str).

(** [args[name]]: the first argument of the name *)
Definition Arguments_get (name : str) (args : Arguments) : parse str :=
  match assoc name args with
  | Some v => Ok v
  | None => Throw (LogicError (lit "Argument with name doesn't exist"))
  end.

Section grammar.
Context `{Split}.

Fixpoint Compile_loop (args : list str) (haveMultiple : bool) (types : list (str * Type_)) : parse (list (str * Type_)) :=
  match args with
  | [] => Ok types
  | arg :: args =>
      if haveMultiple then Throw (LogicError (lit "Invalid argument grammar 1"))
      else
        match Split_ arg (lit ":") false with
        | [name; t] =>
            if bool_decide (t = lit "single") || bool_decide (t = lit "s")
            then Compile_loop args false (types ++ [(name, Single)])
            else if bool_decide (t = lit "grouped") || bool_decide (t = lit "g")
            then Compile_loop args false (types ++ [(name, Grouped)])
            else if bool_decide (t = lit "multiple") || bool_decide (t = lit "m")
            then Compile_loop args true (types ++ [(name, Multiple)])
            else Throw (LogicError (lit "Invalid argument grammar 3"))
        | _ => Throw (LogicError (lit "Invalid argument grammar 2"))
        end
  end.

Definition Compile (grammar : str) : parse (list (str * Type_)) := Compile_loop (Split_ grammar (lit " ") false) false [].

End grammar.

(** ** [ArgumentParser::Parse] *)

(** [while (line[pos1] == ' ')] *)
Fixpoint skip_spaces (fuel : nat) (line : str) (pos1 : nat) : parse nat :=
  match fuel with
  | O => Throw NoEnd
  | S fuel =>
      let! c := at_pos line pos1 in
      if bool_decide (c = " "%char) then
        if S pos1 =? length line then Throw SyntaxError else skip_spaces fuel line (S pos1)
      else Ok pos1
  end.

(** [while (line[pos2] == ' ') --pos2], which wraps around below 0 *)
Fixpoint back_spaces (line : str) (pos2 : nat) : parse nat :=
  let! c := at_pos line pos2 in
  if bool_decide (c = " "%char) then match pos2 with O => Throw OutOfRange | S pos2 => back_spaces line pos2 end
  else Ok pos2.

(** One argument: its text and the position after it; [None] is [npos]. *)
Definition parse_single (line : str) (pos1 : nat) : str * option nat :=
  match find_at " "%char line pos1 with
  | None => (drop pos1 line, None)
  | Some pos2 => (substr line pos1 (pos2 - pos1), Some (S pos2))
  end.

Definition parse_arg (line : str) (t : Type_) (pos1 : nat) : parse (str * option nat) :=
  match t with
  | Grouped =>
      let! c := at_pos line pos1 in
      if bool_decide (c = "034"%char) then
        match find_at "034"%char line (S pos1) with
        | None => Throw SyntaxError
        | Some pos2 => Ok (substr line (S pos1) (pos2 - pos1 - 1), Some (S pos2))
        end
      else Ok (parse_single line pos1)
  | Single => Ok (parse_single line pos1)
  | Multiple =>
      match length line with
      | O => Throw OutOfRange
      | S last => let! pos2 := back_spaces line last in Ok (substr line pos1 (pos2 - pos1 + 1), None)
      end
  end.

Fixpoint Parse_loop (line : str) (types : list (str * Type_)) (pos1 : option nat) (args : Arguments) : parse Arguments :=
  match types with
  | [] =>
      match pos1 with
      | Some pos1 => if pos1 <? length line then Throw SyntaxError else Ok args
      | None => Ok args
      end
  | (name, t) :: types =>
      match pos1 with
      | None => Throw SyntaxError
      | Some pos1 =>
          if pos1 =? length line then Throw SyntaxError
          else
            let! pos1 := skip_spaces (S (length line)) line pos1 in
            let! r := parse_arg line t pos1 in
            Parse_loop line types (snd r) (args ++ [(name, fst r)])
      end
  end.

Definition Parse (types : list (str * Type_)) (line : str) : parse Arguments := Parse_loop line types (Some 0) [].

(** [ExtractCommand] *)
Definition ExtractCommand (line : str) : parse str :=
  match find " "%char line with
  | Some O => Throw SyntaxError
  | Some pos => Ok (take pos line)
  | None => Ok line
  end.

(** ** [SplitArgs] *)

(** [while (std::isspace(command[pos1])) ++pos1] *)
Fixpoint skip_white (fuel : nat) (command : str) (pos1 : nat) : parse nat :=
  match fuel with
  | O => Throw NoEnd
  | S fuel =>
      let! c := at_pos command pos1 in
      if isspace c then skip_white fuel command (S pos1) else Ok pos1
  end.

Section split.
Context `{Trim}.

(** The result is whether the braces are closed, and the arguments. *)
Fixpoint SplitArgs_loop (fuel : nat) (command : str) (pos1 : nat) (args : list str) : parse (bool * list str) :=
  match fuel with
  | O => Throw NoEnd
  | S fuel =>
      let! pos1 := skip_white (S (length command)) command pos1 in
      if pos1 =? length command then Ok (true, args)
      else
        let! c := at_pos command pos1 in
        let brace := bool_decide (c = "{"%char) in
        match find_at (if brace then "}"%char else " "%char) command (S pos1) with
        | None => Ok (if brace then (false, args) else (true, args ++ [trim (drop pos1 command)]))
        | Some pos2 =>
            let pos1 := if brace then S pos1 else pos1 in
            SplitArgs_loop fuel command (S pos2) (args ++ [trim (substr command pos1 (pos2 - pos1))])
        end
  end.

Definition SplitArgs (command : str) : parse (bool * list str) := SplitArgs_loop (S (length command)) command 0 [].

End split.

(** ** Nothing is read outside the line *)

Lemma at_pos_ok line pos : pos ≤ length line → at_pos line pos = Ok (char_at line pos).
Proof. unfold at_pos. intros Hp. by rewrite (proj2 (Nat.leb_le _ _) Hp). Qed.

Lemma find_from_range c s n m : find_from c s n = Some m → n ≤ m < n + length s.
Proof.
  revert n. induction s as [|x s IH]; intros n; cbn; [done|]. case_decide; [intros [= ->]; lia|].
  intros E. apply IH in E. lia.
Qed.

Lemma find_at_range c s n m : find_at c s n = Some m → n ≤ m < length s.
Proof. unfold find_at. intros E. apply find_from_range in E. rewrite length_drop in E. lia. Qed.

(** [safe P r]: a result that [P] allows, or an exception of the code *)
Definition safe {A} (P : A → Prop) (r : parse A) : Prop :=
  match r with Ok a => P a | Throw SyntaxError => True | Throw _ => False end.

Lemma safe_bind {A B} (P : A → Prop) (Q : B → Prop) r (k : A → parse B) :
  safe P r → (∀ a, P a → safe Q (k a)) → safe Q (let! a := r in k a).
Proof. destruct r as [a|[]]; cbn; auto. Qed.

Lemma char_at_end line pos c : char_at line pos = c → c ≠ NUL → pos < length line.
Proof.
  unfold char_at. intros E Hc. destruct (line !! pos) eqn:El; cbn in E; [by eapply lookup_lt_Some|congruence].
Qed.

Lemma skip_spaces_safe fuel line pos1 :
  pos1 < length line → length line - pos1 < fuel →
  safe (λ p, pos1 ≤ p < length line ∧ char_at line p ≠ " "%char) (skip_spaces fuel line pos1).
Proof.
  revert pos1. induction fuel as [|fuel IH]; intros pos1 Hp Hf; [lia|]. cbn [skip_spaces].
  rewrite at_pos_ok by lia. cbn [rbind]. destruct (bool_decide_reflect (char_at line pos1 = " "%char)) as [E|Hne]; [|cbn; by split; [lia|]].
  destruct (Nat.eqb_spec (S pos1) (length line)) as [|Hne]; [done|].
  specialize (IH (S pos1) ltac:(lia) ltac:(lia)). destruct (skip_spaces fuel line (S pos1)) as [p|[]]; cbn in *; try done.
  destruct IH. split; [lia|done].
Qed.

Lemma back_spaces_safe line pos1 pos2 :
  pos1 ≤ pos2 < length line → char_at line pos1 ≠ " "%char →
  safe (λ p, pos1 ≤ p ≤ pos2 ∧ char_at line p ≠ " "%char) (back_spaces line pos2).
Proof.
  intros Hp Hc. induction pos2 as [|pos2 IH]; cbn [back_spaces]; rewrite at_pos_ok by lia; cbn [rbind].
  - assert (pos1 = 0) as -> by lia. rewrite bool_decide_eq_false_2 by done. cbn. by split; [lia|].
  - destruct (bool_decide_reflect (char_at line (S pos2) = " "%char)) as [E|Hne]; [|cbn; by split; [lia|]].
    destruct (decide (pos1 = S pos2)) as [->|Hne]; [done|]. specialize (IH ltac:(lia)).
    destruct (back_spaces line pos2) as [p|[]]; cbn in *; try done. destruct IH. split; [lia|done].
Qed.

Lemma parse_single_safe line pos1 :
  match snd (parse_single line pos1) with Some p => p ≤ length line | None => True end.
Proof.
  unfold parse_single. destruct (find_at " "%char line pos1) as [p|] eqn:E; cbn; [|done].
  apply find_at_range in E. lia.
Qed.

Lemma Parse_loop_safe line types pos1 args :
  match pos1 with Some p => p ≤ length line | None => True end → safe (λ _, True) (Parse_loop line types pos1 args).
Proof.
  revert pos1 args. induction types as [|[name t] types IH]; intros pos1 args Hp; cbn [Parse_loop].
  - destruct pos1; [by destruct (_ <? _)|done].
  - destruct pos1 as [pos1|]; [|done]. destruct (Nat.eqb_spec pos1 (length line)) as [|Hne]; [done|].
    eapply safe_bind; [apply skip_spaces_safe; lia|]. intros p [Hr Hc].
    eapply (safe_bind (λ r, match snd r with Some p => p ≤ length line | None => True end));
      [|intros [s q] Hq; by apply IH].
    unfold parse_arg. destruct t; [apply parse_single_safe| |].
    + rewrite at_pos_ok by lia. cbn [rbind]. destruct (bool_decide _); [|apply parse_single_safe].
      destruct (find_at "034"%char line (S p)) as [p'|] eqn:E; [|done]. apply find_at_range in E. cbn. lia.
    + destruct (length line) as [|last] eqn:El; [lia|].
      eapply safe_bind; [apply (back_spaces_safe line p last); [lia|done]|]. done.
Qed.

Lemma skip_white_ok fuel command pos1 :
  pos1 ≤ length command → length command - pos1 < fuel →
  ∃ p, skip_white fuel command pos1 = Ok p ∧ pos1 ≤ p ≤ length command.
Proof.
  revert pos1. induction fuel as [|fuel IH]; intros pos1 Hp Hf; [lia|]. cbn [skip_white].
  rewrite at_pos_ok by lia. cbn [rbind]. destruct (isspace (char_at command pos1)) eqn:E; [|by exists pos1].
  assert (Hlt : pos1 < length command).
  { eapply char_at_end; [done|]. intros Hn. by rewrite Hn in E. }
  destruct (IH (S pos1)) as (p & Es & Hr); [lia..|]. exists p. split; [exact Es|lia].
Qed.

Lemma SplitArgs_loop_ok `{Trim} fuel command pos1 args :
  pos1 ≤ length command → length command - pos1 < fuel → ∃ r, SplitArgs_loop fuel command pos1 args = Ok r.
Proof.
  revert pos1 args. induction fuel as [|fuel IH]; intros pos1 args Hp Hf; [lia|]. cbn [SplitArgs_loop].
  destruct (skip_white_ok (S (length command)) command pos1) as (p & -> & Hr); [lia..|]. cbn [rbind].
  destruct (Nat.eqb_spec p (length command)) as [|Hne]; [by eexists|]. rewrite at_pos_ok by lia. cbn [rbind].
  destruct (find_at _ command (S p)) as [pos2|] eqn:E; [|by destruct (bool_decide _); eexists].
  apply find_at_range in E. apply IH; lia.
Qed.

(** Cutting up arguments ends and stays within the line.  For every line
    and every grammar the parser gives arguments or refuses the line as a
    syntax error, and never reads before its beginning or past its end;
    cutting at spaces and braces always gives an answer. *)
Lemma Arguments_safe `{Trim} types line :
  (∃ args, Parse types line = Ok args ∨ Parse types line = Throw SyntaxError) ∧ (∃ r, SplitArgs line = Ok r).
Proof.
  split.
  - pose proof (Parse_loop_safe line types (Some 0) [] (Nat.le_0_l _)) as Hs. fold (Parse types line) in Hs.
    destruct (Parse types line) as [a|[]]; try done; [by exists a; left|by exists []; right].
  - apply SplitArgs_loop_ok; lia.
Qed.

(** ** What is written down is read back *)

(** An argument and how it is written *)
Definition print_arg (t : Type_) (s : str) : str :=
  match t with Grouped => "034"%char :: s ++ ["034"%char] | _ => s end.

Definition arg_ok (t : Type_) (s : str) : Prop :=
  match t with
  | Single => s ≠ [] ∧ " "%char ∉ s
  | Grouped => "034"%char ∉ s
  | Multiple => s ≠ [] ∧ head s ≠ Some " "%char ∧ last s ≠ Some " "%char
  end.

Record written := Written { w_name : str; w_type : Type_; w_text : str }.

Definition print_args (l : list written) : str := join " "%char (map (λ w, print_arg (w_type w) (w_text w)) l).

(** Only the last argument may be multiple words. *)
Fixpoint only_last (l : list written) : Prop :=
  match l with
  | [] | [_] => True
  | w :: l => w_type w ≠ Multiple ∧ only_last l
  end.

Lemma char_at_here pre c rest : char_at (pre ++ c :: rest) (length pre) = c.
Proof. unfold char_at. by rewrite list_lookup_middle. Qed.

Lemma find_at_here c pre s rest : c ∉ s → find_at c (pre ++ s ++ c :: rest) (length pre) = Some (length pre + length s).
Proof. intros Hs. unfold find_at. rewrite drop_app_length. by apply find_from_app. Qed.

Lemma find_at_none c pre s : c ∉ s → find_at c (pre ++ s) (length pre) = None.
Proof. intros Hs. unfold find_at. rewrite drop_app_length. by apply find_from_None. Qed.

Lemma substr_here pre s rest : substr (pre ++ s ++ rest) (length pre) (length s) = s.
Proof. unfold substr. by rewrite drop_app_length, take_app_length. Qed.

Lemma skip_spaces_here fuel pre sp c rest :
  c ≠ " "%char → (sp = [] ∨ sp = [" "%char]) → 2 ≤ fuel →
  skip_spaces fuel (pre ++ sp ++ c :: rest) (length pre) = Ok (length (pre ++ sp)).
Proof.
  intros Hc Hsp Hf. destruct fuel as [|[|fuel]]; [lia..|].
  destruct Hsp as [->| ->]; cbn [skip_spaces app]; (rewrite at_pos_ok by (rewrite length_app; cbn; lia)); cbn [rbind]; rewrite char_at_here.
  - rewrite bool_decide_eq_false_2 by done. by rewrite app_nil_r.
  - rewrite bool_decide_eq_true_2 by done. rewrite length_app. cbn [length].
    destruct (Nat.eqb_spec (S (length pre)) (length pre + S (S (length rest)))) as [|_]; [lia|].
    change (pre ++ " "%char :: c :: rest) with (pre ++ [" "%char] ++ c :: rest). rewrite app_assoc.
    replace (S (length pre)) with (length (pre ++ [" "%char])) by (rewrite length_app; cbn; lia).
    rewrite at_pos_ok by (rewrite !length_app; cbn; lia). cbn [rbind]. rewrite char_at_here.
    by rewrite bool_decide_eq_false_2.
Qed.

Lemma parse_single_here pre s rest :
  " "%char ∉ s → (rest = [] ∨ head rest = Some " "%char) →
  parse_single (pre ++ s ++ rest) (length pre) = (s, match rest with [] => None | _ => Some (S (length (pre ++ s))) end).
Proof.
  intros Hs Hr. unfold parse_single. destruct rest as [|c rest].
  - rewrite app_nil_r, find_at_none by done. by rewrite drop_app_length.
  - destruct Hr as [Hr|[= ->]]; [done|]. rewrite find_at_here by done.
    replace (length pre + length s - length pre) with (length s) by lia. by rewrite substr_here, length_app.
Qed.

Lemma parse_arg_here t pre s rest :
  arg_ok t s → (rest = [] ∨ head rest = Some " "%char ∧ t ≠ Multiple) →
  parse_arg (pre ++ print_arg t s ++ rest) t (length pre) =
    Ok (s, match t, rest with Grouped, _ => Some (length (pre ++ print_arg t s)) | _, [] => None | _, _ => Some (S (length (pre ++ s))) end).
Proof.
  intros Hs Hr. destruct t; cbn [print_arg parse_arg arg_ok] in *.
  - destruct Hs as [_ Hs]. rewrite parse_single_here; [done|done|]. destruct Hr as [|[]]; auto.
  - rewrite at_pos_ok by (rewrite length_app; lia). cbn [app rbind]. rewrite char_at_here, bool_decide_eq_true_2 by done.
    change (pre ++ "034"%char :: (s ++ ["034"%char]) ++ rest) with (pre ++ ["034"%char] ++ (s ++ ["034"%char]) ++ rest).
    rewrite <- app_assoc, app_assoc. cbn [app].
    replace (S (length pre)) with (length (pre ++ ["034"%char])) by (rewrite length_app; cbn; lia).
    rewrite find_at_here by done. rewrite (length_app pre). cbn [length].
    replace (length pre + 1 + length s - length pre - 1) with (length s) by lia.
    replace (length pre + 1) with (length (pre ++ ["034"%char])) by (rewrite length_app; cbn; lia).
    rewrite substr_here. do 3 f_equal. rewrite !length_app. cbn. rewrite length_app. cbn. lia.
  - destruct Hr as [->|[]]; [|done]. destruct Hs as (Hne & Hh & Hl). rewrite app_nil_r.
    destruct (exists_last Hne) as (s' & c & ->). rewrite last_snoc in Hl. rewrite app_assoc, length_app. cbn [length].
    rewrite Nat.add_1_r. destruct (pre ++ s') as [|x l] eqn:E0.
    + apply app_eq_nil in E0 as [-> ->]. cbn [length app back_spaces]. rewrite at_pos_ok by (cbn; lia). cbn [rbind].
      rewrite char_at_0, bool_decide_eq_false_2 by congruence. done.
    + rewrite <- E0. assert (Hb : back_spaces ((pre ++ s') ++ [c]) (length (pre ++ s')) = Ok (length (pre ++ s'))).
      { destruct (length (pre ++ s')) as [|n] eqn:En; [by rewrite E0 in En|]. cbn [back_spaces]. rewrite <- En.
        rewrite at_pos_ok by (rewrite (length_app (pre ++ s') [c]); lia). cbn [rbind]. rewrite char_at_here.
        rewrite bool_decide_eq_false_2 by congruence. done. }
      rewrite Hb. cbn [rbind]. rewrite (length_app pre), <- app_assoc.
      replace (length pre + length s' - length pre + 1) with (length (s' ++ [c])) by (rewrite length_app; cbn; lia).
      rewrite <- (app_nil_r (s' ++ [c])) at 1. by rewrite substr_here.
Qed.

Lemma print_arg_head t s : arg_ok t s → ∃ c r, print_arg t s = c :: r ∧ c ≠ " "%char.
Proof.
  destruct t; cbn [arg_ok print_arg].
  - intros [Hne Hs]. destruct s as [|c r]; [done|]. exists c, r. split; [done|]. intros ->. apply Hs, elem_of_cons. by left.
  - intros _. by exists "034"%char, (s ++ ["034"%char]).
  - intros (Hne & Hh & _). destruct s as [|c r]; [done|]. exists c, r. split; [done|]. intros ->. by apply Hh.
Qed.

Lemma Parse_loop_print l pre sp args :
  l ≠ [] → Forall (λ w, arg_ok (w_type w) (w_text w)) l → only_last l → (sp = [] ∨ sp = [" "%char]) →
  Parse_loop (pre ++ sp ++ print_args l) (map (λ w, (w_name w, w_type w)) l) (Some (length pre)) args =
    Ok (args ++ map (λ w, (w_name w, w_text w)) l).
Proof.
  intros Hne Hok. revert Hne pre sp args. induction Hok as [|[n t s] l Hw _ IH]; intros Hne pre sp args Hl Hsp; [done|].
  cbn [w_type w_text] in Hw. destruct (print_arg_head _ _ Hw) as (c & r & Hc & Hcs).
  set (rest := match l with [] => [] | _ => " "%char :: print_args l end).
  assert (Hp : print_args (Written n t s :: l) = print_arg t s ++ rest).
  { unfold print_args, rest. cbn [map w_type w_text]. destruct l; [by rewrite app_nil_r|]. by rewrite join_cons. }
  rewrite Hp. cbn [map Parse_loop w_name w_type w_text].
  destruct (Nat.eqb_spec (length pre) (length (pre ++ sp ++ print_arg t s ++ rest))) as [E|_].
  { rewrite !length_app, Hc in E. cbn in E. lia. }
  assert (Hskip : skip_spaces (S (length (pre ++ sp ++ print_arg t s ++ rest))) (pre ++ sp ++ print_arg t s ++ rest) (length pre) = Ok (length (pre ++ sp))).
  { rewrite Hc. cbn [app]. apply skip_spaces_here; [done..|]. rewrite !length_app. cbn. lia. }
  rewrite Hskip. cbn [rbind]. rewrite app_assoc.
  rewrite parse_arg_here; [|done|unfold rest; destruct l; [by left|right; split; [done|apply Hl]]].
  cbn [rbind fst snd]. destruct l as [|w l].
  - subst rest. cbn [map Parse_loop]. destruct t; [done| |done]. rewrite app_nil_r, Nat.ltb_irrefl. done.
  - specialize (IH ltac:(done)). destruct Hl as [Ht Hl]. subst rest.
    destruct t; [| |done]; cbn [print_arg].
    + specialize (IH ((pre ++ sp) ++ s ++ [" "%char]) [] (args ++ [(n, s)]) Hl ltac:(by left)).
      rewrite app_nil_l, <- !app_assoc in IH. rewrite <- !app_assoc. cbn [app] in IH |- *.
      replace (S (length (pre ++ sp ++ s))) with (length (pre ++ sp ++ s ++ [" "%char])) by (rewrite !length_app; cbn; lia).
      rewrite IH. done.
    + specialize (IH ((pre ++ sp) ++ print_arg Grouped s) [" "%char] (args ++ [(n, s)]) Hl ltac:(by right)).
      rewrite <- !app_assoc in IH. rewrite <- !app_assoc. cbn [print_arg app] in IH |- *.
      rewrite IH. done.
Qed.

(** Arguments are read back as they are written.  For every list of
    arguments, single words, texts in quotes, or several words at the end,
    joined by spaces, the parser for their names and types gives back the names
    and the texts. *)
Lemma Parse_print l :
  l ≠ [] → Forall (λ w, arg_ok (w_type w) (w_text w)) l → only_last l →
  Parse (map (λ w, (w_name w, w_type w)) l) (print_args l) = Ok (map (λ w, (w_name w, w_text w)) l).
Proof. intros Hne Hok Hl. by apply (Parse_loop_print l [] [] []); [..|left]. Qed.

(** The arguments have the names of the grammar. *)
Lemma Parse_loop_names line types pos1 args r :
  Parse_loop line types pos1 args = Ok r → map fst r = map fst args ++ map fst types.
Proof.
  revert pos1 args. induction types as [|[name t] types IH]; intros pos1 args E; cbn [Parse_loop] in E.
  - rewrite app_nil_r. destruct pos1 as [p|]; [destruct (p <? length line); [done|]|]; by injection E as ->.
  - destruct pos1 as [pos1|]; [|done]. destruct (pos1 =? length line); [done|].
    destruct (skip_spaces _ line pos1) as [p|]; [|done]. cbn [rbind] in E.
    destruct (parse_arg line t p) as [[s q]|]; [|done]. cbn [rbind fst snd] in E. apply IH in E. rewrite E, map_app, <- app_assoc. done.
Qed.

Lemma Parse_names types line r : Parse types line = Ok r → map fst r = map fst types.
Proof. apply Parse_loop_names. Qed.

(** ** An example *)

Module Example.

Definition written_args : list written :=
  [Written (lit "path") Single (lit "/incoming"); Written (lit "to") Grouped (lit "two words"); Written (lit "reason") Multiple (lit "is a dupe")].

End Example.
Import Example.

Lemma Parse_print_example :
  Parse [(lit "path", Single); (lit "to", Grouped); (lit "reason", Multiple)] (print_args written_args) =
    Ok [(lit "path", lit "/incoming"); (lit "to", lit "two words"); (lit "reason", lit "is a dupe")].
Proof.
  apply (Parse_print written_args); [discriminate| |split; [discriminate|split; [discriminate|exact I]]].
  repeat constructor; first [discriminate|apply has_char_false; reflexivity].
Defined.
