(* ===== verification/Nuke.v ===== *)
(** * Nukes: cmd/site/nuking.cpp, db/nuking/nuking.cpp, the updates of db/stats/stats.cpp

    A nuke takes from the uploaders of a directory the credits they got for it,
    several times over, and marks the directory; an unnuke gives them back.
    The state is the part of the database concerned, with the calls to the file
    system made so far; what the file system answers may depend on all of
    them.  The theorems: who is charged, for which files; an unnuke gives back
    exactly what the nuke took.

    Queries of the database are a parameter of which only the documented
    meaning is assumed ([QueryOneOk]); the time of a transfer and the calendar in
    the statistics are left out. *)

From stdpp Require Import prelude gmap strings.
From Stdlib Require Import SpecFloat.
From S2P Require Import Prelude CxxString Numbers State Transaction Acl UserData User Path VirtualPath Rights Settings Policies Config Credits Arguments Template.
Local Open Scope Z_scope.
Local Open Scope list_scope.
Local Open Scope st_scope.

(** ** Data: db/nuking/nuking.hpp *)

Record Nukee := MkNukee { n_uid : Z; n_kBytes : Z; n_files : Z; n_credits : Z }.

Record Nuke := MkNuke {
  k_id : str; k_path : str; k_section : str; k_reason : str; k_nuker : Z; k_multiplier : Z;
  k_isPercent : bool; k_modTime : Z; k_nukees : list Nukee
}.

Definition set_credits (c : Z) (n : Nukee) : Nukee := MkNukee (n_uid n) (n_kBytes n) (n_files n) c.

(** [Nuke::KBytes] and [Nuke::Files] *)
Definition Nuke_KBytes (k : Nuke) : Z := foldl (λ a n, a + n_kBytes n) 0 (k_nukees k).
Definition Nuke_Files (k : Nuke) : Z := foldl (λ a n, a + n_files n) 0 (k_nukees k).

(** [Nuke::Unnuke] *)
Definition Nuke_Unnuke (id reason : str) (nuker : Z) (k : Nuke) : Nuke :=
  MkNuke id (k_path k) (k_section k) reason nuker (k_multiplier k) (k_isPercent k) (k_modTime k) (k_nukees k).

(** ** The world *)

Inductive fsop : Type :=
  | DeleteFile (path : str)
  | RemoveDirectory (path : str)
  | Rename_ (oldPath newPath : str)
  | SetNukeID (path id : str)
  | RemoveNukeID (path : str).

Record Entry := { e_path : str; e_regular : bool; e_directory : bool; e_size : Z; e_owner : Z }.

(** What the file system answers after the calls made so far: what a directory
    contains, at all depths, or the exception; its modification time; its owner;
    its nuke id, if it has one; and the result of a call *)
Record Disk := {
  contents : list fsop → str → result str (list Entry); modTime : list fsop → str → result str Z;
  owner : list fsop → str → Z; GetNukeID : list fsop → str → str; answer : list fsop → fsop → error
}.

(** The users and the kilobytes and files of a user in a section, the two
    collections, the credit rules, the calls, and how many ids were generated *)
Record World := MkWorld {
  users : gmap Z UserData; transfers : gmap (Z * str) (Z * Z); nukes : list Nuke; unnukes : list Nuke;
  rules : list CreditRule; ops : list fsop; oids : nat
}.

Definition set_users v w := MkWorld v (transfers w) (nukes w) (unnukes w) (rules w) (ops w) (oids w).
Definition set_transfers v w := MkWorld (users w) v (nukes w) (unnukes w) (rules w) (ops w) (oids w).
Definition set_nukes v w := MkWorld (users w) (transfers w) v (unnukes w) (rules w) (ops w) (oids w).
Definition set_unnukes v w := MkWorld (users w) (transfers w) (nukes w) v (rules w) (ops w) (oids w).
Definition set_rules v w := MkWorld (users w) (transfers w) (nukes w) (unnukes w) v (ops w) (oids w).
Definition set_ops v w := MkWorld (users w) (transfers w) (nukes w) (unnukes w) (rules w) v (oids w).
Definition set_oids v w := MkWorld (users w) (transfers w) (nukes w) (unnukes w) (rules w) (ops w) v.

(** [util::RuntimeError], and what the code does not define *)
Inductive nuke_error : Type := RuntimeError (message : str) | Undefined_.

Notation M := (ST World nuke_error).

(** [QueryOne] with a condition *)
Class QueryOne := query_one : (Nuke → bool) → list Nuke → option Nuke.

(** Documented: some document that satisfies the query, if there is one *)
Class QueryOneOk `{QueryOne} : Prop := {
  query_one_some f l k : query_one f l = Some k → k ∈ l ∧ f k = true;
  query_one_none f l : query_one f l = None → ∀ k, k ∈ l → f k = false
}.

Definition user_credits (uid : Z) (section : str) (w : World) : option Z := users w !! uid ≫= λ u, UserData.credits u !! section.

(** The changes of the credits of a user who is in the database *)
Definition update_credits (uid : Z) (f : gmap str Z → gmap str Z) (w : World) : World :=
  set_users (alter (λ u, Transaction.set f_credits (f (UserData.credits u)) u) uid (users w)) w.

Definition DecrSectionCreditsForce (uid : Z) (section : str) (kBytes : Z) : World → World :=
  update_credits uid (λ c, snd (DecrCredits section kBytes true c)).
Definition IncrSectionCredits (uid : Z) (section : str) (kBytes : Z) : World → World :=
  update_credits uid (IncrCredits section kBytes).

(** ** Statistics: db/stats/stats.cpp *)

(** [Update] of the uploads: an upsert that adds *)
Definition Update (uid kBytes files : Z) (section : str) (decrement : bool) (w : World) : World :=
  let '(kBytes, files) := if decrement then (- kBytes, - files) else (kBytes, files) in
  let '(k, f) := default (0, 0) (transfers w !! (uid, section)) in
  set_transfers (<[(uid, section) := (k + kBytes, f + files)]> (transfers w)) w.

Definition UploadIncr (uid kBytes : Z) (section : str) (files : Z) (w : World) : World :=
  match section with
  | [] => w
  | _ => Update uid kBytes files section false (Update uid kBytes files [] true w)
  end.

Definition UploadDecr (uid kBytes : Z) (section : str) (files : Z) (w : World) : World :=
  match section with
  | [] => w
  | _ => Update uid kBytes files [] false (Update uid kBytes files section true w)
  end.

(** ** Numbers *)

(** Conversion of a [double] that is in range to [long long] *)
Definition Z_of_double (d : double) : Z :=
  match d with
  | S754_finite s m e =>
      let n := if 0 <=? e then Z.pos m * 2 ^ e else Z.pos m / 2 ^ (- e) in
      if s then - n else n
  | _ => 0
  end.

(** [SectionCredits * (multiplier / 100.0)], cut off at zero *)
Definition percent_of (credits multiplier : Z) : Z :=
  let percent := double_div (double_of_Z multiplier) (double_of_Z 100) in
  Z.max 0 (Z_of_double (SFmul 53 1024 (double_of_Z credits) percent)).

(** ** [Nuke] *)

(** The entry of a user in the sorted map of nukees, which [nukees[uid]] makes if
    there is none *)
Fixpoint at_nukee (uid : Z) (f : Nukee → Nukee) (l : list Nukee) : list Nukee :=
  match l with
  | [] => [f (MkNukee uid 0 0 0)]
  | n :: l' =>
      if n_uid n =? uid then f n :: l'
      else if uid <? n_uid n then f (MkNukee uid 0 0 0) :: l
      else n :: at_nukee uid f l'
  end.

(** A file that counts: not hidden, and a regular file *)
Definition counts (e : Entry) : bool :=
  bool_decide (head (Basename (e_path e)) ≠ Some "."%char) && e_regular e.

Definition add_file (kBytes : Z) (n : Nukee) : Nukee :=
  MkNukee (n_uid n) (n_kBytes n + kBytes) (n_files n + 1) (n_credits n).

(** The loop of [CalculateNukees]: the nukees and the total *)
Fixpoint CalculateNukees_loop (l : list Entry) (nukees : list Nukee) (total : Z) : list Nukee * Z :=
  match l with
  | [] => (nukees, total)
  | e :: l =>
      if counts e then
        let kBytes := Z.quot (e_size e) 1024 in
        CalculateNukees_loop l (at_nukee (e_owner e) (add_file kBytes) nukees) (total + kBytes)
      else CalculateNukees_loop l nukees total
  end.

Section nuke.
Context `{Split, CaseConv, Fnmatch, ReplaceAll, QueryOne}.
Context (disk : Disk) (GIDToName : Z → str) (gen_id : nat → str).
(** The configuration: the section of the path, the sections by name and whether
    their credits are separate, and the nuke style, with whatever its
    uninitialised [action] holds *)
Context (section : option SectionDef) (sections : gmap str bool) (style : NukeStyle) (act : NukeAction).

(** A call to the file system *)
Definition call (op : fsop) : M error := λ w, (Ok (answer disk (ops w) op), set_ops (ops w ++ [op]) w).

Definition listing (path : str) : M (list Entry) := λ w,
  (match contents disk (ops w) path with Ok l => Ok l | Throw e => Throw (RuntimeError e) end, w).

(** [mongo::OID::gen().toString()] *)
Definition new_id : M str := λ w, (Ok (gen_id (oids w)), set_oids (S (oids w)) w).

Definition NukedPath (path : str) : str :=
  Join (Dirname path) (replace_all (format style) (lit "%N") (Basename path)).

Definition CalculateNukees (real : str) : M (list Nukee * Z * Z) :=
  t <- (λ w, (match modTime disk (ops w) real with Ok t => Ok t | Throw e => Throw (RuntimeError e) end, w));;
  l <- listing real;;
  let '(nukees, total) := CalculateNukees_loop l [] 0 in st_ret (nukees, total, t).

Definition TakeCreditsEmpty (real sectionName : str) (nukees : list Nukee) : M (list Nukee) :=
  let take uid : M unit := st_modify (DecrSectionCreditsForce uid sectionName (emptyPenalty style)) in
  match nukees with
  | [] =>
      o <- st_gets (λ w, owner disk (ops w) real);;
      take o;;; st_ret [MkNukee o 0 0 (emptyPenalty style)]
  | _ => st_map (λ n, take (n_uid n);;; st_ret (set_credits (emptyPenalty style) n)) nukees
  end.

(** The credits of one nukee.  The user is used before it is tested whether there
    is one. *)
Definition nukee_credits (path sectionName : str) (multiplier : Z) (isPercent : bool) (n : Nukee) : M Z :=
  user <- st_gets (λ w, users w !! n_uid n);;
  match user with
  | None => st_throw Undefined_
  | Some u =>
      if isPercent then st_ret (percent_of (SectionCredits u sectionName) multiplier)
      else
        ratio <- (λ w, let '(r, l) := UploadRatio GIDToName u (Join path (lit "dummy-file"))
                                        (s ← section; Some (s_name s, s_ratio s)) (rules w) in
                       (Ok r, set_rules l w));;
        st_ret (if ratio =? 0 then 0 else n_kBytes n * ratio + n_kBytes n * (multiplier - 1))
  end.

Definition TakeCreditsNotEmpty (path sectionName : str) (multiplier : Z) (isPercent : bool) (nukees : list Nukee) : M (list Nukee) :=
  st_map (λ n,
    c <- nukee_credits path sectionName multiplier isPercent n;;
    st_modify (DecrSectionCreditsForce (n_uid n) sectionName c);;;
    st_ret (set_credits c n)) nukees.

(** The section whose credits are taken *)
Definition credits_of_section : str :=
  match section with Some s => if separateCredits s then s_name s else [] | None => [] end.

Definition section_name : str := match section with Some s => s_name s | None => [] end.

Definition TakeCredits (path real : str) (multiplier : Z) (isPercent : bool) (nukees : list Nukee) (total : Z) : M (list Nukee) :=
  if multiplier =? 0 then st_ret nukees
  else if total <? emptyKBytes style then TakeCreditsEmpty real credits_of_section nukees
  else TakeCreditsNotEmpty path credits_of_section multiplier isPercent nukees.

Definition TakeStats (nukees : list Nukee) : M unit :=
  st_iter (λ n, if 0 <? n_kBytes n then st_modify (UploadDecr (n_uid n) (n_kBytes n) section_name (n_files n)) else st_ret tt) nukees.

(** ** The collections: db/nuking/nuking.cpp *)

Definition with_path (path : str) (k : Nuke) : bool := bool_decide (k_path k = path).
Definition with_id (id : str) (k : Nuke) : bool := bool_decide (k_id k = id).

(** [LookupNukeByID], [LookupNukeByPath] and those of the unnukes *)
Definition LookupByID (id : str) (l : list Nuke) : option Nuke := query_one (with_id id) l.
Definition LookupByPath (path : str) (l : list Nuke) : option Nuke := query_one (with_path path) l.

(** [DelNuke] and [DelUnnuke] remove every document with the path. *)
Definition Del (k : Nuke) (l : list Nuke) : list Nuke := filter (λ x, k_path x ≠ k_path k) l.

(** The lookup by the id a directory carries, and then by path *)
Definition lookup_either (id path : str) (l : list Nuke) : option Nuke :=
  match (if bool_decide (id ≠ []) then LookupByID id l else None) with
  | Some k => Some k
  | None => LookupByPath path l
  end.

Definition UpdateDatabase (path real reason : str) (nuker multiplier : Z) (isPercent : bool) (mtime : Z) (nukees : list Nukee) : M Nuke :=
  unnuke <- st_gets (λ w, lookup_either (GetNukeID disk (ops w) real) path (unnukes w));;
  st_modify (λ w, match unnuke with Some k => set_unnukes (Del k (unnukes w)) w | None => w end);;;
  id <- new_id;;
  let k := MkNuke id path section_name reason nuker multiplier isPercent mtime nukees in
  st_modify (λ w, set_nukes (nukes w ++ [k]) w);;;
  st_ret k.

(** ** The directory *)

Definition DeleteFiles (real : str) : M unit :=
  l <- listing real;;
  st_iter (λ e, if e_regular e then (call (DeleteFile (e_path e));;; st_ret tt) else st_ret tt) l.

Definition DeleteDirectories (real : str) : M unit :=
  l <- listing real;;
  st_iter (λ e, if e_directory e then (call (RemoveDirectory (e_path e));;; st_ret tt) else st_ret tt) l.

(** Errors are logged. *)
Definition DeleteContents (real : str) : M unit := λ w,
  match (DeleteFiles real;;; DeleteDirectories real) w with
  | (Throw (RuntimeError _), w) => (Ok tt, w)
  | r => r
  end.

Definition Delete (real : str) : M unit := call (RemoveDirectory real);;; st_ret tt.

Definition Rename (real : str) (k : Nuke) : M unit :=
  e <- call (Rename_ real (NukedPath real));;
  call (SetNukeID (if err_ok e then NukedPath real else real) (k_id k));;;
  st_ret tt.

Definition ActionTheDirectory (real : str) (k : Nuke) : M unit :=
  (match act with Keep => st_ret tt | _ => DeleteContents real end);;;
  match act with DeleteAll => Delete real | _ => Rename real k end.

(** [real] is [MakeReal(path)]. *)
Definition DoNuke (path real : str) (multiplier : Z) (isPercent : bool) (reason : str) (nuker : Z) : M Nuke :=
  r <- CalculateNukees real;;
  let '(nukees, total, mtime) := r in
  nukees <- TakeCredits path real multiplier isPercent nukees total;;
  TakeStats nukees;;;
  k <- UpdateDatabase path real reason nuker multiplier isPercent mtime nukees;;
  ActionTheDirectory real k;;;
  st_ret k.

(** ** [Unnuke] *)

Definition LookupNuke (path real : str) : M Nuke :=
  k <- st_gets (λ w, lookup_either (GetNukeID disk (ops w) (NukedPath real)) path (nukes w));;
  match k with Some k => st_ret k | None => st_throw (RuntimeError (lit "Unable to locate nuke data")) end.

(** The section whose credits are given back *)
Definition restored_section (k : Nuke) : str :=
  if default false (sections !! k_section k) then k_section k else [].

Definition RestoreCredits (k : Nuke) : M unit :=
  st_iter (λ n, st_modify (IncrSectionCredits (n_uid n) (restored_section k) (n_credits n))) (k_nukees k).

(** The files are those of all nukees. *)
Definition RestoreStats (k : Nuke) : M unit :=
  st_iter (λ n, if (0 <? n_kBytes n) || (0 <? n_files n)
                then st_modify (UploadIncr (n_uid n) (n_kBytes n) (k_section k) (Nuke_Files k)) else st_ret tt) (k_nukees k).

Definition Rename_back (real : str) : M unit :=
  call (RemoveNukeID (NukedPath real));;; call (Rename_ (NukedPath real) real);;; st_ret tt.

Definition UpdateDatabase_unnuke (real reason : str) (nuker : Z) (k : Nuke) : M Nuke :=
  st_modify (λ w, set_nukes (Del k (nukes w)) w);;;
  id <- new_id;;
  let k := Nuke_Unnuke id reason nuker k in
  st_modify (λ w, set_unnukes (unnukes w ++ [k]) w);;;
  call (SetNukeID real (k_id k));;;
  st_ret k.

Definition DoUnnuke (path real reason : str) (nuker : Z) : M Nuke :=
  k <- LookupNuke path real;;
  RestoreCredits k;;;
  RestoreStats k;;;
  Rename_back real;;;
  UpdateDatabase_unnuke real reason nuker k.

End nuke.

(** ** Whose files are counted *)

Definition nukee_at (uid : Z) (l : list Nukee) : option Nukee := List.find (λ n, n_uid n =? uid) l.

(** Sorted by uid, each once *)
Definition above (uid : Z) (l : list Nukee) : Prop := Forall (λ n, uid < n_uid n) l.

Fixpoint sorted (l : list Nukee) : Prop :=
  match l with [] => True | n :: l => above (n_uid n) l ∧ sorted l end.

Lemma above_none uid l : above uid l → nukee_at uid l = None.
Proof.
  intros Ha. unfold nukee_at. induction Ha as [|n l Hn _ IH]; cbn; [done|].
  by rewrite (proj2 (Z.eqb_neq _ _)) by lia.
Qed.

Lemma above_trans a b l : a < b → above b l → above a l.
Proof. intros Hab Hb. eapply Forall_impl; [exact Hb|]. cbn. lia. Qed.

Lemma at_nukee_above a uid f l :
  (∀ n, n_uid (f n) = n_uid n) → a < uid → above a l → above a (at_nukee uid f l).
Proof.
  intros Hf Ha Hl. induction Hl as [|n l Hn Hl IH]; cbn [at_nukee].
  - constructor; [by rewrite Hf|constructor].
  - destruct (n_uid n =? uid); [by constructor; [rewrite Hf|]|].
    destruct (uid <? n_uid n); [constructor; [by rewrite Hf|by constructor]|by constructor].
Qed.

Lemma at_nukee_sorted uid f l : (∀ n, n_uid (f n) = n_uid n) → sorted l → sorted (at_nukee uid f l).
Proof.
  intros Hf. induction l as [|n l IH]; intros Hs; cbn [at_nukee]; [by split; [constructor|]|]. destruct Hs as [Ha Hs].
  destruct (Z.eqb_spec (n_uid n) uid) as [<-|Hne]; [by split; [rewrite Hf|]|].
  destruct (Z.ltb_spec uid (n_uid n)) as [Hlt|Hge].
  - split; [|by split]. rewrite Hf. constructor; [done|]. by eapply above_trans.
  - split; [apply at_nukee_above; [done|lia|done]|by apply IH].
Qed.

Lemma at_nukee_find uid uid' f l :
  (∀ n, n_uid (f n) = n_uid n) → sorted l →
  nukee_at uid (at_nukee uid' f l) =
    if uid =? uid' then Some (f (default (MkNukee uid' 0 0 0) (nukee_at uid' l))) else nukee_at uid l.
Proof.
  intros Hf. unfold nukee_at. induction l as [|n l IH]; intros Hs; cbn [at_nukee List.find].
  - rewrite Hf. cbn [n_uid default]. by rewrite Z.eqb_sym.
  - destruct Hs as [Ha Hs]. destruct (Z.eqb_spec (n_uid n) uid') as [<-|Hne]; cbn [List.find].
    + rewrite Hf, (Z.eqb_sym uid). by destruct (n_uid n =? uid).
    + destruct (Z.ltb_spec uid' (n_uid n)) as [Hlt|Hge]; cbn [List.find].
      * rewrite Hf. cbn [n_uid]. rewrite (Z.eqb_sym uid' uid). destruct (Z.eqb_spec uid uid') as [->|Hu]; [|done].
        fold (nukee_at uid' l). rewrite above_none; [done|]. by eapply above_trans.
      * rewrite IH by done. destruct (Z.eqb_spec (n_uid n) uid) as [<-|Hu]; [|done].
        by rewrite (proj2 (Z.eqb_neq _ _)) by lia.
Qed.

(** The reference: the kilobytes and the files of one user *)
Definition owned (uid : Z) (l : list Entry) : list Entry := filter (λ e, counts e = true ∧ e_owner e = uid) l.
Definition kBytes_of (l : list Entry) : Z := foldr (λ e a, Z.quot (e_size e) 1024 + a) 0 l.
Lemma kBytes_of_cons e l : kBytes_of (e :: l) = Z.quot (e_size e) 1024 + kBytes_of l.
Proof. done. Qed.

Definition visible_files (l : list Entry) : list Entry := filter (λ e, counts e = true) l.

(** What the map holds of a user when [l] is counted on top of [n] *)
Definition counted_on (uid : Z) (l : list Entry) (n : option Nukee) : option Nukee :=
  match owned uid l with
  | [] => n
  | _ => let n := default (MkNukee uid 0 0 0) n in
         Some (MkNukee (n_uid n) (n_kBytes n + kBytes_of (owned uid l)) (n_files n + Z.of_nat (length (owned uid l))) (n_credits n))
  end.

Lemma counted_on_cons e l uid n :
  counts e = true → e_owner e = uid →
  counted_on uid l (Some (add_file (Z.quot (e_size e) 1024) (default (MkNukee uid 0 0 0) n))) = counted_on uid (e :: l) n.
Proof.
  intros Hc He. unfold counted_on, owned. rewrite filter_cons_True by done.
  destruct (filter _ l) as [|e' l'] eqn:El; cbn [default kBytes_of foldr length n_uid n_kBytes n_files n_credits add_file].
  - f_equal; unfold add_file; cbn -[Z.quot]; f_equal; lia.
  - f_equal; unfold add_file; cbn -[Z.quot]; f_equal; lia.
Qed.

Lemma CalculateNukees_loop_spec l nukees total :
  sorted nukees →
  let '(ns, t) := CalculateNukees_loop l nukees total in
  sorted ns ∧ (∀ uid, nukee_at uid ns = counted_on uid l (nukee_at uid nukees)) ∧
  t = total + kBytes_of (visible_files l).
Proof.
  revert nukees total. induction l as [|e l IH]; intros nukees total Hs; cbn [CalculateNukees_loop].
  - split; [done|]. split; [intros uid; reflexivity|]. cbn. lia.
  - destruct (counts e) eqn:Hc.
    + specialize (IH (at_nukee (e_owner e) (add_file (Z.quot (e_size e) 1024)) nukees) (total + Z.quot (e_size e) 1024)
                     ltac:(by apply at_nukee_sorted)).
      destruct (CalculateNukees_loop l _ _) as [ns t]. destruct IH as (Hns & Hat & ->). split; [done|]. split.
      * intros uid. rewrite Hat, at_nukee_find by done. destruct (Z.eqb_spec uid (e_owner e)) as [->|Hne].
        -- by apply counted_on_cons.
        -- unfold counted_on, owned. rewrite filter_cons_False; [done|]. intros [_ He]. by apply Hne.
      * unfold visible_files. rewrite filter_cons_True by done. rewrite kBytes_of_cons. lia.
    + specialize (IH nukees total Hs). destruct (CalculateNukees_loop l nukees total) as [ns t].
      destruct IH as (Hns & Hat & ->). split; [done|]. split.
      * intros uid. rewrite Hat. unfold counted_on, owned. rewrite filter_cons_False; [done|]. intros [He _]. congruence.
      * unfold visible_files. rewrite filter_cons_False by congruence. done.
Qed.

(** Whose files a nuke counts.  The nukees are those who own a visible
    file in the directory, each once and in the order of their ids, with the
    kilobytes and the number of their visible files; and the total is that of
    all visible files. *)
Lemma CalculateNukees_spec l ns t :
  CalculateNukees_loop l [] 0 = (ns, t) →
  sorted ns ∧ t = kBytes_of (visible_files l) ∧
  ∀ uid, nukee_at uid ns =
    match owned uid l with
    | [] => None
    | own => Some (MkNukee uid (kBytes_of own) (Z.of_nat (length own)) 0)
    end.
Proof.
  intros E. pose proof (CalculateNukees_loop_spec l [] 0 I) as Hs. rewrite E in Hs. destruct Hs as (Hs & Hat & ->).
  split; [done|]. split; [lia|]. intros uid. rewrite Hat. unfold counted_on.
  destruct (owned uid l) as [|e l'] eqn:El; [done|]. cbn [default n_uid n_kBytes n_files n_credits nukee_at List.find].
  do 2 f_equal; lia.
Qed.

(** ** An unnuke gives back what the nuke took *)

(** A change of one user per nukee *)
Definition each_nukee (h : Nukee → UserData → UserData) (l : list Nukee) (us : gmap Z UserData) : gmap Z UserData :=
  foldl (λ us n, alter (h n) (n_uid n) us) us l.

Definition charge (sec : str) (n : Nukee) (u : UserData) : UserData :=
  Transaction.set f_credits (snd (DecrCredits sec (n_credits n) true (UserData.credits u))) u.
Definition refund (sec : str) (n : Nukee) (u : UserData) : UserData :=
  Transaction.set f_credits (IncrCredits sec (n_credits n) (UserData.credits u)) u.

Lemma each_nukee_lookup h l us uid :
  sorted l → each_nukee h l us !! uid = match nukee_at uid l with Some n => h n <$> us !! uid | None => us !! uid end.
Proof.
  unfold each_nukee, nukee_at. revert us. induction l as [|n l IH]; intros us Hs; [done|]. destruct Hs as [Ha Hs].
  cbn [foldl List.find]. rewrite IH by done. destruct (Z.eqb_spec (n_uid n) uid) as [<-|Hne].
  - fold (nukee_at (n_uid n) l). rewrite above_none by done. by rewrite lookup_alter_eq.
  - by rewrite lookup_alter_ne.
Qed.

Lemma sorted_uids l l' : map n_uid l = map n_uid l' → sorted l → sorted l'.
Proof.
  revert l'. induction l as [|n l IH]; intros [|n' l'] E Hs; try done. injection E as En El. destruct Hs as [Ha Hs].
  split; [|by apply IH]. clear IH Hs. unfold above in *. rewrite En in Ha.
  revert l' El. induction Ha as [|m l Hm _ IHa]; intros [|m' l'] El; try done. injection El as Em El.
  constructor; [by rewrite <- Em|by apply IHa].
Qed.

Lemma nukee_at_In l n : sorted l → List.In n l → nukee_at (n_uid n) l = Some n.
Proof.
  unfold nukee_at. induction l as [|m l IH]; intros Hs Hn; [done|]. destruct Hs as [Ha Hs]. cbn [List.find].
  destruct Hn as [->|Hn]; [by rewrite Z.eqb_refl|]. unfold above in Ha. rewrite List.Forall_forall in Ha.
  specialize (Ha _ Hn). destruct (Z.eqb_spec (n_uid m) (n_uid n)); [lia|]. by apply IH.
Qed.

Lemma charge_zero sec n u : n_credits n = 0 → charge sec n u = u.
Proof. intros Hn. unfold charge, DecrCredits. rewrite Hn. cbn [Z.eqb snd]. by destruct u. Qed.

Lemma each_nukee_zero sec l us : sorted l → Forall (λ n, n_credits n = 0) l → each_nukee (charge sec) l us = us.
Proof.
  intros Hs Hz. apply map_eq. intros uid. rewrite each_nukee_lookup by done.
  destruct (nukee_at uid l) as [n|] eqn:En; [|done]. apply List.find_some in En as [Hn _].
  rewrite List.Forall_forall in Hz. destruct (us !! uid) as [u|]; [|done]. change (Some (charge sec n u) = Some u). f_equal. apply charge_zero. by apply Hz.
Qed.

Lemma charge_refund sec n u c : UserData.credits u !! sec = Some c → refund sec n (charge sec n u) = u.
Proof.
  intros Hc. unfold refund, charge.
  replace (UserData.credits (Transaction.set f_credits (snd (DecrCredits sec (n_credits n) true (UserData.credits u))) u))
    with (snd (DecrCredits sec (n_credits n) true (UserData.credits u))) by by destruct u.
  rewrite (IncrCredits_DecrCredits _ _ _ _ Hc). by destruct u.
Qed.

Lemma users_update uid f w :
  users (update_credits uid f w) = alter (λ u, Transaction.set f_credits (f (UserData.credits u)) u) uid (users w).
Proof. done. Qed.

Lemma st_map_charge (sec : str) (f : Nukee → M Nukee) l l' w w' :
  (∀ n w n' w', f n w = (Ok n', w') → n_uid n' = n_uid n ∧ users w' = alter (charge sec n') (n_uid n') (users w)) →
  st_map f l w = (Ok l', w') → map n_uid l' = map n_uid l ∧ users w' = each_nukee (charge sec) l' (users w).
Proof.
  intros Hf. revert l' w. induction l as [|n l IH]; intros l' w E.
  - by injection E as <- <-.
  - apply st_bind_Ok in E as (n' & w1 & E1 & E). apply st_bind_Ok in E as (l1 & w2 & E2 & E).
    injection E as <- <-. apply Hf in E1 as [Hu E1]. apply IH in E2 as [Hu2 ->]. split; [cbn; congruence|].
    cbn [each_nukee foldl]. by rewrite E1.
Qed.

Section roundtrip.
Context `{Split, CaseConv, Fnmatch, ReplaceAll, QueryOne, !QueryOneOk}.
Context (disk : Disk) (GIDToName : Z → str) (gen_id : nat → str).
Context (section : option SectionDef) (sections : gmap str bool) (style : NukeStyle) (act : NukeAction).

Abbreviation csec := (credits_of_section section).

Lemma nukee_credits_users path multiplier isPercent n w c w' :
  nukee_credits GIDToName section path csec multiplier isPercent n w = (Ok c, w') → users w' = users w.
Proof.
  unfold nukee_credits. intros E. apply st_bind_Ok in E as (u & w1 & [= <- <-] & E).
  destruct (users w !! n_uid n) as [u|]; [|done]. destruct isPercent; [by injection E as _ <-|].
  apply st_bind_Ok in E as (r & w1 & E1 & [= _ <-]). destruct (UploadRatio _ _ _ _ _) as [r1 l]. by injection E1 as _ <-.
Qed.

Lemma TakeCredits_users path real multiplier isPercent ns total w ns' w' :
  sorted ns → Forall (λ n, n_credits n = 0) ns →
  TakeCredits disk GIDToName section style path real multiplier isPercent ns total w = (Ok ns', w') →
  sorted ns' ∧ users w' = each_nukee (charge csec) ns' (users w) ∧ nukes w' = nukes w ∧ oids w' = oids w.
Proof.
  intros Hs Hz. unfold TakeCredits.
  assert (Hkeep : ∀ {B} (f : World → B) (g : Nukee → M Nukee), (∀ n, st_keeps f (g n)) → ∀ l, st_keeps f (st_map g l)).
  { intros B f g Hg l. induction l as [|n l IH]; [done|]. apply st_keeps_bind; [done|]. intros b. by apply st_keeps_bind. }
  destruct (multiplier =? 0); [intros [= <- <-]; split; [done|]; by rewrite each_nukee_zero|].
  destruct (total <? emptyKBytes style).
  - unfold TakeCreditsEmpty. destruct ns as [|n ns].
    + intros [= <- <-]. split; [by split; [constructor|]|]. done.
    + intros E. pose proof (f_equal snd E) as Ew. cbn [snd] in Ew. split; [|split; [|split]].
      * eapply sorted_uids; [|exact Hs]. symmetry. eapply (st_map_charge csec) in E as [E _]; [done|].
        intros m v m' v' [= <- <-]. by split.
      * eapply (st_map_charge csec) in E as [_ E]; [done|]. intros m v m' v' [= <- <-]. by split.
      * rewrite <- Ew. apply Hkeep. by intros ??.
      * rewrite <- Ew. apply Hkeep. by intros ??.
  - unfold TakeCreditsNotEmpty. intros E. pose proof (f_equal snd E) as Ew. cbn [snd] in Ew.
    assert (Hk : ∀ {B} (f : World → B), (∀ l w, f (set_rules l w) = f w) → (∀ u w, f (set_users u w) = f w) →
      ∀ n, st_keeps f (c <- nukee_credits GIDToName section path csec multiplier isPercent n;;
                       st_modify (DecrSectionCreditsForce (n_uid n) csec c);;; st_ret (set_credits c n))).
    { intros B f Hr Hu n. apply st_keeps_bind; [|intros c v; apply Hu].
      apply st_keeps_bind; [done|]. intros [u|]; [|done]. destruct isPercent; [done|]. apply st_keeps_bind; [|done].
      intros v. destruct (UploadRatio _ _ _ _ _). apply Hr. }
    eassert (Hc := st_map_charge csec _ _ _ _ _ _ E). Unshelve.
    2:{ intros m v m' v' Em. apply st_bind_Ok in Em as (c & v1 & Ec & [= <- <-]).
        apply nukee_credits_users in Ec. split; [done|]. cbn. by rewrite Ec. }
    destruct Hc as [Hu Hc]. split; [by eapply sorted_uids|]. split; [done|].
    split; rewrite <- Ew; apply Hkeep; by apply Hk.
Qed.

(** Calls to the file system change nothing of the database. *)
Lemma call_keeps {B} (f : World → B) op : (∀ v w, f (set_ops v w) = f w) → st_keeps f (call disk op).
Proof. intros Hf w. apply Hf. Qed.

Lemma calls_keep {B} (f : World → B) real k :
  (∀ v w, f (set_ops v w) = f w) → st_keeps f (ActionTheDirectory disk style act real k).
Proof.
  intros Hf. pose proof (λ op, call_keeps f op Hf) as Hc.
  assert (Hi : ∀ (b : Entry → bool) (o : Entry → fsop) l, st_keeps f (st_iter (λ e, if b e then (call disk (o e);;; st_ret tt) else st_ret tt) l)).
  { intros b o l. apply st_keeps_iter. intros e. destruct (b e); [|done]. by apply st_keeps_bind. }
  assert (Hd : st_keeps f (DeleteContents disk real)).
  { assert (Hb : st_keeps f (DeleteFiles disk real;;; DeleteDirectories disk real)).
    { apply st_keeps_bind; [|intros _]; (apply st_keeps_bind; [done|intros l; apply Hi]). }
    intros w. specialize (Hb w). unfold DeleteContents. by destruct ((DeleteFiles disk real;;; DeleteDirectories disk real) w) as [[|[]] w']. }
  unfold ActionTheDirectory. apply st_keeps_bind; [by destruct act|]. intros _.
  destruct act; repeat (apply st_keeps_bind; [by auto|intros ?]); done.
Qed.

Lemma TakeStats_ok ns w : ∃ w', TakeStats section ns w = (Ok tt, w').
Proof. apply st_iter_ok. intros n v. destruct (0 <? n_kBytes n); by eexists. Qed.

Lemma Update_keeps {B} (f : World → B) uid k fi sec d w : (∀ v w, f (set_transfers v w) = f w) → f (Update uid k fi sec d w) = f w.
Proof. intros Hf. unfold Update. repeat case_match; apply Hf. Qed.

Lemma UploadIncr_keeps {B} (f : World → B) uid k sec fi w : (∀ v w, f (set_transfers v w) = f w) → f (UploadIncr uid k sec fi w) = f w.
Proof. intros Hf. unfold UploadIncr. destruct sec; [done|]. by rewrite !Update_keeps. Qed.

Lemma UploadDecr_keeps {B} (f : World → B) uid k sec fi w : (∀ v w, f (set_transfers v w) = f w) → f (UploadDecr uid k sec fi w) = f w.
Proof. intros Hf. unfold UploadDecr. destruct sec; [done|]. by rewrite !Update_keeps. Qed.

Lemma TakeStats_keeps {B} (f : World → B) ns : (∀ v w, f (set_transfers v w) = f w) → st_keeps f (TakeStats section ns).
Proof.
  intros Hf. apply st_keeps_iter. intros n w. destruct (0 <? n_kBytes n); [|done]. by apply UploadDecr_keeps.
Qed.

(** What a nuke leaves in the database *)
Lemma DoNuke_spec path real multiplier isPercent reason nuker w k w' :
  DoNuke disk GIDToName gen_id section style act path real multiplier isPercent reason nuker w = (Ok k, w') →
  users w' = each_nukee (charge csec) (k_nukees k) (users w) ∧ sorted (k_nukees k) ∧
  nukes w' = nukes w ++ [k] ∧ k_path k = path ∧ k_section k = section_name section ∧ k_id k = gen_id (oids w).
Proof.
  unfold DoNuke. intros E. apply st_bind_Ok in E as ([[ns total] mt] & w1 & E1 & E).
  assert (Hc : w1 = w ∧ sorted ns ∧ Forall (λ n, n_credits n = 0) ns).
  { unfold CalculateNukees in E1. apply st_bind_Ok in E1 as (t & v & Et & E1). assert (v = w) as -> by (by destruct (modTime disk (ops w) real); injection Et).
    apply st_bind_Ok in E1 as (l & v & El & E1). assert (v = w) as -> by (unfold listing in El; by destruct (contents disk (ops w) real); injection El).
    destruct (CalculateNukees_loop l [] 0) as [ns0 t0] eqn:Ec. injection E1 as <- _ _ <-. split; [done|].
    pose proof (CalculateNukees_loop_spec l [] 0 I) as Hs. rewrite Ec in Hs. destruct Hs as (Hs & Hat & _). split; [done|].
    apply List.Forall_forall. intros n Hn. clear Ec. specialize (Hat (n_uid n)).
    assert (Hfind : nukee_at (n_uid n) ns0 = Some n).
    { by apply nukee_at_In. }
    rewrite Hfind in Hat. unfold counted_on in Hat. destruct (owned (n_uid n) l); [done|]. by injection Hat as ->. }
  destruct Hc as (-> & Hs & Hz). apply st_bind_Ok in E as (ns' & w2 & E2 & E).
  apply TakeCredits_users in E2 as (Hs' & Hu & Hn & Ho); [|done..].
  apply st_bind_Ok in E as ([] & w3 & E3 & E). pose proof (TakeStats_keeps users ns' (λ _ _, eq_refl) w2) as Hu3.
  pose proof (TakeStats_keeps nukes ns' (λ _ _, eq_refl) w2) as Hn3. pose proof (TakeStats_keeps oids ns' (λ _ _, eq_refl) w2) as Ho3.
  rewrite E3 in Hu3, Hn3, Ho3. cbn [snd] in Hu3, Hn3, Ho3.
  apply st_bind_Ok in E as (k' & w4 & E4 & E). apply st_bind_Ok in E as ([] & w5 & E5 & E). injection E as <- <-.
  pose proof (calls_keep users real k' (λ _ _, eq_refl) w4) as Hu5. pose proof (calls_keep nukes real k' (λ _ _, eq_refl) w4) as Hn5.
  rewrite E5 in Hu5, Hn5. cbn [snd] in Hu5, Hn5. rewrite Hu5, Hn5.
  unfold UpdateDatabase, st_bind, st_gets, st_modify, new_id, st_ret in E4.
  destruct (lookup_either _ path (unnukes w3)) as [u|]; injection E4 as <- <-;
    cbn [users set_nukes set_oids set_unnukes nukes oids k_nukees k_path k_section k_id]; rewrite Hu3, Hn3, Ho3, Hu, Hn, Ho; done.
Qed.

(** The lookup by id or path finds the nuke that was just added. *)
Lemma lookup_added id k l :
  (id = [] ∨ id = k_id k) → (∀ k', k' ∈ l → k_id k' ≠ k_id k ∧ k_path k' ≠ k_path k) →
  lookup_either id (k_path k) (l ++ [k]) = Some k.
Proof.
  intros Hid Hl. assert (Hq : ∀ f, f k = true → (∀ k', k' ∈ l → f k' = false) → query_one f (l ++ [k]) = Some k).
  { intros f Hk Hf. destruct (query_one f (l ++ [k])) as [k'|] eqn:E.
    - apply query_one_some in E as [Hin Hk']. apply elem_of_app in Hin as [Hin|Hin].
      + specialize (Hf _ Hin). congruence.
      + apply list_elem_of_singleton in Hin. by subst.
    - pose proof (query_one_none _ _ E k) as Hn. rewrite Hk in Hn. discriminate Hn. apply elem_of_app. right. by apply list_elem_of_singleton. }
  assert (Hp : LookupByPath (k_path k) (l ++ [k]) = Some k).
  { apply Hq; [by apply bool_decide_eq_true|]. intros k' Hk'. by apply bool_decide_eq_false, Hl. }
  unfold lookup_either. destruct (bool_decide_reflect (id ≠ [])) as [Hne|]; [|done]. destruct Hid as [-> | ->]; [done|].
  unfold LookupByID. rewrite Hq; [done|by apply bool_decide_eq_true|]. intros k' Hk'. by apply bool_decide_eq_false, Hl.
Qed.

(** C13: An unnuke gives back what the nuke took.  After a nuke of a directory
    that was not nuked before, an unnuke of the same directory succeeds, and
    every user who had credits in the section, nukee or not, has again the
    record of before, whatever the multiplier, the percentage, the penalty for
    empty directories or the credits were; the nuke is in the collection of the
    unnukes and no longer in that of the nukes. *)
Theorem DoUnnuke_DoNuke path real multiplier isPercent reason nuker reason' nuker' w k w1 :
  (∀ k', k' ∈ nukes w → k_id k' ≠ gen_id (oids w) ∧ k_path k' ≠ path) →
  default false (sections !! section_name section) = match section with Some s => separateCredits s | None => false end →
  DoNuke disk GIDToName gen_id section style act path real multiplier isPercent reason nuker w = (Ok k, w1) →
  (let id := GetNukeID disk (ops w1) (NukedPath style real) in id = [] ∨ id = k_id k) →
  ∃ k' w2, DoUnnuke disk gen_id sections style path real reason' nuker' w1 = (Ok k', w2) ∧
    (∀ uid u, users w !! uid = Some u → is_Some (UserData.credits u !! csec) → users w2 !! uid = Some u) ∧
    (∀ uid, users w !! uid = None → users w2 !! uid = None) ∧
    k_nukees k' = k_nukees k ∧ (k' ∈ unnukes w2) ∧ (k ∉ nukes w2) ∧ (∀ k0, k0 ∈ nukes w2 ↔ k0 ∈ nukes w).
Proof.
  intros Hfresh Hsec E Hid. apply DoNuke_spec in E as (Hu & Hs & Hn & Hp & Hks & Hki).
  assert (Hrs : restored_section sections k = csec).
  { unfold restored_section. rewrite Hks, Hsec. unfold credits_of_section, section_name. destruct section as [s|]; [|done].
    by destruct (separateCredits s). }
  assert (Hlook : LookupNuke disk style path real w1 = (Ok k, w1)).
  { assert (Hl : ∀ k', k' ∈ nukes w → k_id k' ≠ k_id k ∧ k_path k' ≠ k_path k).
    { intros k' Hk'. rewrite Hki, Hp. by apply Hfresh. }
    apply (lookup_added _ _ _ Hid) in Hl. rewrite Hp in Hl. unfold LookupNuke, st_bind, st_gets. rewrite Hn.
    unfold lookup_either in *. cbv zeta in Hl. by rewrite Hl. }
  unfold DoUnnuke. rewrite (st_bind_run _ _ _ _ _ Hlook). unfold RestoreCredits.
  rewrite (st_bind_run _ _ _ _ _ (st_iter_modify _ _ _)). set (v1 := foldl _ w1 (k_nukees k)).
  assert (Hv1 : users v1 = each_nukee (refund csec) (k_nukees k) (users w1) ∧ nukes v1 = nukes w1 ∧ unnukes v1 = unnukes w1).
  { subst v1. rewrite Hrs. clear. generalize w1. induction (k_nukees k) as [|n l IH]; intros v; [done|]. cbn [foldl each_nukee].
    destruct (IH (IncrSectionCredits (n_uid n) csec (n_credits n) v)) as (-> & -> & ->). done. }
  destruct Hv1 as (Hv1 & Hn1 & _). clearbody v1.
  assert (Hst : ∃ v2, RestoreStats k v1 = (Ok tt, v2)).
  { apply st_iter_ok. intros n v. destruct (_ || _); by eexists. }
  destruct Hst as [v2 Hst]. rewrite (st_bind_run _ _ _ _ _ Hst).
  assert (Hk2 : users v2 = users v1 ∧ nukes v2 = nukes v1).
  { assert (Hk : ∀ B (f : World → B), (∀ v w, f (set_transfers v w) = f w) → f v2 = f v1).
    { intros B f Hf. change v2 with (snd (Ok (E := nuke_error) tt, v2)). rewrite <- Hst. apply st_keeps_iter. intros n v.
      destruct (_ || _); [|done]. by apply UploadIncr_keeps. }
    split; by apply Hk. }
  destruct Hk2 as [Hu2 Hn2]. unfold Rename_back, UpdateDatabase_unnuke, st_bind, st_modify, call, new_id, st_ret.
  eexists _, _. split; [reflexivity|]. cbn [users set_nukes set_oids set_unnukes set_ops nukes unnukes oids k_nukees Nuke_Unnuke].
  rewrite Hu2, Hn2, Hv1, Hn1, Hn, Hu. split; [|split; [|split; [done|split; [|split]]]].
  - intros uid u Huid [c Hc]. rewrite !each_nukee_lookup by done. rewrite Huid.
    destruct (nukee_at uid (k_nukees k)) as [n|]; [|done].
    change (Some (refund csec n (charge csec n u)) = Some u). by rewrite (charge_refund _ _ _ _ Hc).
  - intros uid Huid. rewrite !each_nukee_lookup by done. rewrite Huid. by destruct (nukee_at uid (k_nukees k)).
  - apply elem_of_app. right. by apply list_elem_of_singleton.
  - unfold Del. rewrite list_elem_of_filter. intros [Hne _]. by apply Hne.
  - intros k0. unfold Del. rewrite list_elem_of_filter, elem_of_app, list_elem_of_singleton. split.
    + intros [Hne [Hin| ->]]; [done|]. by destruct Hne.
    + intros Hin. split; [|by left]. rewrite Hp. by apply Hfresh.
Qed.

End roundtrip.

(** ** The commands *)

Inductive command_end : Type :=
  | Reply (code : Z) (text : str)
  | SyntaxError_
  | PermissionError_
  | PathError (e : path_error)
  | Undefined_command.

Section commands.
Context `{Split, CaseConv, Fnmatch, ReplaceAll, QueryOne, Format, TitleCase, ReplaceFirst, TrimIf}.
Context (disk : Disk) (GIDToName UIDToName : Z → str) (gen_id : nat → str).
(** The configuration, the conversions of paths, the right to nuke, and the
    templates *)
Context (SectionMatch : str → option SectionDef) (sections : gmap str bool) (style : NukeStyle) (act : NukeAction)
  (nukeMax : NukeMax) (PathFromUser : str → result path_error str) (MakeReal : str → str)
  (DirAllowed : str → bool) (GetTemplate : str → result str Template).

Definition multiplier_text (k : Nuke) : str := to_string (k_multiplier k) ++ (if k_isPercent k then lit "%" else []).

Definition RegisterHeadFoot (k : Nuke) (path : str) (ts : TemplateSection) : TemplateSection :=
  let ts := RegisterValue (lit "path") path ts in
  let ts := RegisterValue (lit "directory") (Basename path) ts in
  let ts := RegisterValue (lit "multiplier") (multiplier_text k) ts in
  let ts := RegisterValue (lit "reason") (k_reason k) ts in
  RegisterValue (lit "section") (match k_section k with [] => lit "NoSection" | s => s end) ts.

Definition nukee_values (index : Z) (n : Nukee) (ts : TemplateSection) : TemplateSection :=
  let ts := RegisterValue_int (lit "index") index ts in
  let ts := RegisterValue (lit "username") (UIDToName (n_uid n)) ts in
  let ts := RegisterSize (lit "size") (n_kBytes n) ts in
  let ts := RegisterSize (lit "credits") (n_credits n) ts in
  RegisterValue_int (lit "files") (n_files n) ts.

(** The rows of the nukees *)
Fixpoint nukee_rows (l : list Nukee) (index : Z) (body : TemplateSection) : str :=
  match l with
  | [] => []
  | n :: l => let body := nukee_values (index + 1) n body in Template.Compile None body ++ nukee_rows l (index + 1) body
  end.

Definition NukeTemplateCompile (k : Nuke) (templ : Template) (path : str) : str :=
  let foot := RegisterHeadFoot k path (Foot templ) in
  let foot := RegisterValue_int (lit "total_nukees") (Z.of_nat (length (k_nukees k))) foot in
  let foot := RegisterSize (lit "total_size") (Nuke_KBytes k) foot in
  let foot := RegisterSize (lit "total_credits") (foldl (λ a n, a + n_credits n) 0 (k_nukees k)) foot in
  let foot := RegisterValue_int (lit "total_files") (Nuke_Files k) foot in
  Template.Compile None (RegisterHeadFoot k path (Head templ)) ++ nukee_rows (k_nukees k) 0 (Body templ) ++ Template.Compile None foot.

(** The reply with the template of a name *)
Definition template_reply (name : str) (k : Nuke) (path : str) : command_end :=
  match GetTemplate name with
  | Ok t => Reply 200 (NukeTemplateCompile k t path)
  | Throw e => Reply 550 e
  end.

Definition nuke_grammar : list (str * Type_) := [(lit "path", Single); (lit "multi", Single); (lit "reason", Multiple)].
Definition unnuke_grammar : list (str * Type_) := [(lit "path", Single); (lit "reason", Multiple)].

(** The multiplier, and whether it is a percentage *)
Definition parse_multiplier (multi : str) : option Z * bool :=
  let isPercent := bool_decide (last multi = Some "%"%char) in
  (StrToInt (if isPercent then take (length multi - 1) multi else multi), isPercent).

(** What a nuke that throws is answered *)
Definition nuke_end (what name arg path : str) (r : result nuke_error Nuke * World) : command_end * World :=
  match r with
  | (Ok k, w) => (template_reply name k path, w)
  | (Throw (RuntimeError e), w) => (Reply 550 (lit "Error while " ++ what ++ lit ": " ++ arg ++ lit ": " ++ e), w)
  | (Throw Undefined_, w) => (Undefined_command, w)
  end.

(** [NUKECommand::Execute]; [uid] is the user's. *)
Definition NUKECommand (uid : Z) (argStr : str) (w : World) : command_end * World :=
  match Arguments.Parse nuke_grammar argStr with
  | Throw _ => (SyntaxError_, w)
  | Ok args =>
      match Arguments_get (lit "path") args, Arguments_get (lit "multi") args, Arguments_get (lit "reason") args with
      | Ok arg, Ok multi, Ok reason =>
          match PathFromUser arg with
          | Throw e => (PathError e, w)
          | Ok path =>
              match parse_multiplier multi with
              | (None, _) => (SyntaxError_, w)
              | (Some multiplier, isPercent) =>
                  if negb (NukeMax_IsOkay nukeMax multiplier isPercent)
                  then (Reply 550 (lit "Invalid nuke multiplier / percent."), w)
                  else if negb (DirAllowed path) then (PermissionError_, w)
                  else nuke_end (lit "nuking") (lit "nuke") arg path
                         (DoNuke disk GIDToName gen_id (SectionMatch path) style act path (MakeReal path) multiplier isPercent reason uid w)
              end
          end
      | _, _, _ => (Undefined_command, w)
      end
  end.

Definition UNNUKECommand (uid : Z) (argStr : str) (w : World) : command_end * World :=
  match Arguments.Parse unnuke_grammar argStr with
  | Throw _ => (SyntaxError_, w)
  | Ok args =>
      match Arguments_get (lit "path") args, Arguments_get (lit "reason") args with
      | Ok arg, Ok reason =>
          match PathFromUser arg with
          | Throw e => (PathError e, w)
          | Ok path =>
              if negb (DirAllowed path) then (PermissionError_, w)
              else nuke_end (lit "unnuking") (lit "unnuke") arg path
                     (DoUnnuke disk gen_id sections style path (MakeReal path) reason uid w)
          end
      | _, _ => (Undefined_command, w)
      end
  end.

End commands.

(** C35: What must hold before a nuke or an unnuke has any effect.  If NUKE has
    changed anything, its arguments were a path, a multiplier and a reason, the
    path lies in the site, the multiplier is a number from zero to the
    configured maximum, the user may nuke there, and the change is that of the
    nuke of that path; UNNUKE likewise. *)
Theorem NUKECommand_guarded `{Split, CaseConv, Fnmatch, ReplaceAll, QueryOne, Format, TitleCase, ReplaceFirst, TrimIf}
    disk GIDToName UIDToName gen_id SectionMatch sections style act nukeMax PathFromUser MakeReal DirAllowed GetTemplate uid argStr w r w' :
  w' ≠ w →
  (NUKECommand disk GIDToName UIDToName gen_id SectionMatch style act nukeMax PathFromUser MakeReal DirAllowed GetTemplate uid argStr w = (r, w') →
   ∃ arg multi reason path multiplier isPercent,
     Arguments.Parse nuke_grammar argStr = Ok [(lit "path", arg); (lit "multi", multi); (lit "reason", reason)] ∧
     PathFromUser arg = Ok path ∧ parse_multiplier multi = (Some multiplier, isPercent) ∧
     0 ≤ multiplier ≤ (if isPercent then percent nukeMax else Settings.multiplier nukeMax) ∧ DirAllowed path = true ∧
     w' = snd (DoNuke disk GIDToName gen_id (SectionMatch path) style act path (MakeReal path) multiplier isPercent reason uid w)) ∧
  (UNNUKECommand disk UIDToName gen_id sections style PathFromUser MakeReal DirAllowed GetTemplate uid argStr w = (r, w') →
   ∃ arg reason path,
     Arguments.Parse unnuke_grammar argStr = Ok [(lit "path", arg); (lit "reason", reason)] ∧
     PathFromUser arg = Ok path ∧ DirAllowed path = true ∧
     w' = snd (DoUnnuke disk gen_id sections style path (MakeReal path) reason uid w)).
Proof.
  intros Hne. assert (Hend : ∀ what name arg path m, snd (nuke_end UIDToName GetTemplate what name arg path m) = snd m).
  { intros what name arg path [[k|[]] w0]; done. }
  split; intros E.
  - unfold NUKECommand in E. destruct (Arguments.Parse nuke_grammar argStr) as [args|] eqn:Ea; [|by injection E].
    apply Parse_names in Ea as Hn. destruct args as [|[? arg] [|[? multi] [|[? reason] [|]]]]; try done. injection Hn as -> -> ->.
    change (Arguments_get (lit "path") _) with (Ok (E := arg_error) arg) in E.
    change (Arguments_get (lit "multi") _) with (Ok (E := arg_error) multi) in E.
    change (Arguments_get (lit "reason") _) with (Ok (E := arg_error) reason) in E. cbv beta iota in E.
    destruct (PathFromUser arg) as [path|] eqn:Ep; [|by injection E].
    destruct (parse_multiplier multi) as [[mult|] pc] eqn:Em; [|by injection E].
    destruct (NukeMax_IsOkay nukeMax mult pc) eqn:Ek; cbn [negb] in E; [|by injection E].
    destruct (DirAllowed path) eqn:Ed; cbn [negb] in E; [|by injection E].
    exists arg, multi, reason, path, mult, pc. repeat split; try done.
    + unfold NukeMax_IsOkay in Ek. destruct pc; apply andb_true_iff in Ek as [? _]; lia.
    + unfold NukeMax_IsOkay in Ek. destruct pc; apply andb_true_iff in Ek as [_ ?]; lia.
    + by rewrite <- (Hend (lit "nuking") (lit "nuke") arg path), E.
  - unfold UNNUKECommand in E. destruct (Arguments.Parse unnuke_grammar argStr) as [args|] eqn:Ea; [|by injection E].
    apply Parse_names in Ea as Hn. destruct args as [|[? arg] [|[? reason] [|]]]; try done. injection Hn as -> ->.
    change (Arguments_get (lit "path") _) with (Ok (E := arg_error) arg) in E.
    change (Arguments_get (lit "reason") _) with (Ok (E := arg_error) reason) in E. cbv beta iota in E.
    destruct (PathFromUser arg) as [path|] eqn:Ep; [|by injection E].
    destruct (DirAllowed path) eqn:Ed; cbn [negb] in E; [|by injection E].
    exists arg, reason, path. repeat split; try done. by rewrite <- (Hend (lit "unnuking") (lit "unnuke") arg path), E.
Qed.

(** ** An example *)

Module Example.

#[export] Existing Instances ref_split ref_case ref_fnmatch ref_replace_all Template.Example.ref_format
  Template.Example.ref_title Template.Example.ref_replace Template.Example.ref_trim_if.

Definition ref_query : QueryOne := λ f l, List.find f l.

Lemma ref_query_ok : @QueryOneOk ref_query.
Proof.
  split.
  - intros f l k E. apply List.find_some in E as [Hin Hf]. split; [by apply list_elem_of_In|done].
  - intros f l E k Hk. eapply List.find_none in E; [exact E|by apply list_elem_of_In].
Qed.

#[export] Existing Instances ref_query ref_query_ok.

(** A directory with two files of user 5, one hidden; calls succeed. *)
Definition disk : Disk := {|
  contents := λ _ _, Ok [{| e_path := lit "/site/dir/a"; e_regular := true; e_directory := false; e_size := 2048; e_owner := 5 |};
                         {| e_path := lit "/site/dir/.b"; e_regular := true; e_directory := false; e_size := 4096; e_owner := 5 |};
                         {| e_path := lit "/site/dir/c"; e_regular := true; e_directory := false; e_size := 8192; e_owner := 5 |}];
  modTime := λ _ _, Ok 0; owner := λ _ _, 0; GetNukeID := λ _ _, []; answer := λ _ _, Success
|}.

Definition joe : UserData := Transaction.set f_credits {[ [] := 1000 ]} (default_UserData 0).

Definition w0 : World := MkWorld {[ 5 := joe ]} ∅ [] [] [] [] 0.

Definition style : NukeStyle := {| Settings.format := lit "NUKED-%N"; action := None; emptyKBytes := 0; emptyPenalty := 0 |}.

Definition ids (n : nat) : str := to_string (Z.of_nat n).

Definition nuked : result nuke_error Nuke * World :=
  DoNuke disk (λ _, []) ids None style Keep (lit "/dir") (lit "/site/dir") 2 false (lit "dupe") 7 w0.

Definition the_nuke : Nuke := MkNuke (lit "0") (lit "/dir") [] (lit "dupe") 7 2 false 0 [MkNukee 5 10 2 40].

Lemma nuked_Ok : nuked = (Ok the_nuke, snd nuked).
Proof. vm_compute. reflexivity. Qed.

(** The statistics of an unnuke add the files of all nukees to those of each:
    two users with one file each had two after the nuke is undone. *)
Lemma unnuke_stats :
  let k := MkNuke [] [] (lit "s") [] 0 0 false 0 [MkNukee 1 5 1 0; MkNukee 2 5 1 0] in
  let w := MkWorld ∅ {[ (1, lit "s") := (5, 1); (2, lit "s") := (5, 1) ]} [] [] [] [] 0 in
  let s := {| s_name := lit "s"; s_paths := []; separateCredits := false; s_ratio := -1 |} in
  let w := snd ((TakeStats (Some s) (k_nukees k);;; RestoreStats k) w) in
  transfers w !! (1, lit "s") = Some (5, 2) ∧ transfers w !! (2, lit "s") = Some (5, 2).
Proof. vm_compute. split; reflexivity. Qed.

(** From a user without an entry for the section nothing is taken, and an unnuke
    makes him a present. *)
Lemma unnuke_present :
  UserData.credits (refund [] (MkNukee 1 5 1 15) (charge [] (MkNukee 1 5 1 15) (default_UserData 0))) !! [] = Some 15.
Proof. vm_compute. reflexivity. Qed.

Definition path_of (p : str) : result path_error str := Ok p.

Definition nuke_command : command_end * World :=
  NUKECommand
    disk (λ _, []) to_string ids (λ _, None) style Keep {| Settings.multiplier := 10; percent := 100 |} path_of (λ p, lit "/site" ++ p) (λ _, true)
    (λ _, Throw []) 7 (lit "/dir 2 a dupe") w0.

End Example.
Import Example.

Lemma CalculateNukees_spec_example :
  nukee_at 5 [MkNukee 5 10 2 0] =
    match owned 5 (match contents disk [] [] with Ok l => l | Throw _ => [] end) with
    | [] => None
    | own => Some (MkNukee 5 (kBytes_of own) (Z.of_nat (length own)) 0)
    end.
Proof.
  destruct (CalculateNukees_spec (match contents disk [] [] with Ok l => l | Throw _ => [] end) [MkNukee 5 10 2 0] 10) as (_ & _ & H).
  - vm_compute. reflexivity.
  - apply H.
Defined.

Lemma DoUnnuke_DoNuke_witness :
  users (snd nuked) !! 5 ≠ Some joe ∧
  ∃ k' w2, DoUnnuke disk ids ∅ style (lit "/dir") (lit "/site/dir") [] 7 (snd nuked) = (Ok k', w2) ∧ users w2 !! 5 = Some joe.
Proof.
  split.
  - assert (E : (users (snd nuked) !! 5) ≫= (λ u, UserData.credits u !! []) = Some 960) by (vm_compute; reflexivity).
    intros E'. rewrite E' in E. revert E. vm_compute. discriminate.
  - destruct (DoUnnuke_DoNuke disk (λ _, []) ids None ∅ style Keep (lit "/dir") (lit "/site/dir") 2 false (lit "dupe") 7 [] 7 w0
                the_nuke (snd nuked)) as (k' & w2 & E & Hu & _).
    + intros k' Hk'. apply not_elem_of_nil in Hk'. destruct Hk'.
    + reflexivity.
    + exact nuked_Ok.
    + left. reflexivity.
    + exists k', w2. split; [exact E|]. apply Hu; [reflexivity|]. exists 1000. reflexivity.
Defined.

Lemma NUKECommand_guarded_witness :
  ops (snd nuke_command) ≠ [] ∧
  ∃ arg multi reason path multiplier isPercent,
    Arguments.Parse nuke_grammar (lit "/dir 2 a dupe") = Ok [(lit "path", arg); (lit "multi", multi); (lit "reason", reason)] ∧
    path_of arg = Ok path ∧ parse_multiplier multi = (Some multiplier, isPercent) ∧ 0 ≤ multiplier.
Proof.
  assert (Hops : ops (snd nuke_command) ≠ []) by (vm_compute; discriminate). split; [exact Hops|].
  destruct (NUKECommand_guarded
    disk (λ _, []) to_string ids (λ _, None) ∅ style Keep {| Settings.multiplier := 10; percent := 100 |} path_of (λ p, lit "/site" ++ p) (λ _, true)
    (λ _, Throw []) 7 (lit "/dir 2 a dupe") w0 (fst nuke_command) (snd nuke_command)) as [H _].
  - intros E. apply Hops. rewrite E. reflexivity.
  - destruct (H (surjective_pairing nuke_command)) as (arg & multi & reason & path & m & pc & H1 & H2 & H3 & [H4 _] & _).
    exists arg, multi, reason, path, m, pc. auto.
Defined.
