(* ===== verification/Files.v ===== *)
(** * Operations on files and directories: fs/file.cpp, fs/directory.cpp, fs/chmod.cpp

    What the commands do to the file system, for a user: every operation asks
    for a right of acl/path.cpp first and then makes its system calls.  The state
    is the configuration with its stored answers, the work directory of the
    thread, the umask of the process and the system calls made so far.

    The theorem: no call that changes anything is made without the right that
    the operation stands for.  Directories.v has those on directories. *)

From stdpp Require Import prelude strings.
From S2P Require Import Prelude CxxString State Path VirtualPath Acl UserData User Mode Kernel Rights.
Local Open Scope Z_scope.
Local Open Scope list_scope.
Local Open Scope st_scope.

(** ** State *)

Record World := MkWorld { cfg : Config; workDir : str; mask : Z; ops : list sys }.

Definition set_cfg v w := MkWorld v (workDir w) (mask w) (ops w).
Definition set_workDir v w := MkWorld (cfg w) v (mask w) (ops w).
Definition set_mask v w := MkWorld (cfg w) (workDir w) v (ops w).
Definition set_ops v w := MkWorld (cfg w) (workDir w) (mask w) v.
Definition push_op (c : sys) (w : World) : World := set_ops (ops w ++ [c]) w.

Inductive file_error : Type :=
  | SystemError (errno : Z)
  | RuntimeError (message : str)
  | PathError (e : path_error).

Abbreviation M := (ST World file_error).

(** [catch (const util::SystemError& e) { return util::Error::Failure(e.Errno()); }] *)
Definition to_error (e : file_error) : option (M error) :=
  match e with SystemError n => Some (st_ret (FailureErrno n)) | _ => None end.

(** [if (!e) throw util::SystemError(e.Errno());] *)
Definition throw_error (e : error) : M unit :=
  if err_ok e then st_ret tt else st_throw (SystemError (err_errno e)).

(** The settings and the process: the free space that must stay, whether
    incomplete files may be downloaded, the aliases and the directories of
    [cdpath], and the effective ids *)
Record Settings := {
  FreeSpace : Z; DlIncomplete : bool; aliases : list (str * str); cdpaths : list str;
  euid : Z; egid : Z
}.

Section files.
Context `{Fnmatch, ReplaceAll, CaseConv}.
Context (K : Kernel) (GIDToName : Z → str) (uninit : Z) (sitepath : str) (settings : Settings).
Implicit Types (user : UserData) (path : str).

Abbreviation real path := (MakeReal_virtual sitepath path).

(** ** Rights, status, directories *)

Definition asked (f : list sys → Config → error * Config) : M error := λ w,
  let '(e, c) := f (ops w) (cfg w) in (Ok e, set_cfg c w).

Definition owner_at tr (p : str) : Z := UID (GetOwner K uninit tr p).

Definition file_allowed (t : Action) user path : M error :=
  asked (λ tr, FileAllowed GIDToName (owner_at tr) sitepath t user path).
Definition dir_allowed (t : Action) user path : M error :=
  asked (λ tr, DirAllowed GIDToName (owner_at tr) sitepath t user path).
Definition allowed (t : Action) user path : M error :=
  asked (λ tr, Allowed GIDToName (owner_at tr) (path_IsDirectory K tr) sitepath t user path).

(** A system call, and those that ask *)
Definition call (c : sys) : M error := syscall K ops push_op c.

Definition query {A} (c : sys) (f : list sys → result Z A) : M A := λ w,
  (match f (ops w) with Ok a => Ok a | Throw e => Throw (SystemError e) end, push_op c w).

(** [util::path::Status status(p)] *)
Definition status (p : str) : M Status := query (Lstat p) (λ tr, Reset K tr p).

(** [util::path::FreeDiskSpace] *)
Definition FreeDiskSpace (p : str) : M Z :=
  query (Statvfs p) (λ tr, match statvfs K tr p with Ok (bsize, bavail) => Ok ((bsize * bavail) mod 2 ^ 64) | Throw e => Throw e end).

(** The constructor of a DirContainer opens the directory, and [begin] opens it
    again. *)
Definition opendir (p : str) : M (list str) := query (Opendir p) (λ tr, readdir K tr p).

Definition lift_path (r : result path_error str) : M str :=
  match r with Ok p => st_ret p | Throw e => st_throw (PathError e) end.

(** [MakeReal(const Path&)] and [MakeVirtual(const Path&)] in the work directory *)
Definition make_real (p : str) : M str := st_gets (λ w, MakeReal sitepath (workDir w) (realpath K (ops w)) p).
Definition make_virtual (p : str) : M str := r <- make_real p;; lift_path (MakeVirtual_real sitepath r).

(** [SetOwner(MakeReal(path), Owner(user.ID(), user.PrimaryGID()))] *)
Definition take_ownership user path : M error :=
  SetOwner K ops push_op (real path) (MkOwner (id user) (primaryGid user)).

(** ** fs/file.cpp *)

Definition DeleteFile_real (p : str) : M error := call (Unlink p).

(** With [size] and [modTime], which a failing call leaves as they are. *)
Definition DeleteFile user path : M (error * option (Z * Z)) :=
  e <- file_allowed Delete user path;;
  if negb (err_ok e) then st_ret (e, None)
  else
    r <- st_catch (s <- status (real path);; st_ret (Success, Some (Size s, st_mtime (native s))))
           (λ e, match e with SystemError n => Some (st_ret (FailureErrno n, None)) | _ => None end);;
    if negb (err_ok (fst r)) then st_ret r
    else e <- DeleteFile_real (real path);; st_ret (e, snd r).

Definition Rename_real (oldPath newPath : str) : M error := call (RenamePath oldPath newPath).

(** The space that is left must exceed the configured one. *)
Definition check_space (dir : str) : M unit :=
  free <- FreeDiskSpace dir;;
  if free / 1024 <? FreeSpace settings mod 2 ^ 64 then st_throw (SystemError ENOSPC) else st_ret tt.

(** The result is the open file, named by its real path. *)
Definition CreateFile user path : M str :=
  e <- file_allowed Upload user path;; throw_error e;;;
  check_space (Dirname (real path));;;
  let mode := if DlIncomplete settings then 493 else 420 in
  e <- call (Open_ (real path) (CreateExclusive mode));;
  (if err_ok e then st_ret tt
   else if negb (err_errno e =? EEXIST) then st_throw (SystemError (err_errno e))
   else
     e <- file_allowed Overwrite user path;;
     (if err_ok e then st_ret tt else st_throw (SystemError EEXIST));;;
     e <- call (Open_ (real path) WriteTruncate);; throw_error e);;;
  take_ownership user path;;; st_ret (real path).

Definition regular_file (p : str) : M unit :=
  s <- status p;;
  if IsRegularFile s then st_ret tt else st_throw (RuntimeError (lit "Not a regular file")).

(** [fout->seek(0, std::ios_base::end)] *)
Definition seek_to_end (p : str) : M Z := λ w,
  (match seek_end K (ops w) p with Ok n => Ok n | Throw e => Throw (SystemError e) end, w).

Definition AppendFile user path (offset : Z) : M str :=
  e <- file_allowed Resume user path;; throw_error e;;;
  regular_file (real path);;; check_space (Dirname (real path));;;
  e <- call (Open_ (real path) WriteAppend);; throw_error e;;;
  size <- seek_to_end (real path);;
  (if offset <? size then e <- call (Ftruncate (real path) offset);; throw_error e else st_ret tt);;;
  seek_to_end (real path);;; st_ret (real path).

Definition OpenFile user path : M str :=
  e <- file_allowed Download user path;; throw_error e;;;
  regular_file (real path);;;
  e <- call (Open_ (real path) ReadOnly);; throw_error e;;; st_ret (real path).

(** [UniqueFile]: [names] are the random strings; at most [n] are tried. *)
Fixpoint UniqueFile_loop path (names : nat → str) (i n : nat) : M (error * str) :=
  match n with
  | O => st_ret (FailureMsg [], [])
  | S n =>
      let uniquePath := Join path (names i) in
      r <- st_catch (status (real uniquePath);;; st_ret None)
             (λ e, match e with
                   | SystemError n => Some (st_ret (Some (if n =? ENOENT then Success else FailureErrno n)))
                   | _ => None
                   end);;
      match r with
      | Some e => st_ret (e, uniquePath)
      | None => UniqueFile_loop path names (S i) n
      end
  end.

Definition UniqueFile user path (names : nat → str) : M (error * str) :=
  e <- file_allowed Upload user (Join path (lit "dummyfile"));; throw_error e;;;
  UniqueFile_loop path names 0 1000.

Definition maxInactivity : Z := 30.

Definition IsIncomplete (p : str) : M bool :=
  st_catch (s <- status p;; now <- st_gets (λ w, time_ K (ops w));;
            st_ret (IsExecutable (euid settings) (egid settings) s && (now - st_mtime (native s) <? maxInactivity)))
    (λ e, match e with SystemError _ => Some (st_ret false) | _ => None end).

(** ** fs/directory.cpp *)

Definition ChangeDirectory user path : M error :=
  e <- dir_allowed View user path;;
  if negb (err_ok e) then st_ret e
  else
    r <- st_catch
           (s <- status (real path);;
            st_ret (if negb (IsDirectory s) then FailureErrno ENOTDIR
                    else if negb (IsExecutable (euid settings) (egid settings) s) then FailureErrno EACCES
                    else Success)) to_error;;
    if negb (err_ok r) then st_ret r
    else st_modify (set_workDir path);;; st_ret Success.

(** [match] is the path that was entered, or tried last. *)
Fixpoint ChangeAlias_loop user (name : str) (l : list (str * str)) : M (error * str) :=
  match l with
  | [] => st_ret (FailureErrno ENOENT, [])
  | (n, p) :: l =>
      if decide (n = name) then e <- ChangeDirectory user p;; st_ret (e, p)
      else ChangeAlias_loop user name l
  end.

Definition ChangeAlias user path : M (error * str) :=
  if decide (Basename path = path) then ChangeAlias_loop user (to_lower path) (aliases settings)
  else st_ret (FailureErrno ENOENT, []).

(** The filter of a DirIterator: is the entry hidden from the user? *)
Definition hidden_entry user (p : str) : M bool :=
  v <- lift_path (MakeVirtual_real sitepath p);; e <- allowed View user v;; st_ret (negb (err_ok e)).

(** The constructor of the iterator moves to the first entry that is not hidden.
    The code asks again for that entry, which gives the same answer. *)
Fixpoint skip_hidden user (dir : str) (l : list str) : M unit :=
  match l with
  | [] => st_ret tt
  | x :: l => h <- hidden_entry user (Join dir x);; if h : bool then skip_hidden user dir l else st_ret tt
  end.

(** [for (auto& entry : DirContainer(user, path)) body]: [begin] rewinds the
    directory without the filter, which only [++] applies. *)
Fixpoint visit {A} user (dir : str) (check : bool) (body : str → M (option A)) (l : list str) : M (option A) :=
  match l with
  | [] => st_ret None
  | x :: l =>
      h <- (if check then hidden_entry user (Join dir x) else st_ret false);;
      if h : bool then visit user dir true body l
      else
        r <- body x;;
        match r with Some a => st_ret (Some a) | None => visit user dir true body l end
  end.

Definition for_entries {A} user path (body : str → M (option A)) : M (option A) :=
  r <- make_real path;;
  h <- hidden_entry user r;;
  if h : bool then st_throw (SystemError ENOENT)
  else
    l <- opendir r;; skip_hidden user (real path) l;;;
    l <- opendir r;; visit user (real path) false body l.

(** One entry of [ChangeMatch]: the answer, if the search ends here *)
Definition try_match user (dir lcBasename entry : str) : M (option (error * str)) :=
  if negb (starts_with (to_lower entry) lcBasename) then st_ret None
  else
    m <- make_virtual (Join dir entry);;
    e <- ChangeDirectory user m;;
    st_ret (if err_ok e || negb (err_errno e =? ENOENT) && negb (err_errno e =? ENOTDIR)
            then Some (e, m) else None).

Definition ChangeMatch user path : M (error * str) :=
  let lcBasename := to_lower (Basename path) in
  e <- dir_allowed View user path;;
  if negb (err_ok e) then st_ret (e, [])
  else
    st_catch
      (r <- for_entries user (Dirname path) (try_match user (Dirname path) lcBasename);;
       st_ret (default (FailureErrno ENOENT, []) r))
      (λ e, match e with SystemError n => Some (st_ret (FailureErrno n, [])) | _ => None end).

Fixpoint ChangeCdpath_loop user path (l : list str) : M (error * str) :=
  match l with
  | [] => st_ret (FailureErrno ENOENT, [])
  | cdpath :: l =>
      v <- make_virtual (Join cdpath path);;
      r <- ChangeMatch user v;;
      if err_ok (fst r) || negb (err_errno (fst r) =? ENOENT) then st_ret r
      else ChangeCdpath_loop user path l
  end.

Definition ChangeCdpath user path : M (error * str) :=
  if decide (Basename path = path) then ChangeCdpath_loop user path (cdpaths settings)
  else st_ret (FailureErrno ENOENT, []).

Definition CreateDirectory_real (p : str) : M error := call (Mkdir p 511).

Definition CreateDirectory user path : M error :=
  e <- dir_allowed Makedir user path;;
  if negb (err_ok e) then st_ret e
  else
    e <- CreateDirectory_real (real path);;
    (if err_ok e then take_ownership user path;;; st_ret tt else st_ret tt);;; st_ret e.

Definition RemoveDirectory_real (p : str) : M error := call (Rmdir p).

(** The first loop of [RemoveDirectory]: is every entry one that is removed with
    the directory? *)
Fixpoint check_entries (dir : str) (l : list str) : M error :=
  match l with
  | [] => st_ret Success
  | name :: l =>
      if bool_decide (head name ≠ Some "."%char) then st_ret (FailureErrno ENOTEMPTY)
      else
        s <- status (Join dir name);;
        if IsDirectory s || negb (IsWriteable (euid settings) (egid settings) s)
        then st_ret (FailureErrno ENOTEMPTY) else check_entries dir l
  end.

Fixpoint unlink_entries (dir : str) (l : list str) : M error :=
  match l with
  | [] => st_ret Success
  | name :: l =>
      e <- call (Unlink (Join dir name));;
      if err_ok e then unlink_entries dir l else st_ret e
  end.

Definition RemoveDirectory user path : M error :=
  e <- dir_allowed Delete user path;;
  if negb (err_ok e) then st_ret e
  else
    e <- st_catch
           (_ <- opendir (real path);;
            l <- opendir (real path);; e <- check_entries (real path) l;;
            if negb (err_ok e) then st_ret e
            else l <- opendir (real path);; unlink_entries (real path) l) to_error;;
    if negb (err_ok e) then st_ret e else RemoveDirectory_real (real path).

(** The size of one entry; [rec] is the recursive call. *)
Definition entry_size (rec : str → M (error * Z)) (p entry : str) : M Z :=
  s <- status (Join p entry);;
  if IsDirectory s then
    (if IsSymLink s then st_ret 0
     else r <- rec (Join p entry);; st_ret (if err_ok (fst r) then snd r else 0))
  else st_ret (if IsRegularFile s then Z.quot (Size s) 1024 else 0).

(** The loop of [DirectorySize] *)
Fixpoint sum_entries (rec : str → M (error * Z)) (ignoreHidden : bool) (p : str) (l : list str) (kBytes : Z) : M (error * Z) :=
  match l with
  | [] => st_ret (Success, kBytes)
  | entry :: l =>
      if ignoreHidden && bool_decide (head entry = Some "."%char) then sum_entries rec ignoreHidden p l kBytes
      else
        n <- st_catch (entry_size rec p entry)
               (λ e, match e with SystemError _ => Some (st_ret 0) | _ => None end);;
        sum_entries rec ignoreHidden p l (kBytes + n)
  end.

(** [DirectorySize]; the depth is the fuel. *)
Fixpoint DirectorySize_loop (depth : nat) (ignoreHidden : bool) (p : str) : M (error * Z) :=
  match depth with
  | O => st_ret (Success, 0)
  | S depth =>
      st_catch
        (_ <- opendir p;; l <- opendir p;; sum_entries (DirectorySize_loop depth ignoreHidden) ignoreHidden p l 0)
        (λ e, match e with SystemError n => Some (st_ret (FailureErrno n, 0)) | _ => None end)
  end.

Definition DirectorySize (p : str) (depth : Z) (ignoreHidden : bool) : M (error * Z) :=
  if depth <? 0 then st_ret (FailureErrno EINVAL, 0)
  else DirectorySize_loop (Z.to_nat depth) ignoreHidden p.

(** ** fs/chmod.cpp *)

(** [umask(0)] *)
Definition umask0 : M Z := m <- st_gets mask;; st_modify (set_mask 0);;; st_ret m.

Definition Chmod_real (p : str) (mode : list Change) : M error :=
  st_catch
    (s <- status p;; m <- umask0;; call (Chmod_ p (Apply mode (st_mode (native s)) m))) to_error.

Definition Chmod user path (mode : list Change) : M error :=
  e <- file_allowed View user path;;
  if negb (err_ok e) then st_ret e
  else
    userMask <- umask0;;
    st_catch
      (s <- status (real path);;
       e <- (if IsDirectory s then dir_allowed View user path else st_ret Success);;
       if negb (err_ok e) then st_ret e
       else call (Chmod_ (real path) (Apply mode (st_mode (native s)) userMask))) to_error.

End files.

(** ** What a user may do *)

Section admits.
Context `{Fnmatch, ReplaceAll}.
Context (K : Kernel) (GIDToName : Z → str) (uninit : Z) (sitepath : str).

(** A directory is asked for with a final slash. *)
Definition slashed (path : str) : str :=
  if bool_decide (last path = Some "/"%char) then path else path ++ lit "/".

(** The path may be used for an action by the rules of [c] and the owners of the
    files after the calls [tr]. *)
Definition admits (c : Config) (user : UserData) (t : Action) (path : str) (tr : list sys) : Prop :=
  InsideHomeDir user path = true ∧ ¬ private GIDToName user path c ∧
  permitted GIDToName (owner_at K uninit tr) sitepath t user path c.

(** The stored answers are this user's, and the rules are those of [c]. *)
Definition good (c : Config) (user : UserData) (w : World) : Prop :=
  coherent_cfg (User_ACLInfo user GIDToName) (cfg w) ∧ same_rules c (cfg w).

(** Which rights allow a call for a request that names [path]: an existing file is
    emptied by two of them. *)
Inductive justifies (path : str) : sys → list (Action * str) → Prop :=
  | create_by m : justifies path (Open_ (MakeReal_virtual sitepath path) (CreateExclusive m)) [(Upload, path)]
  | overwrite_by : justifies path (Open_ (MakeReal_virtual sitepath path) WriteTruncate) [(Upload, path); (Overwrite, path)]
  | append_by : justifies path (Open_ (MakeReal_virtual sitepath path) WriteAppend) [(Resume, path)]
  | truncate_by n : justifies path (Ftruncate (MakeReal_virtual sitepath path) n) [(Resume, path)]
  | file_owner_by a v : justifies path (Setxattr (MakeReal_virtual sitepath path) a v) [(Upload, path)]
  | unlink_by : justifies path (Unlink (MakeReal_virtual sitepath path)) [(Delete, path)]
  | mkdir_by : justifies path (Mkdir (MakeReal_virtual sitepath path) 511) [(Makedir, slashed path)]
  | dir_owner_by a v : justifies path (Setxattr (MakeReal_virtual sitepath path) a v) [(Makedir, slashed path)]
  | rmdir_by : justifies path (Rmdir (MakeReal_virtual sitepath path)) [(Delete, slashed path)]
  | entry_by name : justifies path (Unlink (Join (MakeReal_virtual sitepath path) name)) [(Delete, slashed path)]
  | chmod_by m : justifies path (Chmod_ (MakeReal_virtual sitepath path) m) [(View, path)].

(** A right was granted between two moments. *)
Definition granted (c : Config) user (base tr : list sys) (x : Action * str) : Prop :=
  ∃ tr0, admits c user x.1 x.2 tr0 ∧ base `prefix_of` tr0 ∧ tr0 `prefix_of` tr.

(** A call after [tr] was allowed at some time since [base]. *)
Definition licensed (c : Config) user path (base : list sys) (tr : list sys) (op : sys) : Prop :=
  mutates op = true → ∃ rs, justifies path op rs ∧ Forall (granted c user base tr) rs.

(** All calls of [l], made after [tr], were. *)
Fixpoint all_licensed (c : Config) user path base (tr l : list sys) : Prop :=
  match l with
  | [] => True
  | op :: l => licensed c user path base tr op ∧ all_licensed c user path base (tr ++ [op]) l
  end.

Lemma all_licensed_app c user path base tr l k :
  all_licensed c user path base tr (l ++ k) ↔
  all_licensed c user path base tr l ∧ all_licensed c user path base (tr ++ l) k.
Proof.
  revert tr. induction l as [|op l IH]; intros tr; cbn [app all_licensed].
  - rewrite app_nil_r. naive_solver.
  - rewrite IH, <- app_assoc. naive_solver.
Qed.

Lemma private_same user path c c' :
  same_rules c c' → private GIDToName user path c' ↔ private GIDToName user path c.
Proof. intros Hs. unfold private. by rewrite (same_privpath _ _ Hs). Qed.

(** One question, with its answer in terms of the rules *)
Lemma InnerAllowed_admits c user t path w :
  good c user w →
  let '(e, c') := InnerAllowed GIDToName (owner_at K uninit (ops w)) sitepath t user path (cfg w) in
  (err_ok e = true ↔ admits c user t path (ops w)) ∧ good c user (set_cfg c' w).
Proof.
  intros [Hc Hs].
  pose proof (InnerAllowed_spec GIDToName (owner_at K uninit (ops w)) (λ _, false) sitepath t user path (cfg w) Hc) as HI.
  destruct (InnerAllowed _ _ _ _ _ _ _) as [e c']. destruct HI as (He & Hc' & Hs').
  split; [|split; [done|by transitivity (cfg w)]]. rewrite He. unfold admits.
  by rewrite (private_same user path c (cfg w) Hs), (permitted_same _ _ _ t user path c (cfg w) Hs).
Qed.

Lemma char_at_last path : path ≠ [] → char_at path (length path - 1) = default NUL (last path).
Proof.
  intros Hne. destruct (exists_last Hne) as (q & x & ->). rewrite last_snoc.
  unfold char_at. by rewrite length_app, Nat.add_sub, list_lookup_middle.
Qed.

Lemma DirAllowed_slashed GetOwner t user path c :
  path ≠ [] → DirAllowed GIDToName GetOwner sitepath t user path c =
              InnerAllowed GIDToName GetOwner sitepath t user (slashed path) c.
Proof.
  intros Hne. unfold DirAllowed. destruct path as [|x path]; [done|].
  rewrite char_at_last by done. unfold slashed. destruct (last (x :: path)) as [y|] eqn:E; [|by apply last_None in E].
  cbn [default]. case_decide as Hy; case_bool_decide as Hl; try done; exfalso; naive_solver.
Qed.

Lemma dir_allowed_admits c user t path w :
  good c user w →
  let '(e, c') := DirAllowed GIDToName (owner_at K uninit (ops w)) sitepath t user path (cfg w) in
  (err_ok e = true ↔ path ≠ [] ∧ admits c user t (slashed path) (ops w)) ∧ good c user (set_cfg c' w).
Proof.
  intros Hg. destruct (decide (path = [])) as [->|Hne].
  - cbn. destruct Hg. split; [naive_solver | by split].
  - rewrite DirAllowed_slashed by done. pose proof (InnerAllowed_admits c user t (slashed path) w Hg) as HI.
    destruct (InnerAllowed _ _ _ _ _ _ _) as [e c']. destruct HI as [He Hg']. split; [|done]. rewrite He. naive_solver.
Qed.

End admits.

(** ** Computations all of whose calls are allowed *)

Section lawful.
Context `{Fnmatch, ReplaceAll, CaseConv}.
Context (K : Kernel) (GIDToName : Z → str) (uninit : Z) (sitepath : str) (settings : Settings).
Context (c0 : Config) (user : UserData) (path : str) (base : list sys).

Abbreviation admitted t p tr := (admits K GIDToName uninit sitepath c0 user t p tr).
Abbreviation all_ok := (all_licensed K GIDToName uninit sitepath c0 user path base).
Abbreviation good := (good GIDToName c0 user).

(** From a state that comes after the calls [tr0] *)
Definition lawful {A} (tr0 : list sys) (m : M A) : Prop := ∀ w,
  good w → tr0 `prefix_of` ops w →
  good (snd (m w)) ∧ ∃ l, ops (snd (m w)) = ops w ++ l ∧ all_ok (ops w) l.

Lemma lawful_here {A} tr0 (m : M A) :
  (∀ w, good w → good (snd (m w)) ∧ ops (snd (m w)) = ops w) → lawful tr0 m.
Proof.
  intros Hm w Hg Hp. destruct (Hm w Hg) as [Hg' E]. split; [done|]. exists []. by rewrite app_nil_r, E.
Qed.

Lemma lawful_ret {A} tr0 (a : A) : lawful tr0 (st_ret a).
Proof. by apply lawful_here. Qed.

Lemma lawful_throw {A} tr0 e : lawful tr0 (st_throw (A := A) e).
Proof. by apply lawful_here. Qed.

Lemma lawful_gets {A} tr0 (f : World → A) : lawful tr0 (st_gets f).
Proof. by apply lawful_here. Qed.

Lemma lawful_workDir tr0 p : lawful tr0 (st_modify (set_workDir p)).
Proof. by apply lawful_here. Qed.

Lemma lawful_mask tr0 m : lawful tr0 (st_modify (set_mask m)).
Proof. by apply lawful_here. Qed.

Lemma lawful_then {A} tr0 (m : M A) w :
  lawful tr0 m → good w → tr0 `prefix_of` ops w →
  good (snd (m w)) ∧ tr0 `prefix_of` ops (snd (m w)) ∧
  ∀ w', (∃ l, ops w' = ops (snd (m w)) ++ l ∧ all_ok (ops (snd (m w))) l) →
        ∃ l, ops w' = ops w ++ l ∧ all_ok (ops w) l.
Proof.
  intros Hm Hg Hp. destruct (Hm w Hg Hp) as (Hg1 & l & E & Hl). split; [done|].
  rewrite E. split; [by apply prefix_app_r|]. intros w' (l' & E' & Hl').
  exists (l ++ l'). rewrite E', <- app_assoc. split; [done|]. by apply all_licensed_app.
Qed.

Lemma lawful_bind {A B} tr0 (m : M A) (k : A → M B) :
  lawful tr0 m → (∀ a, lawful tr0 (k a)) → lawful tr0 (st_bind m k).
Proof.
  intros Hm Hk w Hg Hp. destruct (lawful_then tr0 m w Hm Hg Hp) as (Hg1 & Hp1 & Happ).
  unfold st_bind. destruct (m w) as [[a|e] w1]; cbn [snd] in *.
  - destruct (Hk a w1 Hg1 Hp1) as [Hg2 Hl]. split; [done|by apply Happ].
  - split; [done|]. apply Happ. exists []. by rewrite app_nil_r.
Qed.

Lemma lawful_catch {A} tr0 (m : M A) h :
  lawful tr0 m → (∀ e k, h e = Some k → lawful tr0 k) → lawful tr0 (st_catch m h).
Proof.
  intros Hm Hh w Hg Hp. destruct (lawful_then tr0 m w Hm Hg Hp) as (Hg1 & Hp1 & Happ).
  unfold st_catch. destruct (m w) as [[a|e] w1]; cbn [snd] in *; [|destruct (h e) as [k|] eqn:E; cbn [snd]].
  - split; [done|]. apply Happ. exists []. by rewrite app_nil_r.
  - destruct (Hh e k E w1 Hg1 Hp1) as [Hg2 Hl]. split; [done|by apply Happ].
  - split; [done|]. apply Happ. exists []. by rewrite app_nil_r.
Qed.

(** A right is asked for, and what follows may rely on the answer. *)
Lemma lawful_asked {B} tr0 (f : list sys → Config → error * Config) (P : list sys → Prop) (k : error → M B) :
  (∀ w, good w → let '(e, c) := f (ops w) (cfg w) in (err_ok e = true → P (ops w)) ∧ good (set_cfg c w)) →
  (∀ e tr, tr0 `prefix_of` tr → (err_ok e = true → P tr) → lawful tr (k e)) →
  lawful tr0 (st_bind (asked f) k).
Proof.
  intros Hf Hk w Hg Hp. unfold st_bind, asked. specialize (Hf w Hg).
  destruct (f (ops w) (cfg w)) as [e c]. destruct Hf as [He Hg1].
  by destruct (Hk e (ops w) Hp He (set_cfg c w) Hg1) as [Hg2 Hl].
Qed.

Lemma lawful_file_allowed {B} tr0 t p (k : error → M B) :
  (∀ e tr, tr0 `prefix_of` tr → (err_ok e = true → admitted t p tr) → lawful tr (k e)) →
  lawful tr0 (st_bind (file_allowed K GIDToName uninit sitepath t user p) k).
Proof.
  apply lawful_asked. intros w Hg. pose proof (InnerAllowed_admits K GIDToName uninit sitepath c0 user t p w Hg) as HI.
  unfold FileAllowed. destruct (InnerAllowed _ _ _ _ _ _ _) as [e c]. destruct HI as [HI Hg']. split; [apply HI|done].
Qed.

Lemma lawful_dir_allowed {B} tr0 t p (k : error → M B) :
  (∀ e tr, tr0 `prefix_of` tr → (err_ok e = true → admitted t (slashed p) tr) → lawful tr (k e)) →
  lawful tr0 (st_bind (dir_allowed K GIDToName uninit sitepath t user p) k).
Proof.
  apply lawful_asked. intros w Hg. pose proof (dir_allowed_admits K GIDToName uninit sitepath c0 user t p w Hg) as HI.
  destruct (DirAllowed _ _ _ _ _ _ _) as [e c]. destruct HI as [HI Hg']. split; [apply HI|done].
Qed.

Lemma lawful_allowed {B} tr0 t p (k : error → M B) :
  (∀ e tr, tr0 `prefix_of` tr → (err_ok e = true → admitted t p tr ∨ admitted t (slashed p) tr) → lawful tr (k e)) →
  lawful tr0 (st_bind (allowed K GIDToName uninit sitepath t user p) k).
Proof.
  apply lawful_asked. intros w Hg. unfold Allowed, FileAllowed. destruct (path_IsDirectory _ _ _).
  - pose proof (dir_allowed_admits K GIDToName uninit sitepath c0 user t p w Hg) as HI.
    destruct (DirAllowed _ _ _ _ _ _ _) as [e c]. destruct HI as [HI Hg']. split; [intros He; right; by apply HI|done].
  - pose proof (InnerAllowed_admits K GIDToName uninit sitepath c0 user t p w Hg) as HI.
    destruct (InnerAllowed _ _ _ _ _ _ _) as [e c]. destruct HI as [HI Hg']. split; [intros He; left; by apply HI|done].
Qed.

Lemma lawful_dir_allowed_only tr0 t p : lawful tr0 (dir_allowed K GIDToName uninit sitepath t user p).
Proof.
  apply lawful_here. intros w Hg. unfold dir_allowed, asked.
  pose proof (dir_allowed_admits K GIDToName uninit sitepath c0 user t p w Hg) as HI.
  by destruct (DirAllowed _ _ _ _ _ _ _) as [e c]; destruct HI.
Qed.

(** One call *)
Lemma good_push op w : good w → good (push_op op w).
Proof. done. Qed.

Lemma lawful_op {A} tr0 op (f : World → result file_error A) :
  (mutates op = true → ∃ rs, justifies sitepath path op rs ∧ Forall (granted K GIDToName uninit sitepath c0 user base tr0) rs) →
  lawful tr0 (λ w, (f w, push_op op w)).
Proof.
  intros Hop w Hg Hp. split; [done|]. exists [op]. split; [done|]. split; [|done].
  intros Hmut. destruct (Hop Hmut) as (rs & HJ & HA). exists rs. split; [done|].
  eapply Forall_impl; [exact HA|]. intros x (tr & Ha & Hb & Hc). exists tr. split_and!; [done..|]. by transitivity tr0.
Qed.

Lemma lawful_query {A} tr0 op (f : list sys → result Z A) : mutates op = false → lawful tr0 (query op f).
Proof. intros Hm. apply lawful_op. congruence. Qed.

Lemma lawful_call tr0 op :
  (mutates op = true → ∃ rs, justifies sitepath path op rs ∧ Forall (granted K GIDToName uninit sitepath c0 user base tr0) rs) →
  lawful tr0 (call K op).
Proof. apply lawful_op. Qed.

Lemma lawful_seek tr0 p : lawful tr0 (seek_to_end K p).
Proof. by apply lawful_here. Qed.

(** A test that throws *)
Lemma lawful_test {A B} tr0 (b : bool) (a : A) x (k : A → M B) :
  (b = true → lawful tr0 (k a)) → lawful tr0 (st_bind (if b then st_ret a else st_throw x) k).
Proof.
  intros Hk. destruct b; [by apply Hk|]. apply lawful_here. intros w Hg. done.
Qed.

Lemma lawful_mono {A} tr0 tr (m : M A) : tr0 `prefix_of` tr → lawful tr0 m → lawful tr m.
Proof. intros Hp Hm w Hg Hw. apply Hm; [done|]. by transitivity tr. Qed.

(** [lawful] goes through the structure of an operation; what is left are its
    calls. *)
Ltac lawful_step :=
  lazymatch goal with
  | |- lawful _ (st_bind (file_allowed _ _ _ _ _ _ _) _) => apply lawful_file_allowed; intros ????
  | |- lawful _ (st_bind (dir_allowed _ _ _ _ _ _ _) _) => apply lawful_dir_allowed; intros ????
  | |- lawful _ (st_bind (allowed _ _ _ _ _ _ _) _) => apply lawful_allowed; intros ????
  | |- lawful _ (st_bind (throw_error _) _) => unfold throw_error
  | |- lawful _ (st_bind (if _ then st_ret _ else st_throw _) _) => apply lawful_test; intros ?
  | |- lawful _ (st_bind _ _) => apply lawful_bind; [|intros ?]
  | |- lawful _ (st_ret _) => apply lawful_ret
  | |- lawful _ (st_throw _) => apply lawful_throw
  | |- lawful _ (st_gets _) => apply lawful_gets
  | |- lawful _ (st_modify (set_workDir _)) => apply lawful_workDir
  | |- lawful _ (st_modify (set_mask _)) => apply lawful_mask
  | |- lawful _ (st_catch _ _) => apply lawful_catch; [|intros [] ? [= <-]]
  | |- lawful _ (dir_allowed _ _ _ _ _ _ _) => apply lawful_dir_allowed_only
  | |- lawful _ (seek_to_end _ _) => apply lawful_seek
  | |- lawful _ (query _ _) => by apply lawful_query
  | |- lawful _ (if ?b then _ else _) => destruct b eqn:?
  | |- lawful _ (match ?o with _ => _ end) => destruct o eqn:?
  | |- lawful _ ?m => progress unfold throw_error, check_space, FreeDiskSpace, regular_file, status, opendir,
                        make_virtual, make_real, lift_path, hidden_entry, umask0
  end.
Ltac lawful := repeat lawful_step.

(** *** The operations *)

Ltac before := first [reflexivity | eassumption | etransitivity; eassumption].

(** A call, by a right that was granted *)
Ltac lawful_by :=
  unfold DeleteFile_real, CreateDirectory_real, RemoveDirectory_real, SetAttribute;
  apply lawful_call; intros _;
  solve [eexists; split; [constructor|];
  repeat lazymatch goal with
  | |- Forall _ (_ :: _) => apply Forall_cons_2
  | |- Forall _ [] => apply Forall_nil_2
  | |- granted _ _ _ _ _ _ _ _ (?t, ?p) =>
      match goal with
      | Ha : err_ok ?e = true → admitted t p ?tr |- _ =>
          exists tr; split_and!; [apply Ha; first [done | by apply negb_false_iff] | before | before]
      end
  end].
Ltac lawful_op := unfold take_ownership, SetOwner; lawful; try done; try lawful_by.

Lemma lawful_DeleteFile : lawful base (DeleteFile K GIDToName uninit sitepath user path).
Proof. unfold DeleteFile. lawful_op. Qed.

Lemma lawful_CreateFile : lawful base (CreateFile K GIDToName uninit sitepath settings user path).
Proof. unfold CreateFile. lawful_op. Qed.

Lemma lawful_AppendFile offset : lawful base (AppendFile K GIDToName uninit sitepath settings user path offset).
Proof. unfold AppendFile. lawful_op. Qed.

Lemma lawful_OpenFile : lawful base (OpenFile K GIDToName uninit sitepath user path).
Proof. unfold OpenFile. lawful_op. by apply lawful_call. Qed.

Lemma lawful_CreateDirectory : lawful base (CreateDirectory K GIDToName uninit sitepath user path).
Proof. unfold CreateDirectory. lawful_op. Qed.

Lemma lawful_check_entries tr0 dir l : lawful tr0 (check_entries K settings dir l).
Proof. induction l as [|name l IH]; cbn [check_entries]; lawful; apply IH. Qed.

Lemma lawful_unlink_entries tr0 tr l :
  admitted Delete (slashed path) tr → base `prefix_of` tr → tr `prefix_of` tr0 →
  lawful tr0 (unlink_entries K (MakeReal_virtual sitepath path) l).
Proof.
  intros Ha Hb Hp. induction l as [|name l IH]; cbn [unlink_entries]; lawful; [|done].
  apply lawful_call. intros _. exists [(Delete, slashed path)]. split; [constructor|]. apply Forall_singleton. by exists tr.
Qed.

Lemma lawful_RemoveDirectory : lawful base (RemoveDirectory K GIDToName uninit sitepath settings user path).
Proof.
  unfold RemoveDirectory. lawful; try lawful_by; [apply lawful_check_entries|].
  eapply lawful_unlink_entries; [|done|done].
  match goal with Ha : _ → admitted _ _ _ |- _ => by apply Ha, negb_false_iff end.
Qed.

Lemma lawful_ChangeDirectory tr0 p : lawful tr0 (ChangeDirectory K GIDToName uninit sitepath settings user p).
Proof. unfold ChangeDirectory. lawful. Qed.

Lemma lawful_ChangeAlias tr0 p : lawful tr0 (ChangeAlias K GIDToName uninit sitepath settings user p).
Proof.
  unfold ChangeAlias. case_decide; [|lawful]. generalize (to_lower p). intros name.
  induction (aliases settings) as [|[n q] l IH]; cbn [ChangeAlias_loop]; lawful; [apply lawful_ChangeDirectory|done].
Qed.

Lemma lawful_visit {A} tr0 dir check (body : str → M (option A)) l :
  (∀ x, lawful tr0 (body x)) → lawful tr0 (visit K GIDToName uninit sitepath user dir check body l).
Proof.
  intros Hb. revert check. induction l as [|x l IH]; intros check; cbn [visit]; [lawful|].
  apply lawful_bind; [destruct check; lawful|]. intros h. destruct h; [apply IH|].
  apply lawful_bind; [apply Hb|]. intros [a|]; [lawful|apply IH].
Qed.

Lemma lawful_skip tr0 dir l : lawful tr0 (skip_hidden K GIDToName uninit sitepath user dir l).
Proof.
  induction l as [|x l IH]; cbn [skip_hidden]; [lawful|]. apply lawful_bind; [lawful|].
  intros h. destruct h; [apply IH|lawful].
Qed.

Lemma lawful_ChangeMatch tr0 p : lawful tr0 (ChangeMatch K GIDToName uninit sitepath settings user p).
Proof.
  unfold ChangeMatch. lawful. unfold for_entries.
  repeat first [apply lawful_skip | apply lawful_visit; intros ? | lawful_step].
  unfold try_match. lawful. apply lawful_ChangeDirectory.
Qed.

Lemma lawful_ChangeCdpath tr0 p : lawful tr0 (ChangeCdpath K GIDToName uninit sitepath settings user p).
Proof.
  unfold ChangeCdpath. case_decide; [|lawful].
  induction (cdpaths settings) as [|q l IH]; cbn [ChangeCdpath_loop]; lawful; [apply lawful_ChangeMatch|done].
Qed.

Lemma lawful_Chmod mode : lawful base (Chmod K GIDToName uninit sitepath user path mode).
Proof. unfold Chmod. lawful_op. Qed.

Lemma lawful_UniqueFile_loop tr0 p names n i : lawful tr0 (UniqueFile_loop K sitepath p names i n).
Proof.
  revert i. induction n as [|n IH]; intros i; cbn [UniqueFile_loop]; [lawful|].
  apply lawful_bind; [lawful|]. intros [e|]; [lawful|apply IH].
Qed.

Lemma lawful_UniqueFile names : lawful base (UniqueFile K GIDToName uninit sitepath user path names).
Proof.
  unfold UniqueFile, throw_error. apply lawful_file_allowed. intros e tr Hp He. apply lawful_test.
  intros _. apply lawful_UniqueFile_loop.
Qed.

End lawful.

(** ** The requests of a user *)

Inductive request : Type :=
  | Delete_ | Create | Append (offset : Z) | Open | Unique (names : nat → str)
  | Enter | EnterAlias | EnterMatch | EnterCdpath | MakeDirectory | Remove | ChangeMode (mode : list Change).

Section requests.
Context `{Fnmatch, ReplaceAll, CaseConv}.
Context (K : Kernel) (GIDToName : Z → str) (uninit : Z) (sitepath : str) (settings : Settings).
Implicit Types (user : UserData) (path : str) (c : Config).

Definition ignore {A} (m : M A) : M unit := m;;; st_ret tt.

Definition perform (r : request) user path : M unit :=
  match r with
  | Delete_ => ignore (DeleteFile K GIDToName uninit sitepath user path)
  | Create => ignore (CreateFile K GIDToName uninit sitepath settings user path)
  | Append offset => ignore (AppendFile K GIDToName uninit sitepath settings user path offset)
  | Open => ignore (OpenFile K GIDToName uninit sitepath user path)
  | Unique names => ignore (UniqueFile K GIDToName uninit sitepath user path names)
  | Enter => ignore (ChangeDirectory K GIDToName uninit sitepath settings user path)
  | EnterAlias => ignore (ChangeAlias K GIDToName uninit sitepath settings user path)
  | EnterMatch => ignore (ChangeMatch K GIDToName uninit sitepath settings user path)
  | EnterCdpath => ignore (ChangeCdpath K GIDToName uninit sitepath settings user path)
  | MakeDirectory => ignore (CreateDirectory K GIDToName uninit sitepath user path)
  | Remove => ignore (RemoveDirectory K GIDToName uninit sitepath settings user path)
  | ChangeMode mode => ignore (Chmod K GIDToName uninit sitepath user path mode)
  end.

Lemma lawful_perform r c user path base :
  lawful K GIDToName uninit sitepath c user path base base (perform r user path).
Proof.
  destruct r; cbn [perform]; unfold ignore; apply lawful_bind; try (intros; apply lawful_ret).
  - apply lawful_DeleteFile. - apply lawful_CreateFile. - apply lawful_AppendFile. - apply lawful_OpenFile.
  - apply lawful_UniqueFile. - apply lawful_ChangeDirectory. - apply lawful_ChangeAlias.
  - apply lawful_ChangeMatch. - apply lawful_ChangeCdpath. - apply lawful_CreateDirectory.
  - apply lawful_RemoveDirectory. - apply lawful_Chmod.
Qed.

Lemma all_licensed_spec c user path base tr l pre op post :
  all_licensed K GIDToName uninit sitepath c user path base tr l → l = pre ++ op :: post →
  licensed K GIDToName uninit sitepath c user path base (tr ++ pre) op.
Proof. intros Hl ->. apply all_licensed_app in Hl as [_ [Hl _]]. done. Qed.


End requests.

(** ** A file system to try things on: the directory /site/home/joe/d with the file
    .x, for the user joe, who may do everything below /home *)

Module Example.

#[export] Existing Instances ref_split ref_fnmatch ref_replace_all ref_case.

Definition joe : UserData := Rights.Example.owner.

Definition config : Config := {|
  rights k := [Entry {| rpath := lit "/home/*"; specialVar := false |} (FromString (lit "*"))];
  privpath := []; pathFilter := []; hiddenFiles := []; noretrieve := []
|}.

Definition dir : str := lit "/site/home/joe/d".
Definition file : str := lit "/site/home/joe/d/.x".

Definition attributes (p : str) : result Z stat :=
  if decide (p = dir) then Ok (MkStat (16384 + 511) 0 0 4096 1000)
  else if decide (p = file) then Ok (MkStat (32768 + 438) 0 0 2048 1000)
  else Throw ENOENT.

Definition kernel : Kernel := {|
  lstat _ p := attributes p; stat_ _ p := attributes p; garbage _ := MkStat 0 0 0 0 0;
  statvfs _ _ := Ok (4096, 2 ^ 20);
  readdir _ p := if decide (p = dir) then Ok [lit ".x"] else Throw ENOTDIR;
  seek_end _ _ := Ok 2048; getxattr _ _ _ := Throw 61; realpath _ _ := None; time_ _ := 1010;
  done_ _ _ := Success
|}.

Definition settings : Settings := {|
  FreeSpace := 1024; DlIncomplete := false; aliases := []; cdpaths := []; euid := 0; egid := 0
|}.

Definition world : World := MkWorld config (lit "/") 18 [].

Lemma world_good : good (λ _, []) config joe world.
Proof. split; [|done]. split; [intros k|..]; unfold coherent; cbn; rewrite ?Forall_cons, ?Forall_nil; split_and?; done. Qed.

Definition create : result file_error unit * World :=
  perform kernel (λ _, []) 0 (lit "/site") settings Create joe (lit "/home/joe/f") world.

End Example.

