(* ===== verification/Directories.v ===== *)
(** * The properties of the directory operations

    Files.v models fs/directory.cpp; here is what holds of it when no other
    process interferes ([quiet]): what removing a directory removes, and that
    [DirectorySize] is the sum over the files of the tree. *)

From stdpp Require Import prelude strings.
From S2P Require Import Prelude CxxString State Path VirtualPath Acl UserData User Mode Kernel Rights Files.
Local Open Scope Z_scope.
Local Open Scope list_scope.
Local Open Scope st_scope.

Section directories.
Context `{Fnmatch, ReplaceAll, CaseConv}.
Context (K : Kernel) (GIDToName : Z → str) (uninit : Z) (sitepath : str) (settings : Settings).
Implicit Types (user : UserData) (path : str) (c : Config).

(** ** Removing a directory *)

(** Calls that only ask do not change the answers. *)
Record quiet : Prop := {
  quiet_readdir tr op p : mutates op = false → readdir K (tr ++ [op]) p = readdir K tr p;
  quiet_status tr op p : mutates op = false → Reset K (tr ++ [op]) p = Reset K tr p
}.

Abbreviation asks l := (Forall (λ op : sys, mutates op = false) l).

Lemma quiet_readdir_app tr l p : quiet → asks l → readdir K (tr ++ l) p = readdir K tr p.
Proof.
  intros Hq. revert tr. induction l as [|op l IH]; intros tr; [by rewrite app_nil_r|].
  intros [Hop Hl]%Forall_cons. change (op :: l) with ([op] ++ l). rewrite app_assoc, IH by done.
  by apply (quiet_readdir Hq).
Qed.

Lemma quiet_status_app tr l p : quiet → asks l → Reset K (tr ++ l) p = Reset K tr p.
Proof.
  intros Hq. revert tr. induction l as [|op l IH]; intros tr; [by rewrite app_nil_r|].
  intros [Hop Hl]%Forall_cons. change (op :: l) with ([op] ++ l). rewrite app_assoc, IH by done.
  by apply (quiet_status Hq).
Qed.

(** An entry that goes with its directory: its name begins with a dot, and it is
    a file that may be written. *)
Definition removable (tr : list sys) (dir name : str) : Prop :=
  head name = Some "."%char ∧
  ∃ s, Reset K tr (Join dir name) = Ok s ∧ IsDirectory s = false ∧
       IsWriteable (euid settings) (egid settings) s = true.

(** From a state that differs from [w] by questions only *)
Definition only_asked (w w1 : World) : Prop := ∃ l, ops w1 = ops w ++ l ∧ asks l.

Lemma only_asked_refl w : only_asked w w.
Proof. exists []. by rewrite app_nil_r. Qed.

Lemma only_asked_push w w1 op : only_asked w w1 → mutates op = false → only_asked w (push_op op w1).
Proof.
  intros (l & E & Hl) Hop. exists (l ++ [op]). cbn. rewrite E, <- app_assoc. split; [done|].
  apply Forall_app. split; [done|]. by apply Forall_singleton.
Qed.

Lemma check_entries_holds dir l w w1 :
  quiet → only_asked w w1 →
  st_holds (check_entries K settings dir l) w1 (λ r w2, only_asked w w2 ∧
    match r with
    | Ok e => e = Success ∧ Forall (removable (ops w) dir) l ∨
              e = FailureErrno ENOTEMPTY ∧ ¬ Forall (removable (ops w) dir) l
    | Throw e => ¬ Forall (removable (ops w) dir) l ∧ ∃ n, e = SystemError n
    end).
Proof.
  intros Hq. revert w1. induction l as [|name l IH]; intros w1 Hw; cbn [check_entries].
  { split; [done|]. by left. }
  case_bool_decide as Hdot.
  { split; [done|]. right. split; [done|]. by intros [[Hd _] _]%Forall_cons. }
  apply st_holds_bind. unfold status, query, st_holds at 1. cbn [fst snd].
  pose proof (only_asked_push w w1 (Lstat (Join dir name)) Hw eq_refl) as Hw2.
  destruct Hw as (qs & E & Hqs). rewrite E, quiet_status_app by done.
  destruct (Reset K (ops w) (Join dir name)) as [s|n] eqn:Es.
  - destruct (IsDirectory s) eqn:Ed; cbn [orb].
    { split; [done|]. right. split; [done|]. intros [(_ & s' & Es' & Ed' & _) _]%Forall_cons. congruence. }
    destruct (IsWriteable _ _ s) eqn:Ew; cbn [negb].
    + eapply st_holds_conseq; [by apply IH|]. intros r w3 [Hw3 Hr]. split; [done|].
      assert (Hn : removable (ops w) dir name) by (split; [done|]; by exists s).
      destruct r as [e|e].
      * destruct Hr as [[-> Hl] | [-> Hl]]; [left | right]; (split; [done|]).
        -- by apply Forall_cons.
        -- by intros [_ ?]%Forall_cons.
      * destruct Hr as [Hl He]. split; [|done]. by intros [_ ?]%Forall_cons.
    + split; [done|]. right. split; [done|]. intros [(_ & s' & Es' & _ & Ew') _]%Forall_cons. congruence.
  - split; [done|]. split; [|by exists n]. intros [(_ & s' & Es' & _) _]%Forall_cons. congruence.
Qed.

Lemma unlink_entries_holds dir l w :
  st_holds (unlink_entries K dir l) w (λ r w', ∃ k e, r = Ok e ∧
    ops w' = ops w ++ map (λ name, Unlink (Join dir name)) k ∧ k `prefix_of` l ∧ (e = Success → k = l)).
Proof.
  revert w. induction l as [|name l IH]; intros w; cbn [unlink_entries].
  { exists [], Success. by rewrite app_nil_r. }
  apply st_holds_bind. unfold call, syscall, st_holds at 1. cbn [fst snd].
  destruct (done_ K (ops w) _) as [|n|m] eqn:E; cbn [err_ok].
  - eapply st_holds_conseq; [apply IH|]. intros r w' (k & e & -> & E' & Hk & Hs).
    exists (name :: k), e. split; [done|]. split; [|split].
    + rewrite E'. cbn. by rewrite <- app_assoc.
    + by apply prefix_cons.
    + intros He. f_equal. by apply Hs.
  - exists [name], (FailureErrno n). split_and!; [done|done| |done]. apply prefix_cons, prefix_nil.
  - exists [name], (FailureMsg m). split_and!; [done|done| |done]. apply prefix_cons, prefix_nil.
Qed.

(** The calls that change something *)
Definition changes (l : list sys) : list sys := filter (λ op, mutates op = true) l.

Lemma changes_asks l : asks l → changes l = [].
Proof.
  induction 1 as [|op l Hop Hl IH]; [done|]. unfold changes. rewrite filter_cons_False by congruence. exact IH.
Qed.

Lemma changes_unlinks dir l : changes (map (λ name, Unlink (Join dir name)) l) = map (λ name, Unlink (Join dir name)) l.
Proof.
  induction l as [|n l IH]; [done|]. cbn [map]. unfold changes. rewrite filter_cons_True by done. f_equal. exact IH.
Qed.

Lemma changes_app l k : changes (l ++ k) = changes l ++ changes k.
Proof. apply filter_app. Qed.

(** What [RemoveDirectory] does, from a state that differs from [w] by questions *)
Inductive removal (dir : str) (w : World) (e : error) (w' : World) : Prop :=
  | removal_refused new :
      ops w' = ops w ++ new → asks new → e ≠ Success →
      ¬ (∃ l, readdir K (ops w) dir = Ok l ∧ Forall (removable (ops w) dir) l) →
      removal dir w e w'
  | removal_begun new l k :
      ops w' = ops w ++ new → changes new = map (λ name, Unlink (Join dir name)) k →
      readdir K (ops w) dir = Ok l → Forall (removable (ops w) dir) l →
      k `prefix_of` l → e ≠ Success → removal dir w e w'
  | removal_tried new l :
      ops w' = ops w ++ new → changes new = map (λ name, Unlink (Join dir name)) l ++ [Rmdir dir] →
      readdir K (ops w) dir = Ok l → Forall (removable (ops w) dir) l →
      (∃ tr, e = done_ K tr (Rmdir dir)) → removal dir w e w'.

Definition remove_contents (dir : str) : M error :=
  st_catch
    (_ <- opendir K dir;;
     l <- opendir K dir;; e <- check_entries K settings dir l;;
     if negb (err_ok e) then st_ret e
     else l <- opendir K dir;; unlink_entries K dir l) to_error.

Definition remove_all (dir : str) : M error :=
  e <- remove_contents dir;; if negb (err_ok e) then st_ret e else RemoveDirectory_real K dir.

(** The entries are listed, checked, listed again and unlinked. *)
Lemma remove_contents_holds dir w :
  quiet →
  st_holds (remove_contents dir) w (λ r w', ∃ e new, r = Ok e ∧ ops w' = ops w ++ new ∧
    (asks new ∧ e ≠ Success ∧ ¬ (∃ l, readdir K (ops w) dir = Ok l ∧ Forall (removable (ops w) dir) l) ∨
     ∃ l k, readdir K (ops w) dir = Ok l ∧ Forall (removable (ops w) dir) l ∧
            changes new = map (λ name, Unlink (Join dir name)) k ∧ k `prefix_of` l ∧ (e = Success → k = l))).
Proof.
  intros Hq. unfold remove_contents. apply st_holds_catch.
  assert (Hopen : ∀ w1 (P : result file_error (list str) → World → Prop), only_asked w w1 →
    (∀ w2, only_asked w w2 → match readdir K (ops w) dir with
                             | Ok l => P (Ok l) w2 | Throw n => P (Throw (SystemError n)) w2 end) →
    st_holds (opendir K dir) w1 P).
  { intros w1 P Hw1 HP. unfold opendir, query, st_holds. cbn [fst snd].
    specialize (HP _ (only_asked_push w w1 (Opendir dir) Hw1 eq_refl)).
    destruct Hw1 as (qs & E & Hqs). rewrite E, quiet_readdir_app by done. by destruct (readdir K (ops w) dir). }
  apply st_holds_bind, Hopen; [apply only_asked_refl|]. intros w1 Hw1.
  destruct (readdir K (ops w) dir) as [l|n] eqn:El.
  2: { destruct Hw1 as (qs & E & Hqs). exists (FailureErrno n), qs. split_and!; [done|done|].
       left. split_and!; [done|done|]. by intros (l & ? & _). }
  apply st_holds_bind, Hopen; [done|]. intros w2 Hw2.
  apply st_holds_bind.
  eapply st_holds_conseq; [by apply check_entries_holds|]. intros r w3 [Hw3 Hr].
  assert (Hno : ¬ Forall (removable (ops w) dir) l →
                ¬ ∃ l', Ok l = Ok (E := Z) l' ∧ Forall (removable (ops w) dir) l') by naive_solver.
  destruct r as [e|x].
  - destruct Hr as [[-> Hl] | [-> Hl]]; cbn [err_ok negb].
    + apply st_holds_bind, Hopen; [done|]. intros w4 (qs & E4 & Hqs).
      eapply st_holds_conseq; [apply unlink_entries_holds|]. intros r w5 (k & e & -> & E5 & Hk & He).
      exists e, (qs ++ map (λ name, Unlink (Join dir name)) k). rewrite E5, E4, app_assoc. split_and!; [done|done|].
      right. exists l, k. by rewrite changes_app, (changes_asks qs), changes_unlinks by done.
    + destruct Hw3 as (qs & E & Hqs). exists (FailureErrno ENOTEMPTY), qs. split_and!; [done|done|]. left. auto.
  - destruct Hr as [Hl [n ->]]. cbn [to_error]. destruct Hw3 as (qs & E & Hqs).
    exists (FailureErrno n), qs. split_and!; [done|done|]. left. auto.
Qed.

Lemma remove_all_holds dir w : quiet → st_holds (remove_all dir) w (λ r w', ∃ e, r = Ok e ∧ removal dir w e w').
Proof.
  intros Hq. unfold remove_all. apply st_holds_bind. eapply st_holds_conseq; [by apply remove_contents_holds|].
  intros r w1 (e & new & -> & E & Hcases). destruct (err_ok e) eqn:He; cbn [negb].
  - apply err_ok_true in He as ->. destruct Hcases as [(_ & ? & _)|(l & k & El & Hl & Hc & Hp & Hk)]; [done|].
    rewrite Hk in * by done. unfold RemoveDirectory_real, call, syscall, st_holds. cbn [fst snd].
    exists (done_ K (ops w1) (Rmdir dir)). split; [done|].
    apply (removal_tried _ _ _ _ (new ++ [Rmdir dir]) l); [| |done|done|by eexists].
    + cbn. by rewrite E, app_assoc.
    + by rewrite changes_app, Hc.
  - exists e. split; [done|]. destruct Hcases as [(Ha & Hs & Hno)|(l & k & El & Hl & Hc & Hp & Hk)].
    + by apply (removal_refused _ _ _ _ new).
    + apply (removal_begun _ _ _ _ new l k); try done. by intros ->.
Qed.

(** Removing a directory.  When no other process interferes,
    [RemoveDirectory] never throws, and: without the right to delete the
    directory it changes nothing; if the directory cannot be listed, or holds an entry whose
    name does not begin with a dot, that is a directory or that may not be
    written, it changes nothing and fails; otherwise it removes the entries in the order
    listed, stopping at the first failure, and then the directory, whose removal is
    the answer.  It succeeds only if all this was done. *)
Lemma RemoveDirectory_spec c user path w r w' :
  quiet → good GIDToName c user w →
  RemoveDirectory K GIDToName uninit sitepath settings user path w = (r, w') →
  let dir := MakeReal_virtual sitepath path in
  ∃ e, r = Ok e ∧
    ((path ≠ [] ∧ admits K GIDToName uninit sitepath c user Delete (slashed path) (ops w) ∧ removal dir w e w') ∨
     (¬ (path ≠ [] ∧ admits K GIDToName uninit sitepath c user Delete (slashed path) (ops w)) ∧
      e ≠ Success ∧ ops w' = ops w)).
Proof.
  intros Hq Hg Hr dir. pattern r, w'. eapply st_holds_run; [|exact Hr]. clear r w' Hr.
  unfold RemoveDirectory. apply st_holds_bind. unfold dir_allowed, asked, st_holds at 1.
  pose proof (dir_allowed_admits K GIDToName uninit sitepath c user Delete path w Hg) as HI.
  destruct (DirAllowed _ _ _ _ _ _ _) as [e cfg']. destruct HI as [He Hg']. cbn [fst snd].
  destruct (err_ok e) eqn:Eok; cbn [negb].
  - destruct (proj1 He eq_refl) as [Hne Ha].
    eapply st_holds_conseq; [apply (remove_all_holds dir (set_cfg cfg' w) Hq)|].
    intros r w' (e' & -> & Hrem). exists e'. split; [done|]. left. split_and!; [done|done|].
    destruct Hrem; by econstructor.
  - exists e. split; [done|]. right. split; [|split; [by intros ->|done]].
    intros Hp. apply He in Hp. congruence.
Qed.

(** ** The size of a directory *)

(** A tree of files.  The size of a link is its own. *)
Inductive node : Type :=
  | FileNode (bytes : Z)
  | DirNode (entries : list (str * node))
  | LinkNode (toDirectory toFile : bool) (bytes : Z)
  | OtherNode.

(** The status of a node *)
Definition looks (s : Status) (n : node) : Prop :=
  match n with
  | FileNode bytes => IsDirectory s = false ∧ IsRegularFile s = true ∧ Size s = bytes
  | DirNode _ => IsDirectory s = true ∧ IsSymLink s = false
  | LinkNode toDirectory toFile bytes =>
      IsDirectory s = toDirectory ∧ IsSymLink s = true ∧ IsRegularFile s = toFile ∧ Size s = bytes
  | OtherNode => IsDirectory s = false ∧ IsRegularFile s = false
  end.

(** The kernel shows the tree below [p], and goes on to do so while it is only
    asked. *)
Inductive shows : str → list (str * node) → Prop :=
  | shows_dir p es :
      (∀ tr, asks tr → readdir K tr p = Ok (map fst es)) →
      (∀ name n, (name, n) ∈ es → ∀ tr, asks tr → ∃ s, Reset K tr (Join p name) = Ok s ∧ looks s n) →
      (∀ name sub, (name, DirNode sub) ∈ es → shows (Join p name) sub) →
      shows p es.

(** The files of a tree with their names from the root, and what counts of their
    sizes; a link to a file counts with the size of the link. *)
Fixpoint files_of (n : node) : list (list str * Z) :=
  match n with
  | FileNode bytes => [([], bytes)]
  | LinkNode false true bytes => [([], bytes)]
  | LinkNode _ _ _ | OtherNode => []
  | DirNode es => flat_map (λ '(name, n), map (λ '(path, bytes), (name :: path, bytes)) (files_of n)) es
  end.

Definition dotted (name : str) : bool := bool_decide (head name = Some "."%char).

(** The files that count: not deeper than [depth], and none of their names hidden,
    if hidden files are ignored *)
Definition counted (depth : nat) (ignoreHidden : bool) (f : list str * Z) : bool :=
  (length f.1 <=? depth)%nat && negb (ignoreHidden && existsb dotted f.1).

Definition total_kBytes (l : list (list str * Z)) : Z := foldr (λ f a, Z.quot f.2 1024 + a) 0 l.

Definition size_of (depth : nat) (ignoreHidden : bool) (n : node) : Z :=
  total_kBytes (filter (λ f, counted depth ignoreHidden f = true) (files_of n)).

Lemma total_kBytes_app l k : total_kBytes (l ++ k) = total_kBytes l + total_kBytes k.
Proof. unfold total_kBytes. induction l as [|f l IH]; [done|]. cbn [app foldr]. rewrite IH. lia. Qed.

Lemma total_kBytes_cons f l : total_kBytes (f :: l) = Z.quot f.2 1024 + total_kBytes l.
Proof. done. Qed.

(** One level of the tree *)
Lemma size_of_cons depth ig name n es :
  size_of (S depth) ig (DirNode ((name, n) :: es)) =
  (if ig && dotted name then 0 else size_of depth ig n) + size_of (S depth) ig (DirNode es).
Proof.
  unfold size_of. cbn [files_of flat_map]. rewrite filter_app, total_kBytes_app. f_equal.
  induction (files_of n) as [|[path bytes] l IH]; cbn [map].
  { by destruct (ig && _). }
  assert (E : counted (S depth) ig (name :: path, bytes) = negb (ig && dotted name) && counted depth ig (path, bytes)).
  { unfold counted. cbn. destruct ig, (dotted name), (existsb _ path); cbn; by rewrite ?andb_true_r, ?andb_false_r. }
  rewrite !filter_cons. rewrite E. destruct (ig && dotted name); cbn [negb andb].
  - rewrite decide_False by done. exact IH.
  - destruct (decide _); [by rewrite !total_kBytes_cons, IH | exact IH].
Qed.

Lemma size_of_0 ig es : size_of 0 ig (DirNode es) = 0.
Proof.
  unfold size_of. cbn [files_of]. induction es as [|[name n] es IH]; [done|]. cbn [flat_map].
  rewrite filter_app, total_kBytes_app, IH. induction (files_of n) as [|[path bytes] l IHl]; [done|].
  cbn [map]. by rewrite filter_cons_False.
Qed.

(** After questions only *)
Definition idle (w : World) : Prop := asks (ops w).

Lemma idle_push w op : idle w → mutates op = false → idle (push_op op w).
Proof. intros Hw Hop. unfold idle. cbn. apply Forall_app. split; [done|]. by apply Forall_singleton. Qed.

Lemma opendir_shows p es w (P : result file_error (list str) → World → Prop) :
  shows p es → idle w → (∀ w', idle w' → P (Ok (map fst es)) w') → st_holds (opendir K p) w P.
Proof.
  intros Hs Hw HP. destruct Hs as [p es Hr _ _]. unfold opendir, query, st_holds. cbn [fst snd].
  rewrite Hr by done. apply HP. by apply idle_push.
Qed.

Lemma size_of_one depth ig bytes :
  total_kBytes (filter (λ f, counted depth ig f = true) [([], bytes)]) = Z.quot bytes 1024.
Proof. rewrite filter_cons_True by (by destruct ig). rewrite total_kBytes_cons. apply Z.add_0_r. Qed.

(** One entry, for a recursion that is right for its subdirectories *)
Lemma entry_size_holds rec depth ig p name n w :
  (∀ tr, asks tr → ∃ s, Reset K tr (Join p name) = Ok s ∧ looks s n) →
  (∀ sub w, n = DirNode sub → idle w →
     st_holds (rec (Join p name)) w (λ r w', idle w' ∧ r = Ok (Success, size_of depth ig (DirNode sub)))) →
  idle w → st_holds (entry_size K rec p name) w (λ r w', idle w' ∧ r = Ok (size_of depth ig n)).
Proof.
  intros Hl Hrec Hw. unfold entry_size. apply st_holds_bind. unfold status, query, st_holds at 1. cbn [fst snd].
  destruct (Hl (ops w) Hw) as (s & -> & Hs). pose proof (idle_push w (Lstat (Join p name)) Hw eq_refl) as Hw1.
  destruct n as [bytes|sub|d f bytes|]; cbn [looks] in Hs.
  - destruct Hs as (-> & -> & ->). split; [done|]. unfold size_of. cbn [files_of]. by rewrite size_of_one.
  - destruct Hs as (-> & ->). apply st_holds_bind. eapply st_holds_conseq; [by apply Hrec|].
    intros r w' [Hw' ->]. done.
  - destruct Hs as (-> & -> & -> & ->). destruct d; [done|]. split; [done|]. destruct f; [|done].
    unfold size_of. cbn [files_of]. by rewrite size_of_one.
  - by destruct Hs as (-> & ->).
Qed.

Lemma sum_entries_holds rec depth ig p es k w :
  (∀ name n, (name, n) ∈ es → ∀ tr, asks tr → ∃ s, Reset K tr (Join p name) = Ok s ∧ looks s n) →
  (∀ name sub w, (name, DirNode sub) ∈ es → idle w →
     st_holds (rec (Join p name)) w (λ r w', idle w' ∧ r = Ok (Success, size_of depth ig (DirNode sub)))) →
  idle w →
  st_holds (sum_entries K rec ig p (map fst es) k) w
    (λ r w', idle w' ∧ r = Ok (Success, k + size_of (S depth) ig (DirNode es))).
Proof.
  intros Hl Hrec. revert k w. induction es as [|[name n] es IH]; intros k w Hw.
  { split; [done|]. change (size_of (S depth) ig (DirNode [])) with 0. by rewrite Z.add_0_r. }
  assert (IH' := IH (λ m x Hin, Hl m x (list_elem_of_further _ _ _ Hin)) (λ m x w' Hin, Hrec m x w' (list_elem_of_further _ _ _ Hin))).
  cbn [map fst sum_entries]. rewrite size_of_cons. unfold dotted.
  destruct (ig && _); [rewrite Z.add_0_l; by apply IH'|].
  apply st_holds_bind, st_holds_catch.
  eapply st_holds_conseq; [apply (entry_size_holds rec depth ig p name n)|].
  - apply Hl. left.
  - intros sub w' ->. apply Hrec. left.
  - done.
  - intros r w1 [Hw1 ->]. rewrite Z.add_assoc. by apply IH'.
Qed.

Lemma DirectorySize_loop_holds depth ig p es w :
  shows p es → idle w →
  st_holds (DirectorySize_loop K depth ig p) w (λ r w', idle w' ∧ r = Ok (Success, size_of depth ig (DirNode es))).
Proof.
  revert p es w. induction depth as [|depth IH]; intros p es w Hs Hw.
  { split; [done|]. by rewrite size_of_0. }
  cbn [DirectorySize_loop]. apply st_holds_catch, st_holds_bind, (opendir_shows p es); [done..|]. intros w1 Hw1.
  apply st_holds_bind, (opendir_shows p es); [done..|]. intros w2 Hw2. destruct Hs as [p es _ Hl Hd].
  eapply st_holds_conseq; [apply (sum_entries_holds _ depth)|].
  - exact Hl.
  - intros name sub w3 Hin Hw3. apply IH; [by apply Hd|done].
  - done.
  - by intros r w' [Hw' ->].
Qed.

(** C32: The size of a directory.  As long as the kernel shows one tree,
    [DirectorySize] succeeds and gives the sum of the sizes in KiB, each rounded
    down, of the regular files of the tree: those not deeper than the depth asked for,
    without those that are hidden or inside a hidden directory if hidden ones are to be
    ignored; a link to a directory is not followed.  Nothing is
    changed.  A negative depth is refused. *)
Theorem DirectorySize_spec p depth ig es w :
  shows p es → asks (ops w) →
  let '(r, w') := DirectorySize K p depth ig w in
  asks (ops w') ∧
  r = Ok (if depth <? 0 then (FailureErrno EINVAL, 0) else (Success, size_of (Z.to_nat depth) ig (DirNode es))).
Proof.
  intros Hs Hw. unfold DirectorySize. destruct (depth <? 0).
  { split; [exact Hw|reflexivity]. }
  pose proof (DirectorySize_loop_holds (Z.to_nat depth) ig p es w Hs Hw) as HL.
  unfold st_holds in HL. by destruct (DirectorySize_loop _ _ _ _ w) as [r w'].
Qed.

End directories.

Module Example.
Import Files.Example.

Lemma kernel_quiet : quiet kernel.
Proof. by split. Qed.

Definition removed : result file_error error * World :=
  RemoveDirectory kernel (λ _, []) 0 (lit "/site") settings joe (lit "/home/joe/d") world.

Definition tree : list (str * node) := [(lit ".x", FileNode 2048)].

Lemma kernel_shows : shows kernel dir tree.
Proof.
  split; [done| |].
  - intros name n Hin tr _. apply list_elem_of_singleton in Hin as [= -> ->].
    exists (MkStatus (MkStat (32768 + 438) 0 0 2048 1000) false false). by split_and!.
  - intros name sub Hin. by apply list_elem_of_singleton in Hin.
Qed.

End Example.

Lemma RemoveDirectory_spec_example :
  Example.removed.1 = Ok Success ∧
  ∃ e, Example.removed.1 = Ok e ∧ removal Files.Example.kernel Files.Example.settings (lit "/site/home/joe/d") Files.Example.world e Example.removed.2.
Proof.
  assert (E : Example.removed.1 = Ok Success) by (vm_compute; reflexivity). split; [exact E|].
  destruct (@RemoveDirectory_spec ref_fnmatch ref_replace_all Files.Example.kernel (λ _, []) 0 (lit "/site")
    Files.Example.settings Files.Example.config Files.Example.joe (lit "/home/joe/d") Files.Example.world _ _
    Example.kernel_quiet Files.Example.world_good (surjective_pairing Example.removed))
    as (e & E' & [(_ & _ & Hr)|(_ & He & _)]).
  - exists e. split; [exact E'|exact Hr].
  - exfalso. apply He. assert (Ok (E := file_error) e = Ok Success) as [= ->] by (rewrite <- E, <- E'; reflexivity). reflexivity.
Defined.

Lemma DirectorySize_spec_witness :
  fst (DirectorySize Files.Example.kernel Files.Example.dir 3 false Files.Example.world) = Ok (Success, 2).
Proof.
  pose proof (DirectorySize_spec Files.Example.kernel Files.Example.dir 3 false Example.tree Files.Example.world
    Example.kernel_shows ltac:(constructor)) as Hs.
  destruct (DirectorySize Files.Example.kernel Files.Example.dir 3 false Files.Example.world) as [r w'].
  destruct Hs as [_ ->]. vm_compute. reflexivity.
Defined.
