(* ===== verification/Calendar.v ===== *)
(** * The calendar: gmtime(3), timegm(3), strftime(3), strptime(3)

    What the commands MDTM and MFMT (cmd/rfc/commands.cpp) use of the standard
    library: broken-down time in UTC, and its text YYYYMMDDhhmmss. *)

From stdpp Require Import prelude.
From S2P Require Import Prelude CxxString Numbers.
Local Open Scope Z_scope.
Local Open Scope list_scope.

(** [struct tm], with the year and the month as they are written *)
Record tm := MkTm { year : Z; month : Z; day : Z; hour : Z; minute : Z; second : Z }.

Definition leap (y : Z) : bool := (y mod 4 =? 0) && (negb (y mod 100 =? 0) || (y mod 400 =? 0)).

(** The days of the years before [y], and of the months before [m] *)
Definition days_before_year (y : Z) : Z := let y := y - 1 in 365 * y + y / 4 - y / 100 + y / 400.

Definition month_days (y : Z) : list Z := [31; if leap y then 29 else 28; 31; 30; 31; 30; 31; 31; 30; 31; 30; 31].

Definition sum (l : list Z) : Z := foldr Z.add 0 l.
Definition days_before_month (y m : Z) : Z := sum (take (Z.to_nat (m - 1)) (month_days y)).

(** 1 January 1970 *)
Definition epoch : Z := days_before_year 1970.

Definition timegm (t : tm) : Z :=
  (days_before_year (year t) + days_before_month (year t) (month t) + (day t - 1) - epoch) * 86400
  + hour t * 3600 + minute t * 60 + second t.

(** The year of a day: an estimate that is at most one off *)
Definition year_of (n : Z) : Z :=
  let y := 400 * n / 146097 + 1 in
  if n <? days_before_year y then y - 1 else if days_before_year (y + 1) <=? n then y + 1 else y.

(** The month and the day in it, of a day of the year *)
Fixpoint month_of (ms : list Z) (m n : Z) : Z * Z :=
  match ms with
  | [] => (m, n + 1)
  | d :: ms => if n <? d then (m, n + 1) else month_of ms (m + 1) (n - d)
  end.

Definition gmtime (t : Z) : tm :=
  let n := t / 86400 + epoch in
  let s := t mod 86400 in
  let y := year_of n in
  let '(m, d) := month_of (month_days y) 1 (n - days_before_year y) in
  MkTm y m d (s / 3600) (s / 60 mod 60) (s mod 60).

(** ** Text *)

Definition two_digits (n : Z) : str := [digit (n / 10); digit (n mod 10)].

(** [strftime] with "%Y%m%d%H%M%S" *)
Definition strftime (t : tm) : str :=
  to_string (year t) ++ two_digits (month t) ++ two_digits (day t) ++ two_digits (hour t)
  ++ two_digits (minute t) ++ two_digits (second t).

(** A number of [strptime]: after spaces, at most [n] digits, as long as the value
    does not exceed [hi]; glibc counts digits only while the value fits. *)
Fixpoint more_digits (n : nat) (hi v : Z) (s : str) : Z * str :=
  match n, s with
  | S n, c :: s' =>
      if isdigit c && (10 * v <=? hi) then more_digits n hi (10 * v + (code c - 48)) s' else (v, s)
  | _, _ => (v, s)
  end.

Definition get_number (lo hi : Z) (n : nat) (s : str) : option (Z * str) :=
  match drop_spaces s with
  | c :: s' =>
      if isdigit c then
        let '(v, s) := more_digits (n - 1) hi (code c - 48) s' in
        if (lo <=? v) && (v <=? hi) then Some (v, s) else None
      else None
  | [] => None
  end.

(** [strptime] with "%Y%m%d%H%M%S"; what follows the text is not looked at. *)
Definition strptime (s : str) : option tm :=
  match get_number 0 9999 4 s with
  | None => None
  | Some (y, s) =>
  match get_number 1 12 2 s with
  | None => None
  | Some (mo, s) =>
  match get_number 1 31 2 s with
  | None => None
  | Some (d, s) =>
  match get_number 0 23 2 s with
  | None => None
  | Some (h, s) =>
  match get_number 0 59 2 s with
  | None => None
  | Some (mi, s) =>
  match get_number 0 61 2 s with
  | None => None
  | Some (se, s) => Some (MkTm y mo d h mi se)
  end end end end end end.

(** ** A date is found again *)

(** Linear arithmetic with quotients and remainders *)
Ltac div_lia := Z.to_euclidean_division_equations; lia.

Definition valid_tm (t : tm) : Prop :=
  1 ≤ month t ≤ 12 ∧ 1 ≤ day t ≤ nth (Z.to_nat (month t - 1)) (month_days (year t)) 0 ∧
  0 ≤ hour t < 24 ∧ 0 ≤ minute t < 60 ∧ 0 ≤ second t < 60.

Lemma days_before_next y : days_before_year (y + 1) = days_before_year y + sum (month_days y).
Proof.
  unfold days_before_year, month_days, leap, sum. cbn [foldr].
  destruct (Z.eqb_spec (y mod 4) 0), (Z.eqb_spec (y mod 100) 0), (Z.eqb_spec (y mod 400) 0); cbn [andb negb orb];
    div_lia.
Qed.

Lemma days_before_year_mono y z : y < z → days_before_year (y + 1) ≤ days_before_year z.
Proof. unfold days_before_year. intros Hy. replace (y + 1 - 1) with y by lia. div_lia. Qed.

Lemma year_of_spec y n : days_before_year y ≤ n < days_before_year (y + 1) → year_of n = y.
Proof.
  intros Hn. unfold year_of. set (e := 400 * n / 146097 + 1).
  assert (He : y - 1 ≤ e ≤ y + 1).
  { subst e. unfold days_before_year in Hn. replace (y + 1 - 1) with y in Hn by lia. div_lia. }
  clearbody e. pose proof (days_before_year_mono (y - 1) y ltac:(lia)) as H1.
  assert (H2 : days_before_year (y - 1) ≤ days_before_year y) by (unfold days_before_year; div_lia).
  assert (e = y - 1 ∨ e = y ∨ e = y + 1) as [-> | [-> | ->]] by lia.
  - replace (y - 1 + 1) with y in * by lia. destruct (Z.ltb_spec n (days_before_year (y - 1))); [lia|].
    destruct (Z.leb_spec (days_before_year y) n); lia.
  - destruct (Z.ltb_spec n (days_before_year y)); [lia|].
    destruct (Z.leb_spec (days_before_year (y + 1)) n); lia.
  - destruct (Z.ltb_spec n (days_before_year (y + 1))); lia.
Qed.

Lemma month_of_spec ms m k d :
  (k < length ms)%nat → Forall (λ x, 0 ≤ x) ms → 0 ≤ d < nth k ms 0 →
  month_of ms m (sum (take k ms) + d) = (m + Z.of_nat k, d + 1).
Proof.
  revert m k. induction ms as [|x ms IH]; intros m k Hk Hms Hd; [cbn in Hk; lia|].
  apply Forall_cons in Hms as [Hx Hms]. destruct k as [|k]; cbn [take nth month_of] in *.
  - cbn [sum foldr]. rewrite Z.add_0_l, Z.add_0_r. destruct (Z.ltb_spec d x); [done|lia].
  - assert (Hs : ∀ l, Forall (λ x, 0 ≤ x) l → 0 ≤ sum l) by (induction 1; cbn; unfold sum in *; lia).
    specialize (Hs (take k ms) (Forall_take _ _ _ Hms)).
    change (sum (x :: firstn k ms)) with (x + sum (firstn k ms)).
    destruct (Z.ltb_spec (x + sum (firstn k ms) + d) x); [lia|].
    replace (x + sum (firstn k ms) + d - x) with (sum (firstn k ms) + d) by lia.
    rewrite IH by (done || cbn in Hk; lia). f_equal. lia.
Qed.

Lemma month_days_length y : length (month_days y) = 12%nat.
Proof. done. Qed.

Lemma month_days_pos y : Forall (λ x, 0 ≤ x) (month_days y).
Proof. unfold month_days. repeat constructor; try lia. destruct (leap y); lia. Qed.

(** The day of a valid date lies in its year. *)
Lemma sum_take_lt ms k d :
  (k < length ms)%nat → Forall (λ x, 0 ≤ x) ms → 0 ≤ d < nth k ms 0 → 0 ≤ sum (take k ms) + d < sum ms.
Proof.
  revert k. induction ms as [|x ms IH]; intros k Hk Hms Hd; [cbn in Hk; lia|].
  apply Forall_cons in Hms as [Hx Hms].
  assert (Hs : ∀ l, Forall (λ x, 0 ≤ x) l → 0 ≤ sum l) by (induction 1; cbn; unfold sum in *; lia).
  change (sum (x :: ms)) with (x + sum ms). destruct k as [|k]; cbn [take nth] in *.
  - cbn [sum foldr]. specialize (Hs ms Hms). lia.
  - change (sum (x :: firstn k ms)) with (x + sum (firstn k ms)).
    specialize (IH k ltac:(cbn in Hk; lia) Hms Hd). lia.
Qed.

Lemma gmtime_timegm t : valid_tm t → gmtime (timegm t) = t.
Proof.
  destruct t as [y m d h mi s]. intros (Hm & Hd & Hh & Hmi & Hs). cbn [year month day hour minute second] in *.
  unfold gmtime, timegm. cbn [year month day hour minute second]. unfold days_before_month.
  set (k := Z.to_nat (m - 1)) in *.
  assert (Hk : (k < length (month_days y))%nat) by (rewrite month_days_length; lia).
  pose proof (sum_take_lt (month_days y) k (d - 1) Hk (month_days_pos y) ltac:(lia)) as Hr.
  pose proof (month_of_spec (month_days y) 1 k (d - 1) Hk (month_days_pos y) ltac:(lia)) as Hmo.
  set (b := sum (take k (month_days y))) in *.
  set (n := days_before_year y + b + (d - 1) - epoch).
  assert (E1 : (n * 86400 + h * 3600 + mi * 60 + s) / 86400 = n) by div_lia.
  assert (E2 : (n * 86400 + h * 3600 + mi * 60 + s) mod 86400 = h * 3600 + mi * 60 + s) by div_lia.
  rewrite E1, E2. assert (Ey : year_of (n + epoch) = y).
  { apply year_of_spec. rewrite days_before_next. subst n. lia. }
  rewrite Ey. replace (n + epoch - days_before_year y) with (b + (d - 1)) by (subst n; lia).
  rewrite Hmo. f_equal; div_lia.
Qed.

(** ** A text is read back *)

Lemma digits_value_upper a ds :
  0 ≤ a → forallb isdigit ds = true → digits_value a ds < (a + 1) * 10 ^ Z.of_nat (length ds).
Proof.
  revert a. induction ds as [|c ds IH]; intros a Ha Hd; [cbn; lia|].
  cbn in Hd. apply andb_true_iff in Hd as [Hc%isdigit_code Hd].
  specialize (IH (10 * a + (code c - 48)) ltac:(lia) Hd). cbn [length].
  rewrite Nat2Z.inj_succ, Z.pow_succ_r by lia.
  change (digits_value a (c :: ds)) with (digits_value (10 * a + (code c - 48)) ds). nia.
Qed.

Lemma more_digits_spec hi v ds s :
  0 ≤ v → forallb isdigit ds = true → digits_value v ds ≤ hi →
  more_digits (length ds) hi v (ds ++ s) = (digits_value v ds, s).
Proof.
  revert v. induction ds as [|c ds IH]; intros v Hv Hd Hhi; [by destruct s|].
  cbn in Hd. apply andb_true_iff in Hd as [Hc Hd]. pose proof (isdigit_code c Hc).
  change (digits_value v (c :: ds)) with (digits_value (10 * v + (code c - 48)) ds) in *.
  pose proof (digits_value_lower (10 * v + (code c - 48)) ds ltac:(lia) Hd) as Hl.
  assert (1 ≤ 10 ^ Z.of_nat (length ds)) by (apply (Z.pow_le_mono_r 10 0); lia).
  cbn [length app more_digits]. rewrite Hc. destruct (Z.leb_spec (10 * v) hi); [|nia]. apply IH; [lia|done..].
Qed.

Lemma get_number_spec lo hi n ds s :
  ds ≠ [] → length ds = n → forallb isdigit ds = true → lo ≤ digits_value 0 ds ≤ hi →
  get_number lo hi n (ds ++ s) = Some (digits_value 0 ds, s).
Proof.
  intros Hne <- Hd Hr. destruct ds as [|c ds]; [done|]. destruct (digit_head c ds Hd) as (Hs & _).
  cbn in Hd. apply andb_true_iff in Hd as [Hc Hd]. pose proof (isdigit_code c Hc).
  change (digits_value 0 (c :: ds)) with (digits_value (code c - 48) ds) in *.
  unfold get_number. cbn [app drop_spaces]. rewrite Hs, Hc. cbn [length]. rewrite Nat.sub_succ, Nat.sub_0_r.
  rewrite more_digits_spec by (lia || done). cbv beta iota.
  destruct (Z.leb_spec lo (digits_value (code c - 48) ds)), (Z.leb_spec (digits_value (code c - 48) ds) hi); done || lia.
Qed.

Lemma two_digits_spec lo hi n s :
  0 ≤ n < 100 → lo ≤ n ≤ hi → get_number lo hi 2 (two_digits n ++ s) = Some (n, s).
Proof.
  intros Hn Hr. assert (H1 : 0 ≤ n / 10 < 10) by div_lia. assert (H2 : 0 ≤ n mod 10 < 10) by div_lia.
  assert (E : digits_value 0 (two_digits n) = n).
  { unfold digits_value, two_digits. cbn [foldl]. rewrite !code_digit by done. div_lia. }
  rewrite get_number_spec; [by rewrite E|done|done| |by rewrite E].
  unfold two_digits. cbn [forallb]. by rewrite !isdigit_digit.
Qed.

Lemma year_text y s : 1000 ≤ y ≤ 9999 → get_number 0 9999 4 (to_string y ++ s) = Some (y, s).
Proof.
  intros Hy. pose proof (to_string_length y 4 ltac:(lia) ltac:(lia)) as Hl.
  destruct (to_string_digits y ltac:(lia)) as (ds & E & Hne & Hd & Hv). rewrite E in *.
  pose proof (digits_value_upper 0 ds ltac:(lia) Hd) as Hu. rewrite Hv in Hu.
  assert (length ds = 4%nat).
  { destruct ds as [|? [|? [|? [|? [|? ?]]]]]; cbn in *; lia. }
  by rewrite get_number_spec; [rewrite Hv|done|done|done|rewrite Hv; lia].
Qed.

Lemma strptime_strftime t : valid_tm t → 1000 ≤ year t ≤ 9999 → strptime (strftime t) = Some t.
Proof.
  intros (Hm & Hd & Hh & Hmi & Hs) Hy. destruct t as [y m d h mi s]. cbn [year month day hour minute second] in *.
  assert (d ≤ 31).
  { unfold month_days in Hd. set (k := Z.to_nat (m - 1)) in *. assert (k < 12)%nat by lia. clearbody k.
    do 12 (destruct k as [|k]; [cbn in Hd; repeat case_match; lia|]). lia. }
  unfold strptime, strftime. cbn [year month day hour minute second].
  rewrite year_text by done. rewrite !two_digits_spec by lia.
  rewrite <- (app_nil_r (two_digits s)), two_digits_spec by lia. done.
Qed.
