(* ===== verification/FileCommands.v ===== *)
(** * Commands on files: cmd/rfc/cwd.cpp, cmd/rfc/commands.cpp, exec/check.cpp

    CWD, CDUP, DELE, MKD, RMD, SIZE, MDTM, MFMT and STOU, over the operations of
    Files.v.  The state of a command is that of the file system, the user, the
    rules whose answers the commands store, the replies and what is written to the
    database and the event log. *)

From stdpp Require Import prelude gmap strings.
From S2P Require Import Prelude CxxString State Numbers Path VirtualPath Acl UserData Transaction User Settings Policies Config Credits Calendar Mode Kernel Rights Files.
Local Open Scope Z_scope.
Local Open Scope list_scope.
Local Open Scope st_scope.

(** ** State *)

Inductive reply_line : Type := PartReply (code : Z) (text : str) | Reply (code : Z) (text : str).

(** What is written for others to read: the index of directories, the names that
    are checked for dupes, the statistics, the events *)
Inductive record : Type :=
  | IndexAdd (path section : str) | IndexDelete (path : str) | DupeAdd (name section : str)
  | UploadDecr (kBytes modTime : Z) (section : str)
  | Event (name path user group tagline : str).

Record Session := MkSession {
  fs : World; user : UserData; creditRules : list CreditRule; showDiz : list Right;
  msgpath : list (entry (str * str)); replies : list reply_line; records : list record
}.

Definition set_fs v s := MkSession v (user s) (creditRules s) (showDiz s) (msgpath s) (replies s) (records s).
Definition set_user v s := MkSession (fs s) v (creditRules s) (showDiz s) (msgpath s) (replies s) (records s).
Definition set_creditRules v s := MkSession (fs s) (user s) v (showDiz s) (msgpath s) (replies s) (records s).
Definition set_showDiz v s := MkSession (fs s) (user s) (creditRules s) v (msgpath s) (replies s) (records s).
Definition set_msgpath v s := MkSession (fs s) (user s) (creditRules s) (showDiz s) v (replies s) (records s).
Definition set_replies v s := MkSession (fs s) (user s) (creditRules s) (showDiz s) (msgpath s) v (records s).
Definition set_records v s := MkSession (fs s) (user s) (creditRules s) (showDiz s) (msgpath s) (replies s) v.

(** What leaves [Execute] as an exception; [OutOfRange] is that of [substr]. *)
Inductive exit : Type := NoPostScript | SyntaxError_ | OutOfRange | Escaped (e : file_error).

Abbreviation C := (ST Session exit).

(** The operations of Files.v *)
Definition in_fs {A} (m : M A) : C A := λ s,
  let '(r, w) := m (fs s) in (match r with Ok a => Ok a | Throw e => Throw (Escaped e) end, set_fs w s).

Definition part_reply (code : Z) (text : str) : C unit := st_modify (λ s, set_replies (replies s ++ [PartReply code text]) s).
Definition reply (code : Z) (text : str) : C unit := st_modify (λ s, set_replies (replies s ++ [Reply code text]) s).
Definition record_ (r : record) : C unit := st_modify (λ s, set_records (records s ++ [r]) s).
Definition when (b : bool) (m : C unit) : C unit := if b then m else st_ret tt.

(** [control.Reply(...); throw cmd::NoPostScriptError();] *)
Definition deny {A} (code : Z) (text : str) : C A := reply code text;;; st_throw NoPostScript.

Record CheckScript := MkCheck { c_path : str; c_mask : str; c_disabled : bool }.

(** [util::ToString(kBytes / 1024.0, 2)], of a number of KiB below 2^53, which the
    division leaves exact: two decimals, a tie to the even one *)
Definition MB_text (kBytes : Z) : str :=
  let n := Z.abs kBytes * 100 in
  let q := n / 1024 in
  let r := n mod 1024 in
  let q := if (512 <? r) || (r =? 512) && Z.odd q then q + 1 else q in
  (if kBytes <? 0 then lit "-" else []) ++ to_string (q / 100) ++ lit "." ++ two_digits (q mod 100).

Section commands.
Context `{Split, CaseConv, Trim, Fnmatch, ReplaceAll, RegexMatch}.
Context (K : Kernel) (GIDToName : Z → str) (uninit : Z) (sitepath : str) (settings : Settings).
Context (strerror : Z → str).
(** The contents of a file, if it can be opened; a script with its arguments: what
    it prints and its exit status, or the errno *)
Context (ReadFileToString : list sys → str → option str) (Script : str → list str → result Z (Z * str)).
(** The questions to the configuration that Config.v models *)
Context (SectionMatch : str → bool → option SectionDef) (IsIndexed IsDupeLogged IsEventLogged : str → bool).
Context (preDirCheck : list CheckScript).
(** What a buffer on the stack holds *)
Context (garbage_text : str).
Implicit Types (path : str).

Abbreviation real path := (MakeReal_virtual sitepath path).
Abbreviation message := (err_message strerror).

Definition with_user {A} (m : UserData → M A) : C A := u <- st_gets user;; in_fs (m u).
Definition PathFromUser (p : str) : C str := in_fs (make_virtual K sitepath p).
Definition work_directory : C str := st_gets (λ s, workDir (fs s)).
Definition section_name (o : option SectionDef) : str := match o with Some s => s_name s | None => [] end.

(** ** cmd/rfc/cwd.cpp *)

Definition DisplayFile (p : str) : C unit :=
  r <- in_fs (st_catch (s <- status K p;; st_ret (IsReadable (euid settings) (egid settings) s))
                (λ e, match e with SystemError _ => Some (st_ret false) | _ => None end));;
  if r : bool then
    text <- st_gets (λ s, ReadFileToString (ops (fs s)) p);;
    match text with Some lines => part_reply 250 lines | None => st_ret tt end
  else st_ret tt.

(** A loop over entries with an ACL, which stores its answers; [f] runs for those
    whose ACL admits the user. *)
Fixpoint each_admitted {A} (f : A → C unit) (l : list (entry A)) : C (list (entry A)) :=
  match l with
  | [] => st_ret []
  | e :: l =>
      u <- st_gets user;;
      let '(r, e) := eval_entry (User_ACLInfo u GIDToName) e in
      (if r then f (arg e) else st_ret tt);;;
      l <- each_admitted f l;; st_ret (e :: l)
  end.

Definition ShowDiz path : C unit :=
  l <- st_gets showDiz;;
  l <- each_admitted (λ diz, DisplayFile (real (Join path (rpath diz)))) l;; st_modify (set_showDiz l).

Definition MsgPath path : C unit :=
  let slashPath := slashed path in
  l <- st_gets msgpath;;
  l <- each_admitted (λ mp, if WildcardMatch mp.1 slashPath false then DisplayFile mp.2 else st_ret tt) l;;
  st_modify (set_msgpath l).

Definition ShowMessage path : C unit := MsgPath path;;; ShowDiz path.

Definition entered (text : str) : C unit :=
  d <- work_directory;; ShowMessage d;;; reply 250 (lit "CWD command successful" ++ text ++ lit ".").

Definition parenthesis (what path : str) : str := lit " (" ++ what ++ lit ": " ++ path ++ lit ")".

(** [if (e.Errno() == ENOENT && (e = next))]: the next attempt, if nothing was
    found so far *)
Definition or_else (e : error) (next : C (error * str)) (found : str → C unit) (rest : error → C unit) : C unit :=
  if err_errno e =? ENOENT then
    r <- next;; if err_ok (fst r) then found (snd r) else rest (fst r)
  else rest e.

Definition CWDCommand (argStr : str) : C unit :=
  path <- PathFromUser argStr;;
  e <- with_user (λ u, ChangeDirectory K GIDToName uninit sitepath settings u path);;
  if err_ok e then entered []
  else
    or_else e (with_user (λ u, ChangeAlias K GIDToName uninit sitepath settings u argStr))
      (λ m, entered (parenthesis (lit "Alias") m)) (λ e,
    or_else e (with_user (λ u, ChangeMatch K GIDToName uninit sitepath settings u path))
      (λ m, entered (parenthesis (lit "Matched") m)) (λ e,
    or_else e (with_user (λ u, ChangeCdpath K GIDToName uninit sitepath settings u argStr))
      (λ m, entered (parenthesis (lit "Matched") m)) (λ e,
    deny 550 (argStr ++ lit ": " ++ message e)))).

(** ** cmd/rfc/commands.cpp *)

Definition CDUPCommand : C unit :=
  up <- PathFromUser (lit "..");;
  e <- with_user (λ u, ChangeDirectory K GIDToName uninit sitepath settings u (Resolve up));;
  if err_ok e then reply 250 (lit "CDUP command successful.")
  else deny 550 (lit "..: " ++ message e).

Definition section_info (o : option SectionDef) : option SectionInfo :=
  match o with Some s => Some (s_name s, s_ratio s) | None => None end.

(** [client.User().DecrSectionCredits(...)], whose answer is not looked at *)
Definition lose_credits (section : option SectionDef) (kBytes : Z) : C unit :=
  let name := match section with Some s => if separateCredits s then s_name s else [] | None => [] end in
  st_modify (λ s, set_user (Transaction.set f_credits (snd (DecrCredits name kBytes false (UserData.credits (user s)))) (user s)) s).

Definition upload_ratio path (section : option SectionDef) : C Z := λ s,
  let '(ratio, rules) := UploadRatio GIDToName (user s) path (section_info section) (creditRules s) in
  (Ok ratio, set_creditRules rules s).

Definition DELECommand (argStr : str) : C unit :=
  path <- PathFromUser argStr;;
  loseCredits <- st_gets (λ s, UID (GetOwner K uninit (ops (fs s)) (real path)) =? id (user s));;
  r <- with_user (λ u, DeleteFile K GIDToName uninit sitepath u path);;
  match r with
  | (Success, Some (bytes, modTime)) =>
      let section := SectionMatch path false in
      nostats <- match section with
                 | None => st_ret true
                 | Some _ => e <- with_user (λ u, file_allowed K GIDToName uninit sitepath Nostats u path);; st_ret (err_ok e)
                 end;;
      when (negb nostats) (record_ (UploadDecr (Z.quot bytes 1024) modTime (section_name section)));;;
      creditLoss <- (if loseCredits : bool
                     then ratio <- upload_ratio path section;; st_ret (Z.quot bytes 1024 * ratio) else st_ret 0);;
      if creditLoss =? 0 then reply 250 (lit "DELE command successful.")
      else
        lose_credits section creditLoss;;;
        reply 250 (lit "DELE command successful. (" ++ MB_text creditLoss ++ lit "MB credits lost)")
  | (e, _) => deny 550 (argStr ++ lit ": " ++ message e)
  end.

(** exec/check.cpp *)
Fixpoint LookupCheck (checks : list CheckScript) path : option str :=
  match checks with
  | [] => None
  | c :: checks =>
      if WildcardMatch (c_mask c) path false then (if c_disabled c then None else Some (c_path c))
      else LookupCheck checks path
  end.

Definition PreDirCheck path : C bool :=
  match LookupCheck preDirCheck path with
  | None => st_ret true
  | Some script =>
      d <- work_directory;;
      match Script script [script; Basename path; Dirname path; d] with
      | Ok (exitStatus, messages) =>
          if negb (exitStatus =? 0) then
            reply 550 (match messages with [] => lit "Mkdir denied by pre check script." | _ => messages end);;;
            st_ret false
          else (match messages with [] => st_ret tt | _ => part_reply (-2) messages end);;; st_ret true
      | Throw n => reply 550 (lit "Unable to execute pre dir check script: " ++ strerror n);;; st_ret false
      end
  end.

Definition log_event (name path : str) : C unit :=
  u <- st_gets user;;
  when (IsEventLogged path)
    (record_ (Event name (real path) (UserData.name u) (GIDToName (primaryGid u)) (tagline u))).

Definition MKDCommand (argStr : str) : C unit :=
  path <- PathFromUser argStr;;
  e <- with_user (λ u, asked (λ _, Filter GIDToName u (Basename path)));;
  if negb (err_ok e) then deny 550 (lit "Directory name contains one or more invalid characters.")
  else
    ok <- PreDirCheck path;;
    if negb ok then st_throw NoPostScript
    else
      e <- with_user (λ u, CreateDirectory K GIDToName uninit sitepath u path);;
      if negb (err_ok e) then deny 550 (argStr ++ lit ": " ++ message e)
      else
        let section := section_name (SectionMatch path true) in
        when (IsIndexed path) (record_ (IndexAdd path section));;;
        when (IsDupeLogged path) (record_ (DupeAdd (Basename path) section));;;
        log_event (lit "NEWDIR") path;;;
        reply 257 (lit "MKD command successful.").

Definition RMDCommand (argStr : str) : C unit :=
  path <- PathFromUser argStr;;
  e <- with_user (λ u, RemoveDirectory K GIDToName uninit sitepath settings u path);;
  if negb (err_ok e) then deny 550 (argStr ++ lit ": " ++ message e)
  else
    when (IsIndexed path) (record_ (IndexDelete path));;;
    log_event (lit "DELDIR") path;;;
    reply 250 (lit "RMD command successful.").

(** The status of a file that the user may use for [t], or a reply and nothing; the
    code of MDTM, SIZE and MFMT *)
Definition plain_file (t : Action) path (shown : str) : C (option Status) :=
  e <- with_user (λ u, file_allowed K GIDToName uninit sitepath t u path);;
  if negb (err_ok e) then reply 550 (shown ++ lit ": " ++ message e);;; st_ret None
  else
    r <- in_fs (st_catch (s <- status K (real path);; st_ret (Ok s))
                  (λ e, match e with SystemError n => Some (st_ret (Throw n)) | _ => None end));;
    match r with
    | Throw n => reply 550 (shown ++ lit ": " ++ strerror n);;; st_ret None
    | Ok s => if IsRegularFile s then st_ret (Some s)
              else reply 550 (shown ++ lit ": Not a plain file.");;; st_ret None
    end.

Definition SIZECommand (argStr : str) : C unit :=
  path <- PathFromUser argStr;;
  o <- plain_file View path argStr;;
  match o with Some s => reply 213 (to_string (Size s)) | None => st_ret tt end.

(** The text goes to a buffer of 15 bytes; if it does not fit, the buffer is left as
    it is. *)
Definition MDTM_text (t : Z) : str :=
  let text := strftime (gmtime t) in if (length text <? 15)%nat then text else garbage_text.

Definition MDTMCommand (argStr : str) : C unit :=
  path <- PathFromUser argStr;;
  o <- plain_file View path argStr;;
  match o with Some s => reply 213 (MDTM_text (st_mtime (native s))) | None => st_ret tt end.

(** [arg1] is [args[1]]. *)
Definition MFMTCommand (argStr arg1 : str) : C unit :=
  if (length argStr <? S (length arg1))%nat then st_throw OutOfRange
  else
    let pathStr := trim (drop (S (length arg1)) argStr) in
    path <- PathFromUser pathStr;;
    match strptime arg1 with
    | None => st_throw SyntaxError_
    | Some tm =>
        o <- plain_file Modify path pathStr;;
        match o with
        | None => st_ret tt
        | Some _ =>
            e <- in_fs (call K (Utimes (real path) (timegm tm)));;
            if negb (err_ok e) then reply 550 (pathStr ++ lit ": " ++ message e)
            else reply 213 (lit "Modify=" ++ arg1 ++ lit "; " ++ pathStr)
        end
    end.

(** [STOUCommand]: the argument of the STOR that is executed *)
Definition STOUCommand (names : nat → str) : C str :=
  d <- work_directory;;
  r <- with_user (λ u, UniqueFile K GIDToName uninit sitepath u d names);;
  if err_ok (fst r) then st_ret (snd r) else deny 550 (lit "Unable to generate a unique filename.").

End commands.

(** ** Reasoning about commands *)

Lemma st_holds_in_fs {A} (m : M A) s (P : result exit A → Session → Prop) :
  st_holds m (fs s) (λ r w, P (match r with Ok a => Ok a | Throw e => Throw (Escaped e) end) (set_fs w s)) →
  st_holds (in_fs m) s P.
Proof. unfold st_holds, in_fs. by destruct (m (fs s)) as [r w]. Qed.

Lemma st_holds_with_user {A} (m : UserData → M A) s (P : result exit A → Session → Prop) :
  st_holds (m (user s)) (fs s) (λ r w, P (match r with Ok a => Ok a | Throw e => Throw (Escaped e) end) (set_fs w s)) →
  st_holds (with_user m) s P.
Proof. apply st_holds_in_fs. Qed.

Lemma make_virtual_same K sitepath p w : snd (make_virtual K sitepath p w) = w.
Proof. assert (El : ∀ r, snd (lift_path r w) = w) by (by intros []). exact (El _). Qed.

Lemma set_fs_same s : set_fs (fs s) s = s.
Proof. by destruct s. Qed.

(** ** The work directory *)

Section searching.
Context `{Fnmatch, ReplaceAll, CaseConv}.
Context (K : Kernel) (GIDToName : Z → str) (uninit : Z) (sitepath : str) (settings : Settings).
Context (c : Config) (u : UserData).

Abbreviation good := (good GIDToName c u).

(** A directory the user may enter: the rules let him see it, and it is a directory
    that may be searched *)
Definition enterable (p : str) (tr : list sys) : Prop :=
  p ≠ [] ∧ admits K GIDToName uninit sitepath c u View (slashed p) tr ∧
  ∃ s, Reset K tr (MakeReal_virtual sitepath p) = Ok s ∧ IsDirectory s = true ∧
       IsExecutable (euid settings) (egid settings) s = true.

(** [w'] comes after [w], with questions only. *)
Definition later (w w' : World) : Prop := ∃ l, ops w' = ops w ++ l ∧ Forall (λ op, mutates op = false) l.

Lemma later_refl w : later w w.
Proof. exists []. by rewrite app_nil_r. Qed.

Lemma later_same w w' : ops w' = ops w → later w w'.
Proof. exists []. by rewrite app_nil_r. Qed.

Lemma later_trans w1 w2 w3 : later w1 w2 → later w2 w3 → later w1 w3.
Proof.
  intros (l & E & Hl) (k & E' & Hk). exists (l ++ k). rewrite E', E, app_assoc. split; [done|]. by apply Forall_app.
Qed.

Lemma later_prefix w w' : later w w' → ops w `prefix_of` ops w'.
Proof. intros (l & -> & _). by apply prefix_app_r. Qed.

(** The work directory is the one that was entered, or as before. *)
Definition moved (o : option str) (w w' : World) : Prop :=
  match o with
  | Some p => workDir w' = p ∧ ∃ tr, ops w `prefix_of` tr ∧ tr `prefix_of` ops w' ∧ enterable p tr
  | None => workDir w' = workDir w
  end.

Lemma moved_trans o w1 w2 w3 : later w1 w2 → workDir w2 = workDir w1 → moved o w2 w3 → moved o w1 w3.
Proof.
  intros Hl Hd. destruct o as [p|]; cbn [moved]; [|congruence]. intros (Hp & tr & Ht1 & Ht2 & He).
  split; [done|]. exists tr. split_and!; [|done..]. etrans; [by apply later_prefix|done].
Qed.

Lemma moved_later o w1 w2 w3 : moved o w1 w2 → later w2 w3 → workDir w3 = workDir w2 → moved o w1 w3.
Proof.
  intros Hm Hl Hd. destruct o as [p|]; cbn [moved] in *; [|congruence]. destruct Hm as (Hp & tr & Ht1 & Ht2 & He).
  split; [congruence|]. exists tr. split_and!; [done| |done]. etrans; [done|by apply later_prefix].
Qed.

(** A computation that enters the directory [f] of its result, if there is one *)
Definition searches {A} (f : A → option str) (m : M A) : Prop := ∀ w, good w →
  good (snd (m w)) ∧ later w (snd (m w)) ∧
  moved (match fst (m w) with Ok a => f a | Throw _ => None end) w (snd (m w)).

Lemma searches_pure {A} f (m : M A) :
  (∀ w, good w → good (snd (m w)) ∧ later w (snd (m w)) ∧ workDir (snd (m w)) = workDir w) →
  (∀ a, f a = None) → searches f m.
Proof.
  intros Hm Hf w Hg. destruct (Hm w Hg) as (Ha1 & Ha2 & Ha3). split_and!; [done..|].
  destruct (fst (m w)); [by rewrite Hf|done].
Qed.

Lemma searches_ret {A} f (a : A) : f a = None → searches f (st_ret a).
Proof. intros Hf w Hg. split_and!; [done|by apply later_same|]. cbn. by rewrite Hf. Qed.

Lemma searches_throw {A} (f : A → option str) e : searches f (st_throw e).
Proof. intros w Hg. split_and!; [done|by apply later_same|done]. Qed.

Lemma searches_bind {A B} (g : A → option str) (f : B → option str) (m : M A) (k : A → M B) :
  searches g m → (∀ a, g a = None ∧ searches f (k a) ∨ ∃ b, k a = st_ret b ∧ f b = g a) →
  searches f (st_bind m k).
Proof.
  intros Hm Hk w Hg. destruct (Hm w Hg) as (Hg1 & Hl1 & Hm1). unfold st_bind.
  destruct (m w) as [[a|e] w1]; cbn [fst snd] in *; [|done].
  destruct (Hk a) as [[Ha Hka]|(b & -> & Hb)].
  - rewrite Ha in Hm1. destruct (Hka w1 Hg1) as (Hg2 & Hl2 & Hm2).
    split_and!; [done|by eapply later_trans|by eapply moved_trans].
  - cbn. by rewrite Hb.
Qed.

Lemma searches_catch {A} f (m : M A) h :
  searches f m → (∀ e k, h e = Some k → ∃ a, k = st_ret a ∧ f a = None) → searches f (st_catch m h).
Proof.
  intros Hm Hh w Hg. destruct (Hm w Hg) as (Hg1 & Hl1 & Hm1). unfold st_catch.
  destruct (m w) as [[a|e] w1]; cbn [fst snd] in *; [done|].
  destruct (h e) as [k|] eqn:E; [|done]. destruct (Hh e k E) as (a & -> & Ha). cbn. by rewrite Ha.
Qed.

(** What does not search *)
Abbreviation calm m := (searches (λ _, None) m).

Lemma calm_query {A} op (f : list sys → result Z A) : mutates op = false → calm (query op f).
Proof.
  intros Hop. apply searches_pure; [|done]. intros w Hg. split_and!; [done| |done].
  exists [op]. split; [done|]. by apply Forall_singleton.
Qed.

Lemma calm_gets {A} (f : World → A) : calm (st_gets f).
Proof. apply searches_pure; [|done]. intros w Hg. split_and!; [done|by apply later_same|done]. Qed.

Lemma calm_lift r : calm (lift_path r).
Proof. destruct r; [by apply searches_ret|apply searches_throw]. Qed.

Lemma calm_bind {A B} (f : B → option str) (m : M A) (k : A → M B) :
  calm m → (∀ a, searches f (k a)) → searches f (st_bind m k).
Proof. intros Hm Hk. eapply searches_bind; [exact Hm|]. intros a. left. auto. Qed.

Lemma calm_make_virtual p : calm (make_virtual K sitepath p).
Proof. apply calm_bind; [apply calm_gets|intros r; apply calm_lift]. Qed.

Lemma calm_dir_allowed t p : calm (dir_allowed K GIDToName uninit sitepath t u p).
Proof.
  apply searches_pure; [|done]. intros w Hg. unfold dir_allowed, asked.
  pose proof (dir_allowed_admits K GIDToName uninit sitepath c u t p w Hg) as HI.
  destruct (DirAllowed _ _ _ _ _ _ _) as [e c']. destruct HI as [_ Hg']. split_and!; [done|by apply later_same|done].
Qed.

Lemma calm_allowed t p : calm (allowed K GIDToName uninit sitepath t u p).
Proof.
  apply searches_pure; [|done]. intros w Hg. unfold allowed, asked, Allowed.
  destruct (path_IsDirectory _ _ _).
  - pose proof (dir_allowed_admits K GIDToName uninit sitepath c u t p w Hg) as HI.
    destruct (DirAllowed _ _ _ _ _ _ _) as [e c']. destruct HI as [_ Hg']. split_and!; [done|by apply later_same|done].
  - pose proof (InnerAllowed_admits K GIDToName uninit sitepath c u t p w Hg) as HI. unfold FileAllowed.
    destruct (InnerAllowed _ _ _ _ _ _ _) as [e c']. destruct HI as [_ Hg']. split_and!; [done|by apply later_same|done].
Qed.

Lemma calm_hidden_entry p : calm (hidden_entry K GIDToName uninit sitepath u p).
Proof.
  apply calm_bind; [apply calm_lift|]. intros v. apply calm_bind; [apply calm_allowed|]. intros e. by apply searches_ret.
Qed.

Lemma calm_skip_hidden dir l : calm (skip_hidden K GIDToName uninit sitepath u dir l).
Proof.
  induction l as [|x l IH]; cbn [skip_hidden]; [by apply searches_ret|].
  apply calm_bind; [apply calm_hidden_entry|]. intros []; [done|by apply searches_ret].
Qed.

(** *** The four ways into a directory *)

Definition entered_by (p : str) (e : error) : option str := if err_ok e then Some p else None.
Definition entered_match (r : error * str) : option str := if err_ok r.1 then Some r.2 else None.

Lemma searches_ChangeDirectory p : searches (entered_by p) (ChangeDirectory K GIDToName uninit sitepath settings u p).
Proof.
  intros w Hg. destruct (ChangeDirectory _ _ _ _ _ _ _ w) as [r w'] eqn:E. cbn [fst snd]. revert E.
  unfold ChangeDirectory, st_bind at 1, dir_allowed, asked.
  pose proof (dir_allowed_admits K GIDToName uninit sitepath c u View p w Hg) as HI.
  destruct (DirAllowed _ _ _ _ _ _ _) as [e c']. destruct HI as [He Hg'].
  destruct (err_ok e) eqn:Eok; cbn [negb].
  2: { intros [= <- <-]. split_and!; [done|by apply later_same|]. unfold entered_by. by rewrite Eok. }
  destruct (proj1 He eq_refl) as [Hne Ha].
  assert (Hl : later w (push_op (Lstat (MakeReal_virtual sitepath p)) (set_cfg c' w))).
  { exists [Lstat (MakeReal_virtual sitepath p)]. split; [done|]. by apply Forall_singleton. }
  unfold st_bind, st_catch, status, query. cbn [ops set_cfg st_ret].
  destruct (Reset K (ops w) (MakeReal_virtual sitepath p)) as [s|n] eqn:Es; cbn [to_error st_ret].
  2: { by intros [= <- <-]. }
  destruct (IsDirectory s) eqn:Ed; cbn [negb]; [|by intros [= <- <-]].
  destruct (IsExecutable _ _ s) eqn:Ex; cbn [negb]; [|by intros [= <- <-]].
  intros [= <- <-]. split; [done|]. split; [done|]. split; [done|]. exists (ops w).
  split; [done|]. split; [by apply prefix_app_r|]. split; [done|]. split; [done|]. by exists s.
Qed.

Lemma ChangeDirectory_enterable p w :
  good w → enterable p (ops w) → fst (ChangeDirectory K GIDToName uninit sitepath settings u p w) = Ok Success.
Proof.
  intros Hg (Hne & Ha & s & Hs & Hd & Hx). unfold ChangeDirectory, st_bind, dir_allowed, asked.
  pose proof (dir_allowed_admits K GIDToName uninit sitepath c u View p w Hg) as HI.
  destruct (DirAllowed _ _ _ _ _ _ _) as [e c']. destruct HI as [He _]. rewrite (proj2 He) by done.
  cbn [negb]. unfold st_catch, status, query. cbn [ops set_cfg st_ret]. rewrite Hs. cbn [st_ret].
  rewrite Hd, Hx. done.
Qed.

Lemma searches_ChangeAlias p : searches entered_match (ChangeAlias K GIDToName uninit sitepath settings u p).
Proof.
  unfold ChangeAlias. case_decide; [|by apply searches_ret]. generalize (to_lower p). intros name.
  induction (aliases settings) as [|[n q] l IH]; cbn [ChangeAlias_loop]; [by apply searches_ret|].
  case_decide; [|done]. eapply searches_bind; [apply (searches_ChangeDirectory q)|]. intros e. right. by eexists.
Qed.

Definition entered_option (o : option (error * str)) : option str :=
  match o with Some r => entered_match r | None => None end.

Lemma searches_try_match dir b x : searches entered_option (try_match K GIDToName uninit sitepath settings u dir b x).
Proof.
  unfold try_match. destruct (negb _); [by apply searches_ret|].
  apply calm_bind; [apply calm_make_virtual|]. intros m.
  eapply searches_bind; [apply (searches_ChangeDirectory m)|]. intros e. right. eexists. split; [done|].
  unfold entered_by, entered_option, entered_match. destruct (err_ok e) eqn:E; cbn; [by rewrite ?E|].
  destruct (_ && _); cbn; by rewrite ?E.
Qed.

Lemma searches_visit dir check body l :
  (∀ x, searches entered_option (body x)) → searches entered_option (visit K GIDToName uninit sitepath u dir check body l).
Proof.
  intros Hb. revert check. induction l as [|x l IH]; intros check; cbn [visit]; [by apply searches_ret|].
  apply calm_bind; [destruct check; [apply calm_hidden_entry|by apply searches_ret]|].
  intros []; [apply IH|]. eapply searches_bind; [apply Hb|]. intros [r|]; [right; by eexists|left; by split].
Qed.

Lemma searches_ChangeMatch p : searches entered_match (ChangeMatch K GIDToName uninit sitepath settings u p).
Proof.
  unfold ChangeMatch. apply calm_bind; [apply calm_dir_allowed|]. intros e. destruct (negb _) eqn:Ee.
  { apply searches_ret. unfold entered_match. cbn [fst snd]. by apply negb_true_iff in Ee as ->. }
  apply searches_catch; [|intros [] ? [= <-]; by eexists].
  eapply (searches_bind entered_option).
  - unfold for_entries. apply calm_bind; [apply calm_gets|]. intros r.
    apply calm_bind; [apply calm_hidden_entry|]. intros []; [apply searches_throw|].
    apply calm_bind; [by apply calm_query|]. intros l. apply calm_bind; [apply calm_skip_hidden|]. intros _.
    apply calm_bind; [by apply calm_query|]. intros l'. apply searches_visit. intros x. apply searches_try_match.
  - intros o. right. eexists. split; [done|]. by destruct o.
Qed.

Lemma searches_ChangeCdpath p : searches entered_match (ChangeCdpath K GIDToName uninit sitepath settings u p).
Proof.
  unfold ChangeCdpath. case_decide; [|by apply searches_ret].
  induction (cdpaths settings) as [|q l IH]; cbn [ChangeCdpath_loop]; [by apply searches_ret|].
  apply calm_bind; [apply calm_make_virtual|]. intros v.
  eapply searches_bind; [apply (searches_ChangeMatch v)|]. intros r. destruct (err_ok r.1) eqn:E; cbn [orb].
  - right. by eexists.
  - destruct (negb _); [right; by eexists|]. left. split; [|done]. unfold entered_match. by rewrite E.
Qed.

End searching.

(** ** CWD *)

Section cwd.
Context `{Split, CaseConv, Trim, Fnmatch, ReplaceAll, RegexMatch}.
Context (K : Kernel) (GIDToName : Z → str) (uninit : Z) (sitepath : str) (settings : Settings).
Context (strerror : Z → str) (ReadFileToString : list sys → str → option str).

(** Nothing but replies, questions and stored answers *)
Record quietly (s s' : Session) : Prop := {
  quietly_user : user s' = user s; quietly_records : records s' = records s;
  quietly_cfg : cfg (fs s') = cfg (fs s); quietly_dir : workDir (fs s') = workDir (fs s);
  quietly_later : later (fs s) (fs s')
}.

#[local] Instance quietly_reflexive : Reflexive quietly.
Proof. intros s. split; try done. apply later_refl. Qed.

#[local] Instance quietly_transitive : Transitive quietly.
Proof. intros s1 s2 s3 [] []. split; try congruence. by eapply later_trans. Qed.

Definition runs_quietly (m : C unit) : Prop := ∀ s, ∃ s', m s = (Ok tt, s') ∧ quietly s s'.

Lemma quietly_bind m k : runs_quietly m → (∀ a, runs_quietly (k a)) → runs_quietly (st_bind m k).
Proof.
  intros Hm Hk s. destruct (Hm s) as (s1 & E & Hq). destruct (Hk tt s1) as (s2 & E2 & Hq2).
  exists s2. unfold st_bind. rewrite E, E2. split; [done|by transitivity s1].
Qed.

Lemma quietly_modify f : (∀ s, quietly s (f s)) → runs_quietly (st_modify f).
Proof. intros Hf s. by exists (f s). Qed.

Lemma quietly_ret : runs_quietly (st_ret tt).
Proof. intros s. by exists s. Qed.

Lemma quietly_gets {A} (f : Session → A) k : (∀ a, runs_quietly (k a)) → runs_quietly (st_bind (st_gets f) k).
Proof. intros Hk s. apply (Hk (f s) s). Qed.

Lemma DisplayFile_quietly p : runs_quietly (DisplayFile K settings ReadFileToString p).
Proof.
  intros s. unfold DisplayFile, st_bind at 1, in_fs, st_catch, st_bind at 1, status, query.
  assert (Hq : quietly s (set_fs (push_op (Lstat p) (fs s)) s)).
  { split; try done. exists [Lstat p]. split; [done|]. by apply Forall_singleton. }
  destruct (Reset K (ops (fs s)) p) as [st|n]; cbn [st_ret]; [|by eexists].
  destruct (IsReadable _ _ st); [|by eexists]. unfold st_bind, st_gets. destruct (ReadFileToString _ p); [|by eexists].
  eexists. split; [done|]. destruct Hq. by split.
Qed.

Lemma each_admitted_quietly {A} (f : A → C unit) l (k : list (entry A) → C unit) :
  (∀ a, runs_quietly (f a)) → (∀ l, runs_quietly (k l)) → runs_quietly (st_bind (each_admitted GIDToName f l) k).
Proof.
  intros Hf. revert k. induction l as [|e l IH]; intros k Hk s; cbn [each_admitted]; [apply Hk|].
  unfold st_bind, st_gets. destruct (eval_entry _ e) as [r e'].
  assert (Hr : runs_quietly (if r then f (arg e') else st_ret tt)) by (destruct r; [apply Hf|apply quietly_ret]).
  destruct (Hr s) as (s1 & -> & Hq1). destruct (IH (λ l, k (e' :: l)) (λ l, Hk _) s1) as (s2 & E & Hq2).
  exists s2. split; [|by transitivity s1]. unfold st_bind in E. destruct (each_admitted _ _ l s1) as [[l'|x] s3]; done.
Qed.

Lemma ShowMessage_quietly p : runs_quietly (ShowMessage K GIDToName sitepath settings ReadFileToString p).
Proof.
  unfold ShowMessage, MsgPath, ShowDiz. apply quietly_bind.
  - apply quietly_gets. intros l. apply each_admitted_quietly.
    + intros mp. destruct (WildcardMatch _ _ _); [apply DisplayFile_quietly|apply quietly_ret].
    + intros l'. apply quietly_modify. intros s. split; try done. apply later_refl.
  - intros _. apply quietly_gets. intros l. apply each_admitted_quietly.
    + intros diz. apply DisplayFile_quietly.
    + intros l'. apply quietly_modify. intros s. split; try done. apply later_refl.
Qed.

Lemma entered_holds text s :
  st_holds (entered K GIDToName sitepath settings ReadFileToString text) s (λ r s',
    r = Ok tt ∧ quietly s s' ∧ ∃ t, last (replies s') = Some (Reply 250 t)).
Proof.
  unfold entered, st_holds, st_bind, work_directory, st_gets.
  destruct (ShowMessage_quietly (workDir (fs s)) s) as (s1 & -> & Hq). cbn. split; [done|]. split.
  - destruct Hq. by split.
  - eexists. by rewrite last_snoc.
Qed.

Section spec.
Context (c : Config) (u : UserData).

Abbreviation good := (good GIDToName c u).
Abbreviation moved := (moved K GIDToName uninit sitepath settings c u).

(** The outcome of CWD for a session [s0], from one of its states *)
Definition outcome (argStr : str) (s0 : Session) (r : result exit unit) (s' : Session) : Prop :=
  user s' = u ∧ records s' = records s0 ∧ later (fs s0) (fs s') ∧
  match r with
  | Ok _ => moved (Some (workDir (fs s'))) (fs s0) (fs s') ∧ ∃ text, last (replies s') = Some (Reply 250 text)
  | Throw NoPostScript =>
      moved None (fs s0) (fs s') ∧
      ∃ e, e ≠ Success ∧ last (replies s') = Some (Reply 550 (argStr ++ lit ": " ++ err_message strerror e))
  | Throw _ => moved None (fs s0) (fs s') ∧ replies s' = replies s0
  end.

(** Between the attempts: nothing was found *)
Definition searching (s0 s : Session) : Prop :=
  user s = u ∧ records s = records s0 ∧ replies s = replies s0 ∧ good (fs s) ∧ later (fs s0) (fs s) ∧
  workDir (fs s) = workDir (fs s0).

Lemma found_outcome argStr s0 s text p :
  user s = u → records s = records s0 → later (fs s0) (fs s) → moved (Some p) (fs s0) (fs s) →
  st_holds (entered K GIDToName sitepath settings ReadFileToString text) s (outcome argStr s0).
Proof.
  intros Hu Hr Hl Hm. eapply st_holds_conseq; [apply entered_holds|]. intros r s' (-> & Hq & Hrep).
  destruct Hq as [Qu Qr Qc Qd Ql]. split; [congruence|]. split; [congruence|]. split; [by eapply later_trans|].
  split; [|done]. assert (Hm' : moved (Some p) (fs s0) (fs s')) by (by eapply moved_later).
  rewrite (proj1 Hm'). exact Hm'.
Qed.

(** One attempt *)
Lemma attempt_outcome {A} (f : A → option str) (m : UserData → M A) argStr s0 s (k : A → C unit) :
  searching s0 s → searches K GIDToName uninit sitepath settings c u f (m u) →
  (∀ a s', f a = None → searching s0 s' → st_holds (k a) s' (outcome argStr s0)) →
  (∀ a p s', f a = Some p → user s' = u → records s' = records s0 → later (fs s0) (fs s') →
             moved (Some p) (fs s0) (fs s') → st_holds (k a) s' (outcome argStr s0)) →
  st_holds (st_bind (with_user m) k) s (outcome argStr s0).
Proof.
  intros (Hu & Hr & Hp & Hg & Hl & Hd) Hm Hno Hyes. unfold with_user, st_holds, st_bind, st_gets, in_fs. rewrite Hu.
  destruct (Hm (fs s) Hg) as (Hg' & Hl' & Hm'). destruct (m u (fs s)) as [[a|e] w']; cbn [fst snd] in *.
  - destruct (f a) as [p|] eqn:Ef.
    + apply (Hyes a p); [done|done|done|by eapply later_trans|]. by eapply (moved_trans _ _ _ _ _ _ _ _ (fs s0) (fs s)).
    + apply (Hno a); [done|]. split; [done|]. split; [done|]. split; [done|]. split; [done|].
      split; [by eapply later_trans|]. cbn in *. congruence.
  - split; [done|]. split; [done|]. split; [by eapply later_trans|]. cbn in *.
    split; [congruence|done].
Qed.

Lemma in_fs_outcome {A} (m : M A) argStr s0 s (k : A → C unit) :
  searching s0 s → searches K GIDToName uninit sitepath settings c u (λ _, None) m →
  (∀ a s', searching s0 s' → st_holds (k a) s' (outcome argStr s0)) →
  st_holds (st_bind (in_fs m) k) s (outcome argStr s0).
Proof.
  intros Hs Hm Hk. exact (attempt_outcome (λ _, None) (λ _, m) argStr s0 s k Hs Hm (λ a s' _, Hk a s') ltac:(done)).
Qed.

Lemma or_else_outcome (m : UserData → M (error * str)) argStr s0 s e found rest :
  searching s0 s → e ≠ Success → searches K GIDToName uninit sitepath settings c u entered_match (m u) →
  (∀ m s', user s' = u → records s' = records s0 → later (fs s0) (fs s') →
           moved (Some m) (fs s0) (fs s') → st_holds (found m) s' (outcome argStr s0)) →
  (∀ e s', e ≠ Success → searching s0 s' → st_holds (rest e) s' (outcome argStr s0)) →
  st_holds (or_else e (with_user m) found rest) s (outcome argStr s0).
Proof.
  intros Hs He Hm Hf Hr. unfold or_else. destruct (_ =? _); [|by apply Hr].
  apply (attempt_outcome entered_match); [done|done| |]; intros [e' p].
  - intros s' Hn Hs'. unfold entered_match in Hn. cbn [fst snd] in *. destruct (err_ok e') eqn:E; [done|].
    apply Hr; [by intros ->|done].
  - intros q s' Hn. unfold entered_match in Hn. cbn [fst snd] in *. destruct (err_ok e') eqn:E; [|done].
    injection Hn as ->. apply Hf.
Qed.

End spec.

(** CWD.  With a configuration that holds this user's answers, and however the
    kernel answers: CWD asks the kernel but changes nothing in the file system, the
    user or the records.  If it succeeds, its last reply is 250, and the work directory is a directory that may be
    searched and that the rules let the user see; if it fails,
    its last reply is 550 and the work directory is the one before; if a path
    leads out of the site, the exception leaves the command with no reply and the same
    directory.  A path that can be entered itself is entered: the aliases, the names that begin
    like it and the directories of cdpath are tried only after it. *)
Lemma CWDCommand_spec c argStr s r s' :
  good GIDToName c (user s) (fs s) →
  CWDCommand K GIDToName uninit sitepath settings strerror ReadFileToString argStr s = (r, s') →
  outcome c (user s) argStr s r s' ∧
  (∀ p, fst (make_virtual K sitepath argStr (fs s)) = Ok p →
        enterable K GIDToName uninit sitepath settings c (user s) p (ops (fs s)) → workDir (fs s') = p).
Proof.
  intros Hg Hr. set (u := user s) in *.
  assert (Hs : searching c u s s) by (repeat split; try done; try apply Hg; apply later_refl).
  split.
  - eapply st_holds_run; [|exact Hr]. unfold CWDCommand, PathFromUser.
    eapply in_fs_outcome; [exact Hs|apply calm_make_virtual|]. intros path s1 Hs1.
    eapply attempt_outcome; [exact Hs1|apply (searches_ChangeDirectory _ _ _ _ _ _ _ path)| |].
    + intros e s2 He Hs2. unfold entered_by in He. destruct (err_ok e) eqn:Eok; [done|].
      apply (or_else_outcome c u); [done|by intros ->|apply searches_ChangeAlias|intros; by eapply found_outcome|].
      intros e3 s3 He3 Hs3.
      apply (or_else_outcome c u); [done|done|apply searches_ChangeMatch|intros; by eapply found_outcome|].
      intros e4 s4 He4 Hs4.
      apply (or_else_outcome c u); [done|done|apply searches_ChangeCdpath|intros; by eapply found_outcome|].
      intros e5 s5 He5 (Hu5 & Hr5 & Hp5 & Hg5 & Hl5 & Hd5). unfold deny, st_holds. cbn.
      split; [done|]. split; [done|]. split; [done|]. split; [done|]. exists e5. split; [done|apply last_snoc].
    + intros e p s2 He Hu2 Hr2 Hl2 Hm2. unfold entered_by in He. destruct (err_ok e); [|done].
      by eapply found_outcome.
  - intros p Hp He. revert Hr. unfold CWDCommand, PathFromUser, with_user, st_bind at 1, in_fs at 1.
    pose proof (make_virtual_same K sitepath argStr (fs s)) as Ew.
    destruct (make_virtual K sitepath argStr (fs s)) as [r1 w1]. cbn [fst snd] in *. subst r1 w1.
    pose proof (ChangeDirectory_enterable K GIDToName uninit sitepath settings c u p (fs s) Hg He) as Ec.
    destruct (searches_ChangeDirectory K GIDToName uninit sitepath settings c u p (fs s) Hg) as (_ & _ & Hm).
    unfold st_bind at 1 2, st_gets at 1, in_fs at 1. cbn [fs set_fs user]. fold u.
    destruct (ChangeDirectory K GIDToName uninit sitepath settings u p (fs s)) as [r1 w1]. cbn [fst snd] in *.
    subst r1. cbn [err_ok]. destruct Hm as [Hd _]. intros Hr.
    pose proof (st_holds_run _ _ _ _ _ (entered_holds [] _) Hr) as (_ & Hq & _). by rewrite (quietly_dir _ _ Hq).
Qed.

End cwd.

(** ** DELE *)

Section dele.
Context `{Split, CaseConv, Trim, Fnmatch, ReplaceAll, RegexMatch}.
Context (K : Kernel) (GIDToName : Z → str) (uninit : Z) (sitepath : str) (settings : Settings).
Context (strerror : Z → str) (SectionMatch : str → bool → option SectionDef).
Context (c : Config).

Abbreviation good u := (good GIDToName c u).
Abbreviation real path := (MakeReal_virtual sitepath path).
Abbreviation admitted u t path tr := (admits K GIDToName uninit sitepath c u t path tr).

(** A file that was deleted: the right, its status, and the call *)
Definition deleted (u : UserData) (path : str) (s : Status) (w w' : World) : Prop :=
  admitted u Delete path (ops w) ∧ Reset K (ops w) (real path) = Ok s ∧
  ops w' = ops w ++ [Lstat (real path); Unlink (real path)] ∧
  done_ K (ops w ++ [Lstat (real path)]) (Unlink (real path)) = Success.

Lemma DeleteFile_holds u path w :
  good u w →
  st_holds (DeleteFile K GIDToName uninit sitepath u path) w (λ r w', good u w' ∧ ∃ e o, r = Ok (e, o) ∧
    (e = Success → ∃ s, o = Some (Size s, st_mtime (native s)) ∧ deleted u path s w w')).
Proof.
  intros Hg. unfold DeleteFile. apply st_holds_bind. unfold file_allowed, asked, FileAllowed, st_holds at 1.
  pose proof (InnerAllowed_admits K GIDToName uninit sitepath c u Delete path w Hg) as HI.
  destruct (InnerAllowed _ _ _ _ _ _ _) as [e c']. destruct HI as [He Hg']. cbn [fst snd].
  destruct (err_ok e) eqn:Eok; cbn [negb].
  2: { split; [done|]. exists e, None. split; [done|]. by intros ->. }
  apply st_holds_bind, st_holds_catch, st_holds_bind. unfold status, query, st_holds at 1. cbn [fst snd ops set_cfg].
  destruct (Reset K (ops w) (real path)) as [s|n] eqn:Es.
  - cbn [fst snd err_ok negb]. unfold DeleteFile_real, call, syscall, st_holds, st_bind, st_ret. cbn [fst snd err_ok negb].
    split; [done|]. eexists _, _. split; [done|]. intros Hd. exists s. split; [done|].
    split; [by apply He|]. split; [done|]. split; [|done]. cbn. by rewrite <- app_assoc.
  - unfold st_holds. cbn. split; [done|]. by eexists _, _.
Qed.

(** The user after the loss of the credits he got for a file: those of its section,
    if they are separate; nothing is taken if he has too few *)
Definition charged (u : UserData) (section : option SectionDef) (kBytes : Z) : UserData :=
  let name := match section with Some s => if separateCredits s then s_name s else [] | None => [] end in
  Transaction.set f_credits (snd (DecrCredits name kBytes false (UserData.credits u))) u.

(** What DELE leaves behind *)
Inductive dele_end (argStr : str) (s : Session) (r : result exit unit) (s' : Session) : Prop :=
  | dele_refused e :
      r = Throw NoPostScript → e ≠ Success → user s' = user s → records s' = records s →
      replies s' = replies s ++ [Reply 550 (argStr ++ lit ": " ++ err_message strerror e)] → dele_end argStr s r s'
  | dele_no_path e :
      r = Throw (Escaped e) → fst (make_virtual K sitepath argStr (fs s)) = Throw e →
      user s' = user s → records s' = records s → replies s' = replies s → dele_end argStr s r s'
  | dele_done path st text :
      r = Ok tt → fst (make_virtual K sitepath argStr (fs s)) = Ok path →
      deleted (user s) path st (fs s) (fs s') →
      (∃ nostats : bool, (nostats = true ↔ SectionMatch path false = None ∨ admitted (user s) Nostats path (ops (fs s'))) ∧
        records s' = records s ++ (if nostats then []
          else [UploadDecr (Z.quot (Size st) 1024) (st_mtime (native st)) (section_name (SectionMatch path false))])) →
      user s' = (if UID (GetOwner K uninit (ops (fs s)) (real path)) =? id (user s)
                 then charged (user s) (SectionMatch path false) (Z.quot (Size st) 1024 *
                        fst (UploadRatio GIDToName (user s) path (section_info (SectionMatch path false)) (creditRules s)))
                 else user s) →
      replies s' = replies s ++ [Reply 250 text] → dele_end argStr s r s'.

Lemma charged_0 u section : charged u section 0 = u.
Proof. unfold charged. destruct section as [x|]; [destruct (separateCredits x)|]; by destruct u. Qed.

Lemma nostats_holds u path s (P : result exit bool → Session → Prop) :
  user s = u → good u (fs s) →
  (∀ (b : bool) w', good u w' → ops w' = ops (fs s) → (b = true ↔ SectionMatch path false = None ∨ admitted u Nostats path (ops (fs s))) →
           P (Ok b) (set_fs w' s)) →
  st_holds (match SectionMatch path false with
            | None => st_ret true
            | Some _ => e <- with_user (λ u, file_allowed K GIDToName uninit sitepath Nostats u path);; st_ret (err_ok e)
            end) s P.
Proof.
  intros Hu Hg HP. destruct (SectionMatch path false) as [x|].
  - unfold with_user, in_fs, st_holds, st_bind, st_gets, file_allowed, asked, FileAllowed. rewrite Hu.
    pose proof (InnerAllowed_admits K GIDToName uninit sitepath c u Nostats path (fs s) Hg) as HI.
    destruct (InnerAllowed _ _ _ _ _ _ _) as [e c']. destruct HI as [He Hg']. cbn.
    apply HP; [done|done|]. rewrite He. naive_solver.
  - unfold st_holds. cbn. assert (E : s = set_fs (fs s) s) by (by destruct s). rewrite E. apply HP; [done|done|]. naive_solver.
Qed.

Lemma upload_ratio_holds path section s (P : result exit Z → Session → Prop) :
  P (Ok (fst (UploadRatio GIDToName (user s) path (section_info section) (creditRules s))))
    (set_creditRules (snd (UploadRatio GIDToName (user s) path (section_info section) (creditRules s))) s) →
  st_holds (upload_ratio GIDToName path section) s P.
Proof. unfold st_holds, upload_ratio. by destruct (UploadRatio _ _ _ _ _). Qed.

(** DELE.  For a configuration with this user's answers, however the kernel
    answers: either the command refuses, with one reply 550, and neither the user
    nor the statistics change; or the path leads out of the site; or the file was
    one the user may delete and has been unlinked, and then: the upload is taken back in the
    statistics of its section, unless it has none or the right nostats is granted; if the
    file was owned by the user, and only then, the credits that an upload of its size
    gives at the user's ratio are taken from him, in the section or the common
    ones, all of them or, if he has too few, none; and there is one reply, 250. *)
Lemma DELECommand_spec argStr s r s' :
  good (user s) (fs s) →
  DELECommand K GIDToName uninit sitepath strerror SectionMatch argStr s = (r, s') →
  dele_end argStr s r s'.
Proof.
  intros Hg Hr. eapply st_holds_run; [|exact Hr]. clear r s' Hr. unfold DELECommand, PathFromUser.
  pose proof (make_virtual_same K sitepath argStr (fs s)) as Ew.
  apply st_holds_bind, st_holds_in_fs. unfold st_holds at 1.
  destruct (make_virtual K sitepath argStr (fs s)) as [[path|e] w] eqn:Ep; cbn [fst snd] in *; subst w;
    rewrite set_fs_same.
  2: { apply (dele_no_path _ _ _ _ e); try done. by rewrite Ep. }
  apply st_holds_bind. unfold st_gets at 1, st_holds at 1. cbn [fst snd].
  apply st_holds_bind, st_holds_with_user. eapply st_holds_conseq; [by apply DeleteFile_holds|].
  intros r1 w1 (Hg1 & e & o & -> & Hdel). destruct e as [|n|m].
  2: by apply (dele_refused _ _ _ _ (FailureErrno n)).
  2: by apply (dele_refused _ _ _ _ (FailureMsg m)).
  destruct (Hdel eq_refl) as (st & -> & Hd). clear Hdel. cbv zeta.
  apply st_holds_bind, (nostats_holds (user s)); [done|done|]. intros nostats w2 Hg2 Eo Hn.
  apply st_holds_bind. unfold when.
  set (s2 := set_fs w2 (set_fs w1 s)).
  assert (Hrec : st_holds (if negb nostats then record_ (UploadDecr (Z.quot (Size st) 1024) (st_mtime (native st)) (section_name (SectionMatch path false))) else st_ret tt) s2
    (λ r s3, r = Ok tt ∧ s3 = set_records (records s ++ (if nostats then [] else [UploadDecr (Z.quot (Size st) 1024) (st_mtime (native st)) (section_name (SectionMatch path false))])) s2)).
  { destruct nostats; unfold st_holds; cbn; [|done]. split; [done|]. by rewrite app_nil_r. }
  eapply st_holds_conseq; [exact Hrec|]. intros r3 s3 [-> ->]. clear Hrec.
  assert (Hdel : deleted (user s) path st (fs s) w2) by (destruct Hd as (Hd1 & Hd2 & Hd3 & Hd4); split_and!; [apply Hd1..|done|rewrite Eo; exact Hd3|done]).
  destruct (UID (GetOwner K uninit (ops (fs s)) (real path)) =? id (user s)) eqn:Eown.
  - apply st_holds_bind, st_holds_bind, upload_ratio_holds.
    change (user (set_records _ s2)) with (user s). change (creditRules (set_records _ s2)) with (creditRules s).
    set (u := UploadRatio _ _ _ _ _). unfold st_holds at 1. cbn [fst snd st_ret].
    destruct (Z.eqb_spec (Z.quot (Size st) 1024 * fst u) 0) as [E0|_].
    + apply (dele_done _ _ _ _ path st (lit "DELE command successful.")); try done; [by rewrite Ep|..].
      * exists nostats. split; [exact Hn|done].
      * rewrite Eown. fold u. by rewrite E0, charged_0.
    + eapply (dele_done _ _ _ _ path st); try done; [by rewrite Ep|..].
      * exists nostats. split; [exact Hn|done].
      * by rewrite Eown.
  - apply (dele_done _ _ _ _ path st (lit "DELE command successful.")); try done; [by rewrite Ep|..].
    + exists nostats. split; [exact Hn|done].
    + by rewrite Eown.
Qed.

End dele.

(** A user who has not the credits for a file he deletes loses none, although the
    reply tells him that he did. *)
Lemma charged_poor u section kBytes :
  fst (DecrCredits (match section with Some s => if separateCredits s then s_name s else [] | None => [] end)
         kBytes false (UserData.credits u)) = false →
  charged u section kBytes = u.
Proof.
  intros Hf. unfold charged. destruct (DecrCredits _ _ _ _) as [b cr] eqn:E. cbn in Hf. subst b.
  apply DecrCredits_refused in E as ->. by destruct u.
Qed.

(** The text that MFMT reads is the one that MDTM prints for the time that was
    set. *)
Lemma MFMT_MDTM_text garbage t :
  valid_tm t → 1000 ≤ year t ≤ 9999 →
  ∃ t', strptime (strftime t) = Some t' ∧ MDTM_text garbage (timegm t') = strftime t.
Proof.
  intros Ht Hy. exists t. split; [by apply strptime_strftime|]. unfold MDTM_text. rewrite gmtime_timegm by done.
  assert (Hl : (length (strftime t) ≤ 14)%nat).
  { pose proof (to_string_length (year t) 4 ltac:(lia) ltac:(lia)). unfold strftime, two_digits.
    rewrite !length_app. cbn [length]. lia. }
  by destruct (Nat.ltb_spec (length (strftime t)) 15); [|lia].
Qed.

(** ** Examples *)

Module Example.
Import Files.Example.

#[export] Existing Instances ref_trim.

Definition regex : RegexMatch := λ s re, bool_decide (s = re).
Definition strerror (n : Z) : str := to_string n.

Definition session : Session := MkSession world joe [] [] [] [] [].

Definition cwd : result exit unit * Session :=
  CWDCommand kernel (λ _, []) 0 (lit "/site") settings strerror (λ _ _, None) (lit "/home/joe/d") session.

Definition mp3 : SectionDef := {| s_name := lit "MP3"; s_paths := []; separateCredits := false; s_ratio := 3 |}.

Definition dele : result exit unit * Session :=
  DELECommand kernel (λ _, []) 7 (lit "/site") strerror (λ _ _, Some mp3) (lit "/home/joe/d/.x") session.

End Example.

#[local] Existing Instances ref_split ref_fnmatch ref_replace_all ref_case ref_trim.

Lemma CWDCommand_spec_example :
  workDir (fs Example.cwd.2) = lit "/home/joe/d" ∧
  @outcome ref_fnmatch ref_replace_all Files.Example.kernel (λ _, []) 0 (lit "/site") Files.Example.settings
    Example.strerror Files.Example.config Files.Example.joe (lit "/home/joe/d") Example.session Example.cwd.1 Example.cwd.2.
Proof.
  split; [vm_compute; reflexivity|].
  exact (proj1 (CWDCommand_spec Files.Example.kernel (λ _, []) 0 (lit "/site") Files.Example.settings Example.strerror
    (λ _ _, None) Files.Example.config (lit "/home/joe/d") Example.session _ _ Files.Example.world_good
    (surjective_pairing Example.cwd))).
Defined.

Lemma DELECommand_spec_example :
  Example.dele.1 = Ok tt ∧
  dele_end Files.Example.kernel (λ _, []) 7 (lit "/site") Example.strerror (λ _ _, Some Example.mp3)
    Files.Example.config (lit "/home/joe/d/.x") Example.session Example.dele.1 Example.dele.2.
Proof.
  split; [vm_compute; reflexivity|].
  exact (DELECommand_spec Files.Example.kernel (λ _, []) 7 (lit "/site") Example.strerror (λ _ _, Some Example.mp3)
    Files.Example.config (lit "/home/joe/d/.x") Example.session _ _ Files.Example.world_good
    (surjective_pairing Example.dele)).
Defined.

Example MB_texts : MB_text 1536 = lit "1.50" ∧ MB_text (-6) = lit "-0.01" ∧ MB_text 128 = lit "0.12".
Proof. vm_compute. done. Qed.
