(* ===== verification/Connection.v ===== *)
(** * Connections to the database: db/connection.cpp, db/connection.hpp

    The database is MongoDB, and what the driver and the server do is a parameter
    ([Mongo]) of which only the documented effect of a request is assumed
    ([CollectionOk], [MongoOk]): a request may fail at any time, with an exception or an error
    that getLastError reports.  What the code adds is the treatment of failures:
    a connection has a mode that says whether they are thrown, logged or ignored.
    A collection is the map from its unique integer key to its documents, which
    are taken to be those the code wrote. *)

From stdpp Require Import prelude gmap strings.
From S2P Require Import Prelude State.
Local Open Scope Z_scope.
Local Open Scope list_scope.
Local Open Scope st_scope.

(** ** Requests *)

(** Documents with the two unique indexes of db/initialise.cpp *)
Class Document (D : Type) := { doc_id : D → Z; doc_name : D → str; with_id : Z → D → D }.

Class DocumentOk (D : Type) `{Document D} : Prop := {
  doc_id_with_id i d : doc_id (with_id i d) = i; doc_name_with_id i d : doc_name (with_id i d) = doc_name d
}.

Inductive request (D : Type) : Type → Type :=
  | Find (q : D → bool) (limit : nat) (skip : Z) : request D (option (list D))
  | Count_ (q : D → bool) : request D Z
  | Update_ (q : D → bool) (f : D → D) : request D Z
  | FindAndModify (q : D → bool) (f : D → D) : request D (bool * bool)
  | Sum (value : D → option Z) : request D (bool * option Z)
  | Insert_ (d : D) : request D unit
  | Remove_ (q : D → bool) : request D Z
  | NextId : request D (option Z).
Arguments Find {D} q limit skip.
Arguments Count_ {D} q.
Arguments Update_ {D} q f.
Arguments FindAndModify {D} q f.
Arguments Sum {D} value.
Arguments Insert_ {D} d.
Arguments Remove_ {D} q.
Arguments NextId {D}.

(** The driver throws mongo::DBException, or answers, and getLastError then has no
    error or one with a code. *)
Inductive answer (A : Type) : Type := Raised | Answered (a : A) (err : option Z).
Arguments Raised {A}.
Arguments Answered {A} a err.

(** Opening a connection: done, mongo::DBException, or refused by [auth] *)
Inductive link : Type := Linked | NotReached | NotAuthenticated.

(** The two collections and the log of updates, of a server in the state [W] *)
Class Collection (W D : Type) := {
  contents : W → gmap Z D; perform : ∀ {A}, request D A → W → answer A * W
}.

(** The unique indexes *)
Definition names_unique {D} `{Document D} (m : gmap Z D) : Prop :=
  ∀ i j d e, m !! i = Some d → m !! j = Some e → doc_name d = doc_name e → i = j.

Definition keyed {D} `{Document D} (m : gmap Z D) : Prop := ∀ i d, m !! i = Some d → doc_id d = i.

Section effect.
Context {D : Type} `{Document D}.
Implicit Types (m : gmap Z D).

Definition matches (q : D → bool) m (d : D) : Prop := m !! doc_id d = Some d ∧ q d = true.

(** One document that matches is replaced. *)
Definition replaced (q : D → bool) (f : D → D) m m' : Prop :=
  ∃ d, matches q m d ∧ m' = <[doc_id d := f d]> m.

Definition nothing_matches (q : D → bool) m : Prop := ∀ d, ¬ matches q m d.

(** The documented effect of a request: whatever fails, a request does its work or
    nothing, and an answer without an error tells which. *)
Definition effect {A} (r : request D A) : answer A → gmap Z D → gmap Z D → Prop :=
  match r in request _ A return answer A → gmap Z D → gmap Z D → Prop with
  | Find q limit skip => λ a m m', m' = m ∧ ∀ l err, a = Answered (Some l) err →
      (∀ d, d ∈ l → matches q m d) ∧
      (err = None → skip = 0 → limit = O ∨ (length l < limit)%nat → ∀ d, matches q m d → d ∈ l)
  | Count_ q => λ a m m', m' = m ∧ ∀ n, a = Answered n None → n = Z.of_nat (size (filter (λ kv, q kv.2 = true) m))
  | Update_ q f => λ a m m',
      (m' = m ∨ replaced q f m m') ∧
      ∀ n, a = Answered n None → n = 0 ∧ m' = m ∧ nothing_matches q m ∨ n = 1 ∧ replaced q f m m'
  | FindAndModify q f => λ a m m',
      (m' = m ∨ replaced q f m m') ∧
      ∀ found, a = Answered (true, found) None → if found : bool then replaced q f m m' else m' = m ∧ nothing_matches q m
  | Sum value => λ a m m', m' = m
  | Insert_ d => λ a m m',
      (m' = m ∨ m !! doc_id d = None ∧ m' = <[doc_id d := d]> m) ∧
      (a = Answered () None → m !! doc_id d = None ∧ m' = <[doc_id d := d]> m)
  | Remove_ q => λ a m m', (∀ i, m' !! i = m !! i ∨ m' !! i = None ∧ ∃ d, m !! i = Some d ∧ q d = true) ∧
      ∀ n, a = Answered n None → ∀ i d, m' !! i = Some d → q d = false
  | NextId => λ a m m', m' = m
  end.

(** Changes that leave the key alone *)
Definition keeps_id {A} (r : request D A) : Prop :=
  match r with Update_ _ f | FindAndModify _ f => ∀ d, doc_id (f d) = doc_id d | _ => True end.

End effect.

(** The rest of the server: opening a connection, and the log of updates *)
Class Mongo (W : Type) := {
  connect : W → link * W;
  log_update : str → Z → W → answer unit * W
}.

(** A collection of a server that has, beside it, [other] *)
Class CollectionOk (W D : Type) {X : Type} (other : W → X) `{Document D, !Collection W D} : Prop := {
  perform_effect {A} (r : request D A) w : keeps_id r → effect r (perform r w).1 (contents w) (contents (perform r w).2);
  perform_other {A} (r : request D A) w : other (perform r w).2 = other w;
  contents_keyed w : keyed (contents w);
  contents_unique w : names_unique (contents w)
}.

Class MongoOk (W : Type) {X : Type} (all : W → X) `{Mongo W} : Prop := {
  connect_keeps w : all (connect w).2 = all w;
  log_keeps c i w : all (log_update c i w).2 = all w
}.

(** A server that does not fail: what is asked is answered without an error, but
    for the insertion of a document whose name or key is taken, and changes of
    names and keys, of which nothing is said. *)
Definition DUPLICATE_KEY : Z := 11000.

Definition answered_well {D A} `{Document D} (r : request D A) : answer A → gmap Z D → Prop :=
  match r in request _ A return answer A → gmap Z D → Prop with
  | Find _ _ _ => λ a _, ∃ l, a = Answered (Some l) None
  | FindAndModify _ f => λ a _, (∀ d, doc_id (f d) = doc_id d ∧ doc_name (f d) = doc_name d) → ∃ b, a = Answered (true, b) None
  | Sum _ => λ a _, ∃ o, a = Answered (true, o) None
  | NextId => λ a m, ∃ id, a = Answered (Some id) None ∧ 0 ≤ id ∧ m !! id = None
  | Insert_ d => λ a m,
      m !! doc_id d = None ∧ (∀ i e, m !! i = Some e → doc_name e ≠ doc_name d) ∧ a = Answered () None ∨
      (m !! doc_id d ≠ None ∨ ∃ i e, m !! i = Some e ∧ doc_name e = doc_name d) ∧ a = Answered () (Some DUPLICATE_KEY)
  | Update_ _ f => λ a _, (∀ d, doc_id (f d) = doc_id d ∧ doc_name (f d) = doc_name d) → ∃ n, a = Answered n None
  | Count_ _ | Remove_ _ => λ a _, ∃ n, a = Answered n None
  end.

Class Reliable (W D : Type) `{Document D, Mongo W, !Collection W D} : Prop := {
  connect_reliable w : (connect w).1 = Linked;
  log_reliable c i w : (log_update c i w).1 = Answered () None;
  perform_reliable {A} (r : request D A) w : answered_well r (perform r w).1 (contents w)
}.

(** ** Connections *)

Inductive ConnectionMode : Type := Safe | NoError | Fast.

(** The exceptions of db/error.hpp, that of the driver where it is thrown on, and
    a loop that has not ended *)
Inductive DBThrow : Type := DBError_ (message : str) | DBWriteError | DBReadError | MongoException | Looping.

(** The server and what was written to the log *)
Record Db (W : Type) := MkDb { server : W; dblog : list str }.
Arguments MkDb {W} server dblog.
Arguments server {W} d : rename.
Arguments dblog {W} d : rename.

Record Connection := MkConnection { mode : ConnectionMode; scopedConn : bool }.

Definition is_safe (m : ConnectionMode) : bool := match m with Safe => true | _ => false end.
Definition is_fast (m : ConnectionMode) : bool := match m with Fast => true | _ => false end.

Section connection.
Context {W : Type} `{Mongo W}.

Abbreviation D_ := (ST (Db W) DBThrow).

(** [LogException] and [LogLastError], of which the first word is kept *)
Definition LogError (what : str) : D_ unit := st_modify (λ s, MkDb (server s) (dblog s ++ [what])).

Definition to_server {A} (f : W → A * W) : D_ A := λ s, let '(a, w) := f (server s) in (Ok a, MkDb w (dblog s)).

Definition throw_if {A} (b : bool) (e : DBThrow) (m : D_ A) : D_ A := if b then st_throw e else m.

(** The constructor *)
Definition Create (m : ConnectionMode) : D_ Connection :=
  l <- to_server connect;;
  match l with
  | Linked => st_ret (MkConnection m true)
  | NotReached =>
      LogError (lit "Connect");;;
      throw_if (is_safe m) (DBError_ (lit "Unable to connect to database")) (st_ret (MkConnection m false))
  | NotAuthenticated =>
      LogError (lit "Connect");;;
      throw_if (is_safe m) (DBError_ (lit "Unable to authenticate with database")) (st_ret (MkConnection m false))
  end.

(** An error of getLastError, which a fast connection does not ask for *)
Definition last_error {A} (conn : Connection) (what : str) (err : option Z) (e : DBThrow) (failed rest : D_ A) : D_ A :=
  match err with
  | Some _ =>
      if is_fast (mode conn) then rest
      else LogError what;;; throw_if (is_safe (mode conn)) e failed
  | None => rest
  end.

(** [catch (const mongo::DBException&)] *)
Definition exception {A} (conn : Connection) (what : str) (e : DBThrow) (rest : D_ A) : D_ A :=
  LogError what;;; throw_if (is_safe (mode conn)) e rest.

Section collection.
Context {D : Type} `{Document D, !Collection W D}.

(** [Connection::Update] and [Connection::Remove] *)
Definition write (what : str) (conn : Connection) (r : request D Z) : D_ Z :=
  if scopedConn conn then
    a <- to_server (perform r);;
    match a with
    | Answered n err =>
        last_error conn what err DBWriteError (st_ret n) (st_ret (if is_fast (mode conn) then 0 else n))
    | Raised => exception conn what DBWriteError (st_ret 0)
    end
  else st_ret 0.

Definition Update (conn : Connection) (q : D → bool) (f : D → D) : D_ Z := write (lit "Update") conn (Update_ q f).
Definition Remove (conn : Connection) (q : D → bool) : D_ Z := write (lit "Remove") conn (Remove_ q).

(** The exception for a cursor that was not given is thrown in every mode. *)
Definition Query (conn : Connection) (q : D → bool) (nToReturn : nat) (nToSkip : Z) : D_ (list D) :=
  if scopedConn conn then
    a <- to_server (perform (Find q nToReturn nToSkip));;
    match a with
    | Answered None _ => st_throw DBReadError
    | Answered (Some results) err => last_error conn (lit "Query") err DBReadError (st_ret results) (st_ret results)
    | Raised => exception conn (lit "Query") DBReadError (st_ret [])
    end
  else st_ret [].

(** [QueryMulti] and [QueryOne] *)
Definition QueryMulti (conn : Connection) (q : D → bool) : D_ (list D) :=
  if scopedConn conn then Query conn q 0 0 else st_ret [].

Definition QueryOne (conn : Connection) (q : D → bool) : D_ (option D) :=
  if scopedConn conn then results <- Query conn q 1 0;; st_ret (head results) else st_ret None.

Definition Count (conn : Connection) (q : D → bool) : D_ Z :=
  if scopedConn conn then
    a <- to_server (perform (Count_ q));;
    match a with
    | Answered n err => last_error conn (lit "Count") err DBReadError (st_ret (-1)) (st_ret n)
    | Raised => exception conn (lit "Count") DBReadError (st_ret (-1))
    end
  else st_ret (-1).

(** [RunCommand]; [none] is what is in [info] when nothing was put there. *)
Definition RunCommand {A} (conn : Connection) (none : A) (r : request D (bool * A)) : D_ (bool * A) :=
  if scopedConn conn then
    a <- to_server (perform r);;
    match a with
    | Answered b err => last_error conn (lit "Run command") err (DBError_ []) (st_ret b) (st_ret b)
    | Raised => exception conn (lit "Run command") (DBError_ []) (st_ret (false, none))
    end
  else st_ret (false, none).

(** [NextAutoIncrement] by way of [Eval] *)
Definition NextAutoIncrement (conn : Connection) : D_ Z :=
  if scopedConn conn then
    a <- to_server (perform NextId);;
    match a with
    | Answered (Some id) _ => st_ret id
    | Answered None err =>
        if is_fast (mode conn) then st_ret (-1) else LogError (lit "Eval");;; throw_if (is_safe (mode conn)) (DBError_ []) (st_ret (-1))
    | Raised => exception conn (lit "Eval") (DBError_ []) (st_ret (-1))
    end
  else st_ret (-1).

(** One round of [InsertAutoIncrement]: the id, or none to go round again *)
Definition insert_round (conn : Connection) (d : D) : D_ (option Z) :=
  id <- NextAutoIncrement conn;;
  if id <? 0 then st_ret (Some (-1))
  else
    a <- to_server (perform (Insert_ (with_id id d)));;
    match a with
    | Raised => exception conn (lit "Insert auto increment") DBWriteError (st_ret None)
    | Answered _ None => st_ret (Some id)
    | Answered _ (Some code) =>
        if code =? DUPLICATE_KEY then
          b <- to_server (perform (Find (λ e, doc_id e =? id) 1 0));;
          match b with
          | Raised => exception conn (lit "Insert auto increment") DBWriteError (st_ret None)
          | Answered (Some (_ :: _)) _ => st_ret None
          | Answered _ _ => st_ret (Some (-1))
          end
        else LogError (lit "Insert");;; throw_if (is_safe (mode conn)) DBWriteError (st_ret (Some (-1)))
    end.

Fixpoint insert_loop (fuel : nat) (conn : Connection) (d : D) : D_ Z :=
  match fuel with
  | O => st_throw Looping
  | S fuel => r <- insert_round conn d;; match r with Some id => st_ret id | None => insert_loop fuel conn d end
  end.

Definition InsertAutoIncrement (fuel : nat) (conn : Connection) (d : D) : D_ Z :=
  if scopedConn conn then insert_loop fuel conn d else st_ret (-1).

(** [Insert], of a document that has its key *)
Definition Insert (conn : Connection) (d : D) : D_ unit :=
  if scopedConn conn then
    a <- to_server (perform (Insert_ d));;
    match a with
    | Answered _ err => last_error conn (lit "Insert") err DBWriteError (st_ret tt) (st_ret tt)
    | Raised => exception conn (lit "Insert") DBWriteError (st_ret tt)
    end
  else st_ret tt.

(** [SetFields]: the fields of [d] that [f] copies *)
Definition SetFields (conn : Connection) (q : D → bool) (f : D → D) : D_ unit := Update conn q f;;; st_ret tt.

End collection.

(** The entry of [UpdateLog], through a fast connection *)
Definition Insert_log (collection : str) (id : Z) : D_ unit :=
  conn <- Create Fast;;
  if scopedConn conn then
    a <- to_server (log_update collection id);;
    match a with Answered _ _ => st_ret tt | Raised => exception conn (lit "Insert") DBWriteError (st_ret tt) end
  else st_ret tt.

End connection.

(** ** What the operations do to the collections *)

Section effects.
Context {W D X : Type} (other : W → X).
Context `{Document D, Mongo W, !Collection W D, !CollectionOk W D other, !MongoOk W (λ w, (contents (D := D) w, other w))}.

Abbreviation D_ := (ST (Db W) DBThrow).
Implicit Types (s : Db W) (conn : Connection).

Definition docs s : gmap Z D := contents (server s).
Definition view s : gmap Z D * X := (docs s, other (server s)).

(** [m] leaves the collections alone. *)
Abbreviation reads := (st_keeps view).

Lemma LogError_reads what : reads (LogError what).
Proof. by intros s. Qed.

Lemma throw_if_reads {A} b e (m : D_ A) : reads m → reads (throw_if b e m).
Proof. by destruct b. Qed.

Lemma Create_reads m : reads (Create m).
Proof.
  apply st_keeps_bind.
  - intros s. unfold to_server. pose proof (connect_keeps (all := λ w, (contents (D := D) w, other w)) (server s)) as Hk.
    destruct (connect (server s)) as [l w]. exact Hk.
  - intros []; [done| |]; (apply st_keeps_bind; [apply LogError_reads|intros ?; by apply throw_if_reads]).
Qed.

Lemma last_error_reads {A} conn what err e (m k : D_ A) : reads m → reads k → reads (last_error conn what err e m k).
Proof.
  intros Hm Hk. unfold last_error. destruct err; [|done]. destruct (is_fast _); [done|].
  apply st_keeps_bind; [apply LogError_reads|]. intros ?. by apply throw_if_reads.
Qed.

Lemma exception_reads {A} conn what e (m : D_ A) : reads m → reads (exception conn what e m).
Proof. intros Hm. apply st_keeps_bind; [apply LogError_reads|]. intros ?. by apply throw_if_reads. Qed.

Lemma Insert_log_reads c i : reads (Insert_log c i).
Proof.
  apply st_keeps_bind; [apply Create_reads|]. intros conn. destruct (scopedConn conn); [|done].
  apply st_keeps_bind.
  - intros s. unfold to_server. pose proof (log_keeps (all := λ w, (contents (D := D) w, other w)) c i (server s)) as Hk.
    destruct (log_update c i (server s)) as [l w]. exact Hk.
  - intros [|[] ?]; [by apply exception_reads|done].
Qed.

(** A request, then work that leaves the collections alone *)
Lemma request_holds {A B} (r : request D A) (k : answer A → D_ B) s (Q : result DBThrow B → (gmap Z D * X) → Prop) :
  (∀ a s1, effect r a (docs s) (docs s1) → other (server s1) = other (server s) →
           reads (k a) ∧ Q (fst (k a s1)) (view s1)) → keeps_id r →
  st_holds (st_bind (to_server (perform r)) k) s (λ b s', Q b (view s')).
Proof.
  intros Hk Hr. apply st_holds_bind. unfold st_holds at 1, to_server.
  pose proof (perform_effect (other := other) r (server s) Hr) as He.
  pose proof (perform_other (D := D) (other := other) r (server s)) as Ho.
  destruct (perform r (server s)) as [a w]. cbn [fst snd].
  destruct (Hk a (MkDb w (dblog s)) He Ho) as [Hread HQ]. unfold st_holds. by rewrite Hread.
Qed.

Definition found (q : D → bool) s (r : result DBThrow (list D)) : Prop := ∀ l, r = Ok l → ∀ d, d ∈ l → matches q (docs s) d.

Lemma Query_holds conn q n k s :
  st_holds (Query conn q n k) s (λ r s', view s' = view s ∧ found q s r).
Proof.
  unfold Query. destruct (scopedConn conn); [|by split; [|intros ? [= <-] ? ?%elem_of_nil]].
  apply (request_holds _ _ s (λ b v, v = view s ∧ found q s b)); [|done].
  intros a s1 [Hm Hl] Ho. destruct a as [|[l|] err].
  - split; [by apply exception_reads|]. unfold view. split; [by rewrite <-Ho, Hm|].
    unfold exception, LogError, st_bind, st_modify, throw_if. destruct (is_safe _); [done|].
    by intros ? [= <-] ? ?%elem_of_nil.
  - split; [by apply last_error_reads|]. split; [unfold view; by rewrite <-Ho, Hm|].
    intros l' E d Hd. refine (proj1 (Hl l err eq_refl) d _).
    revert E. unfold last_error, LogError, st_bind, st_modify, throw_if. repeat case_match; try done; by intros [= <-].
  - split; [done|]. split; [unfold view; by rewrite <-Ho, Hm|done].
Qed.

Lemma QueryMulti_holds conn q s :
  st_holds (QueryMulti conn q) s (λ r s', view s' = view s ∧ found q s r).
Proof.
  unfold QueryMulti. destruct (scopedConn conn); [apply Query_holds|].
  by split; [|intros ? [= <-] ? ?%elem_of_nil].
Qed.

Lemma QueryOne_holds conn q s :
  st_holds (QueryOne conn q) s (λ r s', view s' = view s ∧ ∀ d, r = Ok (Some d) → matches q (docs s) d).
Proof.
  unfold QueryOne. destruct (scopedConn conn); [|done]. apply st_holds_bind.
  eapply st_holds_conseq; [apply Query_holds|]. intros [l|e] s' [Hv Hl]; [|done]. split; [done|].
  cbn. intros d [= Hd]. apply (Hl l eq_refl). destruct l; [done|]. injection Hd as ->. by left.
Qed.

Lemma Count_reads conn q : reads (Count conn q).
Proof.
  unfold Count. destruct (scopedConn conn); [|done]. intros s.
  enough (st_holds (st_bind (to_server (perform (Count_ q))) (λ a, match a with
    | Answered n err => last_error conn (lit "Count") err DBReadError (st_ret (-1)) (st_ret n)
    | Raised => exception conn (lit "Count") DBReadError (st_ret (-1)) end)) s (λ _ s', view s' = view s)) by done.
  apply (request_holds _ _ s (λ _ v, v = view s)); [|done]. intros a s1 [Hm _] Ho. split.
  - destruct a; [by apply exception_reads|by apply last_error_reads].
  - unfold view. by rewrite <-Ho, Hm.
Qed.

(** An update, whatever the connection: one document is replaced, or nothing. *)
Definition updated (q : D → bool) (f : D → D) s s' : Prop :=
  other (server s') = other (server s) ∧ (docs s' = docs s ∨ replaced q f (docs s) (docs s')).

Lemma Update_holds conn q f s : (∀ d, doc_id (f d) = doc_id d) →
  st_holds (Update conn q f) s (λ _ s', updated q f s s').
Proof.
  intros Hf. unfold Update, write. destruct (scopedConn conn); [|by split; [|left]].
  apply (request_holds _ _ s (λ _ v, v.2 = other (server s) ∧ (v.1 = docs s ∨ replaced q f (docs s) v.1))); [|done].
  intros a s1 [Hm _] Ho. split; [|done]. destruct a; [by apply exception_reads|by apply last_error_reads].
Qed.

Lemma RunCommand_holds conn q f s : (∀ d, doc_id (f d) = doc_id d) →
  st_holds (RunCommand conn false (FindAndModify q f)) s (λ _ s', updated q f s s').
Proof.
  intros Hf. unfold RunCommand. destruct (scopedConn conn); [|by split; [|left]].
  apply (request_holds _ _ s (λ _ v, v.2 = other (server s) ∧ (v.1 = docs s ∨ replaced q f (docs s) v.1))); [|done].
  intros a s1 [Hm _] Ho. split; [|done]. destruct a; [by apply exception_reads|by apply last_error_reads].
Qed.

Lemma Sum_reads conn value : reads (RunCommand conn None (Sum value)).
Proof.
  intros s. unfold RunCommand. destruct (scopedConn conn); [|done].
  enough (st_holds (st_bind (to_server (perform (Sum value))) (λ a, match a with
    | Answered b err => last_error conn (lit "Run command") err (DBError_ []) (st_ret b) (st_ret b)
    | Raised => exception conn (lit "Run command") (DBError_ []) (st_ret (false, None)) end)) s (λ _ s', view s' = view s)) by done.
  apply (request_holds _ _ s (λ _ v, v = view s)); [|done]. intros a s1 Hm Ho. split.
  - destruct a; [by apply exception_reads|by apply last_error_reads].
  - unfold view. cbn in Hm. by rewrite <-Ho, Hm.
Qed.

(** A removal takes documents that match. *)
Definition removed (q : D → bool) s s' : Prop :=
  other (server s') = other (server s) ∧
  ∀ i, docs s' !! i = docs s !! i ∨ docs s' !! i = None ∧ ∃ d, docs s !! i = Some d ∧ q d = true.

Lemma Remove_holds conn q s : st_holds (Remove conn q) s (λ _ s', removed q s s').
Proof.
  unfold Remove, write. destruct (scopedConn conn); [|by split; [|left]].
  apply (request_holds _ _ s (λ _ v, v.2 = other (server s) ∧
    ∀ i, v.1 !! i = docs s !! i ∨ v.1 !! i = None ∧ ∃ d, docs s !! i = Some d ∧ q d = true)); [|done].
  intros a s1 [Hm _] Ho. split; [|done]. destruct a; [by apply exception_reads|by apply last_error_reads].
Qed.

(** Insertion.  However often the code goes round, at most one document is
    inserted, because its name is unique; and an id is returned for one that was. *)
Definition new_document (d : D) i (m m' : gmap Z D) : Prop := m !! i = None ∧ m' = <[i := with_id i d]> m.

Definition inserted (d : D) (v v' : gmap Z D * X) : Prop := v'.2 = v.2 ∧ (v'.1 = v.1 ∨ ∃ i, new_document d i v.1 v'.1).

Lemma NextAutoIncrement_reads conn : reads (NextAutoIncrement conn).
Proof.
  intros s. unfold NextAutoIncrement. destruct (scopedConn conn); [|done].
  match goal with |- view (snd (?m s)) = _ => enough (st_holds m s (λ _ s', view s' = view s)) by done end.
  apply (request_holds _ _ s (λ _ v, v = view s)); [|done]. intros a s1 Hm Ho. split.
  - destruct a as [|[]]; [by apply exception_reads|done|]. destruct (is_fast _); [done|].
    apply st_keeps_bind; [apply LogError_reads|intros ?; by apply throw_if_reads].
  - unfold view. cbn in Hm. by rewrite <-Ho, Hm.
Qed.

Lemma find_reads {B} q n i (k : answer (option (list D)) → D_ B) :
  (∀ a, reads (k a)) → reads (st_bind (to_server (perform (Find q n i))) k).
Proof.
  intros Hk s. match goal with |- view (snd (?m s)) = _ => enough (st_holds m s (λ _ s', view s' = view s)) by done end.
  apply (request_holds _ _ s (λ _ v, v = view s)); [|done]. intros a s1 [Hm _] Ho. split; [done|].
  unfold view. by rewrite <-Ho, Hm.
Qed.

Lemma inserted_once `{!DocumentOk D} d v s1 s2 i :
  inserted d v (view s1) → new_document d i (docs s1) (docs s2) → docs s1 = v.1.
Proof.
  intros [_ [?|(j & Hj & E1)]] [Hi E2]; [done|]. exfalso. cbn in E1. rewrite E1 in Hi, E2.
  assert (i ≠ j) by (intros ->; by rewrite lookup_insert_eq in Hi).
  assert (i = j); [|done]. refine (contents_unique (other := other) (server s2) i j (with_id i d) (with_id j d) _ _ _).
  - fold (docs s2). by rewrite E2, lookup_insert_eq.
  - fold (docs s2). by rewrite E2, lookup_insert_ne, lookup_insert_eq.
  - by rewrite !doc_name_with_id.
Qed.

(** What a round has done when it is given a document whose id is [i] *)
Definition round_post (d : D) (v : gmap Z D * X) (r : result DBThrow (option Z)) (v' : gmap Z D * X) : Prop :=
  inserted d v v' ∧ ∀ i, r = Ok (Some i) → i ≠ -1 → 0 ≤ i ∧ new_document d i v.1 v'.1.

Lemma insert_round_holds `{!DocumentOk D} conn d v s : inserted d v (view s) →
  st_holds (insert_round conn d) s (λ r s', round_post d v r (view s')).
Proof.
  intros Hi. apply st_holds_bind. unfold st_holds at 1. pose proof (NextAutoIncrement_reads conn s) as Hs1.
  destruct (NextAutoIncrement conn s) as [[id|e] s1]; cbn [fst snd] in *; rewrite <-Hs1 in Hi; [|by split].
  destruct (Z.ltb_spec id 0); [split; [done|]; cbn; by intros ? [= <-] ?|].
  apply (request_holds _ _ s1 (round_post d v)); [|done]. intros a s2 [Hm Hok] Ho. cbn in Hm.
  rewrite doc_id_with_id in *. split.
  { destruct a as [|? [code|]]; [by apply exception_reads| |done]. destruct (code =? DUPLICATE_KEY).
    - apply find_reads. intros [|[[]|]]; [by apply exception_reads|done..].
    - apply st_keeps_bind; [apply LogError_reads|intros ?; by apply throw_if_reads]. }
  split.
  - destruct Hi as [Hx Hd]. split; [cbn in *; by rewrite Ho, Hx|]. destruct Hm as [Hm|Hm].
    + cbn. rewrite Hm. exact Hd.
    + right. exists id. cbn. rewrite <-(inserted_once d v s1 s2 id (conj Hx Hd) Hm). exact Hm.
  - intros i E Hi0. assert (a = Answered () None ∧ i = id) as [-> ->].
    { revert E. unfold exception, throw_if, LogError, st_bind, st_modify, to_server.
      destruct a as [|[] [code|]]; repeat case_match; cbn; intros [= Ei]; try lia; try (by rewrite Ei). }
    split; [lia|]. specialize (Hok eq_refl). rewrite <-(inserted_once d v s1 s2 id Hi Hok). exact Hok.
Qed.

Lemma InsertAutoIncrement_holds `{!DocumentOk D} fuel conn d s :
  st_holds (InsertAutoIncrement fuel conn d) s (λ r s', inserted d (view s) (view s') ∧
    ∀ i, r = Ok i → i ≠ -1 → 0 ≤ i ∧ new_document d i (docs s) (docs s')).
Proof.
  unfold InsertAutoIncrement. destruct (scopedConn conn).
  2: { split; [by split; [|left]|]. cbn. by intros ? [= <-] ?. }
  enough (∀ s1, inserted d (view s) (view s1) → st_holds (insert_loop fuel conn d) s1 (λ r s',
    inserted d (view s) (view s') ∧ ∀ i, r = Ok i → i ≠ -1 → 0 ≤ i ∧ new_document d i (docs s) (docs s'))) as He
    by (apply He; by split; [|left]).
  induction fuel as [|fuel IH]; intros s1 Hi; [by split|]. apply st_holds_bind.
  eapply st_holds_conseq; [by apply (insert_round_holds conn d (view s))|]. intros [[i|]|e] s2 [H2 Hr].
  - split; [done|]. cbn. intros ? [= <-]. by apply Hr.
  - by apply IH.
  - by split.
Qed.

End effects.

(** ** A server that does not fail *)

Section reliable.
Context {W D X : Type} (other : W → X).
Context `{Document D, Mongo W, !Collection W D, !CollectionOk W D other, !MongoOk W (λ w, (contents (D := D) w, other w))}.
Context `{!Reliable W D, !DocumentOk D}.
Implicit Types (s : Db W) (conn : Connection).

Abbreviation view := (view other).

Lemma Create_reliable m s : ∃ s', Create m s = (Ok (MkConnection m true), s') ∧ view s' = view s.
Proof.
  eexists. split; [|by apply (Create_reads other m s)]. apply injective_projections; [|done]. cbn [fst].
  unfold Create, st_bind, to_server. pose proof (connect_reliable (D := D) (server s)) as Hl.
  destruct (connect (server s)) as [l w]. cbn in Hl. by rewrite Hl.
Qed.

Lemma Insert_log_reliable c i s : ∃ s', Insert_log c i s = (Ok (), s') ∧ view s' = view s.
Proof.
  destruct (Create_reliable Fast s) as (s1 & E1 & _). eexists. split; [|by apply (Insert_log_reads other c i s)].
  apply injective_projections; [|done]. cbn [fst].
  unfold Insert_log. rewrite (st_bind_run _ _ _ _ _ E1). cbn. unfold st_bind, to_server.
  pose proof (log_reliable (D := D) c i (server s1)) as Hl.
  destruct (log_update c i (server s1)) as [a w]. cbn in Hl. by rewrite Hl.
Qed.

Lemma QueryOne_reliable conn q s : scopedConn conn = true →
  ∃ o s', QueryOne conn q s = (Ok o, s') ∧ view s' = view s ∧
    match o with Some d => matches q (docs s) d | None => nothing_matches q (docs s) end.
Proof.
  intros Hc. unfold QueryOne, Query. rewrite Hc.
  pose proof (perform_effect (other := other) (Find q 1 0) (server s) I) as [Hm Hl].
  pose proof (perform_other (D := D) (other := other) (Find q 1 0) (server s)) as Ho.
  destruct (perform_reliable (Find q 1 0) (server s)) as [l Ha].
  unfold st_bind, to_server. destruct (perform (Find q 1 0) (server s)) as [a w]. cbn in *. subst a.
  exists (head l), (MkDb w (dblog s)). cbn. split_and!; [done|unfold Connection.view, docs; cbn; by rewrite Hm, Ho|].
  destruct (Hl l None eq_refl) as [Hs Hcpl]. destruct l as [|d l]; [|apply Hs; left].
  intros d Hd. pose proof (Hcpl eq_refl eq_refl (or_intror Nat.lt_0_1) d Hd) as He. by apply elem_of_nil in He.
Qed.

Lemma Update_reliable conn q f s : scopedConn conn = true → is_fast (mode conn) = false →
  (∀ d, doc_id (f d) = doc_id d ∧ doc_name (f d) = doc_name d) →
  ∃ n s', Update conn q f s = (Ok n, s') ∧ other (server s') = other (server s) ∧
    (n = 0 ∧ docs s' = docs s ∧ nothing_matches q (docs s) ∨ n = 1 ∧ replaced q f (docs s) (docs s')).
Proof.
  intros Hc Hf Hid. unfold Update, write. rewrite Hc.
  pose proof (perform_effect (other := other) (Update_ q f) (server s) (λ d, proj1 (Hid d))) as [_ Hl].
  pose proof (perform_other (D := D) (other := other) (Update_ q f) (server s)) as Ho.
  destruct (perform_reliable (Update_ q f) (server s) Hid) as [n Ha].
  unfold st_bind, to_server. destruct (perform (Update_ q f) (server s)) as [a w]. cbn in *. subst a.
  exists n, (MkDb w (dblog s)). cbn. rewrite Hf. split_and!; [done..|]. by apply Hl.
Qed.

Lemma FindAndModify_reliable conn q f s : scopedConn conn = true → (∀ d, doc_id (f d) = doc_id d ∧ doc_name (f d) = doc_name d) →
  ∃ b s', RunCommand conn false (FindAndModify q f) s = (Ok (true, b), s') ∧ other (server s') = other (server s) ∧
    if b : bool then replaced q f (docs s) (docs s') else docs s' = docs s ∧ nothing_matches q (docs s).
Proof.
  intros Hc Hid. unfold RunCommand. rewrite Hc.
  pose proof (perform_effect (other := other) (FindAndModify q f) (server s) (λ d, proj1 (Hid d))) as [_ Hl].
  pose proof (perform_other (D := D) (other := other) (FindAndModify q f) (server s)) as Ho.
  destruct (perform_reliable (FindAndModify q f) (server s) Hid) as [b Ha].
  unfold st_bind, to_server. destruct (perform (FindAndModify q f) (server s)) as [a w]. cbn in *. subst a.
  exists b, (MkDb w (dblog s)). cbn. split_and!; [done..|]. by apply Hl.
Qed.

Lemma request_run {A B} (r : request D A) (k : answer A → ST (Db W) DBThrow B) s : keeps_id r →
  ∃ a s1, st_bind (to_server (perform r)) k s = k a s1 ∧
    effect r a (docs s) (docs s1) ∧ other (server s1) = other (server s) ∧ answered_well r a (docs s).
Proof.
  intros Hr. unfold st_bind, to_server. pose proof (perform_effect (other := other) r (server s) Hr) as He.
  pose proof (perform_other (D := D) (other := other) r (server s)) as Ho. pose proof (perform_reliable r (server s)) as Ha.
  destruct (perform r (server s)) as [a w]. by exists a, (MkDb w (dblog s)).
Qed.

Lemma NextAutoIncrement_reliable conn s : scopedConn conn = true →
  ∃ id s', NextAutoIncrement conn s = (Ok id, s') ∧ view s' = view s ∧ 0 ≤ id ∧ docs s !! id = None.
Proof.
  intros Hc. unfold NextAutoIncrement. rewrite Hc.
  match goal with |- context [st_bind (to_server (perform NextId)) ?k ?s0] =>
    destruct (request_run NextId k s0 I) as (a & s1 & E & He & Ho & (id & Ha & Hid & Hfree)) end.
  rewrite E, Ha. exists id, s1. split_and!; [done| |done|done]. unfold Connection.view. cbn in He. by rewrite Ho, He.
Qed.

Lemma insert_round_reliable conn d s : scopedConn conn = true →
  ∃ i s', insert_round conn d s = (Ok (Some i), s') ∧ other (server s') = other (server s) ∧
    ((∃ j e, docs s !! j = Some e ∧ doc_name e = doc_name d) ∧ i = -1 ∧ docs s' = docs s ∨
     (∀ j e, docs s !! j = Some e → doc_name e ≠ doc_name d) ∧ 0 ≤ i ∧ new_document d i (docs s) (docs s')).
Proof.
  intros Hc. unfold insert_round. destruct (NextAutoIncrement_reliable conn s Hc) as (id & s0 & E & Hv & Hid & Hfree).
  rewrite (st_bind_run _ _ _ _ _ E). clear E. injection Hv as Hd Ho. rewrite <-Hd in Hfree |- *. rewrite <-Ho.
  destruct (Z.ltb_spec id 0); [lia|].
  match goal with |- context [st_bind (to_server (perform (Insert_ _))) ?k ?s0] =>
    destruct (request_run (Insert_ (with_id id d)) k s0 I) as (a & s1 & E & He & Ho1 & Hw) end.
  rewrite E. clear E. cbn in He. rewrite doc_id_with_id in He. destruct He as [He Hok].
  cbn [answered_well] in Hw. rewrite doc_id_with_id in Hw. setoid_rewrite doc_name_with_id in Hw.
  destruct Hw as [(_ & Hn & ->)|[[Hbad|Hn] ->]]; [|done|].
  - exists id, s1. split_and!; [done|done|right]. split_and!; [done|done|]. by apply Hok.
  - rewrite Z.eqb_refl. match goal with |- context [st_bind (to_server (perform (Find ?q _ _))) ?k ?s0] =>
      destruct (request_run (Find q 1 0) k s0 I) as (b & s2 & E & [Hm2 Hl] & Ho2 & [l Hb]) end. subst b.
    assert (docs s1 = docs s0) as Hs1.
    { destruct He as [He|[_ He]]; [done|]. exfalso. destruct Hn as (i & e & Hi & Hne).
      assert (i = id) as ->; [|by rewrite Hfree in Hi].
      refine (contents_unique (other := other) (server s1) i id e (with_id id d) _ _ _).
      - fold (docs s1). rewrite He, lookup_insert_ne; [done|]. intros ->. by rewrite Hfree in Hi.
      - fold (docs s1). by rewrite He, lookup_insert_eq.
      - by rewrite doc_name_with_id. }
    rewrite E. destruct l as [|e l].
    + exists (-1), s2. split_and!; [done|by rewrite Ho2|]. left. by rewrite Hm2, Hs1.
    + exfalso. destruct (Hl (e :: l) None eq_refl) as [Hl1 _]. destruct (Hl1 e) as [He1 He2]; [left|].
      apply Z.eqb_eq in He2. by rewrite Hs1, He2, Hfree in He1.
Qed.

(** A document whose name is free is inserted in the first round; one whose name
    is taken is not, and the answer is -1. *)
Lemma InsertAutoIncrement_reliable fuel conn d s : scopedConn conn = true →
  ∃ i s', InsertAutoIncrement (S fuel) conn d s = (Ok i, s') ∧ other (server s') = other (server s) ∧
    ((∃ j e, docs s !! j = Some e ∧ doc_name e = doc_name d) ∧ i = -1 ∧ docs s' = docs s ∨
     (∀ j e, docs s !! j = Some e → doc_name e ≠ doc_name d) ∧ 0 ≤ i ∧ new_document d i (docs s) (docs s')).
Proof.
  intros Hc. destruct (insert_round_reliable conn d s Hc) as (i & s' & E & H').
  exists i, s'. split; [|done]. unfold InsertAutoIncrement. rewrite Hc. cbn [insert_loop].
  by rewrite (st_bind_run _ _ _ _ _ E).
Qed.

End reliable.

(** ** A loop that does not end

    A server that gives ids but throws at every insertion keeps a connection that
    does not throw going round for ever. *)
Lemma InsertAutoIncrement_loops {W D} `{Document D, Mongo W, !Collection W D} conn (d : D) s fuel :
  scopedConn conn = true → mode conn = NoError →
  (∀ w, ∃ id err, (perform (D := D) NextId w).1 = Answered (Some id) err ∧ 0 ≤ id) →
  (∀ e w, (perform (D := D) (Insert_ e) w).1 = Raised) →
  (InsertAutoIncrement fuel conn d s).1 = Throw Looping.
Proof.
  intros Hc Hm Hid Hins. unfold InsertAutoIncrement. rewrite Hc. revert s.
  induction fuel as [|fuel IH]; intros s; [done|]. cbn [insert_loop].
  assert (∃ s', insert_round conn d s = (Ok None, s')) as [s' E].
  { destruct (Hid (server s)) as (id & err & E1 & Hp).
    assert (NextAutoIncrement conn s = (Ok id, MkDb (perform (D := D) NextId (server s)).2 (dblog s))) as E2.
    { unfold NextAutoIncrement, st_bind, to_server. rewrite Hc. destruct (perform NextId (server s)) as [a w]. cbn in E1. by subst a. }
    unfold insert_round. rewrite (st_bind_run _ _ _ _ _ E2). destruct (Z.ltb_spec id 0); [lia|].
    unfold st_bind, to_server. cbn [server dblog]. set (w := (perform NextId (server s)).2).
    specialize (Hins (with_id id d) w). destruct (perform (Insert_ (with_id id d)) w) as [a w']. cbn in Hins. subst a.
    unfold exception, st_bind, throw_if. rewrite Hm. eexists. reflexivity. }
  rewrite (st_bind_run _ _ _ _ _ E). apply IH.
Qed.
