(* ===== verification/Accounts.v ===== *)
(** * Accounts in the database: db/user/user.cpp, db/group/group.cpp, acl/user.cpp, acl/group.cpp

    What [acl::User] and [acl::Group] forward to the database: loading, creating
    and removing users and groups, the saves of the setters of User.v and Group.v
    as updates of the collections, the credits and the counts.  A setter runs on
    the copy in memory and then saves; [in_user] and [in_group] run it so.  The
    theorems say what a sequence of saves can do to the document it is for. *)

From stdpp Require Import prelude gmap strings.
From S2P Require Import Prelude CxxString State Transaction Passwd Acl Group UserData User Credits Connection.
Local Open Scope Z_scope.
Local Open Scope list_scope.
Local Open Scope st_scope.

#[export] Instance UserData_document : Document UserData := {| doc_id := id; doc_name := name; with_id := set f_id |}.
#[export] Instance GroupData_document : Document GroupData :=
  {| doc_id := Group.id; doc_name := Group.name; with_id := set g_id |}.

#[export] Instance UserData_documentOk : DocumentOk UserData.
Proof. split; by intros ? []. Qed.
#[export] Instance GroupData_documentOk : DocumentOk GroupData.
Proof. split; by intros ? []. Qed.

(** The fields that a save of [src] writes into the document [dst] *)
Definition copy_save (s : Save) (src dst : UserData) : UserData :=
  match s with
  | SaveName => set f_name (name src) dst
  | SaveIPMasks => set f_ipMasks (ipMasks src) dst
  | SavePassword => set f_salt (salt src) (set f_password (password src) dst)
  | SaveFlags => set f_flags (flags src) dst
  | SaveGIDs => set f_gadminGids (gadminGids src) (set f_secondaryGids (secondaryGids src) (set f_primaryGid (primaryGid src) dst))
  | SaveGadminGIDs => set f_gadminGids (gadminGids src) dst
  | SaveWeeklyAllotment => set f_weeklyAllotment (weeklyAllotment src) dst
  | SaveHomeDir => set f_homeDir (homeDir src) dst
  | SaveStartUpDir => set f_startUpDir (startUpDir src) dst
  | SaveIdleTime => set f_idleTime (idleTime src) dst
  | SaveExpires => set f_expires (expires src) dst
  | SaveNumLogins => set f_numLogins (numLogins src) dst
  | SaveComment => set f_comment (comment src) dst
  | SaveTagline => set f_tagline (tagline src) dst
  | SaveMaxDownSpeed => set f_maxDownSpeed (maxDownSpeed src) dst
  | SaveMaxUpSpeed => set f_maxUpSpeed (maxUpSpeed src) dst
  | SaveMaxSimDown => set f_maxSimDown (maxSimDown src) dst
  | SaveMaxSimUp => set f_maxSimUp (maxSimUp src) dst
  | SaveLoggedIn => set f_lastLogin (lastLogin src) (set f_loggedIn (loggedIn src) dst)
  | SaveRatio => set f_ratio (ratio src) dst
  end.

Definition copy_group_save (s : GroupSave) (src dst : GroupData) : GroupData :=
  match s with
  | Group.SaveName => set g_name (Group.name src) dst
  | SaveDescription => set g_description (description src) dst
  | Group.SaveComment => set g_comment (Group.comment src) dst
  | SaveSlots => set g_slots (slots src) dst
  | SaveLeechSlots => set g_leechSlots (leechSlots src) dst
  | SaveAllotmentSlots => set g_allotmentSlots (allotmentSlots src) dst
  | SaveMaxAllotmentSize => set g_maxAllotmentSize (maxAllotmentSize src) dst
  | SaveMaxLogins => set g_maxLogins (maxLogins src) dst
  end.

Lemma copy_save_id s src dst : id (copy_save s src dst) = id dst.
Proof. by destruct s, dst. Qed.
Lemma copy_group_save_id s src dst : Group.id (copy_group_save s src dst) = Group.id dst.
Proof. by destruct s, dst. Qed.

(** The names and ids that the caches of db/user/util.cpp and db/group/util.cpp
    answer with *)
Record Caches := {
  UIDToName : Z → str; NameToUID : str → Z; UIDToPrimaryGID : Z → Z; GIDToName : Z → str; NameToGID : str → Z
}.
Definition NameToPrimaryGID (ca : Caches) (n : str) : Z := UIDToPrimaryGID ca (NameToUID ca n).

(** No save of a setter throws: the connections it opens do not. *)
Definition never {S D : Type} (_ : S) (_ : D) : bool := false.

Section accounts.
Context {W : Type} `{Mongo W, !Collection W UserData, !Collection W GroupData, Split}.
Context (ca : Caches).
(** How often an insertion goes round *)
Context (rounds : nat).

Abbreviation D_ := (ST (Db W) DBThrow).

(** ** db/user/user.cpp *)

Definition with_uid (uid : Z) (u : UserData) : bool := id u =? uid.
Definition named (n : str) (u : UserData) : bool := bool_decide (name u = n).

Definition UpdateLog (uid : Z) : D_ unit := Insert_log (lit "users") uid.

(** [SaveField] and the saves of several fields; that of a login is not logged. *)
Definition db_Save (s : Save) (u : UserData) : D_ unit :=
  conn <- Create NoError;;
  SetFields conn (with_uid (id u)) (copy_save s u);;;
  match s with SaveLoggedIn => st_ret tt | _ => UpdateLog (id u) end.

(** [SaveName] *)
Definition db_SaveName (u : UserData) : D_ bool :=
  st_catch
    (conn <- Create Safe;;
     SetFields conn (with_uid (id u)) (copy_save SaveName u);;;
     UpdateLog (id u);;; st_ret true)
    (λ e, match e with DBError_ _ | DBWriteError | DBReadError => Some (st_ret false) | _ => None end).

(** [db::User::Create]: the user with its id, if it was created *)
Definition db_Create (u : UserData) : D_ (option UserData) :=
  conn <- Create NoError;;
  uid <- InsertAutoIncrement rounds conn u;;
  if uid =? -1 then st_ret None
  else UpdateLog uid;;; st_ret (Some (set f_id uid u)).

Definition db_Purge (u : UserData) : D_ unit :=
  conn <- Create NoError;; Remove conn (with_uid (id u));;; UpdateLog (id u).

(** The updates of [IncrCredits], which run in a task of their own *)
Definition has_credits (section : str) (u : UserData) : bool := bool_decide (is_Some (credits u !! section)).
Definition add_credits (section : str) (kBytes : Z) (u : UserData) : UserData :=
  set f_credits (<[section := SectionCredits u section + kBytes]> (credits u)) u.
Definition push_credits (section : str) (kBytes : Z) (u : UserData) : UserData :=
  set f_credits (<[section := kBytes]> (credits u)) u.

Definition updateExisting (conn : Connection) (uid : Z) (section : str) (kBytes : Z) : D_ bool :=
  r <- RunCommand conn false (FindAndModify (λ u, with_uid uid u && has_credits section u) (add_credits section kBytes));;
  st_ret (r.1 && r.2).

Definition doInsert (conn : Connection) (uid : Z) (section : str) (kBytes : Z) : D_ bool :=
  n <- Update conn (λ u, with_uid uid u && negb (has_credits section u)) (push_credits section kBytes);;
  st_ret (0 <? n).

Definition db_IncrCredits (uid : Z) (section : str) (kBytes : Z) : D_ unit :=
  conn <- Create NoError;;
  b <- updateExisting conn uid section kBytes;;
  if b : bool then st_ret tt
  else
    b <- doInsert conn uid section kBytes;;
    if b : bool then st_ret tt
    else
      b <- updateExisting conn uid section kBytes;;
      if b : bool then st_ret tt else LogError (lit "Unable to increment credits").

(** [force] drops the condition that there are as many. *)
Definition can_take (section : str) (kBytes : Z) (force : bool) (u : UserData) : bool :=
  has_credits section u && (force || (kBytes <=? SectionCredits u section)).

Definition db_DecrCredits (uid : Z) (section : str) (kBytes : Z) (force : bool) : D_ bool :=
  if kBytes =? 0 then st_ret true
  else
    conn <- Create NoError;;
    r <- RunCommand conn false (FindAndModify (λ u, with_uid uid u && can_take section kBytes force u) (add_credits section (- kBytes)));;
    st_ret (force || r.1 && r.2).

(** [GetUsersGeneric]: names, or groups with an equals sign *)
Definition starts_with (c : ascii) (tok : str) : bool := match tok with d :: _ => bool_decide (d = c) | [] => false end.

Definition criteria (toks : list str) (u : UserData) : bool :=
  let names := map (λ tok, if starts_with "-" tok then drop 1 tok else tok) (filter (λ tok, starts_with "=" tok = false) toks) in
  let gids := filter (λ gid, gid ≠ -1) (map (λ tok, NameToGID ca (drop 1 tok)) (filter (λ tok, starts_with "=" tok = true) toks)) in
  contains (name u) names || contains (primaryGid u) gids || existsb (λ gid, contains gid gids) (secondaryGids u).

Definition multi_query (multiStr : str) (u : UserData) : bool :=
  let toks := Split_ multiStr (lit " ") true in
  if contains (lit "*") toks then true else criteria toks u.

Definition GetUsers (multiStr : str) : D_ (list UserData) :=
  conn <- Create NoError;; QueryMulti conn (multi_query multiStr).
Definition GetUIDs (multiStr : str) : D_ (list Z) := users <- GetUsers multiStr;; st_ret (map id users).

(** ** acl/user.cpp *)

Definition Load_id (uid : Z) : D_ (option UserData) := conn <- Create NoError;; QueryOne conn (with_uid uid).
Definition Load (n : str) : D_ (option UserData) := conn <- Create NoError;; QueryOne conn (named n).

(** The setter [m] on the copy [u] *)
Definition in_user {A} (u : UserData) (m : Transaction.M Save UserData A) : D_ (A * UserData) :=
  match m (Store u []) with
  | (Ok a, st) => st_iter (λ sd, db_Save sd.1 sd.2) (saved st);;; st_ret (a, data st)
  | (Throw _, _) => st_throw (DBError_ [])
  end.

(** The name is changed in memory before it is saved. *)
Definition User_Rename (u : UserData) (newName : str) : D_ (bool * UserData) :=
  ok <- db_SaveName (set f_name newName u);;
  match Rename (λ _, ok) newName (Store u []) with
  | (Ok b, st) => st_ret (b, data st)
  | (Throw _, _) => st_throw (DBError_ [])
  end.

Definition FromTemplate (HashPassword : str → str → str) (rawSalt n pw : str) (creator : Z) (templateUser : UserData)
    : D_ (option UserData) :=
  let user := set f_creator creator (set f_name n (set f_id (-1) templateUser)) in
  r <- in_user user (SetPasswordNoSave HashPassword rawSalt pw);;
  r <- in_user r.2 (DelFlag never Template);;
  db_Create r.2.

Definition TotalUsers : D_ Z := l <- GetUIDs (lit "*");; st_ret (Z.of_nat (length l)).

(** ** db/group/group.cpp *)

Definition with_gid (gid : Z) (g : GroupData) : bool := Group.id g =? gid.
Definition group_named (n : str) (g : GroupData) : bool := bool_decide (Group.name g = n).

Definition UpdateLog_group (gid : Z) : D_ unit := Insert_log (lit "groups") gid.

Definition group_Save (s : GroupSave) (g : GroupData) : D_ unit :=
  conn <- Create NoError;; SetFields conn (with_gid (Group.id g)) (copy_group_save s g);;; UpdateLog_group (Group.id g).

Definition group_SaveName (g : GroupData) : D_ bool :=
  st_catch
    (conn <- Create Safe;;
     SetFields conn (with_gid (Group.id g)) (copy_group_save Group.SaveName g);;;
     UpdateLog_group (Group.id g);;; st_ret true)
    (λ e, match e with DBError_ _ | DBWriteError | DBReadError => Some (st_ret false) | _ => None end).

Definition group_Create (g : GroupData) : D_ (option GroupData) :=
  conn <- Create NoError;;
  gid <- InsertAutoIncrement rounds conn g;;
  if gid =? -1 then st_ret None
  else UpdateLog_group gid;;; st_ret (Some (set g_id gid g)).

Definition group_Purge (g : GroupData) : D_ unit :=
  conn <- Create NoError;; Remove conn (with_gid (Group.id g));;; UpdateLog_group (Group.id g).

(** The counts are over the users. *)
Definition count_users (q : UserData → bool) : D_ Z := conn <- Create NoError;; Count conn q.

Definition in_primary (g : GroupData) (u : UserData) : bool := primaryGid u =? Group.id g.

Definition NumSlotsUsed (g : GroupData) : D_ Z := count_users (λ u, in_primary g u && negb (HasFlag u Deleted)).
Definition NumMembers (g : GroupData) : D_ Z :=
  count_users (λ u, in_primary g u || contains (Group.id g) (secondaryGids u)).
Definition NumLeeches (g : GroupData) : D_ Z :=
  count_users (λ u, in_primary g u && bool_decide (ratio u !! [] = Some 0)).
Definition NumAllotments (g : GroupData) : D_ Z :=
  count_users (λ u, in_primary g u && match weeklyAllotment u !! [] with Some v => 0 <? v | None => false end).

(** -1 too when no user of the group has an allotment *)
Definition TotalAllotmentSize (g : GroupData) : D_ Z :=
  conn <- Create NoError;;
  r <- RunCommand conn None (Sum (λ u, if in_primary g u then weeklyAllotment u !! [] else None));;
  st_ret (match r with (true, Some total) => total | _ => -1 end).

Definition Group_Load_id (gid : Z) : D_ (option GroupData) := conn <- Create NoError;; QueryOne conn (with_gid gid).
Definition Group_Load (n : str) : D_ (option GroupData) := conn <- Create NoError;; QueryOne conn (group_named n).

Definition GetGroups (multiStr : str) : D_ (list GroupData) :=
  let toks := Split_ multiStr (lit " ") true in
  let q g := if contains (lit "*") toks then true
             else contains (Group.name g) (map (λ tok, if starts_with "=" tok then drop 1 tok else tok) toks) in
  conn <- Create NoError;; QueryMulti conn q.
Definition GetGIDs (multiStr : str) : D_ (list Z) := groups <- GetGroups multiStr;; st_ret (map Group.id groups).

(** ** acl/group.cpp *)

Definition in_group {A} (g : GroupData) (m : Transaction.M GroupSave GroupData A) : D_ (A * GroupData) :=
  match m (Store g []) with
  | (Ok a, st) => st_iter (λ sd, group_Save sd.1 sd.2) (saved st);;; st_ret (a, data st)
  | (Throw _, _) => st_throw (DBError_ [])
  end.

Definition Group_Rename (g : GroupData) (newName : str) : D_ (bool * GroupData) :=
  ok <- group_SaveName (set g_name newName g);;
  match Group.Rename (λ _, ok) newName (Store g []) with
  | (Ok b, st) => st_ret (b, data st)
  | (Throw _, _) => st_throw (DBError_ [])
  end.

Definition Group_FromTemplate (n : str) (templateGroup : GroupData) : D_ (option GroupData) :=
  group_Create (set g_name n templateGroup).

End accounts.

(** ** What they do to the collections *)

Section facts.
Context {W : Type} `{Mongo W, !Collection W UserData, !Collection W GroupData, Split}.

Definition users_in (w : W) : gmap Z UserData := contents w.
Definition groups_in (w : W) : gmap Z GroupData := contents w.

Context `{!CollectionOk W UserData groups_in, !CollectionOk W GroupData users_in, !MongoOk W (λ w, (users_in w, groups_in w))}.
Context (ca : Caches) (rounds : nat).
Implicit Types (s : Db W) (u : UserData) (g : GroupData).

Abbreviation D_ := (ST (Db W) DBThrow).

#[local] Instance users_first : MongoOk W (λ w, (contents (D := UserData) w, groups_in w)).
Proof. assumption. Qed.
#[local] Instance groups_first : MongoOk W (λ w, (contents (D := GroupData) w, users_in w)).
Proof.
  split.
  - intros w. pose proof (connect_keeps (all := λ w, (users_in w, groups_in w)) w) as E. unfold users_in, groups_in in *. congruence.
  - intros c i w. pose proof (log_keeps (all := λ w, (users_in w, groups_in w)) c i w) as E. unfold users_in, groups_in in *. congruence.
Qed.

Definition users s : gmap Z UserData := users_in (server s).
Definition groups s : gmap Z GroupData := groups_in (server s).
Definition obs s : gmap Z UserData * gmap Z GroupData := (users s, groups s).

(** ** Reading *)

Lemma user_Create_reads m : st_keeps obs (Create m).
Proof. exact (Create_reads groups_in m). Qed.

Lemma UpdateLog_reads uid : st_keeps obs (UpdateLog uid).
Proof. exact (Insert_log_reads groups_in _ uid). Qed.

Lemma UpdateLog_group_reads gid : st_keeps obs (UpdateLog_group gid).
Proof. exact (Insert_log_reads groups_in _ gid). Qed.

Lemma count_users_reads q : st_keeps obs (count_users q).
Proof. apply st_keeps_bind; [apply user_Create_reads|]. intros conn. exact (Count_reads groups_in conn q). Qed.

Lemma TotalAllotmentSize_reads g : st_keeps obs (TotalAllotmentSize g).
Proof.
  apply st_keeps_bind; [apply user_Create_reads|]. intros conn.
  apply st_keeps_bind; [exact (Sum_reads groups_in conn _)|done].
Qed.

(** After a step that only reads *)
Lemma st_holds_reads {A B} (m : D_ A) (k : A → D_ B) s (Q : result DBThrow B → Db W → Prop) :
  st_keeps obs m → (∀ e s', obs s' = obs s → Q (Throw e) s') → (∀ a s', obs s' = obs s → st_holds (k a) s' Q) →
  st_holds (st_bind m k) s Q.
Proof.
  intros Hm Ht Hk. apply st_holds_bind. unfold st_holds at 1. specialize (Hm s).
  destruct (m s) as [[a|e] s']; [by apply Hk|by apply Ht].
Qed.

Lemma query_user_holds q s :
  st_holds (conn <- Create NoError;; QueryOne conn q) s
    (λ r s', obs s' = obs s ∧ ∀ u, r = Ok (Some u) → users s !! id u = Some u ∧ q u = true).
Proof.
  apply st_holds_reads; [apply user_Create_reads|done|]. intros conn s1 E1.
  eapply st_holds_conseq; [exact (QueryOne_holds groups_in conn q s1)|]. intros r s2 [E2 Hr].
  split; [rewrite <-E1; exact E2|]. injection E1 as Eu _. rewrite <-Eu. intros u Hu. exact (Hr u Hu).
Qed.

Lemma query_group_holds q s :
  st_holds (conn <- Create NoError;; QueryOne conn q) s
    (λ r s', obs s' = obs s ∧ ∀ g, r = Ok (Some g) → groups s !! Group.id g = Some g ∧ q g = true).
Proof.
  apply st_holds_reads; [apply user_Create_reads|done|]. intros conn s1 E1.
  eapply st_holds_conseq; [exact (QueryOne_holds users_in conn q s1)|]. intros r s2 [E2 Hr].
  injection E2 as Eg Eu. split; [rewrite <-E1; exact (f_equal2 pair Eu Eg)|]. injection E1 as _ Eg1. rewrite <-Eg1.
  intros u Hu. exact (Hr u Hu).
Qed.

Lemma GetUsers_holds multiStr s :
  st_holds (GetUsers ca multiStr) s (λ r s', obs s' = obs s ∧
    ∀ l, r = Ok l → ∀ u, u ∈ l → users s !! id u = Some u ∧ multi_query ca multiStr u = true).
Proof.
  apply st_holds_reads; [apply user_Create_reads|done|]. intros conn s1 E1.
  eapply st_holds_conseq; [exact (QueryMulti_holds groups_in conn _ s1)|]. intros r s2 [E2 Hr].
  split; [rewrite <-E1; exact E2|]. injection E1 as Eu _. rewrite <-Eu. exact Hr.
Qed.

Lemma GetUIDs_holds multiStr s :
  st_holds (GetUIDs ca multiStr) s (λ r s', obs s' = obs s ∧
    ∀ l, r = Ok l → ∀ i, i ∈ l → ∃ u, users s !! i = Some u ∧ multi_query ca multiStr u = true).
Proof.
  apply st_holds_bind. eapply st_holds_conseq; [apply GetUsers_holds|]. intros [l|e] s' [E Hl]; [|done].
  split; [done|]. cbn. intros ? [= <-] i Hi. apply list_elem_of_fmap in Hi as (u & Ei & Hu). exists u. rewrite Ei. by apply (Hl l).
Qed.

Lemma GetGroups_reads multiStr : st_keeps obs (GetGroups multiStr).
Proof.
  apply st_keeps_bind; [apply user_Create_reads|]. intros conn s.
  pose proof (QueryMulti_holds users_in conn (λ g, if contains (lit "*") (Split_ multiStr (lit " ") true) then true
     else contains (Group.name g) (map (λ tok, if starts_with "=" tok then drop 1 tok else tok) (Split_ multiStr (lit " ") true))) s) as [E _].
  injection E as Eg Eu. exact (f_equal2 pair Eu Eg).
Qed.

(** ** Saving *)

(** Only the document [i0] may have changed, as [R] says. *)
Definition one_changed {D} (i0 : Z) (R : D → D → Prop) (m m' : gmap Z D) : Prop :=
  ∀ i, m' !! i = m !! i ∨ i = i0 ∧ ∃ x x', m !! i = Some x ∧ m' !! i = Some x' ∧ R x x'.

Lemma one_changed_refl {D} i0 (R : D → D → Prop) m : one_changed i0 R m m.
Proof. by left. Qed.

Lemma one_changed_weaken {D} i0 (R R' : D → D → Prop) m m' :
  (∀ x x', m !! i0 = Some x → R x x' → R' x x') → one_changed i0 R m m' → one_changed i0 R' m m'.
Proof.
  intros HR Hu i. destruct (Hu i) as [?|(-> & x & x' & ? & ? & ?)]; [by left|].
  right. split; [done|]. exists x, x'. auto.
Qed.

Lemma one_changed_trans {D} i0 (R1 R2 R3 : D → D → Prop) m m1 m2 :
  (∀ x y, R1 x y → R3 x y) → (∀ x y, R2 x y → R3 x y) → (∀ x y z, R1 x y → R2 y z → R3 x z) →
  one_changed i0 R1 m m1 → one_changed i0 R2 m1 m2 → one_changed i0 R3 m m2.
Proof.
  intros H13 H23 Htr Hu1 Hu2 i.
  destruct (Hu1 i) as [E1|(Ei1 & x & y & Ex & Ey & HR)]; destruct (Hu2 i) as [E2|(Ei & y' & z & Ey' & Ez & HR')].
  - left. congruence.
  - right. split; [done|]. exists y', z. split_and!; [congruence|done|auto].
  - right. split; [done|]. exists x, y. split_and!; [done|congruence|auto].
  - right. split; [done|]. exists x, z. rewrite Ey in Ey'. injection Ey' as <-. split_and!; [done..|]. eauto.
Qed.

(** An update replaces one document. *)
Lemma replaced_one {D} `{Document D} i0 (q : D → bool) f m m' : (∀ d, q d = true → doc_id d = i0) →
  m' = m ∨ replaced q f m m' → one_changed i0 (λ x x', q x = true ∧ x' = f x) m m'.
Proof.
  intros Hq [->|(d & [Hd Hqd] & ->)]; [apply one_changed_refl|]. intros i. destruct (decide (i = doc_id d)) as [->|Hne].
  - right. split; [by apply Hq|]. exists d, (f d). by rewrite lookup_insert_eq.
  - left. by rewrite lookup_insert_ne.
Qed.

Definition one_user (uid : Z) (R : UserData → UserData → Prop) s s' : Prop :=
  groups s' = groups s ∧ one_changed uid R (users s) (users s').
Definition one_group (gid : Z) (R : GroupData → GroupData → Prop) s s' : Prop :=
  users s' = users s ∧ one_changed gid R (groups s) (groups s').

Lemma one_user_refl uid R s s' : obs s' = obs s → one_user uid R s s'.
Proof. intros [= Eu Eg]. split; [done|]. rewrite Eu. apply one_changed_refl. Qed.

Lemma one_group_refl gid R s s' : obs s' = obs s → one_group gid R s s'.
Proof. intros [= Eu Eg]. split; [done|]. rewrite Eg. apply one_changed_refl. Qed.

Lemma one_user_weaken uid (R R' : UserData → UserData → Prop) s s' :
  (∀ x x', users s !! uid = Some x → R x x' → R' x x') → one_user uid R s s' → one_user uid R' s s'.
Proof. intros HR [Hg Hu]. split; [done|]. by eapply one_changed_weaken. Qed.

Lemma one_user_trans uid (R1 R2 R3 : UserData → UserData → Prop) s s1 s2 :
  (∀ x y, R1 x y → R3 x y) → (∀ x y, R2 x y → R3 x y) → (∀ x y z, R1 x y → R2 y z → R3 x z) →
  one_user uid R1 s s1 → one_user uid R2 s1 s2 → one_user uid R3 s s2.
Proof. intros ??? [Hg1 Hu1] [Hg2 Hu2]. split; [congruence|]. by eapply (one_changed_trans uid R1 R2 R3). Qed.

Lemma one_user_obs_l uid R s0 s s' : obs s0 = obs s → one_user uid R s0 s' → one_user uid R s s'.
Proof. intros [= Eu Eg]. unfold one_user. by rewrite Eu, Eg. Qed.
Lemma one_user_obs_r uid R s s0 s' : obs s' = obs s0 → one_user uid R s s0 → one_user uid R s s'.
Proof. intros [= Eu Eg]. unfold one_user. by rewrite Eu, Eg. Qed.
Lemma one_group_obs_l gid R s0 s s' : obs s0 = obs s → one_group gid R s0 s' → one_group gid R s s'.
Proof. intros [= Eu Eg]. unfold one_group. by rewrite Eu, Eg. Qed.
Lemma one_group_obs_r gid R s s0 s' : obs s' = obs s0 → one_group gid R s s0 → one_group gid R s s'.
Proof. intros [= Eu Eg]. unfold one_group. by rewrite Eu, Eg. Qed.

(** Reading before and after *)
Lemma st_holds_after {A B} (m : D_ A) (k : A → D_ B) s (Q : Db W → Prop) :
  (∀ s s', obs s' = obs s → Q s → Q s') → st_holds m s (λ _ s', Q s') → (∀ a, st_keeps obs (k a)) →
  st_holds (st_bind m k) s (λ _ s', Q s').
Proof.
  intros HQ Hm Hk. apply st_holds_bind. eapply st_holds_conseq; [exact Hm|]. intros [a|e] s' Hs'; [|done].
  unfold st_holds. eapply HQ; [apply Hk|done].
Qed.

(** Some of the saves, in their order, were accepted. *)
Definition written (l : list (Save * UserData)) (x x' : UserData) : Prop :=
  ∃ l', sublist l' l ∧ x' = foldl (λ x sd, copy_save sd.1 sd.2 x) x l'.

Lemma written_app l1 l2 x y z : written l1 x y → written l2 y z → written (l1 ++ l2) x z.
Proof.
  intros (l1' & H1 & ->) (l2' & H2 & ->). exists (l1' ++ l2'). split; [by apply sublist_app|]. by rewrite foldl_app.
Qed.

Lemma written_l l1 l2 x y : written l1 x y → written (l1 ++ l2) x y.
Proof. intros Hw. apply (written_app l1 l2 x y y Hw). exists []. split; [apply sublist_nil_l|done]. Qed.

Lemma written_r l1 l2 x y : written l2 x y → written (l1 ++ l2) x y.
Proof. intros Hw. refine (written_app l1 l2 x x y _ Hw). exists []. split; [apply sublist_nil_l|done]. Qed.

Lemma written_id l x x' : written l x x' → id x' = id x.
Proof.
  intros (l' & _ & ->). revert x. induction l' as [|sd l' IH]; intros x; [done|]. cbn. by rewrite IH, copy_save_id.
Qed.

Lemma update_user_holds conn uid q f s : (∀ u, id (f u) = id u) → (∀ u, q u = true → id u = uid) →
  st_holds (Update conn q f) s (λ _ s', one_user uid (λ x x', q x = true ∧ x' = f x) s s').
Proof.
  intros Hid Hq. eapply st_holds_conseq; [by apply (Update_holds groups_in conn q f s)|].
  intros _ s' [Eg Eu]. split; [exact Eg|]. by apply replaced_one.
Qed.

Lemma update_group_holds conn gid q f s : (∀ g, Group.id (f g) = Group.id g) → (∀ g, q g = true → Group.id g = gid) →
  st_holds (Update conn q f) s (λ _ s', one_group gid (λ x x', q x = true ∧ x' = f x) s s').
Proof.
  intros Hid Hq. eapply st_holds_conseq; [by apply (Update_holds users_in conn q f s)|].
  intros _ s' [Eu Eg]. split; [exact Eu|]. by apply replaced_one.
Qed.

Lemma find_user_holds conn uid q f s : (∀ u, id (f u) = id u) → (∀ u, q u = true → id u = uid) →
  st_holds (RunCommand conn false (FindAndModify q f)) s (λ _ s', one_user uid (λ x x', q x = true ∧ x' = f x) s s').
Proof.
  intros Hid Hq. eapply st_holds_conseq; [by apply (RunCommand_holds groups_in conn q f s)|].
  intros _ s' [Eg Eu]. split; [exact Eg|]. by apply replaced_one.
Qed.

(** The saves: a connection, an update of the document, an entry in the log *)
Lemma db_Save_holds sv u s :
  st_holds (db_Save sv u) s (λ _ s', one_user (id u) (λ x x', x' = copy_save sv u x) s s').
Proof.
  apply st_holds_reads; [apply user_Create_reads|intros; by apply one_user_refl|]. intros conn s1 E1.
  apply st_holds_after; [intros ??; apply one_user_obs_r| |intros ?; destruct sv; try apply UpdateLog_reads; done].
  apply st_holds_after; [intros ??; apply one_user_obs_r| |done].
  eapply st_holds_conseq; [apply (update_user_holds conn (id u)); [intros; apply copy_save_id|intros x; apply Z.eqb_eq]|].
  intros r s2 H2. apply (one_user_obs_l _ _ s1); [done|]. eapply one_user_weaken; [|exact H2]. by intros ??? [_ ?].
Qed.

Lemma db_SaveName_holds u s :
  st_holds (db_SaveName u) s (λ _ s', one_user (id u) (λ x x', x' = copy_save SaveName u x) s s').
Proof.
  apply st_holds_catch. eapply (st_holds_conseq _ _ (λ _ s', one_user (id u) (λ x x', x' = copy_save SaveName u x) s s')).
  2: { intros [|e] s' Hs'; [done|]. by destruct e. }
  apply st_holds_reads; [apply user_Create_reads|intros; by apply one_user_refl|]. intros conn s1 E1.
  apply st_holds_after; [intros ??; apply one_user_obs_r| |].
  2: { intros ?. apply st_keeps_bind; [apply UpdateLog_reads|done]. }
  apply st_holds_after; [intros ??; apply one_user_obs_r| |done].
  eapply st_holds_conseq; [apply (update_user_holds conn (id u)); [intros; apply copy_save_id|intros x; apply Z.eqb_eq]|].
  intros r s2 H2. apply (one_user_obs_l _ _ s1); [done|]. eapply one_user_weaken; [|exact H2]. by intros ??? [_ ?].
Qed.

Lemma User_Rename_holds u n s :
  st_holds (User_Rename u n) s (λ _ s', one_user (id u) (λ x x', x' = set f_name n x) s s').
Proof.
  apply st_holds_after; [intros ??; apply one_user_obs_r| |by intros []].
  eapply st_holds_conseq; [apply db_SaveName_holds|]. intros r s' Hs'.
  replace (id (set f_name n u)) with (id u) in Hs' by (by destruct u). eapply one_user_weaken; [|exact Hs'].
  intros x x' _ ->. by destruct u, x.
Qed.

(** Those of groups *)
Lemma group_Save_holds sv g s :
  st_holds (group_Save sv g) s (λ _ s', one_group (Group.id g) (λ x x', x' = copy_group_save sv g x) s s').
Proof.
  apply st_holds_reads; [apply user_Create_reads|intros; by apply one_group_refl|]. intros conn s1 E1.
  apply st_holds_after; [intros ??; apply one_group_obs_r| |intros ?; apply UpdateLog_group_reads].
  apply st_holds_after; [intros ??; apply one_group_obs_r| |done].
  eapply st_holds_conseq; [apply (update_group_holds conn (Group.id g)); [intros; apply copy_group_save_id|intros x; apply Z.eqb_eq]|].
  intros r s2 [Hu Hg]. apply (one_group_obs_l _ _ s1); [done|]. split; [done|].
  eapply one_changed_weaken; [|exact Hg]. by intros ??? [_ ?].
Qed.

Lemma group_SaveName_holds g s :
  st_holds (group_SaveName g) s (λ _ s', one_group (Group.id g) (λ x x', x' = copy_group_save Group.SaveName g x) s s').
Proof.
  apply st_holds_catch. eapply (st_holds_conseq _ _ (λ _ s', one_group (Group.id g) (λ x x', x' = copy_group_save Group.SaveName g x) s s')).
  2: { intros [|e] s' Hs'; [done|]. by destruct e. }
  apply st_holds_reads; [apply user_Create_reads|intros; by apply one_group_refl|]. intros conn s1 E1.
  apply st_holds_after; [intros ??; apply one_group_obs_r| |].
  2: { intros ?. apply st_keeps_bind; [apply UpdateLog_group_reads|done]. }
  apply st_holds_after; [intros ??; apply one_group_obs_r| |done].
  eapply st_holds_conseq; [apply (update_group_holds conn (Group.id g)); [intros; apply copy_group_save_id|intros x; apply Z.eqb_eq]|].
  intros r s2 [Hu Hg]. apply (one_group_obs_l _ _ s1); [done|]. split; [done|].
  eapply one_changed_weaken; [|exact Hg]. by intros ??? [_ ?].
Qed.

Lemma Group_Rename_holds g n s :
  st_holds (Group_Rename g n) s (λ _ s', one_group (Group.id g) (λ x x', x' = set g_name n x) s s').
Proof.
  apply st_holds_after; [intros ??; apply one_group_obs_r| |by intros []].
  eapply st_holds_conseq; [apply group_SaveName_holds|]. intros r s' [Hu Hg].
  replace (Group.id (set g_name n g)) with (Group.id g) in Hg by (by destruct g). split; [done|].
  eapply one_changed_weaken; [|exact Hg]. intros x x' _ ->. by destruct g, x.
Qed.

Lemma saves_holds uid l s : Forall (λ sd : Save * UserData, id sd.2 = uid) l →
  st_holds (st_iter (λ sd, db_Save sd.1 sd.2) l) s (λ _ s', one_user uid (written l) s s').
Proof.
  revert s. induction l as [|[sv d] l IH]; intros s Hl; [by apply one_user_refl|].
  apply Forall_cons in Hl as [Hd Hl]. cbn [st_iter]. apply st_holds_bind.
  eapply st_holds_conseq; [apply db_Save_holds|]. intros r s1 H1. cbn in Hd, H1. rewrite Hd in H1.
  assert (∀ x x', x' = copy_save sv d x → written [(sv, d)] x x') as Hw by (intros x ? ->; by exists [(sv, d)]).
  destruct r as [[]|e].
  - eapply st_holds_conseq; [by apply IH|]. intros r s2 H2.
    apply (one_user_trans uid (written [(sv, d)]) (written l) (written ([(sv, d)] ++ l)) s s1 s2); [..|done].
    + apply written_l. + apply written_r. + apply written_app. + eapply one_user_weaken; [|done]. auto.
  - eapply one_user_weaken; [|done]. intros x x' _ Hx. apply (written_l [(sv, d)] l). auto.
Qed.

Definition saves_of {A} (u : UserData) (m : Transaction.M Save UserData A) : list (Save * UserData) :=
  saved (m (Store u [])).2.

Lemma in_user_holds {A} u (m : Transaction.M Save UserData A) s : Forall (λ sd : Save * UserData, id sd.2 = id u) (saves_of u m) →
  st_holds (in_user u m) s (λ r s', one_user (id u) (written (saves_of u m)) s s' ∧
    ∀ a u', r = Ok (a, u') → (m (Store u [])).1 = Ok a ∧ u' = data (m (Store u [])).2).
Proof.
  intros Hl. unfold in_user. unfold saves_of in *. destruct (m (Store u [])) as [[a|e] st] eqn:Em; cbn [fst snd] in *.
  - apply st_holds_bind. eapply st_holds_conseq; [by apply saves_holds|]. intros [[]|e] s' H'; (split; [done|]); [|done].
    by intros ? ? [= <- <-].
  - split; [by apply one_user_refl|done].
Qed.

(** ** Creating and removing *)

Lemma db_Create_holds u s :
  st_holds (db_Create rounds u) s (λ r s',
    groups s' = groups s ∧ (users s' = users s ∨ ∃ i, new_document u i (users s) (users s')) ∧
    ∀ u', r = Ok (Some u') → 0 ≤ id u' ∧ u' = set f_id (id u') u ∧ new_document u (id u') (users s) (users s')).
Proof.
  apply st_holds_reads; [apply user_Create_reads|by intros e s' [= -> ->]; split_and!; [|left|]|].
  intros conn s1 [= Eu Eg]. rewrite <-Eu, <-Eg. apply st_holds_bind.
  eapply st_holds_conseq; [exact (InsertAutoIncrement_holds groups_in rounds conn u s1)|].
  intros [i|e] s2 [[Eg2 Hi] Hok]; [|by split_and!].
  destruct (Z.eqb_spec i (-1)); [by split_and!|]. specialize (Hok i eq_refl n).
  apply st_holds_reads; [apply UpdateLog_reads| |]; [intros e|intros []]; intros s3 [= Eu3 Eg3]; unfold st_holds, st_ret; cbn [fst snd]; rewrite Eu3, Eg3; split_and!; try done.
  intros u' Hu'. assert (u' = set f_id i u) as -> by congruence.
  replace (id (set f_id i u)) with i by (by destruct u). by destruct Hok.
Qed.

Lemma db_Purge_holds u s :
  st_holds (db_Purge u) s (λ _ s', groups s' = groups s ∧
    ∀ i, users s' !! i = users s !! i ∨ i = id u ∧ users s' !! i = None).
Proof.
  apply st_holds_reads; [apply user_Create_reads|by intros e s' [= -> ->]; split; [|left]|].
  intros conn s1 [= Eu Eg]. rewrite <-Eu, <-Eg. apply st_holds_after.
  - intros s' s2 [= -> ->]. done.
  - eapply st_holds_conseq; [exact (Remove_holds groups_in conn (with_uid (id u)) s1)|].
    intros r s2 [Eg2 H2]. split; [done|]. intros i. destruct (H2 i) as [?|(? & d & Hd & Hq)]; [by left|right].
    split; [|done]. apply Z.eqb_eq in Hq. rewrite <-Hq. symmetry. exact (contents_keyed (other := groups_in) (server s1) i d Hd).
  - intros ?. apply UpdateLog_reads.
Qed.

Lemma group_Create_holds g s :
  st_holds (group_Create rounds g) s (λ r s',
    users s' = users s ∧ (groups s' = groups s ∨ ∃ i, new_document g i (groups s) (groups s'))).
Proof.
  apply st_holds_reads; [apply user_Create_reads|by intros e s' [= -> ->]; split; [|left]|].
  intros conn s1 [= Eu Eg]. rewrite <-Eu, <-Eg. apply st_holds_bind.
  eapply st_holds_conseq; [exact (InsertAutoIncrement_holds users_in rounds conn g s1)|].
  intros [i|e] s2 [[Eu2 Hi] _]; [|by split_and!]. destruct (Z.eqb_spec i (-1)); [by split_and!|].
  apply st_holds_reads; [apply UpdateLog_group_reads| |]; [intros e|intros []]; intros s3 [= Eu3 Eg3]; unfold st_holds, st_ret; cbn [fst snd]; rewrite Eu3, Eg3; by split_and!.
Qed.

Lemma group_Purge_holds g s :
  st_holds (group_Purge g) s (λ _ s', users s' = users s ∧
    ∀ i, groups s' !! i = groups s !! i ∨ i = Group.id g ∧ groups s' !! i = None).
Proof.
  apply st_holds_reads; [apply user_Create_reads|by intros e s' [= -> ->]; split; [|left]|].
  intros conn s1 [= Eu Eg]. rewrite <-Eu, <-Eg. apply st_holds_after.
  - intros s' s2 [= -> ->]. done.
  - eapply st_holds_conseq; [exact (Remove_holds users_in conn (with_gid (Group.id g)) s1)|].
    intros r s2 [Eg2 H2]. split; [done|]. intros i. destruct (H2 i) as [?|(? & d & Hd & Hq)]; [by left|right].
    split; [|done]. apply Z.eqb_eq in Hq. rewrite <-Hq. symmetry. exact (contents_keyed (other := users_in) (server s1) i d Hd).
  - intros ?. apply UpdateLog_group_reads.
Qed.

(** ** Credits, whatever fails *)

Definition credits_changed (x x' : UserData) : Prop := ∃ c, x' = set f_credits c x.

Lemma credits_changed_trans x y z : credits_changed x y → credits_changed y z → credits_changed x z.
Proof. intros [c ->] [c' ->]. exists c'. by destruct x. Qed.

Lemma credits_step {A B} (m : D_ A) (k : A → D_ B) uid s :
  st_holds m s (λ _ s', one_user uid credits_changed s s') →
  (∀ a s1, st_holds (k a) s1 (λ _ s', one_user uid credits_changed s1 s')) →
  st_holds (st_bind m k) s (λ _ s', one_user uid credits_changed s s').
Proof.
  intros Hm Hk. apply st_holds_bind. eapply st_holds_conseq; [exact Hm|]. intros [a|e] s1 H1; [|done].
  eapply st_holds_conseq; [apply Hk|]. intros r s2 H2.
  apply (one_user_trans uid credits_changed credits_changed credits_changed s s1 s2); [done|done|apply credits_changed_trans|done|done].
Qed.

Lemma updateExisting_holds conn uid section k s :
  st_holds (updateExisting conn uid section k) s (λ _ s', one_user uid credits_changed s s').
Proof.
  apply st_holds_after; [intros ??; apply one_user_obs_r| |done].
  eapply st_holds_conseq; [apply (find_user_holds conn uid); [by intros []|by intros x [?%Z.eqb_eq _]%andb_true_iff]|].
  intros r s' Hs'. eapply one_user_weaken; [|exact Hs']. intros x x' _ [_ ->]. by eexists.
Qed.

Lemma db_IncrCredits_holds uid section k s :
  st_holds (db_IncrCredits uid section k) s (λ _ s', one_user uid credits_changed s s').
Proof.
  apply credits_step; [by apply one_user_refl, user_Create_reads|]. intros conn s1.
  apply credits_step; [apply updateExisting_holds|]. intros [] s2; [by apply one_user_refl|].
  apply credits_step.
  { apply st_holds_after; [intros ??; apply one_user_obs_r| |done].
    eapply st_holds_conseq; [apply (update_user_holds conn uid); [by intros []|by intros x [?%Z.eqb_eq _]%andb_true_iff]|].
    intros r s' Hs'. eapply one_user_weaken; [|exact Hs']. intros x x' _ [_ ->]. by eexists. }
  intros [] s3; [by apply one_user_refl|]. apply credits_step; [apply updateExisting_holds|].
  intros [] s4; by apply one_user_refl.
Qed.

Lemma db_DecrCredits_holds uid section k force s :
  st_holds (db_DecrCredits uid section k force) s (λ _ s', one_user uid credits_changed s s').
Proof.
  unfold db_DecrCredits. destruct (k =? 0); [by apply one_user_refl|].
  apply credits_step; [by apply one_user_refl, user_Create_reads|]. intros conn s1.
  apply st_holds_after; [intros ??; apply one_user_obs_r| |done].
  eapply st_holds_conseq; [apply (find_user_holds conn uid); [by intros []|by intros x [?%Z.eqb_eq _]%andb_true_iff]|].
  intros r s' Hs'. eapply one_user_weaken; [|exact Hs']. intros x x' _ [_ ->]. by eexists.
Qed.

(** ** Credits, on a server that does not fail

    The updates are those of Credits.v on the user's document. *)

Context `{!Reliable W UserData}.

Definition user_credits (f : gmap str Z → gmap str Z) (u : UserData) : UserData := set f_credits (f (credits u)) u.

Lemma lookup_with_uid s uid u : users s !! id u = Some u ∧ with_uid uid u = true ↔ users s !! uid = Some u.
Proof.
  unfold with_uid. rewrite Z.eqb_eq. split; [by intros [? <-]|]. intros Hu.
  pose proof (contents_keyed (other := groups_in) (server s) uid u Hu) as E. change (id u = uid) in E. by rewrite E.
Qed.

(** A [findAndModify] on the user [uid] under a condition *)
Lemma modify_user_reliable conn uid (p : UserData → bool) f s : scopedConn conn = true → (∀ u, id (f u) = id u ∧ name (f u) = name u) →
  ∃ s', RunCommand conn false (FindAndModify (λ u, with_uid uid u && p u) f) s =
          (Ok (true, match users s !! uid with Some u => p u | None => false end), s') ∧
        groups s' = groups s ∧
        users s' = match users s !! uid with Some u => if p u then <[uid := f u]> (users s) else users s | None => users s end.
Proof.
  intros Hc Hf. change (∀ u, doc_id (f u) = doc_id u ∧ doc_name (f u) = doc_name u) in Hf. destruct (FindAndModify_reliable groups_in conn (λ u, with_uid uid u && p u) f s Hc Hf) as (b & s' & E & Hg & Hb).
  exists s'. rewrite E. destruct b.
  - destruct Hb as (d & [Hd [Hq Hp]%andb_true_iff] & Eu).
    assert (users s !! uid = Some d) as Hu by (apply lookup_with_uid; by split). rewrite Hu, Hp. split_and!; [done|exact Hg|].
    apply Z.eqb_eq in Hq. rewrite <-Hq. exact Eu.
  - destruct Hb as [Eu Hn]. destruct (users s !! uid) as [u|] eqn:Hu; [|by split_and!].
    destruct (p u) eqn:Hp; [|by split_and!]. exfalso. apply lookup_with_uid in Hu as [Hu Hq].
    apply (Hn u). split; [exact Hu|]. by rewrite Hq, Hp.
Qed.

Lemma update_user_reliable conn uid (p : UserData → bool) f s :
  scopedConn conn = true → is_fast (mode conn) = false → (∀ u, id (f u) = id u ∧ name (f u) = name u) →
  ∃ n s', Update conn (λ u, with_uid uid u && p u) f s = (Ok n, s') ∧ groups s' = groups s ∧
        (0 <? n) = match users s !! uid with Some u => p u | None => false end ∧
        users s' = match users s !! uid with Some u => if p u then <[uid := f u]> (users s) else users s | None => users s end.
Proof.
  intros Hc Hm Hf. change (∀ u, doc_id (f u) = doc_id u ∧ doc_name (f u) = doc_name u) in Hf. destruct (Update_reliable groups_in conn (λ u, with_uid uid u && p u) f s Hc Hm Hf) as (n & s' & E & Hg & Hb).
  exists n, s'. rewrite E. destruct Hb as [(-> & Eu & Hn)|(-> & d & [Hd [Hq Hp]%andb_true_iff] & Eu)].
  - destruct (users s !! uid) as [u|] eqn:Hu; [|by split_and!].
    destruct (p u) eqn:Hp; [|by split_and!]. exfalso. apply lookup_with_uid in Hu as [Hu Hq].
    apply (Hn u). split; [exact Hu|]. by rewrite Hq, Hp.
  - assert (users s !! uid = Some d) as Hu by (apply lookup_with_uid; by split). rewrite Hu, Hp. split_and!; [done|exact Hg|done|].
    apply Z.eqb_eq in Hq. rewrite <-Hq. exact Eu.
Qed.

Lemma Create_user_reliable m s : ∃ s', Create m s = (Ok (MkConnection m true), s') ∧ obs s' = obs s.
Proof. exact (Create_reliable groups_in m s). Qed.

(** The answer, and the credits of the user, are those of Credits.v. *)
Lemma db_DecrCredits_reliable uid section k force s :
  ∃ s', db_DecrCredits uid section k force s =
          (Ok (match users s !! uid with Some u => fst (DecrCredits section k force (credits u)) | None => force || (k =? 0) end), s') ∧
        groups s' = groups s ∧
        users s' = alter (user_credits (λ c, snd (DecrCredits section k force c))) uid (users s).
Proof.
  unfold db_DecrCredits, DecrCredits. destruct (k =? 0).
  { exists s. split_and!; [by destruct (users s !! uid), force|done|].
    symmetry. apply map_eq. intros i. destruct (decide (i = uid)) as [->|]; [|by rewrite lookup_alter_ne].
    rewrite lookup_alter_eq. by destruct (users s !! uid) as [[]|]. }
  destruct (Create_user_reliable NoError s) as (s1 & E1 & [= Eu Eg]). rewrite (st_bind_run _ _ _ _ _ E1).
  destruct (modify_user_reliable (MkConnection NoError true) uid (can_take section k force) (add_credits section (- k)) s1)
    as (s2 & E2 & Hg & Hu); [done|by intros []|]. rewrite (st_bind_run _ _ _ _ _ E2). exists s2. rewrite <-Eu, <-Eg.
  split; [|split; [done|]].
  - f_equal. f_equal. cbn. destruct (users s1 !! uid) as [u|]; [|by rewrite orb_false_r].
    unfold can_take, has_credits, SectionCredits. destruct (credits u !! section) as [v|] eqn:Ev; cbn.
    + destruct force; [done|]. cbn. by destruct (k <=? v).
    + by destruct force.
  - rewrite Hu. apply map_eq. intros i. destruct (decide (i = uid)) as [->|Hne].
    + rewrite lookup_alter_eq. destruct (users s1 !! uid) as [u|] eqn:Hx; [|done]. cbn.
      unfold can_take, has_credits, add_credits, user_credits, SectionCredits. destruct (credits u !! section) as [v|] eqn:Ev; cbn.
      * destruct (force || (k <=? v)); [|by rewrite Hx; destruct u].
        by rewrite lookup_insert_eq.
      * rewrite Hx. by destruct u.
    + rewrite lookup_alter_ne by done. destruct (users s1 !! uid) as [u|]; [|done]. destruct (can_take _ _ _ u); [|done].
      by rewrite lookup_insert_ne.
Qed.

(** What a step that may change the user [uid] leaves *)
Definition if_user (p : UserData → bool) (f : UserData → UserData) uid (m : gmap Z UserData) : gmap Z UserData :=
  match m !! uid with Some u => if p u then <[uid := f u]> m else m | None => m end.
Definition user_is (p : UserData → bool) uid (m : gmap Z UserData) : bool :=
  match m !! uid with Some u => p u | None => false end.

Lemma updateExisting_reliable conn uid section k s : scopedConn conn = true →
  ∃ s', updateExisting conn uid section k s = (Ok (user_is (has_credits section) uid (users s)), s') ∧ groups s' = groups s ∧
        users s' = if_user (has_credits section) (add_credits section k) uid (users s).
Proof.
  intros Hc. destruct (modify_user_reliable conn uid (has_credits section) (add_credits section k) s) as (s' & E & ? & ?); [done|by intros []|].
  exists s'. unfold updateExisting. rewrite (st_bind_run _ _ _ _ _ E). by split_and!.
Qed.

Lemma doInsert_reliable conn uid section k s : scopedConn conn = true → is_fast (mode conn) = false →
  ∃ s', doInsert conn uid section k s = (Ok (user_is (λ u, negb (has_credits section u)) uid (users s)), s') ∧ groups s' = groups s ∧
        users s' = if_user (λ u, negb (has_credits section u)) (push_credits section k) uid (users s).
Proof.
  intros Hc Hm. destruct (update_user_reliable conn uid (λ u, negb (has_credits section u)) (push_credits section k) s)
    as (n & s' & E & ? & Hn & ?); [done|done|by intros []|].
  exists s'. unfold doInsert. rewrite (st_bind_run _ _ _ _ _ E). split_and!; [by rewrite Hn|done|done].
Qed.

(** Credits are given once, whether the user has an entry for the section or not. *)
Lemma db_IncrCredits_reliable uid section k s :
  ∃ s', db_IncrCredits uid section k s = (Ok (), s') ∧ groups s' = groups s ∧
        users s' = alter (user_credits (IncrCredits section k)) uid (users s).
Proof.
  unfold db_IncrCredits. destruct (Create_user_reliable NoError s) as (s1 & E1 & [= Eu Eg]).
  rewrite (st_bind_run _ _ _ _ _ E1), <-Eu, <-Eg. set (conn := MkConnection NoError true).
  destruct (updateExisting_reliable conn uid section k s1 eq_refl) as (s2 & E2 & <- & Hu2). rewrite (st_bind_run _ _ _ _ _ E2).
  unfold user_is, if_user in *. destruct (users s1 !! uid) as [u|] eqn:Hu.
  - assert (∀ m, m = <[uid := set f_credits (IncrCredits section k (credits u)) u]> (users s1) →
                 m = alter (user_credits (IncrCredits section k)) uid (users s1)) as Ha.
    { intros m ->. apply map_eq. intros i. destruct (decide (i = uid)) as [->|].
      - by rewrite lookup_insert_eq, lookup_alter_eq, Hu. - by rewrite lookup_insert_ne, lookup_alter_ne. }
    unfold IncrCredits in Ha at 1. destruct (has_credits section u) eqn:Hc.
    + exists s2. split_and!; [done..|]. apply Ha. rewrite Hu2. unfold add_credits, SectionCredits.
      apply bool_decide_eq_true in Hc as [v ->]. done.
    + destruct (doInsert_reliable conn uid section k s2 eq_refl eq_refl) as (s3 & E3 & <- & Hu3). rewrite (st_bind_run _ _ _ _ _ E3).
      unfold user_is, if_user in *. rewrite Hu2, Hu, Hc in *. exists s3. split_and!; [done..|]. apply Ha. rewrite Hu3. unfold push_credits.
      apply bool_decide_eq_false, eq_None_not_Some in Hc as ->. done.
  - destruct (doInsert_reliable conn uid section k s2 eq_refl eq_refl) as (s3 & E3 & <- & Hu3). rewrite (st_bind_run _ _ _ _ _ E3).
    unfold user_is, if_user in *. rewrite Hu2, Hu in *.
    destruct (updateExisting_reliable conn uid section k s3 eq_refl) as (s4 & E4 & <- & Hu4). rewrite (st_bind_run _ _ _ _ _ E4).
    unfold user_is, if_user in *. rewrite Hu3, Hu in *. eexists. split_and!; [done|done|].
    change (users s4 = alter (user_credits (IncrCredits section k)) uid (users s1)). rewrite Hu4.
    apply map_eq. intros i. destruct (decide (i = uid)) as [->|]; [by rewrite lookup_alter_eq, Hu|by rewrite lookup_alter_ne].
Qed.

End facts.
