(* ===== verification/Memory.v ===== *)
(** * A database in memory

    A server that does what MongoDB documents and never fails: an instance of the
    interface of Connection.v, for examples.  A collection that would break its
    unique indexes is not stored. *)

From stdpp Require Import prelude gmap strings.
From S2P Require Import Prelude Connection Group UserData Accounts.
Local Open Scope Z_scope.
Local Open Scope list_scope.

Section collection.
Context {D : Type} `{Document D}.
Implicit Types (m : gmap Z D).

Definition indexed m : Prop :=
  map_Forall (λ i d, doc_id d = i ∧ map_Forall (λ j e, doc_name d = doc_name e → i = j) m) m.

#[global] Instance indexed_dec m : Decision (indexed m) := _.

Lemma indexed_spec m : indexed m ↔ keyed m ∧ names_unique m.
Proof.
  split.
  - intros Hm. split; [intros i d Hd; by apply (Hm i d)|]. intros i j d e Hd He. by apply (proj2 (Hm i d Hd) j e He).
  - intros [Hk Hu] i d Hd. split; [by apply Hk|]. intros j e He Hn. by apply (Hu i j d e).
Qed.

(** What is stored is read only if it is indexed. *)
Definition stored m : gmap Z D := if decide (indexed m) then m else ∅.

Lemma stored_indexed m : indexed (stored m).
Proof. unfold stored. case_decide; [done|]. by intros i d ?%lookup_empty_Some. Qed.

Lemma stored_id m : indexed m → stored m = m.
Proof. intros Hm. unfold stored. by rewrite decide_True. Qed.

Definition found_in (q : D → bool) m : list D := filter (λ d, q d = true) (map snd (map_to_list m)).

(** The first document that matches is replaced, if the indexes allow. *)
Definition modify_in (q : D → bool) (f : D → D) m : option (gmap Z D) :=
  match found_in q m with
  | [] => Some m
  | d :: _ => let m' := <[doc_id d := f d]> m in if decide (indexed m') then Some m' else None
  end.

Definition next_free m : Z := foldr Z.max 0 (map (λ kv, Z.succ kv.1) (map_to_list m)).

Definition serve {A} (r : request D A) m : answer A * gmap Z D :=
  match r in request _ A return answer A * gmap Z D with
  | Find q limit skip =>
      let l := drop (Z.to_nat skip) (found_in q m) in
      (Answered (Some (if (limit =? 0)%nat then l else take limit l)) None, m)
  | Count_ q => (Answered (Z.of_nat (size (filter (λ kv, q kv.2 = true) m))) None, m)
  | Update_ q f =>
      match modify_in q f m with
      | Some m' => (Answered (match found_in q m with [] => 0 | _ => 1 end) None, m')
      | None => (Answered 0 (Some DUPLICATE_KEY), m)
      end
  | FindAndModify q f =>
      match modify_in q f m with
      | Some m' => (Answered (true, match found_in q m with [] => false | _ => true end) None, m')
      | None => (Answered (true, false) (Some DUPLICATE_KEY), m)
      end
  | Sum value =>
      (Answered (true, match omap value (map snd (map_to_list m)) with [] => None | l => Some (foldr Z.add 0 l) end) None, m)
  | Insert_ d =>
      let m' := <[doc_id d := d]> m in
      if decide (m !! doc_id d = None ∧ indexed m') then (Answered () None, m') else (Answered () (Some DUPLICATE_KEY), m)
  | Remove_ q => (Answered (Z.of_nat (length (found_in q m))) None, filter (λ kv, q kv.2 = false) m)
  | NextId => (Answered (Some (next_free m)) None, m)
  end.

Lemma found_in_spec q m d : keyed m → d ∈ found_in q m ↔ matches q m d.
Proof.
  intros Hk. unfold found_in, matches. rewrite list_elem_of_filter, list_elem_of_fmap. split.
  - intros [Hq ([i e] & -> & He%elem_of_map_to_list)]. cbn. split; [|done]. by rewrite (Hk i e He).
  - intros [Hd Hq]. split; [done|]. exists (doc_id d, d). split; [done|]. by apply elem_of_map_to_list.
Qed.

Lemma modify_in_spec q f m m' : keyed m → modify_in q f m = Some m' →
  found_in q m = [] ∧ m' = m ∧ nothing_matches q m ∨ found_in q m ≠ [] ∧ replaced q f m m'.
Proof.
  intros Hk. unfold modify_in. destruct (found_in q m) as [|d l] eqn:E.
  - intros [= <-]. left. split_and!; [done|done|]. intros d Hd%found_in_spec; [|done]. rewrite E in Hd. by apply elem_of_nil in Hd.
  - case_decide; [|done]. intros [= <-]. right. split; [done|]. exists d. split; [|done]. apply found_in_spec; [done|].
    rewrite E. left.
Qed.

Lemma serve_effect {A} (r : request D A) m : keyed m → keeps_id r → effect r (serve r m).1 m (serve r m).2.
Proof.
  intros Hk Hr. destruct r as [q limit skip|q|q f|q f|value|d|q|]; cbn.
  - split; [done|]. intros l err [= <- <-]. split.
    + intros d Hd. apply found_in_spec; [done|]. destruct (limit =? 0)%nat; (eapply elem_of_sublist; [exact Hd|]);
        [apply sublist_drop|etrans; [apply sublist_take|apply sublist_drop]].
    + intros _ -> Hl d Hd. rewrite drop_0 in *. apply (found_in_spec q m d Hk) in Hd. destruct (Nat.eqb_spec limit 0); [done|].
      destruct Hl as [?|Hl]; [done|]. rewrite length_take in Hl. rewrite take_ge; [done|lia].
  - split; [done|]. by intros n [= <-].
  - destruct (modify_in q f m) as [m'|] eqn:E; cbn; [|split; [by left|done]].
    apply modify_in_spec in E as [(E & -> & Hn)|[E Hrep]]; [| |done].
    + split; [by left|]. intros n [= <-]. left. rewrite E. by split_and!.
    + split; [by right|]. intros n [= <-]. right. by destruct (found_in q m).
  - destruct (modify_in q f m) as [m'|] eqn:E; cbn; [|split; [by left|done]].
    apply modify_in_spec in E as [(E & -> & Hn)|[E Hrep]]; [| |done].
    + split; [by left|]. intros b [= <-]. by rewrite E.
    + split; [by right|]. intros b [= <-]. by destruct (found_in q m).
  - done.
  - case_decide as Hd; cbn; [|split; [by left|done]]. destruct Hd as [Hd _]. split; [by right|done].
  - split.
    + intros i. destruct (m !! i) as [d|] eqn:Ed; [|left; by apply map_lookup_filter_None; left].
      destruct (q d) eqn:Eq; [right|left].
      * split; [apply map_lookup_filter_None; right; intros e Ee; cbn; congruence|]. by exists d.
      * by apply map_lookup_filter_Some.
    + intros n _ i d Hd. by apply map_lookup_filter_Some in Hd as [_ Hd].
  - done.
Qed.

Lemma serve_indexed {A} (r : request D A) m : indexed m → indexed (serve r m).2.
Proof.
  intros Hm. destruct r as [q limit skip|q|q f|q f|value|d|q|]; cbn; try done.
  - unfold modify_in. repeat case_match; cbn; simplify_eq; done.
  - unfold modify_in. repeat case_match; cbn; simplify_eq; done.
  - case_decide as Hd; [by destruct Hd|done].
  - intros i d [Hd _]%map_lookup_filter_Some. destruct (Hm i d Hd) as [Hi Hn]. split; [done|].
    intros j e [He _]%map_lookup_filter_Some. by apply Hn.
Qed.

(** Nothing but a name or an id that is taken is refused. *)
Lemma indexed_insert m i e : indexed m → doc_id e = i → (∀ j d, m !! j = Some d → j ≠ i → doc_name d ≠ doc_name e) →
  indexed (<[i := e]> m).
Proof.
  intros [Hk Hu]%indexed_spec He Hn. apply indexed_spec. split.
  - intros j d [[<- <-]|[? Hd]]%lookup_insert_Some; [done|by apply Hk].
  - intros j k d d' [[<- <-]|[Hj Hd]]%lookup_insert_Some [[<- <-]|[Hj' Hd']]%lookup_insert_Some E; [done| | |by apply (Hu j k d d')].
    + by destruct (Hn k d' Hd' (not_eq_sym Hj')).
    + by destruct (Hn j d Hd (not_eq_sym Hj)).
Qed.

Lemma modify_in_ok q f m : indexed m → (∀ d, doc_id (f d) = doc_id d ∧ doc_name (f d) = doc_name d) →
  ∃ m', modify_in q f m = Some m'.
Proof.
  intros Hm Hf. unfold modify_in. destruct (found_in q m) as [|d l] eqn:E; [by eexists|].
  rewrite decide_True; [by eexists|]. pose proof (proj1 (indexed_spec m) Hm) as [Hk Hu].
  assert (m !! doc_id d = Some d) as Hd.
  { apply (found_in_spec q m d Hk). rewrite E. left. }
  apply indexed_insert; [done|by destruct (Hf d)|]. intros j e He Hne Hnm. rewrite (proj2 (Hf d)) in Hnm.
  by apply Hne, (Hu j (doc_id d) e d).
Qed.

Lemma next_free_spec m : 0 ≤ next_free m ∧ m !! next_free m = None.
Proof.
  unfold next_free. assert (∀ l : list (Z * D), 0 ≤ foldr Z.max 0 (map (λ kv, Z.succ kv.1) l) ∧
    ∀ kv, kv ∈ l → kv.1 < foldr Z.max 0 (map (λ kv, Z.succ kv.1) l)) as Hl.
  { induction l as [|kv l [IH1 IH2]]; cbn; [split; [done|by intros ? ?%elem_of_nil]|]. split; [lia|].
    intros kv' [->|Hin]%elem_of_cons; [lia|]. specialize (IH2 kv' Hin). lia. }
  destruct (Hl (map_to_list m)) as [H1 H2]. split; [done|].
  destruct (m !! _) as [d|] eqn:E; [|done]. apply elem_of_map_to_list, H2 in E. cbn in E. lia.
Qed.

Lemma serve_reliable {A} (r : request D A) m : indexed m → answered_well r (serve r m).1 m.
Proof.
  intros Hm. destruct r as [q limit skip|q|q f|q f|value|d|q|]; cbn; try by eexists.
  - intros Hf. destruct (modify_in_ok q f m Hm Hf) as [m' ->]. by eexists.
  - intros Hf. destruct (modify_in_ok q f m Hm Hf) as [m' ->]. by eexists.
  - case_decide as Hd; cbn.
    + left. destruct Hd as [Hd Hi]. split_and!; [done| |done]. intros i e He Hn.
      apply indexed_spec in Hi as [_ Hu]. assert (i ≠ doc_id d) by congruence.
      assert (i = doc_id d); [|done]. apply (Hu i (doc_id d) e d); [by rewrite lookup_insert_ne|by rewrite lookup_insert_eq|done].
    + right. split; [|done]. destruct (decide (m !! doc_id d = None)) as [Hf|]; [right|by left].
      destruct (decide (map_Forall (λ _ e, doc_name e ≠ doc_name d) m)) as [Hall|Hn].
      * exfalso. apply Hd. split; [done|]. apply indexed_insert; [done|done|]. intros j e He _. by apply (Hall j e).
      * apply map_not_Forall in Hn as (i & e & He & Hne); [|apply _]. exists i, e. split; [done|]. by apply dec_stable.
  - exists (next_free m). split; [done|]. apply next_free_spec.
Qed.

End collection.

(** ** The two collections *)

Definition Memory : Type := (gmap Z UserData * gmap Z GroupData)%type.

#[export] Instance memory_users : Collection Memory UserData := {|
  contents w := stored w.1;
  perform A r w := let '(a, m) := serve r (stored w.1) in (a, (m, w.2))
|}.
#[export] Instance memory_groups : Collection Memory GroupData := {|
  contents w := stored w.2;
  perform A r w := let '(a, m) := serve r (stored w.2) in (a, (w.1, m))
|}.
#[export] Instance memory_mongo : Mongo Memory := {|
  connect w := (Linked, w); log_update c i w := (Answered () None, w)
|}.

#[export] Instance memory_users_ok : CollectionOk Memory UserData groups_in.
Proof.
  split.
  - intros A r w Hr. cbn. pose proof (serve_effect r (stored w.1)) as He. pose proof (serve_indexed r (stored w.1) (stored_indexed _)) as Hi.
    destruct (serve r (stored w.1)) as [a m]. cbn in *. rewrite (stored_id m Hi). apply He; [|done].
    by apply indexed_spec, stored_indexed.
  - intros A r w. cbn. by destruct (serve r (stored w.1)).
  - intros w. apply indexed_spec, stored_indexed.
  - intros w. apply indexed_spec, stored_indexed.
Qed.

#[export] Instance memory_groups_ok : CollectionOk Memory GroupData users_in.
Proof.
  split.
  - intros A r w Hr. cbn. pose proof (serve_effect r (stored w.2)) as He. pose proof (serve_indexed r (stored w.2) (stored_indexed _)) as Hi.
    destruct (serve r (stored w.2)) as [a m]. cbn in *. rewrite (stored_id m Hi). apply He; [|done].
    by apply indexed_spec, stored_indexed.
  - intros A r w. cbn. by destruct (serve r (stored w.2)).
  - intros w. apply indexed_spec, stored_indexed.
  - intros w. apply indexed_spec, stored_indexed.
Qed.

#[export] Instance memory_mongo_ok : MongoOk Memory (λ w, (users_in w, groups_in w)).
Proof. split; done. Qed.

#[export] Instance memory_users_reliable : Reliable Memory UserData.
Proof.
  split; [done..|]. intros A r w. cbn. pose proof (serve_reliable r (stored w.1) (stored_indexed _)) as Hr.
  by destruct (serve r (stored w.1)).
Qed.

#[export] Instance memory_groups_reliable : Reliable Memory GroupData.
Proof.
  split; [done..|]. intros A r w. cbn. pose proof (serve_reliable r (stored w.2) (stored_indexed _)) as Hr.
  by destruct (serve r (stored w.2)).
Qed.
