(* ===== verification/Saves.v ===== *)
(** * What the setters of a user save

    A rule of inference per construct of the setters of User.v: what holds of the
    record in memory, and of every record that is saved, when it holds at the
    start.  The setters are then read off. *)

From stdpp Require Import prelude gmap strings sorting.
From S2P Require Import Prelude CxxString Acl Passwd Transaction UserData User Accounts.
Local Open Scope Z_scope.
Local Open Scope list_scope.

(** [m] keeps [P] of the record and saves only records with [P], and only in the
    ways [K]. *)
Definition stays (P : UserData → Prop) (K : Save → Prop) {A} (m : M Save UserData A) : Prop := ∀ st, P (data st) →
  P (data (m st).2) ∧ ∃ l, saved (m st).2 = saved st ++ l ∧ Forall (λ sd, K sd.1 ∧ P sd.2) l.

Create HintDb stays.

Section rules.
Context (P : UserData → Prop) (K : Save → Prop).

Lemma stays_ret {A} (a : A) : stays P K (ret a).
Proof. intros st Hs. split; [done|]. exists []. split; [by rewrite app_nil_r|done]. Qed.

Lemma stays_gets {A} (f : UserData → A) : stays P K (gets f).
Proof. intros st Hs. split; [done|]. exists []. split; [by rewrite app_nil_r|done]. Qed.

Lemma stays_modify f : (∀ d, P d → P (f d)) → stays P K (modify f).
Proof. intros Hf st Hs. split; [by apply Hf|]. exists []. split; [by rewrite app_nil_r|done]. Qed.

Lemma stays_save throws s : K s → stays P K (save throws s).
Proof.
  intros Hk st Hs. unfold save. destruct (throws s (data st)).
  - split; [done|]. exists []. split; [by rewrite app_nil_r|done].
  - split; [done|]. exists [(s, data st)]. split; [done|]. by apply Forall_singleton.
Qed.

Lemma stays_bind {A B} (m : M Save UserData A) (k : A → M Save UserData B) :
  stays P K m → (∀ a, stays P K (k a)) → stays P K (bind m k).
Proof.
  intros Hm Hk st Hs. unfold bind. destruct (Hm st Hs) as [Hd (l & El & Hl)]. destruct (m st) as [[a|e] st1]; cbn in *; [|eauto].
  destruct (Hk a st1 Hd) as [Hd2 (l2 & El2 & Hl2)]. split; [done|]. exists (l ++ l2).
  split; [by rewrite El2, El, app_assoc|by apply Forall_app].
Qed.

(** What a transaction puts back is a value the record had. *)
Lemma stays_transaction {A B} (f : field UserData A) (m : M Save UserData B) :
  (∀ d d', P d → P d' → P (set f (get f d) d')) → stays P K m → stays P K (transaction f m).
Proof.
  intros Hf Hm st Hs. unfold transaction. destruct (Hm st Hs) as [Hd Hl]. destruct (m st) as [[a|e] st1]; cbn in *; [done|].
  split; [by apply Hf|done].
Qed.

Lemma stays_if {A} (b : bool) (m1 m2 : M Save UserData A) : stays P K m1 → stays P K m2 → stays P K (if b then m1 else m2).
Proof. by destruct b. Qed.

Lemma stays_saves {A} (m : M Save UserData A) u : stays P K m → P u →
  Forall (λ sd, K sd.1 ∧ P sd.2) (saves_of u m) ∧ P (data (m (Store u [])).2).
Proof. intros Hm Hu. destruct (Hm (Store u []) Hu) as [Hd (l & El & Hl)]. unfold saves_of. by rewrite El. Qed.

End rules.

(** ** The same user, who has not become a deleted one *)

Definition same_user (u0 d : UserData) : Prop :=
  id d = id u0 ∧ name d = name u0 ∧ (HasFlag u0 Deleted = false → HasFlag d Deleted = false).

(** Every save but that of the name *)
Definition not_name (s : Save) : Prop := s ≠ SaveName.

Lemma same_user_refl u : same_user u u.
Proof. done. Qed.

Lemma HasFlag_elem u fl : HasFlag u fl = true ↔ flag_char fl ∈ flags u.
Proof. apply has_char_true. Qed.

Lemma HasFlag_false u fl : HasFlag u fl = false ↔ flag_char fl ∉ flags u.
Proof. rewrite <-HasFlag_elem. by destruct (HasFlag u fl). Qed.

Lemma erase_first_elem {A} `{EqDecision A} (x y : A) l : x ∈ erase_first y l → x ∈ l.
Proof. induction l as [|z l IH]; cbn; [done|]. case_decide; set_solver. Qed.

Lemma del_chars_elem c fl cur : c ∈ del_chars fl cur → c ∈ cur.
Proof.
  unfold del_chars. revert cur. induction fl as [|d fl IH]; intros cur; cbn; [done|].
  intros Hc%IH. by apply erase_first_elem in Hc.
Qed.

(** A field other than the id, the name and the flags *)
Class Irrelevant {A} (f : field UserData A) : Prop := {
  irrelevant_id v d : id (set f v d) = id d; irrelevant_name v d : name (set f v d) = name d;
  irrelevant_flags v d : flags (set f v d) = flags d
}.

Ltac solve_irrelevant := split; by intros ? [].
#[export] Instance irrelevant_ipMasks : Irrelevant f_ipMasks. Proof. solve_irrelevant. Qed.
#[export] Instance irrelevant_password : Irrelevant f_password. Proof. solve_irrelevant. Qed.
#[export] Instance irrelevant_salt : Irrelevant f_salt. Proof. solve_irrelevant. Qed.
#[export] Instance irrelevant_primaryGid : Irrelevant f_primaryGid. Proof. solve_irrelevant. Qed.
#[export] Instance irrelevant_secondaryGids : Irrelevant f_secondaryGids. Proof. solve_irrelevant. Qed.
#[export] Instance irrelevant_gadminGids : Irrelevant f_gadminGids. Proof. solve_irrelevant. Qed.
#[export] Instance irrelevant_weeklyAllotment : Irrelevant f_weeklyAllotment. Proof. solve_irrelevant. Qed.
#[export] Instance irrelevant_homeDir : Irrelevant f_homeDir. Proof. solve_irrelevant. Qed.
#[export] Instance irrelevant_startUpDir : Irrelevant f_startUpDir. Proof. solve_irrelevant. Qed.
#[export] Instance irrelevant_idleTime : Irrelevant f_idleTime. Proof. solve_irrelevant. Qed.
#[export] Instance irrelevant_expires : Irrelevant f_expires. Proof. solve_irrelevant. Qed.
#[export] Instance irrelevant_numLogins : Irrelevant f_numLogins. Proof. solve_irrelevant. Qed.
#[export] Instance irrelevant_comment : Irrelevant f_comment. Proof. solve_irrelevant. Qed.
#[export] Instance irrelevant_tagline : Irrelevant f_tagline. Proof. solve_irrelevant. Qed.
#[export] Instance irrelevant_maxDownSpeed : Irrelevant f_maxDownSpeed. Proof. solve_irrelevant. Qed.
#[export] Instance irrelevant_maxUpSpeed : Irrelevant f_maxUpSpeed. Proof. solve_irrelevant. Qed.
#[export] Instance irrelevant_maxSimDown : Irrelevant f_maxSimDown. Proof. solve_irrelevant. Qed.
#[export] Instance irrelevant_maxSimUp : Irrelevant f_maxSimUp. Proof. solve_irrelevant. Qed.
#[export] Instance irrelevant_ratio : Irrelevant f_ratio. Proof. solve_irrelevant. Qed.

Section same.
Context (u0 : UserData).
Abbreviation S_ := (stays (same_user u0) not_name).

Lemma same_user_set {A} (f : field UserData A) `{!Irrelevant f} v d : same_user u0 d → same_user u0 (set f v d).
Proof.
  intros (Hi & Hn & Hf). unfold same_user, HasFlag. by rewrite irrelevant_id, irrelevant_name, irrelevant_flags.
Qed.

Lemma same_user_flags fl d : same_user u0 d → (flag_char Deleted ∈ fl → flag_char Deleted ∈ flags d) → same_user u0 (set f_flags fl d).
Proof.
  intros (Hi & Hn & Hf) Hfl. split_and!; [by destruct d|by destruct d|]. intros H0. specialize (Hf H0).
  apply HasFlag_false in Hf. apply HasFlag_false. rewrite flags_set_flags. auto.
Qed.

Lemma S_ret {A} (a : A) : S_ (ret a). Proof. apply stays_ret. Qed.
Lemma S_gets {A} (f : UserData → A) : S_ (gets f). Proof. apply stays_gets. Qed.
Lemma S_bind {A B} (m : M Save UserData A) (k : A → M Save UserData B) : S_ m → (∀ a, S_ (k a)) → S_ (bind m k).
Proof. apply stays_bind. Qed.
Lemma S_if {A} (b : bool) (m1 m2 : M Save UserData A) : S_ m1 → S_ m2 → S_ (if b then m1 else m2).
Proof. apply stays_if. Qed.
Lemma S_save throws s : not_name s → S_ (save throws s). Proof. apply stays_save. Qed.
Lemma S_set {A} (f : field UserData A) `{!Irrelevant f} v : S_ (modify (set f v)).
Proof. apply stays_modify. intros d. by apply same_user_set. Qed.
Lemma S_transaction {A B} (f : field UserData A) `{!Irrelevant f} (m : M Save UserData B) : S_ m → S_ (transaction f m).
Proof. apply stays_transaction. intros d d' _ Hd. by apply same_user_set. Qed.
Lemma S_CleanGadminGIDs : S_ CleanGadminGIDs.
Proof. apply stays_modify. intros d Hd. by apply (same_user_set f_gadminGids). Qed.

(** A change of the flags that does not add that of the deleted *)
Lemma S_flags throws (h : str → str) : (∀ cur, flag_char Deleted ∈ h cur → flag_char Deleted ∈ cur) →
  S_ (transaction f_flags (bind (gets flags) (λ cur, bind (modify (set f_flags (h cur))) (λ _, save throws SaveFlags)))).
Proof.
  intros Hh. apply stays_transaction.
  - intros d d' (_ & _ & Hd) (Hi & Hn & _). split_and!; [by destruct d'|by destruct d'|].
    intros H0. rewrite <-(Hd H0). unfold HasFlag. by rewrite flags_set_flags.
  - intros st Hs. apply (S_save throws SaveFlags (λ E, ltac:(discriminate E))
      (Store (set f_flags (h (flags (data st))) (data st)) (saved st))).
    apply same_user_flags; [done|apply Hh].
Qed.

Lemma S_DelFlags throws fl : S_ (DelFlags throws fl).
Proof. apply (S_flags throws (del_chars fl)). intros cur. apply del_chars_elem. Qed.

Lemma S_AddFlags throws fl : flag_char Deleted ∉ fl → S_ (AddFlags throws fl).
Proof.
  intros Hfl. apply (S_flags throws (λ cur, sort_chars (add_chars fl cur))). intros cur.
  rewrite sort_chars_perm, (proj1 (add_chars_spec fl cur)). by intros [?|?].
Qed.

Lemma S_SetFlags throws fl : flag_char Deleted ∉ fl → S_ (SetFlags throws fl).
Proof. intros Hfl. by apply (S_flags throws (λ _, fl)). Qed.

Lemma S_DelFlag throws fl : S_ (DelFlag throws fl). Proof. apply S_DelFlags. Qed.
Lemma S_AddFlag throws fl : fl ≠ Deleted → S_ (AddFlag throws fl).
Proof. intros Hfl. apply S_AddFlags. intros E%list_elem_of_singleton. by destruct fl. Qed.

End same.

#[export] Hint Resolve S_ret S_gets S_bind S_if S_set S_transaction S_CleanGadminGIDs S_DelFlags S_AddFlags S_SetFlags
  S_DelFlag S_AddFlag : stays.
#[export] Hint Extern 1 (stays _ _ (save _ _)) => (apply S_save; discriminate) : stays.
#[export] Hint Extern 1 (not_name _) => discriminate : stays.
#[export] Hint Extern 2 (stays _ _ (match ?x with _ => _ end)) => destruct x : stays.

Section ops.
Context (u0 : UserData) (throws : Save → UserData → bool).
Abbreviation S_ := (stays (same_user u0) not_name).
Local Ltac read m := unfold m; auto 30 with stays typeclass_instances.

Lemma S_AddIPMask `{Fnmatch} ip : S_ (AddIPMask throws ip). Proof. read AddIPMask. Qed.
Lemma S_DelIPMask_index i : S_ (DelIPMask_index throws i). Proof. read DelIPMask_index. Qed.
Lemma S_ClearIPMasks : S_ (ClearIPMasks throws). Proof. read ClearIPMasks. Qed.
Lemma S_SetPasswordNoSave h salt pw : S_ (SetPasswordNoSave h salt pw). Proof. read SetPasswordNoSave. Qed.
Lemma S_SetPassword h salt pw : S_ (SetPassword throws h salt pw).
Proof. apply S_transaction; [apply _|]. apply S_bind; [apply S_SetPasswordNoSave|]. auto with stays. Qed.
Lemma S_SetPrimaryGID gid : S_ (SetPrimaryGID throws gid). Proof. read SetPrimaryGID. Qed.
Lemma S_assign_gids gids : S_ (assign_gids gids). Proof. read assign_gids. Qed.
Lemma S_AddGIDs gids : S_ (AddGIDs throws gids). Proof. read AddGIDs. Qed.
Lemma S_gid_transaction m : S_ m → S_ (gid_transaction m). Proof. read gid_transaction. Qed.
Lemma S_DelGIDs gids : S_ (DelGIDs throws gids). Proof. apply S_gid_transaction. auto 30 with stays typeclass_instances. Qed.
Lemma S_SetGIDs gids : S_ (SetGIDs throws gids).
Proof. apply S_gid_transaction. apply S_bind; [apply S_assign_gids|]. auto 30 with stays typeclass_instances. Qed.
Lemma S_ToggleGIDs gids : S_ (ToggleGIDs throws gids).
Proof.
  apply S_gid_transaction. apply S_bind; [apply S_gets|]. intros p. apply S_bind; [apply S_gets|]. intros s.
  apply S_bind; [apply S_assign_gids|]. auto 30 with stays typeclass_instances.
Qed.
Lemma S_ToggleGadminGID gid : S_ (ToggleGadminGID throws gid).
Proof. unfold ToggleGadminGID, AddGadminGID, DelGadminGID. auto 60 with stays typeclass_instances. Qed.
Lemma S_SetSectionWeeklyAllotment x a : S_ (SetSectionWeeklyAllotment throws x a). Proof. read SetSectionWeeklyAllotment. Qed.
Lemma S_SetSectionRatio x r : S_ (SetSectionRatio throws x r). Proof. read SetSectionRatio. Qed.

(** [Transaction(var, newValue)] and a save *)
Lemma S_transaction_set {A} (f : field UserData A) `{!Irrelevant f} v s : not_name s → S_ (transaction_set f v (save throws s)).
Proof. intros Hs. apply S_transaction; [done|]. apply S_bind; [by apply S_set|]. intros _. by apply S_save. Qed.

Lemma S_SetHomeDir v : S_ (SetHomeDir throws v). Proof. by apply S_transaction_set; [apply _|discriminate]. Qed.
Lemma S_SetStartUpDir v : S_ (SetStartUpDir throws v). Proof. by apply S_transaction_set; [apply _|discriminate]. Qed.
Lemma S_SetIdleTime v : S_ (SetIdleTime throws v). Proof. by apply S_transaction_set; [apply _|discriminate]. Qed.
Lemma S_SetExpires v : S_ (SetExpires throws v). Proof. by apply S_transaction_set; [apply _|discriminate]. Qed.
Lemma S_SetNumLogins v : S_ (SetNumLogins throws v). Proof. by apply S_transaction_set; [apply _|discriminate]. Qed.
Lemma S_SetComment v : S_ (SetComment throws v). Proof. by apply S_transaction_set; [apply _|discriminate]. Qed.
Lemma S_SetTagline v : S_ (SetTagline throws v). Proof. by apply S_transaction_set; [apply _|discriminate]. Qed.
Lemma S_SetMaxDownSpeed v : S_ (SetMaxDownSpeed throws v). Proof. by apply S_transaction_set; [apply _|discriminate]. Qed.
Lemma S_SetMaxUpSpeed v : S_ (SetMaxUpSpeed throws v). Proof. by apply S_transaction_set; [apply _|discriminate]. Qed.
Lemma S_SetMaxSimDown v : S_ (SetMaxSimDown throws v). Proof. by apply S_transaction_set; [apply _|discriminate]. Qed.
Lemma S_SetMaxSimUp v : S_ (SetMaxSimUp throws v). Proof. by apply S_transaction_set; [apply _|discriminate]. Qed.

End ops.

#[export] Hint Resolve S_AddIPMask S_DelIPMask_index S_ClearIPMasks S_SetPasswordNoSave S_SetPassword S_SetPrimaryGID S_AddGIDs S_DelGIDs
  S_SetGIDs S_ToggleGIDs S_ToggleGadminGID S_SetSectionWeeklyAllotment S_SetSectionRatio
  S_SetHomeDir S_SetStartUpDir S_SetIdleTime S_SetExpires S_SetNumLogins S_SetComment S_SetTagline S_SetMaxDownSpeed S_SetMaxUpSpeed S_SetMaxSimDown S_SetMaxSimUp : stays.
