(* ===== verification/SiteState.v ===== *)
(** * The state of a site command: cmd/command.hpp, cmd/error.hpp

    A site command works on the accounts in the database, asks the configuration
    what the user may do, and replies.  Its state is the database, the rules whose
    answers the code stores, the user of the session, and what the command has
    written: replies, lines of the log of site operations, and users to be kicked.
    The theorems of this file are about the questions: what is allowed does not
    change the rules, and is what the rules say. *)

From stdpp Require Import prelude gmap strings.
From S2P Require Import Prelude CxxString State Numbers Acl Strength Group Transaction UserData User Rights Policies Connection Accounts.
Local Open Scope Z_scope.
Local Open Scope list_scope.
Local Open Scope st_scope.

(** [PartReply], [Reply] *)
Inductive reply_line : Type := PartReply (code : Z) (text : str) | Reply (code : Z) (text : str).

(** [logs::Siteop], [logs::Security], [logs::Event] *)
Inductive record : Type :=
  | SiteopEntry (admin text : str) | SecurityEntry (what text : str) | EventEntry (what user group tagline : str).

Record Site (W : Type) := MkSite {
  db : Db W; acls : gmap str ACL; secureIp : list (entry IPStrength); securePass : list (entry PasswdStrength);
  self : UserData; replies : list reply_line; records : list record; kicks : list Z
}.
Arguments MkSite {W} db acls secureIp securePass self replies records kicks.
Arguments db {W} s : rename.
Arguments acls {W} s : rename.
Arguments secureIp {W} s : rename.
Arguments securePass {W} s : rename.
Arguments self {W} s : rename.
Arguments replies {W} s : rename.
Arguments records {W} s : rename.
Arguments kicks {W} s : rename.

Definition set_db {W} (v : Db W) (s : Site W) : Site W := MkSite v (acls s) (secureIp s) (securePass s) (self s) (replies s) (records s) (kicks s).
Definition set_acls {W} v (s : Site W) := MkSite (db s) v (secureIp s) (securePass s) (self s) (replies s) (records s) (kicks s).
Definition set_secureIp {W} v (s : Site W) := MkSite (db s) (acls s) v (securePass s) (self s) (replies s) (records s) (kicks s).
Definition set_securePass {W} v (s : Site W) := MkSite (db s) (acls s) (secureIp s) v (self s) (replies s) (records s) (kicks s).
Definition set_self {W} v (s : Site W) := MkSite (db s) (acls s) (secureIp s) (securePass s) v (replies s) (records s) (kicks s).
Definition set_replies {W} v (s : Site W) := MkSite (db s) (acls s) (secureIp s) (securePass s) (self s) v (records s) (kicks s).
Definition set_records {W} v (s : Site W) := MkSite (db s) (acls s) (secureIp s) (securePass s) (self s) (replies s) v (kicks s).
Definition set_kicks {W} v (s : Site W) := MkSite (db s) (acls s) (secureIp s) (securePass s) (self s) (replies s) (records s) v.

(** The exceptions that leave [Execute]; [OutOfRange] is that of [substr], and
    stands for an index out of range as well. *)
Inductive exit : Type := NoPostScript | SyntaxError_ | PermissionError | OutOfRange | Escaped (e : DBThrow).

(** What the commands ask of the configuration: whether the credits of a section
    are separate, the masters, and the limits *)
Record SiteConfig := {
  MaximumRatio : Z; Sections : gmap str bool; IsMaster : str → bool; BannedUsers : list str; TotalUsersLimit : Z
}.

Definition ActionNotOkay : Z := 550.
Definition CommandOkay : Z := 200.

Section state.
Context {W : Type} `{Mongo W, !Collection W UserData, !Collection W GroupData}.
Context `{Split, CaseConv, Fnmatch, RegexMatch}.
Context (ca : Caches) (config : SiteConfig).

Abbreviation C := (ST (Site W) exit).

Definition in_db {A} (m : ST (Db W) DBThrow A) : C A := λ s,
  let '(r, d) := m (db s) in (match r with Ok a => Ok a | Throw e => Throw (Escaped e) end, set_db d s).

Definition reply (code : Z) (text : str) : C unit := st_modify (λ s, set_replies (replies s ++ [Reply code text]) s).
Definition part_reply (code : Z) (text : str) : C unit := st_modify (λ s, set_replies (replies s ++ [PartReply code text]) s).
Definition write_record (r : record) : C unit := st_modify (λ s, set_records (records s ++ [r]) s).

(** [logs::Siteop(client.User().Name(), ...)] *)
Definition siteop (text : str) : C unit := u <- st_gets self;; write_record (SiteopEntry (name u) text).

(** [control.Reply(...); throw cmd::NoPostScriptError();] *)
Definition deny {A} (text : str) : C A := reply ActionNotOkay text;;; st_throw NoPostScript.
(** [control.Reply(...); return;] *)
Definition refuse (text : str) : C unit := reply ActionNotOkay text.

Definition arg (args : list str) (i : nat) : C str :=
  match args !! i with Some a => st_ret a | None => st_throw OutOfRange end.

(** [acl::AllowSiteCmd(client.User(), keyword)] *)
Definition allow (keyword : str) : C bool := λ s,
  let '(r, l) := AllowSiteCmd (GIDToName ca) (self s) keyword (acls s) in (Ok r, set_acls l s).

(** [acl::SecureIP] and [acl::SecurePass] for the user of the session *)
Definition secure_ip (ip : str) : C (option IPStrength) := λ s,
  let '(r, l) := SecureIP (GIDToName ca) (self s) ip (secureIp s) in (Ok r, set_secureIp l s).
Definition secure_pass (password : str) : C (option PasswdStrength) := λ s,
  let '(r, l) := SecurePass (GIDToName ca) (self s) password (securePass s) in (Ok r, set_securePass l s).

(** [a && b], [a || b] and [!a] *)
Definition andM (a b : C bool) : C bool := x <- a;; if x : bool then b else st_ret false.
Definition orM (a b : C bool) : C bool := x <- a;; if x : bool then st_ret true else b.
Definition notM (a : C bool) : C bool := x <- a;; st_ret (negb x).

Definition is_master : C bool := u <- st_gets self;; st_ret (IsMaster config (name u)).

(** [client.User().HasGadminGID(gid)] *)
Definition self_gadmin (gid : Z) : C bool := u <- st_gets self;; st_ret (HasGadminGID u gid).

(** acl/ipstrength.hpp and acl/passwdstrength.hpp *)
Definition IPStrength_String (s : IPStrength) : str :=
  to_string (numOctets s) ++ lit " octets" ++ (if hasIdent s then lit ", have an ident" else []) ++
  (if isHostname s then [] else lit ", not be a hostname").

Definition PasswdStrength_String (s : PasswdStrength) : str :=
  to_string (upperCase s) ++ lit " uppercase, " ++ to_string (lowerCase s) ++ lit " lowercase, " ++
  to_string (digits_ s) ++ lit " digits, " ++ to_string (others s) ++ lit " others, " ++ to_string (length_ s) ++ lit " length".

(** acl/util.cpp *)
Inductive ValidationType : Type := Username | Groupname | Tagline.

Definition validationPattern (t : ValidationType) : str :=
  match t with Username | Groupname => lit "\w+" | Tagline => lit "[^{}]+" end.

Definition Validate (t : ValidationType) (s : str) : bool := regex_match s (validationPattern t).

Definition GroupString (u : UserData) : str :=
  let shown gid := (if HasGadminGID u gid then lit "+" else []) ++ GIDToName ca gid in
  foldl (λ os gid, os ++ lit " " ++ shown gid) (shown (primaryGid u)) (secondaryGids u).

(** *** Rules *)

Lemma arg_holds args i (s : Site W) : st_holds (arg args i) s (λ r s', s' = s ∧ ∀ a, r = Ok a → args !! i = Some a).
Proof. unfold arg. destruct (args !! i) eqn:E; [|done]. split; [done|]. by intros ? [= <-]. Qed.

Lemma in_db_holds {A} (m : ST (Db W) DBThrow A) (s : Site W) (Q : result exit A → Site W → Prop) :
  st_holds m (db s) (λ r d, Q (match r with Ok a => Ok a | Throw e => Throw (Escaped e) end) (set_db d s)) → st_holds (in_db m) s Q.
Proof. unfold st_holds, in_db. by destruct (m (db s)) as [r d]. Qed.

Lemma in_db_run {A} (m : ST (Db W) DBThrow A) (s : Site W) a d : m (db s) = (Ok a, d) → in_db m s = (Ok a, set_db d s).
Proof. unfold in_db. by intros ->. Qed.

End state.
