(* ===== verification/SiteUsers.v ===== *)
(** * Site commands on users: cmd/site/commands.cpp, cmd/site/adduser.cpp

    ADDUSER, GADDUSER, TADDUSER, DELUSER, READD, PURGE, RENUSER, ADDIP, DELIP,
    CHPASS, PASSWD, CHGRP, SETPGRP, CHGADMIN, GIVE, TAKE, KICK and TAGLINE, over
    the accounts of Accounts.v.  A setter's result is the copy in memory, which is
    what the replies and the log are about. *)

From stdpp Require Import prelude gmap strings sorting.
From S2P Require Import Prelude CxxString State Numbers Settings Acl Strength NetFtp Group Transaction UserData User Rights Policies Credits Connection Accounts SiteState.
Local Open Scope Z_scope.
Local Open Scope list_scope.
Local Open Scope st_scope.

(** [util::ToString(kBytes / 1024.0, 2)] and hashing are parameters, as is how many
    logins a task that kicks a user finds, after the tasks so far. *)
Record SiteEnv := {
  MB_text : Z → str; HashPassword : str → str → str; salt_of : nat → str; kicked_by : list Z → Z → Z
}.

Section users.
Context {W : Type} `{Mongo W, !Collection W UserData, !Collection W GroupData}.
Context `{Split, CaseConv, Fnmatch, RegexMatch, BoostCast}.
Context (ca : Caches) (config : SiteConfig) (env : SiteEnv) (rounds : nat).

Abbreviation C := (ST (Site W) exit).
Local Abbreviation allow k := (allow ca (lit k)).
Local Abbreviation quoted s := (lit "'" ++ s ++ lit "'").

Definition no_user (n : str) : str := lit "User " ++ n ++ lit " doesn't exist.".

(** The user a command is about, or a reply *)
Definition with_user (n : str) (absent : C unit) (k : UserData → C unit) : C unit :=
  o <- in_db (Load n);; match o with Some u => k u | None => absent end.

Definition edit {A} (u : UserData) (m : Transaction.M Save UserData A) : C (A * UserData) := in_db (in_user u m).

(** Everyone's, one's own, or those of a group one administers *)
Definition may_edit (all own gadmin : str) (n : str) : C unit :=
  a <- SiteState.allow ca all;;
  if a : bool then st_ret tt
  else
    u <- st_gets self;;
    b <- (if bool_decide (n = name u) then SiteState.allow ca own else st_ret false);;
    if b : bool then st_ret tt
    else
      c <- andM (self_gadmin (NameToPrimaryGID ca n)) (SiteState.allow ca gadmin);;
      if c : bool then st_ret tt else st_throw PermissionError.

(** ** IP masks *)

(** [deleted] is that of [AddIPMask], which appends to it; it is not cleared. *)
Fixpoint ADDIP_loop (ips : list str) (u : UserData) (deleted : list str) (os : str) : C str :=
  match ips with
  | [] => st_ret os
  | ip :: ips =>
      if negb (has_char "@" ip) then
        ADDIP_loop ips u deleted (os ++ [LF] ++ lit "IP " ++ ip ++ lit " not added. Must be in format ident@address.")
      else
        strength <- secure_ip ca ip;;
        match strength with
        | Some minimum =>
            me <- st_gets self;;
            write_record (SecurityEntry (lit "INSECUREIP") (quoted (name me) ++ lit " attempted to add insecure ip " ++ quoted ip ++ lit " to " ++ quoted (name u)));;;
            ADDIP_loop ips u deleted (os ++ [LF] ++ lit "IP " ++ ip ++ lit " not added: Must contain " ++ IPStrength_String minimum ++ lit ".")
        | None =>
            r <- edit u (AddIPMask never ip);;
            let '((added, removed), u) := r in
            if negb added then
              ADDIP_loop ips u deleted (os ++ [LF] ++ lit "IP " ++ ip ++ lit " not added: Wider matching mask already exists.")
            else
              let deleted := deleted ++ removed in
              siteop (lit "added ip " ++ quoted ip ++ lit " to " ++ quoted (name u));;;
              st_iter (λ del, siteop (lit "deleted ip " ++ quoted del ++ lit " from " ++ quoted (name u))) deleted;;;
              ADDIP_loop ips u deleted
                (foldl (λ os del, os ++ [LF] ++ lit "Auto-removed unncessary IP " ++ del ++ lit "!")
                   (os ++ [LF] ++ lit "IP " ++ ip ++ lit " added successfully.") deleted)
        end
  end.

Definition ADDIPCommand (args : list str) : C unit :=
  a0 <- arg args 0;; a1 <- arg args 1;;
  (if bool_decide (a0 = lit "ADDIP") then may_edit (lit "addip") (lit "addipown") (lit "addipgadmin") a1 else st_ret tt);;;
  with_user a1 (refuse (no_user a1)) (λ u,
    os <- ADDIP_loop (drop 2 args) u [] (lit "Adding IPs to " ++ name u ++ lit ":");;
    reply CommandOkay (os ++ [LF] ++ lit "Command finished.")).

(** An index, a mask of the user, or a star for all: what to delete, or a reply *)
Inductive selection : Type := All | Indexes (l : list Z) | Refused (text : str).

Fixpoint DELIP_select (a1 : str) (masks words : list str) (indexes : list Z) : selection :=
  match words with
  | [] => Indexes indexes
  | w :: words =>
      if bool_decide (w = lit "*") then All
      else
        match lexical_cast INT_MIN INT_MAX w with
        | Some index =>
            if (index <? 0) || (Z.of_nat (length masks) - 1 <? index) then Refused (lit "IP mask index out of range.")
            else DELIP_select a1 masks words (indexes ++ [index])
        | None =>
            match list_find (.= w) masks with
            | Some (i, _) => DELIP_select a1 masks words (indexes ++ [Z.of_nat i])
            | None => Refused (lit "No IP mask matching " ++ w ++ lit " exists for " ++ a1 ++ lit ".")
            end
        end
  end.

Definition ip_deleted (u : UserData) (mask : str) : C unit :=
  siteop (lit "deleted ip " ++ quoted mask ++ lit " from " ++ quoted (name u)).
Definition ip_deleted_text (os mask : str) : str := os ++ [LF] ++ lit "IP " ++ mask ++ lit " deleted successfully.".

(** From the largest index to the smallest *)
Fixpoint DELIP_loop (indexes : list Z) (u : UserData) (os : str) : C str :=
  match indexes with
  | [] => st_ret os
  | i :: indexes =>
      r <- edit u (DelIPMask_index never (Z.to_nat i));;
      match r with
      | (Some mask, u) => ip_deleted u mask;;; DELIP_loop indexes u (ip_deleted_text os mask)
      | (None, _) => st_throw OutOfRange
      end
  end.

Definition DELIPCommand (args : list str) : C unit :=
  a1 <- arg args 1;;
  may_edit (lit "delip") (lit "delipown") (lit "delipgadmin") a1;;;
  with_user a1 (refuse (no_user a1)) (λ u,
    let os := lit "Deleting IPs from " ++ name u in
    match DELIP_select a1 (ipMasks u) (drop 2 args) [] with
    | Refused text => refuse text
    | All =>
        edit u (ClearIPMasks never);;;
        st_iter (ip_deleted u) (ipMasks u);;;
        reply CommandOkay (foldl ip_deleted_text os (ipMasks u) ++ [LF] ++ lit "Command finished.")
    | Indexes l =>
        os <- DELIP_loop (reverse (merge_sort Z.le l)) u os;;
        reply CommandOkay (os ++ [LF] ++ lit "Command finished.")
    end).

(** ** Passwords *)

(** Without either keyword, too, the command goes on. *)
Definition unless_gadmin (all gadmin : str) (n : str) : C unit :=
  b <- andM (notM (SiteState.allow ca all)) (andM (SiteState.allow ca gadmin) (notM (self_gadmin (NameToPrimaryGID ca n))));;
  if b : bool then st_throw PermissionError else st_ret tt.

Definition set_password (u : UserData) (pw : str) : C (unit * UserData) :=
  n <- st_gets (λ s, length (records s));; edit u (SetPassword never (HashPassword env) (salt_of env n) pw).

Definition CHPASSCommand (args : list str) : C unit :=
  a0 <- arg args 0;; a1 <- arg args 1;;
  (if bool_decide (a0 = lit "CHPASS") then unless_gadmin (lit "chpass") (lit "chpassgadmin") a1 else st_ret tt);;;
  a2 <- arg args 2;;
  strength <- secure_pass ca a2;;
  match strength with
  | Some minimum =>
      refuse (lit "Password not strong enough. Must meet the following minimum criteria:" ++ [LF] ++ PasswdStrength_String minimum ++ lit ".")
  | None =>
      with_user a1 (refuse (no_user a1)) (λ u,
        r <- set_password u a2;;
        reply CommandOkay (lit "Password changed.");;;
        siteop (lit "changed password for " ++ quoted (name r.2)))
  end.

Definition PASSWDCommand (args : list str) : C unit :=
  me <- st_gets self;; a1 <- arg args 1;;
  CHPASSCommand (Split_ (lit "PASSWD " ++ name me ++ lit " " ++ a1) (lit " ") false).

(** ** Groups of a user *)

Definition CHGADMINCommand (args : list str) : C unit :=
  a1 <- arg args 1;; a2 <- arg args 2;;
  let gid := NameToGID ca a2 in
  if gid =? -1 then refuse (lit "Group " ++ a2 ++ lit " doesn't exist.")
  else with_user a1 (refuse (no_user a1)) (λ u,
    if negb (HasGID u gid) then refuse (lit "User " ++ a1 ++ lit " is not a member of " ++ a2 ++ lit ".")
    else
      r <- edit u (ToggleGadminGID never gid);;
      reply CommandOkay (lit "Gadmin flag " ++ (if r.1 then lit "added to" else lit "removed from") ++ lit " " ++ a1 ++ lit " for " ++ a2 ++ lit ".");;;
      siteop ((if r.1 then lit "gave gadmin rights to " else lit "removed gadmin rights from ") ++ quoted (name r.2) ++ lit " for " ++ quoted a2)).

(** The gids of the groups named, or a reply *)
Fixpoint CHGRP_gids (words : list str) (gids : list Z) : str + list Z :=
  match words with
  | [] => inr gids
  | w :: words =>
      if bool_decide (w = lit "default") then inl (lit "The default template group cannot have members.")
      else if NameToGID ca w =? -1 then inl (lit "Group " ++ w ++ lit " doesn't exist.")
      else CHGRP_gids words (gids ++ [NameToGID ca w])
  end.

Definition CHGRP_method (a2 : str) : (list Z → Transaction.M Save UserData unit) * nat :=
  if bool_decide (a2 = lit "-") then (DelGIDs never, 3%nat)
  else if bool_decide (a2 = lit "=") then (SetGIDs never, 3%nat)
  else if bool_decide (a2 = lit "+") then (AddGIDs never, 3%nat)
  else (ToggleGIDs never, 2%nat).

Definition CHGRPCommand (args : list str) : C unit :=
  a1 <- arg args 1;;
  with_user a1 (refuse (no_user a1)) (λ u,
    a2 <- arg args 2;;
    let '(go, first) := CHGRP_method a2 in
    match drop first args with
    | [] => st_throw SyntaxError_
    | words =>
        match CHGRP_gids words [] with
        | inl text => refuse text
        | inr gids =>
            r <- edit u (go gids);;
            let u := r.2 in
            (if primaryGid u =? -1 then reply CommandOkay (lit "User " ++ name u ++ lit " now has no groups.")
             else reply CommandOkay (lit "User " ++ name u ++ lit " now has groups: " ++ GroupString ca u));;;
            siteop (lit "changed groups for " ++ quoted (name u) ++ lit " to " ++ quoted (GroupString ca u))
        end
    end).

Definition SETPGRPCommand (args : list str) : C unit :=
  a1 <- arg args 1;;
  with_user a1 (refuse (no_user a1)) (λ u,
    a2 <- arg args 2;;
    let gid := NameToGID ca a2 in
    let oldGID := primaryGid u in
    if gid <? 0 then refuse (lit "Group " ++ a2 ++ lit " doesn't exist.")
    else if bool_decide (a2 = lit "default") then refuse (lit "The default template group cannot have members.")
    else if oldGID =? gid then refuse (lit "Group " ++ a2 ++ lit " is already primary for " ++ a1 ++ lit ".")
    else
      r <- edit u (SetPrimaryGID never gid);;
      reply CommandOkay
        ((if oldGID =? -1 then [] else lit "Moved old primary group " ++ GIDToName ca oldGID ++ lit " to secondary." ++ [LF]) ++
         lit "Set primary group for " ++ a1 ++ lit " to: " ++ a2);;;
      siteop (lit "set primary group for " ++ quoted (name r.2) ++ lit " to " ++ quoted (GIDToName ca (primaryGid r.2)))).

(** ** Deleting *)

(** [KickUser], pushed and waited for *)
Definition kick (uid : Z) : C Z :=
  n <- st_gets (λ s, kicked_by env (kicks s) uid);; st_modify (λ s, set_kicks (kicks s ++ [uid]) s);;; st_ret n.

Definition required_user (u : UserData) : bool :=
  bool_decide (name u = lit "default") || (id u =? 0) || (id u =? 1).

Definition DELUSERCommand (args : list str) : C unit :=
  a1 <- arg args 1;;
  unless_gadmin (lit "deluser") (lit "delusergadmin") a1;;;
  with_user a1 (deny (no_user a1)) (λ u,
    b <- (if HasFlag u Siteop then notM (is_master config) else st_ret false);;
    if b : bool then deny (lit "Only masters can delete other siteops.")
    else if required_user u then deny (lit "That user is required by the server so cannot be deleted.")
    else if HasFlag u Deleted then deny (lit "User " ++ name u ++ lit " is already deleted.")
    else
      r <- edit u (AddFlag never Deleted);;
      kicked <- kick (id u);;
      reply CommandOkay (lit "User " ++ a1 ++ lit " has been deleted." ++
        (if kicked =? 0 then [] else lit " (" ++ to_string kicked ++ lit " login(s) kicked)"));;;
      siteop (lit "deleted user " ++ quoted (name r.2))).

Definition READDCommand (args : list str) : C unit :=
  a1 <- arg args 1;;
  gadmin <- andM (notM (allow "readd")) (allow "readdgadmin");;
  b <- (if gadmin : bool then notM (self_gadmin (NameToPrimaryGID ca a1)) else st_ret false);;
  if b : bool then st_throw PermissionError
  else with_user a1 (refuse (no_user a1)) (λ u,
    if negb (HasFlag u Deleted) then refuse (lit "User " ++ a1 ++ lit " is not deleted.")
    else
      let go :=
        r <- edit u (DelFlag never Deleted);;
        reply CommandOkay (lit "User " ++ a1 ++ lit " has been readded.");;;
        siteop (lit "readded " ++ quoted (name r.2)) in
      if gadmin then
        group <- in_db (Group_Load_id (primaryGid u));;
        match group with
        | None => refuse (lit "Unable to load group " ++ GIDToName ca (primaryGid u) ++ lit ".")
        | Some g =>
            n <- in_db (NumSlotsUsed g);;
            if slots g <=? n then refuse (lit "Maximum number of slots exceeded for group " ++ Group.name g ++ lit ".") else go
        end
      else go).

Definition purge (u : UserData) : C unit := in_db (db_Purge u);;; siteop (lit "purged user " ++ quoted (name u)).

Definition PurgeAll (args : list str) : C unit :=
  users <- in_db (GetUsers ca (lit "*"));;
  match filter (λ u, HasFlag u Deleted = true) users with
  | [] => refuse (lit "No deleted users to purge.")
  | users =>
      st_iter purge users;;;
      a1 <- arg args 1;;
      if (length users =? 1)%nat then reply CommandOkay (lit "User " ++ a1 ++ lit " has been purged.")
      else reply CommandOkay (lit "Purged " ++ to_string (Z.of_nat (length users)) ++ lit " users.")
  end.

Definition PURGECommand (args : list str) : C unit :=
  a1 <- arg args 1;;
  if bool_decide (a1 = lit "*") then PurgeAll args
  else with_user a1 (refuse (no_user a1)) (λ u,
    if negb (HasFlag u Deleted) then refuse (lit "User " ++ a1 ++ lit " is not deleted.")
    else
      in_db (db_Purge u);;;
      reply CommandOkay (lit "User " ++ a1 ++ lit " has been purged.");;;
      siteop (lit "purged user " ++ quoted (name u))).

Definition RENUSERCommand (args : list str) : C unit :=
  a2 <- arg args 2;;
  if negb (Validate Username a2) then refuse (lit "Username contains invalid characters")
  else
    a1 <- arg args 1;;
    with_user a1 (refuse (no_user a1)) (λ u,
      b <- (if HasFlag u Siteop then notM (is_master config) else st_ret false);;
      if b : bool then refuse (lit "Only masters can rename other siteops.")
      else if bool_decide (name u = lit "default") then refuse (lit "Cannot rename default template user.")
      else
        r <- in_db (User_Rename u a2);;
        if negb r.1 then refuse (lit "User " ++ a2 ++ lit " already exists.")
        else
          reply CommandOkay (lit "User " ++ a1 ++ lit " renamed to " ++ a2 ++ lit ".");;;
          siteop (lit "RENUSER")).

(** ** Adding: cmd/site/adduser.cpp *)

Definition Addips (user : str) (ips : list str) : C unit :=
  ADDIPCommand (Split_ (foldl (λ s ip, s ++ lit " " ++ ip) (lit "ADDUSER " ++ user) ips) (lit " ") false).

(** The group a new user goes to, if to one, with a free slot for a group admin *)
Definition ADDUSER_group (groupName : str) (gadmin : bool) : C (option GroupData) :=
  if bool_decide (groupName = []) then st_ret None
  else
    group <- in_db (Group_Load groupName);;
    match group with
    | None => deny (lit "Group " ++ groupName ++ lit " doesn't exist.")
    | Some g =>
        full <- (if gadmin then n <- in_db (NumSlotsUsed g);; st_ret (slots g <=? n) else st_ret false);;
        if full : bool then deny (lit "Maximum number of slots exceeded for group " ++ groupName ++ lit ".") else st_ret (Some g)
    end.

(** The template: that of the caller, or the default *)
Definition ADDUSER_template (templateUser : option UserData) : C (UserData * bool) :=
  match templateUser with
  | Some t => st_ret (t, false)
  | None =>
      o <- in_db (Load (lit "default"));;
      match o with Some t => st_ret (t, true) | None => deny (lit "Unable to load default user template.") end
  end.

Definition ADDUSER_limit : C unit :=
  if TotalUsersLimit config =? -1 then st_ret tt
  else
    n <- in_db (TotalUsers ca);;
    if TotalUsersLimit config <=? n
    then deny (lit "Maximum users added limit of " ++ to_string (TotalUsersLimit config) ++ lit " has been reached.")
    else st_ret tt.

(** Where the name, the password and the limits are found good, and the new user *)
Definition ADDUSER_create (args : list str) (templateUser : option UserData) : C (UserData * UserData * bool) :=
  a1 <- arg args 1;;
  (if negb (Validate Username a1) then deny (lit "Username contains invalid characters") else st_ret tt);;;
  a2 <- arg args 2;;
  strength <- secure_pass ca a2;;
  (match strength with
   | Some minimum => deny (lit "Password not strong enough. Must meed the following minimum criteria:" ++ [LF] ++ PasswdStrength_String minimum ++ lit ".")
   | None => st_ret tt
   end);;;
  t <- ADDUSER_template templateUser;;
  (if contains a1 (BannedUsers config) then deny (lit "User " ++ a1 ++ lit " is banned.") else st_ret tt);;;
  ADDUSER_limit;;;
  me <- st_gets self;; n <- st_gets (λ s, length (records s));;
  o <- in_db (FromTemplate rounds (HashPassword env) (salt_of env n) a1 a2 (id me) t.1);;
  match o with
  | None => deny (lit "User " ++ a1 ++ lit " already exists.")
  | Some u => st_ret (u, t.1, t.2)
  end.

(** [ADDUSERCommand::Execute] with the members the other two overloads set *)
Definition ADDUSER_execute (args : list str) (groupName : str) (gadmin : bool) (templateUser : option UserData) : C unit :=
  a0 <- arg args 0;;
  g <- (if bool_decide (groupName = []) && bool_decide (templateUser = None) && bool_decide (a0 = lit "ADDUSER")
        then andM (notM (allow "adduser")) (allow "addusergadmin") else st_ret false);;
  me <- st_gets self;;
  let groupName := if g : bool then GIDToName ca (primaryGid me) else groupName in
  if g && bool_decide (groupName = lit "unknown") then st_throw PermissionError
  else
    group <- ADDUSER_group groupName (g || gadmin);;
    r <- ADDUSER_create args templateUser;;
    let '(u, t, defaultTemplate) := r in
    siteop (lit "added user " ++ quoted (name u) ++ lit " based on template " ++ quoted (name t));;;
    a1 <- arg args 1;;
    in_group <- (match group with
      | Some gr =>
          r <- edit u (SetPrimaryGID never (Group.id gr));;
          siteop (lit "set primary group for " ++ quoted (name r.2) ++ lit " to " ++ quoted (GIDToName ca (primaryGid r.2)));;;
          st_ret (lit " to group " ++ Group.name gr)
      | None => st_ret []
      end);;
    let os := lit "Added user " ++ a1 ++ in_group ++
              (if defaultTemplate then [] else lit " based on template " ++ name t) ++ lit "." in
    if (3 <? length args)%nat then part_reply CommandOkay os;;; Addips a1 (drop 3 args)
    else reply CommandOkay os.

Definition ADDUSERCommand (args : list str) : C unit := ADDUSER_execute args [] false None.

(** The words of the command it passes on *)
Definition passed_on (command first : str) (rest : list str) : list str :=
  Split_ (foldl (λ s w, s ++ lit " " ++ w) (command ++ lit " " ++ first) rest) (lit " ") false.

Definition GADDUSERCommand (args : list str) : C unit :=
  a1 <- arg args 1;;
  gadmin <- andM (notM (allow "gadduser")) (allow "gaddusergadmin");;
  b <- (if gadmin : bool then notM (self_gadmin (NameToGID ca a1)) else st_ret false);;
  if b : bool then st_throw PermissionError
  else a2 <- arg args 2;; ADDUSER_execute (passed_on (lit "GADDUSER") a2 (drop 3 args)) a1 gadmin None.

Definition TADDUSERCommand (args : list str) : C unit :=
  a1 <- arg args 1;;
  with_user a1 (deny (lit "Template user " ++ a1 ++ lit " doesn't exist.")) (λ t,
    if negb (HasFlag t Template) then deny (name t ++ lit " is not a template user.")
    else a2 <- arg args 2;; ADDUSER_execute (passed_on (lit "TADDUSER") a2 (drop 3 args)) [] false (Some t)).

(** ** Credits *)

(** The section after -S, and the other words *)
Definition credits_section (args : list str) : C (option (str * list str)) :=
  a1 <- arg args 1;;
  if negb (bool_decide (to_lower a1 = lit "-s")) then st_ret (Some ([], args))
  else
    a2 <- arg args 2;;
    if (length args <? 5)%nat then st_throw SyntaxError_
    else
      let section := to_upper a2 in
      match Sections config !! section with
      | None => refuse (lit "Section " ++ section ++ lit " doesn't exist.");;; st_ret None
      | Some false => refuse (lit "Section " ++ section ++ lit " dosen't have separate credits.");;; st_ret None
      | Some true => st_ret (Some (section, take 1 args ++ drop 3 args))
      end.

Definition amount (s : str) : C Z := match ParseSize s with Ok n => st_ret n | Throw _ => st_throw SyntaxError_ end.

(** What the giver pays: whether to go on, and what he is told *)
Definition pay_own (section : str) (kBytes : Z) : C (option (bool * str)) :=
  own <- andM (allow "giveown") (notM (allow "give"));;
  if negb own then st_ret (Some (false, []))
  else
    me <- st_gets self;;
    let ratio := SectionRatio me section in
    if (ratio =? 0) || (ratio =? -1) && (DefaultRatio me =? 0) then
      refuse (lit "Not allowed to give credits when you have leech!");;; st_ret None
    else
      ok <- in_db (db_DecrCredits (id me) section kBytes false);;
      if negb ok then refuse (lit "Not enough credits to do that.");;; st_ret None
      else st_ret (Some (true, lit "Taken " ++ to_string kBytes ++ lit "KB credits from you!" ++ [LF])).

Definition on_section (section : str) : str := if bool_decide (section = []) then [] else lit " on section " ++ section.

Definition GIVECommand (args : list str) : C unit :=
  s <- credits_section args;;
  match s with
  | None => st_ret tt
  | Some (section, args) =>
      a1 <- arg args 1;;
      with_user a1 (refuse (no_user a1)) (λ u,
        a2 <- arg args 2;; kBytes <- amount a2;;
        own <- pay_own section kBytes;;
        match own with
        | None => st_ret tt
        | Some (own, os) =>
            in_db (db_IncrCredits (id u) section kBytes);;;
            reply CommandOkay (os ++ lit "Given " ++ MB_text env kBytes ++ lit "MB credits to " ++ name u ++ on_section section ++ lit ".");;;
            if own then st_ret tt
            else siteop (lit "gave " ++ quoted (to_string kBytes) ++ lit " credits to " ++ quoted (name u) ++
                         (if bool_decide (section = []) then [] else lit " on section " ++ quoted section))
        end)
  end.

Definition TAKECommand (args : list str) : C unit :=
  s <- credits_section args;;
  match s with
  | None => st_ret tt
  | Some (section, args) =>
      a1 <- arg args 1;;
      with_user a1 (refuse (no_user a1)) (λ u,
        a2 <- arg args 2;; kBytes <- amount a2;;
        in_db (db_DecrCredits (id u) section kBytes true);;;
        reply CommandOkay (lit "Taken " ++ MB_text env kBytes ++ lit "MB credits from " ++ name u ++ on_section section ++ lit ".");;;
        siteop (lit "took " ++ quoted (to_string kBytes) ++ lit " credits from " ++ quoted (name u) ++
                (if bool_decide (section = []) then [] else lit " on section " ++ quoted section)))
  end.

(** ** KICK and TAGLINE *)

Definition KICKCommand (args : list str) : C unit :=
  a1 <- arg args 1;;
  with_user a1 (deny (no_user a1)) (λ u,
    me <- st_gets self;;
    if HasFlag u Siteop && negb (id u =? id me) then deny (lit "Cannot kick a siteop.")
    else
      kicked <- kick (id u);;
      if kicked =? 0 then reply CommandOkay (lit "User " ++ a1 ++ lit " is not online.");;; st_throw NoPostScript
      else
        reply CommandOkay (lit "Kicked " ++ a1 ++ lit " (" ++ to_string kicked ++ lit " login" ++ (if kicked =? 1 then [] else lit "s") ++ lit ").");;;
        siteop (lit "kicked " ++ quoted (name u) ++ lit ", " ++ quoted (to_string kicked) ++ lit " logins")).

Definition TAGLINECommand (argStr : str) : C unit :=
  if negb (Validate Tagline argStr) then refuse (lit "Tagline contains invalid characters")
  else
    me <- st_gets self;;
    r <- edit me (SetTagline never argStr);;
    st_modify (set_self r.2);;;
    reply CommandOkay (lit "New Tagline: " ++ argStr);;;
    write_record (EventEntry (lit "TAGLINE") (name r.2) (GIDToName ca (primaryGid r.2)) (tagline r.2)).

End users.
