(* ===== verification/SiteChange.v ===== *)
(** * SITE CHANGE: cmd/site/change.cpp

    The table of settings, the check of a new value for each, and the loop that
    sets it for the users chosen.  A check gives the text shown, whether only group
    admins allow the change, and what to do with each user, which ends the loop when
    it says no. *)

From stdpp Require Import prelude gmap strings.
From S2P Require Import Prelude CxxString State Numbers Settings Acl Strength Group Transaction UserData User Rights Policies Connection Accounts SiteState.
Local Open Scope Z_scope.
Local Open Scope list_scope.
Local Open Scope st_scope.

Section change.
Context {W : Type} `{Mongo W, !Collection W UserData, !Collection W GroupData}.
Context `{Split, CaseConv, Fnmatch, RegexMatch, ReplaceAll}.
Context (ca : Caches) (config : SiteConfig).
(** [fs::PathFromUser], and boost's date of a text in the form 2013-1-31, as a day *)
Context (PathFromUser : str → str) (from_simple_string : str → option Z).

Abbreviation C := (ST (Site W) exit).
Local Abbreviation allow k := (allow ca (lit k)).

(** [SetFunction], with the user after it *)
Definition SetFunction : Type := UserData → C (bool * UserData).

Record Checked := { gadmin : bool; display : str; set_ : SetFunction }.

Definition checked (d : str) (f : SetFunction) : C Checked := st_ret {| gadmin := false; display := d; set_ := f |}.

(** [return true] after a setter *)
Definition setter (m : Transaction.M Save UserData unit) : SetFunction := λ u,
  r <- in_db (in_user u m);; st_ret (true, r.2).

(** A number, or a syntax error *)
Definition number (s : str) (least : Z) : C Z :=
  match StrToInt s with
  | Some n => if n <? least then st_throw SyntaxError_ else st_ret n
  | None => st_throw SyntaxError_
  end.

Definition size (s : str) : C Z := match ParseSize s with Ok n => st_ret n | Throw _ => st_throw SyntaxError_ end.

(** [!AllowSiteCmd("change") && AllowSiteCmd("changegadmin")] *)
Definition only_gadmin : C bool := andM (notM (allow "change")) (allow "changegadmin").

Definition too_large : str := lit "Ratio must be no larger than " ++ to_string (MaximumRatio config) ++ lit ".".
Definition no_section (section : str) : str := lit "Section " ++ section ++ lit " doesn't exist.".

(** Why a group admin may not make a user of his group a leech *)
Definition leech_refused (u : UserData) : C (option str) :=
  group <- in_db (Group_Load_id (primaryGid u));;
  match group with
  | None => st_ret (Some (lit "Unable to load group profile for " ++ GIDToName ca (primaryGid u) ++ lit "."))
  | Some g =>
      n <- in_db (NumLeeches g);;
      st_ret (if leechSlots g <=? n then Some (lit "Maximum number of leech slots exceeded for group " ++ Group.name g ++ lit ".") else None)
  end.

(** The reply in part, and no more users *)
Definition unless_refused (u : UserData) (why : option str) (f : SetFunction) : C (bool * UserData) :=
  match why with
  | Some text => part_reply CommandOkay text;;; st_ret (false, u)
  | None => f u
  end.

Definition CheckRatio (args : list str) : C Checked :=
  g <- only_gadmin;;
  a3 <- arg args 3;; n <- number a3 (-1);;
  if MaximumRatio config <? n then deny too_large
  else
    n <- (if n =? -1 then
            o <- in_db (Load (lit "default"));;
            match o with Some u => st_ret (DefaultRatio u) | None => deny (lit "Unable to load default user template.") end
          else if g && (0 <? n) then deny (lit "Gadmin can only set ratio 0 (unlimited) or -1 (default).")
          else st_ret n);;
    st_ret {| gadmin := g;
              display := if n =? 0 then lit "Unlimited" else lit "1:" ++ to_string n;
              set_ u := why <- (if g && (n =? 0) then leech_refused u else st_ret None);;
                        unless_refused u why (setter (SetSectionRatio never [] n)) |}.

(** The code tests for four arguments and uses the fifth. *)
Definition CheckSectionRatio (args : list str) : C Checked :=
  if (length args <? 4)%nat then st_throw SyntaxError_
  else
    a3 <- arg args 3;;
    let section := to_upper a3 in
    match Sections config !! section with
    | None => deny (no_section section)
    | Some _ =>
        a4 <- arg args 4;; n <- number a4 0;;
        if MaximumRatio config <? n then deny too_large
        else checked (section ++ lit "(" ++ (if n =? 0 then lit "Unlimited" else lit "1:" ++ to_string n) ++ lit ")")
               (setter (SetSectionRatio never section n))
    end.

Definition allotment_refused (allotment : Z) (u : UserData) : C (option str) :=
  group <- in_db (Group_Load_id (primaryGid u));;
  match group with
  | None => st_ret (Some (lit "Unable to load group profile for " ++ GIDToName ca (primaryGid u) ++ lit "."))
  | Some g =>
      full <- (if SectionWeeklyAllotment u [] =? 0 then n <- in_db (NumAllotments g);; st_ret (allotmentSlots g <=? n) else st_ret false);;
      if full : bool then st_ret (Some (lit "Maximum number of allotment slots exceeded for group " ++ Group.name g ++ lit "."))
      else
        total <- in_db (TotalAllotmentSize g);;
        st_ret (if maxAllotmentSize g <? total - SectionWeeklyAllotment u [] + allotment
                then Some (lit "Maximum allotment size exceeded for group " ++ Group.name g ++ lit ".") else None)
  end.

Definition CheckWeeklyAllotment (args : list str) : C Checked :=
  g <- only_gadmin;;
  section <- (match args !! 4%nat with
    | Some a4 =>
        if (length args =? 5)%nat then
          let section := to_upper a4 in
          match Sections config !! section with None => deny (no_section section) | Some _ => st_ret section end
        else st_ret []
    | None => st_ret []
    end);;
  a3 <- arg args 3;; allotment <- size a3;;
  let what := if allotment =? 0 then lit "Disabled" else to_string allotment ++ lit "KB" in
  st_ret {| gadmin := g;
            display := if bool_decide (section = []) then what else section ++ lit "(" ++ what ++ lit ")";
            set_ u := why <- (if g && (0 <? allotment) then allotment_refused allotment u else st_ret None);;
                      unless_refused u why (setter (SetSectionWeeklyAllotment never section allotment)) |}.

(** [argStr.substr(args[1].length() + args[2].length() + 2)] *)
Definition rest_of (argStr : str) (args : list str) : C str :=
  a1 <- arg args 1;; a2 <- arg args 2;;
  let n := (length a1 + length a2 + 2)%nat in
  if (length argStr <? n)%nat then st_throw OutOfRange else st_ret (drop n argStr).

Definition CheckHomeDir (argStr : str) (args : list str) : C Checked :=
  r <- rest_of argStr args;; checked (PathFromUser r) (setter (SetHomeDir never (PathFromUser r))).
Definition CheckStartUpDir (argStr : str) (args : list str) : C Checked :=
  r <- rest_of argStr args;; checked (PathFromUser r) (setter (SetStartUpDir never (PathFromUser r))).

(** A change of flags, which only masters make to a siteop; the default user keeps
    the template flag. *)
Definition change_flags (keep_template : bool) (m : Transaction.M Save UserData unit) : SetFunction := λ u,
  b <- (if HasFlag u Siteop then notM (is_master config) else st_ret false);;
  if b : bool then part_reply CommandOkay (lit "Only masters can change flags of other siteops.");;; st_ret (false, u)
  else
    r <- setter m u;;
    if keep_template && (id r.2 =? 1) then setter (AddFlag never Template) r.2 else st_ret r.

Definition CheckFlags (args : list str) : C Checked :=
  a3 <- arg args 3;;
  match a3 with
  | [] => st_throw OutOfRange
  | action :: fl =>
      let fl := to_upper fl in
      if bool_decide (fl = []) then st_throw SyntaxError_
      else if negb (ValidFlags fl) then deny (lit "One or more invalid flags. See SITE FLAGS for a list.")
      else if has_char (flag_char Deleted) fl then deny (lit "Flag 6 (deleted) cannot be changed with SITE CHANGE.")
      else if has_char (flag_char Gadmin) fl then deny (lit "Flag 2 (gadmin) cannot be changed with SITE CHANGE.")
      else if bool_decide (action = "+"%char) then checked a3 (change_flags false (AddFlags never fl))
      else if bool_decide (action = "-"%char) then checked a3 (change_flags true (DelFlags never fl))
      else if bool_decide (action = "="%char) then checked a3 (change_flags true (SetFlags never fl))
      else st_throw SyntaxError_
  end.

Definition CheckIdleTime (args : list str) : C Checked :=
  a3 <- arg args 3;; n <- number a3 (-1);;
  checked (if n =? -1 then lit "Unset" else if n =? 0 then lit "Unlimited" else to_string n ++ lit " seconds") (setter (SetIdleTime never n)).

Definition CheckExpires (args : list str) : C Checked :=
  a3 <- arg args 3;;
  let a3 := to_lower a3 in
  if bool_decide (a3 = lit "never") then checked a3 (setter (SetExpires never None))
  else
    let a3 := replace_all a3 (lit "/") (lit "-") in
    match from_simple_string a3 with
    | Some date => checked a3 (setter (SetExpires never (Some date)))
    | None => deny (lit "Date must be in format YYYY/MM/DD or YYYY-MM-DD.")
    end.

Definition CheckNumLogins (args : list str) : C Checked :=
  a3 <- arg args 3;; n <- number a3 (-1);;
  checked (if n =? -1 then lit "Unlimited" else to_string n) (setter (SetNumLogins never n)).

Definition CheckTagline (argStr : str) (args : list str) : C Checked :=
  r <- rest_of argStr args;;
  if negb (Validate Tagline r) then deny (lit "Tagline contains invalid characters.") else checked r (setter (SetTagline never r)).
Definition CheckComment (argStr : str) (args : list str) : C Checked :=
  r <- rest_of argStr args;; checked r (setter (SetComment never r)).

Definition speed_text (n : Z) : str := if n =? 0 then lit "Unlimited" else to_string n ++ lit "KB/s".
Definition CheckMaxUpSpeed (args : list str) : C Checked :=
  a3 <- arg args 3;; n <- size a3;; checked (speed_text n) (setter (SetMaxUpSpeed never n)).
Definition CheckMaxDownSpeed (args : list str) : C Checked :=
  a3 <- arg args 3;; n <- size a3;; checked (speed_text n) (setter (SetMaxDownSpeed never n)).

Definition logins_text (n : Z) : str := if n =? 0 then lit "Disabled" else if n =? -1 then lit "Unlimited" else to_string n.
Definition CheckMaxSimUp (args : list str) : C Checked :=
  a3 <- arg args 3;; n <- number a3 (-1);; checked (logins_text n) (setter (SetMaxSimUp never n)).
Definition CheckMaxSimDown (args : list str) : C Checked :=
  a3 <- arg args 3;; n <- number a3 (-1);; checked (logins_text n) (setter (SetMaxSimDown never n)).

(** ** The table, and the command *)

Record SettingDef := { s_name : str; maximumArgs : Z; aclKeyword : str; check : str → list str → C Checked }.

Definition setting (n : string) (most : Z) (keyword : string) (f : str → list str → C Checked) : SettingDef :=
  {| s_name := lit n; maximumArgs := most; aclKeyword := lit keyword; check := f |}.

Definition settings : list SettingDef := [
  setting "ratio" 1 "change|changegadmin" (λ _, CheckRatio);
  setting "sratio" 2 "change" (λ _, CheckSectionRatio);
  setting "wkly_allotment" 2 "change|changegadmin" (λ _, CheckWeeklyAllotment);
  setting "homedir" 1 "changehomedir" CheckHomeDir;
  setting "startupdir" 1 "changestartupdir" CheckStartUpDir;
  setting "flags" 1 "changeflags" (λ _, CheckFlags);
  setting "idle_time" 1 "change" (λ _, CheckIdleTime);
  setting "expires" 1 "change" (λ _, CheckExpires);
  setting "num_logins" 1 "change" (λ _, CheckNumLogins);
  setting "tagline" (-1) "change" CheckTagline;
  setting "comment" (-1) "change" CheckComment;
  setting "max_up_speed" 1 "change" (λ _, CheckMaxUpSpeed);
  setting "max_down_speed" 1 "change" (λ _, CheckMaxDownSpeed);
  setting "max_sim_up" 1 "change" (λ _, CheckMaxSimUp);
  setting "max_sim_down" 1 "change" (λ _, CheckMaxSimDown)
].

(** [a2] is the name of the setting, in lower case by now. *)
Definition Check (argStr a2 : str) (args : list str) : C Checked :=
  match List.find (λ d, bool_decide (s_name d = a2)) settings with
  | None => st_throw SyntaxError_
  | Some d =>
      b <- SiteState.allow ca (aclKeyword d);;
      if negb b then st_throw PermissionError
      else if negb (maximumArgs d =? -1) && (maximumArgs d + 3 <? Z.of_nat (length args)) then st_throw SyntaxError_
      else check d argStr args
  end.

(** How many users were changed *)
Fixpoint change_loop (c : Checked) (a2 : str) (uids : list Z) (changed : Z) : C Z :=
  match uids with
  | [] => st_ret changed
  | uid :: uids =>
      o <- in_db (Load_id uid);;
      match o with
      | None => change_loop c a2 uids changed
      | Some u =>
          r <- set_ c u;;
          if r.1 : bool then
            siteop (lit "changed '" ++ a2 ++ lit "' for '" ++ name r.2 ++ lit "' to '" ++ display c ++ lit "'");;;
            change_loop c a2 uids (changed + 1)
          else st_ret changed
      end
  end.

(** Whether all are users of groups he administers *)
Definition all_mine (uids : list Z) : C bool :=
  me <- st_gets self;; st_ret (forallb (λ uid, HasGadminGID me (UIDToPrimaryGID ca uid)) uids).

Definition CHANGECommand (argStr : str) (args : list str) : C unit :=
  a2 <- arg args 2;;
  let a2 := to_lower a2 in
  let args := <[2%nat := a2]> args in
  c <- Check argStr a2 args;;
  a1 <- arg args 1;;
  uids <- in_db (GetUIDs ca a1);;
  (if bool_decide (uids = []) then deny (lit "No user's exist matching that criteria.") else st_ret tt);;;
  mine <- (if gadmin c then all_mine uids else st_ret true);;
  if negb mine then st_throw PermissionError
  else
    changed <- change_loop c a2 uids 0;;
    if changed =? 0 then reply CommandOkay (lit "No users changed.")
    else reply CommandOkay (lit "Setting " ++ a2 ++ lit " changed for " ++
      (if changed =? 1 then UIDToName ca (default (-1) (head uids)) else to_string changed ++ lit " users") ++ lit ": " ++ display c).

End change.
