(* ===== verification/SiteGroups.v ===== *)
(** * Site commands on groups: cmd/site/commands.cpp, cmd/site/grpchange.cpp

    GRPADD, GRPDEL, GRPREN and GRPCHANGE with its table of settings. *)

From stdpp Require Import prelude gmap strings.
From S2P Require Import Prelude CxxString State Numbers Acl Group Transaction UserData User Connection Accounts SiteState.
Local Open Scope Z_scope.
Local Open Scope list_scope.
Local Open Scope st_scope.

Section groups.
Context {W : Type} `{Mongo W, !Collection W UserData, !Collection W GroupData}.
Context `{Split, CaseConv, Fnmatch, RegexMatch, Trim}.
Context (ca : Caches) (rounds : nat).

Abbreviation C := (ST (Site W) exit).
Local Abbreviation quoted s := (lit "'" ++ s ++ lit "'").

Definition no_group (n : str) : str := lit "Group " ++ n ++ lit " doesn't exist.".

Definition with_group (n : str) (k : GroupData → C unit) : C unit :=
  o <- in_db (Group_Load n);; match o with Some g => k g | None => refuse (no_group n) end.

(** The description is what follows the name in the line. *)
Definition GRPADDCommand (argStr : str) (args : list str) : C unit :=
  a1 <- arg args 1;;
  if negb (Validate Groupname a1) then refuse (lit "Groupname contains invalid characters")
  else
    let described := (2 <? length args)%nat in
    let argStr := if described then trim (drop (length a1) argStr) else argStr in
    if described && negb (Validate Tagline argStr) then refuse (lit "Description contains invalid characters")
    else
      o <- in_db (Group_Load (lit "default"));;
      match o with
      | None => refuse (lit "Unable to load default group template.")
      | Some t =>
          o <- in_db (Group_FromTemplate rounds a1 t);;
          match o with
          | None => refuse (lit "Group " ++ a1 ++ lit " alread exists.")
          | Some g =>
              r <- (if described then in_db (in_group g (SetDescription never argStr)) else st_ret (tt, g));;
              reply CommandOkay (lit "Group " ++ a1 ++ lit " successfully added.");;;
              siteop (lit "added group " ++ quoted (Group.name r.2) ++ lit " with description " ++ quoted (description r.2))
          end
      end.

Definition required_group (g : GroupData) : bool :=
  bool_decide (Group.name g = lit "default") || (Group.id g =? 1) || (Group.id g =? 0).

Definition GRPDELCommand (args : list str) : C unit :=
  a1 <- arg args 1;;
  with_group a1 (λ g,
    if required_group g then refuse (lit "That group is required by the server so cannot be deleted.")
    else
      n <- in_db (NumMembers g);;
      if n <? 0 then refuse (lit "Unable to determine number of memmbers.")
      else if 0 <? n then refuse (lit "Unable to delete group with members.")
      else
        in_db (group_Purge g);;;
        reply CommandOkay (lit "Group " ++ a1 ++ lit " deleted.");;;
        siteop (lit "deleted group " ++ quoted a1)).

(** It is the old name that is found valid. *)
Definition GRPRENCommand (args : list str) : C unit :=
  a1 <- arg args 1;;
  if negb (Validate Groupname a1) then refuse (lit "Groupname contains invalid characters")
  else with_group a1 (λ g,
    if bool_decide (Group.name g = lit "default") then refuse (lit "Cannot rename default template group.")
    else
      a2 <- arg args 2;;
      r <- in_db (Group_Rename g a2);;
      if negb r.1 then refuse (lit "Group " ++ a2 ++ lit " already exists.")
      else
        reply CommandOkay (lit "Group " ++ a1 ++ lit " renamed to: " ++ a2);;;
        siteop (lit "renamed group '" ++ a1 ++ lit " to " ++ quoted a2)).

(** ** GRPCHANGE *)

(** What is shown, and the setter *)
Definition GroupChecked : Type := (str * Transaction.M GroupSave GroupData unit)%type.

Definition group_number (parse : str → option Z) (s : str) (least : Z) : C Z :=
  match parse s with
  | Some n => if n <? least then st_throw SyntaxError_ else st_ret n
  | None => st_throw SyntaxError_
  end.

Definition slots_text (n : Z) : str := if n =? -1 then lit "Unlimited" else to_string n.
Definition special_slots_text (n : Z) : str := if n =? -1 then lit "Unlimited" else if n =? -2 then lit "Disabled" else to_string n.

Definition CheckSlots (args : list str) : C GroupChecked :=
  a3 <- arg args 3;; n <- group_number StrToInt a3 (-1);; st_ret (slots_text n, SetSlots never n).
Definition CheckLeechSlots (args : list str) : C GroupChecked :=
  a3 <- arg args 3;; n <- group_number StrToInt a3 (-2);; st_ret (special_slots_text n, SetLeechSlots never n).
Definition CheckAllotSlots (args : list str) : C GroupChecked :=
  a3 <- arg args 3;; n <- group_number StrToInt a3 (-2);; st_ret (special_slots_text n, SetAllotmentSlots never n).
Definition CheckMaxAllotSize (args : list str) : C GroupChecked :=
  a3 <- arg args 3;; n <- group_number StrToLLong a3 0;; st_ret (slots_text n, SetMaxAllotmentSize never n).
Definition CheckMaxLogins (args : list str) : C GroupChecked :=
  a3 <- arg args 3;; n <- group_number StrToInt a3 (-1);; st_ret (slots_text n, SetMaxLogins never n).

(** [argStr.substr(args[1].length() + args[2].length() + 2)] *)
Definition group_rest_of (argStr : str) (args : list str) : C str :=
  a1 <- arg args 1;; a2 <- arg args 2;;
  let n := (length a1 + length a2 + 2)%nat in
  if (length argStr <? n)%nat then st_throw OutOfRange else st_ret (drop n argStr).

Definition CheckDescription (argStr : str) (args : list str) : C GroupChecked :=
  r <- group_rest_of argStr args;;
  if negb (Validate Tagline r) then deny (lit "Description contains invalid characters.") else st_ret (r, SetDescription never r).
Definition CheckGroupComment (argStr : str) (args : list str) : C GroupChecked :=
  r <- group_rest_of argStr args;; st_ret (r, Group.SetComment never r).

Record GroupSettingDef := { gs_name : str; gs_maximumArgs : Z; gs_check : str → list str → C GroupChecked }.

Definition group_setting (n : string) (most : Z) (f : str → list str → C GroupChecked) : GroupSettingDef :=
  {| gs_name := lit n; gs_maximumArgs := most; gs_check := f |}.

Definition group_settings : list GroupSettingDef := [
  group_setting "slots" 1 (λ _, CheckSlots);
  group_setting "leech_slots" 1 (λ _, CheckLeechSlots);
  group_setting "allot_slots" 1 (λ _, CheckAllotSlots);
  group_setting "max_allot_size" 1 (λ _, CheckMaxAllotSize);
  group_setting "max_logins" 1 (λ _, CheckMaxLogins);
  group_setting "description" (-1) CheckDescription;
  group_setting "comment" (-1) CheckGroupComment
].

Definition GroupCheck (argStr a2 : str) (args : list str) : C GroupChecked :=
  match List.find (λ d, bool_decide (gs_name d = a2)) group_settings with
  | None => st_throw SyntaxError_
  | Some d =>
      b <- allow ca (lit "grpchange");;
      if negb b then st_throw PermissionError
      else if negb (gs_maximumArgs d =? -1) && (gs_maximumArgs d + 3 <? Z.of_nat (length args)) then st_throw SyntaxError_
      else gs_check d argStr args
  end.

Definition GRPCHANGECommand (argStr : str) (args : list str) : C unit :=
  a2 <- arg args 2;;
  let a2 := to_lower a2 in
  let args := <[2%nat := a2]> args in
  c <- GroupCheck argStr a2 args;;
  a1 <- arg args 1;;
  gids <- in_db (GetGIDs a1);;
  (if bool_decide (gids = []) then deny (lit "No group's exist matching that criteria.") else st_ret tt);;;
  st_iter (λ gid,
    o <- in_db (Group_Load_id gid);;
    match o with
    | None => st_ret tt
    | Some g =>
        r <- in_db (in_group g c.2);;
        siteop (lit "changed '" ++ a2 ++ lit "' for '" ++ Group.name r.2 ++ lit "' to '" ++ c.1 ++ lit "'")
    end) gids;;;
  reply CommandOkay (lit "Setting " ++ a2 ++ lit " changed for " ++
    (if (length gids =? 1)%nat then GIDToName ca (default (-1) (head gids)) else to_string (Z.of_nat (length gids)) ++ lit " groups") ++
    lit ": " ++ c.1).

End groups.
