(* ===== verification/SiteSafety.v ===== *)
(** * The accounts the server needs

    The server creates two users and two groups at its first start (acl/util.cpp,
    CreateDefaults) and depends on them: the master with the id 0 and the template
    "default" with the id 1.  Whatever site commands are run, with whatever rights
    and arguments, on a database that may fail at any time, they stay, are not marked
    as deleted, and the templates keep their names. *)

From stdpp Require Import prelude gmap strings.
From S2P Require Import Prelude CxxString State Numbers Settings Acl Strength NetFtp Group Transaction UserData User Rights Policies Credits Connection Accounts Memory Saves SiteState SiteUsers SiteChange SiteGroups.
Local Open Scope Z_scope.
Local Open Scope list_scope.
Local Open Scope st_scope.

(** ** The invariant *)

Record required (m : gmap Z UserData) (g : gmap Z GroupData) : Prop := {
  master_user : ∃ u, m !! 0 = Some u ∧ HasFlag u Deleted = false;
  template_user : ∃ u, m !! 1 = Some u ∧ HasFlag u Deleted = false ∧ name u = lit "default";
  master_group : is_Some (g !! 0);
  template_group : ∃ x, g !! 1 = Some x ∧ Group.name x = lit "default"
}.

(** What is known of a copy of a user, or a group, that was loaded *)
Definition sane (u : UserData) : Prop :=
  (id u = 0 ∨ id u = 1 → HasFlag u Deleted = false) ∧ (id u = 1 → name u = lit "default").
Definition sane_group (g : GroupData) : Prop := Group.id g = 1 → Group.name g = lit "default".

Lemma sane_other u : id u ≠ 0 → id u ≠ 1 → sane u.
Proof. intros H0 H1. split; [by intros [?|?]|done]. Qed.

Lemma sane_same u u' : sane u → same_user u u' → sane u'.
Proof.
  intros [Hd Hn] (Hi & Hnm & Hf). split; rewrite Hi; [auto|]. intros E. rewrite Hnm. auto.
Qed.

Section lift.
Context {W : Type} `{Mongo W, !Collection W UserData, !Collection W GroupData, Split}.
Context `{!CollectionOk W UserData groups_in, !CollectionOk W GroupData users_in, !MongoOk W (λ w, (users_in w, groups_in w))}.

Definition ok (s : Db W) : Prop := required (users s) (groups s).

Lemma ok_obs s s' : obs s' = obs s → ok s → ok s'.
Proof. intros [= Eu Eg]. unfold ok. by rewrite Eu, Eg. Qed.

Lemma ok_sane s u : ok s → users s !! id u = Some u → sane u.
Proof.
  intros [(a & Ha & Hda) (b & Hb & Hdb & Hnb) _ _] Hu. split.
  - intros [E|E]; rewrite E in Hu; congruence.
  - intros E. rewrite E in Hu. congruence.
Qed.

Lemma ok_sane_group s g : ok s → groups s !! Group.id g = Some g → sane_group g.
Proof. intros [_ _ _ (x & Hx & Hn)] Hg E. rewrite E in Hg. congruence. Qed.

(** A change of one user that is no deletion of a required one, and no renaming *)
Lemma ok_one_user s s' uid (R : UserData → UserData → Prop) :
  (∀ x x', R x x' → uid = 0 ∨ uid = 1 → HasFlag x Deleted = false → HasFlag x' Deleted = false) →
  (∀ x x', R x x' → uid = 1 → name x = lit "default" → name x' = lit "default") →
  one_user uid R s s' → ok s → ok s'.
Proof.
  intros Hd Hn [Hg Hu] [(a & Ha & Hda) (b & Hb & Hdb & Hnb) Hg0 Hg1]. split.
  - destruct (Hu 0) as [->|(E & x & x' & Hx & -> & HR)]; [eauto|]. exists x'. split; [done|].
    apply (Hd x x' HR); [by left|congruence].
  - destruct (Hu 1) as [->|(E & x & x' & Hx & -> & HR)]; [eauto|]. exists x'. split; [done|]. split.
    + apply (Hd x x' HR); [by right|congruence].
    + apply (Hn x x' HR); [done|congruence].
  - by rewrite Hg.
  - by rewrite Hg.
Qed.

Lemma ok_one_group s s' gid (R : GroupData → GroupData → Prop) :
  (∀ x x', R x x' → gid = 1 → Group.name x = lit "default" → Group.name x' = lit "default") →
  one_group gid R s s' → ok s → ok s'.
Proof.
  intros Hn [Hu Hg] [? ? [x0 Hg0] (b & Hb & Hnb)]. split; [by rewrite Hu|by rewrite Hu| |].
  - destruct (Hg 0) as [->|(E & x & x' & Hx & -> & HR)]; eauto.
  - destruct (Hg 1) as [->|(E & x & x' & Hx & -> & HR)]; [eauto|]. exists x'. split; [done|].
    apply (Hn x x' HR); [done|congruence].
Qed.

(** Saves of records that are no less sane than the copy *)
Lemma written_same u l x x' :
  Forall (λ sd : Save * UserData, not_name sd.1 ∧ same_user u sd.2) l → written l x x' →
  name x' = name x ∧ (HasFlag u Deleted = false → HasFlag x Deleted = false → HasFlag x' Deleted = false).
Proof.
  intros Hl (l' & Hs & ->). assert (Forall (λ sd : Save * UserData, not_name sd.1 ∧ same_user u sd.2) l') as Hl'.
  { apply Forall_forall. intros sd Hsd. rewrite Forall_forall in Hl. apply Hl. by eapply elem_of_sublist. }
  clear Hs. revert x. induction Hl' as [|[sv d] l' [Hk (_ & _ & Hd)] Hl' IH]; intros x; [done|]. cbn [foldl fst snd].
  destruct (IH (copy_save sv d x)) as [IHn IHf]. cbn in Hk, Hd.
  assert (name (copy_save sv d x) = name x) as En by (destruct sv, x; try done).
  split; [by rewrite IHn|]. intros Hu Hx. apply IHf; [done|].
  unfold HasFlag in *. destruct sv, x; try done. cbn. auto.
Qed.

(** ** The operations of Accounts.v *)

Abbreviation D_ := (ST (Db W) DBThrow).

(** [m] keeps the invariant, and what it returns has [P]. *)
Definition triple_db {A} (m : D_ A) (P : A → Prop) : Prop := st_triple ok m P.

Lemma triple_db_holds {A} (m : D_ A) (P : A → Prop) :
  (∀ s, ok s → st_holds m s (λ r s', ok s' ∧ ∀ a, r = Ok a → P a)) → triple_db m P.
Proof. intros Hm s. apply Hm. Qed.

Lemma db_reads {A} (m : D_ A) : st_keeps obs m → triple_db m (λ _, True).
Proof. intros Hm s Hs. split; [|done]. by apply (ok_obs s). Qed.

Context (ca : Caches) (rounds : nat).

Lemma db_Load n : triple_db (Load n) (λ o, ∀ u, o = Some u → sane u ∧ name u = n).
Proof.
  apply triple_db_holds. intros s Hs. eapply st_holds_conseq; [apply query_user_holds|]. intros r s' [E Hr].
  split; [by apply (ok_obs s)|]. intros o -> u ->. destruct (Hr u eq_refl) as [Hu Hn]. split; [by eapply ok_sane|].
  by apply bool_decide_eq_true in Hn.
Qed.

Lemma db_Load_id i : triple_db (Load_id i) (λ o, ∀ u, o = Some u → sane u ∧ id u = i).
Proof.
  apply triple_db_holds. intros s Hs. eapply st_holds_conseq; [apply query_user_holds|]. intros r s' [E Hr].
  split; [by apply (ok_obs s)|]. intros o -> u ->. destruct (Hr u eq_refl) as [Hu Hn]. split; [by eapply ok_sane|].
  by apply Z.eqb_eq in Hn.
Qed.

Lemma db_GetUsers multi : triple_db (GetUsers ca multi) (Forall sane).
Proof.
  apply triple_db_holds. intros s Hs. eapply st_holds_conseq; [apply GetUsers_holds|]. intros r s' [E Hr].
  split; [by apply (ok_obs s)|]. intros l ->. apply Forall_forall. intros u Hu. eapply ok_sane; [exact Hs|].
  by apply (Hr l).
Qed.

Lemma db_GetUIDs multi : triple_db (GetUIDs ca multi) (λ _, True).
Proof.
  apply triple_db_holds. intros s Hs. eapply st_holds_conseq; [apply GetUIDs_holds|]. intros r s' [E _].
  split; [by apply (ok_obs s)|done].
Qed.

Lemma db_Group_Load n : triple_db (Group_Load n) (λ o, ∀ g, o = Some g → sane_group g).
Proof.
  apply triple_db_holds. intros s Hs. eapply st_holds_conseq; [apply query_group_holds|]. intros r s' [E Hr].
  split; [by apply (ok_obs s)|]. intros o -> g ->. destruct (Hr g eq_refl) as [Hg _]. by eapply ok_sane_group.
Qed.

Lemma db_Group_Load_id i : triple_db (Group_Load_id i) (λ o, ∀ g, o = Some g → sane_group g).
Proof.
  apply triple_db_holds. intros s Hs. eapply st_holds_conseq; [apply query_group_holds|]. intros r s' [E Hr].
  split; [by apply (ok_obs s)|]. intros o -> g ->. destruct (Hr g eq_refl) as [Hg _]. by eapply ok_sane_group.
Qed.

(** A setter on a copy *)
Lemma db_in_user {A} u (m : Transaction.M Save UserData A) : sane u → stays (same_user u) not_name m →
  triple_db (in_user u m) (λ r, sane r.2 ∧ same_user u r.2).
Proof.
  intros Hu Hm. apply triple_db_holds. intros s Hs.
  destruct (stays_saves _ _ m u Hm (same_user_refl u)) as [Hl Hd].
  eapply st_holds_conseq; [apply in_user_holds|].
  { eapply Forall_impl; [exact Hl|]. by intros sd [_ [? _]]. }
  intros r s' [Hone Hr]. split.
  - eapply ok_one_user; [| |exact Hone|done].
    + intros x x' Hx Hid. apply (written_same u _ x x' Hl Hx). by apply Hu.
    + intros x x' Hx _ Hnm. by rewrite (proj1 (written_same u _ x x' Hl Hx)).
  - intros [a u'] ->. destruct (Hr a u' eq_refl) as [_ ->]. split; [|done]. by apply (sane_same u).
Qed.

(** The one of the deleted, on another user *)
Lemma db_in_user_deleted u : id u ≠ 0 → id u ≠ 1 → triple_db (in_user u (AddFlag never Deleted)) (λ _, True).
Proof.
  intros Hne0 Hne1. apply triple_db_holds. intros s Hs. eapply st_holds_conseq; [apply in_user_holds|].
  { unfold saves_of, AddFlag, AddFlags. cbn. apply Forall_singleton. by destruct u. }
  intros r s' [Hone _]. split; [|done]. eapply ok_one_user; [| |exact Hone|done]; intros x x' _ Hid; naive_solver.
Qed.

Lemma db_Rename u n : name u ≠ lit "default" → sane u → triple_db (User_Rename u n) (λ _, True).
Proof.
  intros Hn [_ Hu]. apply triple_db_holds. intros s Hs. eapply st_holds_conseq; [apply User_Rename_holds|].
  intros r s' Hone. split; [|done]. eapply ok_one_user; [| |exact Hone|done].
  - intros x x' -> _ Hx. by destruct x.
  - intros x x' _ Hid. by apply Hu in Hid.
Qed.

Lemma db_Purge_ok u : id u ≠ 0 → id u ≠ 1 → triple_db (db_Purge u) (λ _, True).
Proof.
  intros Hne0 Hne1. apply triple_db_holds. intros s Hs. eapply st_holds_conseq; [apply db_Purge_holds|].
  intros r s' [Hg Hu]. split; [|done]. destruct Hs as [(a & Ha & Hda) (b & Hb & Hdb) Hg0 Hg1].
  split; [| |by rewrite Hg|by rewrite Hg].
  - destruct (Hu 0) as [->|[? _]]; [eauto|congruence].
  - destruct (Hu 1) as [->|[? _]]; [eauto|congruence].
Qed.

Lemma db_Create_ok u : triple_db (db_Create rounds u) (λ o, ∀ u', o = Some u' → sane u').
Proof.
  apply triple_db_holds. intros s Hs. eapply st_holds_conseq; [apply db_Create_holds|].
  intros r s' (Hg & Hu & Hr). destruct Hs as [(a & Ha & Hda) (b & Hb & Hdb) Hg0 Hg1].
  split.
  - split; [| |by rewrite Hg|by rewrite Hg].
    + destruct Hu as [->|(i & Hi & ->)]; [eauto|]. exists a. rewrite lookup_insert_ne; [done|congruence].
    + destruct Hu as [->|(i & Hi & ->)]; [eauto|]. exists b. rewrite lookup_insert_ne; [done|congruence].
  - intros o -> u' ->. destruct (Hr u' eq_refl) as (_ & _ & Hi & _). apply sane_other; congruence.
Qed.

Lemma db_IncrCredits_ok uid section k : triple_db (db_IncrCredits uid section k) (λ _, True).
Proof.
  apply triple_db_holds. intros s Hs. eapply st_holds_conseq; [apply db_IncrCredits_holds|]. intros r s' Hone.
  split; [|done]. eapply ok_one_user; [| |exact Hone|done]; intros x x' [c ->] _; by destruct x.
Qed.

Lemma db_DecrCredits_ok uid section k force : triple_db (db_DecrCredits uid section k force) (λ _, True).
Proof.
  apply triple_db_holds. intros s Hs. eapply st_holds_conseq; [apply db_DecrCredits_holds|]. intros r s' Hone.
  split; [|done]. eapply ok_one_user; [| |exact Hone|done]; intros x x' [c ->] _; by destruct x.
Qed.

Lemma db_group_Create_ok g : triple_db (group_Create rounds g) (λ o, ∀ g', o = Some g' → True).
Proof.
  apply triple_db_holds. intros s Hs. eapply st_holds_conseq; [apply group_Create_holds|].
  intros r s' (Hu & Hg). split; [|done]. destruct Hs as [Hu0 Hu1 [a Ha] (b & Hb & Hn)].
  split; [by rewrite Hu|by rewrite Hu| |].
  - destruct Hg as [->|(i & Hi & ->)]; [eauto|]. rewrite lookup_insert_ne; [by eauto|congruence].
  - destruct Hg as [->|(i & Hi & ->)]; [eauto|]. exists b. rewrite lookup_insert_ne; [done|congruence].
Qed.

Lemma db_group_Purge_ok g : Group.id g ≠ 0 → Group.id g ≠ 1 → triple_db (group_Purge g) (λ _, True).
Proof.
  intros Hne0 Hne1. apply triple_db_holds. intros s Hs. eapply st_holds_conseq; [apply group_Purge_holds|].
  intros r s' [Hu Hg]. split; [|done]. destruct Hs as [Hu0 Hu1 Hg0 (b & Hb & Hn)].
  split; [by rewrite Hu|by rewrite Hu| |].
  - destruct (Hg 0) as [->|[? _]]; [done|congruence].
  - destruct (Hg 1) as [->|[? _]]; [eauto|congruence].
Qed.

Lemma db_Group_Rename_ok g n : Group.name g ≠ lit "default" → sane_group g → triple_db (Group_Rename g n) (λ _, True).
Proof.
  intros Hn Hsane. apply triple_db_holds. intros s Hs. eapply st_holds_conseq; [apply Group_Rename_holds|].
  intros r s' Hone. split; [|done]. eapply ok_one_group; [|exact Hone|done].
  intros x x' _ Hid. by apply Hsane in Hid.
Qed.

(** The setters of groups save once, and not the name. *)
Definition group_setter (m : Transaction.M GroupSave GroupData unit) : Prop := ∀ g, ∃ sv d,
  m (Store g []) = (Ok tt, Store d [(sv, d)]) ∧ sv ≠ Group.SaveName ∧ Group.id d = Group.id g.

Lemma db_in_group g m : group_setter m → triple_db (in_group g m) (λ _, True).
Proof.
  intros Hm. destruct (Hm g) as (sv & d & E & Hsv & Hid). apply triple_db_holds. intros s Hs.
  unfold in_group. rewrite E. cbn [saved st_iter fst snd].
  eapply (st_holds_conseq _ _ (λ _ s', ok s')); [|by intros].
  apply st_holds_after; [intros t t' ?; by apply ok_obs| |done].
  apply st_holds_after; [intros t t' ?; by apply ok_obs| |done].
  eapply st_holds_conseq; [apply group_Save_holds|]. intros r s' Hone. eapply ok_one_group; [|exact Hone|done].
  intros x x' -> _ Hx. by destruct sv, x.
Qed.

(** ** Site commands *)

Context `{CaseConv, Fnmatch, RegexMatch, BoostCast, ReplaceAll, Trim}.
Context (config : SiteConfig) (env : SiteEnv) (PathFromUser : str → str) (from_simple_string : str → option Z).

Abbreviation C := (ST (Site W) exit).

Definition triple {A} (m : C A) (P : A → Prop) : Prop := st_triple (λ s, ok (db s)) m P.
Abbreviation safe m := (triple m (λ _, True)).

Lemma triple_ret {A} (a : A) (P : A → Prop) : P a → triple (st_ret a) P.
Proof. apply st_triple_ret. Qed.
Lemma triple_throw {A} e (P : A → Prop) : triple (st_throw e) P.
Proof. apply st_triple_throw. Qed.
Lemma triple_bind {A B} (m : C A) (k : A → C B) (P : A → Prop) (Q : B → Prop) :
  triple m P → (∀ a, P a → triple (k a) Q) → triple (st_bind m k) Q.
Proof. apply st_triple_bind. Qed.
Lemma triple_weaken {A} (m : C A) (P Q : A → Prop) : (∀ a, P a → Q a) → triple m P → triple m Q.
Proof. apply st_triple_weaken. Qed.
Lemma triple_then {A B} (m : C A) (k : A → C B) Q : safe m → (∀ a, triple (k a) Q) → triple (st_bind m k) Q.
Proof. apply st_triple_then. Qed.
Lemma triple_if {A} (b : bool) (m1 m2 : C A) P : (b = true → triple m1 P) → (b = false → triple m2 P) → triple (if b then m1 else m2) P.
Proof. apply st_triple_if. Qed.

(** Steps that do not touch the database *)
Lemma triple_frame {A} (m : C A) : st_keeps db m → safe m.
Proof. intros Hm s Hs. by rewrite Hm. Qed.
Lemma safe_gets {A} (f : Site W → A) : safe (st_gets f).
Proof. by apply triple_frame. Qed.
Lemma safe_reply code text : safe (reply code text).
Proof. by apply triple_frame. Qed.
Lemma safe_part_reply code text : safe (part_reply code text).
Proof. by apply triple_frame. Qed.
Lemma safe_siteop text : safe (siteop text).
Proof. by apply triple_frame. Qed.
Lemma safe_write_record r : safe (write_record r).
Proof. by apply triple_frame. Qed.
Lemma safe_refuse text : safe (refuse text).
Proof. by apply triple_frame. Qed.
Lemma triple_deny {A} text (P : A → Prop) : triple (deny text) P.
Proof. by intros s Hs. Qed.
Lemma safe_arg args i : safe (arg args i).
Proof. apply triple_frame. intros s. unfold arg. by destruct (args !! i). Qed.
Lemma safe_allow k : safe (allow ca k).
Proof. apply triple_frame. intros s. unfold allow. by destruct (AllowSiteCmd _ _ _ _). Qed.
Lemma safe_secure_ip ip : safe (secure_ip ca ip).
Proof. apply triple_frame. intros s. unfold secure_ip. by destruct (SecureIP _ _ _ _). Qed.
Lemma safe_secure_pass ip : safe (secure_pass ca ip).
Proof. apply triple_frame. intros s. unfold secure_pass. by destruct (SecurePass _ _ _ _). Qed.
Lemma safe_andM a b : safe a → safe b → safe (andM a b).
Proof. intros Ha Hb. apply triple_then; [done|]. intros []; [done|]. by apply triple_ret. Qed.
Lemma safe_notM a : safe a → safe (notM a).
Proof. intros Ha. apply triple_then; [done|]. intros x. by apply triple_ret. Qed.
Lemma safe_is_master : safe (is_master config).
Proof. by apply triple_frame. Qed.
Lemma safe_self_gadmin gid : safe (self_gadmin gid).
Proof. by apply triple_frame. Qed.
Lemma safe_kick uid : safe (kick env uid).
Proof. by apply triple_frame. Qed.
Lemma safe_iter {A} (f : A → C unit) l : (∀ a, a ∈ l → safe (f a)) → safe (st_iter f l).
Proof. apply st_triple_iter. Qed.

(** Steps that do *)
Lemma triple_db_in {A} (m : D_ A) P : triple_db m P → triple (in_db m) P.
Proof.
  intros Hm s Hs. unfold in_db. destruct (Hm (db s) Hs) as [Hs1 Ha]. destruct (m (db s)) as [[a|e] d]; cbn in *; [|done].
  split; [done|]. intros ? [= <-]. by apply Ha.
Qed.

Lemma safe_in_db_reads {A} (m : D_ A) : st_keeps obs m → safe (in_db m).
Proof. intros Hm. by apply triple_db_in, db_reads. Qed.

Lemma triple_with_user n absent k : safe absent → (∀ u, sane u → name u = n → safe (k u)) → safe (with_user n absent k).
Proof.
  intros Ha Hk. eapply triple_bind; [apply triple_db_in, db_Load|]. intros [u|] Hu; [|done].
  destruct (Hu u eq_refl). by apply Hk.
Qed.

Lemma triple_edit {A B} u (m : Transaction.M Save UserData A) (k : A * UserData → C B) Q :
  sane u → stays (same_user u) not_name m → (∀ r, sane r.2 → same_user u r.2 → triple (k r) Q) →
  triple (st_bind (edit u m) k) Q.
Proof.
  intros Hu Hm Hk. eapply triple_bind; [by apply triple_db_in, db_in_user|]. intros r [Hr1 Hr2]. by apply Hk.
Qed.

Lemma safe_edit {A} u (m : Transaction.M Save UserData A) :
  sane u → stays (same_user u) not_name m → safe (edit u m).
Proof.
  intros Hu Hm. eapply triple_weaken; [|by apply triple_db_in, db_in_user]. done.
Qed.

Lemma safe_count q : safe (in_db (count_users q)).
Proof. apply safe_in_db_reads, count_users_reads. Qed.
Lemma safe_TotalAllotmentSize g : safe (in_db (TotalAllotmentSize g)).
Proof. apply safe_in_db_reads, TotalAllotmentSize_reads. Qed.
Lemma safe_GetUIDs multi : safe (in_db (GetUIDs ca multi)).
Proof. eapply triple_weaken; [|by apply triple_db_in, db_GetUIDs]. done. Qed.
Lemma safe_TotalUsers : safe (in_db (TotalUsers ca)).
Proof.
  apply triple_db_in. intros s Hs. unfold TotalUsers, st_bind. destruct (db_GetUIDs (lit "*") s Hs) as [Hok _].
  by destruct (GetUIDs ca (lit "*") s) as [[l|e] s'].
Qed.
Lemma safe_Group_Load_id i : safe (in_db (Group_Load_id i)).
Proof. eapply triple_weaken; [|by apply triple_db_in, db_Group_Load_id]. done. Qed.
Lemma safe_Group_Load n : safe (in_db (Group_Load n)).
Proof. eapply triple_weaken; [|by apply triple_db_in, db_Group_Load]. done. Qed.
Lemma safe_Load n : safe (in_db (Load n)).
Proof. eapply triple_weaken; [|by apply triple_db_in, db_Load]. done. Qed.
Lemma safe_GetGIDs multi : safe (in_db (GetGIDs multi)).
Proof.
  apply safe_in_db_reads. apply st_keeps_bind; [apply GetGroups_reads|done].
Qed.
Lemma safe_IncrCredits uid section k : safe (in_db (db_IncrCredits uid section k)).
Proof. apply triple_db_in, db_IncrCredits_ok. Qed.
Lemma safe_DecrCredits uid section k force : safe (in_db (db_DecrCredits uid section k force)).
Proof. apply triple_db_in, db_DecrCredits_ok. Qed.

End lift.

#[export] Hint Resolve safe_gets safe_reply safe_part_reply safe_siteop safe_write_record safe_refuse safe_arg safe_allow
  safe_secure_ip safe_secure_pass safe_andM safe_notM safe_is_master safe_self_gadmin safe_kick safe_count safe_TotalAllotmentSize
  safe_GetUIDs safe_TotalUsers safe_Group_Load_id safe_Group_Load safe_Load safe_GetGIDs safe_IncrCredits safe_DecrCredits : site.

(** One step of a command; what is left are facts about the user it is for. *)
Ltac site_step :=
  match goal with
  | |- triple (st_ret _) _ => apply triple_ret
  | |- triple (st_throw _) _ => apply triple_throw
  | |- triple (deny _) _ => apply triple_deny
  | |- triple (with_user _ _ _) _ => apply triple_with_user; [|intros ? ? ?]
  | |- triple (st_iter _ _) _ => apply safe_iter; intros ? ?
  | |- triple (st_bind (edit _ _) _) _ => apply triple_edit; [|solve [auto 20 with stays typeclass_instances]|intros [? ?] ? ?; cbn [fst snd] in *]
  | |- triple (edit _ _) _ => apply safe_edit; [|solve [auto 20 with stays typeclass_instances]]
  | |- triple (st_bind _ _) _ => apply triple_then; [|intros ?]
  | |- triple (if _ then _ else _) _ => apply triple_if; intros ?
  | |- triple (match ?x with _ => _ end) _ => destruct x
  | |- triple (let '(_, _) := ?x in _) _ => destruct x
  end.

Ltac site_walk := repeat first [progress cbn beta iota zeta | solve [eauto 8 with site] | site_step]; try done.

Section commands.
Context {W : Type} `{Mongo W, !Collection W UserData, !Collection W GroupData, Split}.
Context `{!CollectionOk W UserData groups_in, !CollectionOk W GroupData users_in, !MongoOk W (λ w, (users_in w, groups_in w))}.
Context `{CaseConv, Fnmatch, RegexMatch, BoostCast, ReplaceAll, Trim}.
Context (ca : Caches) (rounds : nat).
Context (config : SiteConfig) (env : SiteEnv) (PathFromUser : str → str) (from_simple_string : str → option Z).
Abbreviation safe m := (triple m (λ _, True)).
Abbreviation C := (ST (Site W) exit).

Lemma safe_may_edit a o g n : safe (may_edit (W := W) ca a o g n).
Proof. unfold may_edit. site_walk. Qed.

Lemma safe_unless_gadmin a g n : safe (unless_gadmin (W := W) ca a g n).
Proof. unfold unless_gadmin. site_walk. Qed.

Hint Resolve safe_may_edit safe_unless_gadmin : site.

Lemma safe_ADDIP_loop ips u deleted os : sane u → safe (ADDIP_loop (W := W) ca ips u deleted os).
Proof.
  revert u deleted os. induction ips as [|ip ips IH]; intros u deleted os Hu; cbn [ADDIP_loop]; [by apply triple_ret|].
  site_walk; auto.
Qed.

Lemma safe_ADDIP args : safe (ADDIPCommand (W := W) ca args).
Proof. unfold ADDIPCommand. site_walk. by apply safe_ADDIP_loop. Qed.

Lemma safe_DELIP_loop l u os : sane u → safe (DELIP_loop (W := W) l u os).
Proof.
  revert u os. induction l as [|i l IH]; intros u os Hu; cbn [DELIP_loop]; [by apply triple_ret|]. site_walk; auto.
Qed.

Lemma safe_DELIP args : safe (DELIPCommand (W := W) ca args).
Proof. unfold DELIPCommand, ip_deleted. site_walk. by apply safe_DELIP_loop. Qed.

Lemma safe_CHPASS args : safe (CHPASSCommand (W := W) ca env args).
Proof. unfold CHPASSCommand, set_password. site_walk. Qed.

Lemma safe_PASSWD args : safe (PASSWDCommand (W := W) ca env args).
Proof. unfold PASSWDCommand. site_walk. apply safe_CHPASS. Qed.

Lemma safe_CHGADMIN args : safe (CHGADMINCommand (W := W) ca args).
Proof. unfold CHGADMINCommand. site_walk. Qed.

Lemma stays_CHGRP a2 u gids : stays (same_user u) not_name ((CHGRP_method a2).1 gids).
Proof. unfold CHGRP_method. repeat case_match; cbn; auto with stays. Qed.
Hint Resolve stays_CHGRP : stays.

Lemma safe_CHGRP args : safe (CHGRPCommand (W := W) ca args).
Proof.
  unfold CHGRPCommand. apply triple_then; [apply safe_arg|intros a1]. apply triple_with_user; [apply safe_refuse|intros u Hu _].
  apply triple_then; [apply safe_arg|intros a2]. pose proof (stays_CHGRP a2) as Hs. destruct (CHGRP_method a2) as [go first].
  cbn [fst] in Hs. site_walk.
Qed.

Lemma safe_SETPGRP args : safe (SETPGRPCommand (W := W) ca args).
Proof. unfold SETPGRPCommand. site_walk. Qed.

Lemma required_user_ids u : required_user u = false → id u ≠ 0 ∧ id u ≠ 1.
Proof. unfold required_user. intros [[_ ?%Z.eqb_neq]%orb_false_iff ?%Z.eqb_neq]%orb_false_iff. done. Qed.

Lemma safe_DELUSER args : safe (DELUSERCommand (W := W) ca config env args).
Proof.
  unfold DELUSERCommand. apply triple_then; [apply safe_arg|intros a1]. apply triple_then; [apply safe_unless_gadmin|intros _].
  apply triple_with_user; [apply triple_deny|intros u Hu _]. apply triple_then; [site_walk|intros b].
  apply triple_if; intros _; [apply triple_deny|]. apply triple_if; intros Hr; [apply triple_deny|].
  apply triple_if; intros _; [apply triple_deny|]. destruct (required_user_ids u Hr).
  apply triple_then; [by apply triple_db_in, db_in_user_deleted|]. site_walk.
Qed.

Lemma safe_READD args : safe (READDCommand (W := W) ca args).
Proof. unfold READDCommand, NumSlotsUsed. site_walk. Qed.

Lemma sane_deleted u : sane u → HasFlag u Deleted = true → id u ≠ 0 ∧ id u ≠ 1.
Proof. intros [Hd _] Hf. split; intros E; rewrite Hd in Hf; auto; discriminate. Qed.

Lemma safe_purge u : sane u → HasFlag u Deleted = true → safe (in_db (W := W) (db_Purge u)).
Proof. intros Hu Hd. destruct (sane_deleted u Hu Hd). by apply triple_db_in, db_Purge_ok. Qed.

Lemma safe_PURGE args : safe (PURGECommand (W := W) ca args).
Proof.
  unfold PURGECommand. site_walk.
  - unfold PurgeAll. eapply triple_bind; [apply triple_db_in, db_GetUsers|]. intros l Hl.
    destruct (filter _ l) as [|u0 l0] eqn:E; [site_walk|]. rewrite <-E. unfold purge. site_walk.
    apply safe_purge; [|]; (rename select (_ ∈ filter _ _) into Hin; apply list_elem_of_filter in Hin as [Hf Hin]); [|done].
    rewrite Forall_forall in Hl. auto.
  - apply safe_purge; [done|]. by apply negb_false_iff.
Qed.

Lemma safe_RENUSER args : safe (RENUSERCommand (W := W) config args).
Proof.
  unfold RENUSERCommand. site_walk. apply triple_db_in, db_Rename; [|done]. by eapply bool_decide_eq_false_1.
Qed.

(** *** Adding users *)

Lemma db_bind {A B} (m : ST (Db W) DBThrow A) (k : A → ST (Db W) DBThrow B) P Q :
  triple_db m P → (∀ a, P a → triple_db (k a) Q) → triple_db (st_bind m k) Q.
Proof. apply st_triple_bind. Qed.

Lemma FromTemplate_ok hash salt n pw creator t :
  triple (in_db (W := W) (FromTemplate rounds hash salt n pw creator t)) (λ o, ∀ u, o = Some u → sane u).
Proof.
  apply triple_db_in. unfold FromTemplate. set (u0 := set f_creator creator _).
  assert (id u0 = -1) as Hid by (by destruct t).
  eapply db_bind; [apply db_in_user; [apply sane_other; lia|auto with stays]|]. intros r [_ (Hr & _)].
  eapply db_bind; [apply db_in_user; [apply sane_other; lia|auto with stays]|]. intros r' _. apply db_Create_ok.
Qed.

Lemma safe_Addips n ips : safe (Addips (W := W) ca n ips).
Proof. apply safe_ADDIP. Qed.

Lemma safe_ADDUSER_group n g : safe (ADDUSER_group (W := W) n g).
Proof. unfold ADDUSER_group, NumSlotsUsed. site_walk. Qed.

Lemma safe_ADDUSER_limit : safe (ADDUSER_limit (W := W) ca config).
Proof. unfold ADDUSER_limit. site_walk. Qed.

Lemma safe_ADDUSER_template t : safe (ADDUSER_template (W := W) t).
Proof.
  unfold ADDUSER_template. site_walk.
Qed.

Hint Resolve safe_ADDUSER_group safe_ADDUSER_limit safe_ADDUSER_template safe_Addips : site.

Lemma ADDUSER_create_ok args t : triple (ADDUSER_create (W := W) ca config env rounds args t) (λ r, sane r.1.1).
Proof.
  unfold ADDUSER_create. do 10 (apply triple_then; [site_walk|intros ?]).
  eapply triple_bind; [apply FromTemplate_ok|]. intros [u|] Hu; [|apply triple_deny]. apply triple_ret. by apply Hu.
Qed.

Lemma safe_ADDUSER_execute args n g t : safe (ADDUSER_execute (W := W) ca config env rounds args n g t).
Proof.
  unfold ADDUSER_execute. apply triple_then; [apply safe_arg|intros a0]. apply triple_then; [site_walk|intros b].
  apply triple_then; [apply safe_gets|intros me]. cbn zeta. apply triple_if; intros _; [apply triple_throw|].
  apply triple_then; [apply safe_ADDUSER_group|intros group].
  eapply triple_bind; [apply ADDUSER_create_ok|]. intros [[u t'] d] Hu. cbn [fst] in Hu. site_walk.
Qed.

Lemma safe_GADDUSER args : safe (GADDUSERCommand (W := W) ca config env rounds args).
Proof. unfold GADDUSERCommand. site_walk. apply safe_ADDUSER_execute. Qed.

Lemma safe_TADDUSER args : safe (TADDUSERCommand (W := W) ca config env rounds args).
Proof. unfold TADDUSERCommand. site_walk. apply safe_ADDUSER_execute. Qed.

(** *** Credits, KICK, TAGLINE *)

Lemma safe_credits_section args : safe (credits_section (W := W) config args).
Proof. unfold credits_section. site_walk. Qed.

Lemma safe_amount s : safe (amount (W := W) s).
Proof. unfold amount. site_walk. Qed.

Lemma safe_pay_own x k : safe (pay_own (W := W) ca x k).
Proof. unfold pay_own. site_walk. Qed.

Hint Resolve safe_credits_section safe_amount safe_pay_own : site.

Lemma safe_GIVE args : safe (GIVECommand (W := W) ca config env args).
Proof. unfold GIVECommand. site_walk. Qed.

Lemma safe_TAKE args : safe (TAKECommand (W := W) config env args).
Proof. unfold TAKECommand. site_walk. Qed.

Lemma safe_KICK args : safe (KICKCommand (W := W) env args).
Proof. unfold KICKCommand. site_walk. Qed.

(** *** CHANGE *)

(** What a check gives is safe for every user. *)
Definition safe_setter (f : SetFunction) : Prop := ∀ u, sane u → triple (f u) (λ r, sane r.2 ∧ same_user u r.2).

Lemma setter_safe m : (∀ u, stays (same_user u) not_name m) → safe_setter (setter (W := W) m).
Proof.
  intros Hm u Hu. unfold setter. eapply triple_bind; [by apply triple_db_in, db_in_user|]. intros r Hr. by apply triple_ret.
Qed.

Lemma unless_refused_safe u why f : safe_setter f → sane u → triple (unless_refused (W := W) u why f) (λ r, sane r.2 ∧ same_user u r.2).
Proof.
  intros Hf Hu. destruct why; [|by apply Hf]. apply triple_then; [apply safe_part_reply|]. intros _. by apply triple_ret.
Qed.

Lemma safe_leech u : safe (leech_refused (W := W) ca u).
Proof. unfold leech_refused, NumLeeches. site_walk. Qed.
Lemma safe_allotment a u : safe (allotment_refused (W := W) ca a u).
Proof. unfold allotment_refused, NumAllotments. site_walk. Qed.
Lemma safe_number s n : safe (number (W := W) s n).
Proof. unfold number. site_walk. Qed.
Lemma safe_size s : safe (size (W := W) s).
Proof. unfold size. site_walk. Qed.
Lemma safe_rest_of s args : safe (rest_of (W := W) s args).
Proof. unfold rest_of. site_walk. Qed.
Lemma safe_only_gadmin : safe (only_gadmin (W := W) ca).
Proof. unfold only_gadmin. site_walk. Qed.
Lemma safe_all_mine uids : safe (all_mine (W := W) ca uids).
Proof. unfold all_mine. site_walk. Qed.

Hint Resolve safe_leech safe_allotment safe_number safe_size safe_rest_of safe_only_gadmin safe_all_mine : site.

Lemma change_flags_safe b m : (∀ u, stays (same_user u) not_name m) → safe_setter (change_flags (W := W) config b m).
Proof.
  intros Hm u Hu. unfold change_flags. apply triple_then; [site_walk|intros x]. apply triple_if; intros _.
  { apply triple_then; [apply safe_part_reply|]. intros _. by apply triple_ret. }
  eapply triple_bind; [by apply setter_safe|]. intros r [Hr1 Hr2]. apply triple_if; intros _; [|by apply triple_ret].
  eapply triple_weaken; [|apply setter_safe; [intros v; by apply S_AddFlag|done]]. intros r' [? (Hi & Hn & Hf)]. split; [done|].
  destruct Hr2 as (Hi2 & Hn2 & Hf2). split_and!; [congruence|congruence|auto].
Qed.

Lemma checked_safe d f : safe_setter f → triple (checked (W := W) d f) (λ c, safe_setter (set_ c)).
Proof. intros Hf. by apply triple_ret. Qed.

Lemma change_loop_safe c a2 uids n : safe_setter (set_ c) → safe (change_loop (W := W) c a2 uids n).
Proof.
  intros Hc. revert n. induction uids as [|uid uids IH]; intros n; cbn [change_loop]; [by apply triple_ret|].
  eapply triple_bind; [apply triple_db_in, db_Load_id|]. intros [u|] Hu; [|by apply IH]. destruct (Hu u eq_refl) as [Hs _].
  eapply triple_bind; [by apply Hc|]. intros r _. apply triple_if; intros _; [|by apply triple_ret].
  apply triple_then; [apply safe_siteop|]. intros _. apply IH.
Qed.

(** A check that only refuses or gives a safe setter *)
Abbreviation sound m := (triple m (λ c : Checked, safe_setter (set_ c))).

Ltac check_walk := repeat first
  [ apply triple_deny | apply triple_throw
  | match goal with
    | |- triple (checked _ (setter _)) _ => apply checked_safe, setter_safe; intros ?; solve [auto with stays]
    | |- triple (checked _ (change_flags _ _ _)) _ => apply checked_safe, change_flags_safe
    end
  | apply triple_if; intros ?
  | apply triple_then; [solve [site_walk] | intros ?]
  | progress cbn beta iota zeta
  | match goal with |- triple (match ?x with _ => _ end) _ => destruct x end ].

Lemma refused_setter_safe (ask : UserData → C (option str)) m :
  (∀ u, safe (ask u)) → (∀ u, stays (same_user u) not_name m) →
  safe_setter (λ u, why <- ask u;; unless_refused (W := W) u why (setter m)).
Proof.
  intros Ha Hm u Hu. apply triple_then; [apply Ha|]. intros why. apply unless_refused_safe; [|done]. by apply setter_safe.
Qed.

Lemma CheckRatio_sound args : sound (CheckRatio (W := W) ca config args).
Proof.
  unfold CheckRatio. check_walk. apply triple_ret. apply refused_setter_safe; [|auto with stays]. intros u. site_walk.
Qed.

Lemma CheckSectionRatio_sound args : sound (CheckSectionRatio (W := W) config args).
Proof. unfold CheckSectionRatio. check_walk. Qed.

Lemma CheckWeeklyAllotment_sound args : sound (CheckWeeklyAllotment (W := W) ca config args).
Proof.
  unfold CheckWeeklyAllotment. check_walk. apply triple_ret. apply refused_setter_safe; [|auto with stays]. intros u. site_walk.
Qed.

Lemma CheckFlags_sound args : sound (CheckFlags (W := W) config args).
Proof.
  unfold CheckFlags. check_walk; intros u; rename select (has_char (flag_char Deleted) _ = false) into Hd;
    apply has_char_false in Hd; by auto with stays.
Qed.

Lemma Check_sound argStr a2 args : sound (Check (W := W) ca config PathFromUser from_simple_string argStr a2 args).
Proof.
  unfold Check. destruct (List.find _ _) as [d|] eqn:Ed; [|apply triple_throw].
  apply triple_then; [apply safe_allow|]. intros b. apply triple_if; intros _; [apply triple_throw|].
  apply triple_if; intros _; [apply triple_throw|]. apply find_some in Ed as [Hin _]. cbn in Hin.
  repeat destruct Hin as [<-|Hin]; [..|done]; cbn [check setting];
    first [apply CheckRatio_sound | apply CheckSectionRatio_sound | apply CheckWeeklyAllotment_sound | apply CheckFlags_sound
          | unfold CheckHomeDir, CheckStartUpDir, CheckIdleTime, CheckExpires, CheckNumLogins, CheckTagline, CheckComment,
              CheckMaxUpSpeed, CheckMaxDownSpeed, CheckMaxSimUp, CheckMaxSimDown; check_walk].
Qed.

Lemma safe_CHANGE argStr args : safe (CHANGECommand (W := W) ca config PathFromUser from_simple_string argStr args).
Proof.
  unfold CHANGECommand. apply triple_then; [apply safe_arg|]. intros a2. cbn zeta.
  eapply triple_bind; [apply Check_sound|]. intros c Hc. do 4 (apply triple_then; [site_walk|intros ?]).
  apply triple_if; intros _; [apply triple_throw|]. apply triple_then; [by apply change_loop_safe|]. intros n. site_walk.
Qed.

(** *** Groups *)

Lemma group_transaction_set {A} (f : field GroupData A) v sv :
  sv ≠ Group.SaveName → (∀ g, Group.id (set f v g) = Group.id g) → group_setter (transaction_set f v (save never sv)).
Proof. intros Hsv Hf g. exists sv, (set f v g). by split_and!. Qed.

Lemma safe_in_group g m : group_setter m → safe (in_db (W := W) (in_group g m)).
Proof. intros Hm. by apply triple_db_in, db_in_group. Qed.

Lemma safe_GRPADD argStr args : safe (GRPADDCommand (W := W) rounds argStr args).
Proof.
  unfold GRPADDCommand, Group_FromTemplate. site_walk.
  - eapply triple_weaken; [|by apply triple_db_in, db_group_Create_ok]. done.
  - apply safe_in_group, group_transaction_set; [done|by intros []].
Qed.

Lemma safe_GRPDEL args : safe (GRPDELCommand (W := W) args).
Proof.
  unfold GRPDELCommand, with_group, NumMembers. site_walk.
  apply triple_db_in. rename select (required_group _ = false) into Hr.
  apply orb_false_iff in Hr as [[_ ?%Z.eqb_neq]%orb_false_iff ?%Z.eqb_neq]. by apply db_group_Purge_ok.
Qed.

Lemma safe_GRPREN args : safe (GRPRENCommand (W := W) args).
Proof.
  unfold GRPRENCommand. apply triple_then; [apply safe_arg|]. intros a1. apply triple_if; intros _; [apply safe_refuse|].
  unfold with_group. eapply triple_bind; [apply triple_db_in, db_Group_Load|]. intros [g|] Hg; [|apply safe_refuse].
  apply triple_if; intros Hn; [apply safe_refuse|]. apply triple_then; [apply safe_arg|]. intros a2.
  apply triple_then; [|intros r; site_walk]. apply triple_db_in, db_Group_Rename_ok; [by eapply bool_decide_eq_false_1|by apply Hg].
Qed.

Lemma safe_group_number p s n : safe (group_number (W := W) p s n).
Proof. unfold group_number. site_walk. Qed.
Lemma safe_group_rest_of s args : safe (group_rest_of (W := W) s args).
Proof. unfold group_rest_of. site_walk. Qed.
Hint Resolve safe_group_number safe_group_rest_of : site.

Lemma GroupCheck_sound argStr a2 args : triple (GroupCheck (W := W) ca argStr a2 args) (λ c, group_setter c.2).
Proof.
  unfold GroupCheck. destruct (List.find _ _) as [d|] eqn:Ed; [|apply triple_throw].
  apply triple_then; [apply safe_allow|]. intros b. apply triple_if; intros _; [apply triple_throw|].
  apply triple_if; intros _; [apply triple_throw|]. apply find_some in Ed as [Hin _]. cbn in Hin.
  repeat destruct Hin as [<-|Hin]; [..|done]; cbn [gs_check group_setting];
    unfold CheckSlots, CheckLeechSlots, CheckAllotSlots, CheckMaxAllotSize, CheckMaxLogins, CheckDescription, CheckGroupComment;
    check_walk; apply triple_ret; apply group_transaction_set; (done || by intros []).
Qed.

Lemma safe_GRPCHANGE argStr args : safe (GRPCHANGECommand (W := W) ca argStr args).
Proof.
  unfold GRPCHANGECommand. apply triple_then; [apply safe_arg|]. intros a2. cbn zeta.
  eapply triple_bind; [apply GroupCheck_sound|]. intros c Hc. do 3 (apply triple_then; [site_walk|intros ?]).
  apply triple_then; [|intros _; site_walk]. apply safe_iter. intros gid _. site_walk. by apply safe_in_group.
Qed.

(** The copy in the session may be out of date, but only its tagline is saved. *)
Lemma safe_TAGLINE argStr : safe (TAGLINECommand (W := W) ca argStr).
Proof.
  unfold TAGLINECommand. apply triple_if; intros _; [apply safe_refuse|]. apply triple_then; [apply safe_gets|]. intros me.
  apply triple_then; [|intros r; apply triple_then; [by apply triple_frame|intros ?; site_walk]].
  apply triple_db_in, triple_db_holds. intros s Hs. eapply st_holds_conseq; [apply in_user_holds|].
  { apply Forall_singleton. by destruct me. }
  intros r s' [Hone _]. split; [|done]. eapply ok_one_user; [| |exact Hone|done]; intros x x' (l & Hl & ->) _.
  - intros Hx. assert (l = [] ∨ ∃ d, l = [(SaveTagline, d)]) as [->|[d ->]]; [|done|by destruct x].
    apply sublist_cons_r in Hl as [Hl|(l' & -> & Hl)]; apply sublist_nil_r in Hl as ->; [by left|right; by eexists].
  - intros Hx. assert (l = [] ∨ ∃ d, l = [(SaveTagline, d)]) as [->|[d ->]]; [|done|by destruct x].
    apply sublist_cons_r in Hl as [Hl|(l' & -> & Hl)]; apply sublist_nil_r in Hl as ->; [by left|right; by eexists].
Qed.

(** ** Runs of the server *)

Inductive site_command : Type :=
  | ADDIP (args : list str) | DELIP (args : list str) | CHPASS (args : list str) | PASSWD (args : list str)
  | CHGADMIN (args : list str) | CHGRP (args : list str) | SETPGRP (args : list str)
  | DELUSER (args : list str) | READD (args : list str) | PURGE (args : list str) | RENUSER (args : list str)
  | ADDUSER (args : list str) | GADDUSER (args : list str) | TADDUSER (args : list str)
  | GIVE (args : list str) | TAKE (args : list str) | KICK (args : list str) | TAGLINE (argStr : str)
  | CHANGE (argStr : str) (args : list str)
  | GRPADD (argStr : str) (args : list str) | GRPDEL (args : list str) | GRPREN (args : list str)
  | GRPCHANGE (argStr : str) (args : list str).

Definition run_command (c : site_command) : C unit :=
  match c with
  | ADDIP args => ADDIPCommand ca args
  | DELIP args => DELIPCommand ca args
  | CHPASS args => CHPASSCommand ca env args
  | PASSWD args => PASSWDCommand ca env args
  | CHGADMIN args => CHGADMINCommand ca args
  | CHGRP args => CHGRPCommand ca args
  | SETPGRP args => SETPGRPCommand ca args
  | DELUSER args => DELUSERCommand ca config env args
  | READD args => READDCommand ca args
  | PURGE args => PURGECommand ca args
  | RENUSER args => RENUSERCommand config args
  | ADDUSER args => ADDUSERCommand ca config env rounds args
  | GADDUSER args => GADDUSERCommand ca config env rounds args
  | TADDUSER args => TADDUSERCommand ca config env rounds args
  | GIVE args => GIVECommand ca config env args
  | TAKE args => TAKECommand config env args
  | KICK args => KICKCommand env args
  | TAGLINE argStr => TAGLINECommand ca argStr
  | CHANGE argStr args => CHANGECommand ca config PathFromUser from_simple_string argStr args
  | GRPADD argStr args => GRPADDCommand rounds argStr args
  | GRPDEL args => GRPDELCommand args
  | GRPREN args => GRPRENCommand args
  | GRPCHANGE argStr args => GRPCHANGECommand ca argStr args
  end.

Lemma run_command_safe c : safe (run_command c).
Proof.
  destruct c; cbn [run_command];
    eauto using safe_ADDIP, safe_DELIP, safe_CHPASS, safe_PASSWD, safe_CHGADMIN, safe_CHGRP, safe_SETPGRP, safe_DELUSER,
      safe_READD, safe_PURGE, safe_RENUSER, safe_ADDUSER_execute, safe_GADDUSER, safe_TADDUSER, safe_GIVE, safe_TAKE, safe_KICK,
      safe_TAGLINE, safe_CHANGE, safe_GRPADD, safe_GRPDEL, safe_GRPREN, safe_GRPCHANGE.
Qed.

End commands.

Section reach.
Context {W : Type} `{Mongo W, !Collection W UserData, !Collection W GroupData, Split}.
Context `{CaseConv, Fnmatch, RegexMatch, BoostCast, ReplaceAll, Trim}.

(** What the rest of the system writes between two of these commands, logins, transfers,
    nukes and other servers among it: no account goes, no user is marked as deleted or
    not any more, and no name changes. *)
Definition other_writes (d d' : Db W) : Prop :=
  (∀ i u, users d !! i = Some u → ∃ v, users d' !! i = Some v ∧ name v = name u ∧ HasFlag v Deleted = HasFlag u Deleted) ∧
  ∀ i g, groups d !! i = Some g → ∃ v, groups d' !! i = Some v ∧ Group.name v = Group.name g.

(** Site commands of any session, one after the other: the caches, the
    configuration and all of the state but the database may be others each time. *)
Inductive reachable (d : Db W) : Db W → Prop :=
  | reach_start : reachable d d
  | reach_command ca rounds config env path date s c :
      reachable d (db s) → reachable d (db (run_command ca rounds config env path date c s).2)
  | reach_other d1 d2 : reachable d d1 → other_writes d1 d2 → reachable d d2.

Lemma other_writes_required d d' : other_writes d d' → required (users d) (groups d) → required (users d') (groups d').
Proof.
  intros [Hu Hg] [(m & Hm & Hmd) (t & Ht & Htd & Htn) [g0 Hg0] (g1 & Hg1 & Hgn)]. split.
  - destruct (Hu 0 m Hm) as (v & Hv & _ & Hd). exists v. split; [done|congruence].
  - destruct (Hu 1 t Ht) as (v & Hv & Hn & Hd). exists v. split_and!; [done|congruence..].
  - destruct (Hg 0 g0 Hg0) as (v & Hv & _). by exists v.
  - destruct (Hg 1 g1 Hg1) as (v & Hv & Hn). exists v. split; [done|congruence].
Qed.

(** The accounts the server needs.  On a database with the master user (id 0),
    the template user (id 1, named default) and the two groups like them, whatever
    sequence of site commands is run (the twenty-three modelled ones, in any
    sessions, with any arguments, rights and configurations), and however calls to
    the database fail, and whatever else is written between them that removes, deletes
    and renames no account, these accounts exist, the users are not marked as deleted,
    and the templates are still named default. *)
Lemma required_accounts_kept
  `{!CollectionOk W UserData groups_in, !CollectionOk W GroupData users_in, !MongoOk W (λ w, (users_in w, groups_in w))} d d' :
  reachable d d' → required (users d) (groups d) → required (users d') (groups d').
Proof.
  intros Hreach Hd. induction Hreach as [|ca rounds config env path date s c _ IH|d1 d2 _ IH Ho]; [done|by apply run_command_safe|].
  by apply (other_writes_required d1).
Qed.

End reach.

(** ** Example: the master tries to delete the template *)

Module Example.

#[local] Existing Instances ref_split ref_fnmatch ref_replace_all ref_case ref_trim.

Definition regex : RegexMatch := λ _ _, true.
Definition cast : BoostCast := {| lexical_cast := StrTo; numeric_cast _ _ n := Some n |}.
#[local] Existing Instances regex cast.

Definition user (i : Z) (n : string) (fl : string) : UserData :=
  set f_flags (lit fl) (set f_name (lit n) (set f_id i (default_UserData 0))).
Definition group (i : Z) (n : string) : GroupData := set g_name (lit n) (set g_id i default_GroupData).

Definition start : Db Memory := MkDb
  ({[ 0 := user 0 "ebftpd" "1"; 1 := user 1 "default" "3" ]}, {[ 0 := group 0 "ebftpd"; 1 := group 1 "default" ]}) [].

Definition caches : Caches := {|
  UIDToName _ := []; NameToUID _ := -1; UIDToPrimaryGID _ := -1; GIDToName _ := []; NameToGID _ := -1
|}.
Definition configuration : SiteConfig := {|
  MaximumRatio := 10; Sections := ∅; IsMaster _ := true; BannedUsers := []; TotalUsersLimit := -1
|}.
Definition environment : SiteEnv := {|
  MB_text _ := []; HashPassword _ _ := []; salt_of _ := []; kicked_by _ _ := 0
|}.

Definition session : Site Memory := MkSite start ∅ [] [] (user 0 "ebftpd" "1") [] [] [].

Definition command : site_command := DELUSER [lit "DELUSER"; lit "default"].
Definition after : Site Memory :=
  (run_command caches 1 configuration environment (λ p, p) (λ _, None) command session).2.

Example refused : replies after = [Reply 550 (lit "That user is required by the server so cannot be deleted.")].
Proof. vm_compute. reflexivity. Qed.

Lemma start_required : required (users start) (groups start).
Proof.
  split.
  - eexists. split; [vm_compute; reflexivity|vm_compute; reflexivity].
  - eexists. split; [vm_compute; reflexivity|]. split; vm_compute; reflexivity.
  - eexists. vm_compute. reflexivity.
  - eexists. split; vm_compute; reflexivity.
Defined.

End Example.

#[local] Existing Instances ref_split ref_fnmatch ref_replace_all ref_case ref_trim Example.regex Example.cast.

Lemma required_accounts_kept_example : required (users (db Example.after)) (groups (db Example.after)).
Proof.
  apply (required_accounts_kept Example.start).
  - apply (reach_command Example.start Example.caches 1 Example.configuration Example.environment (λ p, p) (λ _, None)
             Example.session Example.command).
    apply reach_start.
  - exact Example.start_required.
Defined.
