(* ===== verification/SiteCredits.v ===== *)
(** * Giving credits away: cmd/site/commands.cpp

    What GIVE does to the credits of all users, on a database that does not fail:
    a user who may only give his own creates none. *)

From stdpp Require Import prelude gmap strings.
From S2P Require Import Prelude CxxString State Numbers Settings Acl Strength NetFtp Group Transaction UserData User Rights Policies Credits Connection Accounts Memory SiteState SiteUsers.
Local Open Scope Z_scope.
Local Open Scope list_scope.
Local Open Scope st_scope.

(** ** The credits of all users in a section *)

Definition total (section : str) (m : gmap Z UserData) : Z := map_fold (λ _ u n, SectionCredits u section + n) 0 m.

Lemma total_insert section m i u : m !! i = None → total section (<[i := u]> m) = SectionCredits u section + total section m.
Proof. intros Hi. unfold total. rewrite map_fold_insert_L; [done|lia|done]. Qed.

Lemma total_alter section m i u f : m !! i = Some u →
  total section (alter f i m) = total section m - SectionCredits u section + SectionCredits (f u) section.
Proof.
  intros Hi. rewrite <-(insert_delete_id m i u Hi) at 2. rewrite (total_insert section (delete i m)) by apply lookup_delete_eq.
  replace (alter f i m) with (<[i := f u]> (delete i m)).
  - rewrite total_insert by apply lookup_delete_eq. lia.
  - apply map_eq. intros j. destruct (decide (j = i)) as [->|].
    + by rewrite lookup_insert_eq, lookup_alter_eq, Hi.
    + by rewrite lookup_insert_ne, lookup_delete_ne, lookup_alter_ne.
Qed.

Lemma total_alter_none section m i f : m !! i = None → total section (alter f i m) = total section m.
Proof.
  intros Hi. f_equal. apply map_eq. intros j. destruct (decide (j = i)) as [->|].
  - by rewrite lookup_alter_eq, Hi. - by rewrite lookup_alter_ne.
Qed.

Lemma user_credits_total f section u : SectionCredits (user_credits f u) section = default 0 (f (credits u) !! section).
Proof. by destruct u. Qed.

Lemma IncrCredits_value section k c : default 0 (IncrCredits section k c !! section) = default 0 (c !! section) + k.
Proof. unfold IncrCredits. destruct (c !! section) eqn:E; by rewrite lookup_insert_eq, ?E. Qed.

Lemma DecrCredits_value section k c : fst (DecrCredits section k false c) = true →
  default 0 (snd (DecrCredits section k false c) !! section) = default 0 (c !! section) - k ∧
  (k = 0 ∨ ∃ v, c !! section = Some v ∧ k ≤ v).
Proof.
  unfold DecrCredits. destruct (Z.eqb_spec k 0) as [->|]; [cbn; split; [lia|by left]|].
  destruct (c !! section) as [v|] eqn:E; [|done]. cbn. destruct (Z.leb_spec k v); [|done].
  intros _. cbn. rewrite lookup_insert_eq. split; [done|right; by exists v].
Qed.

Lemma DecrCredits_enough section k c : k = 0 ∨ (∃ v, c !! section = Some v ∧ k ≤ v) → fst (DecrCredits section k false c) = true.
Proof.
  unfold DecrCredits. destruct (Z.eqb_spec k 0); [done|]. intros [?|(v & -> & ?)]; [done|]. cbn. destruct (Z.leb_spec k v); [done|lia].
Qed.

Lemma other_section section section' k c :
  section' ≠ section → IncrCredits section k c !! section' = c !! section' ∧
                       snd (DecrCredits section k false c) !! section' = c !! section'.
Proof.
  intros Hne. unfold IncrCredits, DecrCredits. split; repeat case_match; cbn; by rewrite ?lookup_insert_ne.
Qed.

Section give.
Context {W : Type} `{Mongo W, !Collection W UserData, !Collection W GroupData}.
Context `{!CollectionOk W UserData groups_in, !CollectionOk W GroupData users_in, !MongoOk W (λ w, (users_in w, groups_in w))}.
Context `{Split, CaseConv, Fnmatch, RegexMatch, BoostCast}.
Context (ca : Caches) (config : SiteConfig) (env : SiteEnv).

Abbreviation C := (ST (Site W) exit).

(** Nothing that GIVE depends on has changed. *)
Definition quiet (s s' : Site W) : Prop :=
  obs (db s') = obs (db s) ∧ self s' = self s ∧ acls s' = acls s ∧ replies s' = replies s.

Lemma quiet_refl s : quiet s s.
Proof. done. Qed.

Lemma quiet_trans s1 s2 s3 : quiet s1 s2 → quiet s2 s3 → quiet s1 s3.
Proof. unfold quiet. intros (?&?&?&?) (?&?&?&?). split_and!; congruence. Qed.

(** The amounts that the user of the session pays himself *)
Definition gives_own (s : Site W) : bool :=
  let '(giveown, l) := AllowSiteCmd (GIDToName ca) (self s) (lit "giveown") (acls s) in
  giveown && negb (AllowSiteCmd (GIDToName ca) (self s) (lit "give") l).1.

(** A command that was refused: nobody has lost or gained anything. *)
Definition refused (s : Site W) (r : result exit unit) (s' : Site W) : Prop :=
  obs (db s') = obs (db s) ∧ ∀ u, r = Ok u → ∃ text, replies s' = replies s ++ [Reply ActionNotOkay text].

Definition paid (own : bool) (uid : Z) (section : str) (k : Z) (m : gmap Z UserData) : gmap Z UserData :=
  if own then alter (user_credits (λ c, snd (DecrCredits section k false c))) uid m else m.

Definition given (s : Site W) (own : bool) (u : UserData) (section : str) (k : Z) (s' : Site W) : Prop :=
  groups (db s') = groups (db s) ∧
  users (db s') = alter (user_credits (IncrCredits section k)) (id u) (paid own (id (self s)) section k (users (db s))) ∧
  (own = true → k = 0 ∨ ∃ me v, users (db s) !! id (self s) = Some me ∧ credits me !! section = Some v ∧ k ≤ v) ∧
  ∃ text, replies s' = replies s ++ [Reply CommandOkay text].

Lemma total_paid section' own uid section k m :
  (own = true → k = 0 ∨ ∃ me v, m !! uid = Some me ∧ credits me !! section = Some v ∧ k ≤ v) →
  total section' (paid own uid section k m) = total section' m - (if own && bool_decide (section' = section) then k else 0).
Proof.
  unfold paid. destruct own; [|cbn; lia]. cbn [andb]. intros Hk. specialize (Hk eq_refl).
  destruct (m !! uid) as [me|] eqn:Hme.
  - assert (k = 0 ∨ (∃ v, credits me !! section = Some v ∧ k ≤ v)) as Hc by naive_solver.
    rewrite (total_alter _ _ _ _ _ Hme), user_credits_total. case_bool_decide as Hs.
    + subst section'. rewrite (proj1 (DecrCredits_value section k (credits me) (DecrCredits_enough section k (credits me) Hc))). unfold SectionCredits. lia.
    + rewrite (proj2 (other_section section section' k _ Hs)). unfold SectionCredits. lia.
  - rewrite total_alter_none by done. destruct Hk as [->|(me & ? & ? & _)]; [destruct (bool_decide _); lia|done].
Qed.

Lemma amount_holds a (s : Site W) : st_holds (amount a) s (λ r s', s' = s ∧ ∀ k, r = Ok k → ParseSize a = Ok k).
Proof. unfold amount. destruct (ParseSize a) eqn:E; [|done]. split; [done|]. by intros ? [= <-]. Qed.

Lemma Load_quiet n (s : Site W) : st_holds (in_db (Load n)) s
  (λ r s', quiet s s' ∧ ∀ u, r = Ok (Some u) → users (db s) !! id u = Some u ∧ name u = n).
Proof.
  apply in_db_holds. eapply st_holds_conseq; [apply query_user_holds|]. intros r d [E Hq]. split; [by split_and!|].
  destruct r as [a|]; [|done]. intros u [= ->]. destruct (Hq u eq_refl) as [Hu Hn]. split; [done|]. by apply bool_decide_eq_true in Hn.
Qed.

Lemma credits_section_holds args (s : Site W) : st_holds (credits_section config args) s
  (λ r s', match r with Ok None => refused s (Ok tt) s' | Ok (Some _) => s' = s | Throw _ => obs (db s') = obs (db s) end).
Proof.
  unfold credits_section. apply st_holds_bind. eapply st_holds_conseq; [apply arg_holds|]. intros [a1|e] s1 [-> _]; [|done].
  destruct (negb _); [done|]. apply st_holds_bind. eapply st_holds_conseq; [apply arg_holds|]. intros [a2|e] s2 [-> _]; [|done].
  destruct (_ <? _)%nat; [done|]. destruct (Sections config !! to_upper a2) as [[]|]; [done| |]; (split; [done|by eexists]).
Qed.

Lemma own_run (s : Site W) : ∃ l, andM (allow ca (lit "giveown")) (notM (allow ca (lit "give"))) s = (Ok (gives_own s), set_acls l s).
Proof.
  unfold gives_own, andM, notM, allow, st_bind, st_ret.
  destruct (AllowSiteCmd (GIDToName ca) (self s) (lit "giveown") (acls s)) as [[] l]; [|by exists l].
  change (self (set_acls l s)) with (self s). change (acls (set_acls l s)) with l.
  destruct (AllowSiteCmd (GIDToName ca) (self s) (lit "give") l) as [b l']. by exists l'.
Qed.

Context `{!Reliable W UserData}.

(** What the payer has paid when the code goes on *)
Lemma pay_own_holds section k (s : Site W) : st_holds (pay_own ca section k) s
  (λ r s', match r with
           | Ok None => refused s (Ok tt) s'
           | Ok (Some (own, _)) => own = gives_own s ∧ groups (db s') = groups (db s) ∧ replies s' = replies s ∧ self s' = self s ∧
               users (db s') = paid own (id (self s)) section k (users (db s)) ∧
               (own = true → k = 0 ∨ ∃ me v, users (db s) !! id (self s) = Some me ∧ credits me !! section = Some v ∧ k ≤ v)
           | Throw _ => obs (db s') = obs (db s)
           end).
Proof.
  unfold pay_own, st_holds. destruct (own_run s) as [l El]. rewrite (st_bind_run _ _ _ _ _ El).
  destruct (gives_own s); [|by split_and!]. cbn [negb].
  rewrite (st_bind_run (st_gets self) _ (set_acls l s) (self s) (set_acls l s) eq_refl).
  destruct (_ || _); [split; [done|by eexists]|].
  destruct (db_DecrCredits_reliable (id (self s)) section k false (db (set_acls l s))) as (d & Ed & Hg & Hu). cbn in Ed, Hg, Hu.
  rewrite (st_bind_run _ _ _ _ _ (in_db_run _ (set_acls l s) _ _ Ed)).
  destruct (users (db s) !! id (self s)) as [me|] eqn:Hme.
  - destruct (fst (DecrCredits section k false (credits me))) eqn:Ef; cbn.
    + split_and!; [done..|]. intros _. destruct (DecrCredits_value section k (credits me) Ef) as [_ [?|(v & ? & ?)]]; [by left|right; by exists me, v].
    + split; [|intros ? _; by eexists]. apply injective_projections; cbn; [|done]. rewrite Hu.
      apply map_eq. intros i. destruct (decide (i = id (self s))) as [->|]; [|by rewrite lookup_alter_ne].
      rewrite lookup_alter_eq, Hme. cbn. unfold user_credits.
      destruct (DecrCredits section k false (credits me)) as [b c] eqn:Edc. cbn in Ef. subst b.
      rewrite (DecrCredits_refused _ _ _ _ Edc). by destruct me.
  - cbn. destruct (Z.eqb_spec k 0) as [->|]; cbn.
    + split_and!; [done..|]. intros _. by left.
    + split; [|intros ? _; by eexists]. apply injective_projections; cbn; [|done]. rewrite Hu.
      apply map_eq. intros i. destruct (decide (i = id (self s))) as [->|]; [|by rewrite lookup_alter_ne].
      by rewrite lookup_alter_eq, Hme.
Qed.

(** The section and the words of the command, as [credits_section] gives them *)
Definition asked (args : list str) (section : str) (rest : list str) (s : Site W) : Prop :=
  (credits_section config args s).1 = Ok (Some (section, rest)).

Lemma GIVE_holds args (s : Site W) : st_holds (GIVECommand ca config env args) s (λ r s', refused s r s' ∨
  r = Ok tt ∧ ∃ section rest n word u k, asked args section rest s ∧ rest !! 1%nat = Some n ∧ rest !! 2%nat = Some word ∧
    ParseSize word = Ok k ∧ users (db s) !! id u = Some u ∧ name u = n ∧ given s (gives_own s) u section k s').
Proof.
  unfold GIVECommand. apply st_holds_bind. pose proof (credits_section_holds args s) as Hc. unfold st_holds in Hc |- * at 1.
  destruct (credits_section config args s) as [[[[section rest]|]|e] s1] eqn:Ec; cbn [fst snd] in *; [subst s1|by left|by left].
  assert (asked args section rest s) as Hask by (unfold asked; by rewrite Ec). clear Ec.
  apply st_holds_bind. eapply st_holds_conseq; [apply arg_holds|]. intros [n|e] s1 [-> Hn]; [|by left]. specialize (Hn n eq_refl).
  unfold with_user. apply st_holds_bind. eapply st_holds_conseq; [apply Load_quiet|]. intros [[u|]|e] s2 [Hq Hu]; [| |left; by split; [apply Hq|]].
  2: { left. destruct Hq as (E & _ & _ & Er). split; [done|]. intros _ _. eexists. cbn. by rewrite Er. }
  destruct (Hu u eq_refl) as [Hu1 Hu2]. destruct Hq as (E & Es & Ea & Er).
  apply st_holds_bind. eapply st_holds_conseq; [apply arg_holds|]. intros [word|e] s3 [-> Hw]; [|by left]. specialize (Hw word eq_refl).
  apply st_holds_bind. eapply st_holds_conseq; [apply amount_holds|]. intros [k|e] s4 [-> Hk]; [|by left]. specialize (Hk k eq_refl).
  apply st_holds_bind. eapply st_holds_conseq; [apply pay_own_holds|].
  assert (gives_own s2 = gives_own s) as -> by (unfold gives_own; by rewrite Es, Ea). rewrite Es. injection E as Eu Eg. rewrite Eu.
  intros [[[own os]|]|e] s5 Hp; [| |left; split; [|done]].
  2: { left. destruct Hp as [E Hr]. split; [exact (eq_trans E (f_equal2 pair Eu Eg))|]. by rewrite Er in Hr. }
  2: { exact (eq_trans Hp (f_equal2 pair Eu Eg)). }
  destruct Hp as (-> & Hg & Hr & Hs5 & Hm & Hpay).
  destruct (db_IncrCredits_reliable (id u) section k (db s5)) as (d & Ed & Hgd & Hud).
  unfold st_holds. rewrite (st_bind_run _ _ _ _ _ (in_db_run _ s5 _ _ Ed)). unfold reply.
  rewrite (st_bind_run (st_modify _) _ _ tt _ eq_refl). set (s6 := set_replies _ _). right.
  assert (∀ l, given s (gives_own s) u section k (set_records l s6)) as Hgiven.
  { intros l. split; [cbn; congruence|]. split; [cbn; by rewrite Hud, Hm|]. split; [done|]. eexists. cbn. by rewrite Hr, Er. }
  split; [by destruct (gives_own s)|]. exists section, rest, n, word, u, k. do 6 (split; [done|]).
  destruct (gives_own s); [exact (Hgiven (records s6))|apply Hgiven].
Qed.

(** C24: Giving credits.  On a database that does not fail, GIVE either leaves every
    user as he was, or gives the user named, and nobody else, the amount named in one
    section.  From a user who may give his own credits only, this amount is taken
    first, and only if he has it, so that the sum of the credits of all users does
    not change; else the sum grows by the amount.  The other sections stay.  (The
    amount is what ParseSize reads, so it can have wrapped around to a negative one.) *)
Theorem GIVE_conserves args (s : Site W) r s' : GIVECommand ca config env args s = (r, s') →
  refused s r s' ∨
  ∃ section rest n word u k, asked args section rest s ∧ rest !! 1%nat = Some n ∧ rest !! 2%nat = Some word ∧ ParseSize word = Ok k ∧
    users (db s) !! id u = Some u ∧ name u = n ∧ given s (gives_own s) u section k s' ∧
    total section (users (db s')) = total section (users (db s)) + (if gives_own s then 0 else k) ∧
    ∀ section', section' ≠ section → total section' (users (db s')) = total section' (users (db s)).
Proof.
  intros E. pose proof (st_holds_run _ _ _ _ _ (GIVE_holds args s) E) as [?|Hg]; [by left|right].
  destruct Hg as (_ & section & rest & n & word & u & k & Hask & Hn & Hw & Hk & Hu & Hnu & Hgiven).
  exists section, rest, n, word, u, k. do 7 (split; [done|]). destruct Hgiven as (_ & Hm & Hpay & _). rewrite Hm.
  assert (∃ u', paid (gives_own s) (id (self s)) section k (users (db s)) !! id u = Some u') as [u' Hu'].
  { unfold paid. destruct (gives_own s); [|by eexists]. destruct (decide (id u = id (self s))) as [<-|].
    - rewrite lookup_alter_eq, Hu. by eexists. - rewrite lookup_alter_ne by done. by eexists. }
  split.
  - rewrite (total_alter _ _ _ _ _ Hu'), user_credits_total, IncrCredits_value.
    rewrite (total_paid section (gives_own s) (id (self s)) section k _ Hpay), bool_decide_true by done.
    change (default 0 (credits u' !! section)) with (SectionCredits u' section). destruct (gives_own s); cbn [andb]; lia.
  - intros section' Hne. rewrite (total_alter _ _ _ _ _ Hu'), user_credits_total, (proj1 (other_section section section' k _ Hne)).
    rewrite (total_paid section' (gives_own s) (id (self s)) section k _ Hpay), bool_decide_false by done.
    change (default 0 (credits u' !! section')) with (SectionCredits u' section'). destruct (gives_own s); cbn [andb]; lia.
Qed.

End give.

(** ** Example: a user who has 10 MB gives 3 of them *)

Module Example.

#[local] Existing Instances ref_split ref_fnmatch ref_case.

Definition regex : RegexMatch := λ _ _, true.
Definition cast : BoostCast := {| lexical_cast := StrTo; numeric_cast _ _ n := Some n |}.
#[local] Existing Instances regex cast.

Definition user (i : Z) (n : string) (kBytes : Z) : UserData :=
  set f_ratio {[ [] := 3 ]} (set f_credits {[ [] := kBytes ]} (set f_name (lit n) (set f_id i (default_UserData 0)))).

Definition start : Db Memory := MkDb ({[ 2 := user 2 "alice" 10240; 3 := user 3 "bob" 5 ]}, ∅) [].

Definition caches : Caches := {|
  UIDToName _ := []; NameToUID _ := -1; UIDToPrimaryGID _ := -1; GIDToName _ := []; NameToGID _ := -1
|}.
Definition configuration : SiteConfig := {|
  MaximumRatio := 10; Sections := ∅; IsMaster _ := false; BannedUsers := []; TotalUsersLimit := -1
|}.
Definition environment : SiteEnv := {|
  MB_text _ := []; HashPassword _ _ := []; salt_of _ := []; kicked_by _ _ := 0
|}.

Definition session : Site Memory :=
  MkSite start {[ lit "giveown" := FromString (lit "*") ]} [] [] (user 2 "alice" 10240) [] [] [].

Definition args : list str := [lit "GIVE"; lit "bob"; lit "3M"].
Definition outcome := GIVECommand caches configuration environment args session.

End Example.

#[local] Existing Instances ref_split ref_fnmatch ref_case Example.regex Example.cast.

Definition kBytes_of (i : Z) (w : Db Memory) : option Z := u ← users w !! i; credits u !! [].

Example GIVE_3M : (gives_own Example.caches Example.session, Example.outcome.1, kBytes_of 2 (db Example.outcome.2), kBytes_of 3 (db Example.outcome.2)) =
  (true, Ok tt, Some 7168, Some 3077).
Proof. vm_compute. reflexivity. Qed.

(** An amount that wraps around to -1 MB takes from the other. *)
Example GIVE_negative :
  let s := (GIVECommand Example.caches Example.configuration Example.environment
              [lit "GIVE"; lit "bob"; lit "18014398509481983M"] Example.session).2 in
  (kBytes_of 2 (db s), kBytes_of 3 (db s)) = (Some 11264, Some (-1019)).
Proof. vm_compute. reflexivity. Qed.

Lemma GIVE_conserves_witness :
  gives_own Example.caches Example.session = true ∧ users (db Example.outcome.2) ≠ users (db Example.session) ∧
  (refused Example.session Example.outcome.1 Example.outcome.2 ∨
   ∃ section rest n word u k, asked Example.configuration Example.args section rest Example.session ∧
     rest !! 1%nat = Some n ∧ rest !! 2%nat = Some word ∧ ParseSize word = Ok k ∧
     users (db Example.session) !! id u = Some u ∧ name u = n ∧
     given Example.session (gives_own Example.caches Example.session) u section k Example.outcome.2 ∧
     total section (users (db Example.outcome.2)) =
       total section (users (db Example.session)) + (if gives_own Example.caches Example.session then 0 else k) ∧
     ∀ section', section' ≠ section → total section' (users (db Example.outcome.2)) = total section' (users (db Example.session))).
Proof.
  split; [vm_compute; reflexivity|]. split.
  - intros E. assert (kBytes_of 2 (db Example.outcome.2) = kBytes_of 2 (db Example.session)) as E2 by (unfold kBytes_of; by rewrite E).
    vm_compute in E2. discriminate.
  - apply (GIVE_conserves Example.caches Example.configuration Example.environment). apply surjective_pairing.
Defined.
