(* ===== verification/SiteLicence.v ===== *)
(** * Who may change what: cmd/site/change.cpp

    What SITE CHANGE does to each user, and what must be granted for it, on a
    database that may fail at any time. *)

From stdpp Require Import prelude gmap strings.
From S2P Require Import Prelude CxxString State Numbers Settings Acl Strength Group Transaction UserData User Rights Policies Connection Accounts Memory Saves SiteState SiteChange.
Local Open Scope Z_scope.
Local Open Scope list_scope.
Local Open Scope st_scope.

(** ** What a save changes

    [only sv x x']: [x'] differs from [x] in what the save [sv] writes at most. *)

Definition only (sv : Save) (x x' : UserData) : Prop := x' = copy_save sv x' x.

Lemma only_refl sv x : only sv x x.
Proof. unfold only. by destruct sv, x. Qed.

Lemma only_copy sv d x : only sv x (copy_save sv d x).
Proof. unfold only. by destruct sv, d, x. Qed.

Lemma only_trans sv x y z : only sv x y → only sv y z → only sv x z.
Proof. unfold only. intros -> ->. by destruct sv, x, y, z. Qed.

(** The flags that CHANGE gives nobody *)
Definition guarded (f : Flag) : Prop := f = Deleted ∨ f = Gadmin.

(** A later copy of the user [u] *)
Definition settles (u d : UserData) : Prop :=
  id d = id u ∧ ∀ f, guarded f → HasFlag d f = true → HasFlag u f = true.

Lemma settles_refl u : settles u u.
Proof. done. Qed.

Lemma settles_set u {A} (f : field UserData A) `{!Irrelevant f} v d : settles u d → settles u (set f v d).
Proof. intros [Hi Hf]. unfold settles, HasFlag. by rewrite irrelevant_id, irrelevant_flags. Qed.

Lemma settles_flags u fl d : settles u d → (∀ f, guarded f → flag_char f ∈ fl → HasFlag d f = true) → settles u (set f_flags fl d).
Proof.
  intros [Hi Hf] Hfl. split; [by destruct d|]. intros f Hg. rewrite HasFlag_elem, flags_set_flags. eauto.
Qed.

Create HintDb settles.

Section setters.
Context (u : UserData).
Abbreviation T sv := (stays (settles u) (λ s, s = sv)).

Lemma T_ratio section r : T SaveRatio (SetSectionRatio never section r).
Proof.
  apply stays_transaction; [intros; by apply (settles_set u f_ratio)|]. apply stays_bind; [apply stays_gets|]. intros m.
  apply stays_bind; [apply stays_modify; intros; by apply (settles_set u f_ratio)|]. intros _. by apply stays_save.
Qed.

Lemma T_allotment section a : T SaveWeeklyAllotment (SetSectionWeeklyAllotment never section a).
Proof.
  apply stays_transaction; [intros; by apply (settles_set u f_weeklyAllotment)|]. apply stays_bind; [apply stays_gets|]. intros m.
  apply stays_bind; [apply stays_modify; intros; by apply (settles_set u f_weeklyAllotment)|]. intros _. by apply stays_save.
Qed.

Lemma T_set {A} (f : field UserData A) `{!Irrelevant f} v sv : T sv (transaction_set f v (save never sv)).
Proof.
  apply stays_transaction; [intros; by apply (settles_set u f)|].
  apply stays_bind; [apply stays_modify; intros; by apply (settles_set u f)|]. intros _. by apply stays_save.
Qed.

(** A change of the flags that adds no guarded one *)
Lemma T_flags (h : str → str) : (∀ f cur, guarded f → flag_char f ∈ h cur → flag_char f ∈ cur) →
  T SaveFlags (transaction f_flags (bind (gets flags) (λ cur, bind (modify (set f_flags (h cur))) (λ _, save never SaveFlags)))).
Proof.
  intros Hh. apply stays_transaction.
  - intros d d' [_ Hd] [Hi _]. split; [by destruct d'|]. intros f Hg. unfold HasFlag. rewrite flags_set_flags. by apply Hd.
  - intros st Hs. apply (stays_save (settles u) (λ s, s = SaveFlags) never SaveFlags eq_refl
      (Store (set f_flags (h (flags (data st))) (data st)) (saved st))).
    apply settles_flags; [done|]. intros f Hg Hf. apply HasFlag_elem. by apply Hh.
Qed.

Lemma T_DelFlags fl : T SaveFlags (DelFlags never fl).
Proof. apply (T_flags (del_chars fl)). intros f cur _. apply del_chars_elem. Qed.

Lemma T_AddFlags fl : (∀ f, guarded f → flag_char f ∉ fl) → T SaveFlags (AddFlags never fl).
Proof.
  intros Hfl. apply (T_flags (λ cur, sort_chars (add_chars fl cur))). intros f cur Hg.
  rewrite sort_chars_perm, (proj1 (add_chars_spec fl cur)). intros [?|?]; [done|]. by destruct (Hfl f).
Qed.

Lemma T_SetFlags fl : (∀ f, guarded f → flag_char f ∉ fl) → T SaveFlags (SetFlags never fl).
Proof. intros Hfl. apply (T_flags (λ _, fl)). intros f cur Hg Hf. by destruct (Hfl f). Qed.

Lemma T_AddTemplate : T SaveFlags (AddFlag never Template).
Proof. apply T_AddFlags. intros f [-> | ->] E%list_elem_of_singleton; done. Qed.

End setters.

#[export] Hint Resolve T_ratio T_allotment T_DelFlags T_AddFlags T_SetFlags T_AddTemplate : settles.
#[export] Hint Extern 1 (stays _ _ (_ never _)) => (apply T_set; apply _) : settles.

(** ** What the rules allow does not depend on what was asked before *)

Section may.
Context `{Split} (ca : Caches).

(** Whether a user may use a keyword *)
Definition may (u : UserData) (acls : gmap str ACL) (keyword : str) : bool := (AllowSiteCmd (GIDToName ca) u keyword acls).1.

Definition answer_of (u : UserData) (acls : gmap str ACL) (tok : str) : bool :=
  match acls !! tok with Some acl => (Evaluate acl (User_ACLInfo u (GIDToName ca))).1 | None => false end.

Lemma answer_insert u acls tok acl tok' : acls !! tok = Some acl →
  answer_of u (<[tok := (Evaluate acl (User_ACLInfo u (GIDToName ca))).2]> acls) tok' = answer_of u acls tok'.
Proof.
  intros Ha. unfold answer_of. destruct (decide (tok' = tok)) as [->|]; [|by rewrite lookup_insert_ne].
  rewrite lookup_insert_eq, Ha. unfold Evaluate. by destruct (finalResult acl) eqn:E; cbn; rewrite ?E.
Qed.

Lemma loop_answers u toks acls :
  (AllowSiteCmd_loop (GIDToName ca) u toks acls).1 = existsb (answer_of u acls) toks ∧
  ∀ tok, answer_of u (AllowSiteCmd_loop (GIDToName ca) u toks acls).2 tok = answer_of u acls tok.
Proof.
  revert acls. induction toks as [|tok toks IH]; intros acls; [done|]. cbn [AllowSiteCmd_loop existsb].
  unfold answer_of at 1. destruct (acls !! tok) as [acl|] eqn:Ea; [|by apply IH].
  pose proof (answer_insert u acls tok acl) as Hi. specialize (λ t, Hi t Ea).
  destruct (Evaluate acl (User_ACLInfo u (GIDToName ca))) as [[] acl']; cbn [fst snd orb] in *; [by split|].
  destruct (IH (<[tok := acl']> acls)) as [H1 H2]. split; [|by setoid_rewrite H2].
  rewrite H1. clear -Hi. induction toks as [|t toks IHt]; [done|]. cbn. by rewrite Hi, IHt.
Qed.

Lemma may_toks u acls keyword :
  may u acls keyword = match Split_ keyword (lit "|") false with [] => true | toks => existsb (answer_of u acls) toks end.
Proof.
  unfold may, AllowSiteCmd. destruct (Split_ _ _ _) as [|t toks] eqn:E; [done|]. apply loop_answers.
Qed.

Lemma may_after u acls keyword keyword' :
  may u (AllowSiteCmd (GIDToName ca) u keyword' acls).2 keyword = may u acls keyword.
Proof.
  rewrite !may_toks. destruct (Split_ keyword (lit "|") false) as [|t toks]; [done|].
  unfold AllowSiteCmd. destruct (Split_ keyword' (lit "|") false) as [|t' toks']; [done|].
  destruct (loop_answers u (t' :: toks') acls) as [_ H2]. induction (t :: toks) as [|x l IH]; [done|]. cbn [existsb]. by rewrite H2, IH.
Qed.

(** Of several keywords, any *)
Lemma may_either `{!SplitOk} u acls :
  may u acls (lit "change|changegadmin") = may u acls (lit "change") || may u acls (lit "changegadmin").
Proof.
  rewrite !may_toks. unfold Split_. change (lit "|") with ["|"%char]. rewrite !split_off.
  replace (split_char "|" (lit "change|changegadmin")) with [lit "change"; lit "changegadmin"] by (by vm_compute).
  replace (split_char "|" (lit "change")) with [lit "change"] by (by vm_compute).
  replace (split_char "|" (lit "changegadmin")) with [lit "changegadmin"] by (by vm_compute).
  cbn. by destruct (answer_of _ _ _), (answer_of _ _ _).
Qed.

End may.

(** ** What is licensed *)

(** What each setting writes *)
Definition saves_for : list (str * Save) := [
  (lit "ratio", SaveRatio); (lit "sratio", SaveRatio); (lit "wkly_allotment", SaveWeeklyAllotment);
  (lit "homedir", SaveHomeDir); (lit "startupdir", SaveStartUpDir); (lit "flags", SaveFlags);
  (lit "idle_time", SaveIdleTime); (lit "expires", SaveExpires); (lit "num_logins", SaveNumLogins);
  (lit "tagline", SaveTagline); (lit "comment", SaveComment); (lit "max_up_speed", SaveMaxUpSpeed);
  (lit "max_down_speed", SaveMaxDownSpeed); (lit "max_sim_up", SaveMaxSimUp); (lit "max_sim_down", SaveMaxSimDown)
].

Section licence.
Context {W : Type} `{Mongo W, !Collection W UserData, !Collection W GroupData}.
Context `{!CollectionOk W UserData groups_in, !CollectionOk W GroupData users_in, !MongoOk W (λ w, (users_in w, groups_in w))}.
Context `{Split, CaseConv, Fnmatch, RegexMatch, ReplaceAll}.
Context (ca : Caches) (config : SiteConfig) (PathFromUser : str → str) (from_simple_string : str → option Z).

Abbreviation C := (ST (Site W) exit).
Abbreviation settings := (settings (W := W) ca config PathFromUser from_simple_string).

(** The user of the session, and what the rules allow him *)
Context (me : UserData) (granted : str → bool).

Definition same_session (s : Site W) : Prop := self s = me ∧ ∀ k, may ca me (acls s) k = granted k.

(** The change of a user for which nothing is asked but who makes it: it adds no
    guarded flag, and the flags of siteops are for masters to change. *)
Definition permitted (sv : Save) (x x' : UserData) : Prop :=
  only sv x x' ∧ (sv = SaveFlags → HasFlag x Siteop = true → IsMaster config (name me) = true) ∧
  ∀ f, guarded f → HasFlag x' f = true → HasFlag x f = true.

Lemma permitted_trans sv x y z : permitted sv x y → permitted sv y z → permitted sv x z.
Proof.
  intros (A1 & A2 & A3) (A4 & A5 & A6). split_and!; [by eapply only_trans|done|]. intros f Hg Hz. by apply A3, A6.
Qed.

(** A change of a user of which a copy [u] was made before *)
Definition step (sv : Save) (u x x' : UserData) : Prop :=
  only sv x x' ∧ (sv = SaveFlags → HasFlag u Siteop = true → IsMaster config (name me) = true) ∧
  ∀ f, guarded f → HasFlag x' f = true → HasFlag x f = true ∨ HasFlag u f = true.

Lemma step_trans sv u x y z : step sv u x y → step sv u y z → step sv u x z.
Proof.
  intros (A1 & A2 & A3) (A4 & _ & A6). split_and!; [by eapply only_trans|done|]. intros f Hg Hz.
  destruct (A6 f Hg Hz); [by apply A3|by right].
Qed.

Lemma written_step sv u l x x' : Forall (λ sd : Save * UserData, sd.1 = sv ∧ settles u sd.2) l →
  (sv = SaveFlags → HasFlag u Siteop = true → IsMaster config (name me) = true) → written l x x' → step sv u x x'.
Proof.
  intros Hl Hm (l' & Hs & ->). assert (Forall (λ sd : Save * UserData, sd.1 = sv ∧ settles u sd.2) l') as Hl'.
  { apply Forall_forall. intros sd Hsd. rewrite Forall_forall in Hl. apply Hl. by eapply elem_of_sublist. }
  clear Hs. revert x. induction Hl' as [|[sv' d] l' [Hk [_ Hd]] Hl' IH]; intros x.
  { split_and!; [apply only_refl|done|]. intros f _. by left. }
  cbn [fst snd] in *. subst sv'. cbn [foldl fst snd]. apply (step_trans sv u x (copy_save sv d x)); [|apply IH].
  split_and!; [apply only_copy|done|]. intros f Hg Hf. assert (sv = SaveFlags ∨ sv ≠ SaveFlags) as [->|Hne] by (destruct sv; auto).
  - right. apply Hd; [done|]. by destruct x.
  - left. by destruct sv, x.
Qed.

(** The state while [u] is changed *)
Definition changing (sv : Save) (u : UserData) (s s' : Site W) : Prop :=
  same_session s' ∧ one_user (id u) (step sv u) (db s) (db s').

Lemma changing_obs sv u s s1 s2 : changing sv u s s1 → obs (db s2) = obs (db s1) → same_session s2 → changing sv u s s2.
Proof. intros [_ Ho] E Hs. split; [done|]. by eapply one_user_obs_r. Qed.

(** What does not change the collections and the session *)
Definition frame {A} (m : C A) : Prop := ∀ s, same_session s → same_session (m s).2 ∧ obs (db (m s).2) = obs (db s).

Lemma frame_changing {A} sv u s (m : C A) : frame m → st_triple (changing sv u s) m (λ _, True).
Proof.
  intros Hm s' [Hs' Ho]. destruct (Hm s' Hs') as [A1 A2]. split; [|done]. by apply (changing_obs sv u s s').
Qed.

Lemma frame_ret {A} (a : A) : frame (st_ret a).
Proof. by intros s Hs. Qed.
Lemma frame_throw {A} e : frame (st_throw e : C A).
Proof. by intros s Hs. Qed.
Lemma frame_gets {A} (f : Site W → A) : frame (st_gets f).
Proof. by intros s Hs. Qed.
Lemma frame_bind {A B} (m : C A) (k : A → C B) : frame m → (∀ a, frame (k a)) → frame (st_bind m k).
Proof.
  intros Hm Hk s Hs. unfold st_bind. destruct (Hm s Hs) as [A1 A2]. destruct (m s) as [[a|e] s1]; cbn [fst snd] in *; [|done].
  destruct (Hk a s1 A1) as [A3 A4]. split; [done|]. by rewrite A4.
Qed.
Lemma frame_if {A} (b : bool) (m1 m2 : C A) : frame m1 → frame m2 → frame (if b then m1 else m2).
Proof. by destruct b. Qed.
Lemma frame_reply c t : frame (reply c t).
Proof. by intros s Hs. Qed.
Lemma frame_part_reply c t : frame (part_reply c t).
Proof. by intros s Hs. Qed.
Lemma frame_siteop t : frame (siteop t).
Proof. by intros s Hs. Qed.
Lemma frame_deny {A} t : frame (deny t : C A).
Proof. by intros s Hs. Qed.
Lemma frame_arg args i : frame (arg args i).
Proof. intros s Hs. unfold arg. by destruct (args !! i). Qed.
Lemma frame_is_master : frame (is_master config).
Proof. by intros s Hs. Qed.
Lemma frame_in_db {A} (m : ST (Db W) DBThrow A) : st_keeps obs m → frame (in_db m).
Proof.
  intros Hm s Hs. unfold in_db. specialize (Hm (db s)). destruct (m (db s)) as [r d]. by split.
Qed.
Lemma frame_number t n : frame (number t n).
Proof. unfold number. destruct (StrToInt t); [by apply frame_if|done]. Qed.
Lemma frame_size t : frame (size t).
Proof. unfold size. by destruct (ParseSize t). Qed.
Lemma frame_allow k : frame (allow ca k).
Proof.
  intros s [Hs Hm]. unfold allow. pose proof (may_after ca (self s) (acls s)) as Ha.
  destruct (AllowSiteCmd _ _ _ _) as [b l] eqn:E. split; [|done]. split; [done|]. intros k'. cbn.
  rewrite <-Hm. rewrite <-Hs. specialize (Ha k' k). by rewrite E in Ha.
Qed.

Create HintDb frame.
Hint Resolve frame_ret frame_throw frame_gets frame_if frame_reply frame_part_reply frame_siteop frame_deny frame_arg frame_is_master
  frame_number frame_size frame_allow : frame.

Ltac frame_walk := repeat first
  [ solve [auto with frame]
  | apply frame_bind; [|intros ?]
  | apply frame_if
  | apply frame_in_db; first [ apply count_users_reads | apply TotalAllotmentSize_reads
                             | intros ?; apply query_user_holds | intros ?; apply query_group_holds ]
  | match goal with |- frame (match ?x with _ => _ end) => destruct x end ].

Lemma frame_rest_of t args : frame (rest_of t args).
Proof. unfold rest_of. frame_walk. Qed.
Lemma frame_leech u : frame (leech_refused ca u).
Proof. unfold leech_refused, NumLeeches. frame_walk. Qed.
Lemma frame_allotment a u : frame (allotment_refused ca a u).
Proof. unfold allotment_refused, NumAllotments. frame_walk. Qed.
Lemma frame_all_mine uids : frame (all_mine ca uids).
Proof. unfold all_mine. frame_walk. Qed.
Hint Resolve frame_rest_of frame_leech frame_allotment frame_all_mine : frame.

(** ** Setters *)

Lemma setter_changing sv u v m s : stays (settles u) (λ s, s = sv) m → settles u v →
  (sv = SaveFlags → HasFlag u Siteop = true → IsMaster config (name me) = true) →
  st_triple (changing sv u s) (setter m v) (λ r, settles u r.2).
Proof.
  intros Hm Hv Hmaster s1 [Hs1 Ho]. destruct (stays_saves _ _ m v Hm Hv) as [Hl Hd].
  pose proof (in_user_holds v m (db s1)) as Hh. unfold st_holds in Hh.
  unfold setter, st_bind, in_db. destruct (in_user v m (db s1)) as [[[[] v']|e] d]; cbn [fst snd] in *;
    (destruct Hh as [Hone Hr]; [eapply Forall_impl; [exact Hl|]; intros sd [_ [E _]]; rewrite E; symmetry; apply Hv|]).
  - split.
    + split; [done|]. apply (one_user_trans (id u) (step sv u) (step sv u) (step sv u) (db s) (db s1) d); [done|done|apply step_trans|done|].
      rewrite (proj1 Hv) in Hone. eapply one_user_weaken; [|exact Hone]. intros x x' _. by apply written_step.
    + intros ? [= <-]. cbn. by destruct (Hr tt v' eq_refl) as [_ ->].
  - split; [|done]. split; [done|]. apply (one_user_trans (id u) (step sv u) (step sv u) (step sv u) (db s) (db s1) d); [done|done|apply step_trans|done|].
    rewrite (proj1 Hv) in Hone. eapply one_user_weaken; [|exact Hone]. intros x x' _. by apply written_step.
Qed.

(** What a check gives changes as it should. *)
Definition setter_ok (sv : Save) (f : SetFunction) : Prop := ∀ u s, st_triple (changing sv u s) (f u) (λ _, True).

Lemma setter_fine sv m : sv ≠ SaveFlags → (∀ u, stays (settles u) (λ s, s = sv) m) → setter_ok sv (setter m).
Proof.
  intros Hne Hm u s. eapply st_triple_weaken; [|by apply setter_changing]. done.
Qed.

Lemma refused_setter_fine sv m (ask : UserData → C (option str)) : sv ≠ SaveFlags → (∀ u, frame (ask u)) →
  (∀ u, stays (settles u) (λ s, s = sv) m) → setter_ok sv (λ u, why <- ask u;; unless_refused u why (setter m)).
Proof.
  intros Hne Ha Hm u s. apply st_triple_then; [by apply frame_changing|]. intros [text|]; [|by apply setter_fine].
  apply st_triple_then; [apply frame_changing, frame_part_reply|]. intros _. by apply st_triple_ret.
Qed.

Lemma change_flags_fine b m : (∀ u, stays (settles u) (λ s, s = SaveFlags) m) → setter_ok SaveFlags (change_flags config b m).
Proof.
  intros Hm u s. unfold change_flags.
  apply (st_triple_bind _ _ _ (λ x, x = false → HasFlag u Siteop = true → IsMaster config (name me) = true)).
  - destruct (HasFlag u Siteop); [|by apply st_triple_ret]. intros s1 [[Hs Hk] Ho]. split; [done|].
    intros x. cbn. rewrite Hs. intros [= <-] Hx _. by apply negb_false_iff.
  - intros x Hx. apply st_triple_if; intros E.
    + apply st_triple_then; [apply frame_changing, frame_part_reply|]. intros _. by apply st_triple_ret.
    + eapply st_triple_bind; [apply setter_changing; [apply Hm|apply settles_refl|auto]|]. intros r Hr.
      apply st_triple_if; intros _; [|by apply st_triple_ret].
      eapply st_triple_weaken; [|apply setter_changing; [apply T_AddTemplate|done|auto]]. done.
Qed.

(** ** Checks *)

(** Before anything is changed *)
Definition unchanged (O : gmap Z UserData * gmap Z GroupData) (s : Site W) : Prop := same_session s ∧ obs (db s) = O.

Definition for_gadmins : bool := negb (granted (lit "change")) && granted (lit "changegadmin").

Definition checks_out (sv : Save) (limited : bool) (c : Checked) : Prop :=
  setter_ok sv (set_ c) ∧ (limited = true → gadmin c = for_gadmins).

Section checks.
Context (O : gmap Z UserData * gmap Z GroupData).
Abbreviation triple m P := (st_triple (unchanged O) m P).

Lemma frame_triple {A} (m : C A) : frame m → triple m (λ _, True).
Proof. intros Hm s [Hs Ho]. destruct (Hm s Hs) as [A1 A2]. split; [|done]. split; [done|]. by rewrite A2. Qed.

Lemma frame_then {A B} (m : C A) (k : A → C B) Q : frame m → (∀ a, triple (k a) Q) → triple (st_bind m k) Q.
Proof. intros Hm. by apply st_triple_then, frame_triple. Qed.

Lemma deny_triple {A} t (P : A → Prop) : triple (deny t) P.
Proof. by intros s Hs. Qed.

Lemma allow_granted k : triple (allow ca k) (λ b, b = granted k).
Proof.
  intros s [Hs Ho]. destruct (frame_allow k s Hs) as [A1 A2]. split; [by split; [|rewrite A2]|].
  intros b. unfold allow. destruct Hs as [Hme Hk]. specialize (Hk k). unfold may in Hk. rewrite Hme in *.
  destruct (AllowSiteCmd _ _ _ _) as [b' l]. cbn in *. by intros [= <-].
Qed.

Lemma only_gadmin_granted : triple (only_gadmin ca) (λ b, b = for_gadmins).
Proof.
  unfold only_gadmin, andM, notM, for_gadmins. eapply st_triple_bind; [eapply st_triple_bind; [apply allow_granted|]|].
  - intros b Hb. apply (st_triple_ret _ _ (λ x, x = negb (granted (lit "change")))). by rewrite Hb.
  - intros x ->. destruct (negb _); [|by apply st_triple_ret]. apply allow_granted.
Qed.

Ltac check_walk := repeat first
  [ apply deny_triple | apply st_triple_throw
  | apply st_triple_if; intros ?
  | apply frame_then; [solve [frame_walk] | intros ?]
  | progress cbn beta iota zeta
  | match goal with |- st_triple _ (match ?x with _ => _ end) _ => destruct x end ].

Lemma CheckRatio_fine args : triple (CheckRatio ca config args) (checks_out SaveRatio true).
Proof.
  unfold CheckRatio. eapply st_triple_bind; [apply only_gadmin_granted|]. intros g ->. check_walk.
  apply st_triple_ret. split; [|done]. apply refused_setter_fine; [done| |auto with settles]. intros u. frame_walk.
Qed.

Lemma CheckWeeklyAllotment_fine args : triple (CheckWeeklyAllotment ca config args) (checks_out SaveWeeklyAllotment true).
Proof.
  unfold CheckWeeklyAllotment. eapply st_triple_bind; [apply only_gadmin_granted|]. intros g ->. check_walk.
  apply st_triple_ret. split; [|done]. apply refused_setter_fine; [done| |auto with settles]. intros u. frame_walk.
Qed.

Lemma checked_fine sv d f : setter_ok sv f → triple (checked d f) (checks_out sv false).
Proof. intros Hf. by apply st_triple_ret. Qed.
Lemma CheckSectionRatio_fine args : triple (CheckSectionRatio config args) (checks_out SaveRatio false).
Proof. unfold CheckSectionRatio. check_walk; by apply checked_fine, setter_fine; auto with settles. Qed.

Lemma CheckFlags_fine args : triple (CheckFlags config args) (checks_out SaveFlags false).
Proof.
  unfold CheckFlags. check_walk.
  all: rename select (has_char (flag_char Deleted) _ = false) into Hd; apply has_char_false in Hd.
  all: rename select (has_char (flag_char Gadmin) _ = false) into Hg; apply has_char_false in Hg.
  all: apply checked_fine, change_flags_fine; intros u; auto with settles.
  all: first [apply T_AddFlags | apply T_SetFlags]; by intros f [-> | ->].
Qed.

Ltac find_save := unfold saves_for; repeat first [by left | right].
Ltac plain := check_walk; (apply checked_fine, setter_fine; [done|intros u; auto with settles]).

Lemma Check_fine argStr a2 args : triple (Check ca config PathFromUser from_simple_string argStr a2 args)
  (λ c, ∃ d sv limited, d ∈ settings ∧ s_name d = a2 ∧ (a2, sv) ∈ saves_for ∧ granted (aclKeyword d) = true ∧
          checks_out sv limited c ∧ (aclKeyword d = lit "change|changegadmin" → limited = true)).
Proof.
  unfold Check. destruct (List.find _ _) as [d|] eqn:Ed; [|apply st_triple_throw].
  eapply st_triple_bind; [apply allow_granted|]. intros b ->. apply st_triple_if; intros Hk; [apply st_triple_throw|].
  apply st_triple_if; intros _; [apply st_triple_throw|]. apply negb_false_iff in Hk.
  apply find_some in Ed as [Hin Hn]. apply bool_decide_eq_true in Hn. subst a2.
  assert (∀ sv limited, (s_name d, sv) ∈ saves_for → (aclKeyword d = lit "change|changegadmin" → limited = true) →
    triple (check d argStr args) (checks_out sv limited) →
    triple (check d argStr args) (λ c, ∃ d' sv limited, d' ∈ settings ∧ s_name d' = s_name d ∧ (s_name d, sv) ∈ saves_for ∧
      granted (aclKeyword d') = true ∧ checks_out sv limited c ∧ (aclKeyword d' = lit "change|changegadmin" → limited = true))) as Hend.
  { intros sv limited Hsv Hl Ht. eapply st_triple_weaken; [|exact Ht]. intros c Hc. exists d, sv, limited. split_and!; try done.
    by apply list_elem_of_In. }
  clear Hk. cbn in Hin.
  repeat destruct Hin as [<-|Hin]; [..|done].
  all: cbn [check setting s_name aclKeyword] in *.
  1: apply (Hend SaveRatio true); [find_save|done|apply CheckRatio_fine].
  1: apply (Hend SaveRatio false); [find_save|done|apply CheckSectionRatio_fine].
  1: apply (Hend SaveWeeklyAllotment true); [find_save|done|apply CheckWeeklyAllotment_fine].
  1: apply (Hend SaveHomeDir false); [find_save|done|unfold CheckHomeDir; plain].
  1: apply (Hend SaveStartUpDir false); [find_save|done|unfold CheckStartUpDir; plain].
  1: apply (Hend SaveFlags false); [find_save|done|apply CheckFlags_fine].
  1: apply (Hend SaveIdleTime false); [find_save|done|unfold CheckIdleTime; plain].
  1: apply (Hend SaveExpires false); [find_save|done|unfold CheckExpires; plain].
  1: apply (Hend SaveNumLogins false); [find_save|done|unfold CheckNumLogins; plain].
  1: apply (Hend SaveTagline false); [find_save|done|unfold CheckTagline; plain].
  1: apply (Hend SaveComment false); [find_save|done|unfold CheckComment; plain].
  1: apply (Hend SaveMaxUpSpeed false); [find_save|done|unfold CheckMaxUpSpeed; plain].
  1: apply (Hend SaveMaxDownSpeed false); [find_save|done|unfold CheckMaxDownSpeed; plain].
  1: apply (Hend SaveMaxSimUp false); [find_save|done|unfold CheckMaxSimUp; plain].
  1: apply (Hend SaveMaxSimDown false); [find_save|done|unfold CheckMaxSimDown; plain].
Qed.
End checks.

(** ** The loop *)

(** What is asked of the change of a user *)
Definition evolved (start : gmap Z UserData * gmap Z GroupData) (sv : Save) (chosen : Z → UserData → Prop) (s : Site W) : Prop :=
  groups (db s) = start.2 ∧ ∀ i, users (db s) !! i = start.1 !! i ∨
    ∃ x x', start.1 !! i = Some x ∧ users (db s) !! i = Some x' ∧ chosen i x ∧ permitted sv x x'.

Lemma evolved_step start sv chosen uid u s s' : id u = uid → users (db s) !! uid = Some u →
  (∀ x, start.1 !! uid = Some x → chosen uid x) →
  evolved start sv chosen s → one_user (id u) (step sv u) (db s) (db s') → evolved start sv chosen s'.
Proof.
  intros Hid Hu Hch [Hg He] [Hg' Hone]. rewrite Hid in Hone. split; [congruence|]. intros i.
  destruct (Hone i) as [->|(-> & x & z & Hx & Hz & Hstep)]; [apply He|]. assert (x = u) as -> by congruence.
  assert (permitted sv u z) as Hp.
  { destruct Hstep as (A1 & A2 & A3). split_and!; [done|done|]. intros f Hf Hzf. by destruct (A3 f Hf Hzf). }
  right. destruct (He uid) as [E|(x & y & Hx0 & Hy & Hc & Hxy)].
  - exists u, z. rewrite <-E. split_and!; [done|done| |done]. apply Hch. by rewrite <-E.
  - assert (y = u) as -> by congruence. exists x, z. split_and!; [done|done|done|]. by eapply permitted_trans.
Qed.

Lemma change_loop_evolved start sv chosen c a2 uids n s : setter_ok sv (set_ c) →
  (∀ uid x, uid ∈ uids → start.1 !! uid = Some x → chosen uid x) → same_session s → evolved start sv chosen s →
  st_holds (change_loop c a2 uids n) s (λ _ s', same_session s' ∧ evolved start sv chosen s').
Proof.
  intros Hc. revert n s. induction uids as [|uid uids IH]; intros n s Hch Hs He; cbn [change_loop]; [by split|].
  assert (∀ uid x, uid ∈ uids → start.1 !! uid = Some x → chosen uid x) as Hch' by (intros i x Hi; apply Hch; by right).
  apply st_holds_bind, in_db_holds. eapply st_holds_conseq; [apply query_user_holds|]. intros r d [Eo Hu].
  assert (evolved start sv chosen (set_db d s)) as He1.
  { injection Eo as Eu Eg. unfold evolved. cbn. rewrite Eu, Eg. exact He. }
  destruct r as [[u|]|e]; [|by apply IH|by split]. destruct (Hu u eq_refl) as [Hu1 Hu2%Z.eqb_eq].
  set (s1 := set_db d s) in *. apply st_holds_bind. unfold st_holds at 1.
  destruct (Hc u s1 s1) as [[Hs2 Hone] _]; [split; [done|by apply one_user_refl]|].
  assert (evolved start sv chosen (set_ c u s1).2) as He2.
  { eapply (evolved_step start sv chosen uid u s1); [done| | |done|done].
    - injection Eo as Eu _. cbn. rewrite Eu. by rewrite <-Hu2.
    - intros x. apply Hch. by left. }
  destruct (set_ c u s1) as [[r|e] s2]; cbn [fst snd] in *; [|by split].
  destruct r.1; [|by split]. apply st_holds_bind. by apply IH.
Qed.
End licence.

(** ** The command *)

Section command.
Context {W : Type} `{Mongo W, !Collection W UserData, !Collection W GroupData}.
Context `{!CollectionOk W UserData groups_in, !CollectionOk W GroupData users_in, !MongoOk W (λ w, (users_in w, groups_in w))}.
Context `{Split, CaseConv, Fnmatch, RegexMatch, ReplaceAll}.
Context (ca : Caches) (config : SiteConfig) (PathFromUser : str → str) (from_simple_string : str → option Z).

(** What is needed for the change of the user [i] from [x] to [x'] *)
Definition licensed (s : Site W) (args : list str) (i : Z) (x x' : UserData) : Prop :=
  ∃ a1 a2 d sv, args !! 1%nat = Some a1 ∧ args !! 2%nat = Some a2 ∧
    d ∈ settings (W := W) ca config PathFromUser from_simple_string ∧ s_name d = to_lower a2 ∧ (s_name d, sv) ∈ saves_for ∧
    may ca (self s) (acls s) (aclKeyword d) = true ∧ multi_query ca a1 x = true ∧ permitted config (self s) sv x x' ∧
    (aclKeyword d = lit "change|changegadmin" →
      may ca (self s) (acls s) (lit "change") = true ∨ HasGadminGID (self s) (UIDToPrimaryGID ca i) = true).

Definition all_licensed (s : Site W) (args : list str) (s' : Site W) : Prop :=
  groups (db s') = groups (db s) ∧ ∀ i, users (db s') !! i = users (db s) !! i ∨
    ∃ x x', users (db s) !! i = Some x ∧ users (db s') !! i = Some x' ∧ licensed s args i x x'.

Lemma unchanged_licensed s args s' : obs (db s') = obs (db s) → all_licensed s args s'.
Proof. intros [= Eu Eg]. split; [done|]. intros i. left. by rewrite Eu. Qed.

Lemma CHANGE_holds `{!SplitOk} argStr args s :
  st_holds (CHANGECommand ca config PathFromUser from_simple_string argStr args) s (λ _ s', all_licensed s args s').
Proof.
  unfold CHANGECommand. apply st_holds_bind. eapply st_holds_conseq; [apply arg_holds|].
  intros [a2|e] s0 [-> Ha2]; [|by apply unchanged_licensed]. specialize (Ha2 a2 eq_refl). cbn zeta.
  assert (unchanged ca (self s) (may ca (self s) (acls s)) (obs (db s)) s) as Hstart by done.
  apply st_holds_bind. unfold st_holds at 1.
  destruct (Check_fine ca config PathFromUser from_simple_string (self s) (may ca (self s) (acls s)) (obs (db s))
    argStr (to_lower a2) (<[2%nat:=to_lower a2]> args) s Hstart) as [[Hs1 Ho1] Hc].
  destruct (Check _ _ _ _ _ _ _ s) as [[c|e] s1]; cbn [fst snd] in *; [|by apply unchanged_licensed].
  destruct (Hc c eq_refl) as (d & sv & limited & Hd & Hn & Hsv & Hk & [Hset Hg] & Hl). clear Hc.
  apply st_holds_bind. eapply st_holds_conseq; [apply arg_holds|].
  intros [a1|e] s2 [-> Ha1]; [|by apply unchanged_licensed]. specialize (Ha1 a1 eq_refl). rewrite list_lookup_insert_ne in Ha1 by done.
  apply st_holds_bind, in_db_holds. eapply st_holds_conseq; [apply GetUIDs_holds|]. intros r d2 [Eo Hu].
  destruct r as [uids|e]; [|apply unchanged_licensed; cbn; congruence]. specialize (Hu uids eq_refl).
  set (s2 := set_db d2 s1) in *. assert (obs (db s2) = obs (db s)) as Eo2 by (cbn; congruence).
  apply st_holds_bind. destruct (bool_decide (uids = [])); [by apply unchanged_licensed|]. unfold st_holds at 1. cbn [fst snd st_ret].
  apply st_holds_bind. unfold st_holds at 1.
  replace ((if gadmin c then all_mine ca uids else st_ret true) s2) with
    (Ok (E := exit) (if gadmin c then forallb (λ uid, HasGadminGID (self s) (UIDToPrimaryGID ca uid)) uids else true), s2).
  2: { destruct (gadmin c); [|done]. unfold all_mine, st_bind, st_gets, st_ret. cbn. by rewrite (proj1 Hs1). }
  cbn [fst snd]. destruct (if gadmin c then _ else _) eqn:Em; [|by apply unchanged_licensed]. cbn [negb].
  apply st_holds_bind.
  eapply st_holds_conseq; [apply (change_loop_evolved ca config (self s) (may ca (self s) (acls s)) (obs (db s)) sv
    (λ i x, multi_query ca a1 x = true ∧ (gadmin c = true → HasGadminGID (self s) (UIDToPrimaryGID ca i) = true)))|].
  - done.
  - intros uid x Hin Hx. destruct (Hu uid Hin) as (x' & Hx' & Hq). injection Ho1 as Eu1 Eg1. cbn in Hx. rewrite <-Eu1 in Hx.
    split; [congruence|]. intros Eg. rewrite Eg in Em. rewrite forallb_forall in Em. apply Em. by apply list_elem_of_In.
  - exact Hs1.
  - injection Eo2 as Eu Eg. split; [exact Eg|]. intros i. left. exact (f_equal (lookup i) Eu).
  - intros r s3 [Hs3 [Hg3 He3]].
    assert (all_licensed s args s3) as Hall.
    { split; [exact Hg3|]. intros i. destruct (He3 i) as [?|(x & x' & Hx & Hx' & [Hq Hgad] & Hp)]; [by left|right].
      exists x, x'. split_and!; [done|done|]. exists a1, a2, d, sv. rewrite Hn. split_and!; try done.
      intros Hkw. rewrite (Hg (Hl Hkw)) in Hgad. rewrite Hkw, (may_either ca) in Hk. unfold for_gadmins in Hgad.
      destruct (may ca (self s) (acls s) (lit "change")); [by left|right]. cbn in *. by apply Hgad. }
    destruct r as [n|e]; [|done]. by destruct (n =? 0).
Qed.

(** C19: SITE CHANGE changes nothing without a licence.  Whatever the line is and
    whatever calls to the database fail, a group never changes, a user is neither
    made nor removed, and a user who is changed was named, alone, by his group or by
    a star; the rules grant the keyword of the setting; for the settings that group
    admins may change, they grant all of them or he is in a group of the admin; only
    the fields of that setting differ; nobody becomes deleted or a group admin; and
    the flags of a siteop change at the hand of a master only. *)
Theorem CHANGE_licensed `{!SplitOk} argStr args s r s' :
  CHANGECommand ca config PathFromUser from_simple_string argStr args s = (r, s') → all_licensed s args s'.
Proof. intros E. exact (st_holds_run _ _ _ _ _ (CHANGE_holds argStr args s) E). Qed.

End command.

(** ** Example: a group admin makes a user of his group a leech *)

Module Example.

#[local] Existing Instances ref_split ref_fnmatch ref_case ref_replace_all.

Definition regex : RegexMatch := λ _ _, true.
#[local] Existing Instance regex.

Definition user (i : Z) (n : string) : UserData :=
  set f_ratio {[ [] := 3 ]} (set f_primaryGid 7 (set f_name (lit n) (set f_id i (default_UserData 0)))).
Definition admin : UserData := set f_gadminGids {[ 7 ]} (user 2 "alice").

Definition start : Db Memory :=
  MkDb ({[ 2 := admin; 3 := user 3 "bob"; 4 := set f_primaryGid 8 (user 4 "carol") ]},
        {[ 7 := set Group.g_leechSlots 1 (set Group.g_name (lit "STAFF") (set Group.g_id 7 default_GroupData)) ]}) [].

Definition caches : Caches := {|
  UIDToName _ := lit "bob"; NameToUID _ := -1; UIDToPrimaryGID uid := if uid =? 4 then 8 else 7; GIDToName _ := lit "STAFF"; NameToGID _ := -1
|}.
Definition configuration : SiteConfig := {|
  MaximumRatio := 10; Sections := ∅; IsMaster _ := false; BannedUsers := []; TotalUsersLimit := -1
|}.

Definition session : Site Memory :=
  MkSite start {[ lit "change" := FromString (lit "1"); lit "changegadmin" := FromString (lit "*") ]} [] [] admin [] [] [].

Definition run (line : list string) := CHANGECommand caches configuration (λ p, p) (λ _, None) [] (map lit line) session.
Definition ratio_of (i : Z) (s : Site Memory) : option Z := u ← users (db s) !! i; ratio u !! [].

End Example.

#[local] Existing Instances ref_split ref_fnmatch ref_case ref_replace_all Example.regex ref_split_ok.

Example CHANGE_own_group :
  let '(r, s) := Example.run ["CHANGE"; "bob"; "ratio"; "0"]%string in
  (r, Example.ratio_of 3 s, replies s) = (Ok tt, Some 0, [Reply 200 (lit "Setting ratio changed for bob: Unlimited")]).
Proof. vm_compute. reflexivity. Qed.

Example CHANGE_other_group :
  let '(r, s) := Example.run ["CHANGE"; "carol"; "ratio"; "0"]%string in (r, Example.ratio_of 4 s) = (Throw PermissionError, Some 3).
Proof. vm_compute. reflexivity. Qed.

Lemma CHANGE_licensed_witness :
  let '(r, s) := Example.run ["CHANGE"; "bob"; "ratio"; "0"]%string in
  Example.ratio_of 3 s ≠ Example.ratio_of 3 Example.session ∧
  all_licensed Example.caches Example.configuration (λ p, p) (λ _, None) Example.session [lit "CHANGE"; lit "bob"; lit "ratio"; lit "0"] s.
Proof.
  destruct (Example.run ["CHANGE"; "bob"; "ratio"; "0"]%string) as [r s] eqn:E. split.
  - assert (s = (Example.run ["CHANGE"; "bob"; "ratio"; "0"]%string).2) as -> by (by rewrite E). intros Er. vm_compute in Er. discriminate.
  - apply (CHANGE_licensed Example.caches Example.configuration (λ p, p) (λ _, None) [] _ Example.session r s E).
Defined.
