(* ===== verification/Listing.v ===== *)
(** * Directory listings: cmd/rfc/dirlist.cpp, fs/direnumerator.cpp

    LIST, NLST and STAT: the options, the directory that is read and its entries,
    their order, the lines, and the recursion over wildcards and directories.  The
    socket takes one text per directory and may fail at each. *)

From stdpp Require Import prelude gmap strings sorting.
From S2P Require Import Prelude CxxString State Numbers Path VirtualPath Acl UserData User Mode Kernel Rights Files.
Local Open Scope Z_scope.
Local Open Scope list_scope.
Local Open Scope st_scope.

(** ** Options *)

Record ListOptions := MkListOptions {
  all : bool; longFormat : bool; slashDirs : bool; reverse_ : bool; recursive : bool; sizeSort : bool; modTimeSort : bool;
  noGroup : bool; sizeName : bool; noOwners : bool
}.

Definition no_options : ListOptions := MkListOptions false false false false false false false false false false.

Definition ParseOption (o : ListOptions) (option : ascii) : ListOptions :=
  let '(MkListOptions a l p r R sz t g z y) := o in
  if bool_decide (option = "a"%char) || bool_decide (option = "A"%char) then MkListOptions true l p r R sz t g z y
  else if bool_decide (option = "l"%char) then MkListOptions a true p r R sz t g z y
  else if bool_decide (option = "p"%char) then MkListOptions a l true r R sz t g z y
  else if bool_decide (option = "r"%char) then MkListOptions a l p true R sz t g z y
  else if bool_decide (option = "R"%char) then MkListOptions a l p r true sz t g z y
  else if bool_decide (option = "S"%char) then MkListOptions a l p r R true false g z y
  else if bool_decide (option = "t"%char) then MkListOptions a l p r R false true g z y
  else if bool_decide (option = "o"%char) then MkListOptions a l p r R sz t true z y
  else if bool_decide (option = "z"%char) then MkListOptions a l p r R sz t g true y
  else if bool_decide (option = "y"%char) then MkListOptions a l p r R sz t g z true
  else o.

(** What the configuration forces comes first. *)
Definition ListOptions_of (userDefined forced : str) : ListOptions := foldl ParseOption no_options (forced ++ userDefined).

(** ** Entries: fs/direnumerator.hpp *)

Record DirEntry := MkDirEntry { e_name : str; e_status : Status; e_owner : Owner }.

(** strcasecmp(3) *)
Fixpoint strcasecmp (a b : str) : comparison :=
  match a, b with
  | [], [] => Eq
  | [], _ => Lt
  | _, [] => Gt
  | x :: a, y :: b => match code (ascii_lower x) ?= code (ascii_lower y) with Eq => strcasecmp a b | r => r end
  end.

Definition DirEntryPathLess (d e : DirEntry) : bool := match strcasecmp (e_name d) (e_name e) with Lt => true | _ => false end.
Definition DirEntryPathGreater (d e : DirEntry) : bool := match strcasecmp (e_name d) (e_name e) with Gt => true | _ => false end.
Definition DirEntrySizeLess (d e : DirEntry) : bool := Size (e_status d) <? Size (e_status e).
Definition DirEntrySizeGreater (d e : DirEntry) : bool := Size (e_status e) <? Size (e_status d).
Definition DirEntryModTimeLess (d e : DirEntry) : bool := st_mtime (native (e_status d)) <? st_mtime (native (e_status e)).
Definition DirEntryModTimeGreater (d e : DirEntry) : bool := st_mtime (native (e_status e)) <? st_mtime (native (e_status d)).

(** The order that the options ask for *)
Definition less (o : ListOptions) : DirEntry → DirEntry → bool :=
  if sizeSort o then (if reverse_ o then DirEntrySizeGreater else DirEntrySizeLess)
  else if modTimeSort o then (if reverse_ o then DirEntryModTimeGreater else DirEntryModTimeLess)
  else if reverse_ o then DirEntryPathGreater else DirEntryPathLess.

(** std::sort, which leaves open the order of equal elements *)
Class StdSort := std_sort : (DirEntry → DirEntry → bool) → list DirEntry → list DirEntry.

Class StdSortOk `{StdSort} : Prop := {
  std_sort_perm less l : std_sort less l ≡ₚ l;
  std_sort_sorted o l : StronglySorted (λ d e, less o e d = false) (std_sort (less o) l)
}.

(** ** State *)

Inductive list_error : Type := File_ (e : file_error) | NetworkError (message : str) | Deeper.

(** What is written: to the socket of the listing, and replies *)
Inductive sent : Type := Raw (text : str) | PartReply (code : Z) (text : str) | Reply (code : Z) (text : str).

(** The file system, what was written, the three caches of the object, whether the
    data connection is open, and the mode of the control connection *)
Record Listing := MkListing {
  world : World; out : list sent; userNames : gmap Z str; groupNames : gmap Z str; timestamps : gmap Z str;
  dataOpen : bool; singleLineReplies : bool
}.

Definition set_world v l := MkListing v (out l) (userNames l) (groupNames l) (timestamps l) (dataOpen l) (singleLineReplies l).
Definition set_out v l := MkListing (world l) v (userNames l) (groupNames l) (timestamps l) (dataOpen l) (singleLineReplies l).
Definition set_userNames v l := MkListing (world l) (out l) v (groupNames l) (timestamps l) (dataOpen l) (singleLineReplies l).
Definition set_groupNames v l := MkListing (world l) (out l) (userNames l) v (timestamps l) (dataOpen l) (singleLineReplies l).
Definition set_timestamps v l := MkListing (world l) (out l) (userNames l) (groupNames l) v (dataOpen l) (singleLineReplies l).
Definition set_dataOpen v l := MkListing (world l) (out l) (userNames l) (groupNames l) (timestamps l) v (singleLineReplies l).
Definition set_singleLineReplies v l := MkListing (world l) (out l) (userNames l) (groupNames l) (timestamps l) (dataOpen l) v.

Definition CRLF : str := [CR; LF].

(** [std::left << std::setw(n)] and [std::right << std::setw(n)] *)
Definition pad_left (n : nat) (s : str) : str := s ++ replicate (n - length s) " "%char.
Definition pad_right (n : nat) (s : str) : str := replicate (n - length s) " "%char ++ s.

(** [DirectoryList::Permissions] *)
Definition Permissions (s : Status) : str :=
  let has bit c := if Z.land (st_mode (native s)) bit =? 0 then "-"%char else c in
  [ (if IsSymLink s then "l" else if IsDirectory s then "d" else "-")%char;
    has S_IRUSR "r"%char; has S_IWUSR "w"%char; has S_IXUSR "x"%char;
    has S_IRGRP "r"%char; has S_IWGRP "w"%char; has S_IXGRP "x"%char;
    has S_IROTH "r"%char; has S_IWOTH "w"%char; has S_IXOTH "x"%char ].

Section listing.
Context `{Fnmatch, ReplaceAll, CaseConv, StdSort}.
Context (K : Kernel) (uninit : Z) (sitepath : str).
(** The caches of users and groups, the links of a file, readlink(2), strftime of
    the local time, and whether the [n]th write fails *)
Context (acl_UIDToName acl_GIDToName : Z → str) (st_nlink : stat → Z) (readlink : list sys → str → option str) (strftime : Z → str).
Context (write_error : nat → option str).
Implicit Types (user : UserData) (path : str) (o : ListOptions).

Abbreviation real path := (MakeReal_virtual sitepath path).
Abbreviation L := (ST Listing list_error).

(** ** Reading a directory: fs/direnumerator.cpp *)

Local Abbreviation file_allowed := (file_allowed K acl_GIDToName uninit sitepath).
Local Abbreviation dir_allowed := (dir_allowed K acl_GIDToName uninit sitepath).

(** An entry, if it is shown, after its size was added to the total *)
Definition read_entry user (loadOwners : bool) (p : str) (name : str) (s : Status) : M (option DirEntry) :=
  v <- lift_path (MakeVirtual_real sitepath (Join p name));;
  let may t := if IsDirectory s then dir_allowed t user v else file_allowed t user v in
  e <- may View;;
  if negb (err_ok e) then st_ret None
  else
    hideOwner <- may Hideowner;;
    owner <- (if negb (err_ok hideOwner) && loadOwners
              then st_gets (λ w, GetOwner K uninit (ops w) (Join p name)) else st_ret (MkOwner 0 0));;
    st_ret (Some (MkDirEntry name s owner)).

Fixpoint Readdir_loop user (loadOwners : bool) (p : str) (names : list str) (entries : list DirEntry) (totalBytes : Z)
    : M (list DirEntry * Z) :=
  match names with
  | [] => st_ret (entries, totalBytes)
  | name :: names =>
      if bool_decide (name = lit ".") || bool_decide (name = lit "..") then Readdir_loop user loadOwners p names entries totalBytes
      else
        s <- st_catch (s <- status K (Join p name);; st_ret (Some s))
               (λ e, match e with SystemError _ => Some (st_ret None) | _ => None end);;
        match s with
        | None => Readdir_loop user loadOwners p names entries totalBytes
        | Some s =>
            let totalBytes := (totalBytes + Size s) mod 2 ^ 64 in
            d <- read_entry user loadOwners p name s;;
            Readdir_loop user loadOwners p names (match d with Some d => entries ++ [d] | None => entries end) totalBytes
        end
  end.

(** [DirEnumerator::Readdir]: a directory that may not be viewed has no entries. *)
Definition Readdir_user user path (loadOwners : bool) : M (list DirEntry * Z) :=
  v <- lift_path (MakeVirtual_real sitepath (real path));;
  e <- dir_allowed View user v;;
  if negb (err_ok e) then st_ret ([], 0)
  else names <- opendir K (real path);; Readdir_loop user loadOwners (real path) names [] 0.

(** [DirectoryList::Readdir] *)
Definition Readdir user o path : M (list DirEntry * Z) :=
  r <- Readdir_user user path (negb (noOwners o) && negb (sizeName o));; st_ret (std_sort (less o) r.1, r.2).

(** ** The lines *)

Definition in_world {A} (m : M A) : L A := λ l,
  let '(r, w) := m (world l) in (match r with Ok a => Ok a | Throw e => Throw (File_ e) end, set_world w l).

(** [socket.Write] *)
Definition Output (message : str) : L unit := λ l,
  match write_error (length (out l)) with
  | Some text => (Throw (NetworkError text), l)
  | None => (Ok tt, set_out (out l ++ [Raw message]) l)
  end.

(** A value that is looked up once *)
Definition cached (get : Listing → gmap Z str) (put : gmap Z str → Listing → Listing) (f : Z → str) (i : Z) : L str := λ l,
  match get l !! i with
  | Some t => (Ok t, l)
  | None => (Ok (f i), put (<[i := f i]> (get l)) l)
  end.

Definition UIDToName (uid : Z) : L str := cached userNames set_userNames (λ uid, take 10 (acl_UIDToName uid)) uid.
Definition GIDToName (gid : Z) : L str := cached groupNames set_groupNames (λ gid, take 10 (acl_GIDToName gid)) gid.

(** A buffer of 13 bytes *)
Definition Timestamp (s : Status) : L str :=
  cached timestamps set_timestamps (λ t, let text := strftime t in if (12 <? length text)%nat then [] else text)
    (st_mtime (native s) - Z.rem (st_mtime (native s)) 60).

(** The columns before the name *)
Definition long_columns o (d : DirEntry) : L str :=
  let s := e_status d in
  if sizeName o then st_ret (pad_left 10 (to_string (Size s)) ++ lit " ")
  else
    u <- UIDToName (UID (e_owner d));;
    g <- (if noGroup o then st_ret [] else g <- GIDToName (GID (e_owner d));; st_ret (pad_left 10 g ++ lit " "));;
    t <- Timestamp s;;
    st_ret (Permissions s ++ lit " " ++ pad_right 3 (to_string (st_nlink (native s))) ++ lit " " ++ pad_left 10 u ++ lit " " ++ g ++
            pad_right 10 (to_string (Size s)) ++ lit " " ++ t ++ lit " ").

(** Where a link leads *)
Definition link_text path (d : DirEntry) : L str :=
  if IsSymLink (e_status d) then
    st_gets (λ l, match readlink (ops (world l)) (real (Join path (e_name d))) with Some dest => lit " -> " ++ dest | None => [] end)
  else st_ret [].

Definition entry_line o path (d : DirEntry) : L str :=
  if longFormat o then
    c <- long_columns o d;; link <- link_text path d;;
    st_ret (c ++ e_name d ++ link ++ (if slashDirs o && IsDirectory (e_status d) then lit "/" else []) ++ CRLF)
  else st_ret (e_name d ++ CRLF).

(** [continue] in the loops over entries *)
Definition shown o (mask : str) (d : DirEntry) : bool :=
  negb (bool_decide (head (e_name d) = Some "."%char) && negb (all o)) && (bool_decide (mask = []) || fnmatch mask (e_name d) false).

Fixpoint entry_lines o path (mask : str) (l : list DirEntry) (message : str) : L str :=
  match l with
  | [] => st_ret message
  | d :: l =>
      if shown o mask d then line <- entry_line o path d;; entry_lines o path mask l (message ++ line)
      else entry_lines o path mask l message
  end.

(** ** The recursion *)

Definition heading o path (masks : list str) (depth : Z) : str :=
  (if 1 <? depth then CRLF else []) ++
  (if negb (bool_decide (path = [])) && (1 <? depth) && (recursive o || negb (bool_decide (masks = []))) then path ++ lit ":" ++ CRLF else []).

Definition total_line o (totalBytes : Z) : str :=
  if longFormat o then lit "total " ++ to_string (totalBytes / 1024) ++ CRLF else [].

Definition first_mask (masks : list str) : str * list str := match masks with [] => ([], []) | m :: masks => (m, masks) end.

Definition enters o (mask : str) (d : DirEntry) : bool :=
  IsDirectory (e_status d) && negb (IsSymLink (e_status d)) && shown o mask d.

(** [ListPath], with the calls that may still be nested *)
Fixpoint ListPath (fuel : nat) user o (maxRecursion : Z) path (masks : list str) (depth : Z) : L unit :=
  match fuel with
  | O => st_throw Deeper
  | S fuel =>
      if negb (maxRecursion =? 0) && (maxRecursion <? depth) then st_ret tt
      else
        r <- st_catch (r <- in_world (Readdir user o path);; st_ret (Some r))
               (λ e, match e with File_ (SystemError _) => Some (st_ret None) | _ => None end);;
        match r with
        | None => st_ret tt
        | Some (entries, totalBytes) =>
            let message := heading o path masks depth ++ total_line o totalBytes in
            let '(mask, masks) := first_mask masks in
            message <- (if bool_decide (masks = []) then entry_lines o path mask entries message else st_ret message);;
            Output message;;;
            if recursive o || negb (bool_decide (mask = [])) then
              st_iter (λ d, ListPath fuel user o maxRecursion (Join path (e_name d)) masks (depth + 1)) (filter (λ d, enters o mask d = true) entries)
            else st_ret tt
        end
  end.

(** [boost::tokenizer] with a slash *)
Definition tokens path : list str := filter (.≠ []) (split_char "/"%char path).

Definition wildcard (token : str) : bool := existsb (λ c, has_char c (lit "*?[]")) token.

(** The directory up to the first wildcard, and the words from it on *)
Fixpoint split_masks (toks : list str) (parent : str) : str * list str :=
  match toks with
  | [] => (parent, [])
  | token :: toks => if wildcard token then (parent, token :: toks) else split_masks toks (Join parent token)
  end.

Definition PathFromUser path : M str := make_virtual K sitepath path.

(** [SplitPath] *)
Definition SplitPath path : M (str * list str) :=
  regular <- st_catch (r <- make_real K sitepath path;; s <- status K r;; st_ret (IsRegularFile s))
               (λ e, match e with SystemError _ => Some (st_ret false) | _ => None end);;
  if regular : bool then parent <- PathFromUser (Dirname path);; st_ret (parent, [Basename path])
  else
    parent <- (if bool_decide (head path = Some "/"%char) then PathFromUser (lit "/") else st_ret []);;
    let '(parent, masks) := split_masks (tokens path) parent in
    parent <- PathFromUser parent;; st_ret (parent, masks).

(** [DirectoryList::Execute] *)
Definition Execute (fuel : nat) user path o (maxRecursion : Z) : L unit :=
  r <- in_world (SplitPath path);; ListPath fuel user o maxRecursion r.1 r.2 1.

(** ** The commands *)

(** The data connection, whether it must be and is protected, the options and the
    depth of the configuration, and what the replies say of times *)
Record ListEnv := {
  open_error : option str; Protection : bool; ProtectionOkay : bool; lslong_options : str; lslong_recursion : Z;
  time_text : str; status_text : str
}.

Definition reply (code : Z) (text : str) : L unit := st_modify (λ l, set_out (out l ++ [Reply code text]) l).
Definition part_reply (code : Z) (text : str) : L unit := st_modify (λ l, set_out (out l ++ [PartReply code text]) l).
Definition close : L unit := st_modify (set_dataOpen false).

(** The caches are those of one object. *)
Definition new_DirectoryList : L unit := st_modify (λ l, set_userNames ∅ (set_groupNames ∅ (set_timestamps ∅ l))).

(** The options after a dash, and the path *)
Definition parse_args `{Trim} (argStr : str) (args : list str) : str * str :=
  match args !! 1%nat with
  | Some a1 => if bool_decide (head a1 = Some "-"%char) then (tail a1, trim (drop (length a1) argStr)) else ([], trim argStr)
  | None => ([], [])
  end.

Definition network (e : list_error) : option (L (option str)) := match e with NetworkError text => Some (st_ret (Some text)) | _ => None end.

Definition LISTCommand `{Trim} (e : ListEnv) (fuel : nat) user (nlst : bool) (argStr : str) (args : list str) : L unit :=
  reply 150 (lit "Opening connection for directory listing" ++ (if Protection e then lit " using TLS/SSL" else []) ++ lit ".");;;
  match open_error e with
  | Some text => reply 425 (lit "Unable to open data connection: " ++ text)
  | None =>
      st_modify (set_dataOpen true);;;
      if negb (ProtectionOkay e) then close;;; reply 522 (lit "TLS is enforced on directory listings.")
      else
        let '(options, path) := parse_args argStr args in
        let forced := if nlst then [] else lit "l" ++ lslong_options e in
        new_DirectoryList;;;
        r <- st_catch (Execute fuel user path (ListOptions_of options forced) (lslong_recursion e);;; st_ret None) network;;
        close;;;
        match r with
        | Some text => reply 426 (lit "Error whiling writing to data connection: " ++ text)
        | None => reply 226 (lit "End of directory listing (" ++ time_text e ++ lit ")")
        end
  end.

Definition NLSTCommand `{Trim} e fuel user argStr args : L unit := LISTCommand e fuel user true argStr args.

(** The mode of the control connection is put back on every way out. *)
Definition single_line_off (m : L unit) : L unit := λ l,
  let '(r, l') := m (set_singleLineReplies false l) in (r, set_singleLineReplies (singleLineReplies l) l').

Definition STATCommand `{Trim} (e : ListEnv) (fuel : nat) user (argStr : str) (args : list str) : L unit :=
  if (length args =? 1)%nat then reply 211 (status_text e)
  else single_line_off (
    let '(options, path) := parse_args argStr args in
    v <- in_world (make_virtual K sitepath path);;
    dir <- st_gets (λ l, workDir (world l));; p <- in_world (lift_path (MakePretty_virtual dir v));;
    part_reply 212 (lit "Status of " ++ p ++ lit ":");;;
    new_DirectoryList;;;
    Execute fuel user path (ListOptions_of options (lit "l" ++ lslong_options e)) (lslong_recursion e);;;
    reply 212 (lit "End of status (" ++ time_text e ++ lit ")")).

End listing.
