(* ===== verification/ListingSafety.v ===== *)
(** * What a listing shows

    Theorems about Listing.v: only what the user may view is shown, a directory is
    read completely and in the order that was asked for, and the recursion ends. *)

From stdpp Require Import prelude gmap strings sorting.
From S2P Require Import Prelude CxxString State Numbers Path VirtualPath Acl UserData User Mode Kernel Rights Files Listing.
Local Open Scope Z_scope.
Local Open Scope list_scope.
Local Open Scope st_scope.

Section shown.
Context `{Fnmatch, ReplaceAll, CaseConv, StdSort}.
Context (K : Kernel) (uninit : Z) (sitepath : str).
Context (acl_UIDToName acl_GIDToName : Z → str) (st_nlink : stat → Z) (readlink : list sys → str → option str) (strftime : Z → str).
Context (write_error : nat → option str).
Context (c0 : Config) (user : UserData) (base : list sys).

Abbreviation L := (ST Listing list_error).
Abbreviation real path := (MakeReal_virtual sitepath path).
Abbreviation admitted t v tr := (admits K acl_GIDToName uninit sitepath c0 user t v tr).

(** The rules and the stored answers are as they were, and calls have only been added. *)
Definition sane (w : World) : Prop := good acl_GIDToName c0 user w ∧ base `prefix_of` ops w.

(** An entry that may be shown: it may be viewed, and its owner is shown only if he
    is not to be hidden. *)
Definition granted (dir : str) (d : DirEntry) : Prop := ∃ v, MakeVirtual_real sitepath (Join (real dir) (e_name d)) = Ok v ∧
  let p := if IsDirectory (e_status d) then slashed v else v in
  (∃ tr, base `prefix_of` tr ∧ admitted View p tr) ∧
  (e_owner d = MkOwner 0 0 ∨ ∃ tr, base `prefix_of` tr ∧ ¬ admitted Hideowner p tr).

(** Why a name is not among the entries *)
Definition missing (dir name : str) : Prop :=
  name = lit "." ∨ name = lit ".." ∨
  (∃ tr e, base `prefix_of` tr ∧ Reset K tr (Join (real dir) name) = Throw e) ∨
  (∃ tr tr' s v, base `prefix_of` tr ∧ Reset K tr (Join (real dir) name) = Ok s ∧ MakeVirtual_real sitepath (Join (real dir) name) = Ok v ∧
     base `prefix_of` tr' ∧ ¬ admitted View (if IsDirectory s then slashed v else v) tr').

(** What a name adds to the total of a directory: its size, seen or hidden *)
Definition adds (dir name : str) (z : Z) : Prop :=
  (z = 0 ∧ (name = lit "." ∨ name = lit "..")) ∨
  ∃ tr, base `prefix_of` tr ∧ match Reset K tr (Join (real dir) name) with Ok s => z = Size s | Throw _ => z = 0 end.

(** The total of a directory: of all its entries, or 0 if it may not be viewed *)
Definition totals (dir : str) (total : Z) : Prop :=
  (total = 0 ∧ ∃ v tr, MakeVirtual_real sitepath (real dir) = Ok v ∧ base `prefix_of` tr ∧ ¬ admitted View (slashed v) tr) ∨
  ∃ tr names sizes, base `prefix_of` tr ∧ readdir K tr (real dir) = Ok names ∧ Forall2 (adds dir) names sizes ∧
    total = foldr Z.add 0 sizes mod 2 ^ 64.

Lemma MakeVirtual_real_not_nil p v : MakeVirtual_real sitepath p = Ok v → v ≠ [].
Proof. unfold MakeVirtual_real. case_match; [|done]. intros [= <-]. by destruct (drop _ _). Qed.

Lemma sane_cfg w c : sane w → good acl_GIDToName c0 user (set_cfg c w) → sane (set_cfg c w).
Proof. intros [_ Hb] Hg. by split. Qed.

Lemma sane_push w c : sane w → sane (push_op c w).
Proof. intros [Hg Hb]. split; [exact Hg|]. cbn. by apply prefix_app_r. Qed.

Lemma dir_allowed_holds t v w : v ≠ [] → sane w →
  st_holds (dir_allowed K acl_GIDToName uninit sitepath t user v) w
    (λ r w', sane w' ∧ ops w' = ops w ∧ ∀ e, r = Ok e → (err_ok e = true ↔ admitted t (slashed v) (ops w))).
Proof.
  intros Hv Hw. unfold st_holds, dir_allowed, asked.
  pose proof (dir_allowed_admits K acl_GIDToName uninit sitepath c0 user t v w (proj1 Hw)) as Ha.
  destruct (DirAllowed _ _ _ _ _ _ _) as [e c]. destruct Ha as [He Hg]. split_and!; [by apply sane_cfg|done|].
  intros ? [= <-]. rewrite He. naive_solver.
Qed.

Lemma may_holds (isdir : bool) t v w : v ≠ [] → sane w →
  st_holds (if isdir then dir_allowed K acl_GIDToName uninit sitepath t user v else file_allowed K acl_GIDToName uninit sitepath t user v) w
    (λ r w', sane w' ∧ ops w' = ops w ∧ ∀ e, r = Ok e → (err_ok e = true ↔ admitted t (if isdir then slashed v else v) (ops w))).
Proof.
  intros Hv Hw. destruct isdir; [by apply dir_allowed_holds|]. unfold st_holds, file_allowed, asked, FileAllowed.
  pose proof (InnerAllowed_admits K acl_GIDToName uninit sitepath c0 user t v w (proj1 Hw)) as Ha.
  destruct (InnerAllowed _ _ _ _ _ _ _) as [e c]. destruct Ha as [He Hg]. split_and!; [by apply sane_cfg|done|].
  by intros ? [= <-].
Qed.

(** A step that only asks *)
Lemma lift_path_holds r w (Q : result file_error str → World → Prop) :
  (∀ v, r = Ok v → Q (Ok v) w) → (∀ e, r = Throw e → Q (Throw (PathError e)) w) → st_holds (lift_path r) w Q.
Proof. destruct r; unfold st_holds; cbn; auto. Qed.

Lemma read_entry_holds dir name s loadOwners w tr : sane w → base `prefix_of` tr → Reset K tr (Join (real dir) name) = Ok s →
  st_holds (read_entry K uninit sitepath acl_GIDToName user loadOwners (real dir) name s) w
    (λ r w', sane w' ∧ match r with
                       | Ok (Some d) => e_name d = name ∧ granted dir d
                       | Ok None => missing dir name
                       | Throw _ => True
                       end).
Proof.
  intros Hw Htr Hs. apply st_holds_bind, lift_path_holds; [|done]. intros v Hv. cbn zeta.
  pose proof (MakeVirtual_real_not_nil _ v Hv) as Hne.
  apply st_holds_bind. eapply st_holds_conseq; [by apply may_holds|]. intros r w1 (Hw1 & E1 & Hr).
  destruct r as [e|]; [|done]. specialize (Hr e eq_refl). destruct (err_ok e) eqn:Ee; cbn [negb].
  2: { split; [done|]. right; right; right. exists tr, (ops w), s, v. split_and!; try done; [apply Hw|]. intros Ha. by apply Hr in Ha. }
  apply st_holds_bind. eapply st_holds_conseq; [by apply may_holds|]. intros r w2 (Hw2 & E2 & Hh).
  destruct r as [h|]; [|done]. specialize (Hh h eq_refl).
  assert (∀ o, (o = MkOwner 0 0 ∨ err_ok h = false) → granted dir (MkDirEntry name s o)) as Hgr.
  { intros o Ho. exists v. split; [done|]. cbn. split.
    - exists (ops w). split; [apply Hw|by apply Hr].
    - destruct Ho as [?|Ho]; [by left|right]. exists (ops w1). split; [apply Hw1|]. intros Ha. apply Hh in Ha. congruence. }
  destruct (negb (err_ok h) && loadOwners) eqn:Eh; unfold st_holds; cbn; (split; [done|]); (split; [done|]); apply Hgr; [|by left].
  right. apply andb_true_iff in Eh as [Eh _]. by apply negb_true_iff.
Qed.

(** What is known of the entries that were read of the first names *)
Definition read (dir : str) (names : list str) (entries : list DirEntry) : Prop :=
  map e_name entries `sublist_of` names ∧ Forall (granted dir) entries ∧
  ∀ name, name ∈ names → missing dir name ∨ ∃ d, d ∈ entries ∧ e_name d = name.

Lemma read_more dir names name entries : read dir names entries → missing dir name → read dir (names ++ [name]) entries.
Proof.
  intros (A1 & A2 & A3) Hm. split_and!; [by apply sublist_inserts_r|done|].
  intros n [Hn | ->%list_elem_of_singleton]%elem_of_app; [by apply A3|by left].
Qed.

Lemma read_entry_more dir names d entries : read dir names entries → granted dir d → read dir (names ++ [e_name d]) (entries ++ [d]).
Proof.
  intros (A1 & A2 & A3) Hm. split_and!.
  - rewrite map_app. by apply sublist_app.
  - apply Forall_app. split; [done|by apply Forall_singleton].
  - intros n [Hn | ->%list_elem_of_singleton]%elem_of_app.
    + destruct (A3 n Hn) as [?|(d' & Hd & Hn')]; [by left|right]. exists d'. split; [|done]. apply elem_of_app. by left.
    + right. exists d. split; [|done]. apply elem_of_app. right. by apply list_elem_of_singleton.
Qed.

(** The names before, and what they add *)
Definition summed (dir : str) (names : list str) (total : Z) : Prop :=
  ∃ sizes, Forall2 (adds dir) names sizes ∧ total = foldr Z.add 0 sizes mod 2 ^ 64.

Lemma foldr_add_snoc l z : foldr Z.add 0 (l ++ [z]) = foldr Z.add 0 l + z.
Proof. rewrite foldr_app. cbn. rewrite Z.add_0_r. induction l as [|x l IH]; cbn; lia. Qed.

Lemma summed_more dir names name z total : summed dir names total → adds dir name z → summed dir (names ++ [name]) ((total + z) mod 2 ^ 64).
Proof.
  intros (sizes & Hs & ->) Hz. exists (sizes ++ [z]). split; [by apply Forall2_app; [|constructor]|].
  by rewrite foldr_add_snoc, Zplus_mod_idemp_l.
Qed.

Lemma summed_same dir names name total : summed dir names total → adds dir name 0 → summed dir (names ++ [name]) total.
Proof.
  intros Hs Hz. pose proof (summed_more dir names name 0 total Hs Hz) as Hm. destruct Hs as (sizes & _ & ->).
  by rewrite Z.add_0_r, Zmod_mod in Hm.
Qed.

Lemma Readdir_loop_holds dir loadOwners names before entries total w : sane w → read dir before entries → summed dir before total →
  st_holds (Readdir_loop K uninit sitepath acl_GIDToName user loadOwners (real dir) names entries total) w
    (λ r w', sane w' ∧ ∀ l t, r = Ok (l, t) → read dir (before ++ names) l ∧ summed dir (before ++ names) t).
Proof.
  revert before entries total w. induction names as [|name names IH]; intros before entries total w Hw Hread Hsum; cbn [Readdir_loop].
  { split; [done|]. intros l t [= <- <-]. by rewrite app_nil_r. }
  replace (before ++ name :: names) with ((before ++ [name]) ++ names) by (by rewrite <-app_assoc).
  destruct (bool_decide (name = lit ".") || bool_decide (name = lit "..")) eqn:Edot.
  { assert (name = lit "." ∨ name = lit "..") as Hname
      by (apply orb_true_iff in Edot as [E%bool_decide_eq_true | E%bool_decide_eq_true]; [by left|by right]).
    apply IH; [done| |apply summed_same; [done|by left]]. apply read_more; [done|]. destruct Hname; [by left|by right; left]. }
  apply st_holds_bind, st_holds_catch, st_holds_bind. unfold st_holds at 1, status, query. cbn [fst snd].
  pose proof (sane_push w (Lstat (Join (real dir) name)) Hw) as Hw1.
  assert (∀ z, match Reset K (ops w) (Join (real dir) name) with Ok s => z = Size s | Throw _ => z = 0 end → adds dir name z) as Hadds.
  { intros z Hz. right. exists (ops w). split; [apply Hw|done]. }
  destruct (Reset K (ops w) (Join (real dir) name)) as [s|e] eqn:Es; cbn [fst snd].
  - pose proof (summed_more dir before name (Size s) total Hsum (Hadds _ eq_refl)) as Hsum'.
    apply st_holds_bind. eapply st_holds_conseq; [eapply (read_entry_holds dir name s); [done|apply Hw|done]|].
    intros [[d|]|e] w2 [Hw2 Hr]; [|by apply IH; [|apply read_more|]|done]. destruct Hr as [<- Hd]. apply IH; [done| |done]. by apply read_entry_more.
  - apply IH; [done| |apply summed_same; [done|by apply Hadds]]. apply read_more; [done|]. right; right; left. exists (ops w), e. split; [apply Hw|done].
Qed.

(** What is known of a directory that was read: denied, it is empty; otherwise its
    entries are those of readdir(3) that may be viewed, in the order of the options. *)
Definition listed o (dir : str) (entries : list DirEntry) : Prop :=
  (entries = [] ∧ ∃ v tr, MakeVirtual_real sitepath (real dir) = Ok v ∧ base `prefix_of` tr ∧ ¬ admitted View (slashed v) tr) ∨
  ∃ tr names entries', base `prefix_of` tr ∧ readdir K tr (real dir) = Ok names ∧ read dir names entries' ∧
    entries ≡ₚ entries' ∧ StronglySorted (λ d e, less o e d = false) entries.

Context `{!StdSortOk}.

Lemma listed_granted o dir entries : listed o dir entries → Forall (granted dir) entries.
Proof. intros [[-> _]|(tr & names & l & _ & _ & (_ & Hl & _) & Hp & _)]; [done|by rewrite Hp]. Qed.

Lemma Readdir_holds o dir w : sane w →
  st_holds (Readdir K uninit sitepath acl_GIDToName user o dir) w
    (λ r w', sane w' ∧ ∀ l t, r = Ok (l, t) → listed o dir l ∧ totals dir t).
Proof.
  intros Hw. unfold Readdir, Readdir_user.
  apply st_holds_bind, st_holds_bind, lift_path_holds; [|intros e He; by split]. intros v Hv.
  apply st_holds_bind. eapply st_holds_conseq; [apply dir_allowed_holds; [by eapply MakeVirtual_real_not_nil|done]|].
  intros [e|] w1 (Hw1 & E1 & Hr); [|by split]. specialize (Hr e eq_refl). destruct (err_ok e) eqn:Ee; cbn [negb].
  - apply st_holds_bind. unfold st_holds at 1, opendir, query. cbn [fst snd].
    pose proof (sane_push w1 (Opendir (real dir)) Hw1) as Hw2.
    destruct (readdir K (ops w1) (real dir)) as [names|] eqn:En; [|by split].
    eapply st_holds_conseq; [apply (Readdir_loop_holds dir _ names [] [] 0); [done| |]|].
    { split_and!; [apply sublist_nil_l|done|]. by intros ? ?%elem_of_nil. }
    { exists []. by split. }
    intros [[l t]|] w3 [Hw3 Hl]; [|by split]. split; [done|]. intros l' t' [= <- <-].
    destruct (Hl l t eq_refl) as [Hl1 (sizes & Hl2 & Hl3)]. split; right.
    + exists (ops w1), names, l. split_and!; [apply Hw1|done|exact Hl1|apply std_sort_perm|apply std_sort_sorted].
    + exists (ops w1), names, sizes. split_and!; [apply Hw1|done..].
  - split; [done|]. intros l t [= <- <-].
    assert (∃ v tr, MakeVirtual_real sitepath (real dir) = Ok v ∧ base `prefix_of` tr ∧ ¬ admitted View (slashed v) tr) as Hden.
    { exists v, (ops w). split_and!; [done|apply Hw|]. intros Ha. by apply Hr in Ha. }
    split; left; [|done]. split; [|done]. apply Permutation_nil. symmetry. apply std_sort_perm.
Qed.

(** *** The pages that are sent *)

Local Abbreviation entry_line := (entry_line sitepath acl_UIDToName acl_GIDToName st_nlink readlink strftime).
Local Abbreviation ListPath := (ListPath K uninit sitepath acl_UIDToName acl_GIDToName st_nlink readlink strftime write_error).

(** An entry whose name was asked for *)
Definition wanted o (mask : str) (d : DirEntry) : Prop :=
  (head (e_name d) = Some "."%char → all o = true) ∧ (mask = [] ∨ fnmatch mask (e_name d) false = true).

Lemma shown_wanted o mask d : shown o mask d = true ↔ wanted o mask d.
Proof.
  unfold shown, wanted. rewrite andb_true_iff, negb_true_iff, andb_false_iff, bool_decide_eq_false, negb_false_iff, orb_true_iff, bool_decide_eq_true.
  destruct (all o); destruct (decide (head (e_name d) = Some "."%char)); naive_solver.
Qed.

(** The directories that a listing reaches from the one it starts with, with the
    wildcards that are left and the depth *)
Inductive reached o (root : str) (masks0 : list str) : str → list str → Z → Prop :=
  | reached_root : reached o root masks0 root masks0 1
  | reached_entry dir masks depth d : reached o root masks0 dir masks depth → granted dir d →
      IsDirectory (e_status d) = true → IsSymLink (e_status d) = false → wanted o (fst (first_mask masks)) d →
      reached o root masks0 (Join dir (e_name d)) (snd (first_mask masks)) (depth + 1).

(** A line, as the code writes it, of an entry that may be shown and was asked for *)
Definition admitted_line o (dir mask line : str) : Prop := ∃ d l l',
  granted dir d ∧ wanted o mask d ∧ entry_line o dir d l = (Ok line, l').

(** One text that is written: of a directory that was reached, its heading, its total,
    and lines that are admitted; none of these while wildcards are left *)
Definition page o (root : str) (masks0 : list str) (text : str) : Prop := ∃ dir masks depth total lines,
  reached o root masks0 dir masks depth ∧ totals dir total ∧ text = heading o dir masks depth ++ total_line o total ++ concat lines ∧
  Forall (admitted_line o dir (fst (first_mask masks))) lines ∧ (lines ≠ [] → snd (first_mask masks) = []).

(** What a command has sent is only pages, and replies of the control connection. *)
Definition pages o (root : str) (masks0 : list str) (before after : list sent) : Prop := ∃ new,
  after = before ++ new ∧ ∀ text, Raw text ∈ new → page o root masks0 text.

Lemma pages_refl o root masks l : pages o root masks l l.
Proof. exists []. rewrite app_nil_r. split; [done|]. by intros ? ?%elem_of_nil. Qed.

Lemma pages_trans o root masks l1 l2 l3 : pages o root masks l1 l2 → pages o root masks l2 l3 → pages o root masks l1 l3.
Proof.
  intros (n1 & -> & Hn1) (n2 & -> & Hn2). exists (n1 ++ n2). rewrite <-app_assoc. split; [done|].
  intros text [?|?]%elem_of_app; auto.
Qed.

(** The state keeps the rules, and nothing is written. *)
Definition quiet (l l' : Listing) : Prop := sane (world l') ∧ out l' = out l.

Lemma cached_quiet get put f i l : (∀ m k, world (put m k) = world k ∧ out (put m k) = out k) → sane (world l) →
  st_holds (cached get put f i) l (λ _ l', quiet l l').
Proof.
  intros Hput Hl. unfold st_holds, cached. destruct (get l !! i); [by split|]. cbn.
  destruct (Hput (<[i:=f i]> (get l)) l) as [E1 E2]. split; [by rewrite E1|done].
Qed.

Lemma still_trans l1 l2 l3 : quiet l1 l2 → quiet l2 l3 → quiet l1 l3.
Proof. intros [_ E1] [Hs E2]. split; [done|]. by rewrite E2. Qed.

Lemma quiet_bind {A B} (m : L A) (k : A → L B) l : (∀ l, sane (world l) → st_holds m l (λ _ l', quiet l l')) →
  (∀ a l, sane (world l) → st_holds (k a) l (λ _ l', quiet l l')) → sane (world l) → st_holds (st_bind m k) l (λ _ l', quiet l l').
Proof.
  intros Hm Hk Hl. apply st_holds_bind. eapply st_holds_conseq; [by apply Hm|]. intros [a|e] l1 Hq; [|done].
  eapply st_holds_conseq; [apply Hk, Hq|]. intros r l2 Hq2. by eapply still_trans.
Qed.

Lemma long_columns_quiet o d l : sane (world l) →
  st_holds (long_columns acl_UIDToName acl_GIDToName st_nlink strftime o d) l (λ _ l', quiet l l').
Proof.
  unfold long_columns. destruct (sizeName o); [by split|].
  apply quiet_bind; [intros; by apply cached_quiet|]. intros u l1 Hl1. revert Hl1.
  apply quiet_bind.
  { intros l2 Hl2. destruct (noGroup o); [by split|]. revert Hl2. apply quiet_bind; [intros; by apply cached_quiet|]. by split. }
  intros g l2 Hl2. revert Hl2. apply quiet_bind; [intros; by apply cached_quiet|]. by split.
Qed.

Lemma link_text_quiet dir d l : sane (world l) → st_holds (link_text sitepath readlink dir d) l (λ _ l', quiet l l').
Proof. unfold link_text. by destruct (IsSymLink _). Qed.

Lemma entry_line_quiet o dir d l : sane (world l) → st_holds (entry_line o dir d) l (λ _ l', quiet l l').
Proof.
  unfold Listing.entry_line. destruct (longFormat o); [|by split].
  apply quiet_bind; [intros; by apply long_columns_quiet|]. intros c l1 Hl1. revert Hl1.
  apply quiet_bind; [intros; by apply link_text_quiet|]. by split.
Qed.

Lemma entry_lines_holds o dir mask entries before lines l : Forall (granted dir) entries → Forall (admitted_line o dir mask) lines → sane (world l) →
  st_holds (entry_lines sitepath acl_UIDToName acl_GIDToName st_nlink readlink strftime o dir mask entries (before ++ concat lines)) l
    (λ r l', quiet l l' ∧ ∀ message, r = Ok message → ∃ lines, message = before ++ concat lines ∧ Forall (admitted_line o dir mask) lines).
Proof.
  revert lines l. induction entries as [|d entries IH]; intros lines l Hd Hlines Hl; cbn [entry_lines].
  { split; [by split|]. intros ? [= <-]. by exists lines. }
  apply Forall_cons in Hd as [Hd Hds]. destruct (shown o mask d) eqn:Es; [apply shown_wanted in Es|by apply IH].
  apply st_holds_bind. unfold st_holds at 1. pose proof (entry_line_quiet o dir d l Hl) as Hq. unfold st_holds in Hq.
  destruct (entry_line o dir d l) as [[line|e] l1] eqn:E; cbn [fst snd] in *; [|by split].
  rewrite <-app_assoc. replace (concat lines ++ line) with (concat (lines ++ [line])) by (rewrite concat_app; cbn; by rewrite app_nil_r).
  eapply st_holds_conseq; [apply IH; [done| |apply Hq]|].
  - apply Forall_app. split; [done|]. apply Forall_singleton. by exists d, l, l1.
  - intros r l2 [Hq2 Hr]. split; [by eapply still_trans|done].
Qed.

Definition paged o (root : str) (masks0 : list str) (l l' : Listing) : Prop := sane (world l') ∧ pages o root masks0 (out l) (out l').

Lemma paged_trans o root masks l1 l2 l3 : paged o root masks l1 l2 → paged o root masks l2 l3 → paged o root masks l1 l3.
Proof. intros [_ Hp1] [Hs Hp2]. split; [done|by eapply pages_trans]. Qed.

Lemma quiet_paged o root masks l l' : quiet l l' → paged o root masks l l'.
Proof. intros [Hs E]. split; [done|]. rewrite E. apply pages_refl. Qed.

Lemma Output_paged o root masks text l : sane (world l) → page o root masks text → st_holds (Output write_error text) l (λ _ l', paged o root masks l l').
Proof.
  intros Hl Ht. unfold st_holds, Output. destruct (write_error _); [by apply quiet_paged|]. split; [done|].
  exists [Raw text]. split; [done|]. intros t [= ->]%list_elem_of_singleton. done.
Qed.

Lemma ListPath_holds fuel o root masks0 maxRecursion : ∀ dir masks depth l, reached o root masks0 dir masks depth → sane (world l) →
  st_holds (ListPath fuel user o maxRecursion dir masks depth) l (λ _ l', paged o root masks0 l l').
Proof.
  induction fuel as [|fuel IH]; intros dir masks depth l Hdir Hl; [by apply quiet_paged|]. cbn [Listing.ListPath].
  destruct (_ && _); [by apply quiet_paged|].
  apply st_holds_bind, st_holds_catch, st_holds_bind. unfold st_holds at 1, in_world.
  pose proof (Readdir_holds o dir (world l) Hl) as Hr. unfold st_holds in Hr.
  destruct (Readdir _ _ _ _ _ _ _ _) as [[[entries total]|e] w]; cbn [fst snd] in *; destruct Hr as [Hw Hr].
  2: by destruct e; apply quiet_paged.
  assert (quiet l (set_world w l)) as Hq1 by done. destruct (Hr entries total eq_refl) as [Hl1 Htot]. clear Hr. apply listed_granted in Hl1 as Hr.
  unfold st_holds at 1. cbn [fst snd st_ret]. destruct (first_mask masks) as [mask masks'] eqn:Em.
  apply st_holds_bind. eapply (st_holds_conseq _ _ (λ r l', quiet (set_world w l) l' ∧ ∀ message, r = Ok message →
    ∃ lines, message = (heading o dir masks depth ++ total_line o total) ++ concat lines ∧
      Forall (admitted_line o dir mask) lines ∧ (lines ≠ [] → masks' = []))).
  { destruct (bool_decide (masks' = [])) eqn:Eb; [apply bool_decide_eq_true in Eb|].
    - rewrite <-(app_nil_r (heading _ _ _ _ ++ _)) at 1.
      eapply st_holds_conseq; [by apply (entry_lines_holds o dir mask entries _ [])|]. intros r l' [Hq2 Hm]. split; [done|].
      intros message Er. destruct (Hm message Er) as (lines & E & Hlines). by exists lines.
    - split; [done|]. intros ? [= <-]. exists []. by rewrite app_nil_r. }
  intros [message|e] l1 [Hq2 Hm].
  2: { apply quiet_paged. by apply (still_trans _ _ _ Hq1). }
  destruct (Hm message eq_refl) as (lines & -> & Hlines & Hnil). pose proof (quiet_paged o root masks0 _ _ (still_trans _ _ _ Hq1 Hq2)) as Hp1.
  apply st_holds_bind. eapply st_holds_conseq; [apply (Output_paged o root masks0); [apply Hq2|]|].
  { exists dir, masks, depth, total, lines. rewrite <-app_assoc, Em. by split_and!. }
  intros r l2 Hp2. pose proof (paged_trans _ _ _ _ _ _ Hp1 Hp2) as Hp. destruct r as [[]|]; [|done].
  destruct (_ || _); [|done].
  eapply st_holds_conseq; [apply (st_holds_iter (λ l', paged o root masks0 l l') (λ _ l', paged o root masks0 l l')); [|done]|by intros [] ?].
  intros d l3 [Hd Hin]%list_elem_of_filter Hp3.
  eapply st_holds_conseq; [apply IH; [|apply Hp3]|].
  - unfold enters in Hd. apply andb_true_iff in Hd as [[Hdir1 Hdir2%negb_true_iff]%andb_true_iff Hd%shown_wanted].
    pose proof (reached_entry o root masks0 dir masks depth d Hdir) as Hre. rewrite Em in Hre. apply Hre; [|done..]. by eapply Forall_forall.
  - intros r l4 Hp4. destruct r; by apply (paged_trans _ _ _ _ _ _ Hp3).
Qed.

(** *** The commands *)

Lemma make_virtual_sane path : st_triple sane (make_virtual K sitepath path) (λ _, True).
Proof. unfold make_virtual. apply st_triple_then; [by intros w Hw|]. intros r. unfold lift_path. destruct (MakeVirtual_real _ _); [by apply st_triple_ret|by apply st_triple_throw]. Qed.

Lemma SplitPath_sane path : st_triple sane (SplitPath K sitepath path) (λ _, True).
Proof.
  unfold SplitPath, PathFromUser. apply st_triple_then.
  - apply st_triple_catch; [|by intros [] k [= <-]; apply st_triple_ret].
    apply st_triple_then; [by intros w Hw|]. intros r. apply st_triple_then; [|by intros; apply st_triple_ret].
    intros w Hw. split; [by apply sane_push|done].
  - intros []; [apply st_triple_then; [apply make_virtual_sane|]; intros; by apply st_triple_ret|].
    apply st_triple_then; [case_bool_decide; [apply make_virtual_sane|by apply st_triple_ret]|]. intros parent.
    destruct (split_masks _ _). apply st_triple_then; [apply make_virtual_sane|]. intros; by apply st_triple_ret.
Qed.

(** Every text of a listing of [path] is a page of the directory it starts with. *)
Definition shows o path (w0 : World) (before after : list sent) : Prop := ∃ new,
  after = before ++ new ∧
  ∀ text, Raw text ∈ new → ∃ root masks, fst (SplitPath K sitepath path w0) = Ok (root, masks) ∧ page o root masks text.

Lemma shows_more o path w0 l0 l1 l2 : shows o path w0 l0 l1 → (∃ new, l2 = l1 ++ new ∧ ∀ text, Raw text ∉ new) → shows o path w0 l0 l2.
Proof.
  intros (n1 & -> & Hn1) (n2 & -> & Hn2). exists (n1 ++ n2). rewrite <-app_assoc. split; [done|].
  intros text [?|Ht]%elem_of_app; [auto|]. by apply Hn2 in Ht.
Qed.

Lemma shows_reply o path w0 l0 l1 s : shows o path w0 l0 l1 → (∀ text, Raw text ≠ s) → shows o path w0 l0 (l1 ++ [s]).
Proof.
  intros Hs Hr. eapply shows_more; [done|]. exists [s]. split; [done|]. by intros text E%list_elem_of_singleton%Hr.
Qed.

Lemma Execute_holds fuel o maxRecursion path before l : sane (world l) → shows o path (world l) before (out l) →
  st_holds (Execute K uninit sitepath acl_UIDToName acl_GIDToName st_nlink readlink strftime write_error fuel user path o maxRecursion) l
    (λ _ l', shows o path (world l) before (out l')).
Proof.
  intros Hl (new & E & Hnew). unfold Execute. apply st_holds_bind. unfold st_holds at 1, in_world.
  pose proof (proj1 (SplitPath_sane path (world l) Hl)) as Hw.
  destruct (SplitPath K sitepath path (world l)) as [[[root masks]|e] w] eqn:Es; cbn [fst snd] in *.
  2: { exists new. split; [done|]. intros text Ht. by destruct (Hnew text Ht) as (? & ? & ? & ?). }
  eapply st_holds_conseq; [apply (ListPath_holds fuel o root masks); [constructor|done]|].
  intros r l' [_ (n2 & E2 & Hn2)]. exists (new ++ n2). rewrite E2. split; [cbn; by rewrite E, app_assoc|].
  intros text [Ht|Ht]%elem_of_app; [rewrite Es; auto|]. rewrite Es. exists root, masks. split; [done|]. auto.
Qed.

Section commands.
Context `{Trim} (e : ListEnv) (fuel : nat).

Local Abbreviation LISTCommand := (LISTCommand K uninit sitepath acl_UIDToName acl_GIDToName st_nlink readlink strftime write_error e fuel user).
Local Abbreviation STATCommand := (STATCommand K uninit sitepath acl_UIDToName acl_GIDToName st_nlink readlink strftime write_error e fuel user).

(** The options of a command, and the path *)
Definition asked_options (nlst : bool) argStr args : ListOptions :=
  ListOptions_of (fst (parse_args argStr args)) (if nlst then [] else lit "l" ++ lslong_options e).

Lemma shows_here o path l : shows o path (world l) (out l) (out l).
Proof. exists []. rewrite app_nil_r. split; [done|]. by intros ? ?%elem_of_nil. Qed.

Ltac replies := cbn; repeat (apply shows_reply; [|done]); done.

Lemma in_world_same {A} (m : M A) l (Q : result list_error A → Listing → Prop) :
  (∀ w, snd (m w) = w) → (∀ r, Q r l) → st_holds (in_world m) l Q.
Proof.
  intros Hm HQ. unfold st_holds, in_world. specialize (Hm (world l)). destruct (m (world l)) as [r w]. cbn in *. subst w.
  destruct l. apply HQ.
Qed.

Lemma LISTCommand_shows nlst argStr args l : sane (world l) →
  shows (asked_options nlst argStr args) (snd (parse_args argStr args)) (world l) (out l) (out (snd (LISTCommand nlst argStr args l))).
Proof.
  intros Hl. change (st_holds (LISTCommand nlst argStr args) l (λ _ l', shows (asked_options nlst argStr args) (snd (parse_args argStr args)) (world l) (out l) (out l'))).
  unfold Listing.LISTCommand, asked_options. destruct (parse_args argStr args) as [options path]. cbn [fst snd].
  set (o := ListOptions_of _ _). pose proof (shows_here o path l) as Hs. unfold reply. apply st_holds_bind. unfold st_holds at 1. cbn [fst snd st_modify].
  destruct (open_error e); [replies|]. apply st_holds_bind. unfold st_holds at 1. cbn [fst snd st_modify].
  destruct (ProtectionOkay e); cbn [negb]; [|replies].
  apply st_holds_bind. unfold st_holds at 1. cbn [fst snd new_DirectoryList st_modify].
  apply st_holds_bind, st_holds_catch, st_holds_bind. eapply st_holds_conseq.
  { apply (Execute_holds fuel o _ path (out l)); [exact Hl|]. replies. }
  intros [[]|[]] l' Hs'; try exact Hs'; replies.
Qed.

Lemma STATCommand_shows argStr args l : sane (world l) →
  shows (asked_options false argStr args) (snd (parse_args argStr args)) (world l) (out l) (out (snd (STATCommand argStr args l))).
Proof.
  intros Hl. change (st_holds (STATCommand argStr args) l (λ _ l', shows (asked_options false argStr args) (snd (parse_args argStr args)) (world l) (out l) (out l'))).
  unfold Listing.STATCommand, asked_options. destruct (_ =? _)%nat; [apply shows_reply; [apply shows_here|done]|].
  destruct (parse_args argStr args) as [options path]. cbn [fst snd]. set (o := ListOptions_of _ _).
  unfold st_holds, single_line_off. pose proof (shows_here o path l) as Hs. 
  match goal with |- context [?m (set_singleLineReplies false l)] => enough (st_holds m (set_singleLineReplies false l) (λ _ l', shows o path (world l) (out l) (out l'))) as Hm end.
  { unfold st_holds in Hm. by destruct (st_bind _ _ _) as [r l']. }
  apply st_holds_bind, in_world_same; [by intros w; unfold make_virtual, lift_path; cbn; destruct (MakeVirtual_real _ _)|].
  intros [v|x]; [|exact Hs]. apply st_holds_bind. unfold st_holds at 1. cbn [fst snd st_gets].
  apply st_holds_bind, in_world_same; [by intros w; destruct (MakePretty_virtual _ _)|]. intros [p|x]; [|exact Hs].
  apply st_holds_bind. unfold st_holds at 1, part_reply. cbn [fst snd st_modify].
  apply st_holds_bind. unfold st_holds at 1. cbn [fst snd new_DirectoryList st_modify].
  apply st_holds_bind. eapply st_holds_conseq; [apply (Execute_holds fuel o _ path (out l)); [exact Hl|replies]|].
  intros [[]|x] l' Hs'; [|exact Hs']. replies.
Qed.

End commands.

End shown.

(** ** The recursion ends *)

Section ends.
Context `{Fnmatch, ReplaceAll, CaseConv, StdSort}.
Context (K : Kernel) (uninit : Z) (sitepath : str).
Context (acl_UIDToName acl_GIDToName : Z → str) (st_nlink : stat → Z) (readlink : list sys → str → option str) (strftime : Z → str).
Context (write_error : nat → option str) (user : UserData) (o : ListOptions) (maxRecursion : Z).

Local Abbreviation ListPath := (ListPath K uninit sitepath acl_UIDToName acl_GIDToName st_nlink readlink strftime write_error).
Local Abbreviation Execute := (Execute K uninit sitepath acl_UIDToName acl_GIDToName st_nlink readlink strftime write_error).

(** The calls that may still be nested: a recursive listing is bounded by the
    configured depth, another by its wildcards. *)
Definition suffices (fuel : nat) (masks : list str) (depth : Z) : Prop :=
  (0 < fuel)%nat ∧ if recursive o then 0 < maxRecursion ∧ maxRecursion + 1 < depth + Z.of_nat fuel else (length masks < fuel)%nat.

(** A computation whose recursion ends *)
Definition ends {A} (m : ST Listing list_error A) : Prop := ∀ l, fst (m l) ≠ Throw Deeper.

Lemma ends_bind {A B} (m : ST Listing list_error A) (k : A → ST Listing list_error B) : ends m → (∀ a, ends (k a)) → ends (st_bind m k).
Proof. intros Hm Hk l. unfold st_bind. specialize (Hm l). destruct (m l) as [[a|e] l1]; [apply Hk|cbn in *; congruence]. Qed.

Lemma ends_cached get put f i : ends (cached get put f i).
Proof. intros l. unfold cached. by destruct (get l !! i). Qed.

Lemma ends_in_world {A} (m : M A) : ends (in_world m).
Proof. intros l. unfold in_world. by destruct (m (world l)) as [[a|e] w]. Qed.

Lemma ends_iter {A} (f : A → ST Listing list_error unit) l : (∀ a, ends (f a)) → ends (st_iter f l).
Proof. intros Hf. induction l as [|a l IH]; [done|]. by apply ends_bind. Qed.

Lemma ends_entry_line path d : ends (entry_line sitepath acl_UIDToName acl_GIDToName st_nlink readlink strftime o path d).
Proof.
  unfold entry_line, long_columns, link_text, UIDToName, GIDToName, Timestamp.
  repeat first [done | apply ends_bind; [|intros ?] | apply ends_cached | case_match].
Qed.

Lemma ends_entry_lines path mask entries message :
  ends (entry_lines sitepath acl_UIDToName acl_GIDToName st_nlink readlink strftime o path mask entries message).
Proof.
  revert message. induction entries as [|d entries IH]; intros message; [done|]. cbn [entry_lines].
  destruct (shown o mask d); [|done]. by apply ends_bind; [apply ends_entry_line|].
Qed.

Lemma suffices_next n masks depth mask masks' : suffices (S n) masks depth → first_mask masks = (mask, masks') →
  negb (maxRecursion =? 0) && (maxRecursion <? depth) = false → recursive o || negb (bool_decide (mask = [])) = true →
  suffices n masks' (depth + 1).
Proof.
  unfold suffices. intros [_ Hn] E Hd Hm. destruct (recursive o); cbn [orb] in Hm.
  - apply andb_false_iff in Hd as [Hd%negb_false_iff | Hd]; lia.
  - destruct masks as [|m masks]; injection E as <- <-; [done|]. cbn in Hn. lia.
Qed.

(** More fuel than suffices changes nothing, and what suffices is not used up. *)
Lemma ListPath_ends n : ∀ fuel path masks depth, suffices n masks depth → (n ≤ fuel)%nat →
  (∀ l, ListPath fuel user o maxRecursion path masks depth l = ListPath n user o maxRecursion path masks depth l) ∧
  ends (ListPath n user o maxRecursion path masks depth).
Proof.
  induction n as [|n IH]; intros fuel path masks depth Hn Hfuel.
  { destruct Hn. lia. }
  destruct fuel as [|fuel]; [lia|]. cbn [Listing.ListPath].
  destruct (negb (maxRecursion =? 0) && (maxRecursion <? depth)) eqn:Ed; [done|].
  destruct (first_mask masks) as [mask masks'] eqn:Em.
  assert (∀ b : bool, recursive o || negb (bool_decide (mask = [])) = b →
    (∀ entries l, (if b then st_iter (λ d, ListPath fuel user o maxRecursion (Join path (e_name d)) masks' (depth + 1)) entries else st_ret tt) l =
                  (if b then st_iter (λ d, ListPath n user o maxRecursion (Join path (e_name d)) masks' (depth + 1)) entries else st_ret tt) l) ∧
    ∀ entries, ends (if b then st_iter (λ d, ListPath n user o maxRecursion (Join path (e_name d)) masks' (depth + 1)) entries else st_ret tt)) as Hrec.
  { intros [] Eb; [|done]. pose proof (suffices_next n masks depth mask masks' Hn Em Ed Eb) as Hn'.
    split; intros entries; [intros l; apply st_iter_ext|apply ends_iter]; intros d; apply (IH fuel); [exact Hn'|lia|exact Hn'|lia]. }
  specialize (Hrec _ eq_refl) as [Hsame Hends]. split.
  - intros l. apply st_bind_ext. intros [[entries total]|] l1; [|done]. apply st_bind_ext. intros message l2.
    apply st_bind_ext. intros [] l3. apply Hsame.
  - apply ends_bind.
    { intros l. unfold st_catch, st_bind. pose proof (ends_in_world (Readdir K uninit sitepath acl_GIDToName user o path) l) as Hr.
      destruct (in_world _ l) as [[a|[[]| |]] l1]; cbn in *; congruence. }
    intros [[entries total]|]; [|done]. apply ends_bind; [destruct (bool_decide (masks' = [])); [apply ends_entry_lines|done]|]. intros message.
    apply ends_bind; [|intros []; apply Hends]. intros l. unfold Output. by destruct (write_error _).
Qed.

Lemma split_masks_length toks parent : (length (snd (split_masks toks parent)) ≤ length toks)%nat.
Proof. revert parent. induction toks as [|token toks IH]; intros parent; [done|]. cbn. destruct (wildcard token); cbn; [lia|]. specialize (IH (Join parent token)). lia. Qed.

(** The words of a path between slashes, or 1 *)
Definition words (path : str) : nat := Nat.max 1 (length (tokens path)).

Lemma SplitPath_masks path w root masks w' : SplitPath K sitepath path w = (Ok (root, masks), w') → (length masks ≤ words path)%nat.
Proof.
  unfold SplitPath, words. intros (regular & w1 & _ & E)%st_bind_Ok. destruct regular.
  - apply st_bind_Ok in E as (parent & w2 & _ & [= _ <- _]). cbn. lia.
  - apply st_bind_Ok in E as (parent & w2 & _ & E). pose proof (split_masks_length (tokens path) parent) as Hl.
    destruct (split_masks _ _) as [parent' masks']. apply st_bind_Ok in E as (parent'' & w3 & _ & [= _ <- _]). cbn in *. lia.
Qed.

(** The calls that a listing nests at most *)
Definition enough (path : str) : nat := S (if recursive o then Z.to_nat maxRecursion else words path).

(** C31: A listing ends.  With the option [R] let a recursion limit be set.  Then the
    calls of [ListPath] nest no deeper than one more than the limit (the last returns
    at once); without the option, no deeper than one more than the path has words
    between its slashes, or twice if it has none.  That fuel is not used up, whatever
    the file system shows, and more of it gives the same result and the same state. *)
Theorem Execute_ends path fuel l :
  (recursive o = true → 0 < maxRecursion) → (enough path ≤ fuel)%nat →
  Execute fuel user path o maxRecursion l = Execute (enough path) user path o maxRecursion l ∧
  fst (Execute fuel user path o maxRecursion l) ≠ Throw Deeper.
Proof.
  intros Hrec Hfuel. unfold Listing.Execute, st_bind, in_world.
  destruct (SplitPath K sitepath path (world l)) as [[[root masks]|e] w] eqn:Es; [|done]. apply SplitPath_masks in Es.
  assert (suffices (enough path) masks 1) as Hn.
  { unfold suffices, enough. destruct (recursive o); (split; [lia|]); [specialize (Hrec eq_refl)|]; lia. }
  destruct (ListPath_ends (enough path) fuel root masks 1 Hn Hfuel) as [Hsame Hends]. cbn [fst snd].
  rewrite Hsame. split; [done|apply Hends].
Qed.

End ends.

(** ** What is listed *)

Section theorems.
Context `{Fnmatch, ReplaceAll, CaseConv, StdSort, !StdSortOk, Trim}.
Context (K : Kernel) (uninit : Z) (sitepath : str).
Context (acl_UIDToName acl_GIDToName : Z → str) (st_nlink : stat → Z) (readlink : list sys → str → option str) (strftime : Z → str).
Context (write_error : nat → option str) (c : Config) (user : UserData).

(** A directory is read completely.  If [Readdir] returns, either the user may not
    view the directory and there are no entries, or the entries are in the order that
    the options ask for, and are names of readdir(3), each as often as there; each may
    be viewed under its virtual path, and its owner is shown only if he need not be
    hidden; and every name that is missing is a dot name of the directory itself, had
    no status, or may not be viewed. *)
Lemma Readdir_spec o dir w entries total w' :
  good acl_GIDToName c user w → Readdir K uninit sitepath acl_GIDToName user o dir w = (Ok (entries, total), w') →
  listed K uninit sitepath acl_GIDToName c user (ops w) o dir entries.
Proof.
  intros Hg E. assert (sane acl_GIDToName c user (ops w) w) as Hs by done.
  pose proof (Readdir_holds K uninit sitepath acl_UIDToName acl_GIDToName readlink strftime c user (ops w) o dir w Hs) as Hr.
  unfold st_holds in Hr. rewrite E in Hr. by eapply (proj2 Hr).
Qed.

(** C30: Only what may be viewed is listed.  Whatever LIST, NLST or STAT write as a
    listing is pages of directories that are reached, from the one that the path
    names, through entries that the user may view.  A page is a heading, which can name
    that directory, in a long listing the line with its total, and lines of entries: each
    of one that he may view at the time, with its owner only if it need not be hidden,
    that begins with a dot only with the option [a], and that the wildcard of its level
    matches.  The total is the sum of the sizes of all names in the directory, those
    that he may not view included, and 0 if he may not view the directory.  This holds
    too when the listing is broken off. *)
Theorem listing_admitted (e : ListEnv) fuel argStr args l :
  good acl_GIDToName c user (world l) →
  let opts nlst := asked_options e nlst argStr args in
  let pages nlst := shows K uninit sitepath acl_UIDToName acl_GIDToName st_nlink readlink strftime c user (ops (world l))
                      (opts nlst) (snd (parse_args argStr args)) (world l) (out l) in
  (∀ nlst, pages nlst (out (snd (LISTCommand K uninit sitepath acl_UIDToName acl_GIDToName st_nlink readlink strftime write_error
                                   e fuel user nlst argStr args l)))) ∧
  pages false (out (snd (STATCommand K uninit sitepath acl_UIDToName acl_GIDToName st_nlink readlink strftime write_error
                           e fuel user argStr args l))).
Proof.
  intros Hg opts pages. assert (sane acl_GIDToName c user (ops (world l)) (world l)) as Hs by done.
  split; [intros nlst; by apply LISTCommand_shows|by apply STATCommand_shows].
Qed.

End theorems.

(** ** A sort that keeps the laws *)

Lemma strcasecmp_opp a b : strcasecmp b a = CompOpp (strcasecmp a b).
Proof.
  revert b. induction a as [|x a IH]; intros [|y b]; [done..|]. cbn [strcasecmp].
  rewrite (Z.compare_antisym (code (ascii_lower x)) (code (ascii_lower y))). destruct (_ ?= _); cbn; [apply IH|done|done].
Qed.

Lemma strcasecmp_le_trans a b d : strcasecmp a b ≠ Gt → strcasecmp b d ≠ Gt → strcasecmp a d ≠ Gt.
Proof.
  revert b d. induction a as [|x a IH]; intros [|y b] [|z d]; try done. cbn [strcasecmp].
  generalize (code (ascii_lower x)), (code (ascii_lower y)), (code (ascii_lower z)). intros i j k.
  destruct (Z.compare_spec i j), (Z.compare_spec j k), (Z.compare_spec i k); try done; try lia. apply IH.
Qed.

(** What [less] does not put the other way round *)
Definition in_order (less : DirEntry → DirEntry → bool) (d e : DirEntry) : Prop := less e d = false.

#[export] Instance in_order_dec less d e : Decision (in_order less d e).
Proof. unfold in_order. apply _. Defined.

Lemma path_less_false d e : DirEntryPathLess e d = false ↔ strcasecmp (e_name d) (e_name e) ≠ Gt.
Proof. unfold DirEntryPathLess. rewrite (strcasecmp_opp (e_name d)). by destruct (strcasecmp _ _). Qed.

Lemma path_greater_false d e : DirEntryPathGreater e d = false ↔ strcasecmp (e_name e) (e_name d) ≠ Gt.
Proof. unfold DirEntryPathGreater. by destruct (strcasecmp _ _). Qed.

#[export] Instance in_order_trans o : Transitive (in_order (less o)).
Proof.
  intros d e f. unfold in_order, less, DirEntrySizeLess, DirEntrySizeGreater, DirEntryModTimeLess, DirEntryModTimeGreater.
  destruct (sizeSort o), (modTimeSort o), (reverse_ o); rewrite ?Z.ltb_ge, ?path_less_false, ?path_greater_false;
    solve [lia | intros; by eapply strcasecmp_le_trans].
Qed.

#[export] Instance in_order_total o : Total (in_order (less o)).
Proof.
  intros d e. unfold in_order, less, DirEntrySizeLess, DirEntrySizeGreater, DirEntryModTimeLess, DirEntryModTimeGreater.
  destruct (sizeSort o), (modTimeSort o), (reverse_ o); rewrite ?Z.ltb_ge, ?path_less_false, ?path_greater_false; try lia;
    rewrite (strcasecmp_opp (e_name d) (e_name e)); destruct (strcasecmp (e_name d) (e_name e)); naive_solver.
Qed.

Definition ref_sort : StdSort := λ less, merge_sort (in_order less).

Lemma ref_sort_ok : @StdSortOk ref_sort.
Proof.
  split; unfold std_sort, ref_sort.
  - intros less l. apply merge_sort_Permutation.
  - intros o l. apply (StronglySorted_merge_sort (in_order (less o))).
Qed.

Module Example.
Import Files.Example.

#[export] Existing Instances ref_sort ref_sort_ok ref_trim.

Definition start : Listing := MkListing world [] ∅ ∅ ∅ false false.

Definition env : ListEnv := {|
  open_error := None; Protection := false; ProtectionOkay := true; lslong_options := lit "l"; lslong_recursion := 2;
  time_text := lit "0s"; status_text := []
|}.

Definition links (s : stat) : Z := 1.
Definition no_link (l : list sys) (p : str) : option str := None.
Definition name_of (i : Z) : str := lit "root".
Definition no_error (n : nat) : option str := None.
Definition time (t : Z) : str := lit "Jan  1 00:00".

Definition listed_d (argStr : str) (args : list str) : list sent :=
  out (snd (LISTCommand kernel 0 (lit "/site") name_of (λ _, []) links no_link time no_error env 9 joe true argStr args start)).

End Example.

#[local] Existing Instances ref_split ref_fnmatch ref_replace_all ref_case ref_trim ref_sort ref_sort_ok.

Lemma shown_with_a : Example.listed_d (lit "-a /home/joe/d") [lit "NLST"; lit "-a"; lit "/home/joe/d"] =
  [Reply 150 (lit "Opening connection for directory listing."); Raw (lit ".x" ++ CRLF); Reply 226 (lit "End of directory listing (0s)")].
Proof. vm_compute. reflexivity. Qed.

Lemma hidden_without : Example.listed_d (lit "/home/joe/d") [lit "NLST"; lit "/home/joe/d"] =
  [Reply 150 (lit "Opening connection for directory listing."); Raw []; Reply 226 (lit "End of directory listing (0s)")].
Proof. vm_compute. reflexivity. Qed.

Lemma Readdir_spec_example :
  let r := Readdir Files.Example.kernel 0 (lit "/site") (λ _, []) Files.Example.joe no_options (lit "/home/joe/d") Files.Example.world in
  ∃ entries total, fst r = Ok (entries, total) ∧ map e_name entries = [lit ".x"] ∧
    listed Files.Example.kernel 0 (lit "/site") (λ _, []) Files.Example.config Files.Example.joe [] no_options (lit "/home/joe/d") entries.
Proof.
  intros r. destruct r as [[[entries total]|e] w'] eqn:E; [|exfalso; revert E; vm_compute; congruence].
  exists entries, total. split; [reflexivity|]. split.
  - assert (E' : fst r = Ok (entries, total)) by (rewrite E; reflexivity). revert E'. vm_compute. intros [= <- <-]. reflexivity.
  - exact (Readdir_spec Files.Example.kernel 0 (lit "/site") (λ _, []) (λ _, []) (λ _ _, None) (λ _, []) Files.Example.config Files.Example.joe
             no_options (lit "/home/joe/d") Files.Example.world entries total w' Files.Example.world_good E).
Defined.

Lemma listing_admitted_witness :
  let o := ParseOption no_options "a"%char in
  Raw (lit ".x" ++ CRLF) ∈ Example.listed_d (lit "-a /home/joe/d") [lit "NLST"; lit "-a"; lit "/home/joe/d"] ∧
  page Files.Example.kernel 0 (lit "/site") Example.name_of (λ _, []) Example.links Example.no_link Example.time
    Files.Example.config Files.Example.joe [] o (lit "/home/joe/d") [] (lit ".x" ++ CRLF).
Proof.
  intros o.
  assert (Hin : Raw (lit ".x" ++ CRLF) ∈ Example.listed_d (lit "-a /home/joe/d") [lit "NLST"; lit "-a"; lit "/home/joe/d"])
    by (rewrite shown_with_a; right; left).
  split; [exact Hin|].
  destruct (listing_admitted Files.Example.kernel 0 (lit "/site") Example.name_of (λ _, []) Example.links Example.no_link Example.time
    Example.no_error Files.Example.config Files.Example.joe Example.env 9 (lit "-a /home/joe/d") [lit "NLST"; lit "-a"; lit "/home/joe/d"]
    Example.start Files.Example.world_good) as [Hs _].
  destruct (Hs true) as (new & E & Hp). destruct (Hp (lit ".x" ++ CRLF)) as (root & masks & Er & Hpage).
  - change (out Example.start) with (@nil sent) in E. cbn [app] in E. rewrite <- E. exact Hin.
  - assert (root = lit "/home/joe/d" ∧ masks = []) as [-> ->] by (revert Er; vm_compute; intros [= <- <-]; split; reflexivity). exact Hpage.
Defined.

Lemma Execute_ends_witness :
  let o := ParseOption no_options "R"%char in
  fst (Execute Files.Example.kernel 0 (lit "/site") Example.name_of (λ _, []) Example.links Example.no_link Example.time Example.no_error
    9 Files.Example.joe (lit "/home/joe") o 2 Example.start) ≠ Throw Deeper.
Proof.
  intros o. apply (Execute_ends Files.Example.kernel 0 (lit "/site") Example.name_of (λ _, []) Example.links Example.no_link Example.time
    Example.no_error Files.Example.joe o 2 (lit "/home/joe") 9 Example.start); vm_compute; [reflexivity|]. lia.
Defined.
