(* ===== verification/SiteFactory.v ===== *)
(** * The site commands: cmd/site/factory.cpp, SITE in cmd/rfc/commands.cpp, cmd/site/customcommand.cpp

    The table of site commands, with how many arguments each takes and which keywords
    allow it; the custom commands of the configuration, which come first; and SITE,
    which cuts its line, looks the command up, checks, and runs it between scripts. *)

From stdpp Require Import prelude gmap strings.
From S2P Require Import Prelude CxxString State Numbers Settings Acl Strength Group Transaction UserData User Rights Policies Connection Accounts Arguments SiteState.
Local Open Scope Z_scope.
Local Open Scope list_scope.
Local Open Scope st_scope.

(** ** The table *)

Module Class.
(** The classes of commands that the table creates *)
Inductive t : Type :=
  | IDLE | VERS | XDUPE | PASSWD | CHPASS | DELUSER | DISKFREE | READD | PURGE | RENUSER
  | ADDUSER | TADDUSER | ADDIP | FLAGS | DELIP | CHANGE | KICK | SEEN | USERS | UTIME
  | GIVE | TAKE | STAT | STATS | USER | TAGLINE | SETPGRP | CHGRP | RANKS | GPRANKS
  | NUKE | UNNUKE | NUKES | UNNUKES | UPDATE | DUPE | NEW | CHOWN | CHMOD
  | TRAFFIC | WHO | SWHO | WIPE | LOGS | CHGADMIN | GADDUSER | GROUPS | GROUP
  | GRPCHANGE | GRPADD | GRPDEL | GRPREN | HELP | TIME | SEARCH | WELCOME | GOODBYE | MSG
  | RELOAD | SHUTDOWN | SREPLY.
End Class.

Inductive Creator : Type := Create (c : Class.t) | CustomCreate (c : SiteCmd).

Record CommandDef := MkCommandDef {
  minimumArgs : Z; maximumArgs : Z; aclKeyword : str; creator : option Creator; cd_syntax : str; cd_description : str
}.

(** [std::left << std::setw(n)] *)
Definition left_column (n : nat) (s : str) : str := s ++ replicate (n - length s) " "%char.

(** The lines about settings, in a column as wide as the longest name *)
Definition settings_text (l : list (str * str)) : str :=
  let n := foldr (λ p, Nat.max (length p.1)) 0%nat l in
  concat (map (λ p, lit "          " ++ left_column n p.1 ++ lit ": " ++ p.2 ++ [LF]) l).

Definition CHANGE_settings : list (str * str) := [
  (lit "ratio", lit "Non section specific ratio (0 is unlimited, -1 is default)");
  (lit "sratio", lit "Section specific ratio, <section> <ratio> (0 is unlimited)");
  (lit "wkly_allotment", lit "Weekly allotment, optionally for specific section <allotment>[M|G] [<section>]");
  (lit "homedir", lit "Home directory");
  (lit "startupdir", lit "Start Up directory");
  (lit "flags", lit "Flags, prefixed with +|-|= to add/delete/set");
  (lit "idle_time", lit "Idle time (-1 site wide default, 0 is unlimited)");
  (lit "expires", lit "Expiration date in format YYYY-MM-DD or YYYY/MM/DD (never to disable)");
  (lit "num_logins", lit "Maximum number of simultaneous logins (-1 is unlimited, 0 to disallow)");
  (lit "tagline", lit "Tagline");
  (lit "comment", lit "Comment");
  (lit "max_up_speed", lit "Maximum upload speed <kbyte/s>[M|G] (0 is unlimited)");
  (lit "max_down_speed", lit "Maximum download speed <kbyte/s>[M|G] (0 is unlimited)");
  (lit "max_sim_up", lit "Maximum simultaneous uploads (-1 is unlimited, 0 to disallow)");
  (lit "max_sim_down", lit "Maximum simultaneous downloads (-1 is unlimited, 0 to disallow)")
].

Definition CHANGE_Syntax : str :=
  lit "Syntax: SITE CHANGE <user> <setting> <value>" ++ [LF] ++ lit "        SITE CHANGE {<user> [<user> ..]} <setting> <value>" ++ [LF] ++
  lit "        SITE CHANGE * <setting> <value>" ++ [LF] ++ lit "Settings:" ++ [LF] ++ settings_text CHANGE_settings.

Definition GRPCHANGE_settings : list (str * str) := [
  (lit "slots", lit "Number of slots (-1 is unlimited)");
  (lit "leech_slots", lit "Number of leech slots (-1 is unlimited, -2 is disabled)");
  (lit "allot_slots", lit "Number of allotment slots (-1 is unlimited, -2 is disabled)");
  (lit "max_allot_size", lit "Maximum allotment size in kbytes (0 is unlimited)");
  (lit "max_logins", lit "Maximum simultaneous logins (-1 is unlimited, 0 is disallow)");
  (lit "description", lit "Description");
  (lit "comment", lit "Comment")
].

Definition GRPCHANGE_Syntax : str :=
  lit "Syntax: SITE GRPCHANGE <group> <setting> <value>" ++ [LF] ++ lit "        SITE GRPCHANGE {<group> [<group> ..]} <setting> <value>" ++ [LF] ++
  lit "        SITE GRPCHANGE * <setting> <value>" ++ [LF] ++ lit "Settings:" ++ [LF] ++ settings_text GRPCHANGE_settings.

Definition entry (name : string) (least most : Z) (acl : string) (c : option Class.t) (syntax : str) (description : string) : str * CommandDef :=
  (lit name, MkCommandDef least most (lit acl) (Create <$> c) syntax (lit description)).

Definition defs_1 : list (str * CommandDef) := [
  entry "IDLE" 0 1 "idle" (Some Class.IDLE)
    (lit "Syntax: SITE IDLE [<seconds>]") "Changes idle timeout";
  entry "VERS" 0 0 "vers" (Some Class.VERS)
    (lit "Syntax: SITE VERS") "Display server version";
  entry "XDUPE" 0 1 "xdupe" (Some Class.XDUPE)
    (lit "Syntax: SITE XDUPE 0|1|2|3|4") "Display / change extended dupe mode";
  entry "PASSWD" 1 1 "passwd" (Some Class.PASSWD)
    (lit "Syntax: SITE PASSWD <password>") "Change your password";
  entry "CHPASS" 2 2 "chpass|chpassgadmin" (Some Class.CHPASS)
    (lit "Syntax: SITE CHPASS <user> <password>") "Change another user's password";
  entry "DELUSER" 1 1 "deluser|delusergadmin" (Some Class.DELUSER)
    (lit "Syntax: SITE DELUSER <user>") "Delete a user";
  entry "DISKFREE" 0 1 "diskfree" (Some Class.DISKFREE)
    (lit "Syntax: SITE DISKFREE [<path>]") "Display disk space free";
  entry "READD" 1 1 "readd|readdgadmin" (Some Class.READD)
    (lit "Syntax: SITE READD <user>") "Readd a deleted user";
  entry "PURGE" 1 1 "purge" (Some Class.PURGE)
    (lit "Syntax: SITE PURGE <user>") "Purge a deleted user";
  entry "RENUSER" 2 2 "renuser" (Some Class.RENUSER)
    (lit "Syntax: SITE RENUSER <old user> <new user>") "Rename a user";
  entry "ADDUSER" 2 (-1) "adduser|addusergadmin" (Some Class.ADDUSER)
    (lit "Syntax: SITE ADDUSER <user> <password> [<ident@ip>..]") "Add new user";
  entry "TADDUSER" 3 (-1) "tadduser" (Some Class.TADDUSER)
    (lit "Syntax: SITE TADDUSER <template> <user> <password> [<ident@ip>..]") "Add new user based on a template";
  entry "ADDIP" 2 (-1) "addip|addipown|addipgadmin" (Some Class.ADDIP)
    (lit "Syntax: SITE ADDIP <user> <ident@ip> [<ident@ip>..]") "Add ident@ip to user";
  entry "FLAGS" 0 1 "flags|flagsown" (Some Class.FLAGS)
    (lit "Syntax: SITE FLAGS [<user>]") "View your own or another user's flags";
  entry "DELIP" 2 (-1) "delip|delipown|delipgadmin" (Some Class.DELIP)
    (lit "Syntax: SITE DELIP <user> <ident@ip> [<ident@ip>..]") "Delete ident@ip from user";
  entry "CHANGE" 3 (-1) "change|changeflags|changegadmin|changehomedir|changestartupdir" (Some Class.CHANGE)
    (CHANGE_Syntax) "Change settings for a user or users";
  entry "KICK" 1 1 "kick" (Some Class.KICK)
    (lit "Syntax: SITE KICK <user>") "Kick a user's connections from the site";
  entry "SEEN" 1 1 "seen" (Some Class.SEEN)
    (lit "Syntax: SITE SEEN <user>") "Display last time a user logged in";
  entry "USERS" 0 (-1) "users" (Some Class.USERS)
    (lit "Syntax: SITE USERS [<criteria> ..]") "Detailed list of users";
  entry "UTIME" 2 (-1) "utime" (Some Class.UTIME)
    (lit "Syntax: SITE UTIME <path> <atime-val> <mtime-val> <ctime-val> UTC" ++ [LF] ++ lit "        SITE UTIME <mtime-val> <path>") "Set filesystem times";
  entry "GIVE" 2 (-1) "give|giveown" (Some Class.GIVE)
    (lit "Syntax: SITE GIVE [-S <section>] <user> <credits>G|M [<message>]") "Give credits to user";
  entry "TAKE" 2 (-1) "take" (Some Class.TAKE)
    (lit "Syntax: SITE TAKE [-S <section>] <user> <credits>G|M [<message>]") "Take credits from user"
].

Definition defs_2 : list (str * CommandDef) := [
  entry "STAT" 0 1 "stat" (Some Class.STAT)
    (lit "Syntax: SITE STAT") "Display brief stats";
  entry "STATS" 0 1 "stats|statsown" (Some Class.STATS)
    (lit "Syntax: SITE STATS [<user>]") "Display user's transfer stats";
  entry "USER" 0 1 "user|userown|usergadmin" (Some Class.USER)
    (lit "Syntax: SITE USER [<user>]") "Display user's info";
  entry "TAGLINE" 1 (-1) "tagline" (Some Class.TAGLINE)
    (lit "Syntax: SITE TAGLINE <tagline>") "Change your tagline";
  entry "SETPGRP" 2 2 "setpgrp" (Some Class.SETPGRP)
    (lit "Syntax: SITE SETPGRP <user> <group>") "Set's a user's primary group";
  entry "CHGRP" 2 (-1) "chgrp" (Some Class.CHGRP)
    (lit "Syntax: SITE CHGRP <user> [+|-|=] <group> [<group> ..]") "Change user's groups";
  entry "RANKS" 3 (-1) "ranks|ranksalias" (Some Class.RANKS)
    (lit "Syntax: SITE RANKS DAY|WEEK|MONTH|YEAR|ALLTIME UP|DOWN SPEED|KBYTES|FILES [<number>] [<section>] [<acl> ..]") "Display user upload/download rankings";
  entry "GPRANKS" 3 (-1) "gpranks|gpranksalias" (Some Class.GPRANKS)
    (lit "Syntax: SITE GPRANKS DAY|WEEK|MONTH|YEAR|ALLTIME UP|DOWN SPEED|KBYTES|FILES [<number>] [<section>]") "Display group upload/download rankings";
  entry "NUKE" 3 (-1) "nuke" (Some Class.NUKE)
    (lit "Syntax: SITE NUKE <path> <multiplier> <message>") "Nuke a directory";
  entry "UNNUKE" 2 (-1) "unnuke" (Some Class.UNNUKE)
    (lit "Syntax: SITE UNNUKE <path> <message>") "Unnuke a directory";
  entry "NUKES" 0 2 "nukes" (Some Class.NUKES)
    (lit "Syntax: SITE NUKES [<number>] [<section>]") "Display nuke history";
  entry "UNNUKES" 0 2 "unnukes" (Some Class.UNNUKES)
    (lit "Syntax: SITE UNNUKES [<number>] [<section>]") "Display unnuke history";
  entry "UPDATE" 1 1 "update" (Some Class.UPDATE)
    (lit "Syntax: SITE UPDATE <pathmask>") "Add all directories matching a path mask to the site index";
  entry "DUPE" 1 (-1) "dupe" (Some Class.DUPE)
    (lit "Syntax: SITE DUPE [-MAX <number>] [-FROM <mmddyy>] [-TO <mmddyy>] <string> [<string> .. ]") "Search the dupe database for directories";
  entry "NEW" 0 1 "new" (Some Class.NEW)
    (lit "Syntax: SITE NEW [<number>]") "Display latest directories";
  entry "CHOWN" 2 (-1) "chown" (Some Class.CHOWN)
    (lit "Syntax: SITE CHOWN [-R] [user][:[group]] <pathmask>") "Change file and/or directory ownership";
  entry "CHMOD" 2 (-1) "chmod" (Some Class.CHMOD)
    (lit "Syntax: SITE CHMOD [-R] <symbolic-mode|octal-mode> <pathmask>") "Change file and/or directory permissions";
  entry "EMULATE" 1 1 "emulate" None
    (lit "Syntax: SITE EMULATE <user>") "Become another user by temporarily loading their userfile";
  entry "TRAFFIC" 0 0 "traffic" (Some Class.TRAFFIC)
    (lit "Syntax: SITE TRAFFIC") "Display traffic statistics";
  entry "WHO" 0 0 "who" (Some Class.WHO)
    (lit "Syntax: SITE WHO") "Display who's online";
  entry "SWHO" 0 0 "swho" (Some Class.SWHO)
    (lit "Syntax: SITE SWHO") "Display detailed who's online"
].

Definition defs_3 : list (str * CommandDef) := [
  entry "WIPE" 1 (-1) "wipe" (Some Class.WIPE)
    (lit "Syntax: SITE WIPE [-R] <pathmask>") "Wipe a file or directory (and it's contents)";
  entry "LOGS" 1 (-1) "logs|errorlog|securitylog|eventlog|dblog|siteoplog|debuglog" (Some Class.LOGS)
    (lit "Syntax: SITE -[-MAX <number>] LOGS ERROR|SECURITY|EVENTS|DB|SITEOP|DEBUG [<string> ..]") "Display entries from a system log";
  entry "LASTON" 0 (-1) "laston" None
    (lit "Syntax: SITE LASTON [<number>] [<criteria> ..]") "Display last users online";
  entry "CHGADMIN" 2 2 "chgadmin" (Some Class.CHGADMIN)
    (lit "Syntax: SITE CHGADMIN <user> <group") "Toggle gadmin status for a user on the specified group";
  entry "GADDUSER" 3 (-1) "gadduser|gaddusergadmin" (Some Class.GADDUSER)
    (lit "Syntax: SITE GADDUSER <group> <user> <password> [<ident@ip> ..]") "Add a user directly to a group";
  entry "GROUPS" 0 0 "groups" (Some Class.GROUPS)
    (lit "Syntax: SITE GROUPS") "Display a list of all groups";
  entry "GROUP" 1 1 "group|groupgadmin" (Some Class.GROUP)
    (lit "Syntax: SITE GROUP <group>") "Display detailed group info";
  entry "GRPCHANGE" 3 (-1) "grpchange" (Some Class.GRPCHANGE)
    (GRPCHANGE_Syntax) "Change settings for a group or groups";
  entry "GRPADD" 1 (-1) "grpadd" (Some Class.GRPADD)
    (lit "Syntax: SITE GRPADD <group> [<description>]") "Add a group";
  entry "GRPDEL" 1 1 "grpdel" (Some Class.GRPDEL)
    (lit "Syntax: SITE GRPDEL <group>") "Delete a group";
  entry "GRPREN" 2 2 "grpren" (Some Class.GRPREN)
    (lit "Syntax: SITE GRPREN <old group> <new group>") "Rename a group";
  entry "HELP" 0 1 "help" (Some Class.HELP)
    (lit "Syntax: SITE HELP [<command>]") "Display site command help";
  entry "TIME" 0 0 "time" (Some Class.TIME)
    (lit "Syntax: SITE TIME") "Display local time";
  entry "SEARCH" 1 (-1) "search" (Some Class.SEARCH)
    (lit "Syntax: SITE SEARCH [-MAX <number>] <string> [<string> ..]") "Search the site index";
  entry "WELCOME" 0 0 "welcome" (Some Class.WELCOME)
    (lit "Syntax: SITE WELCOME") "Display welcome message";
  entry "GOODBYE" 0 0 "goodbye" (Some Class.GOODBYE)
    (lit "Syntax: SITE GOODBYE") "Display goodbye message";
  entry "MSG" 1 (-1) "msg|msg*|msg=|msg{" (Some Class.MSG)
    (lit "Syntax: SITE MSG <command> [<arguments> ..]" ++ [LF] ++ lit "Commands: READ [<index>]                     - Read message(s)" ++ [LF] ++ lit "          SEND <user>|=<group> <message>     - Send message to user or group" ++ [LF] ++ lit "          SEND { <user> =<group> } <message> - Send message to multiple users or groups" ++ [LF] ++ lit "          SEND * <message>                   - Send message to all users" ++ [LF] ++ lit "          LIST                               - List messages" ++ [LF] ++ lit "          SAVE [<index>]                     - Mark message(s) as saved" ++ [LF] ++ lit "          PURGE [<index>]                    - Purge a message(s)") "Messaging system";
  entry "RELOAD" 0 0 "reload" (Some Class.RELOAD)
    (lit "Syntax: SITE RELOAD") "Reload config file";
  entry "SHUTDOWN" 1 1 "shutdownfull|shutdownsiteop" (Some Class.SHUTDOWN)
    (lit "Syntax: SITE SHUTDOWN SITEOP|REOPEN|FULL") "Shutdown to siteop only or full shutdown and exit";
  entry "SREPLY" 0 1 "sreply" (Some Class.SREPLY)
    (lit "Syntax: SITE SREPLY [ON|OFF]") "Turn single line replies on and off"
].

Definition defs : list (str * CommandDef) := defs_1 ++ defs_2 ++ defs_3.

(** [CommandDef::CheckArgs]; the first argument is the command. *)
Definition CheckArgs (d : CommandDef) (args : list str) : bool :=
  let argsSize := Z.of_nat (length args) - 1 in
  (minimumArgs d <=? argsSize) && ((maximumArgs d =? -1) || (argsSize <=? maximumArgs d)).

Definition IsASCIIOnly (s : str) : bool := forallb (λ ch, negb (127 <? code ch)) s.

(** How a script of the configuration ends, and a command that is executed *)
Inductive ScriptRun : Type := ScriptError (message : str) | ScriptDone (exitStatus : Z) (messages : str).
Inductive ExecRun : Type := OpenError (message : str) | Opened (lines : list str) (read_error close_error : option str).

Definition CommandUnrecognised : Z := 500.
Definition SyntaxErrorCode : Z := 501.
Definition NotImplemented : Z := 502.
Definition CodeDeferred : Z := -2.

Section site.
Context {W : Type} `{Split, CaseConv, Fnmatch, Trim}.
Context (ca : Caches) (siteCmds : list SiteCmd) (cscripts : list Cscript) (MaxSitecmdLines : Z).
(** [Execute] of the commands of the table, the [n]th script, and a process *)
Context (execute : Class.t → str → list str → ST (Site W) exit unit).
Context (script : nat → str → Site W → ScriptRun) (exec_reader : list str → Site W → ExecRun).

Abbreviation C := (ST (Site W) exit).

(** ** Looking a command up *)

Definition LookupCustom (command : str) : option CommandDef :=
  match List.find (λ sc, bool_decide (Settings.command sc = command)) siteCmds with
  | None => None
  | Some sc => Some (MkCommandDef 0 (-1) (lit "custom-" ++ to_lower command) (Some (CustomCreate sc)) (lit "Syntax: " ++ Settings.syntax sc) (Settings.description sc))
  end.

Definition find_def (command : str) : option CommandDef := snd <$> List.find (λ kv, bool_decide (fst kv = command)) defs.

Definition Lookup (command : str) (noCustom : bool) : option CommandDef :=
  match (if noCustom then None else LookupCustom command) with Some d => Some d | None => find_def command end.

Definition ACLKeywords : gset str := list_to_set (concat (map (λ kv, Split_ (aclKeyword (snd kv)) (lit "|") false) defs)).

(** ** Scripts: exec/cscript.cpp *)

Definition Cscript (n : nat) (fullCommand : str) (pre : bool) (failCode : Z) : C bool :=
  r <- st_gets (script n fullCommand);;
  match r with
  | ScriptError message =>
      (if pre then reply failCode (lit "Unable to execute cscript: " ++ message) else st_ret tt);;; st_ret false
  | ScriptDone exitStatus messages =>
      if negb pre then st_ret (exitStatus =? 0)
      else if negb (exitStatus =? 0) then
        reply failCode (if bool_decide (messages = []) then lit "Command denied by pre cscript." else messages);;; st_ret false
      else
        (if bool_decide (messages = []) then st_ret tt else part_reply CodeDeferred messages);;; st_ret true
  end.

Fixpoint Cscripts_loop (l : list Settings.Cscript) (n : nat) (command fullCommand : str) (pre : bool) (failCode : Z) : C bool :=
  match l with
  | [] => st_ret true
  | c :: l =>
      if bool_decide (cs_pre c = pre) && bool_decide (cs_command c = command) then
        ok <- Cscript n fullCommand pre failCode;;
        if negb ok && pre then st_ret false else Cscripts_loop l (S n) command fullCommand pre failCode
      else Cscripts_loop l (S n) command fullCommand pre failCode
  end.

Definition Cscripts (command fullCommand : str) (pre : bool) (failCode : Z) : C bool :=
  Cscripts_loop cscripts 0 command fullCommand pre failCode.

(** ** Custom commands *)

(** [CustomCreator::Create]: the arguments of the configuration come first. *)
Definition custom_args (sc : SiteCmd) (argStr : str) : str * list str :=
  let cArgStr := arguments sc in
  let cArgStr := if bool_decide (argStr = []) then cArgStr
                 else (if bool_decide (cArgStr = []) then cArgStr else cArgStr ++ lit " ") ++ argStr in
  (cArgStr, Settings.command sc :: (if bool_decide (cArgStr = []) then [] else Split_ cArgStr (lit " ") true)).

Definition CustomEXECCommand (sc : SiteCmd) (args : list str) : C unit :=
  r <- st_gets (exec_reader (target sc :: tail args));;
  match r with
  | OpenError message => reply ActionNotOkay (lit "Unable to execute command: " ++ message)
  | Opened lines read_error close_error =>
      st_iter (part_reply CommandOkay) (if MaxSitecmdLines <? 0 then lines else take (Z.to_nat MaxSitecmdLines) lines);;;
      let all_read := (MaxSitecmdLines <? 0) || (Z.of_nat (length lines) <? MaxSitecmdLines) in
      match (if all_read then read_error else None), close_error with
      | Some message, _ => reply CommandOkay (lit "Error while reading from pipe: " ++ message)
      | None, Some message => reply ActionNotOkay (lit "Unable to execute command: " ++ message)
      | None, None => reply CommandOkay (lit "Command successful.")
      end
  end.

Definition CustomTEXTCommand : C unit := reply NotImplemented (lit "TEXT Not implemented").

Definition CustomALIASCommand (sc : SiteCmd) (argStr : str) (args : list str) : C unit :=
  match SplitArgs (target sc) with
  | Throw _ | Ok (_, []) => st_throw OutOfRange
  | Ok (_, t0 :: tArgs) =>
      a0 <- arg args 0;;
      let args := a0 :: tArgs ++ tail args in
      let denied := reply ActionNotOkay (lit "SITE " ++ a0 ++ lit ": Permission denied") in
      match Lookup t0 true with
      | None => reply CommandUnrecognised (lit "Command not understood")
      | Some d =>
          ok <- allow ca (aclKeyword d);;
          if negb ok then denied
          else if negb (CheckArgs d args) then reply SyntaxErrorCode (cd_syntax d)
          else
            match creator d with
            | Some (Create k) =>
                st_catch (execute k argStr args)
                  (λ e, match e with
                        | SyntaxError_ => Some (reply SyntaxErrorCode (lit "Syntax: " ++ a0 ++ lit " [<arguments> ..]"))
                        | PermissionError => Some denied
                        | _ => None
                        end)
            | _ => reply NotImplemented (lit "Command not implemented")
            end
      end
  end.

(** [def->Create(client, argStr, args)->Execute()] *)
Definition run_creator (c : Creator) (argStr : str) (args : list str) : C unit :=
  match c with
  | Create k => execute k argStr args
  | CustomCreate sc =>
      let '(argStr, args) := custom_args sc argStr in
      match sc_type sc with
      | CmdExec => CustomEXECCommand sc args
      | CmdText => CustomTEXTCommand
      | CmdAlias => CustomALIASCommand sc argStr args
      end
  end.

(** ** SITE *)

Definition command_denied (name fullCommand : str) : C unit :=
  reply ActionNotOkay (lit "SITE " ++ name ++ lit ": Permission denied");;;
  me <- st_gets self;;
  write_record (SecurityEntry (lit "COMMANDACL") (lit "'" ++ UserData.name me ++ lit "' attempted to run command without permission: " ++ fullCommand)).

(** A command that was found and is allowed, with the right number of arguments *)
Definition run_def (d : CommandDef) (name argStr fullCommand : str) (args : list str) : C unit :=
  let shortCommand := lit "SITE " ++ name in
  ok <- Cscripts shortCommand fullCommand true ActionNotOkay;;
  if negb ok then st_ret tt
  else
    match creator d with
    | None => reply NotImplemented (lit "Command not implemented")
    | Some c =>
        if negb (IsASCIIOnly argStr) then reply SyntaxErrorCode (lit "SITE command arguments must contain ASCII characters only")
        else
          st_catch (run_creator c argStr args;;; Cscripts shortCommand fullCommand false ActionNotOkay;;; st_ret tt)
            (λ e, match e with
                  | SyntaxError_ => Some (reply SyntaxErrorCode (cd_syntax d))
                  | PermissionError => Some (command_denied name fullCommand)
                  | _ => None
                  end)
    end.

Definition SITECommand (argStr : str) : C unit :=
  match SplitArgs argStr with
  | Throw _ => st_throw OutOfRange
  | Ok (_, args) =>
      a0 <- arg args 0;;
      let name := to_upper a0 in
      let args := name :: tail args in
      if (length argStr <? length name)%nat then st_throw OutOfRange
      else
        let argStr := trim (drop (length name) argStr) in
        let fullCommand := lit "SITE " ++ name ++ (if bool_decide (argStr = []) then [] else lit " " ++ argStr) in
        match Lookup name false with
        | None => reply CommandUnrecognised (lit "Command not understood")
        | Some d =>
            ok <- allow ca (aclKeyword d);;
            if negb ok then command_denied name fullCommand
            else if negb (CheckArgs d args) then reply SyntaxErrorCode (cd_syntax d)
            else run_def d name argStr fullCommand args
        end
  end.

End site.
