(* ===== verification/SiteArguments.v ===== *)
(** * The arguments that site commands index

    The commands on accounts read their arguments by position and do not look at how
    many there are; the table of SiteFactory.v says how many SITE lets through. *)

From stdpp Require Import prelude gmap strings.
From S2P Require Import Prelude CxxString State Numbers Settings Acl Strength NetFtp Group Transaction UserData User Rights Policies Credits Connection Accounts Memory SiteState SiteUsers SiteChange SiteGroups SiteSafety SiteCredits SiteFactory.
Local Open Scope Z_scope.
Local Open Scope list_scope.
Local Open Scope st_scope.

(** ** The table is a map *)

Lemma defs_NoDup : NoDup (map fst defs).
Proof. by apply (bool_decide_eq_true_1 (NoDup (map fst defs))); vm_compute. Qed.

Lemma find_def_elem name d : find_def name = Some d → (name, d) ∈ defs.
Proof.
  unfold find_def. destruct (List.find _ _) as [[n d']|] eqn:E; [|done]. intros [= <-].
  apply List.find_some in E as [Hin E%bool_decide_eq_true]. cbn in E. subst n. by apply list_elem_of_In.
Qed.

(** ** Words of a line that was put together *)

Lemma length_split_char_app d s t : (length (split_char d (s ++ d :: t)) = length (split_char d s) + length (split_char d t))%nat.
Proof.
  induction s as [|c s IH]; cbn [app split_char].
  - by rewrite decide_True.
  - case_decide; cbn [length]; [by rewrite IH|].
    destruct (split_char d (s ++ d :: t)) as [|x l] eqn:E; [by apply split_char_not_nil in E|].
    destruct (split_char d s) as [|y l'] eqn:E'; [by apply split_char_not_nil in E'|]. cbn in *. lia.
Qed.

Lemma split_char_pos d s : (1 ≤ length (split_char d s))%nat.
Proof. pose proof (split_char_not_nil d s). destruct (split_char d s); [done|cbn; lia]. Qed.

(** Words appended with a space each *)
Lemma split_char_words (l : list str) s :
  (length (split_char " "%char s) + length l ≤ length (split_char " "%char (foldl (λ s w, s ++ lit " " ++ w) s l)))%nat.
Proof.
  revert s. induction l as [|w l IH]; intros s; cbn [foldl length]; [lia|].
  specialize (IH (s ++ lit " " ++ w)). change (s ++ lit " " ++ w) with (s ++ " "%char :: w) in IH at 1.
  rewrite length_split_char_app in IH. pose proof (split_char_pos " "%char w). lia.
Qed.

Section arity.
Context {W : Type} `{Mongo W, !Collection W UserData, !Collection W GroupData, Split}.
Context `{!SplitOk, CaseConv, Fnmatch, RegexMatch, BoostCast, ReplaceAll, Trim}.
Context (ca : Caches) (rounds : nat).
Context (config : SiteConfig) (env : SiteEnv) (PathFromUser : str → str) (from_simple_string : str → option Z).

Abbreviation C := (ST (Site W) exit).

(** Nothing is read outside of the arguments, or of a text. *)
Definition inside {A} (m : C A) : Prop := ∀ s, fst (m s) ≠ Throw OutOfRange.

Lemma inside_bind {A B} (m : C A) (k : A → C B) : inside m → (∀ a, inside (k a)) → inside (st_bind m k).
Proof. intros Hm Hk s. unfold st_bind. specialize (Hm s). destruct (m s) as [[a|e] s1]; [apply Hk|cbn in *; congruence]. Qed.

Lemma inside_arg args i : (i < length args)%nat → inside (arg args i).
Proof. intros Hi s. unfold arg. destruct (lookup_lt_is_Some_2 args i Hi) as [x ->]. done. Qed.

Lemma inside_ret {A} (a : A) : inside (st_ret a).
Proof. done. Qed.

Lemma inside_throw {A} e : e ≠ OutOfRange → inside (st_throw (A := A) e).
Proof. intros He s. cbn. congruence. Qed.

Lemma inside_gets {A} (f : Site W → A) : inside (st_gets f).
Proof. done. Qed.

Lemma inside_modify f : inside (st_modify f).
Proof. done. Qed.

Lemma inside_db {A} (m : ST (Db W) DBThrow A) : inside (in_db m).
Proof. intros s. unfold in_db. by destruct (m (db s)) as [[a|e] d]. Qed.

Lemma inside_allow keyword : inside (allow ca keyword).
Proof. intros s. unfold allow. by destruct (AllowSiteCmd _ _ _ _). Qed.

Lemma inside_secure_ip ip : inside (secure_ip ca ip).
Proof. intros s. unfold secure_ip. by destruct (SecureIP _ _ _ _). Qed.

Lemma inside_secure_pass pw : inside (secure_pass ca pw).
Proof. intros s. unfold secure_pass. by destruct (SecurePass _ _ _ _). Qed.

Lemma inside_iter {A} (f : A → C unit) l : (∀ a, inside (f a)) → inside (st_iter f l).
Proof. intros Hf. induction l as [|a l IH]; [done|]. by apply inside_bind. Qed.

Create HintDb inside.
Hint Resolve inside_ret inside_gets inside_modify inside_db inside_allow inside_secure_ip inside_secure_pass inside_iter : inside.

Ltac inside_step :=
  lazymatch goal with
  | |- inside (st_bind _ _) => apply inside_bind; [|intros ?]
  | |- inside (arg _ _) => apply inside_arg; cbn [length] in *; lia
  | |- inside (st_throw _) => by apply inside_throw
  | |- inside (st_iter _ _) => apply inside_iter; intros ?
  | |- inside (if _ then _ else _) => case_match
  | |- inside (match _ with _ => _ end) => case_match
  | |- inside (_ _) => first [solve [auto with inside] | progress unfold with_user, with_group, deny, refuse, reply, part_reply, siteop, write_record, edit, andM, orM, notM, self_gadmin, is_master, kick, set_password]
  end.
Ltac inside_walk := repeat first [progress cbn beta iota zeta | inside_step]; try done.

Lemma inside_may_edit a o g n : inside (may_edit (W := W) ca a o g n).
Proof. unfold may_edit. inside_walk. Qed.

Lemma inside_unless_gadmin a g n : inside (unless_gadmin (W := W) ca a g n).
Proof. unfold unless_gadmin. inside_walk. Qed.

Hint Resolve inside_may_edit inside_unless_gadmin : inside.

Lemma inside_ADDIP_loop ips u deleted os : inside (ADDIP_loop (W := W) ca ips u deleted os).
Proof. revert u deleted os. induction ips as [|ip ips IH]; intros u deleted os; cbn [ADDIP_loop]; inside_walk; apply IH. Qed.
Hint Resolve inside_ADDIP_loop : inside.

Lemma inside_ADDIP args : (2 ≤ length args)%nat → inside (ADDIPCommand (W := W) ca args).
Proof. intros Hl. unfold ADDIPCommand. inside_walk. Qed.

Lemma inside_CHPASS args : (3 ≤ length args)%nat → inside (CHPASSCommand (W := W) ca env args).
Proof. intros Hl. unfold CHPASSCommand. inside_walk. Qed.

Lemma words_2 a b : (length (Split_ (a ++ " "%char :: b) (lit " ") false) = length (split_char " "%char a) + length (split_char " "%char b))%nat.
Proof. unfold Split_. change (lit " ") with [" "%char]. by rewrite split_off, length_split_char_app. Qed.

Lemma inside_PASSWD args : (2 ≤ length args)%nat → inside (PASSWDCommand (W := W) ca env args).
Proof.
  intros Hl. unfold PASSWDCommand. apply inside_bind; [done|]. intros me. apply inside_bind; [inside_step|]. intros a1. apply inside_CHPASS.
  change (lit "PASSWD " ++ name me ++ lit " " ++ a1) with (lit "PASSWD" ++ " "%char :: (name me ++ " "%char :: a1)).
  rewrite words_2, length_split_char_app. pose proof (split_char_pos " "%char (lit "PASSWD")). pose proof (split_char_pos " "%char (name me)).
  pose proof (split_char_pos " "%char a1). lia.
Qed.

(** The words that ADDUSER and its kin pass on *)
Lemma words_passed_on c l : (1 + length l ≤ length (Split_ (foldl (λ s w, s ++ lit " " ++ w) c l) (lit " ") false))%nat.
Proof.
  unfold Split_. change (lit " ") with [" "%char]. rewrite split_off. pose proof (split_char_words l c) as Hw.
  pose proof (split_char_pos " "%char c). change (lit " ") with [" "%char] in Hw. lia.
Qed.

Lemma passed_on_length c first rest : (2 + length rest ≤ length (passed_on c first rest))%nat.
Proof. unfold passed_on. pose proof (words_passed_on c (first :: rest)) as Hw. cbn [foldl length] in Hw. exact Hw. Qed.

Lemma inside_CHGADMIN args : (3 ≤ length args)%nat → inside (CHGADMINCommand (W := W) ca args).
Proof. intros Hl. unfold CHGADMINCommand. inside_walk. Qed.

Lemma inside_CHGRP args : (3 ≤ length args)%nat → inside (CHGRPCommand (W := W) ca args).
Proof. intros Hl. unfold CHGRPCommand. inside_walk. Qed.

Lemma inside_SETPGRP args : (3 ≤ length args)%nat → inside (SETPGRPCommand (W := W) ca args).
Proof. intros Hl. unfold SETPGRPCommand. inside_walk. Qed.

Lemma inside_DELUSER args : (2 ≤ length args)%nat → inside (DELUSERCommand (W := W) ca config env args).
Proof. intros Hl. unfold DELUSERCommand. inside_walk. Qed.

Lemma inside_READD args : (2 ≤ length args)%nat → inside (READDCommand (W := W) ca args).
Proof. intros Hl. unfold READDCommand. inside_walk. Qed.

Lemma inside_PURGE args : (2 ≤ length args)%nat → inside (PURGECommand (W := W) ca args).
Proof. intros Hl. unfold PURGECommand, PurgeAll, purge. inside_walk. Qed.

Lemma inside_RENUSER args : (3 ≤ length args)%nat → inside (RENUSERCommand (W := W) config args).
Proof. intros Hl. unfold RENUSERCommand. inside_walk. Qed.

Lemma inside_Addips user ips : ips ≠ [] → inside (Addips (W := W) ca user ips).
Proof.
  intros Hips. unfold Addips. apply inside_ADDIP. pose proof (words_passed_on (lit "ADDUSER " ++ user) ips).
  destruct ips; [done|]. cbn [length] in *. lia.
Qed.

Lemma inside_ADDUSER_execute args groupName gadmin t : (3 ≤ length args)%nat → inside (ADDUSER_execute (W := W) ca config env rounds args groupName gadmin t).
Proof.
  intros Hl. unfold ADDUSER_execute, ADDUSER_group, ADDUSER_create, ADDUSER_template, ADDUSER_limit.
  inside_walk; apply inside_Addips; intros E; apply (f_equal length) in E; rewrite length_drop in E; cbn in E;
    match goal with Hlt : (3 <? _)%nat = true |- _ => apply Nat.ltb_lt in Hlt end; lia.
Qed.

Lemma inside_GADDUSER args : (4 ≤ length args)%nat → inside (GADDUSERCommand (W := W) ca config env rounds args).
Proof.
  intros Hl. unfold GADDUSERCommand. inside_walk. apply inside_ADDUSER_execute.
  etransitivity; [|apply passed_on_length]. rewrite length_drop. lia.
Qed.

Lemma inside_TADDUSER args : (4 ≤ length args)%nat → inside (TADDUSERCommand (W := W) ca config env rounds args).
Proof.
  intros Hl. unfold TADDUSERCommand. inside_walk. apply inside_ADDUSER_execute.
  etransitivity; [|apply passed_on_length]. rewrite length_drop. lia.
Qed.

(** What is left of the arguments without -S and the section is enough. *)
Lemma credits_section_inside args s : (3 ≤ length args)%nat →
  st_holds (credits_section (W := W) config args) s
    (λ r _, r ≠ Throw OutOfRange ∧ ∀ section rest, r = Ok (Some (section, rest)) → (3 ≤ length rest)%nat).
Proof.
  intros Hl. unfold credits_section, arg. destruct (lookup_lt_is_Some_2 args 1 ltac:(lia)) as [a1 ->].
  apply st_holds_bind. unfold st_holds at 1. cbn [fst snd st_ret]. destruct (negb _).
  { split; [done|]. by intros section rest [= <- <-]. }
  destruct (lookup_lt_is_Some_2 args 2 ltac:(lia)) as [a2 ->]. apply st_holds_bind. unfold st_holds at 1. cbn [fst snd st_ret].
  destruct (length args <? 5)%nat eqn:E; [done|]. apply Nat.ltb_ge in E. cbv zeta.
  destruct (Sections config !! to_upper a2) as [[]|]; [|done..]. split; [done|].
  intros section rest [= <- <-]. rewrite length_app, length_take, length_drop. lia.
Qed.

Lemma inside_section args (k : option (str * list str) → C unit) : (3 ≤ length args)%nat →
  (∀ section rest, (3 ≤ length rest)%nat → inside (k (Some (section, rest)))) → inside (k None) →
  inside (st_bind (credits_section config args) k).
Proof.
  intros Hl Hk Hn s. pose proof (credits_section_inside args s Hl) as Hs. unfold st_holds, st_bind in *.
  destruct (credits_section config args s) as [[[[section rest]|]|e] s1]; cbn [fst] in *; [by eapply Hk, (proj2 Hs)|apply Hn|].
  intros [= ->]. by apply (proj1 Hs).
Qed.

Lemma inside_amount w : inside (amount (W := W) w).
Proof. unfold amount. inside_walk. Qed.
Hint Resolve inside_amount : inside.

Lemma inside_GIVE args : (3 ≤ length args)%nat → inside (GIVECommand (W := W) ca config env args).
Proof. intros Hl. unfold GIVECommand. apply inside_section; [done| |done]. intros section rest Hr. unfold pay_own. inside_walk. Qed.

Lemma inside_TAKE args : (3 ≤ length args)%nat → inside (TAKECommand (W := W) config env args).
Proof. intros Hl. unfold TAKECommand. apply inside_section; [done| |done]. intros section rest Hr. inside_walk. Qed.

Lemma inside_KICK args : (2 ≤ length args)%nat → inside (KICKCommand (W := W) env args).
Proof. intros Hl. unfold KICKCommand. inside_walk. Qed.

Lemma inside_TAGLINE argStr : inside (TAGLINECommand (W := W) ca argStr).
Proof. unfold TAGLINECommand. inside_walk. Qed.

Lemma inside_GRPADD argStr args : (2 ≤ length args)%nat → inside (GRPADDCommand (W := W) rounds argStr args).
Proof. intros Hl. unfold GRPADDCommand. inside_walk. Qed.

Lemma inside_GRPDEL args : (2 ≤ length args)%nat → inside (GRPDELCommand (W := W) args).
Proof. intros Hl. unfold GRPDELCommand. inside_walk. Qed.

Lemma inside_GRPREN args : (3 ≤ length args)%nat → inside (GRPRENCommand (W := W) args).
Proof. intros Hl. unfold GRPRENCommand. inside_walk. Qed.

(** ** The commands that the table lets through *)

(** The modelled command of a class *)
Definition account_command (k : Class.t) (argStr : str) (args : list str) : option site_command :=
  match k with
  | Class.ADDIP => Some (ADDIP args) | Class.DELIP => Some (DELIP args) | Class.CHPASS => Some (CHPASS args)
  | Class.PASSWD => Some (PASSWD args) | Class.CHGADMIN => Some (CHGADMIN args) | Class.CHGRP => Some (CHGRP args)
  | Class.SETPGRP => Some (SETPGRP args) | Class.DELUSER => Some (DELUSER args) | Class.READD => Some (READD args)
  | Class.PURGE => Some (PURGE args) | Class.RENUSER => Some (RENUSER args) | Class.ADDUSER => Some (ADDUSER args)
  | Class.GADDUSER => Some (GADDUSER args) | Class.TADDUSER => Some (TADDUSER args) | Class.GIVE => Some (GIVE args)
  | Class.TAKE => Some (TAKE args) | Class.KICK => Some (KICK args) | Class.TAGLINE => Some (TAGLINE argStr)
  | Class.CHANGE => Some (CHANGE argStr args) | Class.GRPADD => Some (GRPADD argStr args) | Class.GRPDEL => Some (GRPDEL args)
  | Class.GRPREN => Some (GRPREN args) | Class.GRPCHANGE => Some (GRPCHANGE argStr args)
  | _ => None
  end.

(** The last argument that a command indexes *)
Definition last_indexed (k : Class.t) : nat :=
  match k with
  | Class.CHPASS | Class.CHGADMIN | Class.CHGRP | Class.SETPGRP | Class.RENUSER | Class.ADDUSER | Class.GIVE | Class.TAKE | Class.GRPREN => 2
  | Class.GADDUSER | Class.TADDUSER => 3
  | Class.ADDIP | Class.PASSWD | Class.DELUSER | Class.READD | Class.PURGE | Class.KICK | Class.GRPADD | Class.GRPDEL => 1
  | _ => 0
  end.

Definition accepted (k : Class.t) (args : list str) : Prop := ∃ name d,
  (name, d) ∈ defs ∧ creator d = Some (Create k) ∧ CheckArgs d args = true.

(** Each row of the table asks for so many. *)
Lemma defs_least :
  forallb (λ kv, match creator (snd kv) with Some (Create k) => Z.of_nat (last_indexed k) <=? minimumArgs (snd kv) | _ => true end) defs = true.
Proof. vm_compute. reflexivity. Qed.

Lemma accepted_length k args : accepted k args → (last_indexed k < length args)%nat.
Proof.
  intros (name & d & Hin & Hc & Hargs). pose proof (proj1 (forallb_forall _ _) defs_least (name, d) (proj1 (list_elem_of_In _ _) Hin)) as Hl.
  cbn [snd] in Hl. rewrite Hc in Hl. unfold CheckArgs in Hargs. apply andb_true_iff in Hargs as [Hmin _]. lia.
Qed.

(** C21: The arguments are there.  The commands on accounts index their arguments
    without a look at how many there are.  When a command is run with as many as its row
    in the table accepts, under whatever name, in whatever state and whatever the
    database does, none is indexed that is not there, and no text is cut outside of its
    bounds, in any but three commands: CHANGE and GRPCHANGE, which cut the line by the
    lengths of two arguments, and DELIP, which deletes masks by positions of which some
    are gone. *)
Theorem args_present k argStr args c s :
  accepted k args → account_command k argStr args = Some c → k ∉ [Class.CHANGE; Class.GRPCHANGE; Class.DELIP] →
  fst (run_command (W := W) ca rounds config env PathFromUser from_simple_string c s) ≠ Throw OutOfRange.
Proof.
  intros Hk%accepted_length Hc Hne. revert s. change (inside (run_command (W := W) ca rounds config env PathFromUser from_simple_string c)).
  destruct k; try discriminate Hc; injection Hc as <-; cbn [run_command last_indexed] in *; unfold ADDUSERCommand;
    try (exfalso; apply Hne; set_solver);
    auto using inside_ADDIP, inside_CHPASS, inside_PASSWD, inside_CHGADMIN, inside_CHGRP, inside_SETPGRP, inside_DELUSER, inside_READD,
      inside_PURGE, inside_RENUSER, inside_ADDUSER_execute, inside_GADDUSER, inside_TADDUSER, inside_GIVE, inside_TAKE, inside_KICK,
      inside_TAGLINE, inside_GRPADD, inside_GRPDEL, inside_GRPREN.
Qed.

End arity.

Module Example.
Export SiteCredits.Example.
End Example.

#[local] Existing Instances ref_split ref_fnmatch ref_case ref_trim ref_replace_all Example.regex Example.cast.

Lemma args_present_witness :
  accepted Class.KICK [lit "KICK"; lit "bob"] ∧
  fst (run_command Example.caches 5 Example.configuration Example.environment (λ p, p) (λ _, None)
    (KICK [lit "KICK"; lit "bob"]) Example.session) ≠ Throw OutOfRange.
Proof.
  assert (Ha : accepted Class.KICK [lit "KICK"; lit "bob"]).
  { exists (lit "KICK"). eexists. split; [apply find_def_elem; vm_compute; reflexivity|]. split; vm_compute; reflexivity. }
  split; [exact Ha|].
  exact (@args_present Memory _ _ _ ref_split ref_split_ok _ _ _ _ _ _ Example.caches 5 Example.configuration
    Example.environment (λ p, p) (λ _, None) Class.KICK [] [lit "KICK"; lit "bob"] _ Example.session Ha eq_refl
    ltac:(rewrite !not_elem_of_cons; split_and!; [discriminate..|apply not_elem_of_nil])).
Defined.
