(* ===== verification/SiteDispatch.v ===== *)
(** * What SITE runs, and with which arguments

    Theorems about SiteFactory.v: a command of the table is executed only for a user
    whom the rules allow it and with as many arguments as the table says; and that
    many are enough for the commands on accounts, which index them without a check. *)

From stdpp Require Import prelude gmap strings.
From S2P Require Import Prelude CxxString State Numbers Settings Acl Strength Group Transaction UserData User Rights Policies Connection Accounts NetFtp Credits Arguments Memory SiteState SiteUsers SiteSafety SiteLicence SiteCredits SiteFactory SiteArguments.
Local Open Scope Z_scope.
Local Open Scope list_scope.
Local Open Scope st_scope.

Section guard.
Context {W : Type} `{Split, CaseConv, Fnmatch, Trim}.
Context (ca : Caches) (siteCmds : list SiteCmd) (cscripts : list Settings.Cscript) (MaxSitecmdLines : Z).
Context (execute : Class.t → str → list str → ST (Site W) exit unit).
Context (script : nat → str → Site W → ScriptRun) (exec_reader : list str → Site W → ExecRun).

Abbreviation C := (ST (Site W) exit).

(** Only replies, records and the stored answers of the rules have changed. *)
Record steady (s s' : Site W) : Prop := {
  steady_db : db s' = db s; steady_self : self s' = self s; steady_kicks : kicks s' = kicks s;
  steady_ip : secureIp s' = secureIp s; steady_pass : securePass s' = securePass s;
  steady_replies : replies s `prefix_of` replies s'; steady_records : records s `prefix_of` records s';
  steady_may : ∀ keyword, may ca (self s) (acls s') keyword = may ca (self s) (acls s) keyword
}.

#[local] Instance steady_refl : Reflexive steady.
Proof. by split. Qed.

Lemma steady_allowed s s' keyword : steady s s' → may ca (self s') (acls s') keyword = may ca (self s) (acls s) keyword.
Proof. intros Hs. rewrite (steady_self s s' Hs). by apply steady_may. Qed.

#[local] Instance steady_trans : Transitive steady.
Proof.
  intros s1 s2 s3 A1 A2. destruct A1, A2. split; solve [congruence | by etransitivity | intros k; rewrite <-steady_may0, <-steady_self0; apply steady_may1].
Qed.

Definition still {A} (m : C A) : Prop := ∀ s, steady s (snd (m s)).

Lemma still_bind {A B} (m : C A) (k : A → C B) : still m → (∀ a, still (k a)) → still (st_bind m k).
Proof. intros Hm Hk s. unfold st_bind. specialize (Hm s). destruct (m s) as [[a|e] s1]; [etransitivity; [done|apply Hk]|done]. Qed.

Lemma still_ret {A} (a : A) : still (st_ret a).
Proof. intros s. by cbn. Qed.

Lemma still_gets {A} (f : Site W → A) : still (st_gets f).
Proof. intros s. by cbn. Qed.

Lemma still_reply code text : still (reply code text).
Proof. intros s. split; try done; by apply prefix_app_r. Qed.

Lemma still_part_reply code text : still (part_reply code text).
Proof. intros s. split; try done; by apply prefix_app_r. Qed.

Lemma still_record r : still (write_record r).
Proof. intros s. split; try done; by apply prefix_app_r. Qed.

Lemma still_iter {A} (f : A → C unit) l : (∀ a, still (f a)) → still (st_iter f l).
Proof. intros Hf. induction l as [|a l IH]; [apply still_ret|]. by apply still_bind. Qed.

Create HintDb still.
Hint Resolve still_ret still_gets still_reply still_part_reply still_record still_iter : still.
Ltac still_step := first [apply still_bind; [|intros ?] | solve [auto with still] | case_match].

Lemma allow_holds keyword s : st_holds (allow ca keyword) s (λ r s', r = Ok (may ca (self s) (acls s) keyword) ∧ steady s s').
Proof.
  unfold st_holds, allow, may. pose proof (may_after ca (self s) (acls s)) as Ha.
  destruct (AllowSiteCmd (GIDToName ca) (self s) keyword (acls s)) as [r l] eqn:E. split; [done|]. split; try done.
  intros k. specialize (Ha k keyword). by rewrite E in Ha.
Qed.

Lemma still_Cscripts command fullCommand pre failCode : still (Cscripts cscripts script command fullCommand pre failCode).
Proof.
  unfold Cscripts. generalize 0%nat. induction cscripts as [|c l IH]; intros n; cbn [Cscripts_loop]; [apply still_ret|].
  destruct (_ && _); [|apply IH]. apply still_bind; [unfold Cscript; repeat still_step|]. intros ok. destruct (_ && _); [apply still_ret|apply IH].
Qed.

Lemma still_EXEC sc args : still (CustomEXECCommand MaxSitecmdLines exec_reader sc args).
Proof. unfold CustomEXECCommand. repeat still_step. Qed.

Lemma still_denied name fullCommand : still (command_denied name fullCommand).
Proof. unfold command_denied. repeat still_step. Qed.

(** When a command of the table may be executed: by its keywords, with the arguments
    that it takes, under its name or that of a custom command that is an alias and
    allowed itself *)
Definition runnable (s : Site W) (k : Class.t) (args : list str) : Prop := ∃ name d,
  (name, d) ∈ defs ∧ creator d = Some (Create k) ∧ CheckArgs d args = true ∧ may ca (self s) (acls s) (aclKeyword d) = true ∧
  (head args = Some name ∨
   ∃ sc, sc ∈ siteCmds ∧ sc_type sc = CmdAlias ∧ head args = Some (Settings.command sc) ∧
     may ca (self s) (acls s) (lit "custom-" ++ to_lower (Settings.command sc)) = true).

Section invariant.
Context (I : Site W → Prop) (I_steady : ∀ s s', I s → steady s s' → I s').
Context (I_run : ∀ k argStr args s, I s → runnable s k args → I (snd (execute k argStr args s))).

Definition kept {A} (m : C A) (s : Site W) : Prop := st_holds m s (λ _ s', I s').

Lemma kept_still {A} (m : C A) s : still m → I s → kept m s.
Proof. intros Hm Hs. by eapply I_steady. Qed.

Lemma kept_catch {A} (m : C A) h s : kept m s → (∀ e k, h e = Some k → still k) → kept (st_catch m h) s.
Proof.
  intros Hm Hh. apply st_holds_catch. eapply (st_holds_conseq _ _ (λ _ s', I s')); [exact Hm|]. intros [a|e] s1 Hs1; [done|].
  destruct (h e) as [k|] eqn:E; [|done]. apply kept_still; [by eapply Hh|done].
Qed.

Lemma kept_bind_still {A B} (m : C A) (k : A → C B) s : I s → still m → (∀ a s', I s' → steady s s' → kept (k a) s') → kept (st_bind m k) s.
Proof.
  intros Hs Hm Hk. apply st_holds_bind. pose proof (Hm s) as Hst. unfold st_holds at 1.
  destruct (m s) as [[a|e] s1]; cbn in *; [|by eapply I_steady]. apply Hk; [by eapply I_steady|done].
Qed.

Lemma kept_allow {B} keyword (k : bool → C B) s :
  I s → (∀ s', I s' → steady s s' → kept (k (may ca (self s') (acls s') keyword)) s') → kept (st_bind (allow ca keyword) k) s.
Proof.
  intros Hs Hk. apply st_holds_bind. eapply st_holds_conseq; [apply allow_holds|]. intros r s1 [-> Hst].
  rewrite <-(steady_allowed s s1 keyword Hst). apply Hk; [by eapply I_steady|done].
Qed.

Lemma ALIAS_kept sc argStr args s : sc ∈ siteCmds → sc_type sc = CmdAlias → head args = Some (Settings.command sc) →
  may ca (self s) (acls s) (lit "custom-" ++ to_lower (Settings.command sc)) = true → I s →
  kept (CustomALIASCommand ca siteCmds execute sc argStr args) s.
Proof.
  intros Hin Hal Hhd Hmay Hs. unfold CustomALIASCommand. destruct (SplitArgs (target sc)) as [[closed [|t0 tArgs]]|]; [exact Hs| |exact Hs].
  destruct args as [|a0 rest]; [done|]. injection Hhd as ->. cbn [tail]. unfold arg. apply st_holds_bind. change (kept ?m s) with (kept m s).
  unfold st_holds at 1. cbn [lookup list_lookup fst snd st_ret]. cbv zeta.
  destruct (Lookup siteCmds t0 true) as [d|] eqn:El; [|apply kept_still; [auto with still|done]].
  apply kept_allow; [done|]. intros s1 Hs1 Hst. destruct (may ca (self s1) (acls s1) (aclKeyword d)) eqn:Em; cbn [negb];
    [|apply kept_still; [auto with still|done]].
  destruct (CheckArgs d _) eqn:Ec; cbn [negb]; [|apply kept_still; [auto with still|done]].
  destruct (creator d) as [[k|?]|] eqn:Ecr; try (apply kept_still; [solve [auto with still]|done]).
  apply kept_catch; [|intros [] ? [= <-]; auto with still].
  apply I_run; [done|]. exists t0, d. split_and!; [by apply find_def_elem|done..|]. right. exists sc. split_and!; [done..|].
  by rewrite (steady_allowed s s1).
Qed.

Lemma run_creator_kept c argStr args s :
  (∀ k, c = Create k → runnable s k args) →
  (∀ sc, c = CustomCreate sc → sc ∈ siteCmds ∧ may ca (self s) (acls s) (lit "custom-" ++ to_lower (Settings.command sc)) = true) → I s →
  kept (run_creator ca siteCmds MaxSitecmdLines execute exec_reader c argStr args) s.
Proof.
  intros Hk Hc Hs. destruct c as [k|sc]; cbn [run_creator]; [by apply I_run, Hk|]. destruct (Hc sc eq_refl) as [Hin Hmay].
  destruct (custom_args sc argStr) as [argStr' args'] eqn:E. injection E as _ <-.
  destruct (sc_type sc) eqn:Et; [apply kept_still; [apply still_EXEC|done]|apply kept_still; [unfold CustomTEXTCommand; auto with still|done]|].
  by apply ALIAS_kept.
Qed.

Lemma Lookup_cases name d : Lookup siteCmds name false = Some d →
  (name, d) ∈ defs ∨ ∃ sc, sc ∈ siteCmds ∧ Settings.command sc = name ∧ creator d = Some (CustomCreate sc) ∧ aclKeyword d = lit "custom-" ++ to_lower name.
Proof.
  unfold Lookup, LookupCustom. destruct (List.find _ siteCmds) as [sc|] eqn:E; [|intros Hd; left; by apply find_def_elem].
  apply List.find_some in E as [Hin E%bool_decide_eq_true]. intros [= <-]. right. exists sc.
  split_and!; [by apply list_elem_of_In|done..].
Qed.

Lemma SITE_kept argStr s : I s → kept (SITECommand ca siteCmds cscripts MaxSitecmdLines execute script exec_reader argStr) s.
Proof.
  intros Hs. unfold SITECommand. destruct (SplitArgs argStr) as [[closed args]|]; [|exact Hs].
  apply st_holds_bind. eapply st_holds_conseq; [apply arg_holds|]. intros [a0|e] s0 [-> Ha]; [|exact Hs]. cbv zeta.
  destruct (_ <? _)%nat; [exact Hs|]. destruct (Lookup siteCmds (to_upper a0) false) as [d|] eqn:El; [|apply kept_still; [auto with still|done]].
  apply kept_allow; [done|]. intros s1 Hs1 Hst1. destruct (may ca (self s1) (acls s1) (aclKeyword d)) eqn:Em; cbn [negb];
    [|apply kept_still; [apply still_denied|done]].
  destruct (CheckArgs d _) eqn:Ec; cbn [negb]; [|apply kept_still; [auto with still|done]].
  unfold run_def. apply kept_bind_still; [done|apply still_Cscripts|]. intros ok s2 Hs2 Hst2.
  destruct ok; cbn [negb]; [|done]. destruct (creator d) as [c|] eqn:Ecr; [|apply kept_still; [auto with still|done]].
  destruct (negb _); [apply kept_still; [auto with still|done]|].
  apply kept_catch; [|intros [] ? [= <-]; [auto with still|apply still_denied]].
  apply st_holds_bind. eapply (st_holds_conseq _ _ (λ _ s', I s')); [apply run_creator_kept; [| |exact Hs2]|].
  - intros k ->. destruct (Lookup_cases _ _ El) as [Hin|(sc & _ & _ & E & _)]; [|congruence].
    exists (to_upper a0), d. split_and!; [done..|by rewrite (steady_allowed s1 s2)|by left].
  - intros sc ->. destruct (Lookup_cases _ _ El) as [Hin|(sc' & Hsc & En & E & Ek)].
    + exfalso. revert Hin Ecr. clear. intros Hin Ecr.
      assert (Forall (λ kv, ∀ sc, creator (snd kv) ≠ Some (CustomCreate sc)) defs) as Hf
        by (unfold defs, defs_1, defs_2, defs_3; repeat constructor; done).
      by eapply (proj1 (Forall_forall _ _) Hf (to_upper a0, d)).
    + assert (sc' = sc) as -> by congruence. split; [done|]. rewrite En, <-Ek. by rewrite (steady_allowed s1 s2).
  - intros r s3 Hs3. destruct r as [[]|e]; [|done]. apply kept_bind_still; [done|apply still_Cscripts|]. intros; done.
Qed.

End invariant.

(** C20: What SITE runs.  Whatever the line, the custom commands of the configuration, the
    scripts and the processes they start: SITE changes nothing but the replies, the
    log and the answers that the rules store, except by executing one command of the
    table; and it does so only when the user of the session is allowed it by one of its
    keywords, with as many arguments as the table says, under its own name or through a
    custom command that is an alias and that he is allowed too.  So what these
    executions keep, SITE keeps. *)
Theorem SITE_licensed (I : Site W → Prop) argStr s :
  (∀ s s', I s → steady s s' → I s') →
  (∀ k argStr args s, I s → runnable s k args → I (snd (execute k argStr args s))) →
  I s → I (snd (SITECommand ca siteCmds cscripts MaxSitecmdLines execute script exec_reader argStr s)).
Proof. intros Hsteady Hrun Hs. exact (SITE_kept I Hsteady Hrun argStr s Hs). Qed.

End guard.

(** ** The commands on accounts behind SITE *)

Section accounts.
Context {W : Type} `{Mongo W, !Collection W UserData, !Collection W GroupData, Split}.
Context `{!CollectionOk W UserData groups_in, !CollectionOk W GroupData users_in, !MongoOk W (λ w, (users_in w, groups_in w))}.
Context `{CaseConv, Fnmatch, RegexMatch, BoostCast, ReplaceAll, Trim}.
Context (ca : Caches) (rounds : nat).
Context (config : SiteConfig) (env : SiteEnv) (PathFromUser : str → str) (from_simple_string : str → option Z).
Context (other : Class.t → str → list str → ST (Site W) exit unit).

(** [Execute] of the commands on accounts is theirs. *)
Definition execute_account (k : Class.t) (argStr : str) (args : list str) : ST (Site W) exit unit :=
  match account_command k argStr args with
  | Some c => run_command ca rounds config env PathFromUser from_simple_string c
  | None => other k argStr args
  end.

Lemma SITE_keeps_accounts siteCmds cscripts lines script exec_reader argStr s :
  (∀ k argStr args s, db (snd (other k argStr args s)) = db s) → ok (db s) →
  ok (db (snd (SITECommand ca siteCmds cscripts lines execute_account script exec_reader argStr s))).
Proof.
  intros Hother Hs. refine (SITE_kept ca siteCmds cscripts lines execute_account script exec_reader (λ s, ok (db s)) _ _ argStr s Hs).
  - intros s1 s2 Hok Hst. by rewrite (steady_db _ _ _ Hst).
  - intros k argStr' args s1 Hok _. unfold execute_account. destruct (account_command k argStr' args) as [c|]; [|by rewrite Hother].
    by apply (run_command_safe ca rounds config env PathFromUser from_simple_string c s1).
Qed.

End accounts.

(** ** Example: a group admin and the password of a user who is not in his group *)

Module Example.
Import SiteCredits.Example.
#[export] Existing Instances ref_split ref_fnmatch ref_case ref_trim ref_replace_all regex cast.

Definition alias : SiteCmd := {|
  Settings.command := lit "CP"; Settings.syntax := []; sc_type := CmdAlias; Settings.description := []; target := lit "CHPASS bob"; arguments := []
|}.

Definition session : Site Memory :=
  MkSite start {[ lit "chpassgadmin" := FromString (lit "*"); lit "custom-cp" := FromString (lit "*") ]} [] [] (user 2 "alice" 0) [] [] [].

Definition scripts (n : nat) (line : str) (s : Site Memory) : ScriptRun := ScriptDone 0 [].
Definition processes (argv : list str) (s : Site Memory) : ExecRun := OpenError [].
Definition nothing (k : Class.t) (argStr : str) (args : list str) : ST (Site Memory) exit unit := st_ret tt.

Definition site (line : str) : Site Memory :=
  (SITECommand caches [alias] [] 10
     (execute_account caches 5 configuration environment (λ p, p) (λ _, None) nothing) scripts processes line session).2.

(** A command that kicks, and nothing else *)
Definition kicker (k : Class.t) (argStr : str) (args : list str) : ST (Site Memory) exit unit :=
  match k with Class.KICK => st_modify (set_kicks [3]) | _ => st_ret tt end.
Definition kick_bob : Site Memory := (SITECommand caches [alias] [] 10 kicker scripts processes (lit "kick bob") session).2.

End Example.

#[local] Existing Instances ref_split ref_fnmatch ref_case ref_trim ref_replace_all SiteCredits.Example.regex SiteCredits.Example.cast.

Example CHPASS_denied : map (λ r, match r with Reply c t | PartReply c t => (c, t) end) (replies (Example.site (lit "chpass bob secret"))) =
  [(550, lit "SITE CHPASS: Permission denied")].
Proof. vm_compute. reflexivity. Qed.

(** Through an alias the name of the command is another, and the test that the user is
    in a group of the admin is left out. *)
Example CHPASS_by_alias : map (λ r, match r with Reply c t | PartReply c t => (c, t) end) (replies (Example.site (lit "cp secret"))) =
  [(200, lit "Password changed.")].
Proof. vm_compute. reflexivity. Qed.

Lemma kick_keyword name d : (name, d) ∈ defs → creator d = Some (Create Class.KICK) → aclKeyword d = lit "kick".
Proof.
  intros Hin Hc.
  assert (forallb (λ kv, match creator (snd kv) with Some (Create Class.KICK) => bool_decide (aclKeyword (snd kv) = lit "kick") | _ => true end) defs = true) as Hf
    by (vm_compute; reflexivity).
  pose proof (proj1 (forallb_forall _ _) Hf (name, d) (proj1 (list_elem_of_In _ _) Hin)) as Hd. cbn [snd] in Hd. rewrite Hc in Hd.
  by apply bool_decide_eq_true in Hd.
Qed.

Lemma SITE_licensed_witness :
  kicks Example.kick_bob = [] ∧
  map (λ r, match r with Reply c t | PartReply c t => (c, t) end) (replies Example.kick_bob) = [(550, lit "SITE KICK: Permission denied")].
Proof.
  split; [|vm_compute; reflexivity].
  apply (SITE_licensed SiteCredits.Example.caches [Example.alias] [] 10 Example.kicker Example.scripts Example.processes
    (λ s, kicks s = [] ∧ may SiteCredits.Example.caches (self s) (acls s) (lit "kick") = false) (lit "kick bob") Example.session).
  - intros s s' [Hk Hm] Hst. rewrite (steady_kicks _ _ _ Hst), (steady_self _ _ _ Hst), (steady_may _ _ _ Hst). by split.
  - intros k argStr args s [Hk Hm] (name & d & Hin & Hc & _ & Hmay & _). destruct k; try (by split).
    exfalso. rewrite (kick_keyword name d Hin Hc), Hm in Hmay. discriminate Hmay.
  - split; vm_compute; reflexivity.
Defined.
