(* ===== verification/Replicator.v ===== *)
(** * Replication: db/replicator.cpp over the caches of UserCache.v

    Every server that changes a record of the database appends the name of its
    collection and its id to a log; a thread in each server process loads the caches
    from the database, follows the log from its end, and reads each record that is
    named anew.  It asks for the entries whose id is greater than that of the last it
    has seen; ids have the clock of the server that wrote them in front, and need not
    be in the order of the log.  The log is capped.  The change of a record and its entry
    in the log are two writes, between which anything may happen.  Time is a list of events
    of the whole system. *)

From stdpp Require Import prelude gmap strings.
From S2P Require Import Prelude CxxString UserCache.
Local Open Scope Z_scope.
Local Open Scope list_scope.

(** ** Caches that can be replicated: db/replicable.hpp

    [view] is what a cache says of an id, [data] what a row of the database says. *)

Class Replicable (C R A : Type) := {
  Collection : str; Replicate : Z → option R → C → C; Populate : list R → C;
  key : R → Z; view : C → Z → option A; data : R → A
}.

Class ReplicableOk (C R A : Type) `{!Replicable C R A} : Prop := {
  replicate_same id row c : (∀ r, row = Some r → key r = id) → view (Replicate id row c) id = data <$> row;
  replicate_other id row c id' : (∀ r, row = Some r → key r = id) → id' ≠ id → view (Replicate id row c) id' = view c id';
  populate_view rows r : NoDup (map key rows) → r ∈ rows → view (Populate rows : C) (key r) = Some (data r);
  populate_none rows id : id ∉ map key rows → view (Populate rows : C) id = None
}.

#[export] Instance users_replicable : Replicable UserCache.UserCache UserCache.UserRow (str * Z * list str) := {
  Collection := lit "users"; Replicate := UserCache.Replicate; Populate := UserCache.Populate;
  key := UserCache.row_uid; view := cached; data := row_data
}.

#[export] Instance groups_replicable : Replicable GroupCache.GroupCache (Z * str) str := {
  Collection := lit "groups"; Replicate := GroupCache.Replicate; Populate := GroupCache.Populate;
  key := fst; view c id := GroupCache.names c !! id; data := snd
}.

(** ** The system

    [Tail] of replicator.cpp.  [lastOID] is the id of the last entry seen.  A cursor
    is asked for the entries behind that id, in the order of the log, as it is when the
    cursor is opened ([query]), and is at a place of the log: so the documentation of
    the database has it for a cursor that is tailable.  It may be found dead at any
    time. *)

Record Cursor := { query : option Z; at_ : nat }.
Record Tail := { lastOID : option Z; cursor : option Cursor }.

(** What the thread is doing: without a connection, with the caches loaded, or
    following the log *)
Inductive Phase : Type := Disconnected | Populated | Tailing (t : Tail).

(** The log is all that was ever written to it, with the ids in front; the entries from
    [oldest] on are still there.  The last three fields are no part of the program and
    only say what has happened: how long the log was when the caches were last loaded and
    when the tail was made, and which entries the thread has read since the first. *)
Record State := MkState {
  users_db : gmap Z UserCache.UserRow; groups_db : gmap Z (Z * str); updatelog : list (Z * (str * Z)); oldest : nat;
  (* changes that are not in the log yet *)
  unlogged : list (str * Z);
  users : UserCache.UserCache; groups : GroupCache.GroupCache; phase : Phase;
  since : nat; opened : nat; read : list nat
}.

Definition set_users_db v s := MkState v (groups_db s) (updatelog s) (oldest s) (unlogged s) (users s) (groups s) (phase s) (since s) (opened s) (read s).
Definition set_groups_db v s := MkState (users_db s) v (updatelog s) (oldest s) (unlogged s) (users s) (groups s) (phase s) (since s) (opened s) (read s).
Definition set_log v o w s := MkState (users_db s) (groups_db s) v o w (users s) (groups s) (phase s) (since s) (opened s) (read s).
Definition set_caches u g s := MkState (users_db s) (groups_db s) (updatelog s) (oldest s) (unlogged s) u g (phase s) (since s) (opened s) (read s).
Definition set_phase v s := MkState (users_db s) (groups_db s) (updatelog s) (oldest s) (unlogged s) (users s) (groups s) v (since s) (opened s) (read s).
Definition set_history a b r s := MkState (users_db s) (groups_db s) (updatelog s) (oldest s) (unlogged s) (users s) (groups s) (phase s) a b r.

(** All rows of a table, or one *)
Definition rows {R} (table : gmap Z R) : list R := map snd (map_to_list table).

(** [cache->Replicate(id)], whose result is not looked at: [ok] is whether the query
    for the record succeeds. *)
Definition replicate_one {C R A} `{!Replicable C R A} (table : gmap Z R) (ok : bool) (entry : str * Z) (c : C) : C :=
  if bool_decide (Collection = fst entry) then (if ok then Replicate (snd entry) (table !! snd entry) c else c) else c.

(** [Replicator::Replicate]: the loop over the caches *)
Definition replicate_entry (ok : bool) (entry : str * Z) (s : State) : State :=
  set_caches (replicate_one (users_db s) ok entry (users s)) (replicate_one (groups_db s) ok entry (groups s)) s.

(** [Replicator::Populate]: a query that fails finds no rows. *)
Definition populate (ok : bool) (s : State) : State :=
  set_caches (Populate (if ok then rows (users_db s) else [])) (Populate (if ok then rows (groups_db s) else [])) s.

(** [CreateUpdateLog] of initialise.cpp: no more than so many entries are kept. *)
Definition log_max : nat := 100.

Definition cap (len o : nat) : nat := Nat.max o (len - log_max).

(** [Tail::InitialiseLastOID]: the id of the last entry, if there is one *)
Definition InitialiseLastOID (s : State) : Tail :=
  {| lastOID := fst <$> last (drop (oldest s) (updatelog s)); cursor := None |}.

(** The condition of the query *)
Definition behind (q : option Z) (id : Z) : bool := match q with Some last => bool_decide (last < id) | None => true end.

Fixpoint first_behind (q : option Z) (n : nat) (log : list (Z * (str * Z))) : option (nat * (Z * (str * Z))) :=
  match log with
  | [] => None
  | x :: log => if behind q (fst x) then Some (n, x) else first_behind q (S n) log
  end.

(** [cursor->more()] and [next()] *)
Definition more (c : Cursor) (s : State) : option (nat * (Z * (str * Z))) :=
  let n := Nat.max (at_ c) (oldest s) in first_behind (query c) n (drop n (updatelog s)).

(** [conn.query(...)], when there is no cursor *)
Definition open_cursor (t : Tail) : Cursor := match cursor t with Some c => c | None => {| query := lastOID t; at_ := 0 |} end.

(** One passage of the loops of [Tail::Next]; the entry, and where it is in the log *)
Definition Next (t : Tail) (s : State) : Tail * option (nat * (str * Z)) :=
  let c := open_cursor t in
  match more c s with
  | Some (n, (id, entry)) => ({| lastOID := Some id; cursor := Some {| query := query c; at_ := S n |} |}, Some (n, entry))
  | None => ({| lastOID := lastOID t; cursor := Some c |}, None)
  end.

Inductive event : Type :=
  (* a server writes or deletes a record, and later its entry in the log, with an id;
     the log is full *)
  | ChangeUser (id : Z) (row : option UserCache.UserRow) | ChangeGroup (id : Z) (row : option (Z * str))
  | WriteLog (n : nat) (oid : Z) | Forget
  (* [Replicator::Run]: a connection and [Populate], the constructor of [Tail], one
     round of the inner loop, a cursor found dead, an exception *)
  | Connect (ok : bool) | OpenTail | Round (ok : bool) | Dead | Lost.

Definition change {R} (id : Z) (row : option R) (table : gmap Z R) : gmap Z R :=
  match row with Some r => <[id := r]> table | None => delete id table end.

Definition run_event (e : event) (s : State) : State :=
  match e with
  | ChangeUser id row => set_log (updatelog s) (oldest s) (unlogged s ++ [(lit "users", id)]) (set_users_db (change id row (users_db s)) s)
  | ChangeGroup id row => set_log (updatelog s) (oldest s) (unlogged s ++ [(lit "groups", id)]) (set_groups_db (change id row (groups_db s)) s)
  | WriteLog n oid =>
      match unlogged s !! n with
      | Some entry => let log := updatelog s ++ [(oid, entry)] in set_log log (cap (length log) (oldest s)) (delete n (unlogged s)) s
      | None => s
      end
  | Forget => if decide (S (oldest s) < length (updatelog s))%nat then set_log (updatelog s) (S (oldest s)) (unlogged s) s else s
  | Connect ok =>
      match phase s with
      | Disconnected => set_history (length (updatelog s)) (opened s) [] (set_phase Populated (populate ok s))
      | _ => s
      end
  | OpenTail =>
      match phase s with
      | Populated => set_history (since s) (length (updatelog s)) (read s) (set_phase (Tailing (InitialiseLastOID s)) s)
      | _ => s
      end
  | Round ok =>
      match phase s with
      | Tailing t =>
          match Next t s with
          | (t, Some (n, entry)) => set_history (since s) (opened s) (n :: read s) (set_phase (Tailing t) (replicate_entry ok entry s))
          | (t, None) => set_phase (Tailing t) s
          end
      | _ => s
      end
  | Dead => match phase s with Tailing t => set_phase (Tailing {| lastOID := lastOID t; cursor := None |}) s | _ => s end
  | Lost => set_phase Disconnected s
  end.

Definition run (l : list event) (s : State) : State := foldl (λ s e, run_event e s) s l.

(** ** What a cache may be wrong about *)

Section cache.
Context {C R A : Type} `{!Replicable C R A, !ReplicableOk C R A}.
Implicit Types (table : gmap Z R) (c : C).

Definition keyed table : Prop := ∀ id r, table !! id = Some r → key r = id.

(** The cache says of every id what the table says, but for some. *)
Definition fresh table c (excuse : Z → Prop) : Prop := ∀ id, view c id = data <$> table !! id ∨ excuse id.

Lemma keyed_empty : keyed ∅.
Proof. intros id r Hr. by rewrite lookup_empty in Hr. Qed.

Lemma fresh_weaken table c (P Q : Z → Prop) : fresh table c P → (∀ id, P id → Q id) → fresh table c Q.
Proof. intros Hf HPQ id. destruct (Hf id); [by left|right; auto]. Qed.

Lemma keyed_change id row table : (∀ r, row = Some r → key r = id) → keyed table → keyed (change id row table).
Proof.
  intros Hrow Ht i r. unfold change. destruct row as [r'|]; [|intros [_ Hr]%lookup_delete_Some; auto].
  intros [[<- <-]|[_ Hr]]%lookup_insert_Some; auto.
Qed.

Lemma change_other id row table id' : id' ≠ id → change id row table !! id' = table !! id'.
Proof. intros Hne. unfold change. destruct row; [by rewrite lookup_insert_ne|by rewrite lookup_delete_ne]. Qed.

Lemma fresh_change id row table c (P : Z → Prop) : fresh table c P → fresh (change id row table) c (λ i, P i ∨ i = id).
Proof.
  intros Hf i. destruct (decide (i = id)) as [->|Hne]; [by right; right|]. rewrite change_other by done.
  destruct (Hf i); [by left|by right; left].
Qed.

Lemma keys_of_rows table : keyed table → map key (rows table) = map fst (map_to_list table).
Proof.
  intros Ht. unfold rows. rewrite map_map. apply map_ext_in. intros [id r] Hin%list_elem_of_In%elem_of_map_to_list. by apply Ht.
Qed.

Lemma fresh_populate table P : keyed table → fresh table (Populate (rows table)) P.
Proof.
  intros Ht id. left. pose proof (keys_of_rows table Ht) as Hk. destruct (table !! id) as [r|] eqn:E; cbn.
  - rewrite <-(Ht id r E). apply populate_view.
    + rewrite Hk. apply NoDup_fst_map_to_list.
    + apply list_elem_of_fmap. exists (id, r). split; [done|]. by apply elem_of_map_to_list.
  - apply populate_none. rewrite Hk. intros [[i r] [-> Hin%elem_of_map_to_list]]%list_elem_of_fmap. cbn in *. congruence.
Qed.

Lemma fresh_replicate table c entry (P : Z → Prop) : keyed table →
  fresh table c (λ i, P i ∨ (Collection, i) = entry) → fresh table (replicate_one table true entry c) P.
Proof.
  intros Ht Hf id. unfold replicate_one. destruct entry as [coll i]. cbn [fst snd].
  case_bool_decide as Hc; [subst coll|].
  - destruct (decide (id = i)) as [->|Hne].
    + left. by apply replicate_same, Ht.
    + rewrite replicate_other; [|by apply Ht|done]. destruct (Hf id) as [?|[?|[= ?]]]; [by left|by right|congruence].
  - destruct (Hf id) as [?|[?|[= ??]]]; [by left|by right|congruence].
Qed.

End cache.

(** ** The two caches keep what the interface promises. *)

Lemma cached_populate c l : NoDup (map UserCache.row_uid l) →
  (∀ r, r ∈ l → cached (foldl UserCache.Populate_step c l) (UserCache.row_uid r) = Some (row_data r)) ∧
  ∀ u, u ∉ map UserCache.row_uid l → cached (foldl UserCache.Populate_step c l) u = cached c u.
Proof.
  revert c. induction l as [|r l IH]; intros c Hl; cbn; [by split; [intros r ?%elem_of_nil|]|].
  apply NoDup_cons in Hl as [Hr Hl]. destruct (IH (UserCache.Populate_step c r) Hl) as [A1 A2].
  assert (∀ u, u ≠ UserCache.row_uid r → cached (UserCache.Populate_step c r) u = cached c u) as Hne
    by (intros u Hu; unfold cached; cbn; by rewrite !lookup_insert_ne by done).
  split.
  - intros x [->|Hx]%elem_of_cons; [|by apply A1]. rewrite A2 by done. unfold cached. cbn. by rewrite !lookup_insert_eq.
  - intros u [Hu1 Hu2]%not_elem_of_cons. rewrite A2 by done. by apply Hne.
Qed.

#[export] Instance users_replicable_ok : ReplicableOk UserCache.UserCache UserCache.UserRow (str * Z * list str).
Proof.
  split; cbn.
  - intros id row c Hrow. by apply (UserCache_Replicate c id row).
  - intros id row c id' Hrow Hne. by apply (UserCache_Replicate c id row Hrow).
  - intros l r Hl Hr. by apply (cached_populate UserCache.empty l Hl).
  - intros l id Hid. unfold UserCache.Populate.
    induction l as [|r l IH] using rev_ind; [done|]. rewrite map_app in Hid. apply not_elem_of_app in Hid as [Hid1 Hid2%not_elem_of_cons].
    rewrite foldl_app. cbn. unfold cached. cbn. destruct Hid2. rewrite !lookup_insert_ne by done. by apply IH.
Qed.

#[export] Instance groups_replicable_ok : ReplicableOk GroupCache.GroupCache (Z * str) str.
Proof.
  split; cbn.
  - intros id [[g n]|] c Hrow; cbn.
    + rewrite <-(Hrow (g, n) eq_refl). cbn. by rewrite lookup_insert_eq.
    + destruct (GroupCache.names c !! id) eqn:E; cbn; [by rewrite lookup_delete_eq|done].
  - intros id [[g n]|] c id' Hrow Hne; cbn.
    + pose proof (Hrow (g, n) eq_refl) as E. cbn in E. subst g. by rewrite lookup_insert_ne.
    + destruct (GroupCache.names c !! id) eqn:E; cbn; [by rewrite lookup_delete_ne|done].
  - intros l [g n] Hl Hr. unfold GroupCache.Populate. revert Hl Hr. generalize {| GroupCache.names := ∅; GroupCache.gids := ∅ |}.
    induction l as [|[g' n'] l IH] using rev_ind; intros c Hl Hr; [by apply elem_of_nil in Hr|].
    rewrite foldl_app. cbn. rewrite map_app in Hl. apply NoDup_app in Hl as (Hl & Hd & _).
    apply elem_of_app in Hr as [Hr|[= -> ->]%list_elem_of_singleton]; [|by rewrite lookup_insert_eq].
    rewrite lookup_insert_ne; [by apply IH|]. intros ->. apply (Hd g); [|by left]. apply list_elem_of_fmap. by exists (g, n).
  - intros l id Hid. unfold GroupCache.Populate.
    induction l as [|[g n] l IH] using rev_ind; [done|]. rewrite map_app in Hid. apply not_elem_of_app in Hid as [Hid1 Hid2%not_elem_of_cons].
    rewrite foldl_app. cbn. destruct Hid2. rewrite lookup_insert_ne by done. by apply IH.
Qed.

(** ** What the thread has read *)

Lemma first_behind_Some q n log m x : first_behind q n log = Some (m, x) →
  (n ≤ m)%nat ∧ log !! (m - n)%nat = Some x ∧ ∀ p y, (n ≤ p < m)%nat → log !! (p - n)%nat = Some y → behind q (fst y) = false.
Proof.
  revert n. induction log as [|z log IH]; intros n; cbn [first_behind]; [done|]. destruct (behind q (fst z)) eqn:Ez.
  - intros [= -> ->]. rewrite Nat.sub_diag. split_and!; [lia|done|lia].
  - intros (H1 & H2 & H3)%IH. split; [lia|]. split.
    + by replace (m - n)%nat with (S (m - S n))%nat by lia.
    + intros p y Hp. destruct (decide (p = n)) as [->|Hne]; [rewrite Nat.sub_diag; by intros [= <-]|].
      replace (p - n)%nat with (S (p - S n))%nat by lia. apply H3. lia.
Qed.

Lemma first_behind_None q n log y : first_behind q n log = None → y ∈ log → behind q (fst y) = false.
Proof.
  revert n. induction log as [|z log IH]; intros n; cbn [first_behind]; [by intros _ ?%elem_of_nil|].
  destruct (behind q (fst z)) eqn:Ez; [done|]. intros H [->|Hy]%elem_of_cons; [done|by eapply IH].
Qed.

Lemma more_Some c s m x : more c s = Some (m, x) →
  (at_ c ≤ m)%nat ∧ (oldest s ≤ m)%nat ∧ updatelog s !! m = Some x ∧
  ∀ p y, (at_ c ≤ p < m)%nat → updatelog s !! p = Some y → (p < oldest s)%nat ∨ behind (query c) (fst y) = false.
Proof.
  unfold more. intros (H1 & H2 & H3)%first_behind_Some. rewrite lookup_drop in H2.
  replace (_ + (m - _))%nat with m in H2 by lia. split_and!; [lia|lia|done|].
  intros p y Hp Hy. destruct (decide (p < oldest s)%nat); [by left|right]. apply (H3 p y); [lia|]. rewrite lookup_drop.
  by replace (_ + (p - _))%nat with p by lia.
Qed.

Lemma more_None c s p y : more c s = None → (at_ c ≤ p)%nat → updatelog s !! p = Some y →
  (p < oldest s)%nat ∨ behind (query c) (fst y) = false.
Proof.
  unfold more. intros Hm Hp Hy. destruct (decide (p < oldest s)%nat); [by left|right].
  eapply first_behind_None; [exact Hm|]. apply (list_elem_of_lookup_2 _ (p - Nat.max (at_ c) (oldest s))%nat). rewrite lookup_drop.
  by replace (_ + (p - _))%nat with p by lia.
Qed.

(** The ids are in the order of the log. *)
Definition increasing (log : list (Z * (str * Z))) : Prop :=
  ∀ p q x y, (p < q)%nat → log !! p = Some x → log !! q = Some y → fst x < fst y.

Lemma increasing_app log l : increasing (log ++ l) → increasing log.
Proof. intros H p q x y Hpq Hx Hy. apply (H p q x y Hpq); by apply lookup_app_l_Some. Qed.

(** An entry has been dealt with: the thread has read it, or it is no longer there. *)
Definition dealt (s : State) (p : nat) : Prop := p ∈ read s ∨ (p < oldest s)%nat.

(** The id is that of an entry with which everything before it, back to where the tail
    was made, has been dealt. *)
Definition reached (s : State) (id : Z) : Prop :=
  ∃ q x, updatelog s !! q = Some x ∧ fst x = id ∧ ∀ p, (opened s ≤ p ≤ q)%nat → dealt s p.

(** Entries that a change of a record has still to be read from: it is not in the log, or
    was written there since the caches were loaded and has not been read. *)
Definition excused (s : State) (entry : str * Z) : Prop :=
  entry ∈ unlogged s ∨ ∃ p id, (since s ≤ p)%nat ∧ updatelog s !! p = Some (id, entry) ∧ p ∉ read s.

(** Where the cursor is: what it has passed it has read, unless it was not asked for it *)
Record tail_ok (s : State) (t : Tail) : Prop := {
  passed : ∀ c p x, cursor t = Some c → (p < at_ c)%nat → updatelog s !! p = Some x → dealt s p ∨ behind (query c) (fst x) = false;
  at_end : ∀ c, cursor t = Some c → (at_ c ≤ length (updatelog s))%nat;
  last_reached : ∀ id, lastOID t = Some id → increasing (updatelog s) → reached s id;
  query_reached : ∀ c id, cursor t = Some c → query c = Some id → increasing (updatelog s) → reached s id
}.

Record invariant (s : State) : Prop := {
  kept : (oldest s ≤ length (updatelog s))%nat;
  since_le : phase s ≠ Disconnected → (since s ≤ length (updatelog s))%nat;
  read_le : ∀ p, phase s ≠ Disconnected → p ∈ read s → (p < length (updatelog s))%nat;
  users_keyed : keyed (users_db s); groups_keyed : keyed (groups_db s);
  users_fresh : phase s ≠ Disconnected → fresh (users_db s) (users s) (λ id, excused s (lit "users", id));
  groups_fresh : phase s ≠ Disconnected → fresh (groups_db s) (groups s) (λ id, excused s (lit "groups", id));
  tail_inv : ∀ t, phase s = Tailing t → (opened s ≤ length (updatelog s))%nat ∧ tail_ok s t
}.

(** Rows have the id they are stored under, and no query of the thread fails. *)
Definition orderly (e : event) : Prop :=
  match e with
  | ChangeUser id row => ∀ r, row = Some r → UserCache.row_uid r = id
  | ChangeGroup id row => ∀ r, row = Some r → fst r = id
  | Connect ok | Round ok => ok = true
  | _ => True
  end.

(** ** The tail, while the log grows *)

Record grows (s s' : State) : Prop := {
  grows_log : ∃ l, updatelog s' = updatelog s ++ l;
  grows_oldest : (oldest s ≤ oldest s')%nat;
  grows_read : read s ⊆ read s';
  grows_opened : opened s' = opened s
}.

Lemma grows_same s s' : updatelog s' = updatelog s → oldest s' = oldest s → read s' = read s → opened s' = opened s → grows s s'.
Proof. intros E1 E2 E3 E4. split; [exists []; by rewrite app_nil_r|lia|by rewrite E3|done]. Qed.

Lemma dealt_grows s s' p : grows s s' → dealt s p → dealt s' p.
Proof. intros [_ Ho Hr _] [Hp|Hp]; [left; by apply Hr|right; lia]. Qed.

Lemma reached_grows s s' id : grows s s' → reached s id → reached s' id.
Proof.
  intros Hg (q & x & Hq & Hx & Hp). pose proof Hg as [[l El] _ _ Ho]. exists q, x. split_and!.
  - rewrite El. by apply lookup_app_l_Some.
  - done.
  - rewrite Ho. intros p Hpq. by apply (dealt_grows s), Hp.
Qed.

Lemma tail_ok_grows s s' t : grows s s' → tail_ok s t → tail_ok s' t.
Proof.
  intros Hg [T1 T2 T3 T4]. pose proof Hg as [[l El] _ _ _]. split.
  - intros c p x Hc Hp Hx. specialize (T2 c Hc). rewrite El, lookup_app_l in Hx by lia.
    destruct (T1 c p x Hc Hp Hx); [left; by apply (dealt_grows s)|by right].
  - intros c Hc. rewrite El, length_app. specialize (T2 c Hc). lia.
  - intros id Hid Hi. rewrite El in Hi. apply (reached_grows s); [done|]. apply T3; [done|by eapply increasing_app].
  - intros c id Hc Hid Hi. rewrite El in Hi. apply (reached_grows s); [done|]. apply (T4 c); [done..|by eapply increasing_app].
Qed.

Lemma tail_ok_open s t : tail_ok s t → tail_ok s {| lastOID := lastOID t; cursor := Some (open_cursor t) |}.
Proof.
  intros [T1 T2 T3 T4]. unfold open_cursor. destruct (cursor t) as [c0|] eqn:Ec; split; cbn [cursor lastOID].
  - intros c p x [= <-]. by apply T1.
  - intros c [= <-]. by apply T2.
  - exact T3.
  - intros c id [= <-]. by apply T4.
  - intros c p x [= <-]. cbn. lia.
  - intros c [= <-]. cbn. lia.
  - exact T3.
  - intros c id [= <-]. by apply T3.
Qed.

Lemma tail_ok_made s : tail_ok (set_history (since s) (length (updatelog s)) (read s) s) (InitialiseLastOID s).
Proof.
  split; cbn; [done..| |done]. intros id Hid _. apply fmap_Some in Hid as (x & Hx & ->).
  rewrite last_lookup, lookup_drop in Hx. eexists _, x. split; [exact Hx|]. split; [done|]. cbn. intros p Hp.
  apply lookup_lt_Some in Hx. lia.
Qed.

(** Reading an entry: with all that the cursor has passed it has dealt, and so with all
    up to the entry, when the ids are in order. *)
Lemma tail_ok_read s c n id entry r : (opened s ≤ length (updatelog s))%nat →
  tail_ok s {| lastOID := r; cursor := Some c |} → more c s = Some (n, (id, entry)) →
  tail_ok (set_history (since s) (opened s) (n :: read s) s)
    {| lastOID := Some id; cursor := Some {| query := query c; at_ := S n |} |}.
Proof.
  intros Ho [T1 T2 T3 T4] (Hn & Hn' & Hl & Hskip)%more_Some. cbn [cursor] in *. set (s' := set_history _ _ _ _).
  assert (Hg : grows s s') by (split; [by exists []; rewrite app_nil_r|done|by intros p; right|done]).
  assert (Hpass : ∀ p x, (p < S n)%nat → updatelog s !! p = Some x → dealt s' p ∨ behind (query c) (fst x) = false).
  { intros p x Hp Hx. destruct (decide (p = n)) as [->|Hne]; [left; left; by left|].
    destruct (decide (p < at_ c)%nat).
    - destruct (T1 c p x) as [?|?]; [done..|left; by apply (dealt_grows s)|by right].
    - destruct (Hskip p x) as [?|?]; [lia|done|left; by right|by right]. }
  split; cbn [cursor lastOID].
  - intros c' p x [= <-] Hp Hx. by apply (Hpass p x).
  - intros c' [= <-]. cbn. by apply lookup_lt_Some in Hl.
  - intros i [= <-] Hi. exists n, (id, entry). split_and!; [done..|]. intros p Hp. cbn [opened s' set_history] in Hp.
    destruct (lookup_lt_is_Some_2 (updatelog s) p) as [x Hx]; [apply lookup_lt_Some in Hl; lia|].
    destruct (Hpass p x) as [?|Hb]; [lia|done|done|]. unfold behind in Hb. destruct (query c) as [b|] eqn:Eq; [|done].
    apply bool_decide_eq_false in Hb. destruct (T4 c b eq_refl Eq Hi) as (q & y & Hq & <- & Hd).
    apply (dealt_grows s); [done|]. apply Hd. destruct (decide (q < p)%nat); [|lia].
    specialize (Hi q p y x ltac:(done) Hq Hx). lia.
  - intros c' i [= <-] Hq Hi. apply (reached_grows s); [done|]. by apply (T4 c).
Qed.

(** ** The invariant is kept *)

Lemma excused_weaken s s' entry : unlogged s' = unlogged s → since s' = since s → updatelog s' = updatelog s → read s' = read s →
  excused s entry → excused s' entry.
Proof. unfold excused. by intros -> -> -> ->. Qed.

Lemma excused_write s n oid entry entry' o : unlogged s !! n = Some entry → excused s entry' → (since s ≤ length (updatelog s))%nat →
  (∀ p, p ∈ read s → (p < length (updatelog s))%nat) →
  excused (set_log (updatelog s ++ [(oid, entry)]) o (delete n (unlogged s)) s) entry'.
Proof.
  intros Hn He Hs Hr. unfold excused in *. cbn [set_log updatelog unlogged since read].
  destruct He as [Hu|(p & id & Hp & Hl & Hnr)]; [|right; exists p, id; split_and!; [done|by apply lookup_app_l_Some|done]].
  destruct (decide (entry' = entry)) as [->|Hne].
  - right. exists (length (updatelog s)), oid. split_and!; [done|by rewrite lookup_app_r, Nat.sub_diag by lia|]. intros Hin%Hr. lia.
  - left. rewrite <-(take_drop_middle (unlogged s) n entry Hn) in Hu. rewrite delete_take_drop.
    apply elem_of_app in Hu as [Hu|[?|Hu]%elem_of_cons]; [apply elem_of_app; by left|done|apply elem_of_app; by right].
Qed.

Lemma invariant_ChangeUser id row s : (∀ r, row = Some r → UserCache.row_uid r = id) → invariant s → invariant (run_event (ChangeUser id row) s).
Proof.
  intros Hrow [A1 A0 A2 A3 A4 A5 A6 A7]. split; cbn; [done|done|done|by apply keyed_change|done| | |].
  - intros Hp. eapply fresh_weaken; [by apply fresh_change, A5|]. cbn. unfold excused. cbn. intros i [[?|?]| ->]; [|by right|].
    + left. apply elem_of_app. by left.
    + left. apply elem_of_app. right. by left.
  - intros Hp. eapply fresh_weaken; [by apply A6|]. cbn. unfold excused. cbn. intros i [?|?]; [left; apply elem_of_app; by left|by right].
  - intros t Ht. destruct (A7 t Ht) as [? Hok]. split; [done|]. eapply tail_ok_grows; [|exact Hok]. by apply grows_same.
Qed.

Lemma invariant_ChangeGroup id row s : (∀ r, row = Some r → fst r = id) → invariant s → invariant (run_event (ChangeGroup id row) s).
Proof.
  intros Hrow [A1 A0 A2 A3 A4 A5 A6 A7]. split; cbn; [done|done|done|done|by apply keyed_change| | |].
  - intros Hp. eapply fresh_weaken; [by apply A5|]. cbn. unfold excused. cbn. intros i [?|?]; [left; apply elem_of_app; by left|by right].
  - intros Hp. eapply fresh_weaken; [by apply fresh_change, A6|]. cbn. unfold excused. cbn. intros i [[?|?]| ->]; [|by right|].
    + left. apply elem_of_app. by left.
    + left. apply elem_of_app. right. by left.
  - intros t Ht. destruct (A7 t Ht) as [? Hok]. split; [done|]. eapply tail_ok_grows; [|exact Hok]. by apply grows_same.
Qed.

Lemma invariant_WriteLog n oid s : invariant s → invariant (run_event (WriteLog n oid) s).
Proof.
  intros Hs. pose proof Hs as [A1 A0 A2 A3 A4 A5 A6 A7]. cbn. destruct (unlogged s !! n) as [entry|] eqn:En; [|done].
  assert (Hlen : ∀ x, length (updatelog s ++ [x]) = S (length (updatelog s))) by (intros x; rewrite length_app; cbn; lia).
  split; cbn; rewrite ?Hlen; [unfold cap; lia|intros Hp; specialize (A0 Hp); lia| |done|done| | |].
  - intros p Hp Hin. specialize (A2 p Hp Hin). lia.
  - intros Hp. eapply fresh_weaken; [by apply A5|]. intros i Hi. apply excused_write; auto.
  - intros Hp. eapply fresh_weaken; [by apply A6|]. intros i Hi. apply excused_write; auto.
  - intros t Ht. destruct (A7 t Ht) as [? Hok]. split; [lia|]. eapply tail_ok_grows; [|exact Hok].
    split; cbn; [by eexists|unfold cap; lia|done|done].
Qed.

Lemma invariant_Forget s : invariant s → invariant (run_event Forget s).
Proof.
  intros Hs. pose proof Hs as [A1 A0 A2 A3 A4 A5 A6 A7]. cbn. case_decide; [|done]. split; cbn; [lia|done..|].
  intros t Ht. destruct (A7 t Ht) as [? Hok]. split; [done|]. eapply tail_ok_grows; [|exact Hok].
  split; cbn; [exists []; by rewrite app_nil_r|lia|done|done].
Qed.

Lemma invariant_Connect s : invariant s → invariant (run_event (Connect true) s).
Proof.
  intros Hs. pose proof Hs as [A1 A0 A2 A3 A4 A5 A6 A7]. cbn. destruct (phase s); [|exact Hs..].
  split; [exact A1|done|by intros p _ ?%elem_of_nil|exact A3|exact A4| | |done]; intros _;
    [refine (fresh_populate (users_db s) _ A3)|refine (fresh_populate (groups_db s) _ A4)].
Qed.

Lemma invariant_OpenTail s : invariant s → invariant (run_event OpenTail s).
Proof.
  intros Hs. pose proof Hs as [A1 A0 A2 A3 A4 A5 A6 A7]. cbn. destruct (phase s) as [| |t] eqn:Ep; [exact Hs| |exact Hs].
  split; cbn; [done|intros _; by apply A0|intros p _; by apply A2|done|done| | |].
  - intros _. by apply A5.
  - intros _. by apply A6.
  - intros t [= <-]. split; [done|]. eapply tail_ok_grows; [|apply tail_ok_made]. by apply grows_same.
Qed.

Lemma invariant_Dead s : invariant s → invariant (run_event Dead s).
Proof.
  intros Hs. pose proof Hs as [A1 A0 A2 A3 A4 A5 A6 A7]. cbn. destruct (phase s) as [| |t] eqn:Ep; [exact Hs..|].
  split; cbn; [done|intros _; by apply A0|intros p _; by apply A2|done|done|intros _; by apply A5|intros _; by apply A6|].
  intros t' [= <-]. destruct (A7 t eq_refl) as [? [T1 T2 T3 T4]]. split; [done|]. by split.
Qed.

(** A round that finds an entry leaves all other entries as they are excused. *)
Lemma excused_read s t n entry entry' : excused s entry' →
  (∀ id e, updatelog s !! n = Some (id, e) → e = entry) →
  excused (set_history (since s) (opened s) (n :: read s) (set_phase t (replicate_entry true entry s))) entry' ∨ entry' = entry.
Proof.
  intros [?|(p & id & Hp & Hl & Hnr)] Hn; [left; by left|]. destruct (decide (p = n)) as [->|Hne]; [right; by eapply Hn|].
  left; right. exists p, id. split_and!; [done..|]. cbn. by apply not_elem_of_cons.
Qed.

Lemma invariant_Round s : invariant s → invariant (run_event (Round true) s).
Proof.
  intros Hs. pose proof Hs as [A1 A0 A2 A3 A4 A5 A6 A7]. cbn. destruct (phase s) as [| |t] eqn:Ep; [exact Hs..|].
  destruct (A7 t eq_refl) as [Ho Hok%tail_ok_open]. unfold Next. destruct (more (open_cursor t) s) as [[n [id entry]]|] eqn:Em.
  - pose proof Em as (_ & _ & Hl & _)%more_Some.
    assert (He : ∀ i e, updatelog s !! n = Some (i, e) → e = entry) by (intros i e; rewrite Hl; by intros [= _ <-]).
    split; cbn; [done|intros _; by apply A0| |done|done| | |].
    + intros p _ [->|Hp]%elem_of_cons; [by apply lookup_lt_Some in Hl|by apply A2].
    + intros _. apply fresh_replicate; [done|]. eapply fresh_weaken; [by apply A5|]. intros i Hi. by apply excused_read.
    + intros _. apply fresh_replicate; [done|]. eapply fresh_weaken; [by apply A6|]. intros i Hi. by apply excused_read.
    + intros t' [= <-]. split; [done|]. eapply tail_ok_grows; [|by eapply tail_ok_read]. by apply grows_same.
  - split; cbn; [done|intros _; by apply A0|intros p _; by apply A2|done|done|intros _; by apply A5|intros _; by apply A6|].
    intros t' [= <-]. split; [done|]. eapply tail_ok_grows; [|exact Hok]. by apply grows_same.
Qed.

Lemma invariant_step e s : orderly e → invariant s → invariant (run_event e s).
Proof.
  destruct e as [id row|id row|n oid| |ok| |ok| |]; cbn [orderly]; intros He Hs.
  - by apply invariant_ChangeUser.
  - by apply invariant_ChangeGroup.
  - by apply invariant_WriteLog.
  - by apply invariant_Forget.
  - subst ok. by apply invariant_Connect.
  - by apply invariant_OpenTail.
  - subst ok. by apply invariant_Round.
  - by apply invariant_Dead.
  - destruct Hs. by split.
Qed.

Lemma invariant_run l s : Forall orderly l → invariant s → invariant (run l s).
Proof. intros Hl. revert s. induction Hl as [|e l He Hl IH]; intros s Hs; [done|]. cbn. by apply IH, invariant_step. Qed.

(** ** Catching up *)

(** The thread alone *)
Fixpoint rounds (n : nat) (s : State) : State := match n with O => s | S n => rounds n (run_event (Round true) s) end.

Lemma invariant_rounds n s : invariant s → invariant (rounds n s).
Proof. revert s. induction n as [|n IH]; intros s Hs; [done|]. by apply IH, invariant_Round. Qed.

(** What the rounds of the thread leave alone *)
Definition same_system (s s' : State) : Prop :=
  users_db s' = users_db s ∧ groups_db s' = groups_db s ∧ updatelog s' = updatelog s ∧ oldest s' = oldest s ∧
  unlogged s' = unlogged s ∧ since s' = since s ∧ opened s' = opened s.

Lemma rounds_system n s : same_system s (rounds n s).
Proof.
  unfold same_system. revert s. induction n as [|n IH]; intros s; [by split_and!|]. cbn [rounds]. destruct (IH (run_event (Round true) s)) as (-> & -> & -> & -> & -> & -> & ->).
  cbn [run_event]. destruct (phase s); [by split_and!..|]. destruct (Next t s) as [t' [[m entry]|]]; by split_and!.
Qed.

Lemma rounds_idle n s r c : phase s = Tailing {| lastOID := r; cursor := Some c |} → more c s = None →
  phase (rounds n s) = Tailing {| lastOID := r; cursor := Some c |} ∧ more c (rounds n s) = None.
Proof.
  revert s. induction n as [|n IH]; intros s Hp Hm; cbn [rounds]; [done|]. cbn [run_event]. rewrite Hp.
  unfold Next. cbn [open_cursor cursor lastOID]. rewrite Hm. by apply IH.
Qed.

(** With a cursor at a place, as many rounds as there are entries behind it see to all. *)
Lemma rounds_end n s r c : phase s = Tailing {| lastOID := r; cursor := Some c |} → (length (updatelog s) ≤ at_ c + n)%nat →
  ∃ r' c', phase (rounds n s) = Tailing {| lastOID := r'; cursor := Some c' |} ∧ more c' (rounds n s) = None.
Proof.
  revert s r c. induction n as [|n IH]; intros s r c Hp Hn; cbn [rounds].
  { exists r, c. split; [done|]. unfold more. by rewrite drop_ge by lia. }
  cbn [run_event]. rewrite Hp. unfold Next. cbn [open_cursor cursor lastOID]. destruct (more c s) as [[m [id entry]]|] eqn:Em.
  - apply more_Some in Em as (Hm & _ & _ & _). eapply IH; [reflexivity|]. cbn. lia.
  - exists r, c. by apply (rounds_idle n).
Qed.

Lemma rounds_enough s t : phase s = Tailing t →
  ∃ r c, phase (rounds (S (length (updatelog s))) s) = Tailing {| lastOID := r; cursor := Some c |} ∧
    more c (rounds (S (length (updatelog s))) s) = None.
Proof.
  intros Hp. set (n := length (updatelog s)). cbn [rounds run_event]. rewrite Hp. unfold Next.
  destruct (more (open_cursor t) s) as [[m [id entry]]|] eqn:Em; [eapply rounds_end; [reflexivity|cbn; lia]|].
  exists (lastOID t), (open_cursor t). by apply (rounds_idle n).
Qed.

(** C22: The caches catch up.  Take any history of the system in which the queries of
    the thread succeed: servers write records, and their log entries at any later time,
    in any order and with any ids, the log forgets its oldest entries, and the thread
    loses cursors and connections and comes back as it likes.  Whenever the thread then
    follows the log, one round more than the log has entries leaves its cursor nothing to
    read; and then the caches say of the name, the primary group and the masks of each
    user, and of the name of each group, what the database says, unless a change of it is
    not in the log yet, or was logged after the caches were last loaded in an entry that
    was not read.  Such an entry is no longer in the log, or its id is not greater than
    the one that the cursor was opened with.  If the ids are in the order of the log, it
    is no longer there, or was written before the tail was made.  The maps from
    names to ids are not covered. *)
Theorem caches_catch_up l s t :
  keyed (users_db s) → keyed (groups_db s) → (oldest s ≤ length (updatelog s))%nat → phase s = Disconnected → Forall orderly l →
  let s1 := run l s in
  phase s1 = Tailing t →
  let s2 := rounds (S (length (updatelog s1))) s1 in
  let unread p entry := (since s1 ≤ p)%nat ∧ p ∉ read s2 ∧ ∃ id, updatelog s1 !! p = Some (id, entry) in
  same_system s1 s2 ∧
  (∀ uid, (lit "users", uid) ∉ unlogged s1 → (∀ p, ¬ unread p (lit "users", uid)) →
    cached (users s2) uid = row_data <$> users_db s1 !! uid) ∧
  (∀ gid, (lit "groups", gid) ∉ unlogged s1 → (∀ p, ¬ unread p (lit "groups", gid)) →
    GroupCache.names (groups s2) !! gid = snd <$> groups_db s1 !! gid) ∧
  ∃ r c, phase s2 = Tailing {| lastOID := r; cursor := Some c |} ∧ more c s2 = None ∧
  (∀ p entry, unread p entry → (p < oldest s1)%nat ∨ ∃ last id, query c = Some last ∧ updatelog s1 !! p = Some (id, entry) ∧ id ≤ last) ∧
  (increasing (updatelog s1) → ∀ p entry, unread p entry → (p < oldest s1)%nat ∨ (p < opened s1)%nat).
Proof.
  intros Hu Hg Ho Hd Hl s1 Hp s2 unread.
  assert (invariant s1) as Hs1 by (apply invariant_run; [done|]; by split; rewrite ?Hd).
  assert (invariant s2) as Hs2 by by apply invariant_rounds.
  destruct (rounds_enough s1 t Hp) as (r & c & Hp2 & Hm). fold s2 in Hp2, Hm.
  destruct (rounds_system (S (length (updatelog s1))) s1) as (E1 & E2 & E3 & E4 & E5 & E6 & E7). fold s2 in E1, E2, E3, E4, E5, E6, E7.
  assert (∀ entry, entry ∉ unlogged s1 → (∀ p, ¬ unread p entry) → ¬ excused s2 entry) as Hne.
  { intros entry Hn1 Hn2 [Hx|(p & id & H1 & H2 & H3)]; [by rewrite E5 in Hx|]. rewrite E6 in H1. rewrite E3 in H2. apply (Hn2 p). split_and!; [done..|by exists id]. }
  destruct (tail_inv s2 Hs2 _ Hp2) as [_ [T1 T2 T3 T4]].
  assert (Hall : ∀ p id entry, updatelog s1 !! p = Some (id, entry) → dealt s2 p ∨ behind (query c) id = false).
  { intros p id entry Hx. rewrite <-E3 in Hx. destruct (decide (p < at_ c)%nat); [by apply (T1 c p _ eq_refl ltac:(done) Hx)|].
    destruct (more_None c s2 p _ Hm ltac:(lia) Hx); [left; by right|by right]. }
  assert (Hun : ∀ p entry, unread p entry → (p < oldest s1)%nat ∨ ∃ last id, query c = Some last ∧ updatelog s1 !! p = Some (id, entry) ∧ id ≤ last).
  { intros p entry (_ & Hr & id & Hx). destruct (Hall p id entry Hx) as [[?|?]|Hb]; [done|left; by rewrite <-E4|right].
    unfold behind in Hb. destruct (query c) as [last|]; [|done]. apply bool_decide_eq_false in Hb. exists last, id. split_and!; [done..|lia]. }
  split; [by split_and!|]. split; [|split].
  - intros uid H1 H2. rewrite <-E1. destruct (users_fresh s2 Hs2 ltac:(by rewrite Hp2) uid) as [?|Hx]; [done|]. by apply Hne in Hx.
  - intros gid H1 H2. rewrite <-E2. destruct (groups_fresh s2 Hs2 ltac:(by rewrite Hp2) gid) as [?|Hx]; [done|]. by apply Hne in Hx.
  - exists r, c. split_and!; [done..|]. intros Hi p entry Hpe. destruct (Hun p entry Hpe) as [?|(last & id & Hq & Hx & Hle)]; [by left|].
    destruct (T4 c last eq_refl Hq) as (q & [iq eq] & Hlq & Hid & Hdealt); [by rewrite E3|]. cbn in Hid. subst iq.
    destruct (decide (p < opened s1)%nat); [by right|left]. assert (p ≤ q)%nat as Hpq.
    { destruct (decide (q < p)%nat) as [Hlt|]; [|lia]. rewrite E3 in Hlq. specialize (Hi q p _ _ Hlt Hlq Hx). cbn in Hi. lia. }
    destruct Hpe as (_ & Hr & _). rewrite E7 in Hdealt. destruct (Hdealt p ltac:(lia)) as [?|Ho']; [done|by rewrite <-E4].
Qed.

Module Example.

Definition joe : UserCache.UserRow := {| UserCache.row_uid := 7; UserCache.row_name := lit "joe"; UserCache.row_primaryGid := 1; UserCache.row_ipMasks := [] |}.
Definition ann : UserCache.UserRow := {| UserCache.row_uid := 8; UserCache.row_name := lit "ann"; UserCache.row_primaryGid := 1; UserCache.row_ipMasks := [] |}.
Definition start : State := MkState ∅ ∅ [] 0 [] UserCache.empty (GroupCache.Populate []) Disconnected 0 0 [].

(** A user who is written after the end of the log was found *)
Definition after : list event := [Connect true; OpenTail; ChangeUser 7 (Some joe); WriteLog 0 1].

(** One who is written, and logged, just before *)
Definition between : list event := [Connect true; ChangeUser 7 (Some joe); WriteLog 0 1; OpenTail].

(** Two, of whom the second is logged with the smaller id, by another server; the
    cursor is dead after the first. *)
Definition two_servers : list event :=
  [Connect true; OpenTail; ChangeUser 7 (Some joe); WriteLog 0 5; Round true; Dead;
   ChangeUser 8 (Some ann); WriteLog 0 3].

Lemma orderly_after : Forall orderly after.
Proof. unfold after. repeat constructor. by intros r [= <-]. Qed.

End Example.

(** The caches are loaded before the end of the log is looked for: what is written in
    between is never read, although nothing is missing from the log. *)
Example update_lost :
  let s := rounds 3 (run Example.between Example.start) in
  (read s, map snd (updatelog s), unlogged s, UserCache.NameToUID (users s) (lit "joe"), UserCache.row_name <$> users_db s !! 7) =
  ([], [(lit "users", 7)], [], -1, Some (lit "joe")).
Proof. vm_compute. reflexivity. Qed.

(** An entry with a smaller id than the last one seen is never read. *)
Example entry_passed :
  let s := rounds 3 (run Example.two_servers Example.start) in
  (read s, updatelog s, UserCache.NameToUID (users s) (lit "joe"), UserCache.NameToUID (users s) (lit "ann")) =
  ([0%nat], [(5, (lit "users", 7)); (3, (lit "users", 8))], 7, -1).
Proof. vm_compute. reflexivity. Qed.

Lemma caches_catch_up_witness :
  let s1 := run Example.after Example.start in
  cached (users s1) 7 = None ∧ cached (users (rounds 2 s1)) 7 = Some (row_data Example.joe).
Proof.
  split; [vm_compute; reflexivity|].
  destruct (caches_catch_up Example.after Example.start {| lastOID := None; cursor := None |}) as (_ & Hu & _).
  - exact keyed_empty.
  - exact keyed_empty.
  - apply Nat.le_refl.
  - reflexivity.
  - exact Example.orderly_after.
  - vm_compute. reflexivity.
  - apply (Hu 7); [exact (not_elem_of_nil _)|]. intros p (_ & Hr & id & Hp). apply Hr.
    destruct p as [|p]; [|vm_compute in Hp; destruct p; discriminate]. vm_compute. by left.
Defined.
