(* ===== verification/XDupe.v ===== *)
(** * The lists of files that exist: ftp/xdupe.cpp

    When an upload is refused the reply can name the files that are there already.
    The four modes pack the names into lines of bounded length. *)

From stdpp Require Import prelude gmap strings.
From S2P Require Import Prelude CxxString State Numbers Path VirtualPath Acl UserData User Mode Kernel Rights Files SiteState.
Local Open Scope Z_scope.
Local Open Scope list_scope.
Local Open Scope st_scope.

Definition mark : str := lit " X-DUPE: ".
Definition dupe_line (s : str) : str := mark ++ s ++ [LF].

(** [MessageOne]: [line] is what follows the mark in the line that is open, and [len]
    its length as the code counts it. *)
Fixpoint MessageOne_loop (dupes : list str) (reply line : str) (len : nat) : str :=
  match dupes with
  | [] => if (0 <? len)%nat then reply ++ dupe_line line else reply
  | dupe :: dupes =>
      if (67 <? length dupe)%nat then
        let reply := if (0 <? len)%nat then reply ++ dupe_line line else reply in
        MessageOne_loop dupes (reply ++ dupe_line (take 67 dupe)) [] 0
      else
        let full := (67 <? len + length dupe + (if (0 <? len)%nat then 1 else 0))%nat in
        let reply := if full then reply ++ dupe_line line else reply in
        let line := if full then [] else line in
        let len := if full then 0%nat else len in
        let space := (0 <? len)%nat in
        MessageOne_loop dupes reply (line ++ (if space then lit " " else []) ++ dupe) (len + (if space then 1 else 0) + length dupe)%nat
  end.

Definition MessageOne (dupes : list str) : str := MessageOne_loop dupes [] [] 0.

Definition MessageTwo (dupes : list str) : str := concat (map (λ dupe, dupe_line (take 75 dupe)) dupes).

Definition MessageThree (dupes : list str) : str := concat (map dupe_line dupes).

(** [MessageFour]: it starts with a length of 8, although the mark has nine characters,
    and stops at the first name that does not fit. *)
Fixpoint MessageFour_loop (dupes : list str) (reply : str) (len : nat) : str :=
  match dupes with
  | [] => reply
  | dupe :: dupes =>
      let space := negb (len =? 8)%nat in
      if (1016 <? len + length dupe + (if space then 1 else 0))%nat then reply
      else MessageFour_loop dupes (reply ++ (if space then lit " " else []) ++ dupe) (len + (if space then 1 else 0) + length dupe)%nat
  end.

Definition MessageFour (dupes : list str) : str :=
  let s := MessageFour_loop dupes mark 8 in
  if (length s =? 8)%nat then [] else s ++ [LF].

Inductive Mode : Type := Disabled | One | Two | Three | Four.

Definition modeFunctions (m : Mode) : option (list str → str) :=
  match m with Disabled => None | One => Some MessageOne | Two => Some MessageTwo | Three => Some MessageThree | Four => Some MessageFour end.

(** [static_cast<unsigned>(mode)] and back *)
Definition Mode_of (n : Z) : option Mode :=
  match n with 0 => Some Disabled | 1 => Some One | 2 => Some Two | 3 => Some Three | 4 => Some Four | _ => None end.
Definition Mode_number (m : Mode) : Z := match m with Disabled => 0 | One => 1 | Two => 2 | Three => 3 | Four => 4 end.

(** ** Which files *)

Section dupes.
Context `{Fnmatch, ReplaceAll, CaseConv}.
Context (K : Kernel) (GIDToName : Z → str) (uninit : Z) (sitepath : str) (Xdupe : list str).

Definition IsXdupe (path : str) : bool := existsb (λ mask, WildcardMatch mask path false) Xdupe.

(** The names that a loop over a DirContainer visits; the iterator of Files.v *)
Fixpoint visited (user : UserData) (dir : str) (check : bool) (l : list str) : M (list str) :=
  match l with
  | [] => st_ret []
  | x :: l =>
      h <- (if check then hidden_entry K GIDToName uninit sitepath user (Join dir x) else st_ret false);;
      rest <- visited user dir true l;;
      st_ret (if h : bool then rest else x :: rest)
  end.

Definition DirContainer (user : UserData) (path : str) : M (list str) :=
  r <- make_real K sitepath path;;
  h <- hidden_entry K GIDToName uninit sitepath user r;;
  if h : bool then st_throw (SystemError ENOENT)
  else
    l <- opendir K r;; skip_hidden K GIDToName uninit sitepath user (MakeReal_virtual sitepath path) l;;;
    l <- opendir K r;; visited user (MakeReal_virtual sitepath path) false l.

(** The errors of the system that are caught come before the first name. *)
Definition BuildDupeList (user : UserData) (path : str) : M (list str) :=
  st_catch (names <- DirContainer user (Dirname path);; st_ret (filter (λ n, IsXdupe n = true) names))
    (λ e, match e with SystemError _ => Some (st_ret []) | _ => None end).

Definition Message (user : UserData) (mode : Mode) (path : str) : M str :=
  match modeFunctions mode with
  | None => st_ret []
  | Some f => dupes <- BuildDupeList user path;; st_ret (f dupes)
  end.

End dupes.

(** ** The lines *)

Abbreviation words := (join " "%char).


Lemma join_length_0 ts : Forall (.≠ []) ts → length (words ts) = 0%nat → ts = [].
Proof.
  intros Hts Hl. destruct ts as [|t [|u ts]]; [done| |]; apply Forall_cons in Hts as [Ht _].
  - cbn in Hl. apply length_zero_iff_nil in Hl. by subst t.
  - rewrite join_cons in Hl by done. rewrite length_app in Hl. cbn in Hl. lia.
Qed.

(** Lines of the mode One: at least a name each, and at most 67 bytes *)
Definition packed (lines : list (list str)) : Prop := Forall (λ ws, ws ≠ [] ∧ (length (words ws) ≤ 67)%nat) lines.
Definition shown (lines : list (list str)) : str := concat (map (λ ws, dupe_line (words ws)) lines).

Lemma shown_app l1 l2 : shown (l1 ++ l2) = shown l1 ++ shown l2.
Proof. unfold shown. by rewrite map_app, concat_app. Qed.

Lemma shown_cons ws l : shown (ws :: l) = dupe_line (words ws) ++ shown l.
Proof. done. Qed.

Lemma MessageOne_loop_spec dupes reply ws : Forall (.≠ []) dupes → Forall (.≠ []) ws → (length (words ws) ≤ 67)%nat →
  ∃ lines, MessageOne_loop dupes reply (words ws) (length (words ws)) = reply ++ shown lines ∧
    concat lines = ws ++ map (take 67) dupes ∧ packed lines.
Proof.
  revert reply ws. induction dupes as [|dupe dupes IH]; intros reply ws Hd Hws Hl; cbn [MessageOne_loop map].
  { destruct (0 <? length (words ws))%nat eqn:E; [apply Nat.ltb_lt in E|apply Nat.ltb_ge in E].
    - exists [ws]. cbn. rewrite !app_nil_r. split_and!; [done..|]. apply Forall_singleton. split; [|done]. intros ->. cbn in E. lia.
    - exists []. rewrite (join_length_0 ws Hws) by lia. cbn. rewrite app_nil_r. split_and!; [done..|constructor]. }
  apply Forall_cons in Hd as [Hne Hd].
  assert (∀ r, ∃ lines, (if (0 <? length (words ws))%nat then r ++ dupe_line (words ws) else r) = r ++ shown lines ∧ concat lines = ws ∧ packed lines) as Hflush.
  { intros r. destruct (0 <? length (words ws))%nat eqn:E; [apply Nat.ltb_lt in E|apply Nat.ltb_ge in E].
    - exists [ws]. cbn. rewrite !app_nil_r. split_and!; [done..|]. apply Forall_singleton. split; [|done]. intros ->. cbn in E. lia.
    - exists []. rewrite (join_length_0 ws Hws) by lia. cbn. rewrite app_nil_r. split_and!; [done..|constructor]. }
  destruct (67 <? length dupe)%nat eqn:E67.
  { apply Nat.ltb_lt in E67. destruct (Hflush reply) as (l1 & -> & Hc1 & Hp1).
    destruct (IH ((reply ++ shown l1) ++ dupe_line (take 67 dupe)) [] Hd (Forall_nil_2 _) ltac:(cbn; lia)) as (l2 & E2 & Hc2 & Hp2).
    change (words []) with (@nil ascii) in E2. change (length (@nil ascii)) with 0%nat in E2. rewrite E2.
    exists (l1 ++ [take 67 dupe] :: l2). split_and!.
    - rewrite shown_app, shown_cons, <-!app_assoc. done.
    - rewrite concat_app. cbn. by rewrite Hc1, Hc2.
    - apply Forall_app. split; [exact Hp1|]. apply Forall_cons. split; [|exact Hp2]. split; [done|]. change (words [take 67 dupe]) with (take 67 dupe). rewrite length_take. lia. }
  apply Nat.ltb_ge in E67. rewrite (take_ge dupe) by lia.
  destruct (67 <? length (words ws) + length dupe + (if (0 <? length (words ws))%nat then 1 else 0))%nat eqn:Efull.
  - (* the open line is full *)
    apply Nat.ltb_lt in Efull. assert (0 < length (words ws))%nat as Hpos by (destruct (0 <? length (words ws))%nat eqn:E; [by apply Nat.ltb_lt|apply Nat.ltb_ge in E; lia]).
    assert (ws ≠ []) as Hws0 by (intros ->; cbn in Hpos; lia).
    destruct (IH (reply ++ dupe_line (words ws)) [dupe] Hd ltac:(by apply Forall_singleton) ltac:(cbn; lia)) as (l & E & Hc & Hp).
    exists (ws :: l). split_and!.
    + rewrite <-app_assoc in E. rewrite shown_cons. exact E.
    + cbn. by rewrite Hc.
    + by apply Forall_cons.
  - apply Nat.ltb_ge in Efull. destruct (0 <? length (words ws))%nat eqn:E; [apply Nat.ltb_lt in E|apply Nat.ltb_ge in E].
    + assert (ws ≠ []) as Hws0 by (intros ->; cbn in E; lia).
      assert (words ws ++ lit " " ++ dupe = words (ws ++ [dupe])) as E1 by (by rewrite join_snoc).
      destruct (IH reply (ws ++ [dupe]) Hd) as (l & E2 & Hc & Hp).
      * apply Forall_app. split; [done|]. by apply Forall_singleton.
      * rewrite <-E1, length_app. cbn. lia.
      * exists l. rewrite E1. replace (length (words ws) + 1 + length dupe)%nat with (length (words (ws ++ [dupe])))
          by (rewrite <-E1, length_app; cbn; lia). rewrite E2. split_and!; [done| |done]. rewrite Hc. by rewrite <-app_assoc.
    + rewrite (join_length_0 ws Hws) by lia. destruct (IH reply [dupe] Hd ltac:(by apply Forall_singleton) ltac:(cbn; lia)) as (l & E2 & Hc & Hp).
      exists l. split_and!; [exact E2|exact Hc|exact Hp].
Qed.

Theorem MessageOne_packs dupes : Forall (.≠ []) dupes →
  ∃ lines, MessageOne dupes = shown lines ∧ concat lines = map (take 67) dupes ∧ packed lines.
Proof. intros Hd. apply (MessageOne_loop_spec dupes [] [] Hd); [constructor|cbn; lia]. Qed.

(** The mode Four shows as many names as fit, in one line. *)
Lemma MessageFour_loop_spec dupes ws : Forall (.≠ []) dupes → Forall (.≠ []) ws → (length (words ws) ≤ 1008)%nat →
  ∃ k, MessageFour_loop dupes (mark ++ words ws) (8 + length (words ws)) = mark ++ words (ws ++ take k dupes) ∧
    (length (words (ws ++ take k dupes)) ≤ 1008)%nat ∧
    (k = length dupes ∨ (k < length dupes)%nat ∧ (1008 < length (words (ws ++ take (S k) dupes)))%nat).
Proof.
  revert ws. induction dupes as [|dupe dupes IH]; intros ws Hd Hws Hl; cbn [MessageFour_loop].
  { exists 0%nat. cbn. rewrite app_nil_r. auto. }
  apply Forall_cons in Hd as [Hne Hd].
  assert (words (ws ++ [dupe]) = words ws ++ (if negb (8 + length (words ws) =? 8)%nat then lit " " else []) ++ dupe) as E1.
  { destruct (8 + length (words ws) =? 8)%nat eqn:E; [apply Nat.eqb_eq in E|apply Nat.eqb_neq in E].
    - by rewrite (join_length_0 ws Hws) by lia.
    - assert (ws ≠ []) by (intros ->; cbn in E; lia). by rewrite join_snoc. }
  assert (length (words (ws ++ [dupe])) = length (words ws) + (if negb (8 + length (words ws) =? 8)%nat then 1 else 0) + length dupe)%nat as El.
  { rewrite E1, !length_app. destruct (negb _); cbn; lia. }
  destruct (1016 <? 8 + length (words ws) + length dupe + _)%nat eqn:E; [apply Nat.ltb_lt in E|apply Nat.ltb_ge in E].
  - exists 0%nat. change (take 0 (dupe :: dupes)) with (@nil str). rewrite app_nil_r. split_and!; [done|lia|right]. change (take 1 (dupe :: dupes)) with [dupe]. split; [cbn; lia|]. rewrite El. lia.
  - destruct (IH (ws ++ [dupe]) Hd) as (k & E2 & Hk & Hor).
    + apply Forall_app. split; [done|]. by apply Forall_singleton.
    + lia.
    + exists (S k). change (take (S k) (dupe :: dupes)) with (dupe :: take k dupes). change (take (S (S k)) (dupe :: dupes)) with (dupe :: take (S k) dupes). rewrite <-(app_assoc mark), <-E1.
      replace (8 + length (words ws) + _ + length dupe)%nat with (8 + length (words (ws ++ [dupe])))%nat by lia.
      rewrite E2, <-!app_assoc. cbn [app length] in *. rewrite <-!app_assoc in Hk, Hor. cbn [app] in Hk, Hor.
      split_and!; [done|done|]. destruct Hor as [->|[? ?]]; [by left|right; split; [lia|done]].
Qed.

Theorem MessageFour_fits dupes : Forall (.≠ []) dupes →
  ∃ k, MessageFour dupes = dupe_line (words (take k dupes)) ∧ (length (words (take k dupes)) ≤ 1008)%nat ∧
    (k = length dupes ∨ (k < length dupes)%nat ∧ (1008 < length (words (take (S k) dupes)))%nat).
Proof.
  intros Hd. destruct (MessageFour_loop_spec dupes [] Hd (Forall_nil_2 _)) as (k & E & Hk & Hor); [cbn; lia|].
  exists k. split_and!; [|done|done]. unfold MessageFour.
  change (MessageFour_loop dupes mark 8) with (MessageFour_loop dupes (mark ++ words []) (8 + length (words []))).
  rewrite E. unfold dupe_line. rewrite length_app. change (length mark) with 9%nat. cbn [Nat.add Nat.eqb]. by rewrite <-app_assoc.
Qed.

(** The text before the names has nine characters, the code counts eight: without a
    name the line is sent all the same. *)
Lemma MessageFour_empty : MessageFour [] = dupe_line [].
Proof. reflexivity. Qed.

(** ** SITE XDUPE: the mode of the session *)

Definition XDUPECommand (args : list str) : ST (Mode * list reply_line) exit unit := λ '(m, out),
  match args with
  | [_] =>
      (Ok tt, (m, out ++ [Reply CommandOkay (match m with Disabled => lit "Extended dupe mode is disabled."
                                             | _ => lit "Extended dupe mode " ++ to_string (Mode_number m) ++ lit " is enabled." end)]))
  | _ =>
      match args !! 1%nat with
      | None => (Throw OutOfRange, (m, out))
      | Some a =>
          match StrToInt a with
          | None => (Throw SyntaxError_, (m, out))
          | Some mode =>
              if (mode <? 0) || (4 <? mode) then (Throw SyntaxError_, (m, out))
              else match Mode_of mode with
                   | Some m' => (Ok tt, (m', out ++ [Reply CommandOkay (lit "Activated extended dupe mode " ++ to_string mode ++ lit ".")]))
                   | None => (Ok tt, (m, out))
                   end
          end
      end
  end.

Lemma Mode_of_number m : Mode_of (Mode_number m) = Some m.
Proof. by destruct m. Qed.

Lemma Mode_of_checked n : (n <? 0) || (4 <? n) = false → ∃ m, Mode_of n = Some m ∧ Mode_number m = n.
Proof.
  intros Hn. apply orb_false_iff in Hn as [H0 H4]. apply Z.ltb_ge in H0, H4.
  assert (n = 0 ∨ n = 1 ∨ n = 2 ∨ n = 3 ∨ n = 4) as Hc by lia.
  destruct Hc as [->|[->|[->|[->| ->]]]]; eexists; done.
Qed.

(** Setting a mode and asking for it *)
Theorem XDUPE_sets cmd m m0 out :
  ∃ out', XDUPECommand [cmd; to_string (Mode_number m)] (m0, out) = (Ok tt, (m, out')).
Proof. destruct m; eexists; vm_compute; reflexivity. Qed.
