(* ===== verification/Mail.v ===== *)
(** * Mail between users: db/mail/mail.cpp, db/mail/message.hpp, cmd/site/msg.cpp

    The messages are a collection of the database of Connection.v.  SITE MSG sends,
    shows, saves and purges them, and the end of a session purges the trash of the
    user it is about (ftp/clientimpl.cpp, Run). *)

From stdpp Require Import prelude gmap strings sorting.
From S2P Require Import Prelude CxxString State Numbers Strings Acl Strength Template Messages Listing Group Transaction UserData User Rights Policies Connection Accounts Memory SiteState.
Local Open Scope Z_scope.
Local Open Scope list_scope.
Local Open Scope st_scope.

(** ** Messages *)

Inductive Status : Type := Unread | Trash | Saved.

#[global] Instance Status_eq_dec : EqDecision Status.
Proof. solve_decision. Defined.

Definition Status_string (s : Status) : str :=
  match s with Unread => lit "unread" | Trash => lit "trash" | Saved => lit "saved" end.

Record Message := MkMessage { oid : Z; sender : str; recipient : Z; body : str; timeSent : Z; status : Status }.

Definition set_status (s : Status) (m : Message) : Message :=
  MkMessage (oid m) (sender m) (recipient m) (body m) (timeSent m) s.

(** The collection has no unique index but that of the identity. *)
#[global] Instance Message_document : Document Message :=
  {| doc_id := oid; doc_name m := to_string (oid m);
     with_id i m := MkMessage i (sender m) (recipient m) (body m) (timeSent m) (status m) |}.

(** ** db/mail/mail.cpp *)

Section database.
Context {W : Type} `{Mongo W, !Collection W Message}.

Abbreviation D_ := (ST (Db W) DBThrow).

Definition to_user (uid : Z) (m : Message) : bool := recipient m =? uid.
Definition in_trash (uid : Z) (m : Message) : bool := (recipient m =? uid) && bool_decide (status m = Trash).
Definition with_oid (i : Z) (m : Message) : bool := oid m =? i.

Definition Send (message : Message) : D_ unit := conn <- Create NoError;; Insert conn message.

Definition Get (uid : Z) : D_ (list Message) := conn <- Create NoError;; QueryMulti conn (to_user uid).

Definition IndexToOID (uid index : Z) : D_ (option Z) :=
  conn <- Create NoError;; results <- Query conn (to_user uid) 1 index;; st_ret (oid <$> head results).

Definition Save (uid index : Z) : D_ bool :=
  o <- IndexToOID uid index;;
  match o with
  | None => st_ret false
  | Some i => conn <- Create NoError;; n <- Update conn (with_oid i) (set_status Saved);; st_ret (0 <? n)
  end.

Definition SaveTrash (uid : Z) : D_ Z := conn <- Create NoError;; Update conn (in_trash uid) (set_status Saved).

Definition Purge (uid index : Z) : D_ bool :=
  o <- IndexToOID uid index;;
  match o with
  | None => st_ret false
  | Some i => conn <- Create NoError;; n <- Remove conn (with_oid i);; st_ret (0 <? n)
  end.

Definition PurgeTrash (uid : Z) : D_ Z := conn <- Create NoError;; Remove conn (in_trash uid).

Definition LogOffPurgeTrash (uid : Z) : D_ unit := PurgeTrash uid;;; st_ret tt.

Definition Trash_ (message : Message) : D_ unit :=
  conn <- Create NoError;; Update conn (with_oid (oid message)) (set_status Trash);;; st_ret tt.

End database.

(** ** cmd/site/msg.cpp *)

Section commands.
Context {W : Type} `{Mongo W, !Collection W UserData, !Collection W GroupData, !Collection W Message}.
Context `{Split, Trim, CaseConv, Fnmatch, RegexMatch, Format, TitleCase, ReplaceFirst, TrimIf}.
Context (ca : Caches).
(** std::sort by the id; the identity the driver gives a document; how a time is
    shown by a stream and by to_simple_string; the clock; the templates *)
Context (sort_ids : list UserData → list UserData) (genOID : Db W → Z) (show_time to_simple_string : Z → str) (now : Z)
  (templates : option (gmap str Template)).

Abbreviation C := (ST (Site W) exit).
Implicit Types (args : list str) (m : Message).

(** [util::WordWrap(body, 70)] until nothing is left *)
Definition wrapped (s : str) : list str := default [] (wrap_loop (length s) s 70).

Definition bar (s : str) : C unit := part_reply CommandOkay s.

Definition head_line (index : Z) m : str :=
  let n := to_string index in
  lit "| " ++ (replicate (2 - length n) "0"%char ++ n) ++ lit " | Sender: " ++ pad_left 10 (take 10 (sender m)) ++
  lit " | When: " ++ pad_left 38 (take 38 (show_time (timeSent m))) ++ lit " | ".

Fixpoint Read_loop (index : Z) (mail : list Message) : C unit :=
  match mail with
  | [] => st_ret tt
  | m :: mail =>
      (if 0 <? index then bar (lit "+----.--------------------.----------------------------------------------+") else st_ret tt);;;
      bar (head_line (index + 1) m);;;
      bar (lit "+----`--------------------`----------------------------------------------+");;;
      st_iter (λ l, bar (lit "| " ++ pad_left 70 l ++ lit " |")) (wrapped (body m));;;
      (if decide (status m = Unread) then in_db (Trash_ m) else st_ret tt);;;
      Read_loop (index + 1) mail
  end.

Definition Read_mail (mail : list Message) : C unit :=
  bar (lit ".----.--------------------.----------------------------------------------.");;;
  Read_loop 0 mail;;;
  bar (lit "`------------------------------------------------------------------------'").

Definition Read args : C unit :=
  if (3 <? length args)%nat then st_throw SyntaxError_
  else
    index <- (match args !! 2%nat with
              | None => st_ret (Some (-1))
              | Some a =>
                  match StrToInt a with
                  | None => st_throw SyntaxError_
                  | Some n => if n <? 1 then refuse (lit "Index must be 1 or larger.");;; st_ret None else st_ret (Some n)
                  end
              end);;
    match index with
    | None => st_ret tt
    | Some index =>
        u <- st_gets self;;
        mail <- in_db (Get (id u));;
        match mail with
        | [] => reply CommandOkay (lit "Your mail box is empty.")
        | _ =>
            if negb (index =? -1) then
              if Z.of_nat (length mail) <? index then
                a <- arg args 2;; refuse (lit "No message with index " ++ a ++ lit ".")
              else
                Read_mail (take 1 (drop (Z.to_nat (index - 1)) mail));;;
                reply CommandOkay (lit "End of message.")
            else
              match filter (λ m, status m = Unread) mail with
              | [] => reply CommandOkay (lit "No unread mail to read.")
              | mail =>
                  Read_mail mail;;;
                  reply CommandOkay (lit "Messages moved to the trash." ++ [LF] ++ lit "Trash will be purged at disconnect if not saved.")
              end
        end
    end.

(** [std::unique] by the id *)
Fixpoint unique_ids (last : option Z) (l : list UserData) : list UserData :=
  match l with
  | [] => []
  | u :: l => if decide (last = Some (id u)) then unique_ids last l else u :: unique_ids (Some (id u)) l
  end.

Fixpoint GetUsers_all (recipients : list str) : C (list UserData) :=
  match recipients with
  | [] => st_ret []
  | r :: recipients => tempUsers <- in_db (GetUsers ca r);; users <- GetUsers_all recipients;; st_ret (tempUsers ++ users)
  end.

Definition require (keyword : str) : C unit :=
  a <- SiteState.allow ca keyword;; if a : bool then st_ret tt else st_throw PermissionError.

(** A name that has neither an equals sign nor a hyphen before it gets a hyphen. *)
Definition marked_recipient (r : str) : str :=
  if decide (char_at r 0 = "="%char) then r else if decide (char_at r 0 ≠ "-"%char) then "-"%char :: r else r.

Definition recipients_of (to : str) : C (list str) :=
  let to := trim to in
  if decide (to = lit "*") then st_ret []
  else
    let recipients := Split_ (trim to) (lit " ") true in
    (if (1 <? length recipients)%nat then require (lit "msg{") else st_ret tt);;;
    (if existsb (λ r, bool_decide (char_at r 0 = "="%char)) recipients then require (lit "msg=") else st_ret tt);;;
    st_ret (map marked_recipient recipients).

Fixpoint Send_loop (text : str) (users : list UserData) (sentCount : Z) : C Z :=
  match users with
  | [] => st_ret sentCount
  | user :: users =>
      me <- st_gets self;;
      if HasFlag user Deleted || (id user =? id me) then Send_loop text users sentCount
      else
        in_db (λ d, Send (MkMessage (genOID d) (name me) (id user) text now Unread) d);;;
        Send_loop text users (sentCount + 1)
  end.

Definition Send_mail args : C unit :=
  if (length args <? 4)%nat then st_throw SyntaxError_
  else
    to <- arg args 2;;
    recipients <- recipients_of to;;
    let text := Join_ (drop 3 args) (lit " ") in
    users <- (match recipients with
              | [] => require (lit "msg*");;; in_db (GetUsers ca (lit "*"))
              | _ => users <- GetUsers_all recipients;; st_ret (unique_ids None (sort_ids users))
              end);;
    sentCount <- Send_loop text users 0;;
    reply CommandOkay (lit "Message sent to " ++ to_string sentCount ++ lit " user(s).").

Definition SaveTrash_mail : C unit :=
  u <- st_gets self;; saved <- in_db (SaveTrash (id u));;
  reply CommandOkay (to_string saved ++ lit " message(s) saved from your trash.").

(** [index - 1]: the least [int] wraps around. *)
Definition before (index : Z) : Z := if index =? INT_MIN then INT_MAX else index - 1.

Definition Save_mail args : C unit :=
  if (length args =? 2)%nat then SaveTrash_mail
  else if (3 <? length args)%nat then st_throw SyntaxError_
  else
    a <- arg args 2;;
    match StrToInt a with
    | None => st_throw SyntaxError_
    | Some index =>
        u <- st_gets self;; purged <- in_db (Save (id u) (before index));;
        if negb purged then refuse (lit "Failed to saved message with index " ++ a ++ lit ".")
        else reply CommandOkay (lit "Message " ++ a ++ lit " saved.")
    end.

Definition PurgeTrash_mail : C unit :=
  u <- st_gets self;; purged <- in_db (PurgeTrash (id u));;
  reply CommandOkay (to_string purged ++ lit " message(s) purged from your trash.").

Definition Purge_mail args : C unit :=
  if (length args =? 2)%nat then PurgeTrash_mail
  else if (3 <? length args)%nat then st_throw SyntaxError_
  else
    a <- arg args 2;;
    match StrToInt a with
    | None => st_throw SyntaxError_
    | Some index =>
        u <- st_gets self;; purged <- in_db (Purge (id u) (before index));;
        if negb purged then refuse (lit "Failed to purge message with index " ++ a ++ lit ".")
        else reply CommandOkay (lit "Message " ++ a ++ lit " purged.")
    end.

Definition mail_values (index : Z) m (s : TemplateSection) : TemplateSection :=
  let s := RegisterValue_int (lit "index") index s in
  let s := RegisterValue (lit "sender") (sender m) s in
  let s := RegisterValue (lit "status") (to_upper (Status_string (status m))) s in
  let s := RegisterValue (lit "when") (to_simple_string (timeSent m)) s in
  RegisterValue (lit "body") (body m) s.

Fixpoint List_loop (mail : list Message) (os : str) (s : TemplateSection) (index : Z) : str :=
  match mail with
  | [] => os
  | m :: mail => let s := mail_values (index + 1) m s in List_loop mail (os ++ Compile None s) s (index + 1)
  end.

Definition total_with (mail : list Message) (s : Status) : Z := Z.of_nat (length (filter (λ m, status m = s) mail)).

Definition List_mail args : C unit :=
  if negb (length args =? 2)%nat then st_throw SyntaxError_
  else
    u <- st_gets self;;
    mail <- in_db (Get (id u));;
    match mail with
    | [] => reply CommandOkay (lit "Your mail box is empty.")
    | _ =>
        match GetTemplate (lit "msg.list") templates with
        | Throw (TemplateError message) => refuse message
        | Throw _ => refuse []
        | Ok templ =>
            let os := List_loop mail (Compile None (Head templ)) (Body templ) 0 in
            let foot := RegisterValue_int (lit "total") (Z.of_nat (length mail)) (Foot templ) in
            let foot := RegisterValue_int (lit "total_unread") (total_with mail Unread) foot in
            let foot := RegisterValue_int (lit "total_trash") (total_with mail Trash) foot in
            let foot := RegisterValue_int (lit "total_saved") (total_with mail Saved) foot in
            reply CommandOkay (os ++ Compile None foot)
        end
    end.

Definition MSGCommand args : C unit :=
  a <- arg args 1;;
  let cmd := to_lower a in
  if decide (cmd = lit "read") then Read args
  else if decide (cmd = lit "send") then Send_mail args
  else if decide (cmd = lit "save") then Save_mail args
  else if decide (cmd = lit "purge") then Purge_mail args
  else if decide (cmd = lit "list") then List_mail args
  else st_throw SyntaxError_.

End commands.

(** ** What a command may do to the messages *)

Definition marked (s : Status) (x y : Message) : Prop := y = set_status s x.

(** What the command [args] of the user [u] may make of a message: nothing else happens
    to it than that its recipient reads, saves or purges it, and no message appears but
    one that is unread, from the user, for somebody else. *)
Definition allowed (u : UserData) (accounts : gmap Z UserData) (args : list str) (cmd : str) (old new : option Message) : Prop :=
  match old, new with
  | Some x, Some y =>
      y = x ∨ recipient x = id u ∧
        (cmd = lit "read" ∧ status x = Unread ∧ y = set_status Trash x ∨ cmd = lit "save" ∧ y = set_status Saved x)
  | Some x, None => recipient x = id u ∧ cmd = lit "purge" ∧ (status x = Trash ∨ length args = 3%nat)
  | None, Some y =>
      cmd = lit "send" ∧ sender y = name u ∧ status y = Unread ∧ recipient y ≠ id u ∧
        ∃ x, accounts !! recipient y = Some x ∧ HasFlag x Deleted = false
  | None, None => True
  end.

Section effects.
Context {W : Type} `{Mongo W, !Collection W UserData, !Collection W GroupData, !Collection W Message}.

Definition mails_in (w : W) : gmap Z Message := contents w.
Definition accounts_in (w : W) : gmap Z UserData * gmap Z GroupData := (users_in w, groups_in w).
Definition beside_users (w : W) : gmap Z GroupData * gmap Z Message := (groups_in w, mails_in w).

Context `{!CollectionOk W Message accounts_in, !CollectionOk W UserData beside_users, !MongoOk W (λ w, (mails_in w, accounts_in w))}.

Definition mails (s : Db W) : gmap Z Message := mails_in (server s).
Definition accounts (s : Db W) : gmap Z UserData * gmap Z GroupData := accounts_in (server s).

#[local] Instance mails_first : MongoOk W (λ w, (contents (D := Message) w, accounts_in w)).
Proof. assumption. Qed.

#[local] Instance users_before : MongoOk W (λ w, (contents (D := UserData) w, beside_users w)).
Proof.
  split.
  - intros w. pose proof (connect_keeps (all := λ w, (mails_in w, accounts_in w)) w) as E. unfold beside_users, accounts_in, users_in, groups_in, mails_in in *. congruence.
  - intros c i w. pose proof (log_keeps (all := λ w, (mails_in w, accounts_in w)) c i w) as E. unfold beside_users, accounts_in, users_in, groups_in, mails_in in *. congruence.
Qed.

Abbreviation D_ := (ST (Db W) DBThrow).
Implicit Types (s : Db W) (m : Message).

Definition seen s : gmap Z Message * (gmap Z UserData * gmap Z GroupData) := (mails s, accounts s).

Lemma seen_parts s s' : seen s' = seen s → mails s' = mails s ∧ accounts s' = accounts s.
Proof. intros E. split; [exact (f_equal fst E)|exact (f_equal snd E)]. Qed.

Lemma Create_seen c : st_keeps seen (Create c).
Proof. intros s. apply (Create_reads (D := Message) accounts_in c s). Qed.

(** A command that only asks, after opening a connection *)
Lemma after_Create {A} c (k : Connection → D_ A) s (Q : result DBThrow A → Db W → Prop) :
  (∀ conn s1, seen s1 = seen s → st_holds (k conn) s1 Q) → (∀ e s1, seen s1 = seen s → Q (Throw e) s1) → st_holds (conn <- Create c;; k conn) s Q.
Proof.
  intros Hk He. apply st_holds_bind. unfold st_holds at 1. pose proof (Create_seen c s) as Hs.
  destruct (Create c s) as [[conn|e] s1]; cbn [fst snd] in *; [by apply Hk|by apply He].
Qed.

Lemma Get_holds uid s : st_holds (Get uid) s (λ r s', seen s' = seen s ∧
  ∀ l m, r = Ok l → m ∈ l → mails s !! oid m = Some m ∧ recipient m = uid).
Proof.
  apply after_Create; [|by intros e s1 E]. intros conn s1 E.
  eapply st_holds_conseq; [apply (QueryMulti_holds accounts_in)|]. intros r s' [Hv Hf].
  split; [by rewrite <-E|]. intros l m -> Hm. destruct (Hf l eq_refl m Hm) as [Hd Hq]. injection E as <- _. split; [exact Hd|]. by apply Z.eqb_eq in Hq.
Qed.

Lemma IndexToOID_holds uid index s : st_holds (IndexToOID uid index) s (λ r s', seen s' = seen s ∧
  ∀ i, r = Ok (Some i) → ∃ m, mails s !! i = Some m ∧ recipient m = uid).
Proof.
  apply after_Create; [|by intros e s1 E]. intros conn s1 E. apply st_holds_bind.
  eapply st_holds_conseq; [apply (Query_holds accounts_in)|]. intros [l|e] s' [Hv Hf]; cbn.
  - split; [by rewrite <-E|]. intros i [= Hi]. destruct l as [|m l]; [done|]. injection Hi as <-.
    destruct (Hf (m :: l) eq_refl m) as [Hd Hq]; [left|]. injection E as <- _. exists m. split; [exact Hd|]. by apply Z.eqb_eq in Hq.
  - split; [by rewrite <-E|done].
Qed.

(** One message that matches gets a status; those that match are gone. *)
Lemma Update_seen conn q st s : st_holds (Update conn q (set_status st)) s (λ _ s', accounts s' = accounts s ∧
  (mails s' = mails s ∨ ∃ m, mails s !! oid m = Some m ∧ q m = true ∧ mails s' = <[oid m := set_status st m]> (mails s))).
Proof.
  eapply st_holds_conseq; [by apply (Update_holds accounts_in conn q (set_status st))|]. intros r s' [Ha Hm].
  split; [exact Ha|]. destruct Hm as [Hm|(m & [Hd Hq] & Hm)]; [by left|]. right. by exists m.
Qed.

Lemma Remove_seen conn q s : st_holds (Remove (D := Message) conn q) s (λ _ s', accounts s' = accounts s ∧
  ∀ i, mails s' !! i = mails s !! i ∨ mails s' !! i = None ∧ ∃ m, mails s !! i = Some m ∧ q m = true).
Proof. apply (Remove_holds accounts_in). Qed.

Lemma Insert_seen conn m s : st_holds (Insert conn m) s (λ _ s', accounts s' = accounts s ∧
  (mails s' = mails s ∨ mails s !! oid m = None ∧ mails s' = <[oid m := m]> (mails s))).
Proof.
  unfold Insert. destruct (scopedConn conn); [|by split; [|left]].
  apply (request_holds accounts_in (Insert_ m) _ s (λ _ v, v.2 = accounts s ∧ (v.1 = mails s ∨ mails s !! oid m = None ∧ v.1 = <[oid m := m]> (mails s)))); [|done].
  intros a s1 [Hm _] Ho. split.
  - destruct a; [by apply exception_reads|by apply last_error_reads].
  - split; [exact Ho|exact Hm].
Qed.


(** *** The invariant of a command *)

Section invariant.
Context (u : UserData) (A : gmap Z UserData * gmap Z GroupData) (args : list str) (cmd : str) (m0 : gmap Z Message).

Definition permitted (s : Db W) : Prop := accounts s = A ∧ ∀ i, allowed u A.1 args cmd (m0 !! i) (mails s !! i).
Definition within (s : Site W) : Prop := self s = u ∧ permitted (db s).

Abbreviation triple := (st_triple within).
Abbreviation triple_ m := (st_triple within m (λ _, True)).

Lemma permitted_seen s s' : seen s' = seen s → permitted s → permitted s'.
Proof. intros [= Em Ea Eg] [Ha Hm]. unfold permitted, accounts, accounts_in in *. rewrite Em. by rewrite Ea, Eg. Qed.

Lemma asks {B} (m : ST (Site W) exit B) : st_keeps (λ s : Site W, (db s, self s)) m → triple_ m.
Proof. intros Hm s [Hs Hp]. specialize (Hm s). injection Hm as Hd He. split; [|done]. split; [by rewrite He|by rewrite Hd]. Qed.

Lemma triple_self {B} (k : UserData → ST (Site W) exit B) P : triple (k u) P → triple (st_bind (st_gets self) k) P.
Proof. intros Hk s Hs. unfold st_bind, st_gets. rewrite (proj1 Hs). by apply Hk. Qed.

Lemma triple_db {B} (m : D_ B) (P : B → Prop) :
  (∀ s, permitted s → st_holds m s (λ r s', permitted s' ∧ ∀ b, r = Ok b → P b)) → triple (in_db m) P.
Proof.
  intros Hm s [Hs Hp]. unfold in_db. specialize (Hm (db s) Hp). unfold st_holds in Hm.
  destruct (m (db s)) as [r d]. cbn in *. destruct Hm as [Hd Hr]. split; [by split|]. destruct r; [|done].
  intros b [= <-]. by apply Hr.
Qed.

(** A message of one's own is not new. *)
Lemma allowed_own s i m : permitted s → mails s !! i = Some m → recipient m = id u →
  ∃ x, m0 !! i = Some x ∧ recipient x = id u ∧ (m = x ∨ cmd = lit "read" ∧ status x = Unread ∧ m = set_status Trash x ∨ cmd = lit "save" ∧ m = set_status Saved x).
Proof.
  intros [_ Hp] Hm Hr. specialize (Hp i). rewrite Hm in Hp. destruct (m0 !! i) as [x|]; [|naive_solver].
  exists x. split; [done|]. destruct Hp as [->|[Hx Hp]]; [by split; [|left]|]. split; [done|]. by right.
Qed.

(** One message is replaced. *)
Lemma permitted_insert s s' i y : permitted s → accounts s' = accounts s → mails s' = <[i := y]> (mails s) →
  allowed u A.1 args cmd (m0 !! i) (Some y) → permitted s'.
Proof.
  intros [Ha Hp] Ea Em Hy. split; [by rewrite Ea|]. intros j. rewrite Em. destruct (decide (i = j)) as [<-|Hij].
  - by rewrite lookup_insert_eq.
  - by rewrite lookup_insert_ne.
Qed.

Lemma permitted_unchanged s s' : permitted s → accounts s' = accounts s → mails s' = mails s → permitted s'.
Proof. intros [Ha Hp] Ea Em. split; [by rewrite Ea|by rewrite Em]. Qed.

Lemma oid_lookup s i m : mails s !! i = Some m → oid m = i.
Proof. intros Hm. exact (contents_keyed (other := accounts_in) (server s) i m Hm). Qed.

(** *** The updates of each command *)

Lemma Get_own uid s : permitted s → st_holds (Get uid) s (λ r s', permitted s' ∧
  ∀ l, r = Ok l → ∀ m, m ∈ l → recipient m = uid ∧ mails s !! oid m = Some m).
Proof.
  intros Hs. eapply st_holds_conseq; [apply Get_holds|]. intros r s' [Hv Hl]. split; [by apply (permitted_seen s)|].
  intros l -> m Hm. destruct (Hl l m eq_refl Hm). by split.
Qed.

Lemma Trash_permitted m s : cmd = lit "read" → m0 !! oid m = Some m → recipient m = id u → status m = Unread →
  permitted s → st_holds (Trash_ m) s (λ _ s', permitted s').
Proof.
  intros Hcmd Hm Hr Hst Hs. apply after_Create; [|intros e s1 E; by apply (permitted_seen s)].
  intros conn s1 E. apply (permitted_seen s s1 E) in Hs. apply st_holds_bind.
  eapply st_holds_conseq; [apply Update_seen|]. intros r s2 [Ha Hor].
  enough (permitted s2) by (by destruct r). destruct Hor as [Em|(x & Hx & Hq & Em)]; [by apply (permitted_unchanged s1)|].
  apply (permitted_insert s1 _ _ _ Hs Ha Em). apply Z.eqb_eq in Hq. rewrite Hq in *.
  pose proof (proj2 Hs (oid m)) as Hp. rewrite Hm, Hx in Hp. rewrite Hm. right. split; [done|]. left. split_and!; [done..|].
  destruct Hp as [->|[_ [(_ & _ & ->)|[Hc _]]]]; [done|done|by rewrite Hc in Hcmd].
Qed.

Lemma Save_permitted index s : cmd = lit "save" → permitted s → st_holds (Save (id u) index) s (λ _ s', permitted s').
Proof.
  intros Hcmd Hs. apply st_holds_bind. eapply st_holds_conseq; [apply IndexToOID_holds|]. intros [[i|]|e] s1 [E Hi].
  2, 3: by apply (permitted_seen s).
  destruct (Hi i eq_refl) as (x & Hx & Hr). apply (permitted_seen s s1 E) in Hs. injection E as E _. rewrite <-E in Hx.
  apply after_Create; [|intros e s2 E2; by apply (permitted_seen s1)].
  intros conn s2 E2. apply (permitted_seen s1 s2 E2) in Hs. injection E2 as E2 _. rewrite <-E2 in Hx. apply st_holds_bind.
  eapply st_holds_conseq; [apply Update_seen|]. intros r s3 [Ha Hor].
  enough (permitted s3) by (by destruct r). destruct Hor as [Em|(y & Hy & Hq & Em)]; [by apply (permitted_unchanged s2)|].
  apply (permitted_insert s2 _ _ _ Hs Ha Em). apply Z.eqb_eq in Hq. rewrite Hq in *. assert (y = x) as -> by congruence.
  destruct (allowed_own s2 i x Hs Hx Hr) as (z & -> & Hz & Hor). right. split; [done|]. right. split; [done|].
  destruct Hor as [->|[(Hc & _)|[_ ->]]]; [done|by rewrite Hc in Hcmd|done].
Qed.

Lemma SaveTrash_permitted s : cmd = lit "save" → permitted s → st_holds (SaveTrash (id u)) s (λ _ s', permitted s').
Proof.
  intros Hcmd Hs. apply after_Create; [|intros e s1 E; by apply (permitted_seen s)].
  intros conn s1 E. apply (permitted_seen s s1 E) in Hs.
  eapply st_holds_conseq; [apply Update_seen|]. intros r s2 [Ha Hor].
  destruct Hor as [Em|(x & Hx & Hq & Em)]; [by apply (permitted_unchanged s1)|].
  apply (permitted_insert s1 _ _ _ Hs Ha Em). apply andb_true_iff in Hq as [Hq _]. apply Z.eqb_eq in Hq.
  destruct (allowed_own s1 _ x Hs Hx Hq) as (z & -> & Hz & Hor). right. split; [done|]. right. split; [done|].
  destruct Hor as [->|[(Hc & _)|[_ ->]]]; [done|by rewrite Hc in Hcmd|done].
Qed.

Lemma permitted_removed s s' q : cmd = lit "purge" → permitted s → accounts s' = accounts s →
  (∀ i, mails s' !! i = mails s !! i ∨ mails s' !! i = None ∧ ∃ m, mails s !! i = Some m ∧ q m = true) →
  (∀ m, mails s !! oid m = Some m → q m = true → recipient m = id u ∧ (status m = Trash ∨ length args = 3%nat)) → permitted s'.
Proof.
  intros Hcmd [Ha Hp] Ea Hm Hq. split; [by rewrite Ea|]. intros i. destruct (Hm i) as [->|(-> & m & Em & Hqm)]; [done|].
  destruct (Hq m) as [Hr Hs]; [by rewrite (oid_lookup s i m Em)|done|].
  destruct (allowed_own s i m (conj Ha Hp) Em Hr) as (x & -> & Hx & Hor). split_and!; [done..|].
  destruct Hor as [->|[(Hc & _)|[Hc _]]]; [done|by rewrite Hc in Hcmd|by rewrite Hc in Hcmd].
Qed.

Lemma PurgeTrash_permitted s : cmd = lit "purge" → permitted s → st_holds (PurgeTrash (id u)) s (λ _ s', permitted s').
Proof.
  intros Hcmd Hs. apply after_Create; [|intros e s1 E; by apply (permitted_seen s)].
  intros conn s1 E. apply (permitted_seen s s1 E) in Hs.
  eapply st_holds_conseq; [apply Remove_seen|]. intros r s2 [Ha Hor].
  apply (permitted_removed s1 s2 _ Hcmd Hs Ha Hor). intros m _ Hq. apply andb_true_iff in Hq as [Hr%Z.eqb_eq Ht].
  split; [done|]. left. by apply bool_decide_eq_true in Ht.
Qed.

Lemma Purge_permitted index s : cmd = lit "purge" → length args = 3%nat → permitted s →
  st_holds (Purge (id u) index) s (λ _ s', permitted s').
Proof.
  intros Hcmd Hargs Hs. apply st_holds_bind. eapply st_holds_conseq; [apply IndexToOID_holds|]. intros [[i|]|e] s1 [E Hi].
  2, 3: by apply (permitted_seen s).
  destruct (Hi i eq_refl) as (x & Hx & Hr). apply (permitted_seen s s1 E) in Hs. injection E as E _. rewrite <-E in Hx.
  apply after_Create; [|intros e s2 E2; by apply (permitted_seen s1)].
  intros conn s2 E2. apply (permitted_seen s1 s2 E2) in Hs. injection E2 as E2 _. rewrite <-E2 in Hx. apply st_holds_bind.
  eapply st_holds_conseq; [apply Remove_seen|]. intros r s3 [Ha Hor].
  enough (permitted s3) by (by destruct r). apply (permitted_removed s2 s3 _ Hcmd Hs Ha Hor).
  intros m Hm Hq%Z.eqb_eq. rewrite Hq in Hm. assert (m = x) as -> by congruence. split; [done|by right].
Qed.

Lemma Send_permitted m s x : cmd = lit "send" → sender m = name u → status m = Unread → recipient m ≠ id u →
  A.1 !! recipient m = Some x → HasFlag x Deleted = false → permitted s → st_holds (Send m) s (λ _ s', permitted s').
Proof.
  intros Hcmd Hse Hst Hr Hx Hd Hs. apply after_Create; [|intros e s1 E; by apply (permitted_seen s)].
  intros conn s1 E. apply (permitted_seen s s1 E) in Hs.
  eapply st_holds_conseq; [apply Insert_seen|]. intros r s2 [Ha [Em|[Hn Em]]]; [by apply (permitted_unchanged s1)|].
  apply (permitted_insert s1 _ _ _ Hs Ha Em). pose proof (proj2 Hs (oid m)) as Hp. rewrite Hn in Hp.
  destruct (m0 !! oid m) as [z|]; [destruct Hp as (_ & Hc & _); by rewrite Hc in Hcmd|]. split_and!; [done..|]. by exists x.
Qed.


(** *** The commands *)

Context `{Split, Trim, CaseConv, Fnmatch, RegexMatch, Format, TitleCase, ReplaceFirst, TrimIf}.
Context (ca : Caches) (sort_ids : list UserData → list UserData) (genOID : Db W → Z) (show_time to_simple_string : Z → str) (now : Z)
  (templates : option (gmap str Template)).
Hypothesis sort_ids_perm : ∀ l, sort_ids l ≡ₚ l.

Abbreviation C := (ST (Site W) exit).

Lemma triple_reply code t : triple_ (reply code t).
Proof. by apply asks. Qed.
Lemma triple_bar t : triple_ (bar t).
Proof. by apply asks. Qed.
Lemma triple_arg l i : triple_ (arg l i : C str).
Proof. apply asks. unfold arg. by destruct (l !! i). Qed.
Lemma triple_require k : triple_ (require ca k : C unit).
Proof.
  apply asks, st_keeps_bind; [|by intros []]. intros s. unfold allow. by destruct (AllowSiteCmd _ _ _ _).
Qed.

Hint Resolve triple_reply triple_bar triple_arg triple_require st_triple_ret st_triple_throw : mail.

(** What is loaded as unread is as it was at the start. *)
Definition fresh_mail (m : Message) : Prop := status m = Unread → m0 !! oid m = Some m ∧ recipient m = id u.

Lemma Read_loop_within index mail : cmd = lit "read" →
  Forall fresh_mail mail → triple_ (Read_loop show_time index mail).
Proof.
  intros Hcmd. revert index. induction mail as [|m mail IH]; intros index Hm; [by apply st_triple_ret|]. cbn [Read_loop].
  apply st_triple_then; [destruct (0 <? index); auto with mail|]. intros _.
  apply st_triple_then; [auto with mail|]. intros _. apply st_triple_then; [auto with mail|]. intros _.
  apply st_triple_then; [apply st_triple_iter; intros; auto with mail|]. intros _.
  apply Forall_cons in Hm as [Hm Hl]. apply st_triple_then; [|intros _; by apply IH].
  destruct (decide (status m = Unread)) as [Hst|]; [|by apply st_triple_ret]. destruct (Hm Hst). apply triple_db. intros s Hs.
  eapply st_holds_conseq; [by apply Trash_permitted|]. by intros r s'.
Qed.

Lemma Read_mail_within mail : cmd = lit "read" →
  Forall fresh_mail mail → triple_ (Read_mail show_time mail).
Proof.
  intros Hcmd Hm. apply st_triple_then; [apply triple_bar|]. intros _.
  apply st_triple_then; [by apply Read_loop_within|]. intros _. apply triple_bar.
Qed.

Lemma Get_within : cmd = lit "read" → triple (in_db (Get (id u))) (Forall fresh_mail).
Proof.
  intros Hcmd. apply triple_db. intros s Hs. eapply st_holds_conseq; [by apply Get_own|]. intros r s' [Hs' Hl]. split; [done|].
  intros l ->. apply Forall_forall. intros m Hm Hst. destruct (Hl l eq_refl m Hm) as [Hr Hd]. split; [|done].
  destruct (allowed_own s _ m Hs Hd Hr) as (x & Hx & _ & [->|[(_ & _ & ->)|[Hc _]]]); [done|done|by rewrite Hc in Hcmd].
Qed.

Lemma Read_within : cmd = lit "read" → triple_ (Read show_time args).
Proof.
  intros Hcmd. unfold Read. destruct (3 <? _)%nat; [by apply st_triple_throw|]. apply st_triple_then.
  { destruct (args !! 2%nat) as [a|]; [|by apply st_triple_ret]. destruct (StrToInt a) as [n|]; [|by apply st_triple_throw].
    destruct (n <? 1); [|by apply st_triple_ret]. apply st_triple_then; [apply triple_reply|]. intros _. by apply st_triple_ret. }
  intros [index|]; [|by apply st_triple_ret]. apply triple_self.
  apply (st_triple_bind _ _ _ _ _ (Get_within Hcmd)). intros mail Hm. destruct mail as [|m mail]; [apply triple_reply|].
  destruct (negb _).
  - destruct (_ <? index).
    + apply st_triple_then; [apply triple_arg|]. intros a. apply triple_reply.
    + apply st_triple_then; [|intros _; apply triple_reply]. apply Read_mail_within; [done|]. by apply Forall_take, Forall_drop.
  - assert (Forall fresh_mail (filter (λ m, status m = Unread) (m :: mail))) as Hf by (apply Forall_forall; intros y [_ Hy]%list_elem_of_filter; rewrite Forall_forall in Hm; by apply Hm).
    destruct (filter _ _); [apply triple_reply|]. apply st_triple_then; [by apply Read_mail_within|]. intros _. apply triple_reply.
Qed.

Lemma GetUsers_found q s : permitted s → st_holds (GetUsers ca q) s (λ r s', permitted s' ∧
  ∀ l, r = Ok l → Forall (λ x, A.1 !! id x = Some x) l).
Proof.
  intros Hs. apply after_Create; [|intros e s1 E; split; [by apply (permitted_seen s)|done]].
  intros conn s1 E. apply (permitted_seen s s1 E) in Hs.
  eapply st_holds_conseq; [apply (QueryMulti_holds beside_users)|]. intros r s2 [Hv Hf]. split.
  - apply (permitted_seen s1); [|done]. unfold view, docs, beside_users, mails_in, groups_in in Hv. unfold seen, mails, accounts, accounts_in, mails_in, users_in, groups_in. congruence.
  - intros l ->. apply Forall_forall. intros x Hx. destruct Hs as [<- _]. by destruct (Hf l eq_refl x Hx) as [? _].
Qed.

Lemma GetUsers_within q : triple (in_db (GetUsers ca q)) (Forall (λ x, A.1 !! id x = Some x)).
Proof. apply triple_db. intros s Hs. by apply GetUsers_found. Qed.

Lemma GetUsers_all_within l : triple (GetUsers_all ca l) (Forall (λ x, A.1 !! id x = Some x)).
Proof.
  induction l as [|r l IH]; [by apply st_triple_ret|]. cbn [GetUsers_all].
  apply (st_triple_bind _ _ _ _ _ (GetUsers_within r)). intros l1 Hl1. apply (st_triple_bind _ _ _ _ _ IH). intros l2 Hl2.
  apply st_triple_ret. by apply Forall_app.
Qed.

Lemma unique_ids_sub last l x : x ∈ unique_ids last l → x ∈ l.
Proof.
  revert last. induction l as [|y l IH]; intros last; [done|]. cbn. case_decide.
  - intros ?%IH. by right.
  - intros [->|?%IH]%elem_of_cons; [left|by right].
Qed.

Lemma Send_loop_within text users n : cmd = lit "send" → Forall (λ x, A.1 !! id x = Some x) users →
  triple_ (Send_loop genOID now text users n).
Proof.
  intros Hcmd. revert n. induction users as [|x users IH]; intros n Hu; [by apply st_triple_ret|]. cbn [Send_loop].
  apply Forall_cons in Hu as [Hx Hu]. apply triple_self.
  destruct (HasFlag x Deleted) eqn:Ed; [by apply IH|]. destruct (Z.eqb_spec (id x) (id u)); [by apply IH|]. cbn [orb].
  apply st_triple_then; [|intros _; by apply IH]. apply triple_db. intros s Hs.
  change (st_holds (Send (MkMessage (genOID s) (name u) (id x) text now Unread)) s (λ r s', permitted s' ∧ ∀ b : unit, r = Ok b → True)).
  eapply st_holds_conseq; [by apply (Send_permitted _ _ x)|]. by intros r s'.
Qed.

Lemma recipients_of_within to : triple_ (recipients_of ca to : C (list str)).
Proof.
  unfold recipients_of. case_decide; [by apply st_triple_ret|].
  apply st_triple_then; [destruct (1 <? _)%nat; auto with mail|]. intros _.
  apply st_triple_then; [destruct (existsb _ _); auto with mail|]. intros _. by apply st_triple_ret.
Qed.

Lemma Send_mail_within : cmd = lit "send" → triple_ (Send_mail ca sort_ids genOID now args).
Proof.
  intros Hcmd. unfold Send_mail. destruct (_ <? _)%nat; [by apply st_triple_throw|].
  apply st_triple_then; [auto with mail|]. intros to. apply st_triple_then; [apply recipients_of_within|]. intros recipients.
  apply (st_triple_bind _ _ _ (Forall (λ x, A.1 !! id x = Some x))).
  - destruct recipients as [|r l].
    + apply st_triple_then; [apply triple_require|]. intros _. apply GetUsers_within.
    + apply (st_triple_bind _ _ _ _ _ (GetUsers_all_within (r :: l))). intros users Hu. apply st_triple_ret.
      apply Forall_forall. intros x Hx%unique_ids_sub. rewrite sort_ids_perm in Hx. by rewrite Forall_forall in Hu; apply Hu.
  - intros users Hu. apply st_triple_then; [by apply Send_loop_within|]. intros n. apply triple_reply.
Qed.

Lemma Save_mail_within : cmd = lit "save" → triple_ (Save_mail args).
Proof.
  intros Hcmd. unfold Save_mail, SaveTrash_mail. destruct (_ =? _)%nat.
  - apply triple_self. apply st_triple_then; [|intros n; apply triple_reply]. apply triple_db. intros s Hs.
    eapply st_holds_conseq; [by apply SaveTrash_permitted|]. by intros r s'.
  - destruct (_ <? _)%nat; [by apply st_triple_throw|]. apply st_triple_then; [auto with mail|]. intros a.
    destruct (StrToInt a) as [n|]; [|by apply st_triple_throw]. apply triple_self.
    apply st_triple_then; [|intros []; apply triple_reply]. apply triple_db. intros s Hs.
    eapply st_holds_conseq; [by apply Save_permitted|]. by intros r s'.
Qed.

Lemma Purge_mail_within : cmd = lit "purge" → triple_ (Purge_mail args).
Proof.
  intros Hcmd. unfold Purge_mail, PurgeTrash_mail. destruct (Nat.eqb_spec (length args) 2).
  - apply triple_self. apply st_triple_then; [|intros n; apply triple_reply]. apply triple_db. intros s Hs.
    eapply st_holds_conseq; [by apply PurgeTrash_permitted|]. by intros r s'.
  - destruct (Nat.ltb_spec 3 (length args)); [by apply st_triple_throw|].
    unfold arg. destruct (args !! 2%nat) as [a|] eqn:Ea; [|by apply st_triple_throw].
    assert (length args = 3%nat) as Hl by (apply lookup_lt_Some in Ea; lia).
    change (st_bind (st_ret a) ?k) with (k a). cbv beta.
    destruct (StrToInt a) as [n'|]; [|by apply st_triple_throw]. apply triple_self.
    apply st_triple_then; [|intros []; apply triple_reply]. apply triple_db. intros s Hs.
    eapply st_holds_conseq; [by apply Purge_permitted|]. by intros r s'.
Qed.

Lemma List_mail_within : triple_ (List_mail to_simple_string templates args).
Proof.
  unfold List_mail. destruct (negb _); [by apply st_triple_throw|]. apply triple_self.
  apply (st_triple_then within).
  - apply triple_db. intros s Hs. eapply st_holds_conseq; [by apply Get_own|]. intros r s' [? _]. by split.
  - intros mail. destruct mail; [apply triple_reply|]. destruct (GetTemplate _ _) as [t|[]]; apply triple_reply.
Qed.

End invariant.

Context `{Split, Trim, CaseConv, Fnmatch, RegexMatch, Format, TitleCase, ReplaceFirst, TrimIf}.
Context (ca : Caches) (sort_ids : list UserData → list UserData) (genOID : Db W → Z) (show_time to_simple_string : Z → str)
  (templates : option (gmap str Template)).
Hypothesis sort_ids_perm : ∀ l, sort_ids l ≡ₚ l.

Abbreviation command_of args := (to_lower (nth 1 args [])).

Lemma MSG_within now u A args (ms : gmap Z Message) : st_triple (within u A args (to_lower (nth 1 args [])) ms)
  (MSGCommand ca sort_ids genOID show_time to_simple_string now templates args) (λ _, True).
Proof.
  unfold MSGCommand, arg. destruct (args !! 1%nat) as [a|] eqn:Ea; [|by apply st_triple_throw].
  assert (nth 1 args [] = a) as -> by (apply nth_lookup_Some; exact Ea).
  change (st_bind (st_ret a) ?k) with (k a). cbv beta zeta.
  repeat case_decide; [by apply Read_within|by apply Send_mail_within|by apply Save_mail_within|by apply Purge_mail_within|apply List_mail_within|by apply st_triple_throw].
Qed.

(** ** Histories *)

(** A user gives the command, with the rules as the session has them, at a time; or a
    session ends that is about a user. *)
Inductive event : Type :=
  | Msg (u : UserData) (acls : gmap str ACL) (now : Z) (args : list str)
  | LogOff (uid : Z).

Definition run_event (s : Db W) (e : event) : Db W :=
  match e with
  | Msg u acls now args => db (snd (MSGCommand ca sort_ids genOID show_time to_simple_string now templates args (MkSite s acls [] [] u [] [] [])))
  | LogOff uid => snd (LogOffPurgeTrash uid s)
  end.

Definition history (l : list event) (s : Db W) : Db W := foldl run_event s l.

Definition event_allows (accounts : gmap Z UserData) (e : event) (old new : option Message) : Prop :=
  match e with
  | Msg u _ _ args => allowed u accounts args (command_of args) old new
  | LogOff uid => new = old ∨ new = None ∧ ∃ x, old = Some x ∧ recipient x = uid ∧ status x = Trash
  end.

Lemma run_event_allowed e s : accounts (run_event s e) = accounts s ∧
  ∀ i, event_allows (accounts s).1 e (mails s !! i) (mails (run_event s e) !! i).
Proof.
  destruct e as [u acls now args|uid]; cbn [run_event event_allows].
  - destruct (MSG_within now u (accounts s) args (mails s) (MkSite s acls [] [] u [] [] [])) as [[_ Hp] _]; [|exact Hp].
    split; [done|]. split; [done|]. intros i. cbn. destruct (mails s !! i); [by left|done].
  - enough (st_holds (LogOffPurgeTrash uid) s (λ _ s', accounts s' = accounts s ∧
      ∀ i, mails s' !! i = mails s !! i ∨ mails s' !! i = None ∧ ∃ x, mails s !! i = Some x ∧ recipient x = uid ∧ status x = Trash)) as Hh by done.
    apply st_holds_bind, after_Create.
    + intros conn s1 E. eapply st_holds_conseq; [apply Remove_seen|]. intros r s2 [Ha Hm].
      enough (accounts s2 = accounts s ∧ ∀ i, mails s2 !! i = mails s !! i ∨ mails s2 !! i = None ∧ ∃ x, mails s !! i = Some x ∧ recipient x = uid ∧ status x = Trash)
        by (by destruct r).
      destruct (seen_parts _ _ E) as [E1 E2].
      rewrite E1 in Hm. rewrite E2 in Ha. split; [done|]. intros i. destruct (Hm i) as [?|(? & x & Hx & Hq)]; [by left|right].
      split; [done|]. exists x. apply andb_true_iff in Hq as [Hr%Z.eqb_eq Ht%bool_decide_eq_true]. done.
    + intros e s1 E. destruct (seen_parts _ _ E) as [-> ->].
      split; [done|]. by left.
Qed.

(** The recipient has a command shown, or purged by its number. *)
Definition is_read (uid : Z) (e : event) : Prop :=
  match e with Msg u _ _ args => id u = uid ∧ command_of args = lit "read" | LogOff _ => False end.
Definition is_purge (uid : Z) (e : event) : Prop :=
  match e with Msg u _ _ args => id u = uid ∧ command_of args = lit "purge" ∧ length args = 3%nat | LogOff _ => False end.
Definition is_send (m : Message) (e : event) : Prop :=
  match e with Msg u _ _ args => command_of args = lit "send" ∧ name u = sender m ∧ id u ≠ recipient m | LogOff _ => False end.

(** C23: Mail is kept.  Whatever SITE MSG commands are given, by whomever and with whatever
    rights and arguments, and whatever sessions end in between, on a database that may
    fail at any request: the accounts are left alone; a message that is unread or saved
    stays as it is until its recipient purges it by its number or, if it is unread, has
    his mail read, but for being marked as saved; and a message that was not there
    before was sent in a command of the user it names, to somebody else. *)
Theorem mail_kept l s :
  accounts (history l s) = accounts s ∧
  (∀ i m, mails s !! i = Some m → status m ≠ Trash → Forall (λ e, ¬ is_purge (recipient m) e) l →
    (status m = Unread → Forall (λ e, ¬ is_read (recipient m) e) l) →
    ∃ st, (st = status m ∨ st = Saved) ∧ mails (history l s) !! i = Some (set_status st m)) ∧
  (∀ i m, mails s !! i = None → mails (history l s) !! i = Some m → Exists (is_send m) l).
Proof.
  induction l as [|e l IH] using rev_ind.
  { split_and!; [done| |cbn; congruence]. intros i m Hm Hst _ _. exists (status m). split; [by left|]. by destruct m. }
  unfold history. rewrite foldl_app. cbn [foldl]. fold (history l s). destruct IH as (Ha & Hk & Hf).
  destruct (run_event_allowed e (history l s)) as [He Hal]. split_and!; [by rewrite He| |].
  - intros i m Hm Hst Hp Hr. apply Forall_app in Hp as [Hp Hpe]. rewrite Forall_singleton in Hpe.
    assert (status m = Unread → Forall (λ e, ¬ is_read (recipient m) e) l ∧ ¬ is_read (recipient m) e) as Hr'.
    { intros Hu. specialize (Hr Hu). apply Forall_app in Hr as [Hr Hre]. by rewrite Forall_singleton in Hre. }
    destruct (Hk i m Hm Hst Hp (λ Hu, proj1 (Hr' Hu))) as (st & Hnt & Hi). specialize (Hal i). rewrite Hi in Hal.
    destruct (mails (run_event (history l s) e) !! i) as [y|] eqn:Ey, e as [u acls now args|uid]; cbn in Hal, Hpe, Hr'.
    + destruct Hal as [->|(Hrc & [(Hc & Hs' & ->)|(Hc & ->)])]; [by exists st| |].
      * exfalso. cbn in Hrc, Hs'. destruct Hnt as [->| ->]; [|done]. destruct (Hr' Hs') as [_ Hr2]. by apply Hr2.
      * exists Saved. split; [by right|done].
    + destruct Hal as [[= ->]|[? _]]; [by exists st|done].
    + exfalso. destruct Hal as (Hrc & Hc & [Ht|Hl]); [|by apply Hpe]. cbn in Ht. by destruct Hnt as [->| ->].
    + exfalso. destruct Hal as [?|(_ & x & [= <-] & _ & Ht)]; [done|]. cbn in Ht. by destruct Hnt as [->| ->].
  - intros i m Hn Hm. apply Exists_app. specialize (Hal i).
    destruct (mails (history l s) !! i) as [x|] eqn:Ex.
    + left. enough (sender x = sender m ∧ recipient x = recipient m) as [E1 E2].
      { specialize (Hf i x Hn Ex). eapply Exists_impl; [exact Hf|]. intros []; cbn; by rewrite ?E1, ?E2. }
      rewrite Hm in Hal. destruct e as [u acls now args|uid]; cbn in Hal.
      * by destruct Hal as [->|(_ & [(_ & _ & ->)|(_ & ->)])].
      * by destruct Hal as [[= ->]|[? _]].
    + right. apply Exists_cons. left. rewrite Hm in Hal. destruct e as [u acls now args|uid]; cbn in Hal.
      * destruct Hal as (Hc & Hs & _ & Hr & _). split_and!; [done|done|]. by intros E.
      * by destruct Hal as [?|(? & _)].
Qed.

End effects.

(** ** Examples, with the database in memory and the messages beside it *)

Definition World : Type := (Memory * gmap Z Message)%type.

#[export] Instance world_users : Collection World UserData := {|
  contents w := contents w.1; perform A r w := let '(a, m) := perform r w.1 in (a, (m, w.2))
|}.
#[export] Instance world_groups : Collection World GroupData := {|
  contents w := contents w.1; perform A r w := let '(a, m) := perform r w.1 in (a, (m, w.2))
|}.
#[export] Instance world_mails : Collection World Message := {|
  contents w := stored w.2; perform A r w := let '(a, m) := serve r (stored w.2) in (a, (w.1, m))
|}.
#[export] Instance world_mongo : Mongo World := {| connect w := (Linked, w); log_update c i w := (Answered () None, w) |}.

#[export] Instance world_users_ok : CollectionOk World UserData beside_users.
Proof.
  split.
  - intros A r w Hr. pose proof (perform_effect (other := groups_in) r w.1 Hr) as He.
    change (perform r w) with (let '(a, m) := perform r w.1 in (a, (m, w.2))). by destruct (perform r w.1).
  - intros A r w. pose proof (perform_other (D := UserData) (other := groups_in) r w.1) as Ho.
    change (perform r w) with (let '(a, m) := perform r w.1 in (a, (m, w.2))).
    destruct (perform r w.1) as [a m]. exact (f_equal (λ g, (g, mails_in w)) Ho).
  - intros w. apply (contents_keyed (other := groups_in) w.1).
  - intros w. apply (contents_unique (other := groups_in) w.1).
Qed.

#[export] Instance world_mails_ok : CollectionOk World Message accounts_in.
Proof.
  split.
  - intros A r w Hr. cbn. pose proof (serve_effect r (stored w.2)) as He. pose proof (serve_indexed r (stored w.2) (stored_indexed _)) as Hi.
    destruct (serve r (stored w.2)) as [a m]. cbn in *. rewrite (stored_id m Hi). apply He; [|done].
    by apply indexed_spec, stored_indexed.
  - intros A r w. cbn. by destruct (serve r (stored w.2)).
  - intros w. apply indexed_spec, stored_indexed.
  - intros w. apply indexed_spec, stored_indexed.
Qed.

#[export] Instance world_mongo_ok : MongoOk World (λ w, (mails_in w, accounts_in w)).
Proof. split; done. Qed.

Module Example.

#[export] Existing Instances ref_split ref_fnmatch ref_case ref_trim Template.Example.ref_format
  Template.Example.ref_title Template.Example.ref_replace Template.Example.ref_trim_if.
Definition regex : RegexMatch := λ _ _, true.
#[export] Existing Instance regex.

Definition by_id (u v : UserData) : Prop := id u ≤ id v.
#[export] Instance by_id_dec u v : Decision (by_id u v) := decide (id u ≤ id v).
Definition sort (l : list UserData) : list UserData := merge_sort by_id l.

Lemma sort_perm l : sort l ≡ₚ l.
Proof. apply merge_sort_Permutation. Qed.

Definition user (i : Z) (n : string) : UserData := set f_name (lit n) (set f_id i (default_UserData 0)).
Definition caches : Caches := {|
  UIDToName _ := []; NameToUID _ := -1; UIDToPrimaryGID _ := -1; GIDToName _ := []; NameToGID _ := -1
|}.
Definition anyone : gmap str ACL := {[ lit "msg*" := FromString (lit "*") ]}.

Definition letter (i : Z) (st : Status) : Message := MkMessage i (lit "bob") 2 (lit "hello") 0 st.
Definition start (ms : gmap Z Message) : Db World := MkDb (({[ 2 := user 2 "ann"; 3 := user 3 "bob" ]}, ∅), ms) [].
Definition runs (l : list event) (s : Db World) : Db World :=
  history caches sort (λ d, next_free (mails d)) to_string to_string None l s.

(** The update of SAVE without a number is for one message: of two messages that were
    read one is saved, and the end of the session destroys the other. *)
Example save_trash_saves_one :
  mails (runs [Msg (user 2 "ann") ∅ 0 [lit "MSG"; lit "read"]; Msg (user 2 "ann") ∅ 0 [lit "MSG"; lit "save"]; LogOff 2]
          (start {[ 0 := letter 0 Unread; 1 := letter 1 Unread ]})) = {[ 1 := letter 1 Saved ]}.
Proof. vm_compute. reflexivity. Qed.

(** Bob writes to everybody; the message is there after whatever he does to it. *)
Definition letters : list event :=
  [Msg (user 3 "bob") anyone 9 [lit "MSG"; lit "send"; lit "*"; lit "hello"]; Msg (user 3 "bob") ∅ 9 [lit "MSG"; lit "purge"; lit "1"];
   Msg (user 2 "ann") ∅ 9 [lit "MSG"; lit "purge"]; LogOff 2].

Example letters_arrive : mails (runs letters (start ∅)) = {[ 0 := MkMessage 0 (lit "bob") 2 (lit "hello") 9 Unread ]}.
Proof. vm_compute. reflexivity. Qed.

End Example.

#[local] Existing Instances ref_split ref_fnmatch ref_case ref_trim Template.Example.ref_format
  Template.Example.ref_title Template.Example.ref_replace Template.Example.ref_trim_if Example.regex.

Lemma mail_kept_witness : ∃ st, (st = Unread ∨ st = Saved) ∧
  mails (Example.runs Example.letters (Example.start {[ 5 := Example.letter 5 Unread ]})) !! 5 = Some (set_status st (Example.letter 5 Unread)).
Proof.
  destruct (mail_kept Example.caches Example.sort (λ d, next_free (mails d)) to_string to_string None Example.sort_perm
    Example.letters (Example.start {[ 5 := Example.letter 5 Unread ]})) as (_ & H & _).
  apply (H 5 (Example.letter 5 Unread)).
  - vm_compute. reflexivity.
  - discriminate.
  - repeat constructor; cbn; intros Hp; destruct Hp; try discriminate; by destruct_and?.
  - intros _. repeat constructor; cbn; intros Hp; destruct Hp; discriminate.
Defined.
