(* ===== verification/Defaults.v ===== *)
(** * The accounts of a new server: acl/util.cpp, db/user/util.cpp, db/group/util.cpp

    At its start the server looks for the master and the template, users and groups,
    and creates those that are missing; it does not go on without them.  The names are
    looked up in the caches, which were filled before and do not see what is created
    here.  Without caches the lookups are queries. *)

From stdpp Require Import prelude gmap strings.
From S2P Require Import Prelude CxxString State Numbers Settings Acl Strength NetFtp Group Transaction UserData User Rights Policies Connection Accounts Memory Saves SiteState SiteUsers SiteChange SiteGroups SiteSafety.
Local Open Scope Z_scope.
Local Open Scope list_scope.
Local Open Scope st_scope.

(** ** Lookups without a cache: UserNoCache and GroupNoCache *)

Section nocache.
Context {W : Type} `{Mongo W, !Collection W UserData, !Collection W GroupData, Fnmatch}.

Abbreviation D_ := (ST (Db W) DBThrow).

Definition UserNoCache_UIDToName (uid : Z) : D_ str :=
  conn <- Create NoError;; data <- QueryOne conn (with_uid uid);;
  st_ret (match data with Some u => name u | None => lit "unknown" end).

Definition UserNoCache_NameToUID (n : str) : D_ Z :=
  conn <- Create NoError;; data <- QueryOne conn (named n);; st_ret (match data with Some u => id u | None => -1 end).

Definition UserNoCache_UIDToPrimaryGID (uid : Z) : D_ Z :=
  conn <- Create NoError;; data <- QueryOne conn (with_uid uid);; st_ret (match data with Some u => primaryGid u | None => -1 end).

(** [LookupIPMasks]: those of one user, or of all with -1 *)
Definition LookupIPMasks (conn : Connection) (uid : Z) : D_ (list str) :=
  results <- Query conn (λ u, if uid =? -1 then true else with_uid uid u) 0 0;; st_ret (concat (map ipMasks results)).

Definition UserNoCache_IdentIPAllowed (identAddress : str) (uid : Z) : D_ bool :=
  conn <- Create NoError;; masks <- LookupIPMasks conn uid;;
  st_ret (existsb (λ mask, WildcardMatch mask identAddress true) masks).

Definition GroupNoCache_GIDToName (gid : Z) : D_ str :=
  conn <- Create NoError;; data <- QueryOne conn (with_gid gid);;
  st_ret (match data with Some g => Group.name g | None => lit "unknown" end).

Definition GroupNoCache_NameToGID (n : str) : D_ Z :=
  conn <- Create NoError;; data <- QueryOne conn (group_named n);; st_ret (match data with Some g => Group.id g | None => -1 end).

End nocache.

(** ** acl/util.cpp *)

Definition FormatRatio (ratio : Z) : str := if ratio =? 0 then lit "Unlimited" else lit "1:" ++ to_string ratio.

Section texts.
(** [util::ToString(kBytes / 1024.0, 2)], and the sections in the order of the
    configuration, with whether their credits are separate *)
Context (MB_text : Z → str) (sections : list (str * bool)).

Definition RatioString (u : UserData) : str :=
  foldl (λ os kv, if SectionRatio u kv.1 =? -1 then os else os ++ lit " " ++ kv.1 ++ lit "(" ++ FormatRatio (SectionRatio u kv.1) ++ lit ")")
    (FormatRatio (DefaultRatio u)) sections.

Definition CreditString (u : UserData) : str :=
  foldl (λ os kv, if kv.2 : bool then os ++ lit " " ++ kv.1 ++ lit "(" ++ MB_text (SectionCredits u kv.1) ++ lit "MB)" else os)
    (MB_text (SectionCredits u []) ++ lit "MB") sections.

Definition WeeklyAllotmentString (u : UserData) : str :=
  foldl (λ os kv, if 0 <? SectionWeeklyAllotment u kv.1 then os ++ lit " " ++ kv.1 ++ lit "(" ++ MB_text (SectionWeeklyAllotment u kv.1) ++ lit "MB)" else os)
    (if SectionWeeklyAllotment u [] <=? 0 then lit "Disabled" else MB_text (SectionWeeklyAllotment u []) ++ lit "MB") sections.
End texts.

Section defaults.
Context {W : Type} `{Mongo W, !Collection W UserData, !Collection W GroupData, Fnmatch}.
(** The caches, how often an insertion goes round, hashing, the salt of a password
    and the day *)
Context (ca : Caches) (rounds : nat) (HashPassword : str → str → str) (salt : str → str) (today : Z).

Abbreviation D_ := (ST (Db W) DBThrow).

Definition UIDExists (uid : Z) : bool := negb (bool_decide (UIDToName ca uid = lit "unknown")).
Definition GIDExists (gid : Z) : bool := negb (bool_decide (GIDToName ca gid = lit "unknown")).

(** [User::Create] and [Group::Create] *)
Definition User_Create (n password : str) (creator : Z) : D_ (option UserData) :=
  let user := set f_creator creator (set f_name n (default_UserData today)) in
  r <- in_user user (SetPasswordNoSave HashPassword (salt n) password);;
  db_Create rounds r.2.

Definition Group_Create (n : str) : D_ (option GroupData) := group_Create rounds (set g_name n default_GroupData).

Definition fail (message : str) : D_ bool := LogError message;;; st_ret false.

(** [a && b], for what returns false at once *)
Definition and_then (a b : D_ bool) : D_ bool := ok <- a;; if ok : bool then b else st_ret false.

Definition create_group (gid : Z) (n failed wrong : str) : D_ bool :=
  if GIDExists gid then st_ret true
  else
    group <- Group_Create n;;
    match group with
    | None => fail failed
    | Some g => if Group.id g =? gid then st_ret true else fail wrong
    end.

(** The user, if it was created with the right id, is set up. *)
Definition create_user (uid : Z) (n failed wrong : str) (setup : UserData → D_ unit) : D_ bool :=
  user <- User_Create n n 0;;
  match user with
  | None => fail failed
  | Some u => if id u =? uid then setup u;;; st_ret true else fail wrong
  end.

Definition CreateDefaults_body : D_ bool :=
  and_then (create_group 0 (lit "ebftpd") (lit "Failed to create master group (ebftpd).") (lit "Master group (ebftpd) created with wrong GID (must be 0)."))
  (and_then (create_group 1 (lit "default") (lit "Failed to create template group (default).") (lit "Template group (default) create with wrong GID (must be 1)."))
  (and_then
    (if negb (UIDExists 0) then
       create_user 0 (lit "ebftpd") (lit "Failed to create master user (ebftpd).") (lit "Master user (ebftpd) created with wrong UID (must be 0).")
         (λ user,
            r <- in_user user (AddIPMask never (lit "*@localhost"));;
            r <- in_user r.2 (AddFlag never Siteop);;
            in_user r.2 (SetPrimaryGID never 0);;; st_ret tt)
     else st_ret true)
    (if negb (UIDExists 1) then
       create_user 1 (lit "default") (lit "Failed to create template user (default). Must exist with wrong UID.")
         (lit "Template user (default) create with wrong UID (must be 1).")
         (λ user, in_user user (AddFlag never Template);;; st_ret tt)
     else if negb (NameToUID ca (lit "default") =? 1) then fail (lit "Unable to find template user (default).")
     else if negb (NameToGID ca (lit "default") =? 1) then fail (lit "Unable to find template group (default).")
     else st_ret true))).

(** Errors of the database are caught, the exception of the driver is not. *)
Definition CreateDefaults : D_ bool :=
  st_catch CreateDefaults_body (λ e, match e with DBError_ _ | DBWriteError | DBReadError => Some (st_ret false) | _ => None end).

End defaults.

(** ** What the lookups without a cache answer *)

Section nocache_facts.
Context {W : Type} `{Mongo W, !Collection W UserData, !Collection W GroupData, Fnmatch}.
Context `{!CollectionOk W UserData groups_in, !CollectionOk W GroupData users_in, !MongoOk W (λ w, (users_in w, groups_in w))}.

(** A name that is given for an id is that of the user, unless there is none. *)
Lemma UserNoCache_UIDToName_spec uid s : st_holds (UserNoCache_UIDToName uid) s (λ r s', obs s' = obs s ∧
  ∀ n, r = Ok n → n = lit "unknown" ∨ ∃ u, users s !! uid = Some u ∧ name u = n).
Proof.
  enough (st_holds (o <- Load_id uid;; st_ret (match o with Some u => name u | None => lit "unknown" end)) s (λ r s', obs s' = obs s ∧
    ∀ n, r = Ok n → n = lit "unknown" ∨ ∃ u, users s !! uid = Some u ∧ name u = n)) as Hh.
  { unfold UserNoCache_UIDToName, st_holds, Load_id, st_bind in *. by destruct (Create NoError s) as [[c|e] s1]. }
  apply st_holds_bind. eapply st_holds_conseq; [apply query_user_holds|]. intros [[u|]|e] s' [E Hu]; (split; [done|]); intros n.
  - intros [= <-]. right. destruct (Hu u eq_refl) as [Hl Hq%Z.eqb_eq]. exists u. by rewrite <-Hq.
  - intros [= <-]. by left.
  - done.
Qed.

End nocache_facts.

(** ** Starting *)

Section facts.
Context {W : Type} `{Mongo W, !Collection W UserData, !Collection W GroupData, Split}.
Context `{!CollectionOk W UserData groups_in, !CollectionOk W GroupData users_in, !MongoOk W (λ w, (users_in w, groups_in w))}.

Abbreviation D_ := (ST (Db W) DBThrow).
Implicit Types (s : Db W).

(** Nothing is lost: users stay, with their names, and are not marked as deleted. *)
Definition grows s s' : Prop :=
  (∀ i x, users s !! i = Some x → ∃ x', users s' !! i = Some x' ∧ name x' = name x ∧ (HasFlag x Deleted = false → HasFlag x' Deleted = false)) ∧
  (∀ i g, groups s !! i = Some g → groups s' !! i = Some g).

Lemma grows_obs s s' : obs s' = obs s → grows s s'.
Proof. intros [= Eu Eg]. split; [intros i x; rewrite Eu; eauto|by rewrite Eg]. Qed.

Lemma grows_trans s s1 s2 : grows s s1 → grows s1 s2 → grows s s2.
Proof.
  intros [Hu1 Hg1] [Hu2 Hg2]. split; [|auto]. intros i x Hx. destruct (Hu1 i x Hx) as (y & Hy & En & Hd).
  destruct (Hu2 i y Hy) as (z & Hz & En' & Hd'). exists z. split_and!; [done|congruence|auto].
Qed.

Lemma grows_new_user s s' u i : new_document u i (users s) (users s') → groups s' = groups s → grows s s'.
Proof.
  intros [Hi E] Eg. split; [|by rewrite Eg]. intros j x Hx. exists x. split; [|done]. rewrite E.
  rewrite lookup_insert_ne; [done|]. intros ->. congruence.
Qed.

Lemma grows_new_group s s' g i : new_document g i (groups s) (groups s') → users s' = users s → grows s s'.
Proof.
  intros [Hi E] Eu. split; [rewrite Eu; eauto|]. intros j x Hx. rewrite E, lookup_insert_ne; [done|]. intros ->. congruence.
Qed.

Lemma in_user_grows {A} u (m : Transaction.M Save UserData A) s : HasFlag u Deleted = false → stays (same_user u) not_name m →
  st_holds (in_user u m) s (λ r s', grows s s' ∧ ∀ a u', r = Ok (a, u') → HasFlag u' Deleted = false).
Proof.
  intros Hd Hm. destruct (stays_saves _ _ m u Hm (same_user_refl u)) as [Hl Hs].
  eapply st_holds_conseq; [apply in_user_holds|].
  { eapply Forall_impl; [exact Hl|]. by intros sd [_ [? _]]. }
  intros r s' [[Hg Hone] Hr]. split.
  - split; [|by rewrite Hg]. intros i x Hx. destruct (Hone i) as [->|(-> & y & y' & Hy & Hy' & Hw)]; [by exists x|].
    assert (y = x) as -> by congruence. destruct (written_same u _ x y' Hl Hw) as [Hn Hf]. exists y'. split_and!; [done|done|auto].
  - intros a u' ->. destruct (Hr a u' eq_refl) as [_ ->]. destruct Hs as (_ & _ & Hs). auto.
Qed.

Context (ca : Caches) (rounds : nat) (HashPassword : str → str → str) (salt : str → str) (today : Z).

Lemma LogError_grows what s : grows s (snd (LogError what s)).
Proof. by apply grows_obs. Qed.

Lemma fail_holds message s : st_holds (fail message) s (λ r s', grows s s' ∧ r ≠ Ok true).
Proof. split; [apply LogError_grows|done]. Qed.

Lemma Group_Create_holds n s : st_holds (Group_Create rounds n) s (λ r s', users s' = users s ∧ grows s s' ∧
  ∀ g, r = Ok (Some g) → ∃ x, groups s' !! Group.id g = Some x ∧ Group.name x = n).
Proof.
  unfold Group_Create, group_Create. set (g0 := set g_name n default_GroupData).
  apply st_holds_reads; [apply user_Create_reads|by intros e s' E; injection E as Eu Eg; split_and!; [done|by apply grows_obs; unfold obs; rewrite Eu, Eg|]|].
  intros conn s1 E. assert (grows s s1) as H1 by (by apply grows_obs). injection E as Eu Eg. apply st_holds_bind.
  eapply st_holds_conseq; [exact (InsertAutoIncrement_holds users_in rounds conn g0 s1)|].
  intros r s2 [[Eu2 Hi] Hok]. assert (grows s s2) as Hs2.
  { apply (grows_trans _ s1); [done|]. cbn in Hi, Eu2. destruct Hi as [Hi|(i & Hi)]; [|by apply (grows_new_group s1 s2 g0 i)].
    apply grows_obs. unfold obs, groups, groups_in, users, users_in. f_equal; [exact Eu2|exact Hi]. }
  assert (users s2 = users s) as Eus by (rewrite <-Eu; exact Eu2).
  destruct r as [i|e]; [|by split_and!]. destruct (Z.eqb_spec i (-1)); [by split_and!|]. destruct (Hok i eq_refl n0) as [_ [_ Hnew]].
  apply st_holds_reads; [apply UpdateLog_group_reads| |]; [intros e|intros []]; intros s3 E3;
    (assert (grows s s3) as H3 by (by apply (grows_trans _ s2), grows_obs)); injection E3 as Eu3 Eg3; unfold st_holds, st_ret; cbn [fst snd];
    (split_and!; [by rewrite Eu3|done|]); [done|].
  intros g [= <-]. rewrite Eg3. exists (set g_id i g0). split; [|done]. unfold groups, groups_in. unfold docs in Hnew. rewrite Hnew.
  by apply lookup_insert_eq.
Qed.

Lemma create_group_holds gid n failed wrong s : st_holds (create_group ca rounds gid n failed wrong) s (λ r s', users s' = users s ∧ grows s s' ∧
  (r = Ok true → GIDExists ca gid = true ∨ ∃ x, groups s' !! gid = Some x ∧ Group.name x = n)).
Proof.
  unfold create_group. destruct (GIDExists ca gid) eqn:Ex; [split_and!; [done|by apply grows_obs|by left]|].
  apply st_holds_bind. eapply st_holds_conseq; [apply Group_Create_holds|]. intros [[g|]|e] s1 (Eu & Hg & Hr).
  - destruct (Z.eqb_spec (Group.id g) gid) as [<-|].
    + split_and!; [done..|]. intros _. right. by apply Hr.
    + split_and!; [done| |done]. apply (grows_trans _ s1); [done|apply LogError_grows].
  - split_and!; [done| |done]. apply (grows_trans _ s1); [done|apply LogError_grows].
  - by split_and!.
Qed.

Lemma create_user_holds uid n failed wrong setup s :
  (∀ u s, HasFlag u Deleted = false → st_holds (setup u) s (λ _ s', grows s s')) →
  st_holds (create_user rounds HashPassword salt today uid n failed wrong setup) s (λ r s', grows s s' ∧
    (r = Ok true → ∃ x, users s' !! uid = Some x ∧ name x = n ∧ HasFlag x Deleted = false)).
Proof.
  intros Hsetup. unfold create_user, User_Create. apply st_holds_bind, st_holds_bind.
  set (u0 := set f_creator 0 (set f_name n (default_UserData today))).
  set (m := SetPasswordNoSave HashPassword (salt n) n).
  assert (∃ u1, in_user (W := W) u0 m s = (Ok (tt, u1), s) ∧ name u1 = n ∧ HasFlag u1 Deleted = false) as (u1 & E & Hn & Hd) by (eexists; by split_and!).
  unfold st_holds at 1. rewrite E. cbn [fst snd].
  eapply st_holds_conseq; [apply db_Create_holds|]. intros r s1 (Eg & Hu & Hr).
  assert (grows s s1) as H1.
  { destruct Hu as [Hu|(i & Hu)]; [|by apply (grows_new_user s s1 u1 i)]. apply grows_obs. unfold obs. by rewrite Hu, Eg. }
  destruct r as [[u|]|e].
  - destruct (Hr u eq_refl) as (_ & Eu & Hnew). destruct (Z.eqb_spec (id u) uid) as [<-|].
    + apply st_holds_bind. assert (HasFlag u Deleted = false ∧ name u = n) as [Hdu Hnu].
      { rewrite Eu. unfold HasFlag in *. by destruct u1. }
      eapply st_holds_conseq; [by apply Hsetup|]. intros [[]|e] s2 H2; (split; [by apply (grows_trans _ s1)|]); [|done].
      intros _. destruct H2 as [H2 _]. destruct Hnew as [_ Hnew].
      destruct (H2 (id u) (set f_id (id u) u1)) as (x & Hx & En & Hdx); [by rewrite Hnew; apply lookup_insert_eq|].
      rewrite <-Eu in En, Hdx. exists x. split_and!; [done|congruence|auto].
    + split; [|done]. apply (grows_trans _ s1); [done|apply LogError_grows].
  - split; [|done]. apply (grows_trans _ s1); [done|apply LogError_grows].
  - by split.
Qed.

(** The caches answer with what the database held when they were filled. *)
Record snapshot (m : gmap Z UserData) (g : gmap Z GroupData) : Prop := {
  snapshot_uid i : 0 ≤ i → UIDToName ca i = match m !! i with Some u => name u | None => lit "unknown" end;
  snapshot_gid i : 0 ≤ i → GIDToName ca i = match g !! i with Some x => Group.name x | None => lit "unknown" end;
  snapshot_name n i : NameToUID ca n = i → 0 ≤ i → ∃ u, m !! i = Some u ∧ name u = n
}.

(** Those of the four accounts that exist are as the server needs them. *)
Definition sound (m : gmap Z UserData) (g : gmap Z GroupData) : Prop :=
  (∀ i u, i = 0 ∨ i = 1 → m !! i = Some u → HasFlag u Deleted = false) ∧ (∀ x, g !! 1 = Some x → Group.name x = lit "default").

Context `{Fnmatch}.

Lemma master_setup_grows u s : HasFlag u Deleted = false →
  st_holds (r <- in_user u (AddIPMask never (lit "*@localhost"));; r <- in_user r.2 (AddFlag never Siteop);;
            in_user r.2 (SetPrimaryGID never 0);;; st_ret tt) s (λ _ s', grows s s').
Proof.
  intros Hd. apply st_holds_bind. eapply st_holds_conseq; [apply in_user_grows; [done|auto with stays]|].
  intros [[[] u1]|e] s1 [G1 Hd1]; [|done]. apply st_holds_bind.
  eapply st_holds_conseq; [apply in_user_grows; [by eapply Hd1|apply S_AddFlag; discriminate]|].
  intros [[[] u2]|e] s2 [G2 Hd2]; [|by apply (grows_trans _ s1)]. apply st_holds_bind.
  eapply st_holds_conseq; [apply in_user_grows; [by eapply Hd2|auto with stays]|].
  intros [[[] u3]|e] s3 [G3 _]; by apply (grows_trans _ s2); [apply (grows_trans _ s1)|].
Qed.

Lemma template_setup_grows u s : HasFlag u Deleted = false →
  st_holds (in_user u (AddFlag never Template);;; st_ret tt) s (λ _ s', grows s s').
Proof.
  intros Hd. apply st_holds_bind. eapply st_holds_conseq; [apply in_user_grows; [done|apply S_AddFlag; discriminate]|].
  by intros [[[] u1]|e] s1 [G1 Hd1].
Qed.

(** A stage that returns true goes on, any other ends. *)
Lemma and_then_holds (a b : D_ bool) s (P : Db W → Prop) (Q : result DBThrow bool → Db W → Prop) :
  st_holds a s (λ r s', grows s s' ∧ (r = Ok true → P s')) →
  (∀ s', grows s s' → P s' → st_holds b s' Q) → (∀ r s', grows s s' → r ≠ Ok true → Q r s') → st_holds (and_then a b) s Q.
Proof.
  intros Ha Hb Hq. apply st_holds_bind. eapply st_holds_conseq; [exact Ha|]. intros [[]|e] s1 [Hg Hp].
  - apply Hb; auto. - by apply Hq. - by apply Hq.
Qed.

Definition finished s (r : result DBThrow bool) s' : Prop := grows s s' ∧ (r = Ok true → required (users s') (groups s')).

Lemma body_holds s : snapshot (users s) (groups s) → sound (users s) (groups s) →
  st_holds (CreateDefaults_body ca rounds HashPassword salt today) s (finished s).
Proof.
  intros Hsnap [Hsu Hsg]. assert (∀ r s', grows s s' → r ≠ Ok true → finished s r s') as Hend by (by intros; split).
  unfold CreateDefaults_body.
  eapply and_then_holds with (P := λ s', is_Some (groups s' !! 0)); [| |exact Hend].
  { eapply st_holds_conseq; [apply create_group_holds|]. intros r s1 (_ & Hg & Hr). split; [done|]. intros Et.
    destruct (Hr Et) as [Hx|(x & Hx & _)]; [|eauto]. unfold GIDExists in Hx. rewrite (snapshot_gid _ _ Hsnap) in Hx by done.
    destruct (groups s !! 0) as [x|] eqn:Ex; [|done]. exists x. by apply Hg. }
  intros s1 G1 P1. assert (∀ r s', grows s1 s' → r ≠ Ok true → finished s r s') as Hend1
    by (intros; split; [by apply (grows_trans _ s1)|done]).
  eapply and_then_holds with (P := λ s', ∃ x, groups s' !! 1 = Some x ∧ Group.name x = lit "default"); [| |exact Hend1].
  { eapply st_holds_conseq; [apply create_group_holds|]. intros r s2 (_ & Hg & Hr). split; [done|]. intros Et.
    destruct (Hr Et) as [Hx|?]; [|done]. unfold GIDExists in Hx. rewrite (snapshot_gid _ _ Hsnap) in Hx by done.
    destruct (groups s !! 1) as [x|] eqn:Ex; [|done]. exists x. split; [apply Hg, G1, Ex|by apply Hsg]. }
  intros s2 G2 P2. assert (grows s s2) as G02 by (by apply (grows_trans _ s1)).
  assert (∀ r s', grows s2 s' → r ≠ Ok true → finished s r s') as Hend2
    by (intros; split; [by apply (grows_trans _ s2)|done]).
  assert (∀ i x, i = 0 ∨ i = 1 → users s !! i = Some x → ∃ y, users s2 !! i = Some y ∧ name y = name x ∧ HasFlag y Deleted = false) as Hold.
  { intros i x Hi Hx. destruct G02 as [Gu _]. destruct (Gu i x Hx) as (y & Hy & Hn & Hd). exists y. split_and!; [done..|]. apply Hd. by apply (Hsu i). }
  eapply and_then_holds with (P := λ s', ∃ x, users s' !! 0 = Some x ∧ HasFlag x Deleted = false); [| |exact Hend2].
  { unfold UIDExists. rewrite (snapshot_uid _ _ Hsnap) by done. destruct (negb (negb _)) eqn:Ex.
    - eapply st_holds_conseq; [apply create_user_holds; apply master_setup_grows|]. intros r s3 [Hg Hr]. split; [done|]. naive_solver.
    - split; [by apply grows_obs|]. intros _. cbn. destruct (users s !! 0) as [x|] eqn:Ex0; [|done]. destruct (Hold 0 x) as (y & ? & _ & ?); eauto. }
  intros s3 G3 (x0 & Hx0 & Hd0).
  assert (∀ r s', grows s3 s' → (r = Ok true → ∃ x, users s' !! 1 = Some x ∧ HasFlag x Deleted = false ∧ name x = lit "default") →
    finished s r s') as Hfin.
  { intros r s' [Gu Gg] Hr. split; [apply (grows_trans _ s2 _ G02), (grows_trans _ s3 _ G3); by split|]. intros Et. split.
    - destruct (Gu 0 x0 Hx0) as (y & Hy & _ & Hd). eauto.
    - by apply Hr.
    - destruct P1 as [g Hg]. exists g. apply Gg, G3, G2, Hg.
    - destruct P2 as (g & Hg & Hn). exists g. split; [apply Gg, G3, Hg|done]. }
  destruct (UIDExists ca 1) eqn:Ex; cbn [negb].
  - destruct (Z.eqb_spec (NameToUID ca (lit "default")) 1) as [En|]; cbn [negb].
    + destruct (snapshot_name _ _ Hsnap _ _ En) as (x & Hx & Hn); [done|]. destruct (Hold 1 x) as (y & Hy & Hny & Hdy); [by right|done|].
      assert (∃ z, users s3 !! 1 = Some z ∧ HasFlag z Deleted = false ∧ name z = lit "default") as Hz.
      { destruct G3 as [Gu _]. destruct (Gu 1 y Hy) as (z & Hz & Hnz & Hdz). exists z. split_and!; [done|auto|congruence]. }
      destruct (negb _); [apply Hfin; [apply LogError_grows|done]|]. apply Hfin; [by apply grows_obs|done].
    + apply Hfin; [apply LogError_grows|done].
  - eapply st_holds_conseq; [apply create_user_holds; apply template_setup_grows|]. intros r s4 [Hg Hr]. apply Hfin; [done|]. naive_solver.
Qed.

Lemma CreateDefaults_holds s : snapshot (users s) (groups s) → sound (users s) (groups s) →
  st_holds (CreateDefaults ca rounds HashPassword salt today) s (finished s).
Proof.
  intros Hsnap Hs. apply st_holds_catch. eapply st_holds_conseq; [by apply body_holds|]. intros [b|e] s' [Hg Hr]; [by split|].
  by destruct e.
Qed.

End facts.

Section start.
Context {W : Type} `{Mongo W, !Collection W UserData, !Collection W GroupData, Split}.
Context `{CaseConv, Fnmatch, RegexMatch, BoostCast, ReplaceAll, Trim}.

(** C18: The accounts of a running server.  The server goes on after its start only if
    CreateDefaults returns true.  Let the caches hold what the database held, and the
    accounts with the ids 0 and 1 that exist be fit (the users not marked as deleted, the
    template group named default); however calls to the database fail, CreateDefaults
    loses no account, and when it returns true there are a master user and a template
    user named default, neither marked as deleted, and the two groups.  From then on,
    whatever sequence of the twenty-three site commands on accounts is run in any sessions,
    with any arguments, rights and configurations, and whatever fails, they are there;
    between these commands everything else, other commands too, may write to the
    database, as long as that removes no account, marks and unmarks no user as deleted,
    and changes no name. *)
Theorem accounts_from_start
  `{!CollectionOk W UserData groups_in, !CollectionOk W GroupData users_in, !MongoOk W (λ w, (users_in w, groups_in w))}
  ca rounds HashPassword salt today d r d1 :
  snapshot ca (users d) (groups d) → sound (users d) (groups d) →
  CreateDefaults ca rounds HashPassword salt today d = (r, d1) →
  grows d d1 ∧ (r = Ok true → ∀ d2, reachable d1 d2 → required (users d2) (groups d2)).
Proof.
  intros Hsnap Hs E. pose proof (CreateDefaults_holds ca rounds HashPassword salt today d Hsnap Hs) as Hh.
  unfold st_holds in Hh. rewrite E in Hh. destruct Hh as [Hg Hr]. split; [done|]. intros Et d2 Hreach.
  apply (required_accounts_kept d1 d2 Hreach). by apply Hr.
Qed.

End start.

(** ** The first start, on an empty database in memory *)

Module Example.

#[local] Existing Instances ref_split ref_fnmatch ref_replace_all ref_case ref_trim SiteSafety.Example.regex SiteSafety.Example.cast.

Definition nothing : Db Memory := MkDb (∅, ∅) [].
Definition caches : Caches := {|
  UIDToName _ := lit "unknown"; NameToUID _ := -1; UIDToPrimaryGID _ := -1; GIDToName _ := lit "unknown"; NameToGID _ := -1
|}.
Definition first : result DBThrow bool * Db Memory := CreateDefaults caches 1 (λ pw salt, salt ++ pw) (λ _, lit "salt") 0 nothing.

Example first_starts : first.1 = Ok true.
Proof. vm_compute. reflexivity. Qed.

(** Who is created *)
Example first_users : (λ u, (name u, flags u, primaryGid u, ipMasks u)) <$> users first.2 =
  {[ 0 := (lit "ebftpd", lit "1", 0, [lit "*@localhost"]); 1 := (lit "default", lit "3", -1, []) ]}.
Proof. vm_compute. reflexivity. Qed.

(** A template group of another name is not noticed while there is no template user. *)
Definition odd : Db Memory := MkDb (∅, {[ 0 := SiteSafety.Example.group 0 "ebftpd"; 1 := SiteSafety.Example.group 1 "staff" ]}) [].
Definition odd_caches : Caches := {|
  UIDToName _ := lit "unknown"; NameToUID _ := -1; UIDToPrimaryGID _ := -1;
  GIDToName i := if i =? 0 then lit "ebftpd" else if i =? 1 then lit "staff" else lit "unknown"; NameToGID _ := -1
|}.
Example odd_starts : (CreateDefaults odd_caches 1 (λ pw salt, salt ++ pw) (λ _, lit "salt") 0 odd).1 = Ok true.
Proof. vm_compute. reflexivity. Qed.

(** The master tries to delete the template. *)
Definition session : Site Memory := MkSite first.2 ∅ [] [] (SiteSafety.Example.user 0 "ebftpd" "1") [] [] [].
Definition later : Db Memory :=
  db (run_command caches 1 SiteSafety.Example.configuration SiteSafety.Example.environment (λ p, p) (λ _, None) SiteSafety.Example.command session).2.

End Example.

#[local] Existing Instances ref_split ref_fnmatch ref_replace_all ref_case ref_trim SiteSafety.Example.regex SiteSafety.Example.cast.

Lemma accounts_from_start_witness : required (users Example.later) (groups Example.later).
Proof.
  assert (snapshot Example.caches (users Example.nothing) (groups Example.nothing)) as Hsnap.
  { split; [done|done|]. intros n i <-. done. }
  assert (sound (users Example.nothing) (groups Example.nothing)) as Hs by (by split).
  destruct (accounts_from_start Example.caches 1 (λ pw salt, salt ++ pw) (λ _, lit "salt") 0 Example.nothing
    (fst Example.first) (snd Example.first) Hsnap Hs (surjective_pairing _)) as [_ H].
  apply H; [exact Example.first_starts|].
  exact (reach_command (snd Example.first) Example.caches 1 SiteSafety.Example.configuration SiteSafety.Example.environment (λ p, p) (λ _, None)
    Example.session SiteSafety.Example.command (reach_start (snd Example.first))).
Defined.
