(* ===== verification/Server.v ===== *)
(** * The server thread: ftp/server.cpp, ftp/task/task.cpp, and the threads it serves

    One thread accepts the connections and owns the sessions' objects; every
    session has a thread of its own.  What a session wants of the others (to kick a
    user, to be cleaned up itself) it puts as a task into a queue that the server
    thread empties whenever a byte in a pipe wakes it up, and waits for the answer if
    the task has one.  The threads take turns at will: what a thread does between two
    accesses to something it shares (the queue, the pipe, the state of a session, the
    future of a task) is one step.

    Objects are named by numbers that are not used twice, so that a use of one that
    has been destroyed is seen.  The pipe has room for [capacity] bytes; a write to a
    full one waits.  What the code asserts, or leaves undefined when it does not hold,
    brings the model to [Undefined]. *)

From stdpp Require Import prelude gmap.
From S2P Require Import Prelude Counters Client.

(** ** Tasks *)

Module ReloadConfig.
Inductive Result : Type := Okay | Fail | StopStart.
End ReloadConfig.

(** [by_] is the session that holds the future. *)
Inductive Task : Type :=
  | KickUser (uid : Z) (oneOnly : bool) (by_ : nat)
  | LoginKickUser (uid : Z) (by_ : nat)
  | ReloadConfig_ (by_ : nat)
  | Exit
  | UserUpdate (uid : Z)
  | ClientFinished (client : nat).

(** The values of the promises *)
Inductive Answer : Type :=
  | Kicked (kicked : Z)
  | LoginKick (kicked : bool) (idleTime logins : Z)
  | Reloaded (config templates : ReloadConfig.Result).

(** ** A session, as far as the others see it *)

(** A command in execution: USER, PASS (before and after it had its other logins
    kicked), a command that needs a login and may push one task, any other, and one
    that has nothing left to do but to reply. *)
Inductive Cmd : Type := CUser | CPass (asked : bool) | CSite | CAny | CDone.

(** Where a session's thread is: in [NextCommand]; with a line; in a command; between
    [LoginGuard::Login] and the change of the state; a task pushed and its byte not
    written, with and without an answer to come; waiting for the answer; at the scope
    guard of [Run], before and behind its [SetState]; [ClientFinished] pushed and its
    byte not written; purging the trash; gone. *)
Inductive PC : Type :=
  | Reading | Fetched | Running (k : Cmd) | LoggingIn
  | AskWrite (k : Cmd) | TellWrite (k : Cmd) | Waiting (k : Cmd)
  | Leaving | Pushing | LeftWrite | Purging | Exited.

Record Conn := MkConn {
  st : ClientState;
  usr : option Z;
  loggedIn : bool;
  upd : bool;
  stopped : bool;
  fut : option Answer;
  pc : PC
}.

Definition set_st v c := MkConn v (usr c) (loggedIn c) (upd c) (stopped c) (fut c) (pc c).
Definition set_usr v c := MkConn (st c) v (loggedIn c) (upd c) (stopped c) (fut c) (pc c).
Definition set_loggedIn v c := MkConn (st c) (usr c) v (upd c) (stopped c) (fut c) (pc c).
Definition set_upd v c := MkConn (st c) (usr c) (loggedIn c) v (stopped c) (fut c) (pc c).
Definition set_stopped c := MkConn (st c) (usr c) (loggedIn c) (upd c) true (fut c) (pc c).
Definition set_fut v c := MkConn (st c) (usr c) (loggedIn c) (upd c) (stopped c) v (pc c).
Definition set_pc v c := MkConn (st c) (usr c) (loggedIn c) (upd c) (stopped c) (fut c) v.

(** A session whose thread has just been started *)
Definition new_Conn : Conn := MkConn LoggedOut None false false false None Reading.

(** ** The server *)

(** What is undefined, or fails an assertion: the user of a session that has none;
    a session that has been destroyed; a promise that has its value; a command of a
    session that is finished; a transfer of a session that is not in the table of who is
    online. *)
Inductive Trouble : Type := NoUser | DeadClient | PromiseTwice | FinishedCommand | NotOnline.

(** Where the thread is in the execution of a task *)
Inductive Work : Type :=
  | Start (t : Task)
  | Kicking (uid : Z) (oneOnly : bool) (by_ : nat) (todo : list nat) (kicked : Z)
  | Scanning (uid : Z) (by_ : nat) (todo : list nat) (toKick : option nat) (idleTime logins : Z)
  | Chosen (uid : Z) (by_ : nat) (toKick : option nat) (idleTime logins : Z)
  | Exiting
  | Updating (uid : Z) (todo : list nat)
  | Joining (client : nat).

(** Where the server thread is: at [while (!shutdown)]; woken up by the pipe; in
    [HandleTasks]; executing a task; about to accept; interrupting and joining the
    sessions.  [n] is the number of connections that [poll] has reported. *)
Inductive SPC : Type :=
  | Top
  | Ack (n : nat)
  | Draining (n : nat)
  | Working (w : Work) (n : nat)
  | Accepting (n : nat)
  | Stopping (todo : list nat)
  | StopJoining (todo : list nat)
  | Stopped
  | Undefined (why : Trouble).

(** [outside] counts the other threads (signals, replication) that have pushed a task
    and not written their byte. *)
Record Srv := MkSrv {
  spc : SPC;
  clients : gmap nat Conn;
  queue : list Task;
  pipe : nat;
  shutdown : bool;
  logins : Totals;
  outside : nat;
  next : nat
}.

Definition set_spc v σ := MkSrv v (clients σ) (queue σ) (pipe σ) (shutdown σ) (logins σ) (outside σ) (next σ).
Definition set_clients v σ := MkSrv (spc σ) v (queue σ) (pipe σ) (shutdown σ) (logins σ) (outside σ) (next σ).
Definition set_queue v σ := MkSrv (spc σ) (clients σ) v (pipe σ) (shutdown σ) (logins σ) (outside σ) (next σ).
Definition set_pipe v σ := MkSrv (spc σ) (clients σ) (queue σ) v (shutdown σ) (logins σ) (outside σ) (next σ).
Definition set_shutdown σ := MkSrv (spc σ) (clients σ) (queue σ) (pipe σ) true (logins σ) (outside σ) (next σ).
Definition set_logins v σ := MkSrv (spc σ) (clients σ) (queue σ) (pipe σ) (shutdown σ) v (outside σ) (next σ).
Definition set_outside v σ := MkSrv (spc σ) (clients σ) (queue σ) (pipe σ) (shutdown σ) (logins σ) v (next σ).

Definition init : Srv := MkSrv Top ∅ [] 0 false no_totals 0 0.

Section code.
(** The capacity of a pipe, and of the configuration and the users what the login
    counter is given *)
Context (capacity : nat) (maxUsers : Z) (numLogins : Z → Z).
Implicit Types (σ : Srv) (c : Conn).

(** ** What sessions and server do to a session *)

(** [ClientImpl::SetState], with [LoginGuard::Logout]; who makes the change of
    [LoggedIn] to [Finished] does the log-out.  The code changes the state under the mutex
    and logs out just after; here both are one step. *)
Definition SetState (v : ClientState) (i : nat) c σ : Srv :=
  let logout := bool_decide (v = Finished) && bool_decide (st c = LoggedIn) in
  let c := set_st v c in
  match logout, usr c with
  | true, Some u => set_logins (Stop u (logins σ)) (set_clients (<[i := set_loggedIn false c]> (clients σ)) σ)
  | _, _ => set_clients (<[i := c]> (clients σ)) σ
  end.

(** [ClientImpl::Interrupt]: the interruption of the thread and the end of its sockets
    are seen by its next reading. *)
Definition Interrupt (i : nat) c σ : Srv := SetState Finished i (set_stopped c) σ.

(** ** The queue and the pipe *)

(** The two halves of [Server::PushTask] *)
Definition PushTask (t : Task) σ : Srv := set_queue (queue σ ++ [t]) σ.
Definition WritePipe σ : option Srv := if pipe σ <? capacity then Some (set_pipe (S (pipe σ)) σ) else None.

(** [promise.set_value], after which the thread goes on at [pc] *)
Definition set_value (i : nat) (a : Answer) (pc : SPC) σ : Srv :=
  match clients σ !! i with
  | None => set_spc pc σ
  | Some c =>
      match fut c with
      | Some _ => set_spc (Undefined PromiseTwice) σ
      | None => set_spc pc (set_clients (<[i := set_fut (Some a) c]> (clients σ)) σ)
      end
  end.

(** ** The execution of tasks *)

(** What the environment decides: what [poll] reports; whether a connection can be
    accepted; in which order a set is gone through; for how long a session has been
    idle; whether the configuration and the templates load, and whether the new
    configuration needs a restart. *)
Inductive Choice : Type :=
  | CPoll (n : nat) | CPollFails | CAccept (accepted : bool) | COrder (todo : list nat)
  | CIdle (idleTime : Z) | CReload (loaded templates needed : bool) | CGo.

(** An order of the sessions, as the set of them may be gone through *)
Definition ordered (todo : list nat) σ : bool :=
  bool_decide (NoDup todo) && bool_decide (list_to_set todo =@{gset nat} dom (clients σ)).

Definition KickUser_step uid (oneOnly : bool) by_ (todo : list nat) (kicked : Z) n σ : Srv :=
  match todo with
  | [] => set_value by_ (Kicked kicked) (Draining n) σ
  | i :: todo =>
      match clients σ !! i with
      | None => set_spc (Undefined DeadClient) σ
      | Some c =>
          match usr c with
          | None => set_spc (Undefined NoUser) σ
          | Some u =>
              if (u =? uid)%Z then
                set_spc (Working (Kicking uid oneOnly by_ (if oneOnly then [] else todo) (kicked + 1)) n) (Interrupt i c σ)
              else set_spc (Working (Kicking uid oneOnly by_ todo kicked) n) σ
          end
      end
  end.

(** One session of the loop of [LoginKickUser::Execute]; behind the last the loop is
    left, or begun again when the session that was chosen is not logged in any more. *)
Definition LoginKickUser_scan uid by_ (todo : list nat) (toKick : option nat) (idleTime logins idle : Z) n σ : Srv :=
  match todo with
  | [] =>
      match toKick with
      | None => set_spc (Working (Chosen uid by_ None idleTime logins) n) σ
      | Some i =>
          match clients σ !! i with
          | None => set_spc (Undefined DeadClient) σ
          | Some c => set_spc (Working (if bool_decide (st c = LoggedIn) then Chosen uid by_ (Some i) idleTime logins
                                        else Start (LoginKickUser uid by_)) n) σ
          end
      end
  | i :: todo =>
      match clients σ !! i with
      | None => set_spc (Undefined DeadClient) σ
      | Some c =>
          if bool_decide (st c = LoggedIn) then
            match usr c with
            | None => set_spc (Undefined NoUser) σ
            | Some u =>
                if (u =? uid)%Z then
                  let '(toKick, idleTime) := if (idleTime <=? idle)%Z then (Some i, idle) else (toKick, idleTime) in
                  set_spc (Working (Scanning uid by_ todo toKick idleTime (logins + 1)) n) σ
                else set_spc (Working (Scanning uid by_ todo toKick idleTime logins) n) σ
            end
          else set_spc (Working (Scanning uid by_ todo toKick idleTime logins) n) σ
      end
  end.

Definition LoginKickUser_end by_ (toKick : option nat) (idleTime logins : Z) n σ : Srv :=
  match toKick with
  | None => set_value by_ (LoginKick false idleTime logins) (Draining n) σ
  | Some i =>
      match clients σ !! i with
      | None => set_spc (Undefined DeadClient) σ
      | Some c => set_value by_ (LoginKick true idleTime logins) (Draining n) (Interrupt i c σ)
      end
  end.

(** [ReloadConfig::Execute]: the need of a restart replaces the failure. *)
Definition ReloadConfig_Execute (loaded templates needed : bool) : Answer :=
  let configResult := if loaded then ReloadConfig.Okay else ReloadConfig.Fail in
  let templatesResult := if templates then ReloadConfig.Okay else ReloadConfig.Fail in
  let configResult := if needed then ReloadConfig.StopStart else configResult in
  Reloaded configResult templatesResult.

(** The reply of SITE RELOAD to the answer *)
Definition RELOADCommand_reply (configResult templatesResult : ReloadConfig.Result) : str :=
  let config := match configResult with ReloadConfig.Fail => lit "Config failed to reload." | _ => lit "Config reloaded." end in
  let restart := match configResult with
    | ReloadConfig.StopStart => LF :: lit "Some of the options changed require a full stop start." | _ => [] end in
  let templates := match templatesResult with
    | ReloadConfig.Fail => LF :: lit "Templates failed to reload." | _ => LF :: lit "Templates reloaded." end in
  let furtherDetails := match configResult, templatesResult with
    | ReloadConfig.Okay, ReloadConfig.Fail | ReloadConfig.Fail, _ | ReloadConfig.StopStart, _ => true | _, _ => false end in
  config ++ restart ++ templates ++
  (if furtherDetails then LF :: lit "See SITE LOGS ERROR for further details." else []).

Definition UserUpdate_step uid (todo : list nat) n σ : Srv :=
  match todo with
  | [] => set_spc (Draining n) σ
  | i :: todo =>
      match clients σ !! i with
      | None => set_spc (Undefined DeadClient) σ
      | Some c =>
          let σ := set_spc (Working (Updating uid todo) n) σ in
          if bool_decide (st c = LoggedIn) then
            match usr c with
            | None => set_spc (Undefined NoUser) σ
            | Some u => if (u =? uid)%Z then set_clients (<[i := set_upd true c]> (clients σ)) σ else σ
            end
          else σ
      end
  end.

(** [CleanupClient] joins the thread of the session and destroys its object. *)
Definition CleanupClient (i : nat) n σ : option Srv :=
  match clients σ !! i with
  | None => Some (set_spc (Undefined DeadClient) σ)
  | Some c =>
      match pc c with
      | Exited => Some (set_spc (Draining n) (set_clients (delete i (clients σ)) σ))
      | _ => None
      end
  end.

(** [task->Execute( *this)] *)
Definition Execute_start (t : Task) (ch : Choice) n σ : option Srv :=
  match t, ch with
  | KickUser uid oneOnly by_, COrder todo =>
      if ordered todo σ then Some (set_spc (Working (Kicking uid oneOnly by_ todo 0) n) σ) else None
  | LoginKickUser uid by_, COrder todo =>
      if ordered todo σ then Some (set_spc (Working (Scanning uid by_ todo None 0 0) n) σ) else None
  | ReloadConfig_ by_, CReload loaded templates needed =>
      Some (set_value by_ (ReloadConfig_Execute loaded templates needed) (Draining n) σ)
  | Exit, CGo => Some (set_spc (Working Exiting n) (set_shutdown σ))
  | UserUpdate uid, COrder todo =>
      if ordered todo σ then Some (set_spc (Working (Updating uid todo) n) σ) else None
  | ClientFinished i, CGo =>
      match clients σ !! i with
      | None => Some (set_spc (Undefined DeadClient) σ)
      | Some c => Some (set_spc (if bool_decide (st c = Finished) then Working (Joining i) n else Undefined FinishedCommand) σ)
      end
  | _, _ => None
  end.

Definition Work_step (w : Work) (ch : Choice) n σ : option Srv :=
  match w, ch with
  | Start t, _ => Execute_start t ch n σ
  | Kicking uid oneOnly by_ todo kicked, CGo => Some (KickUser_step uid oneOnly by_ todo kicked n σ)
  | Scanning uid by_ todo toKick idleTime logins, CIdle idle =>
      Some (LoginKickUser_scan uid by_ todo toKick idleTime logins idle n σ)
  | Chosen uid by_ toKick idleTime logins, CGo => Some (LoginKickUser_end by_ toKick idleTime logins n σ)
  | Exiting, CGo => σ ← WritePipe σ; Some (set_spc (Draining n) σ)
  | Updating uid todo, CGo => Some (UserUpdate_step uid todo n σ)
  | Joining i, CGo => CleanupClient i n σ
  | _, _ => None
  end.

(** ** The loop of the server *)

(** One round of the loop of [HandleTasks], up to the execution of the task *)
Definition HandleTasks n σ : Srv :=
  match queue σ with
  | [] => set_spc (Accepting n) σ
  | t :: q => set_spc (Working (Start t) n) (set_queue q σ)
  end.

Definition AcceptClient (accepted : bool) σ : Srv :=
  if accepted then
    MkSrv (spc σ) (<[next σ := new_Conn]> (clients σ)) (queue σ) (pipe σ) (shutdown σ) (logins σ) (outside σ) (S (next σ))
  else σ.

(** The head of the loop of [Run], the [poll] of [AcceptClients] and the head of
    [StopClients] *)
Definition Run_step (ch : Choice) σ : option Srv :=
  if shutdown σ then
    match ch with
    | COrder todo => if ordered todo σ then Some (set_spc (Stopping todo) σ) else None
    | _ => None
    end
  else
    match ch with
    | CPoll n => Some (set_spc (if 0 <? pipe σ then Ack n else Accepting n) σ)
    | CPollFails => Some σ
    | _ => None
    end.

Definition StopClients_interrupt (todo : list nat) (ch : Choice) σ : option Srv :=
  match todo, ch with
  | i :: todo, CGo =>
      match clients σ !! i with
      | None => Some (set_spc (Undefined DeadClient) σ)
      | Some c => Some (set_spc (Stopping todo) (Interrupt i c σ))
      end
  | [], COrder todo => if ordered todo σ then Some (set_spc (StopJoining todo) σ) else None
  | _, _ => None
  end.

Definition StopClients_join (todo : list nat) σ : option Srv :=
  match todo with
  | [] => Some (set_spc Stopped (set_clients ∅ σ))
  | i :: todo =>
      match clients σ !! i with
      | None => Some (set_spc (Undefined DeadClient) σ)
      | Some c => match pc c with Exited => Some (set_spc (StopJoining todo) σ) | _ => None end
      end
  end.

Definition server_step (ch : Choice) σ : option Srv :=
  match spc σ, ch with
  | Top, _ => Run_step ch σ
  | Ack n, CGo => Some (set_spc (Draining n) (set_pipe (pipe σ - 1) σ))
  | Draining n, CGo => Some (HandleTasks n σ)
  | Working w n, _ => Work_step w ch n σ
  | Accepting 0, CGo => Some (set_spc Top σ)
  | Accepting (S n), CAccept accepted => Some (set_spc (Accepting n) (AcceptClient accepted σ))
  | Stopping todo, _ => StopClients_interrupt todo ch σ
  | StopJoining todo, CGo => StopClients_join todo σ
  | _, _ => None
  end.

(** ** The threads of the sessions *)

(** What a session's thread does next, as far as it or its client may choose: a line
    arrives; the reading or the command throws; the user is reloaded; the line is
    answered without a command, or is a command; USER, a wrong password, the end
    of the session; a task is pushed, its byte written, its answer read; the two halves of
    a log-in; a command returns; the three parts of the scope guard. *)
Inductive Action : Type :=
  | ALine | AThrow | AReload (ok : bool) | ASkip | ACheck (k : Cmd)
  | AUser (uid : Z) | AOut | AFinish | AAsk (t : Task) | AWrite | AGet
  | AXferEnd | ALogin | ALoggedIn | AReturn | AGuard | APush | APurge.

(** The state that a command needs; [None]: any *)
Definition required (k : Cmd) : option ClientState :=
  match k with CUser => Some LoggedOut | CPass _ => Some WaitingPassword | CSite => Some LoggedIn | _ => None end.

(** A command is not begun in its middle. *)
Definition inner (k : Cmd) : bool := match k with CPass true | CDone => true | _ => false end.

Definition put (i : nat) c σ : Srv := set_clients (<[i := c]> (clients σ)) σ.

(** The step of [Handle] behind [NextCommand], up to the command *)
Definition Handle_step (i : nat) (a : Action) c σ : option Srv :=
  match a with
  | AReload ok =>
      if upd c then
        let c := set_upd false c in
        Some (if ok then put i c σ else SetState Finished i (set_pc Leaving c) σ)
      else None
  | ASkip => if upd c then None else Some (put i (set_pc (Running CDone) c) σ)
  | ACheck k =>
      if upd c || inner k then None
      else match required k with
      | None => Some (put i (set_pc (Running k) c) σ)
      | Some reqd =>
          Some (if bool_decide (st c = reqd) then put i (set_pc (Running k) c) σ
                else if bool_decide (st c = Finished) then set_spc (Undefined FinishedCommand) σ
                else put i (set_pc (Running CDone) c) σ)
      end
  | _ => None
  end.

(** [kickResult.kicked], false as long as no login was kicked *)
Definition kicked_of (asked : bool) c : bool :=
  match asked, fut c with true, Some (LoginKick kicked _ _) => kicked | _, _ => false end.

(** The end of PASS: [SetLoggedIn], its first half *)
Definition Login_step (i : nat) (asked : bool) c σ : option Srv :=
  match usr c with
  | None => Some (set_spc (Undefined NoUser) σ)
  | Some u =>
      let '(r, l) := LoginCounter.Start maxUsers u (numLogins u) (kicked_of asked c) (logins σ) in
      Some (match r with
            | Okay => set_logins l (put i (set_pc LoggingIn (set_loggedIn true c)) σ)
            | _ => SetState Finished i (set_pc (Running CDone) c) (set_logins l σ)
            end)
  end.

(** The tasks that a command may push for its session *)
Definition ask (i : nat) (k : Cmd) (t : Task) c : option Conn :=
  match k, t with
  | CPass false, LoginKickUser uid j =>
      if bool_decide (usr c = Some uid ∧ j = i) then Some (set_pc (AskWrite (CPass true)) (set_fut None c)) else None
  | CSite, KickUser _ _ j | CSite, ReloadConfig_ j =>
      if j =? i then Some (set_pc (AskWrite CDone) (set_fut None c)) else None
  | CSite, Exit => Some (set_pc (TellWrite CDone) c)
  | _, _ => None
  end.

(** A command.  At the end of a transfer, [OnlineTransferUpdater] looks for the session in
    the table of who is online; a session is there from its log-in to its log-out. *)
Definition Command_step (i : nat) (k : Cmd) (a : Action) c σ : option Srv :=
  match a, k with
  | AUser u, CUser => Some (put i (set_pc (Running CDone) (set_usr (Some u) (set_st WaitingPassword c))) σ)
  | AOut, CPass false => Some (SetState LoggedOut i (set_pc (Running CDone) c) σ)
  | AFinish, (CPass false | CSite | CAny) => Some (SetState Finished i (set_pc (Running CDone) c) σ)
  | AXferEnd, CSite =>
      Some (if loggedIn c then put i (set_pc (Running CDone) c) σ else set_spc (Undefined NotOnline) σ)
  | AAsk t, _ => c ← ask i k t c; Some (PushTask t (put i c σ))
  | ALogin, CPass asked => Login_step i asked c σ
  | AReturn, _ => Some (put i (set_pc (if bool_decide (st c = Finished) then Leaving else Reading) c) σ)
  | AThrow, _ => Some (put i (set_pc Leaving c) σ)
  | _, _ => None
  end.

Definition client_step (i : nat) (a : Action) σ : option Srv :=
  c ← clients σ !! i;
  match pc c, a with
  | Reading, ALine => if stopped c then None else Some (put i (set_pc Fetched c) σ)
  | Reading, AThrow => Some (put i (set_pc Leaving c) σ)
  | Fetched, _ => Handle_step i a c σ
  | Running k, _ => Command_step i k a c σ
  | LoggingIn, ALoggedIn => Some (put i (set_pc (Running CDone) (set_st LoggedIn c)) σ)
  | AskWrite k, AWrite => WritePipe (put i (set_pc (Waiting k) c) σ)
  | TellWrite k, AWrite => WritePipe (put i (set_pc (Running k) c) σ)
  | Waiting k, AGet => match fut c with Some _ => Some (put i (set_pc (Running k) c) σ) | None => None end
  | Leaving, AGuard => Some (SetState Finished i (set_pc Pushing c) σ)
  | Pushing, APush => Some (PushTask (ClientFinished i) (put i (set_pc LeftWrite c) σ))
  | LeftWrite, AWrite => WritePipe (put i (set_pc Purging c) σ)
  | Purging, APurge => Some (put i (set_pc Exited c) σ)
  | _, _ => None
  end.

(** ** All threads *)

Inductive Event : Type :=
  | EServer (ch : Choice) | EClient (i : nat) (a : Action) | EPush (t : Task) | EWrite.

(** The other threads push the end of the server and the updates of users. *)
Definition outside_step (e : Event) σ : option Srv :=
  match e with
  | EPush t =>
      match t with
      | Exit | UserUpdate _ => Some (set_outside (S (outside σ)) (PushTask t σ))
      | _ => None
      end
  | EWrite => match outside σ with O => None | S m => WritePipe (set_outside m σ) end
  | _ => None
  end.

(** Nothing goes on once something undefined has happened. *)
Definition step (e : Event) σ : option Srv :=
  match spc σ, e with
  | Undefined _, _ => None
  | _, EServer ch => server_step ch σ
  | _, EClient i a => client_step i a σ
  | _, _ => outside_step e σ
  end.

Definition run (es : list Event) σ : option Srv := foldl (λ m e, m ≫= step e) (Some σ) es.

Definition next_state σ σ' : Prop := ∃ e, step e σ = Some σ'.
Definition reachable : Srv → Prop := rtc next_state init.

End code.

(** ** Who owes what to whom *)

(** The session that waits for the answer of a task, and the one that a task cleans up *)
Definition by_of (t : Task) : option nat :=
  match t with KickUser _ _ i | LoginKickUser _ i | ReloadConfig_ i => Some i | _ => None end.
Definition cleans (t : Task) : option nat := match t with ClientFinished i => Some i | _ => None end.

Fixpoint count_of (f : Task → option nat) (i : nat) (l : list Task) : nat :=
  match l with [] => 0 | t :: l => (if decide (f t = Some i) then 1 else 0) + count_of f i l end.

(** The task that is being executed, and all that are still to be *)
Definition task_of (w : Work) : Task :=
  match w with
  | Start t => t
  | Kicking uid oneOnly by_ _ _ => KickUser uid oneOnly by_
  | Scanning uid by_ _ _ _ _ | Chosen uid by_ _ _ _ => LoginKickUser uid by_
  | Exiting => Exit
  | Updating uid _ => UserUpdate uid
  | Joining i => ClientFinished i
  end.
Definition executing (p : SPC) : list Task := match p with Working w _ => [task_of w] | _ => [] end.
Definition pending (σ : Srv) : list Task := executing (spc σ) ++ queue σ.

Definition asking (c : Conn) : bool :=
  match pc c, fut c with (AskWrite _ | Waiting _), None => true | _, _ => false end.
Definition has_left (c : Conn) : bool := match pc c with LeftWrite | Purging | Exited => true | _ => false end.
Definition owed (f : Conn → bool) (m : gmap nat Conn) (i : nat) : nat :=
  match m !! i with Some c => if f c then 1 else 0 | None => 0 end.

Lemma count_of_app f i l k : count_of f i (l ++ k) = count_of f i l + count_of f i k.
Proof. induction l as [|t l IH]; cbn; [done|]. rewrite IH. lia. Qed.

Lemma count_of_pos f i l : 0 < count_of f i l ↔ ∃ t, t ∈ l ∧ f t = Some i.
Proof.
  induction l as [|t l IH]; cbn.
  - split; [lia|]. by intros (t & ?%elem_of_nil & _).
  - split.
    + intros Hp. destruct (decide (f t = Some i)); [exists t; by split; [left|]|].
      destruct (proj1 IH ltac:(lia)) as (t' & ? & ?). exists t'. split; [by right|done].
    + intros (t' & [->|Ht]%elem_of_cons & Hf); [rewrite decide_True by done; lia|].
      assert (0 < count_of f i l) by (apply IH; eauto). lia.
Qed.

Lemma owed_insert f m i c j :
  owed f (<[i := c]> m) j = if decide (j = i) then (if f c then 1 else 0) else owed f m j.
Proof. unfold owed. destruct (decide (j = i)) as [->|]; [by rewrite lookup_insert_eq|by rewrite lookup_insert_ne]. Qed.

Lemma owed_delete f m i j : owed f (delete i m) j = if decide (j = i) then 0 else owed f m j.
Proof. unfold owed. destruct (decide (j = i)) as [->|]; [by rewrite lookup_delete_eq|by rewrite lookup_delete_ne]. Qed.

(** ** The bag of the users that are logged in *)

Definition login_of (c : Conn) : option Z := if loggedIn c then usr c else None.
Definition bag (m : gmap nat Conn) : list Z := omap login_of (map_to_list m).*2.

Lemma count_perm x l k : l ≡ₚ k → count x l = count x k.
Proof. induction 1; cbn; lia. Qed.

Lemma represents_perm t l k : l ≡ₚ k → represents t l → represents t k.
Proof.
  intros Hp [Hg Hc]. split; [by rewrite Hg, Hp|]. intros u. by rewrite Hc, (count_perm _ _ _ Hp).
Qed.

Lemma bag_fresh m i c : m !! i = None → bag (<[i := c]> m) ≡ₚ option_list (login_of c) ++ bag m.
Proof.
  intros Hm. unfold bag. rewrite map_to_list_insert by done. cbn. by destruct (login_of c).
Qed.

Lemma bag_lookup m i c : m !! i = Some c → bag m ≡ₚ option_list (login_of c) ++ bag (delete i m).
Proof.
  intros Hm. rewrite <- (insert_delete_id m i c Hm) at 1. apply bag_fresh, lookup_delete_eq.
Qed.

Lemma bag_insert m i c : bag (<[i := c]> m) ≡ₚ option_list (login_of c) ++ bag (delete i m).
Proof. rewrite <- insert_delete_eq. apply bag_fresh, lookup_delete_eq. Qed.

(** A change of a session that leaves its log-in alone, a log-in, and a log-out *)
Lemma bag_keep t m i c c' :
  m !! i = Some c → login_of c' = login_of c → represents t (bag m) → represents t (bag (<[i := c']> m)).
Proof. intros Hm Hl. apply represents_perm. by rewrite bag_insert, (bag_lookup m i c), Hl. Qed.

Lemma bag_login t m i c c' u :
  m !! i = Some c → login_of c = None → login_of c' = Some u →
  represents t (bag m) → represents (incr u t) (bag (<[i := c']> m)).
Proof.
  intros Hm Hl Hl' Hr. eapply represents_perm; [|by apply (represents_incr u t), Hr].
  by rewrite bag_insert, (bag_lookup m i c), Hl, Hl'.
Qed.

Lemma bag_logout t m i c c' u :
  m !! i = Some c → login_of c = Some u → login_of c' = None →
  represents t (bag m) → represents (Stop u t) (bag (<[i := c']> m)).
Proof.
  intros Hm Hl Hl' Hr. apply (represents_perm _ _ (u :: bag (delete i m))) in Hr;
    [|by rewrite (bag_lookup m i c), Hl].
  apply (represents_Stop u) in Hr; [|by left]. cbn in Hr. rewrite decide_True in Hr by done.
  eapply represents_perm; [|exact Hr]. by rewrite bag_insert, Hl'.
Qed.

(** ** The invariant of a session *)

Definition pass_cmd (k : Cmd) : bool := match k with CPass _ => true | _ => false end.
Definition login_cmd (k : Cmd) : bool := match k with CUser | CPass _ => true | _ => false end.
Definition site_cmd (k : Cmd) : bool := match k with CSite => true | _ => false end.
Definition within (f : Cmd → bool) (p : PC) : bool :=
  match p with Running k | AskWrite k | TellWrite k | Waiting k => f k | LoggingIn => true | _ => false end.
Definition ended (p : PC) : bool := match p with Pushing | LeftWrite | Purging | Exited => true | _ => false end.

Record conn_ok (c : Conn) : Prop := {
  ok_logged : loggedIn c = true ↔ st c = LoggedIn ∨ pc c = LoggingIn;
  ok_user : loggedIn c = true ∨ st c = WaitingPassword ∨ within pass_cmd (pc c) = true → usr c ≠ None;
  ok_in : st c = LoggedIn → within login_cmd (pc c) = false;
  ok_end : ended (pc c) = true → st c = Finished;
  ok_read : pc c = Reading ∨ pc c = Fetched → st c = Finished → stopped c = true;
  ok_site : within site_cmd (pc c) = true → loggedIn c = true ∨ stopped c = true
}.

(** The session, once [SetState(Finished)] is through *)
Definition finish (c : Conn) : Conn :=
  set_loggedIn (if bool_decide (st c = LoggedIn) then false else loggedIn c) (set_st Finished c).

Lemma SetState_Finished i c0 c σ :
  clients σ !! i = Some c0 → login_of c = login_of c0 → (loggedIn c = true → usr c ≠ None) →
  (st c = LoggedIn → loggedIn c = true) → represents (logins σ) (bag (clients σ)) →
  ∃ l, SetState Finished i c σ = set_logins l (put i (finish c) σ) ∧ represents l (bag (<[i := finish c]> (clients σ))).
Proof.
  intros Hi Hl Hu Hg Hr. unfold SetState, finish. rewrite (bool_decide_eq_true_2 (Finished = Finished)) by done.
  cbn [andb set_st usr]. case_bool_decide as Hst.
  - specialize (Hg Hst). specialize (Hu Hg). destruct (usr c) as [u|] eqn:Eu; [|done].
    exists (Stop u (logins σ)). split; [by destruct σ|].
    eapply bag_logout; [done| |done|done]. rewrite <- Hl. unfold login_of. by rewrite Hg.
  - exists (logins σ). split; [by destruct σ, c|]. eapply bag_keep; [done| |done]. by destruct c.
Qed.

Lemma SetState_other v i c σ : v ≠ Finished → SetState v i c σ = put i (set_st v c) σ.
Proof. intros Hv. unfold SetState. by rewrite bool_decide_eq_false_2. Qed.

Lemma finish_ok c p : conn_ok c → p = pc c ∨ pc c ≠ LoggingIn ∧ (p = Running CDone ∨ p = Leaving ∨ p = Pushing) →
  (p = Reading ∨ p = Fetched ∨ within site_cmd p = true → stopped c = true) → conn_ok (finish (set_pc p c)).
Proof.
  intros [O1 O2 O3 O4 O5 O6] Hp Hs. destruct c as [s u g up sp fu q]. cbn in *.
  unfold finish. cbn. case_bool_decide as Hc; split; cbn; try done.
  all: destruct Hp as [->|(Hq & [->|[->| ->]])]; cbn in *; try (destruct g; intuition congruence).
  split; [done|]. intros [|Hq]; [done|]. subst q. by specialize (O3 Hc).
Qed.

(** A session that is finished, and in no command that makes it anything else *)
Definition gone (c : Conn) : bool := bool_decide (st c = Finished) && negb (within login_cmd (pc c)).

(** What a session that has been interrupted has still to do *)
Definition cmd_rank (k : Cmd) : nat :=
  match k with CDone => 6 | CUser | CAny => 7 | CPass true => 8 | CSite => 11 | CPass false => 12 end.
Definition rank (c : Conn) : nat :=
  match pc c with
  | Exited => 0 | Purging => 1 | LeftWrite => 2 | Pushing => 3 | Leaving => 4 | Reading => 5
  | Running k => cmd_rank k | LoggingIn => 7 | TellWrite k | Waiting k => 1 + cmd_rank k
  | AskWrite k => 2 + cmd_rank k
  | Fetched => if upd c then 14 else 13
  end.

Implicit Types (σ : Srv) (c : Conn).

(** [conn_step] for a session whose place and command are known *)
Ltac solve_conn :=
  repeat match goal with H : conn_ok _ |- _ => destruct H as [O1 O2 O3 O4 O5 O6] end;
  split; [split| | | | | | |]; cbn in *;
  unfold gone, asking, has_left, rank in *; cbn in *; try done;
  intros; repeat case_decide; repeat case_match; try case_bool_decide; simplify_eq/=;
  try done; try lia; intuition (try congruence; try lia).

Section effects.
Context (capacity : nat).

(** What a step of session [i] changes: the session becomes [c'], and [new] is pushed. *)
Record client_effect (i : nat) σ (c c' : Conn) (new : list Task) σ' : Prop := {
  ce_srv : σ' = MkSrv (spc σ) (<[i := c']> (clients σ)) (queue σ ++ new) (pipe σ') (shutdown σ) (logins σ') (outside σ) (next σ);
  ce_ok : conn_ok c';
  ce_logins : represents (logins σ') (bag (clients σ'));
  ce_asks j : count_of by_of j new + (if decide (j = i) then if asking c then 1 else 0 else 0)
    = if decide (j = i) then if asking c' then 1 else 0 else 0;
  ce_left j : count_of cleans j new + (if decide (j = i) then if has_left c then 1 else 0 else 0)
    = if decide (j = i) then if has_left c' then 1 else 0 else 0;
  ce_pipe : pipe σ ≤ pipe σ' ≤ Nat.max (pipe σ) capacity;
  ce_wait k : pc c' = Waiting k → 0 < pipe σ';
  ce_stop : stopped c' = stopped c;
  ce_exit : pc c ≠ Exited;
  ce_gone : gone c = true → gone c' = true;
  ce_out : st c = LoggedIn → st c' = LoggedIn ∨ gone c' = true;
  ce_rank : stopped c = true ∨ has_left c = true → rank c' < rank c
}.

(** The parts of the effect that do not depend on the rest of the server *)
Record conn_step (i : nat) (c c' : Conn) (new : list Task) : Prop := {
  cs_ok : conn_ok c';
  cs_asks j : count_of by_of j new + (if decide (j = i) then if asking c then 1 else 0 else 0)
    = if decide (j = i) then if asking c' then 1 else 0 else 0;
  cs_left j : count_of cleans j new + (if decide (j = i) then if has_left c then 1 else 0 else 0)
    = if decide (j = i) then if has_left c' then 1 else 0 else 0;
  cs_stop : stopped c' = stopped c;
  cs_exit : pc c ≠ Exited;
  cs_gone : gone c = true → gone c' = true;
  cs_out : st c = LoggedIn → st c' = LoggedIn ∨ gone c' = true;
  cs_rank : stopped c = true ∨ has_left c = true → rank c' < rank c
}.

(** A step that only changes the session, and may push a task or write a byte *)
Lemma put_effect i σ c c' new w :
  clients σ !! i = Some c → represents (logins σ) (bag (clients σ)) →
  conn_step i c c' new → login_of c' = login_of c → pipe σ ≤ w ≤ Nat.max (pipe σ) capacity →
  (∀ k, pc c' = Waiting k → 0 < w) →
  client_effect i σ c c' new (set_pipe w (set_queue (queue σ ++ new) (put i c' σ))).
Proof.
  intros Hi Hr [] Hl Hw Hk. split; try done. by eapply bag_keep.
Qed.

(** A step that neither pushes nor writes *)
Lemma keep_effect i σ c c' :
  clients σ !! i = Some c → represents (logins σ) (bag (clients σ)) →
  conn_step i c c' [] → login_of c' = login_of c → (∀ k, pc c' ≠ Waiting k) →
  client_effect i σ c c' [] (put i c' σ).
Proof.
  intros Hi Hr Hs Hl Hk.
  replace (put i c' σ) with (set_pipe (pipe σ) (set_queue (queue σ ++ []) (put i c' σ))) by (rewrite app_nil_r; by destruct σ).
  apply put_effect; try done; [lia|]. intros k ?. by destruct (Hk k).
Qed.

(** A step with a change of the state to finished *)
Lemma finish_effect i σ c c1 :
  clients σ !! i = Some c → represents (logins σ) (bag (clients σ)) → conn_ok c →
  conn_step i c (finish c1) [] → st c1 = st c → loggedIn c1 = loggedIn c → usr c1 = usr c →
  (∀ k, pc c1 ≠ Waiting k) →
  client_effect i σ c (finish c1) [] (SetState Finished i c1 σ).
Proof.
  intros Hi Hr Hok [] Hs Hg Hu Hk.
  destruct (SetState_Finished i c c1 σ Hi) as (l & -> & Hl); try done.
  - unfold login_of. by rewrite Hg, Hu.
  - rewrite Hg, Hu. intros. apply (ok_user _ Hok). by left.
  - rewrite Hg, Hs. intros. apply (ok_logged _ Hok). by left.
  - split; try done.
    + cbn. by rewrite app_nil_r.
    + cbn. lia.
    + intros k Hp. by destruct (Hk k).
Qed.

Lemma Handle_effect i a σ c σ' :
  Handle_step i a c σ = Some σ' → clients σ !! i = Some c → pc c = Fetched → conn_ok c →
  represents (logins σ) (bag (clients σ)) →
  (∃ k, a = ACheck k ∧ st c = Finished ∧ σ' = set_spc (Undefined FinishedCommand) σ) ∨
  ∃ c' new, client_effect i σ c c' new σ'.
Proof.
  intros E Hi Hp Hok Hr.
  pose proof (keep_effect i σ c) as Hkeep.
  destruct a; cbn in E; try done.
  - destruct (upd c) eqn:Eu; [|done]. injection E as <-. right. destruct ok.
    + do 2 eexists; apply Hkeep; [done|done| |done|cbn; congruence]. destruct c; cbn in *; subst. solve_conn.
    + do 2 eexists. apply finish_effect; try done. destruct c; cbn in *; subst. solve_conn.
  - destruct (upd c) eqn:Eu; [done|]. injection E as <-. right.
    do 2 eexists; apply Hkeep; [done|done| |done|done]. destruct c; cbn in *; subst. solve_conn.
  - destruct (upd c) eqn:Eu; [done|]. destruct (inner k) eqn:Ek; [done|]. cbn in E.
    destruct (required k) as [reqd|] eqn:Er; injection E as <-.
    + case_bool_decide as Hs; [right|case_bool_decide as Hf; [left; eauto|right]].
      * do 2 eexists; apply Hkeep; [done|done| |done|done]. destruct c, k as [|[] | | |]; cbn in *; simplify_eq; solve_conn.
      * do 2 eexists; apply Hkeep; [done|done| |done|done]. destruct c; cbn in *; subst. solve_conn.
    + right. do 2 eexists; apply Hkeep; [done|done| |done|done]. destruct c, k; cbn in *; simplify_eq; solve_conn.
Qed.

(** A step that pushes a task *)
Lemma push_effect i σ c c' t :
  clients σ !! i = Some c → represents (logins σ) (bag (clients σ)) →
  conn_step i c c' [t] → login_of c' = login_of c → (∀ k, pc c' ≠ Waiting k) →
  client_effect i σ c c' [t] (PushTask t (put i c' σ)).
Proof.
  intros Hi Hr Hs Hl Hk.
  replace (PushTask t (put i c' σ)) with (set_pipe (pipe σ) (set_queue (queue σ ++ [t]) (put i c' σ))) by (by destruct σ).
  apply put_effect; try done; [lia|]. intros k ?. by destruct (Hk k).
Qed.

(** A step that writes a byte *)
Lemma write_effect i σ c c' σ' :
  WritePipe capacity (put i c' σ) = Some σ' →
  clients σ !! i = Some c → represents (logins σ) (bag (clients σ)) →
  conn_step i c c' [] → login_of c' = login_of c → client_effect i σ c c' [] σ'.
Proof.
  intros E Hi Hr Hs Hl. unfold WritePipe in E. destruct (Nat.ltb_spec (pipe (put i c' σ)) capacity) as [Hlt|]; [|done].
  injection E as <-. cbn [pipe put set_clients] in *.
  replace (set_pipe _ (put i c' σ)) with (set_pipe (S (pipe σ)) (set_queue (queue σ ++ []) (put i c' σ)))
    by (rewrite app_nil_r; by destruct σ).
  apply put_effect; try done; [lia|]. intros. lia.
Qed.

End effects.

Arguments finish_effect {capacity}.
Arguments ce_srv {capacity i σ c c' new σ'}.
Arguments ce_out {capacity i σ c c' new σ'}.
Arguments ce_rank {capacity i σ c c' new σ'}.

(** [Start] refuses, or counts. *)
Lemma Start_cases mx u limit kick l :
  LoginCounter.Start mx u limit kick l = (PersonalFail, touch u l) ∨
  LoginCounter.Start mx u limit kick l = (Okay, incr u (touch u l)).
Proof. unfold LoginCounter.Start. cbv zeta. repeat case_match; by (left + right). Qed.

Section client_effects.
Context (capacity : nat) (maxUsers : Z) (numLogins : Z → Z).
Notation client_step := (client_step capacity maxUsers numLogins).
Notation client_effect := (client_effect capacity).

Lemma Login_effect i asked c σ σ' :
  Login_step maxUsers numLogins i asked c σ = Some σ' → clients σ !! i = Some c → pc c = Running (CPass asked) →
  conn_ok c → represents (logins σ) (bag (clients σ)) →
  ∃ c' new, client_effect i σ c c' new σ'.
Proof.
  intros E Hi Hp Hok Hr. unfold Login_step in E.
  destruct (usr c) as [u|] eqn:Eu; [|destruct (ok_user _ Hok); [rewrite Hp; by right; right|done]].
  assert (Hg : loggedIn c = false).
  { destruct (loggedIn c) eqn:Eg; [|done]. destruct (proj1 (ok_logged _ Hok) Eg) as [Hs|]; [|congruence].
    apply (ok_in _ Hok) in Hs. by rewrite Hp in Hs. }
  assert (Hl : login_of c = None) by (unfold login_of; by rewrite Hg).
  destruct (Start_cases maxUsers u (numLogins u) (kicked_of asked c) (logins σ)) as [Hs|Hs];
    rewrite Hs in E; injection E as <-; do 2 eexists.
  - set (σ1 := set_logins (touch u (logins σ)) σ).
    assert (Hcs : conn_step i c (finish (set_pc (Running CDone) c)) []).
    { destruct c; cbn in *; subst. solve_conn. }
    assert (He : client_effect i σ1 c (finish (set_pc (Running CDone) c)) [] (SetState Finished i (set_pc (Running CDone) c) σ1)).
    { apply finish_effect; try done. by apply represents_touch. }
    destruct He. by split.
  - assert (Hcs : conn_step i c (set_pc LoggingIn (set_loggedIn true c)) []).
    { destruct c; cbn in *; subst. solve_conn. }
    destruct Hcs. split; try done; cbn.
    + by rewrite app_nil_r.
    + eapply bag_login; [done|done|exact Eu|by apply represents_touch].
    + lia.
Qed.

(** What a step of a session runs into when the server has interrupted the session *)
Definition client_trouble (a : Action) c σ σ' : Prop :=
  stopped c = true ∧
  ((∃ k, a = ACheck k ∧ pc c = Fetched ∧ st c = Finished ∧ σ' = set_spc (Undefined FinishedCommand) σ) ∨
   (a = AXferEnd ∧ pc c = Running CSite ∧ loggedIn c = false ∧ σ' = set_spc (Undefined NotOnline) σ)).

Lemma Command_effect i k a c σ σ' :
  Command_step maxUsers numLogins i k a c σ = Some σ' → clients σ !! i = Some c → pc c = Running k →
  conn_ok c → represents (logins σ) (bag (clients σ)) →
  client_trouble a c σ σ' ∨ ∃ c' new, client_effect i σ c c' new σ'.
Proof.
  intros E Hi Hp Hok Hr.
  assert (Hx : a = AXferEnd ∨ a ≠ AXferEnd) by (destruct a; first [by left|by right]). destruct Hx as [->|Hx].
  { destruct k; try done. cbn in E. injection E as <-. destruct (loggedIn c) eqn:Eg.
    - right. do 2 eexists. apply keep_effect; try done. destruct c; cbn in *; subst. solve_conn.
    - left. split; [|by right]. destruct (ok_site _ Hok); [by rewrite Hp|congruence|done]. }
  right. destruct a; cbn in E; try done.
  - injection E as <-. do 2 eexists. apply keep_effect; try done. destruct c; cbn in *; subst. destruct k as [|[]| | |]; solve_conn.
  - destruct k as [|[]| | |]; try done. injection E as <-. do 2 eexists. apply keep_effect; try done.
    + destruct c; cbn in *; subst. solve_conn.
    + destruct Hok as [O1 _ O3 _ _ _], c as [s u [] ? ? ? ?]; cbn in *; subst; [|done].
      destruct (proj1 O1 eq_refl); [|done]. by apply O3 in H.
  - destruct k as [|[]| | |]; try done. injection E as <-. rewrite SetState_other by done.
    do 2 eexists. apply keep_effect; try done. destruct c; cbn in *; subst. solve_conn.
  - assert (σ' = SetState Finished i (set_pc (Running CDone) c) σ ∧ k ≠ CDone ∧ k ≠ CPass true) as (-> & Hk & Hk')
      by (destruct k as [|[]| | |]; try done; by injection E as <-).
    do 2 eexists. apply finish_effect; try done.
    destruct c; cbn in *; subst. destruct k as [|[]| | |]; solve_conn.
  - destruct (ask i k t c) as [c'|] eqn:Ea; [|done]. injection E as <-. exists c', [t].
    assert (conn_step i c c' [t] ∧ login_of c' = login_of c ∧ ∀ k, pc c' ≠ Waiting k) as (? & ? & ?); [|by apply push_effect].
    destruct k as [|[]| | |], t; cbn in Ea; try done.
    + case_bool_decide as Hu; [|done]. destruct Hu as [Hu ->]. injection Ea as <-. split_and!; [|done|done].
      destruct c; cbn in *; subst. solve_conn.
    + destruct (Nat.eqb_spec by_ i) as [->|]; [|done]. injection Ea as <-. split_and!; [|done|done].
      destruct c; cbn in *; subst. solve_conn.
    + destruct (Nat.eqb_spec by_ i) as [->|]; [|done]. injection Ea as <-. split_and!; [|done|done].
      destruct c; cbn in *; subst. solve_conn.
    + injection Ea as <-. split_and!; [|done|done]. destruct c; cbn in *; subst. solve_conn.
  - destruct k; try done. by eapply Login_effect.
  - injection E as <-. do 2 eexists. apply keep_effect; try done.
    + destruct c; cbn in *; subst. destruct k as [|[]| | |]; case_bool_decide; solve_conn.
    + intros k'. cbn. by case_bool_decide.
Qed.

(** The model stops there. *)
Lemma client_trouble_undefined a c σ σ' : client_trouble a c σ σ' → ∃ why, spc σ' = Undefined why.
Proof. intros (_ & [(k & _ & _ & _ & ->)|(_ & _ & _ & ->)]); by eexists. Qed.

Lemma client_step_effect i a σ σ' :
  client_step i a σ = Some σ' → (∀ c, clients σ !! i = Some c → conn_ok c) → represents (logins σ) (bag (clients σ)) →
  (∃ c, clients σ !! i = Some c ∧ client_trouble a c σ σ') ∨
  ∃ c c' new, clients σ !! i = Some c ∧ client_effect i σ c c' new σ'.
Proof.
  unfold Server.client_step. intros E Hok Hr. destruct (clients σ !! i) as [c|] eqn:Hi; [|done].
  specialize (Hok c eq_refl). cbn in E. destruct (pc c) eqn:Hp.
  all: try (destruct (Handle_effect capacity i a σ c σ' E Hi Hp Hok Hr) as [(k & ? & ? & ?)|(c' & new & ?)];
    [left; exists c; split; [done|]; split; [by apply (ok_read _ Hok); [right|]|left; by exists k]|right; by exists c, c', new]).
  all: try (destruct (Command_effect i k a c σ σ' E Hi Hp Hok Hr) as [?|(c' & new & ?)];
    [left; by exists c|right; by exists c, c', new]).
  all: right; destruct a; try done.
  - destruct (stopped c) eqn:Es; [done|]. injection E as <-. do 3 eexists. split; [done|]. apply keep_effect; try done.
    destruct c; cbn in *; subst. solve_conn.
  - injection E as <-. do 3 eexists. split; [done|]. apply keep_effect; try done. destruct c; cbn in *; subst. solve_conn.
  - injection E as <-. do 3 eexists. split; [done|]. apply keep_effect; try done. destruct c; cbn in *; subst. solve_conn.
  - do 3 eexists. split; [done|]. eapply write_effect; try done. destruct c; cbn in *; subst. solve_conn.
  - do 3 eexists. split; [done|]. eapply write_effect; try done. destruct c; cbn in *; subst. solve_conn.
  - destruct (fut c) eqn:Ef; [|done]. injection E as <-. do 3 eexists. split; [done|]. apply keep_effect; try done.
    destruct c; cbn in *; subst. solve_conn.
  - injection E as <-. do 3 eexists. split; [done|]. apply finish_effect; try done. destruct c; cbn in *; subst. solve_conn.
  - injection E as <-. do 3 eexists. split; [done|]. apply push_effect; try done. destruct c; cbn in *; subst. solve_conn.
  - do 3 eexists. split; [done|]. eapply write_effect; try done. destruct c; cbn in *; subst. solve_conn.
  - injection E as <-. do 3 eexists. split; [done|]. apply keep_effect; try done. destruct c; cbn in *; subst. solve_conn.
Qed.

End client_effects.
Arguments client_step_effect {capacity maxUsers numLogins}.

(** ** The invariant of the server *)

(** The sessions that the thread has still to visit *)
Definition targets (p : SPC) : list nat :=
  match p with
  | Working (Kicking _ _ _ todo _) _ | Working (Updating _ todo) _ | Stopping todo | StopJoining todo => todo
  | Working (Scanning _ _ todo toKick _ _) _ => option_list toKick ++ todo
  | Working (Chosen _ _ toKick _ _) _ => option_list toKick
  | _ => []
  end.

(** The places where only the pipe can tell the thread of a task *)
Definition asleep (p : SPC) : bool := match p with Top | Accepting _ => true | _ => false end.

(** What holds of a session while all are stopped *)
Definition stop_ok (p : SPC) (i : nat) (c : Conn) : Prop :=
  match p with
  | Stopping todo => i ∉ todo → stopped c = true
  | StopJoining todo => stopped c = true ∧ (i ∉ todo → pc c = Exited)
  | Stopped => False
  | _ => True
  end.

(** It stops only when it is told to. *)
Definition allowed (p : SPC) (shut : bool) : Prop :=
  match p with Stopping _ | StopJoining _ | Stopped => shut = true | Undefined _ => False | _ => True end.

Definition wakes (σ : Srv) (c : Conn) : Prop := ∀ k, pc c = Waiting k → fut c = None → 0 < pipe σ.

Record Inv (σ : Srv) : Prop := {
  inv_conn i c : clients σ !! i = Some c → conn_ok c;
  inv_asks j : count_of by_of j (pending σ) = owed asking (clients σ) j;
  inv_left j : spc σ ≠ Stopped → count_of cleans j (pending σ) = owed has_left (clients σ) j;
  inv_logins : represents (logins σ) (bag (clients σ));
  inv_next i : is_Some (clients σ !! i) → i < next σ;
  inv_wakes i c : asleep (spc σ) = true → clients σ !! i = Some c → wakes σ c;
  inv_targets i : i ∈ targets (spc σ) → is_Some (clients σ !! i);
  inv_stop i c : clients σ !! i = Some c → stop_ok (spc σ) i c;
  inv_shut : allowed (spc σ) (shutdown σ)
}.

Lemma Inv_init : Inv init.
Proof.
  split; cbn; try done.
  - intros i [c Hc]. by rewrite lookup_empty in Hc.
  - by intros i ?%elem_of_nil.
Qed.

Lemma Inv_client capacity i σ c c' new σ' :
  Inv σ → clients σ !! i = Some c → client_effect capacity i σ c c' new σ' → Inv σ'.
Proof.
  intros [I1 I2 I3 I4 I5 I6 I7 I8 I9] Hi [E C1 C2 C3 C4 C5 C6 C7 C8 C9 C10 _].
  assert (Ep : pending σ' = pending σ ++ new) by (rewrite E; unfold pending; cbn; by rewrite app_assoc).
  assert (Ec : clients σ' = <[i := c']> (clients σ)) by by rewrite E.
  assert (Es : spc σ' = spc σ) by by rewrite E.
  assert (Ho : ∀ (f : Conn → bool) j n, n + (if decide (j = i) then if f c then 1 else 0 else 0) =
      (if decide (j = i) then if f c' then 1 else 0 else 0) → owed f (clients σ) j + n = owed f (clients σ') j).
  { intros f j n Hn. rewrite Ec, owed_insert. unfold owed. case_decide; subst; [rewrite Hi|]; lia. }
  split; rewrite ?Es.
  - intros j d. rewrite Ec, lookup_insert_Some. intros [[<- <-]|[_ Hd]]; [done|by eapply I1].
  - intros j. rewrite Ep, count_of_app, I2. by apply Ho.
  - intros j Hj. rewrite Ep, count_of_app, I3 by done. by apply Ho.
  - by apply C2.
  - intros j Hj. rewrite E. cbn. apply I5. rewrite Ec in Hj. destruct (decide (i = j)) as [->|]; [by eexists|].
    by rewrite lookup_insert_ne in Hj by done.
  - intros j d Ha Hd k Hk Hf. rewrite Ec, lookup_insert_Some in Hd. destruct Hd as [[<- <-]|[_ Hd]]; [by eapply C6|].
    specialize (I6 j d Ha Hd k Hk Hf). lia.
  - intros j Hj. rewrite Ec. destruct (decide (i = j)) as [->|]; [by rewrite lookup_insert_eq|].
    rewrite lookup_insert_ne by done. by apply I7.
  - intros j d. rewrite Ec, lookup_insert_Some. intros [[<- <-]|[_ Hd]]; [|by apply I8].
    specialize (I8 i c Hi). unfold stop_ok in *. rewrite C7. destruct (spc σ); try done.
    destruct I8 as [Hs Hx]. split; [done|]. intros Hn. by destruct C8, Hx.
  - by rewrite E.
Qed.

Arguments Inv_client {capacity}.

Lemma set_pc_id c : set_pc (pc c) c = c.
Proof. by destruct c. Qed.

(** *** The steps of the server thread *)

(** It goes on with the same task, or goes on without one. *)
Lemma Inv_set_spc p σ :
  Inv σ → spc σ ≠ Stopped → p ≠ Stopped → executing p = executing (spc σ) →
  (asleep p = true → asleep (spc σ) = true ∨ queue σ = []) →
  (∀ i, i ∈ targets p → is_Some (clients σ !! i)) →
  (∀ i c, clients σ !! i = Some c → stop_ok p i c) →
  allowed p (shutdown σ) →
  Inv (set_spc p σ).
Proof.
  intros [I1 I2 I3 I4 I5 I6 I7 I8 I9] Hs Hp He Ha Ht Ho.
  assert (Ep : pending (set_spc p σ) = pending σ) by (unfold pending; cbn; by rewrite He).
  split; rewrite ?Ep; cbn; try done.
  - intros j _. by apply I3.
  - intros i c Hp' Hc k Hk Hf. destruct (Ha Hp') as [Has|Hq]; [by eapply I6|].
    exfalso. specialize (I2 i). unfold pending, owed in I2. rewrite <- He, Hq, Hc, app_nil_r in I2.
    unfold asking in I2. rewrite Hk, Hf in I2. by destruct p.
Qed.

(** It changes a session. *)
Lemma Inv_put σ i c c' l :
  Inv σ → clients σ !! i = Some c → conn_ok c' → represents l (bag (<[i := c']> (clients σ))) →
  pc c' = pc c → fut c' = fut c → (stopped c = true → stopped c' = true) →
  Inv (set_logins l (put i c' σ)).
Proof.
  intros [I1 I2 I3 I4 I5 I6 I7 I8 I9] Hi Hok Hl Hp Hf Hs.
  assert (Ho : ∀ (f : Conn → bool) j, f c' = f c → owed f (<[i := c']> (clients σ)) j = owed f (clients σ) j).
  { intros f j Hfc. rewrite owed_insert. unfold owed. case_decide; subst; [|done]. by rewrite Hi, Hfc. }
  split; cbn; try done.
  - intros j d. rewrite lookup_insert_Some. intros [[<- <-]|[_ Hd]]; [done|by eapply I1].
  - intros j. rewrite Ho; [apply I2|]. unfold asking. by rewrite Hp, Hf.
  - intros j Hj. rewrite Ho; [by apply I3|]. unfold has_left. by rewrite Hp.
  - intros j Hj. apply I5. destruct (decide (i = j)) as [->|]; [by eexists|]. by rewrite lookup_insert_ne in Hj.
  - intros j d Ha. rewrite lookup_insert_Some. intros [[<- <-]|[_ Hd]]; [|by eapply I6].
    intros k. rewrite Hp, Hf. by eapply I6.
  - intros j Hj. destruct (decide (i = j)) as [->|]; [by rewrite lookup_insert_eq|].
    rewrite lookup_insert_ne by done. by apply I7.
  - intros j d. rewrite lookup_insert_Some. intros [[<- <-]|[_ Hd]]; [|by apply I8].
    specialize (I8 i c Hi). unfold stop_ok in *. destruct (spc σ); try done; rewrite ?Hp; intuition.
Qed.

Lemma Interrupt_Inv σ i c :
  Inv σ → clients σ !! i = Some c →
  Inv (Interrupt i c σ) ∧
  ∃ l, Interrupt i c σ = set_logins l (put i (finish (set_stopped c)) σ).
Proof.
  intros Hi Hc. pose proof (inv_conn _ Hi _ _ Hc) as Hok.
  destruct (SetState_Finished i c (set_stopped c) σ Hc) as (l & El & Hl); try done.
  - intros Hg. apply (ok_user _ Hok). by left.
  - intros Hs. apply (ok_logged _ Hok). by left.
  - apply Hi.
  - change (SetState Finished i (set_stopped c) σ) with (Interrupt i c σ) in El. rewrite El. split; [|by exists l].
    eapply Inv_put; try done. rewrite <- (set_pc_id (set_stopped c)). apply finish_ok; [|by left|done].
    destruct Hok. split; try done. by right.
Qed.

(** Its task is done, and with it an answer that somebody waits for. *)
Lemma pending_done σ w n p :
  spc σ = Working w n → executing p = [] → pending σ = task_of w :: pending (set_spc p σ).
Proof. intros Hs Hp. unfold pending. cbn [spc set_spc queue]. by rewrite Hs, Hp. Qed.

Lemma set_value_Inv σ w n b a :
  Inv σ → spc σ = Working w n → by_of (task_of w) = Some b →
  ∃ c, clients σ !! b = Some c ∧ asking c = true ∧
    set_value b a (Draining n) σ = set_spc (Draining n) (put b (set_fut (Some a) c) σ) ∧
    Inv (set_value b a (Draining n) σ).
Proof.
  intros Hi Hs Hb. pose proof Hi as [I1 I2 I3 I4 I5 I6 I7 I8 I9].
  pose proof (pending_done σ w n (Draining n) Hs eq_refl) as Ep.
  assert (Hn : cleans (task_of w) = None) by (by destruct (task_of w)).
  pose proof (I2 b) as Hob. rewrite Ep in Hob. cbn [count_of] in Hob. rewrite decide_True in Hob by done.
  unfold owed in Hob. destruct (clients σ !! b) as [c|] eqn:Ec; [|done].
  destruct (asking c) eqn:Ea; [|done]. exists c. split; [done|]. split; [done|].
  assert (Hf : fut c = None) by (unfold asking in Ea; by destruct (pc c), (fut c)).
  unfold set_value. rewrite Ec, Hf. split; [done|].
  assert (Ha' : asking (set_fut (Some a) c) = false) by (unfold asking; cbn; by destruct (pc c)).
  assert (Ep' : ∀ m, pending (set_spc (Draining n) (set_clients m σ)) = queue σ) by done.
  split; cbn [clients spc logins next pipe set_spc set_clients]; rewrite ?Ep'; try done.
  - intros j d. rewrite lookup_insert_Some. intros [[<- <-]|[_ Hd]]; [|by eapply I1].
    specialize (I1 b c Ec). destruct I1. by split.
  - intros j. rewrite owed_insert. specialize (I2 j). rewrite Ep in I2. cbn [count_of] in I2.
    change (pending (set_spc (Draining n) σ)) with (queue σ) in *. destruct (decide (j = b)) as [->|Hj].
    + rewrite Ha'. unfold owed in I2. rewrite decide_True, Ec, Ea in I2 by done. lia.
    + rewrite decide_False in I2 by congruence. done.
  - intros j _. rewrite owed_insert. specialize (I3 j ltac:(congruence)). rewrite Ep in I3. cbn [count_of] in I3.
    rewrite Hn in I3. change (pending (set_spc (Draining n) σ)) with (queue σ) in *.
    rewrite decide_False in I3 by done. unfold owed in *. destruct (decide (j = b)) as [->|]; [|done]. by rewrite Ec in I3.
  - eapply bag_keep; done.
  - intros j Hj. apply I5. destruct (decide (b = j)) as [->|]; [by eexists|]. by rewrite lookup_insert_ne in Hj.
  - by intros j ?%elem_of_nil.
Qed.

(** A task that nobody waits for, and that cleans nothing up, is done. *)
Lemma Inv_done σ w n :
  Inv σ → spc σ = Working w n → by_of (task_of w) = None → cleans (task_of w) = None → Inv (set_spc (Draining n) σ).
Proof.
  intros [I1 I2 I3 I4 I5 I6 I7 I8 I9] Hs Hb Hn. pose proof (pending_done σ w n (Draining n) Hs eq_refl) as Ep.
  split; cbn; try done.
  - intros j. specialize (I2 j). rewrite Ep in I2. cbn in I2. by rewrite Hb in I2.
  - intros j _. specialize (I3 j ltac:(congruence)). rewrite Ep in I3. cbn in I3. by rewrite Hn in I3.
  - by intros j ?%elem_of_nil.
Qed.

Lemma CleanupClient_Inv σ i n σ' :
  Inv σ → spc σ = Working (Joining i) n → CleanupClient i n σ = Some σ' → Inv σ'.
Proof.
  intros [I1 I2 I3 I4 I5 I6 I7 I8 I9] Hs E. pose proof (pending_done σ _ n (Draining n) Hs eq_refl) as Ep.
  unfold CleanupClient in E. pose proof (I3 i ltac:(congruence)) as Hl. rewrite Ep in Hl. cbn in Hl.
  rewrite decide_True in Hl by done. unfold owed in Hl.
  destruct (clients σ !! i) as [c|] eqn:Ec; [|done]. destruct (pc c) eqn:Epc; try done. injection E as <-.
  assert (Hg : login_of c = None).
  { specialize (I1 i c Ec). unfold login_of. destruct (loggedIn c) eqn:Eg; [|done].
    destruct (proj1 (ok_logged _ I1) Eg) as [Hst|]; [|congruence].
    rewrite (ok_end _ I1) in Hst by by rewrite Epc. done. }
  assert (Ep' : pending (set_spc (Draining n) (set_clients (delete i (clients σ)) σ)) = pending (set_spc (Draining n) σ)) by done.
  split; cbn [clients spc logins next pipe set_spc set_clients]; rewrite ?Ep'; try done.
  - intros j d. rewrite lookup_delete_Some. intros [_ Hd]. by eapply I1.
  - intros j. rewrite owed_delete. specialize (I2 j). rewrite Ep in I2. cbn [count_of task_of by_of] in I2.
    rewrite decide_False in I2 by done. rewrite <- I2. destruct (decide (j = i)) as [->|]; [|done].
    unfold owed in I2. rewrite Ec in I2. unfold asking in I2. rewrite Epc in I2. done.
  - intros j _. rewrite owed_delete. specialize (I3 j ltac:(congruence)). rewrite Ep in I3. cbn [count_of task_of cleans] in I3.
    destruct (decide (j = i)) as [->|]; [|by rewrite decide_False in I3 by congruence].
    rewrite decide_True in I3 by done. unfold owed in I3. rewrite Ec in I3. destruct (has_left c); lia.
  - eapply represents_perm; [|exact I4]. by rewrite (bag_lookup _ _ _ Ec), Hg.
  - intros j Hj. apply I5. destruct (decide (i = j)) as [->|]; [by eexists|]. by rewrite lookup_delete_ne in Hj.
  - by intros j ?%elem_of_nil.
Qed.

Lemma AcceptClient_Inv σ accepted n :
  Inv σ → spc σ = Accepting (S n) → Inv (set_spc (Accepting n) (AcceptClient accepted σ)).
Proof.
  intros Hi Hs. assert (Hi' : Inv (set_spc (Accepting n) σ)).
  { apply Inv_set_spc; rewrite ?Hs; try done; [by left|by intros i ?%elem_of_nil]. }
  destruct accepted; [|done]. clear Hi. destruct Hi' as [I1 I2 I3 I4 I5 I6 I7 I8 I9]. cbn in *.
  assert (Hn : clients σ !! next σ = None).
  { apply eq_None_not_Some. intros Hx. apply I5 in Hx. lia. }
  split; cbn.
  - intros j d. rewrite lookup_insert_Some. intros [[<- <-]|[_ Hd]]; [|by eapply I1].
    split; cbn; intuition (try congruence).
  - intros j. rewrite owed_insert. specialize (I2 j). unfold owed in *. destruct (decide (j = next σ)) as [->|]; [|done]. by rewrite Hn in I2.
  - intros j _. rewrite owed_insert. specialize (I3 j ltac:(done)). unfold owed in *. destruct (decide (j = next σ)) as [->|]; [|done]. by rewrite Hn in I3.
  - eapply represents_perm; [|exact I4]. symmetry. by rewrite bag_fresh.
  - intros j Hj. destruct (decide (next σ = j)); [lia|]. rewrite lookup_insert_ne in Hj by done. specialize (I5 j Hj). lia.
  - intros j d _. rewrite lookup_insert_Some. intros [[<- <-]|[_ Hd]]; [done|by eapply I6].
  - by intros j ?%elem_of_nil.
  - done.
  - done.
Qed.

(** An order of the sessions visits those that are there. *)
Lemma ordered_spec todo σ : ordered todo σ = true ↔ NoDup todo ∧ ∀ i, i ∈ todo ↔ is_Some (clients σ !! i).
Proof.
  unfold ordered. rewrite andb_true_iff, !bool_decide_eq_true. split; intros [H1 H2]; split; try done.
  - intros i. by rewrite <- elem_of_dom, <- H2, elem_of_list_to_set.
  - apply set_eq. intros i. by rewrite elem_of_list_to_set, elem_of_dom.
Qed.

(** Going on with a task *)
Lemma Inv_go σ w w' n :
  Inv σ → spc σ = Working w n → task_of w' = task_of w →
  (∀ i, i ∈ targets (Working w' n) → is_Some (clients σ !! i)) → Inv (set_spc (Working w' n) σ).
Proof. intros Hi Hs Ht Hg. apply Inv_set_spc; rewrite ?Hs; try done. cbn. by rewrite Ht. Qed.

Lemma clients_Interrupt σ i c : Inv σ → clients σ !! i = Some c →
  clients (Interrupt i c σ) = <[i := finish (set_stopped c)]> (clients σ) ∧ spc (Interrupt i c σ) = spc σ ∧
  shutdown (Interrupt i c σ) = shutdown σ.
Proof. intros Hi Hc. by destruct (Interrupt_Inv σ i c Hi Hc) as (_ & l & ->). Qed.

Lemma is_Some_insert (m : gmap nat Conn) i c j : is_Some (m !! j) → is_Some (<[i := c]> m !! j).
Proof. intros Hj. destruct (decide (i = j)) as [->|]; [by rewrite lookup_insert_eq|by rewrite lookup_insert_ne]. Qed.

Lemma targets_head σ w n i todo :
  Inv σ → spc σ = Working w n → targets (spc σ) = i :: todo →
  (∃ c, clients σ !! i = Some c) ∧ ∀ j, j ∈ todo → is_Some (clients σ !! j).
Proof.
  intros Hi Hs Ht. split.
  - apply (inv_targets _ Hi). rewrite Ht. by left.
  - intros j Hj. apply (inv_targets _ Hi). rewrite Ht. by right.
Qed.

(** What [KickUser] finds a session without a user *)
Definition kicks_nobody σ : Prop :=
  ∃ uid oneOnly b i todo kicked n c, spc σ = Working (Kicking uid oneOnly b (i :: todo) kicked) n ∧
    clients σ !! i = Some c ∧ usr c = None.

Lemma KickUser_step_Inv σ uid oneOnly b todo kicked n :
  Inv σ → spc σ = Working (Kicking uid oneOnly b todo kicked) n →
  Inv (KickUser_step uid oneOnly b todo kicked n σ) ∨
  (kicks_nobody σ ∧ KickUser_step uid oneOnly b todo kicked n σ = set_spc (Undefined NoUser) σ).
Proof.
  intros Hi Hs. destruct todo as [|i todo]; cbn.
  - destruct (set_value_Inv σ _ n b (Kicked kicked) Hi Hs eq_refl) as (? & _ & _ & _ & ?). by left.
  - destruct (targets_head σ _ n i todo Hi Hs ltac:(by rewrite Hs)) as [[c Hc] Ht]. rewrite Hc.
    destruct (usr c) as [u|] eqn:Eu; [left|right; split; [by repeat eexists|done]].
    destruct (Z.eqb_spec u uid); [|by apply (Inv_go σ _ _ n Hi Hs)].
    destruct (Interrupt_Inv σ i c Hi Hc) as [HI _]. destruct (clients_Interrupt σ i c Hi Hc) as (Hcl & Hsp & Hsd).
    apply (Inv_go _ (Kicking uid oneOnly b (i :: todo) kicked) _ n HI); [by rewrite Hsp|done|].
    intros j Hj. rewrite Hcl. apply is_Some_insert, Ht. cbn in Hj. by destruct oneOnly; [apply elem_of_nil in Hj|].
Qed.

Lemma scan_Inv σ uid b todo toKick idleTime logins idle n :
  Inv σ → spc σ = Working (Scanning uid b todo toKick idleTime logins) n →
  Inv (LoginKickUser_scan uid b todo toKick idleTime logins idle n σ).
Proof.
  intros Hi Hs. pose proof (inv_targets _ Hi) as Ht. rewrite Hs in Ht. cbn in Ht.
  destruct todo as [|i todo]; cbn.
  - destruct toKick as [i|]; [|by apply (Inv_go σ _ _ n Hi Hs)].
    destruct (Ht i) as [c Hc]; [by left|]. rewrite Hc.
    case_bool_decide; apply (Inv_go σ _ _ n Hi Hs); try done. by intros j ?%elem_of_nil.
  - destruct (Ht i) as [c Hc]; [apply elem_of_app; right; by left|]. rewrite Hc.
    assert (Hk : ∀ k id l, k = toKick ∨ k = Some i → Inv (set_spc (Working (Scanning uid b todo k id l) n) σ)).
    { intros k id l Hk. apply (Inv_go σ _ _ n Hi Hs); [done|]. intros j [Hj|Hj]%elem_of_app.
      - destruct Hk as [->| ->]; [by apply Ht, elem_of_app; left|].
        cbn in Hj. apply list_elem_of_singleton in Hj as ->. by eexists.
      - apply Ht, elem_of_app. right. by right. }
    case_bool_decide as Hst; [|apply Hk; by left].
    destruct (usr c) as [u|] eqn:Eu.
    + destruct (u =? uid)%Z; [|apply Hk; by left]. destruct (idleTime <=? idle)%Z; apply Hk; auto.
    + exfalso. pose proof (inv_conn _ Hi i c Hc) as Hok. apply (ok_user _ Hok); [|done]. left. apply (ok_logged _ Hok). by left.
Qed.

Lemma LoginKickUser_end_Inv σ uid b toKick idleTime logins n :
  Inv σ → spc σ = Working (Chosen uid b toKick idleTime logins) n →
  Inv (LoginKickUser_end b toKick idleTime logins n σ).
Proof.
  intros Hi Hs. destruct toKick as [i|]; cbn.
  - destruct (inv_targets _ Hi i) as [c Hc]; [rewrite Hs; by left|]. rewrite Hc.
    destruct (Interrupt_Inv σ i c Hi Hc) as [HI _]. destruct (clients_Interrupt σ i c Hi Hc) as (_ & Hsp & _).
    rewrite <- Hsp in Hs. by destruct (set_value_Inv _ _ n b (LoginKick true idleTime logins) HI Hs eq_refl) as (? & _ & _ & _ & ?).
  - by destruct (set_value_Inv _ _ n b (LoginKick false idleTime logins) Hi Hs eq_refl) as (? & _ & _ & _ & ?).
Qed.

Lemma UserUpdate_step_Inv σ uid todo n :
  Inv σ → spc σ = Working (Updating uid todo) n → Inv (UserUpdate_step uid todo n σ).
Proof.
  intros Hi Hs. destruct todo as [|i todo]; cbn; [by eapply Inv_done|].
  destruct (targets_head σ _ n i todo Hi Hs ltac:(by rewrite Hs)) as [[c Hc] Ht]. rewrite Hc.
  assert (Hgo : Inv (set_spc (Working (Updating uid todo) n) σ)) by by apply (Inv_go σ _ _ n Hi Hs).
  case_bool_decide as Hst; [|done]. pose proof (inv_conn _ Hi i c Hc) as Hok. destruct (usr c) as [u|] eqn:Eu.
  - destruct (u =? uid)%Z; [|done]. pose proof Hok as [].
    apply (Inv_put _ i c (set_upd true c) (logins σ) Hgo Hc); try done.
    eapply bag_keep; [done|done|apply Hi].
  - exfalso. apply (ok_user _ Hok); [|done]. left. apply (ok_logged _ Hok). by left.
Qed.

Lemma Execute_start_Inv t ch σ n σ' :
  Inv σ → spc σ = Working (Start t) n → Execute_start t ch n σ = Some σ' → Inv σ'.
Proof.
  intros Hi Hs E. destruct t, ch; try done; cbn in E.
  all: try (destruct (ordered todo σ) eqn:Eo; [|done]; apply ordered_spec in Eo as [_ Eo]; injection E as <-;
    apply (Inv_go σ _ _ n Hi Hs); [done|intros j Hj; cbn in Hj; by apply Eo]).
  - injection E as <-. by destruct (set_value_Inv _ _ n by_ (ReloadConfig_Execute loaded templates needed) Hi Hs eq_refl) as (? & _ & _ & _ & ?).
  - injection E as <-. change (set_spc (Working Exiting n) (set_shutdown σ)) with (set_shutdown (set_spc (Working Exiting n) σ)).
    assert (Hg : Inv (set_spc (Working Exiting n) σ)) by (apply (Inv_go σ _ _ n Hi Hs); [done|by intros j ?%elem_of_nil]).
    destruct Hg. by split.
  - assert (Hl : owed has_left (clients σ) client = 1).
    { rewrite <- (inv_left _ Hi) by by rewrite Hs. pose proof (inv_left _ Hi client ltac:(by rewrite Hs)) as Hl.
      unfold pending in *. rewrite Hs in *. cbn in *. rewrite decide_True in * by done.
      unfold owed in Hl. destruct (clients σ !! client) as [c|]; [destruct (has_left c)|]; lia. }
    unfold owed in Hl. destruct (clients σ !! client) as [c|] eqn:Ec; [|done]. injection E as <-.
    rewrite bool_decide_eq_true_2; [apply (Inv_go σ _ _ n Hi Hs); [done|by intros j ?%elem_of_nil]|].
    apply (ok_end c); [by eapply inv_conn|]. unfold has_left in Hl. by destruct (pc c).
Qed.

Section server_steps.
Context (capacity : nat).
Notation server_step := (server_step capacity).

Lemma Work_step_Inv w ch σ n σ' :
  Inv σ → spc σ = Working w n → Work_step capacity w ch n σ = Some σ' →
  Inv σ' ∨ (kicks_nobody σ ∧ σ' = set_spc (Undefined NoUser) σ).
Proof.
  intros Hi Hs E. destruct w; cbn in E; [left; by eapply Execute_start_Inv|destruct ch; try done..].
  - injection E as <-. by apply KickUser_step_Inv.
  - injection E as <-. left. by apply scan_Inv.
  - injection E as <-. left. by eapply LoginKickUser_end_Inv.
  - left. unfold WritePipe in E. destruct (pipe σ <? capacity); [|done]. injection E as <-.
    pose proof (Inv_done σ _ n Hi Hs eq_refl eq_refl) as []. by split.
  - injection E as <-. left. by apply UserUpdate_step_Inv.
  - left. by eapply CleanupClient_Inv.
Qed.

Lemma Run_step_Inv ch σ σ' : Inv σ → spc σ = Top → Run_step ch σ = Some σ' → Inv σ'.
Proof.
  intros Hi Hs E. unfold Run_step in E. destruct (shutdown σ) eqn:Esh, ch; try done.
  - destruct (ordered todo σ) eqn:Eo; [|done]. apply ordered_spec in Eo as [_ Eo]. injection E as <-.
    apply Inv_set_spc; rewrite ?Hs; try done.
    + intros i Hi'. by apply Eo.
    + intros i c Hc Hn. exfalso. apply Hn, Eo. by eexists.
  - injection E as <-. case_match eqn:Ep; apply Inv_set_spc; rewrite ?Hs; try done; try (by left); by intros i ?%elem_of_nil.
  - by injection E as <-.
Qed.

Lemma StopClients_Inv ch σ σ' todo :
  Inv σ → (spc σ = Stopping todo ∧ StopClients_interrupt todo ch σ = Some σ') ∨
          (spc σ = StopJoining todo ∧ StopClients_join todo σ = Some σ') → Inv σ'.
Proof.
  intros Hi [[Hs E]|[Hs E]]; pose proof (inv_targets _ Hi) as Ht; pose proof (inv_stop _ Hi) as Ho;
    pose proof (inv_shut _ Hi) as Hsh; rewrite Hs in Ht, Ho, Hsh; cbn in Ht, Ho, Hsh.
  - destruct todo as [|i todo], ch; try done; cbn in E.
    + destruct (ordered todo σ) eqn:Eo; [|done]. apply ordered_spec in Eo as [_ Eo]. injection E as <-.
      apply Inv_set_spc; rewrite ?Hs; try done.
      * intros i Hi'. by apply Eo.
      * intros i c Hc. split; [by apply (Ho i c Hc), not_elem_of_nil|]. intros Hn. exfalso. apply Hn, Eo. by eexists.
    + destruct (Ht i) as [c Hc]; [by left|]. rewrite Hc in E. injection E as <-.
      destruct (Interrupt_Inv σ i c Hi Hc) as [HI _]. destruct (clients_Interrupt σ i c Hi Hc) as (Hcl & Hsp & Hsd).
      apply Inv_set_spc; rewrite ?Hsp, ?Hs; try done.
      * intros j Hj. rewrite Hcl. apply is_Some_insert, Ht. by right.
      * intros j d. rewrite Hcl, lookup_insert_Some. intros [[<- <-]|[Hne Hd]] Hj; [done|].
        apply (Ho j d Hd). by intros [->|?]%elem_of_cons.
      * by rewrite Hsd.
  - destruct todo as [|i todo]; cbn in E.
    + injection E as <-. assert (Hx : ∀ i c, clients σ !! i = Some c → pc c = Exited).
      { intros i c Hc. by apply (Ho i c Hc), not_elem_of_nil. }
      assert (He : ∀ i c, clients σ !! i = Some c → asking c = false ∧ login_of c = None).
      { intros i c Hc. specialize (Hx i c Hc). unfold asking. rewrite Hx. split; [done|].
        pose proof (inv_conn _ Hi i c Hc) as Hok. unfold login_of. destruct (loggedIn c) eqn:Eg; [|done].
        destruct (proj1 (ok_logged _ Hok) Eg) as [Hst|]; [|congruence]. rewrite (ok_end _ Hok) in Hst by by rewrite Hx. done. }
      split; cbn; try done.
      * intros j. change (count_of by_of j (executing (StopJoining []) ++ queue σ) = owed asking ∅ j). rewrite <- Hs.
        change (count_of by_of j (pending σ) = 0). rewrite (inv_asks _ Hi). unfold owed.
        destruct (clients σ !! j) as [c|] eqn:Ec; [|done]. by destruct (He j c Ec) as [-> _].
      * eapply represents_perm; [|apply (inv_logins _ Hi)]. unfold bag.
        apply Permutation_nil_r. apply elem_of_nil_inv. intros u Hu. apply list_elem_of_omap in Hu as (c & Hc & Hl).
        apply list_elem_of_fmap in Hc as ([i d] & -> & Hc). apply elem_of_map_to_list in Hc. cbn in Hl.
        destruct (He i d Hc) as [_ Hn]. by rewrite Hn in Hl.
      * intros i [c Hc]. by rewrite lookup_empty in Hc.
      * by intros i ?%elem_of_nil.
    + destruct (Ht i) as [c Hc]; [by left|]. rewrite Hc in E. destruct (pc c) eqn:Ep; try done. injection E as <-.
      apply Inv_set_spc; rewrite ?Hs; try done.
      * intros j Hj. apply Ht. by right.
      * intros j d Hd. destruct (Ho j d Hd) as [? Hx]. split; [done|]. intros Hj. destruct (decide (j = i)) as [->|]; [congruence|].
        apply Hx. by intros [->|?]%elem_of_cons.
Qed.

Lemma server_step_Inv ch σ σ' :
  Inv σ → server_step ch σ = Some σ' → Inv σ' ∨ (kicks_nobody σ ∧ σ' = set_spc (Undefined NoUser) σ).
Proof.
  intros Hi E. unfold Server.server_step in E. destruct (spc σ) as [|n|n|w n|[|n]|todo|todo| |] eqn:Hs; try done.
  1: left; by eapply Run_step_Inv.
  3: by eapply Work_step_Inv.
  5: left; eapply StopClients_Inv; [done|left; by split].
  all: destruct ch; try done; left.
  5: eapply (StopClients_Inv CGo); [done|right; by split].
  all: injection E as <-.
  - assert (Hg : Inv (set_spc (Draining n) σ)).
    { apply Inv_set_spc; rewrite ?Hs; try done. by intros i ?%elem_of_nil. }
    destruct Hg. by split.
  - unfold HandleTasks. destruct (queue σ) as [|t q] eqn:Eq.
    + apply Inv_set_spc; rewrite ?Hs; try done; [by right|by intros i ?%elem_of_nil].
    + assert (Ep : pending (set_spc (Working (Start t) n) (set_queue q σ)) = pending σ) by (unfold pending; cbn; by rewrite Hs, Eq).
      destruct Hi. rewrite Hs in *. split; rewrite ?Ep; cbn; try done. intros j _. by apply inv_left0.
  - apply Inv_set_spc; rewrite ?Hs; try done; [by left|by intros i ?%elem_of_nil].
  - by apply AcceptClient_Inv.
Qed.

Lemma outside_step_Inv e σ σ' : Inv σ → outside_step capacity e σ = Some σ' →
  Inv σ' ∧ spc σ' = spc σ ∧ clients σ' = clients σ ∧ shutdown σ' = shutdown σ ∧
  ∃ new, queue σ' = queue σ ++ new ∧ ∀ f j, f = by_of ∨ f = cleans → count_of f j new = 0.
Proof.
  intros [I1 I2 I3 I4 I5 I6 I7 I8 I9] E. destruct e as [|i a|t|]; try done; cbn in E.
  - assert ((t = Exit ∨ ∃ uid, t = UserUpdate uid) ∧ σ' = set_outside (S (outside σ)) (PushTask t σ)) as [Ht ->].
    { destruct t; try done; injection E as <-; (split; [|done]); [by left|by right; eexists]. }
    assert (Ep : pending (set_outside (S (outside σ)) (PushTask t σ)) = pending σ ++ [t]).
    { unfold pending. cbn. by rewrite app_assoc. }
    assert (Hz : ∀ f j, f = by_of ∨ f = cleans → count_of f j [t] = 0).
    { intros f j Hf. destruct Hf as [->| ->], Ht as [->|[uid ->]]; done. }
    split; [|cbn; split_and!; try done; by exists [t]].
    split; rewrite ?Ep; cbn [clients spc logins next pipe shutdown set_outside PushTask set_queue]; try done.
    + intros j. rewrite count_of_app, I2, Hz by by left. lia.
    + intros j Hj. rewrite count_of_app, I3, Hz by first [done|by right]. lia.
  - destruct (outside σ) as [|m]; [done|]. unfold WritePipe in E. case_match; [|done].
    injection E as <-. split; [|cbn; split_and!; try done; exists []; by rewrite app_nil_r].
    split; try done. intros i c Ha Hc k Hk Hf. cbn. lia.
Qed.

End server_steps.
Arguments server_step_Inv {capacity}.
Arguments outside_step_Inv {capacity}.

Section steps.
Context (capacity : nat) (maxUsers : Z) (numLogins : Z → Z).
Notation client_step := (client_step capacity maxUsers numLogins).
Notation server_step := (server_step capacity).
Notation step := (step capacity maxUsers numLogins).
Notation reachable := (reachable capacity maxUsers numLogins).

(** A command of a session that the server has finished meanwhile *)
Definition finished_command (e : Event) σ : Prop :=
  ∃ i k c, e = EClient i (ACheck k) ∧ clients σ !! i = Some c ∧ pc c = Fetched ∧ st c = Finished ∧ stopped c = true.

(** The end of a transfer of a session that the server has finished meanwhile *)
Definition kicked_transfer (e : Event) σ : Prop :=
  ∃ i c, e = EClient i AXferEnd ∧ clients σ !! i = Some c ∧ pc c = Running CSite ∧ loggedIn c = false ∧ stopped c = true.

(** What can go wrong *)
Definition failure (e : Event) σ (why : Trouble) : Prop :=
  (kicks_nobody σ ∧ why = NoUser) ∨ (finished_command e σ ∧ why = FinishedCommand) ∨
  (kicked_transfer e σ ∧ why = NotOnline).

Definition defined σ : Prop := ∀ why, spc σ ≠ Undefined why.

Lemma step_defined e σ σ' : step e σ = Some σ' → defined σ.
Proof. intros E why Hs. unfold Server.step in E. by rewrite Hs in E. Qed.

Lemma step_Inv e σ σ' : Inv σ → step e σ = Some σ' →
  Inv σ' ∨ ∃ why, failure e σ why ∧ spc σ' = Undefined why.
Proof.
  intros Hi E. pose proof (step_defined _ _ _ E) as Hd.
  assert (E' : match e with EServer ch => server_step ch σ | EClient i a => client_step i a σ | _ => outside_step capacity e σ end = Some σ').
  { unfold Server.step in E. by destruct (spc σ), e. }
  destruct e as [ch|i a|t|].
  - destruct (server_step_Inv ch σ σ' Hi E') as [?|[? ->]]; [by left|right; exists NoUser; split; [by left|done]].
  - destruct (client_step_effect i a σ σ' E' (inv_conn _ Hi i) (inv_logins _ Hi))
      as [(c & Hc & Hst & [(k & -> & ? & ? & ->)|(-> & ? & ? & ->)])|(c & c' & new & Hc & He)].
    + right. exists FinishedCommand. split; [|done]. right. left. split; [|done]. by exists i, k, c.
    + right. exists NotOnline. split; [|done]. right. right. split; [|done]. by exists i, c.
    + left. by eapply Inv_client.
  - left. by apply (outside_step_Inv _ σ σ' Hi E').
  - left. by apply (outside_step_Inv _ σ σ' Hi E').
Qed.

Lemma reach_Inv σ : reachable σ → defined σ → Inv σ.
Proof.
  revert σ. refine (rtc_ind_r (λ σ, defined σ → Inv σ) init _ _); [by intros _; apply Inv_init|].
  intros σ σ' _ [e E] IH Hd.
  destruct (step_Inv e σ σ' (IH (step_defined _ _ _ E)) E) as [?|(why & _ & Hs)]; [done|by destruct (Hd _ Hs)].
Qed.

(** C4: The server and its sessions.  However the threads of the server, of the sessions,
    of the signals and of the replication take turns: the login counter holds exactly
    the sessions that are logged in, whichever thread logs them out; every session
    that has come to its end has one task in the queue that cleans it up, and no other
    has; a session waits for an answer exactly when one task in the queue is to give
    it, so that no promise is set twice; no object of a session is used after it has
    been destroyed.  What remains is that [KickUser] reads the user of a session that
    has none yet, and that a session is finished between the arrival of a command and
    [CheckState], which asserts that it is not, or during a transfer, whose end looks
    for it in the table of who is online.  (A session's end and its log-out, which
    follow each other in the code, are one step.) *)
Theorem server_safe σ : reachable σ → defined σ →
  represents (logins σ) (bag (clients σ)) ∧
  (∀ i c, clients σ !! i = Some c → (loggedIn c = true ↔ st c = LoggedIn ∨ pc c = LoggingIn)) ∧
  (∀ i, spc σ ≠ Stopped → count_of cleans i (pending σ) = owed has_left (clients σ) i) ∧
  (∀ i, count_of by_of i (pending σ) = owed asking (clients σ) i) ∧
  ∀ e σ' why, step e σ = Some σ' → spc σ' = Undefined why →
    failure e σ why.
Proof.
  intros Hr Hd. pose proof (reach_Inv σ Hr Hd) as Hi.
  split_and!; [apply (inv_logins _ Hi)| |apply (inv_left _ Hi)|apply (inv_asks _ Hi)|].
  - intros i c Hc. apply (ok_logged c), (inv_conn _ Hi _ _ Hc).
  - intros e σ' why E Hw. destruct (step_Inv e σ σ' Hi E) as [Hi'|(w & Hf & Hs)].
    + pose proof (inv_shut _ Hi') as Ha. by rewrite Hw in Ha.
    + by assert (w = why) as -> by congruence.
Qed.

End steps.
Arguments step_Inv {capacity maxUsers numLogins}.
Arguments reach_Inv {capacity maxUsers numLogins}.
Arguments step_defined {capacity maxUsers numLogins}.

(** ** Runs *)

Lemma events_reachable capacity maxUsers numLogins es σ :
  run capacity maxUsers numLogins es init = Some σ → reachable capacity maxUsers numLogins σ.
Proof.
  revert σ. induction es as [|e es IH] using rev_ind; cbn; intros σ E; [injection E as <-; apply rtc_refl|].
  unfold run in E. rewrite foldl_app in E. cbn in E. fold (run capacity maxUsers numLogins es init) in E.
  destruct (run capacity maxUsers numLogins es init) as [τ|]; [|done].
  eapply rtc_r; [by apply IH|]. by exists e.
Qed.

(** A pipe of 16 bytes, and users with ten logins each *)
Definition run_16 (es : list Event) : option Srv := run 16 100 (λ _, 10%Z) es init.
Definition state_16 (es : list Event) : Srv := default init (run_16 es).

(** [n] sessions are accepted; one logs in; it pushes a task with its byte; the server
    wakes up and begins with the first task. *)
Definition connect (n : nat) : list Event := EServer (CPoll n) :: replicate n (EServer (CAccept true)) ++ [EServer CGo].
Definition log_in (uid : Z) (i : nat) : list Event :=
  EClient i <$> [ALine; ACheck CUser; AUser uid; AReturn; ALine; ACheck (CPass false); ALogin; ALoggedIn; AReturn].
Definition ask_site (t : Task) (i : nat) : list Event := EClient i <$> [ALine; ACheck CSite; AAsk t; AWrite].
Definition wake_up : list Event := [EServer (CPoll 0); EServer CGo; EServer CGo].

(** A kick while somebody has only connected *)
Definition kick_at_login : list Event :=
  connect 2 ++ log_in 7 0 ++ ask_site (KickUser 7 false 0) 0 ++ wake_up ++ [EServer (COrder [1; 0]); EServer CGo].

Example kick_at_login_fails : spc <$> run_16 kick_at_login = Some (Undefined NoUser).
Proof. vm_compute. reflexivity. Qed.

(** A kick between the arrival of a command and its check *)
Definition kick_at_command : list Event :=
  connect 2 ++ log_in 7 0 ++ log_in 8 1 ++ [EClient 0 ALine] ++ ask_site (KickUser 7 false 1) 1 ++ wake_up ++
  [EServer (COrder [0; 1]); EServer CGo; EClient 0 (ACheck CSite)].

Example kick_at_command_fails : spc <$> run_16 kick_at_command = Some (Undefined FinishedCommand).
Proof. vm_compute. reflexivity. Qed.

(** A kick during a transfer *)
Definition kick_at_transfer : list Event :=
  connect 2 ++ log_in 7 0 ++ log_in 8 1 ++ [EClient 0 ALine; EClient 0 (ACheck CSite)] ++ ask_site (KickUser 7 false 1) 1 ++
  wake_up ++ [EServer (COrder [0; 1]); EServer CGo; EClient 0 AXferEnd].

Example kick_at_transfer_fails : spc <$> run_16 kick_at_transfer = Some (Undefined NotOnline).
Proof. vm_compute. reflexivity. Qed.

(** The answers: both logins of the user are interrupted; the one that has been idle for
    longest makes room for a new one. *)
Definition kick_two : list Event :=
  connect 3 ++ log_in 7 0 ++ log_in 8 1 ++ log_in 7 2 ++ ask_site (KickUser 7 false 1) 1 ++ wake_up ++
  EServer (COrder [2; 1; 0]) :: replicate 4 (EServer CGo).

Example kick_two_answer :
  let σ := state_16 kick_two in
  fut <$> clients σ !! 1 = Some (Some (Kicked 2)) ∧ st <$> clients σ !! 0 = Some Finished ∧
  st <$> clients σ !! 2 = Some Finished ∧ global (logins σ) = 1%Z ∧ at_uid (logins σ) 7 = 0%Z.
Proof. by vm_compute. Qed.

Definition kick_idlest : list Event :=
  connect 3 ++ log_in 7 0 ++ log_in 7 1 ++
  (EClient 2 <$> [ALine; ACheck CUser; AUser 7; AReturn; ALine; ACheck (CPass false); AAsk (LoginKickUser 7 2); AWrite]) ++
  wake_up ++ EServer (COrder [0; 1; 2]) :: EServer (CIdle 30) :: EServer (CIdle 60) :: EServer (CIdle 0) ::
  [EServer (CIdle 0); EServer CGo].

Example kick_idlest_answer :
  let σ := state_16 kick_idlest in
  fut <$> clients σ !! 2 = Some (Some (LoginKick true 60 2)) ∧
  st <$> clients σ !! 0 = Some LoggedIn ∧ st <$> clients σ !! 1 = Some Finished.
Proof. by vm_compute. Qed.

(** A configuration that does not load, when an earlier one needs a restart *)
Example reload_hides_failure :
  ReloadConfig_Execute false true true = Reloaded ReloadConfig.StopStart ReloadConfig.Okay ∧
  take 16 (RELOADCommand_reply ReloadConfig.StopStart ReloadConfig.Okay) = lit "Config reloaded.".
Proof. by vm_compute. Qed.

Lemma server_safe_witness : represents (logins (state_16 kick_two)) (bag (clients (state_16 kick_two))).
Proof.
  apply (server_safe 16 100 (λ _, 10%Z) (state_16 kick_two)).
  - apply (events_reachable _ _ _ kick_two). vm_compute. reflexivity.
  - intros why. vm_compute. discriminate.
Defined.
