(* ===== verification/ServerLive.v ===== *)
(** * The server thread goes on: what comes of the model of Server.v

    A step is the server's own when its thread makes it, or the one that it joins.
    What is inevitable comes whatever the other threads do between two steps of the
    server's own; the proofs count down four numbers, of which no step of another
    thread makes one bigger.  Answers come as long as the server runs; its end comes,
    but for a session that asks when nobody listens any more. *)

From stdpp Require Import prelude gmap.
From S2P Require Import Prelude Counters Client Server.

Section steps.
Context (capacity : nat) (maxUsers : Z) (numLogins : Z → Z).
Implicit Types (σ : Srv) (c : Conn).

Notation client_effect := (client_effect capacity).
Notation client_step := (client_step capacity maxUsers numLogins).
Notation server_step := (server_step capacity).
Notation step := (step capacity maxUsers numLogins).
Notation reachable := (reachable capacity maxUsers numLogins).

(** ** What comes, as long as the server's thread gets its turns *)

(** The thread that the server waits for *)
Definition joined (p : SPC) : option nat :=
  match p with Working (Joining i) _ => Some i | StopJoining (i :: _) => Some i | _ => None end.

(** The steps of the server and of the thread it joins; a [poll] that fails is none. *)
Definition own (e : Event) σ : bool :=
  match e with
  | EServer CPollFails => false
  | EServer _ => true
  | EClient i _ => bool_decide (joined (spc σ) = Some i)
  | _ => false
  end.
Definition moves σ σ' : Prop := ∃ e, own e σ = true ∧ step e σ = Some σ'.
Definition others σ σ' : Prop := ∃ e, own e σ = false ∧ step e σ = Some σ'.

(** [inevitable P σ]: the others may do what they want, as long as they want; either [P]
    comes of it, or the server can make a step, and [P] is inevitable after each that
    it can make. *)
Inductive inevitable (P : Srv → Prop) σ : Prop :=
  | inev_now : P σ → inevitable P σ
  | inev_later :
      (∀ σ', rtc (λ a b, ¬ P a ∧ others a b) σ σ' →
         P σ' ∨ ((∃ σ'', moves σ' σ'') ∧ ∀ σ'', moves σ' σ'' → inevitable P σ'')) →
      inevitable P σ.

(** Measures *)
Definition measure : Type := nat * nat * nat * nat.
Definition lexlt (a b : measure) : Prop :=
  let '(a1, a2, a3, a4) := a in let '(b1, b2, b3, b4) := b in
  a1 < b1 ∨ (a1 = b1 ∧ (a2 < b2 ∨ (a2 = b2 ∧ (a3 < b3 ∨ (a3 = b3 ∧ a4 < b4))))).

Lemma lexlt_wf : well_founded lexlt.
Proof.
  intros [[[a b] e] d]. revert b e d. induction (lt_wf a) as [a _ IHa]. intros b.
  induction (lt_wf b) as [b _ IHb]. intros e. induction (lt_wf e) as [e _ IHe]. intros d.
  induction (lt_wf d) as [d _ IHd]. constructor. intros [[[a' b'] e'] d'] Hl. cbn in Hl.
  destruct Hl as [?|[-> [?|[-> [?|[-> ?]]]]]]; [by apply IHa|by apply IHb|by apply IHe|by apply IHd].
Qed.

Lemma lexlt_trans a b d : lexlt a b → lexlt b d → lexlt a d.
Proof. destruct a as [[[? ?] ?] ?], b as [[[? ?] ?] ?], d as [[[? ?] ?] ?]. cbn. lia. Qed.

Lemma inevitable_measure (H P : Srv → Prop) (μ : Srv → measure) :
  (∀ σ σ', H σ → others σ σ' → P σ' ∨ (H σ' ∧ (μ σ' = μ σ ∨ lexlt (μ σ') (μ σ)))) →
  (∀ σ, H σ → P σ ∨ ((∃ σ', moves σ σ') ∧ ∀ σ', moves σ σ' → P σ' ∨ (H σ' ∧ lexlt (μ σ') (μ σ)))) →
  ∀ σ, H σ → inevitable P σ.
Proof.
  intros Ho Hm σ. remember (μ σ) as m eqn:Em. revert σ Em.
  induction (lexlt_wf m) as [m _ IH]. intros σ -> Hσ. apply inev_later. intros σ' Hr.
  assert (P σ' ∨ (H σ' ∧ (μ σ' = μ σ ∨ lexlt (μ σ') (μ σ)))) as [?|[Hσ' Hle]]; [|by left|].
  { refine (rtc_ind_r (λ τ, P τ ∨ (H τ ∧ (μ τ = μ σ ∨ lexlt (μ τ) (μ σ)))) σ _ _ σ' Hr); [by right; split; [|left]|].
    intros τ τ' _ [Hn Hs] [?|[Hτ Hle]]; [done|]. destruct (Ho _ _ Hτ Hs) as [?|[? Hle']]; [by left|right; split; [done|]].
    destruct Hle as [<-|Hle], Hle' as [->|Hle']; auto. right. by eapply lexlt_trans. }
  destruct (Hm σ' Hσ') as [?|[Hex Hmv]]; [by left|right]. split; [done|]. intros σ'' Hs.
  destruct (Hmv σ'' Hs) as [?|[? Hlt]]; [by apply inev_now|]. eapply IH; [|done|done].
  destruct Hle as [<-|Hle]; [done|by eapply lexlt_trans].
Qed.

(** *** Counting the sessions that may still log in or be logged in *)

Definition live1 c : nat := if gone c then 0 else 1.
Definition live (m : gmap nat Conn) : nat := sum_list_with live1 (map_to_list m).*2.

Lemma live_lookup m i c : m !! i = Some c → live m = live1 c + live (delete i m).
Proof.
  intros Hm. rewrite <- (insert_delete_id m i c Hm) at 1. unfold live.
  rewrite map_to_list_insert by apply lookup_delete_eq. done.
Qed.

Lemma live_insert m i c c' : m !! i = Some c → live (<[i := c']> m) + live1 c = live m + live1 c'.
Proof.
  intros Hm. rewrite (live_lookup m i c Hm), (live_lookup (<[i := c']> m) i c' (lookup_insert_eq _ _ _)).
  rewrite delete_insert_eq. lia.
Qed.

(** *** How near the answer to a session is *)

(** The tasks before the one of session [i], with it *)
Fixpoint position (i : nat) (q : list Task) : nat :=
  match q with [] => 0 | t :: q => if decide (by_of t = Some i) then 1 else S (position i q) end.

Definition ahead (i : nat) σ : nat :=
  match spc σ with
  | Working w _ => if decide (by_of (task_of w) = Some i) then 0 else position i (queue σ)
  | _ => position i (queue σ)
  end.
Definition stage (p : SPC) : nat :=
  match p with Accepting n => 4 + n | Top => 3 | Ack _ => 2 | Working _ _ => 1 | _ => 0 end.

(** The session that [LoginKickUser] has chosen is not logged in any more. *)
Definition stale (p : SPC) (m : gmap nat Conn) : nat :=
  match p with
  | Working (Scanning _ _ _ (Some j) _ _) _ =>
      match m !! j with Some c => if bool_decide (st c = LoggedIn) then 0 else 1 | None => 0 end
  | _ => 0
  end.
Definition churn (p : SPC) (m : gmap nat Conn) : nat := 2 * live m + stale p m.

Definition joined_rank (m : gmap nat Conn) (i : nat) : nat := match m !! i with Some c => rank c | None => 0 end.
Definition todo_left (p : SPC) (m : gmap nat Conn) : nat :=
  match p with
  | Working (Start _) _ => 20 + size m
  | Working (Kicking _ _ _ todo _) _ | Working (Scanning _ _ todo _ _ _) _ | Working (Updating _ todo) _ => S (length todo)
  | Working (Joining j) _ => joined_rank m j
  | _ => 0
  end.
Definition nearness (i : nat) σ : measure :=
  (ahead i σ, stage (spc σ), churn (spc σ) (clients σ), todo_left (spc σ) (clients σ)).

Lemma position_app i q new : 0 < count_of by_of i q → position i (q ++ new) = position i q.
Proof.
  induction q as [|t q IH]; cbn; [lia|]. intros Hc. case_decide; [done|]. by rewrite IH by lia.
Qed.

Lemma ahead_push i σ σ' new :
  0 < count_of by_of i (pending σ) → spc σ' = spc σ → queue σ' = queue σ ++ new → ahead i σ' = ahead i σ.
Proof.
  intros Hc Hs Hq. unfold ahead, pending in *. rewrite Hs, Hq.
  destruct (spc σ) as [| | |w n| | | | |]; cbn in Hc; try by rewrite position_app.
  case_decide; [done|]. cbn in Hc. by rewrite position_app.
Qed.

Lemma length_ordered todo σ : ordered todo σ = true → length todo = size (clients σ).
Proof.
  unfold ordered. rewrite andb_true_iff, !bool_decide_eq_true. intros [Hn Hd].
  by rewrite <- size_dom, <- Hd, size_list_to_set.
Qed.

(** *** A step of another thread takes nothing away *)

Lemma churn_client p m i c c' : m !! i = Some c → (gone c = true → gone c' = true) →
  (st c = LoggedIn → st c' = LoggedIn ∨ (gone c = false ∧ gone c' = true)) →
  churn p (<[i := c']> m) ≤ churn p m.
Proof.
  intros Hi Hg Ho. unfold churn. pose proof (live_insert m i c c' Hi) as Hl. unfold live1 in Hl.
  assert (Hs : stale p (<[i := c']> m) + 2 * (if gone c' then 0 else 1) ≤ stale p m + 2 * (if gone c then 0 else 1)).
  { assert (Hb : (if gone c' then 0 else 1) ≤ (if gone c then 0 else 1)).
    { destruct (gone c); [by rewrite Hg|]. destruct (gone c'); lia. }
    unfold stale. destruct p as [| | |[| |? ? ? [j|] ? ?| | | |] n| | | | |]; try lia.
    destruct (decide (i = j)) as [->|]; [|rewrite lookup_insert_ne by done; lia].
    rewrite lookup_insert_eq, Hi. case_bool_decide as H1; case_bool_decide as H2; try lia.
    destruct (Ho H2) as [?|[-> ->]]; [done|lia]. }
  destruct (gone c), (gone c'); lia.
Qed.

Definition awaits (i : nat) σ : Prop :=
  Inv σ ∧ ∃ c k, clients σ !! i = Some c ∧ pc c = Waiting k ∧ fut c = None.

Lemma awaits_pending i σ : awaits i σ → 0 < count_of by_of i (pending σ).
Proof.
  intros (Hi & c & k & Hc & Hp & Hf). rewrite (inv_asks _ Hi). unfold owed, asking. rewrite Hc, Hp, Hf. lia.
Qed.

(** A step of the thread of another session *)
Lemma client_step_awaits i j a σ σ' :
  awaits i σ → client_step j a σ = Some σ' →
  (∃ why, spc σ' = Undefined why) ∨
  ∃ c c' new, clients σ !! j = Some c ∧ client_effect j σ c c' new σ' ∧ awaits i σ' ∧
    ahead i σ' = ahead i σ ∧ churn (spc σ') (clients σ') ≤ churn (spc σ) (clients σ).
Proof.
  intros Ha E. pose proof Ha as (Hi & d & k & Hd & Hp & Hf).
  destruct (client_step_effect j a σ σ' E (inv_conn _ Hi j) (inv_logins _ Hi)) as [(c & _ & Ht)|(c & c' & new & Hc & He)];
    [left; by eapply client_trouble_undefined|right]. exists c, c', new. split; [done|]. split; [done|].
  pose proof (Inv_client _ _ _ _ _ _ Hi Hc He) as Hi'. pose proof (ce_srv He) as Es.
  assert (Hne : j ≠ i).
  { intros ->. assert (c = d) as -> by congruence. unfold Server.client_step in E. rewrite Hd in E. cbn in E.
    rewrite Hp, Hf in E. by destruct a. }
  assert (Hcl : clients σ' = <[j := c']> (clients σ)) by by rewrite Es.
  assert (Hsp : spc σ' = spc σ) by by rewrite Es.
  split_and!.
  - split; [done|]. exists d, k. by rewrite Hcl, lookup_insert_ne.
  - apply (ahead_push i σ σ' new); [by apply awaits_pending|done|by rewrite Es].
  - rewrite Hsp, Hcl. eapply churn_client; [done|apply He|]. intros Hst.
    destruct (ce_out He Hst) as [?|Hg]; [by left|right]. split; [|done].
    unfold gone. by rewrite bool_decide_eq_false_2 by congruence.
Qed.

Lemma step_eq e σ : defined σ →
  step e σ = match e with EServer ch => server_step ch σ | EClient i a => client_step i a σ | _ => outside_step capacity e σ end.
Proof. intros Hd. unfold Server.step. destruct (spc σ) eqn:Hs; try by destruct e. by destruct (Hd why). Qed.

Lemma Inv_defined σ : Inv σ → defined σ.
Proof. intros Hi why Hs. pose proof (inv_shut _ Hi) as Ha. by rewrite Hs in Ha. Qed.

(** A step of a thread that is not joined does not change what is left to do. *)
Lemma todo_left_insert p m j c c' :
  m !! j = Some c → joined p ≠ Some j → todo_left p (<[j := c']> m) = todo_left p m.
Proof.
  intros Hj Hn. destruct p as [| | |[t| | | | | |i] n| | | | |]; try done; cbn.
  - rewrite <- !size_dom, dom_insert_lookup_L; [done|by eexists].
  - unfold joined_rank. rewrite lookup_insert_ne; [done|]. intros ->. by apply Hn.
Qed.

Lemma others_awaits i σ σ' : awaits i σ → others σ σ' →
  (∃ why, spc σ' = Undefined why) ∨ (awaits i σ' ∧ (nearness i σ' = nearness i σ ∨ lexlt (nearness i σ') (nearness i σ))).
Proof.
  intros Ha (e & Ho & E). pose proof Ha as (Hi & d & k & Hd & Hp & Hf). rewrite step_eq in E by by apply Inv_defined.
  destruct e as [ch|j a|t|]; cbn in Ho.
  - destruct ch; try done. unfold Server.server_step in E.
    destruct (spc σ) as [| | |[[]| | | | | |]| [] |[]| | |] eqn:Hs; try done.
    unfold Run_step in E. destruct (shutdown σ); [done|]. injection E as <-. right. split; [done|by left].
  - apply bool_decide_eq_false in Ho.
    destruct (client_step_awaits i j a σ σ' Ha E) as [?|(c & c' & new & Hc & He & Ha' & Hh & Hx)]; [by left|right].
    split; [done|]. unfold nearness. rewrite Hh.
    assert (Hcl : clients σ' = <[j := c']> (clients σ)) by by rewrite (ce_srv He).
    assert (Hsp : spc σ' = spc σ) by by rewrite (ce_srv He).
    rewrite Hsp in *. rewrite Hcl in *. rewrite (todo_left_insert _ _ _ c) by done.
    destruct (decide (churn (spc σ) (<[j:=c']> (clients σ)) = churn (spc σ) (clients σ))) as [->|]; [by left|right].
    do 2 (right; split; [done|]). left. lia.
  - right. destruct (outside_step_Inv _ _ _ Hi E) as (Hi' & Hs & Hc & _ & new & Hq & _).
    split; [split; [done|]; exists d, k; by rewrite Hc|left]. unfold nearness.
    by rewrite (ahead_push i σ σ' new), Hs, Hc by (done || by apply awaits_pending).
  - right. destruct (outside_step_Inv _ _ _ Hi E) as (Hi' & Hs & Hc & _ & new & Hq & _).
    split; [split; [done|]; exists d, k; by rewrite Hc|left]. unfold nearness.
    by rewrite (ahead_push i σ σ' new), Hs, Hc by (done || by apply awaits_pending).
Qed.

(** *** The server can go on *)

Lemma ordered_exists σ : ordered (elements (dom (clients σ))) σ = true.
Proof.
  apply ordered_spec. split; [apply NoDup_elements|]. intros i. by rewrite elem_of_elements, elem_of_dom.
Qed.

(** A thread goes on unless it waits for an answer, or for room in the pipe. *)
Lemma client_enabled i c σ :
  clients σ !! i = Some c → pc c ≠ Exited → (∀ k, pc c = Waiting k → fut c ≠ None) → pipe σ < capacity →
  ∃ a σ', client_step i a σ = Some σ'.
Proof.
  intros Hc He Hw Hp. unfold Server.client_step. rewrite Hc. cbn.
  assert (Hwr : ∀ d, is_Some (WritePipe capacity (put i d σ))).
  { intros d. unfold WritePipe. change (pipe (put i d σ)) with (pipe σ). destruct (Nat.ltb_spec (pipe σ) capacity); [by eexists|lia]. }
  destruct (pc c) as [| |k| |k|k|k| | | | |] eqn:Ep.
  - exists AThrow. by eexists.
  - destruct (upd c) eqn:Eu; [exists (AReload true)|exists ASkip]; cbn; rewrite Eu; by eexists.
  - exists AThrow. by eexists.
  - exists ALoggedIn. by eexists.
  - exists AWrite. apply Hwr.
  - exists AWrite. apply Hwr.
  - exists AGet. specialize (Hw k eq_refl). destruct (fut c); [by eexists|done].
  - exists AGuard. by eexists.
  - exists APush. by eexists.
  - exists AWrite. apply Hwr.
  - exists APurge. by eexists.
  - done.
Qed.

Lemma moves_server σ ch σ' : Inv σ → server_step ch σ = Some σ' → ch ≠ CPollFails → moves σ σ'.
Proof. intros Hi E Hn. exists (EServer ch). split; [by destruct ch|]. by rewrite step_eq by by apply Inv_defined. Qed.

Lemma moves_joined σ j : Inv σ → joined (spc σ) = Some j →
  (∀ c k, clients σ !! j = Some c → pc c = Waiting k → fut c ≠ None) → pipe σ < capacity →
  is_Some (clients σ !! j) →
  (∃ c, clients σ !! j = Some c ∧ pc c = Exited) ∨ ∃ σ', moves σ σ'.
Proof.
  intros Hi Hj Hw Hp [c Hc]. destruct (decide (rank c = 0)) as [Hr|Hr].
  - left. exists c. split; [done|]. unfold rank in Hr. destruct (pc c) as [| |k| |k|k|k| | | | |]; try done.
    + by destruct (upd c).
    + by destruct k as [|[]| | |].
  - right. destruct (client_enabled j c σ Hc) as (a & σ' & E); [|by intros k; apply Hw|done|].
    + intros He. apply Hr. unfold rank. by rewrite He.
    + exists σ', (EClient j a). split; [by apply bool_decide_eq_true|]. by rewrite step_eq by by apply Inv_defined.
Qed.

(** *** Each step of the server brings the answer nearer *)

Definition answered (i : nat) σ : Prop := ∃ c, clients σ !! i = Some c ∧ fut c ≠ None.
Definition undefined σ : Prop := ∃ why, spc σ = Undefined why.

(** What a step of the server leads to *)
Definition nearer (i : nat) σ σ' : Prop :=
  answered i σ' ∨ shutdown σ' = true ∨ undefined σ' ∨ (awaits i σ' ∧ lexlt (nearness i σ') (nearness i σ)).

Lemma awaits_same i σ σ' : Inv σ' → clients σ' = clients σ → awaits i σ → awaits i σ'.
Proof. intros Hi Hc (_ & c & k & ?). split; [done|]. exists c, k. by rewrite Hc. Qed.

Lemma awaits_insert i j σ σ' c c' :
  Inv σ' → clients σ !! j = Some c → clients σ' = <[j := c']> (clients σ) →
  (j = i → pc c' = pc c ∧ fut c' = fut c) → awaits i σ → awaits i σ'.
Proof.
  intros Hi Hj Hc Hs (_ & d & k & Hd & Hp & Hf). split; [done|]. rewrite Hc.
  destruct (decide (j = i)) as [->|Hn].
  - exists c', k. rewrite lookup_insert_eq. assert (c = d) as -> by congruence. destruct (Hs eq_refl) as [-> ->]. done.
  - exists d, k. by rewrite lookup_insert_ne.
Qed.

(** A change of place behind which less is left to do of the same task *)
Lemma nearer_go i σ σ' w w' n :
  spc σ = Working w n → spc σ' = Working w' n → task_of w' = task_of w → queue σ' = queue σ → awaits i σ' →
  churn (spc σ') (clients σ') < churn (spc σ) (clients σ) ∨
    (churn (spc σ') (clients σ') ≤ churn (spc σ) (clients σ) ∧
     todo_left (spc σ') (clients σ') < todo_left (spc σ) (clients σ)) →
  nearer i σ σ'.
Proof.
  intros Hs Hs' Ht Hq Ha Hc. do 3 right. split; [done|]. unfold nearness, ahead. rewrite Hs, Hs' in *. rewrite Ht, Hq. cbn [stage].
  do 2 (right; split; [done|]). lia.
Qed.

(** The end of a task that is not the one of session [i] *)
Lemma nearer_done i σ σ' w n :
  spc σ = Working w n → spc σ' = Draining n → by_of (task_of w) ≠ Some i → queue σ' = queue σ → awaits i σ' → nearer i σ σ'.
Proof.
  intros Hs Hs' Hb Hq Ha. do 3 right. split; [done|]. unfold nearness, ahead. rewrite Hs, Hs', Hq, decide_False by done.
  right. split; [done|]. left. cbn. lia.
Qed.

(** The end of a task with an answer, for session [i] or another *)
Lemma nearer_value i σ w n b a :
  awaits i σ → spc σ = Working w n → by_of (task_of w) = Some b → nearer i σ (set_value b a (Draining n) σ).
Proof.
  intros Ha Hs Hb. destruct (set_value_Inv σ w n b a (proj1 Ha) Hs Hb) as (c & Hc & _ & Ev & Hi).
  destruct (decide (b = i)) as [->|Hn].
  - left. exists (set_fut (Some a) c). rewrite Ev. cbn. by rewrite lookup_insert_eq.
  - apply (nearer_done i σ _ w n); try done; [by rewrite Ev|congruence|by rewrite Ev|].
    eapply (awaits_insert i b); [done|exact Hc|by rewrite Ev|done|done].
Qed.

Lemma Interrupt_awaits i j c σ : awaits i σ → clients σ !! j = Some c →
  awaits i (Interrupt j c σ) ∧ spc (Interrupt j c σ) = spc σ ∧ queue (Interrupt j c σ) = queue σ ∧
  shutdown (Interrupt j c σ) = shutdown σ ∧ live (clients (Interrupt j c σ)) ≤ live (clients σ).
Proof.
  intros Ha Hc. destruct (Interrupt_Inv σ j c (proj1 Ha) Hc) as (Hi & l & El). split_and!.
  - eapply (awaits_insert i j); [done|exact Hc|by rewrite El|done|done].
  - by rewrite El.
  - by rewrite El.
  - by rewrite El.
  - rewrite El. cbn. pose proof (live_insert _ j c (finish (set_stopped c)) Hc) as Hl.
    assert (live1 (finish (set_stopped c)) ≤ live1 c); [|lia]. unfold live1, gone. cbn.
    rewrite (bool_decide_eq_true_2 (Finished = Finished)) by done.
    destruct (bool_decide (st c = Finished)), (within login_cmd (pc c)); cbn; lia.
Qed.

Lemma KickUser_nearer i σ uid oneOnly b todo kicked n :
  awaits i σ → spc σ = Working (Kicking uid oneOnly b todo kicked) n →
  nearer i σ (KickUser_step uid oneOnly b todo kicked n σ).
Proof.
  intros Ha Hs. pose proof Ha as [Hi _].
  destruct (KickUser_step_Inv σ uid oneOnly b todo kicked n Hi Hs) as [Hi'|[_ ->]]; [|right; right; left; by eexists].
  destruct todo as [|j todo]; [by eapply nearer_value|]. cbn in *.
  destruct (targets_head σ _ n j todo Hi Hs ltac:(by rewrite Hs)) as [[c Hc] _]. rewrite Hc in *.
  revert Hi'. destruct (usr c) as [u|]; [|intros _; right; right; left; by eexists]. destruct (u =? uid)%Z; intros Hi'.
  - destruct (Interrupt_awaits i j c σ Ha Hc) as (Ha' & Hsp & Hq & _ & Hl).
    eapply nearer_go; [exact Hs|done|done|done|by apply (awaits_same i (Interrupt j c σ))|]. right. rewrite Hs. cbn [spc set_spc clients].
    split; [unfold churn; cbn [stale]; cbn [set_spc clients] in *; lia|]. cbn. destruct oneOnly; cbn; lia.
  - eapply nearer_go; [exact Hs|done|done|done|by apply (awaits_same i σ)|]. right. rewrite Hs. cbn. lia.
Qed.

Lemma scan_nearer i σ uid b todo toKick idleTime logins idle n :
  awaits i σ → spc σ = Working (Scanning uid b todo toKick idleTime logins) n →
  nearer i σ (LoginKickUser_scan uid b todo toKick idleTime logins idle n σ).
Proof.
  intros Ha Hs. pose proof Ha as [Hi _]. pose proof (scan_Inv σ uid b todo toKick idleTime logins idle n Hi Hs) as Hi'.
  pose proof (inv_targets _ Hi) as Ht. rewrite Hs in Ht. cbn in Ht. destruct todo as [|j todo]; cbn in *.
  - destruct toKick as [j|].
    + destruct (Ht j) as [c Hc]; [by left|]. rewrite Hc in *. revert Hi'.
      case_bool_decide as Hst; intros Hi'; (eapply nearer_go; [exact Hs|done|done|done|by apply (awaits_same i σ)|]).
      * right. rewrite Hs. unfold churn. cbn. rewrite Hc. lia.
      * left. rewrite Hs. unfold churn. cbn. rewrite Hc, bool_decide_eq_false_2 by done. lia.
    + eapply nearer_go; [exact Hs|done|done|done|by apply (awaits_same i σ)|]. right. rewrite Hs. unfold churn. cbn. lia.
  - destruct (Ht j) as [c Hc]; [apply elem_of_app; right; by left|]. rewrite Hc in *.
    assert (Hk : ∀ k id l, k = toKick ∨ (k = Some j ∧ st c = LoggedIn) → Inv (set_spc (Working (Scanning uid b todo k id l) n) σ) →
      nearer i σ (set_spc (Working (Scanning uid b todo k id l) n) σ)).
    { intros k id l Hk Hv. eapply nearer_go; [exact Hs|done|done|done|by apply (awaits_same i σ)|]. right. rewrite Hs.
      unfold churn. cbn. destruct Hk as [->|[-> Hst]]; [lia|]. rewrite Hc, bool_decide_eq_true_2 by done. lia. }
    revert Hi'. case_bool_decide as Hst; [|apply Hk; by left].
    destruct (usr c) as [u|]; [|intros _; right; right; left; by eexists]. destruct (u =? uid)%Z; [|apply Hk; by left].
    destruct (idleTime <=? idle)%Z; apply Hk; auto.
Qed.

Lemma UserUpdate_nearer i σ uid todo n :
  awaits i σ → spc σ = Working (Updating uid todo) n → nearer i σ (UserUpdate_step uid todo n σ).
Proof.
  intros Ha Hs. pose proof Ha as [Hi _]. pose proof (UserUpdate_step_Inv σ uid todo n Hi Hs) as Hi'.
  destruct todo as [|j todo]; cbn in *.
  { eapply nearer_done; [exact Hs|done|done|done|by apply (awaits_same i σ)]. }
  destruct (targets_head σ _ n j todo Hi Hs ltac:(by rewrite Hs)) as [[c Hc] _]. rewrite Hc in *. revert Hi'.
  case_bool_decide as Hst; [destruct (usr c) as [u|]; [destruct (u =? uid)%Z|]|]; intros Hi'.
  2, 4: eapply nearer_go; [exact Hs|done|done|done|by apply (awaits_same i σ)|]; right; rewrite Hs; unfold churn; cbn; lia.
  2: right; right; left; by eexists.
  eapply nearer_go; [exact Hs|done|done|done| |].
  - by eapply (awaits_insert i j σ _ c (set_upd true c)).
  - right. rewrite Hs. unfold churn. cbn. pose proof (live_insert _ j c (set_upd true c) Hc) as Hl.
    change (live1 (set_upd true c)) with (live1 c) in Hl. lia.
Qed.

Lemma CleanupClient_nearer i j σ n σ' :
  awaits i σ → spc σ = Working (Joining j) n → CleanupClient j n σ = Some σ' → nearer i σ σ'.
Proof.
  intros Ha Hs E. pose proof (CleanupClient_Inv σ j n σ' (proj1 Ha) Hs E) as Hi'. unfold CleanupClient in E.
  destruct (clients σ !! j) as [c|] eqn:Hc; [|injection E as <-; right; right; left; by eexists].
  destruct (pc c) eqn:Hp; try done. injection E as <-.
  eapply nearer_done; [exact Hs|done|done|done|]. split; [done|]. destruct Ha as (_ & d & k & Hd & Hdp & Hf).
  exists d, k. cbn. rewrite lookup_delete_ne; [done|]. intros ->. congruence.
Qed.

Lemma Execute_start_nearer i t ch σ n σ' :
  awaits i σ → spc σ = Working (Start t) n → Execute_start t ch n σ = Some σ' → nearer i σ σ'.
Proof.
  intros Ha Hs E. pose proof Ha as [Hi _]. pose proof (Execute_start_Inv t ch σ n σ' Hi Hs E) as Hi'.
  destruct t, ch; try done; cbn in E.
  all: try (destruct (ordered todo σ) eqn:Eo; [|done]; apply length_ordered in Eo; injection E as <-;
    eapply nearer_go; [exact Hs|done|done|done|by apply (awaits_same i σ)|]; right; rewrite Hs; unfold churn; cbn; lia).
  - injection E as <-. by eapply nearer_value.
  - injection E as <-. right. by left.
  - destruct (clients σ !! client) as [c|] eqn:Hc; injection E as <-; [|right; right; left; by eexists].
    revert Hi'. case_bool_decide; intros Hi'; [|right; right; left; by eexists].
    eapply nearer_go; [exact Hs|done|done|done|by apply (awaits_same i σ)|]. right. rewrite Hs. unfold churn. cbn.
    unfold joined_rank. rewrite Hc. assert (rank c ≤ 14); [|lia]. unfold rank. destruct (pc c) as [| |[|[]| | |]| |[|[]| | |]|[|[]| | |]|[|[]| | |]| | | | |]; cbn; try lia.
    destruct (upd c); lia.
Qed.

Lemma Work_step_nearer i w ch σ n σ' :
  awaits i σ → spc σ = Working w n → Work_step capacity w ch n σ = Some σ' → nearer i σ σ'.
Proof.
  intros Ha Hs E. destruct w as [t|uid one b todo m|uid b todo tk idle l|uid b tk idle l| |uid todo|j']; cbn in E; [by eapply Execute_start_nearer|destruct ch; try done..].
  - injection E as <-. by apply KickUser_nearer.
  - injection E as <-. by apply scan_nearer.
  - injection E as <-. unfold LoginKickUser_end. destruct tk as [j|]; [|by eapply nearer_value].
    destruct (inv_targets _ (proj1 Ha) j) as [c Hc]; [rewrite Hs; by left|]. rewrite Hc.
    destruct (Interrupt_awaits i j c σ Ha Hc) as (Ha' & Hsp & Hq & _ & Hl).
    assert (Hs' := Hs). rewrite <- Hsp in Hs'.
    destruct (nearer_value i _ _ n b (LoginKick true idle l) Ha' Hs' eq_refl) as [?|[?|[?|[? Hlt]]]];
      [by left|by right; left|by right; right; left|]. do 3 right. split; [done|].
    assert (He : ahead i (Interrupt j c σ) = ahead i σ) by (unfold ahead; by rewrite Hsp, Hq).
    unfold nearness in *. rewrite He, Hsp in Hlt. cbn [lexlt] in *. rewrite Hs in *. unfold churn in *. cbn in *. lia.
  - unfold WritePipe in E. case_match; [|done]. injection E as <-.
    eapply nearer_done; [exact Hs|done|done|done|]. apply (awaits_same i σ); [|done|done].
    pose proof (Inv_done σ _ n (proj1 Ha) Hs eq_refl eq_refl) as []. by split.
  - injection E as <-. by apply UserUpdate_nearer.
  - by eapply CleanupClient_nearer.
Qed.

(** A step that brings the server to the next place of its loop *)
Lemma nearer_stage i σ σ' :
  awaits i σ' → ahead i σ' = ahead i σ → stage (spc σ') < stage (spc σ) → nearer i σ σ'.
Proof. intros Ha Hh Hs. do 3 right. split; [done|]. unfold nearness. rewrite Hh. right. split; [done|]. by left. Qed.

Lemma server_step_nearer i ch σ σ' :
  awaits i σ → shutdown σ = false → ch ≠ CPollFails → server_step ch σ = Some σ' → nearer i σ σ'.
Proof.
  intros Ha Hsd Hch E. pose proof Ha as (Hi & d & k & Hd & Hp & Hf).
  destruct (server_step_Inv ch σ σ' Hi E) as [Hi'|[_ ->]]; [|right; right; left; by eexists].
  pose proof (inv_shut _ Hi) as Hal. unfold Server.server_step in E.
  destruct (spc σ) as [|n|n|w n|[|n]|todo|todo| |] eqn:Hs; cbn in Hal; try congruence.
  - unfold Run_step in E. rewrite Hsd in E. destruct ch; try done. injection E as <-. revert Hi'.
    destruct (Nat.ltb_spec 0 (pipe σ)) as [Hpp|Hpp]; intros Hi'.
    + apply nearer_stage; [by apply (awaits_same i σ)|by unfold ahead; rewrite Hs|rewrite Hs; cbn; lia].
    + pose proof (inv_wakes _ Hi i d ltac:(by rewrite Hs) Hd k Hp Hf). lia.
  - destruct ch; try done. injection E as <-.
    apply nearer_stage; [by apply (awaits_same i σ)|by unfold ahead; rewrite Hs|rewrite Hs; cbn; lia].
  - destruct ch; try done. injection E as <-. pose proof (awaits_pending i σ Ha) as Hq. unfold pending in Hq. rewrite Hs in Hq. cbn in Hq.
    unfold HandleTasks in *. destruct (queue σ) as [|t q] eqn:Eq; [cbn in Hq; lia|].
    do 3 right. split; [by apply (awaits_same i σ)|]. unfold nearness, ahead. rewrite Hs, Eq. cbn. left. case_decide; lia.
  - by eapply Work_step_nearer.
  - destruct ch; try done. injection E as <-.
    apply nearer_stage; [by apply (awaits_same i σ)|by unfold ahead; rewrite Hs|rewrite Hs; cbn; lia].
  - destruct ch; try done. injection E as <-. apply nearer_stage.
    + split; [done|]. exists d, k. destruct accepted; cbn; [|done]. rewrite lookup_insert_ne; [done|].
      pose proof (inv_next _ Hi i ltac:(by eexists)). lia.
    + unfold ahead. rewrite Hs. by destruct accepted.
    + rewrite Hs. cbn. lia.
Qed.

Lemma moves_nearer i σ σ' : awaits i σ → shutdown σ = false → moves σ σ' → nearer i σ σ'.
Proof.
  intros Ha Hsd (e & Ho & E). pose proof (proj1 Ha) as Hi. rewrite step_eq in E by by apply Inv_defined.
  destruct e as [ch|j a|t|]; try done.
  - eapply server_step_nearer; try done. by intros ->.
  - apply bool_decide_eq_true in Ho.
    destruct (client_step_awaits i j a σ σ' Ha E) as [?|(c & c' & new & Hc & He & Ha' & Hh & Hx)]; [by right; right; left|].
    assert (Hcl : clients σ' = <[j := c']> (clients σ)) by by rewrite (ce_srv He).
    assert (Hsp : spc σ' = spc σ) by by rewrite (ce_srv He).
    destruct (spc σ) as [| | |[| | | | | |j'] n| | |[|j' todo]| |] eqn:Hs; try done; cbn in Ho; injection Ho as ->.
    + assert (Hl : has_left c = true).
      { pose proof (inv_left _ Hi j ltac:(by rewrite Hs)) as Hl. unfold pending in Hl. rewrite Hs in Hl. cbn in Hl.
        rewrite decide_True in Hl by done. unfold owed in Hl. rewrite Hc in Hl. by destruct (has_left c). }
      do 3 right. split; [done|]. unfold nearness. rewrite Hh, Hsp, Hs in *. do 2 (right; split; [done|]). cbn [todo_left].
      unfold joined_rank. rewrite Hcl in *. rewrite lookup_insert_eq, Hc. pose proof (ce_rank He (or_intror Hl)). lia.
    + pose proof (inv_shut _ Hi) as Hal. rewrite Hs in Hal. cbn in Hal. congruence.
Qed.

Lemma server_can_move i σ : awaits i σ → shutdown σ = false → pipe σ < capacity → ∃ σ', moves σ σ'.
Proof.
  intros Ha Hsd Hp. pose proof (proj1 Ha) as Hi.
  assert (Hm : ∀ ch, ch ≠ CPollFails → is_Some (server_step ch σ) → ∃ σ', moves σ σ').
  { intros ch Hch [σ' E]. exists σ'. by eapply moves_server. }
  pose proof (inv_shut _ Hi) as Hal. pose proof (ordered_exists σ) as Ho.
  destruct (spc σ) as [|n|n|w n|[|n]|todo|todo| |] eqn:Hs; cbn in Hal; try congruence; try done.
  - apply (Hm (CPoll 0)); [done|]. unfold Server.server_step, Run_step. rewrite Hs, Hsd. by eexists.
  - apply (Hm CGo); [done|]. unfold Server.server_step. rewrite Hs. by eexists.
  - apply (Hm CGo); [done|]. unfold Server.server_step. rewrite Hs. by eexists.
  - assert (Hw : ∀ ch, ch ≠ CPollFails → is_Some (Work_step capacity w ch n σ) → ∃ σ', moves σ σ').
    { intros ch Hch Hw. apply (Hm ch Hch). unfold Server.server_step. by rewrite Hs. }
    destruct w as [t|uid one b todo m|uid b todo tk id l|uid b tk id l| |uid todo|j].
    + destruct t.
      1, 2, 5: apply (Hw (COrder (elements (dom (clients σ))))); [done|]; cbn; rewrite Ho; by eexists.
      * apply (Hw (CReload true true true)); [done|by eexists].
      * apply (Hw CGo); [done|by eexists].
      * apply (Hw CGo); [done|]. cbn. destruct (clients σ !! client); by eexists.
    + apply (Hw CGo); [done|by eexists].
    + apply (Hw (CIdle 0)); [done|by eexists].
    + apply (Hw CGo); [done|by eexists].
    + apply (Hw CGo); [done|]. cbn [Work_step]. unfold WritePipe. destruct (Nat.ltb_spec (pipe σ) capacity); [by eexists|lia].
    + apply (Hw CGo); [done|by eexists].
    + assert (Hl : owed has_left (clients σ) j = 1).
      { pose proof (inv_left _ Hi j ltac:(by rewrite Hs)) as Hl. rewrite <- Hl. unfold pending in *. rewrite Hs in *. cbn in *.
        rewrite decide_True in * by done. unfold owed in Hl. destruct (clients σ !! j) as [c|]; [destruct (has_left c)|]; lia. }
      unfold owed in Hl. destruct (clients σ !! j) as [c|] eqn:Hc; [|done].
      destruct (moves_joined σ j Hi) as [(c' & Hc' & He)|?]; [by rewrite Hs| |done|by eexists| |done].
      * intros c' k' Hc' Hk'. assert (c' = c) as -> by congruence. unfold has_left in Hl. by rewrite Hk' in Hl.
      * apply (Hw CGo); [done|]. cbn. unfold CleanupClient. rewrite Hc', He. by eexists.
  - apply (Hm CGo); [done|]. unfold Server.server_step. rewrite Hs. by eexists.
  - apply (Hm (CAccept true)); [done|]. unfold Server.server_step. rewrite Hs. by eexists.
Qed.

(** C5: Answers come.  A session that waits for the answer of a task gets it, whatever
    the other threads do meanwhile and however often they do it, provided that the
    server's thread, and a thread that it joins, get their turns: nothing else is
    needed to wake the server up, no task is forgotten, and the search for the login
    to be kicked, which begins again whenever the login it chose has ended by itself,
    comes to its end.  The only exceptions are that the server is shut down, that
    the pipe is full, or that one of the assertions of [server_safe] fails. *)
Theorem answers_come i c k σ :
  reachable σ → defined σ → clients σ !! i = Some c → pc c = Waiting k →
  inevitable (λ σ', answered i σ' ∨ shutdown σ' = true ∨ capacity ≤ pipe σ' ∨ undefined σ') σ.
Proof.
  intros Hr Hd Hc Hp. destruct (fut c) as [a|] eqn:Hf.
  { apply inev_now. left. exists c. by rewrite Hf. }
  apply (inevitable_measure (awaits i) _ (nearness i)); [| |split; [by eapply reach_Inv|by exists c, k]].
  - clear. intros σ σ' Ha Ho. destruct (others_awaits i σ σ' Ha Ho) as [?|?]; [left; auto|by right].
  - clear. intros σ Ha. destruct (shutdown σ) eqn:Hs; [left; auto|].
    destruct (decide (capacity ≤ pipe σ)) as [|Hcap]; [left; auto|right].
    split; [apply (server_can_move i σ Ha Hs); lia|]. intros σ' Hm.
    destruct (moves_nearer i σ σ' Ha Hs Hm) as [?|[?|[?|?]]]; [left; auto..|by right].
Qed.

(** *** The end of the server *)

(** It joins a session that waits for an answer, and there is nobody left to give it. *)
Definition hangs σ : Prop :=
  ∃ i todo c k, spc σ = StopJoining (i :: todo) ∧ clients σ !! i = Some c ∧ pc c = Waiting k ∧ fut c = None.

Lemma hangs_for_ever σ σ' : hangs σ → ¬ moves σ σ'.
Proof.
  intros (i & todo & c & k & Hs & Hc & Hp & Hf) (e & Ho & E). unfold Server.step in E. rewrite Hs in E.
  destruct e as [ch|j a|t|]; try done; cbn in Ho.
  - unfold Server.server_step in E. rewrite Hs in E. destruct ch; try done. cbn in E. by rewrite Hc, Hp in E.
  - apply bool_decide_eq_true in Ho. rewrite Hs in Ho. injection Ho as ->. unfold Server.client_step in E.
    rewrite Hc in E. cbn in E. rewrite Hp, Hf in E. by destruct a.
Qed.

Definition stopping σ : Prop := ∃ todo, spc σ = Stopping todo ∨ spc σ = StopJoining todo.
Definition stop_measure σ : measure :=
  match spc σ with
  | Stopping todo => (1, length todo, 0, 0)
  | StopJoining todo => (0, length todo, match todo with j :: _ => joined_rank (clients σ) j | [] => 0 end, 0)
  | _ => (0, 0, 0, 0)
  end.

Lemma others_stopping σ σ' : Inv σ → stopping σ → others σ σ' →
  undefined σ' ∨ (Inv σ' ∧ stopping σ' ∧ stop_measure σ' = stop_measure σ).
Proof.
  intros Hi [todo Hs] (e & Ho & E). rewrite step_eq in E by by apply Inv_defined.
  assert (Hsame : spc σ' = spc σ → clients σ' = clients σ → stopping σ' ∧ stop_measure σ' = stop_measure σ).
  { intros Hsp Hc. unfold stopping, stop_measure. rewrite Hsp, Hc. eauto. }
  destruct e as [ch|j a|t|]; cbn in Ho.
  - destruct ch; try done. unfold Server.server_step in E. destruct Hs as [Hs|Hs]; rewrite Hs in E; [by destruct todo|done].
  - apply bool_decide_eq_false in Ho.
    destruct (client_step_effect j a σ σ' E (inv_conn _ Hi j) (inv_logins _ Hi)) as [(c & _ & Ht)|(c & c' & new & Hc & He)];
      [left; by eapply client_trouble_undefined|right]. split; [by eapply Inv_client|].
    assert (Hcl : clients σ' = <[j := c']> (clients σ)) by by rewrite (ce_srv He).
    assert (Hsp : spc σ' = spc σ) by by rewrite (ce_srv He).
    unfold stopping, stop_measure. rewrite Hsp, Hcl. split; [eauto|].
    destruct Hs as [Hs|Hs]; rewrite Hs in *; [done|]. destruct todo as [|i todo]; [done|]. cbn in Ho. unfold joined_rank.
    rewrite lookup_insert_ne by congruence. done.
  - right. destruct (outside_step_Inv _ _ _ Hi E) as (Hi' & Hsp & Hc & _). auto.
  - right. destruct (outside_step_Inv _ _ _ Hi E) as (Hi' & Hsp & Hc & _). auto.
Qed.

Lemma moves_stopping σ σ' : Inv σ → stopping σ → moves σ σ' →
  spc σ' = Stopped ∨ undefined σ' ∨ (Inv σ' ∧ stopping σ' ∧ lexlt (stop_measure σ') (stop_measure σ)).
Proof.
  intros Hi [todo Hs] (e & Ho & E). rewrite step_eq in E by by apply Inv_defined.
  destruct e as [ch|j a|t|]; try done; cbn in Ho.
  - destruct (server_step_Inv ch σ σ' Hi E) as [Hi'|[_ ->]]; [|right; left; by eexists].
    unfold Server.server_step in E. unfold stopping, stop_measure. destruct Hs as [Hs|Hs]; rewrite Hs in *.
    + destruct todo as [|i todo], ch; try done; cbn in E.
      * destruct (ordered todo σ); [|done]. injection E as <-. do 2 right. split; [done|]. cbn. split; [eauto|lia].
      * destruct (clients σ !! i) as [c|] eqn:Hc; injection E as <-; [|right; left; by eexists].
        do 2 right. split; [done|]. cbn. split; [eauto|lia].
    + destruct ch; try done. destruct todo as [|i todo]; cbn in E; [injection E as <-; by left|].
      destruct (clients σ !! i) as [c|] eqn:Hc; [|injection E as <-; right; left; by eexists].
      destruct (pc c); try done. injection E as <-. do 2 right. split; [done|]. cbn. split; [eauto|lia].
  - apply bool_decide_eq_true in Ho. destruct Hs as [Hs|Hs]; rewrite Hs in Ho; [done|].
    destruct todo as [|i todo]; [done|]. injection Ho as ->.
    destruct (client_step_effect j a σ σ' E (inv_conn _ Hi j) (inv_logins _ Hi)) as [(c & _ & Ht)|(c & c' & new & Hc & He)];
      [right; left; by eapply client_trouble_undefined|]. do 2 right. split; [by eapply Inv_client|].
    assert (Hcl : clients σ' = <[j := c']> (clients σ)) by by rewrite (ce_srv He).
    assert (Hsp : spc σ' = spc σ) by by rewrite (ce_srv He).
    unfold stopping, stop_measure. rewrite Hsp, Hcl, Hs. split; [eauto|]. unfold joined_rank. rewrite lookup_insert_eq, Hc.
    pose proof (inv_stop _ Hi j c Hc) as Hst. rewrite Hs in Hst. destruct Hst as [Hst _].
    pose proof (ce_rank He (or_introl Hst)). cbn. lia.
Qed.

Lemma stopping_can_move σ : Inv σ → stopping σ → pipe σ < capacity → hangs σ ∨ ∃ σ', moves σ σ'.
Proof.
  intros Hi [todo Hs] Hp.
  assert (Hm : ∀ ch, ch ≠ CPollFails → is_Some (server_step ch σ) → ∃ σ', moves σ σ').
  { intros ch Hch [σ' E]. exists σ'. by eapply moves_server. }
  destruct Hs as [Hs|Hs].
  - right. destruct todo as [|i todo].
    + apply (Hm (COrder (elements (dom (clients σ))))); [done|]. unfold Server.server_step. rewrite Hs. cbn.
      rewrite ordered_exists. by eexists.
    + apply (Hm CGo); [done|]. unfold Server.server_step. rewrite Hs. cbn. destruct (clients σ !! i); by eexists.
  - destruct todo as [|i todo].
    { right. apply (Hm CGo); [done|]. unfold Server.server_step. rewrite Hs. by eexists. }
    pose proof (inv_targets _ Hi i) as Hc. rewrite Hs in Hc. destruct Hc as [c Hc]; [by left|].
    destruct (decide (asking c = true)) as [Ha|Ha].
    + destruct (pc c) as [| |k| |k|k|k| | | | |] eqn:Epc; try (unfold asking in Ha; by rewrite Epc in Ha).
      * right. destruct (client_enabled i c σ Hc) as (a & σ' & E); [congruence|congruence|done|].
        exists σ', (EClient i a). split; [apply bool_decide_eq_true; by rewrite Hs|]. by rewrite step_eq by by apply Inv_defined.
      * left. exists i, todo, c, k. split_and!; try done. unfold asking in Ha. rewrite Epc in Ha. by destruct (fut c).
    + right. destruct (moves_joined σ i Hi) as [(c' & Hc' & He)|?]; [by rewrite Hs| |done|by eexists| |done].
      * intros c' k Hc' Hk Hf. assert (c' = c) as -> by congruence. apply Ha. unfold asking. by rewrite Hk, Hf.
      * apply (Hm CGo); [done|]. unfold Server.server_step. rewrite Hs. cbn. rewrite Hc', He. by eexists.
Qed.

(** C6: The server stops.  Once it has begun to stop its sessions, it ends, whatever the
    other threads do, with all sessions destroyed and all logins given back; unless it
    joins a session that waits for the answer of a task, which nobody executes any
    more, and then it waits for ever; or the pipe is full, or an assertion of
    [server_safe] fails. *)
Theorem server_stops σ : reachable σ → defined σ → stopping σ →
  inevitable (λ σ', (spc σ' = Stopped ∧ clients σ' = ∅ ∧ represents (logins σ') []) ∨
                    (hangs σ' ∧ ∀ σ'', ¬ moves σ' σ'') ∨ capacity ≤ pipe σ' ∨ undefined σ') σ.
Proof.
  intros Hr Hd Hs. apply (inevitable_measure (λ τ, Inv τ ∧ stopping τ) _ stop_measure); [| |split; [by eapply reach_Inv|done]].
  - clear. intros σ σ' [Hi Hs] Ho. destruct (others_stopping σ σ' Hi Hs Ho) as [?|(? & ? & ->)]; [by left; do 3 right|right; auto].
  - clear. intros σ [Hi Hs]. destruct (decide (capacity ≤ pipe σ)) as [|Hcap]; [left; auto|].
    destruct (stopping_can_move σ Hi Hs ltac:(lia)) as [Hh|Hm].
    { left. right. left. split; [done|]. intros σ''. by apply hangs_for_ever. }
    right. split; [done|]. intros σ' Hmv. pose proof Hmv as (e & _ & E).
    destruct (moves_stopping σ σ' Hi Hs Hmv) as [Hst|[Hu|(? & ? & ?)]]; [left; left|by left; do 3 right|right; auto].
    destruct (step_Inv e σ σ' Hi E) as [Hi'|(why & _ & Hx)]; [|congruence].
    assert (Hc : clients σ' = ∅).
    { apply map_empty. intros i. apply eq_None_not_Some. intros [c Hc]. pose proof (inv_stop _ Hi' i c Hc) as Ho.
      by rewrite Hst in Ho. }
    split_and!; [done|done|]. pose proof (inv_logins _ Hi') as Hl. by rewrite Hc in Hl.
Qed.

End steps.

(** ** Runs *)

(** A kick that is asked for when the server has emptied its queue for the last time *)
Definition kick_at_shutdown : list Event :=
  connect 1 ++ log_in 7 0 ++ [EPush Exit; EWrite] ++ wake_up ++ [EServer CGo; EServer CGo; EServer CGo; EServer CGo] ++
  ask_site (KickUser 8 false 0) 0 ++ [EServer (COrder [0]); EServer CGo; EServer (COrder [0])].

Example kick_at_shutdown_hangs : hangs (state_16 kick_at_shutdown).
Proof. exists 0, [], (MkConn Finished (Some 7%Z) false false true None (Waiting CDone)), CDone. by vm_compute. Qed.

(** The server writes into the pipe that only it reads. *)
Definition exit_full : list Event :=
  [EPush Exit; EPush (UserUpdate 7); EWrite; EServer (CPoll 0); EServer CGo; EServer CGo; EServer CGo; EWrite].

Example exit_full_stops :
  ∃ σ, run 1 100 (λ _, 10%Z) exit_full init = Some σ ∧ spc σ = Working Exiting 0 ∧ ∀ σ', ¬ moves 1 100 (λ _, 10%Z) σ σ'.
Proof.
  eexists. split; [vm_compute; reflexivity|]. split; [done|]. intros σ' (e & Ho & E).
  destruct e as [[]|j a|t|]; try done.
Qed.

(** A session that waits, when the server has not woken up yet *)
Definition asks_kick : list Event := connect 2 ++ log_in 7 0 ++ log_in 8 1 ++ ask_site (KickUser 8 false 0) 0.

Lemma answers_come_witness :
  inevitable 16 100 (λ _, 10%Z)
    (λ σ', answered 0 σ' ∨ shutdown σ' = true ∨ 16 ≤ pipe σ' ∨ undefined σ') (state_16 asks_kick).
Proof.
  apply (answers_come 16 100 (λ _, 10%Z) 0 (MkConn LoggedIn (Some 7%Z) true false false None (Waiting CDone)) CDone).
  - apply (events_reachable _ _ _ asks_kick). vm_compute. reflexivity.
  - intros why. vm_compute. discriminate.
  - vm_compute. reflexivity.
  - reflexivity.
Defined.

(** A server that has begun to stop, with a session that only waits for its client *)
Definition shuts_down : list Event :=
  connect 1 ++ log_in 7 0 ++ [EPush Exit; EWrite] ++ wake_up ++ [EServer CGo; EServer CGo; EServer CGo; EServer CGo; EServer (COrder [0])].

Lemma server_stops_witness :
  inevitable 16 100 (λ _, 10%Z)
    (λ σ', (spc σ' = Stopped ∧ clients σ' = ∅ ∧ represents (logins σ') []) ∨
           (hangs σ' ∧ ∀ σ'', ¬ moves 16 100 (λ _, 10%Z) σ' σ'') ∨ 16 ≤ pipe σ' ∨ undefined σ') (state_16 shuts_down).
Proof.
  apply (server_stops 16 100 (λ _, 10%Z) (state_16 shuts_down)).
  - apply (events_reachable _ _ _ shuts_down). vm_compute. reflexivity.
  - intros why. vm_compute. discriminate.
  - exists [0]. left. vm_compute. reflexivity.
Defined.
